(* ===== verification/_CoqProject ===== *)
-Q . S2P
Prelude.v
Machine.v
XdrHandle.v
XdrStream.v
XdrMem.v
XdrIoq.v
XdrIoqFacts.v
XdrInline.v
XdrWire.v
XdrCodecs.v
XdrStruct.v
XdrTheorems.v
XdrIoqTheorems.v
RpcMsg.v
Protocols.v
ProtocolFacts.v
GssWindow.v
SvcAuthUnix.v
ProtocolTheorems.v
RpcMsgFacts.v
RpcMsgTheorems.v
SvcCallout.v
SvcAuth.v
RbTree.v
RbTreeFacts.v
RbTreeBalance.v
RbTreeOps.v
RbTreeTheorems.v
RbTreeX.v
RbTreeXFacts.v
GssCache.v
GssCacheFacts.v
GssCacheTheorems.v
SvcAuthGss.v
SvcAuthGssFacts.v
SvcAuthGssTheorems.v
SvcIoqZc.v
SvcIoqZcFacts.v
SvcIoqZcTheorems.v
SvcIoq.v
SvcIoqFacts.v
SvcIoqTheorems.v
SvcVc.v
SvcVcFacts.v
SvcVcTheorems.v
SvcVcRecords.v
StreamTheorems.v
SvcVcReply.v
SvcVcReplyTheorems.v
WorkPool.v
WorkPoolTheorems.v
Crc32Tables.v
Crc32.v
Crc32Theorems.v
StrL.v
RbTable.v
ClntReq.v
ClntReqFacts.v
ClntReqTheorems.v
ClntReqThreads.v
ClntReqErrors.v
ClntAuth.v
ClntVc.v
ClntVcTheorems.v
RpcEndToEnd.v
SvcXprt.v
SvcXprtFacts.v
SvcXprtTheorems.v
SvcXprtErrors.v
SvcXprtClean.v
