(* ===== verification/Prelude.v ===== *)
(** * A verification library for ntirpc

    ntirpc is the transport-independent ONC RPC library of NFS-Ganesha.  A program
    registers services ([svc_reg]); transports (src/svc_vc.c, src/svc_dg.c,
    src/svc_rdma.c) receive records into buffers, on which an XDR stream
    (src/xdr_mem.c, src/xdr_ioq.c, src/xdr_rdma.c) is opened; the message layer
    (src/rpc_callmsg.c, src/rpc_dplx_msg.c, src/rpc_prot.c) decodes the call header;
    the authentication flavours (src/svc_auth_*.c) check its credential; the service
    is looked up ([svc_lookup]), decodes its arguments with XDR filters
    (ntirpc/rpc/xdr_inline.h, src/rpcb_prot.c, ...) and answers with [svc_sendreply] or a
    svcerr routine.  A client (src/clnt_generic.c, src/clnt_vc.c) prepares a credential
    (src/auth_*.c), sends a call on its stream, and matches the replies that come back to
    the requests that wait for them or lets their timers (src/svc_rqst.c) end them.  This
    library models that path from the call of a client to the bytes on a TCP socket, up to
    the dispatch of the service and back to the request that waits, on streams over memory
    and over queues of buffers, and proves what each layer promises to the next.  It also
    models what the transports rest on: the red-black trees that hold requests, timers,
    security contexts and the transports themselves (src/rbtree.c), the table of
    transports with their references (src/svc_xprt.c) and the pool of worker threads
    (src/work_pool.c).

    ** Files

    - Prelude.v (this file): outcomes of C code ([out]: a value, an abort, undefined
      behaviour, fuel exhausted) with their monad and notations, the hint databases
      and the generic lemmas.
    - Machine.v: fixed-width integers as [Z] with their wrap-around, big-endian words,
      byte-addressed memory as a finite map (an access outside it is [Ub]), heap
      objects reached through pointers ([ptr]: null, live or released).
    - XdrHandle.v: ntirpc/rpc/xdr.h.  The handle [XDR P], the operations vector as the
      class [XdrOps P], and the in-line accessors (xdr_getuint32, xdr_inline_encode,
      ...), each with its fast path in the current buffer and its slow path.
    - XdrStream.v: the contracts [XdrInput] and [XdrOutput] between a stream and the
      filters.  Every filter theorem is proved against them.
    - XdrMem.v: src/xdr_mem.c, all operations, with the instances of both contracts.
    - XdrIoq.v, XdrIoqFacts.v, XdrIoqTheorems.v: src/xdr_ioq.c, queues of buffers that
      grow by allocation; the allocator is the class [Allocator].  The facts discharge
      both contracts again, so the filter theorems hold on queues too.
    - XdrInline.v: ntirpc/rpc/xdr_inline.h, src/xdr.c, src/xdr_reference.c and
      src/xdr_float.c, one definition per filter.
    - XdrWire.v, XdrCodecs.v, XdrStruct.v: wire formats ([spec]), the class [Codec f S]
      (the filter [f] implements [S]: it writes the format, reads it back, is total on
      arbitrary bytes and releases what it built), the instances for the generic
      filters, and the combinators for structures and linked lists.
    - XdrTheorems.v: what the filters guarantee.
    - RpcMsg.v, RpcMsgFacts.v, RpcMsgTheorems.v: ntirpc/rpc/rpc_msg.h,
      ntirpc/rpc/auth_inline.h, src/rpc_callmsg.c, src/rpc_dplx_msg.c, src/rpc_prot.c.
    - Protocols.v, ProtocolFacts.v, ProtocolTheorems.v: src/authunix_prot.c,
      src/pmap_prot.c, src/pmap_prot2.c, src/pmap_rmt.c, src/rpcb_prot.c and the
      filters of src/authgss_prot.c.
    - GssWindow.v: the replay window of src/svc_auth_gss.c.
    - SvcAuthUnix.v: src/svc_auth_unix.c.
    - SvcCallout.v: the service registry and the reply routines of src/svc.c.
    - SvcAuth.v: src/svc_auth.c, src/svc_auth_none.c and src/svc_auth_tls.c, the
      dispatch of a decoded call on its flavour.
    - RbTree.v: src/rbtree.c on a heap of nodes linked by pointers.  RbTreeFacts.v
      relates heaps to trees and contexts, RbTreeBalance.v proves the two rebalancing
      loops, RbTreeOps.v the walks, linking and unlinking, RbTreeTheorems.v the results,
      for every comparison of the class [Comparison].
    - RbTreeX.v, RbTreeXFacts.v: src/rbtree_x.c and ntirpc/misc/rbtree_x.h, partitions of
      trees with an array in front of each.
    - GssCache.v, GssCacheFacts.v, GssCacheTheorems.v: src/authgss_hash.c, the cache of
      RPCSEC_GSS contexts.  Each operation is split where it takes and releases the mutex
      of a partition; [cache_step] lets the sections of any number of requests, of
      collection and of clearing interleave, over the references that requests hold.
    - SvcAuthGss.v, SvcAuthGssFacts.v, SvcAuthGssTheorems.v: the handler [_svcauth_gss] of
      src/svc_auth_gss.c.  The answers of the GSS-API, the clock, the allocator and the
      transport during one call are a record and arguments.
    - SvcIoqZc.v, SvcIoqZcFacts.v, SvcIoqZcTheorems.v: the zero-copy part of src/svc_ioq.c
      with the fields of src/rpc_dplx_internal.h.  The bit window of confirmed cookies
      represents a set ([holds]); [zc_step] is a connection whose sends the kernel confirms
      in any order, with a ghost log of which reply each cookie belongs to.
    - SvcIoq.v, SvcIoqFacts.v, SvcIoqTheorems.v: the sender and the write queue of
      src/svc_ioq.c.  The socket is a list of answers, one for each sendmsg; events
      ([out_event]) queue replies and run the writer in any order, and a run may see
      replies that other threads queue meanwhile.
    - SvcVc.v, SvcVcFacts.v, SvcVcTheorems.v, SvcVcRecords.v: svc_vc_recv of src/svc_vc.c
      with the proxy header (ntirpc/rpc/haproxy.h).  The socket is the list of bytes the
      peer will send and the answers to each recv; [expecting] relates a transport between
      calls to the fragments still to come.
    - StreamTheorems.v: the writer of one transport composed with the receiver of another.
    - SvcVcReply.v, SvcVcReplyTheorems.v: svc_vc_decode and svc_vc_reply of src/svc_vc.c,
      and the way of an answer from the server to its client.
    - WorkPool.v, WorkPoolTheorems.v: src/work_pool.c.  A state is what the pool's mutex
      guards, the threads with their position in [work_pool_thread], and the pending
      calls of [work_pool_submit]; the relations [worker_step], [timeout_step],
      [caller_step] and [fault_step] are the sections of code between two releases of
      the mutex.
    - Crc32Tables.v, Crc32.v, Crc32Theorems.v: src/rpc_crc32.c, its tables and the two ways
      it computes CRC-32C, against the shift register that defines the checksum.
    - StrL.v: src/strlcpy.c and src/strlcat.c.
    - RbTable.v: a tree as its clients see it, a list of the nodes sorted by a key, with
      one lemma for each operation; the layer between the trees and the client files.
    - ClntReq.v: the requests of src/clnt_generic.c and the timers of src/svc_rqst.c.  A
      connection ([conn]) holds the requests by address, the tree of those that wait for a
      reply, the tree of timers of its event channel, the last transaction id and the
      handle.  Functions that other threads can interrupt are composed of the pieces
      between their atomic operations and locks.
    - ClntReqFacts.v: the invariant [conn_ok] and what every operation does to it.
      ClntReqTheorems.v: histories of operations ([calls_step]) with the references their
      callers hold; the match of replies; waiting.  ClntReqThreads.v: a caller, a reply,
      the event loop and its task on one request, their pieces in any order ([sys_step]).
      ClntReqErrors.v: histories that go wrong.
    - ClntAuth.v: src/auth_none.c and src/auth_unix.c, whose prepared bytes are written
      and read through memory streams on arrays.
    - ClntVc.v, ClntVcTheorems.v: the header, the calls and the control of src/clnt_vc.c;
      the class [Authenticator] is what a transport relies on; [cl_step] is a client whose
      calls and runs of its writer interleave.
    - RpcEndToEnd.v: the authenticators as instances of that class, and client and server
      composed.
    - SvcXprt.v: the table of transports of src/svc_xprt.c, the references and the
      destruction of a transport (ntirpc/rpc/svc.h, src/svc_vc.c, src/svc_rqst.c).  The
      state is the partitions of trees keyed by descriptor, the transports by address, the
      mutexes held and the tasks queued; functions that take a mutex of a transport are
      composed of the pieces between its acquisitions.
    - SvcXprtFacts.v: the invariant [tables] of the partitions.  SvcXprtTheorems.v: the
      pieces of any number of threads in any order ([xstep]), with the references each
      thread holds and the stage of each destruction as ghost state.  SvcXprtErrors.v:
      runs that go wrong.  SvcXprtClean.v: the sweep of idle transports.

    ** How the code is modelled

    A function that can fail returns [out (bool * ...)] with the C result first.  A
    handle and the memory its pointers address are passed along ([x_mem]).  An object
    a filter allocates, fills or releases is a [ptr]; using a released one is [Ub], so
    "returns a value" in a theorem also says that no byte outside the buffers and no
    released object was touched.  [assert] and [abort] are [Abort].  Logging and
    tracing calls are left out.  Locks are left out where a function works on objects
    owned by the caller or holds one lock throughout; the thread pool, the context cache
    and the requests of a client, where they matter, are step relations whose steps
    interleave freely.

    ** What the theorems show

    - Message layer: the decoder is total and exact on arbitrary bytes, call and reply
      headers survive the wire between any two streams, in-line or word by word, and
      the caller is told the error the server meant (RpcMsgTheorems.v, SvcCallout.v).
    - Filters: any codec makes a round trip through a real buffer; decoding arbitrary
      bytes is free of undefined behaviour and what strings, counted bytes and arrays of
      strings built can be released, whether the decoder succeeded or not; the size
      computation of arrays cannot overflow; doubles, 16- and 8-bit integers.
    - Memory streams: they keep the stream contracts; positions, ranges and vectors of
      buffers are inside the buffer for every 32-bit argument.
    - Protocols: lists of registrations end on every input and are released node by
      node; the back-patched length of a remote call; credentials and addresses.
    - Authentication: the in-place AUTH_SYS parser agrees with the generic filter; the
      RPCSEC_GSS window answers as its intent says -- a number is accepted that is less than
      the window below the highest and was not accepted before -- but for the highest number
      itself, which is accepted whenever it is repeated.
    - RPCSEC_GSS contexts: in every interleaving a context is allocated just while a
      request or the cache refers to it, and no section touches one that is gone; a
      handle finds the context it names; disabling leaves nothing behind; collection is
      bounded.  The handler is made of steps of that system and returns the references it
      took; data is passed on only under a context that is cached, current and has
      verified the client's signature of the header; an established context serves.
    - Dispatch: arbitrary bytes lead to a verdict on the call and to a verifier the reply
      encoder accepts; the first handler
      registered for a flavour stays; the probe of AUTH_TLS is answered only in the
      form RFC 9289 asks for.
    - Buffer queues: they keep the stream contracts across buffer boundaries and growth;
      vectors of buffers cover exactly the range asked for; positions select the byte
      they name.
    - Red-black trees: every operation returns, keeps the tree ordered and balanced and
      does to its in-order list what a sorted list would; a lookup compares at most
      twice the logarithm of the size.
    - Thread pool: submitted work is queued, held by one thread or done, each once;
      with workers left to run, all of it gets done; where no thread failed to be created,
      shutdown ends with every thread gone and the queue empty.
    - Zero-copy replies: a reply is destroyed only when the kernel has confirmed every send
      of it, and then it is; a completion reported too far ahead is lost for good and
      strands what follows; teardown releases everything once.
    - Stream writer: in every interleaving and however the socket takes the bytes, the
      wire holds a beginning of the framed replies in order, nothing is lost or released
      twice, and queued replies are attended to.
    - Stream receiver: no peer can make it leave its buffers, fail an assertion or change
      its address after the first record; well-formed records are handed over whole and in
      order, however the socket splits them, where no fragment before the last is taken for a
      proxy header.
    - End to end: values encoded on one side are decoded on the other; every answer of a
      server reaches its client with its transaction id, status and results; the calls a
      client makes are heard by its server with their arguments and credentials, and the
      answers, in whatever order, end the requests they belong to.
    - Requests of a client: in every history in which callers use requests they hold, no
      operation touches one that is gone and the two trees hold just the requests that
      wait and that have a timer; reply and timer, however they interleave, complete a
      call once; a reply finds the request with its id and no other; waiting ends after
      at most one round more than the refreshes a request is given.
    - Authenticators: what a client sends is always the credential it holds; a short
      credential is taken up and given up again for the original one with a new time; the
      server finds in an AUTH_SYS credential what the client put there, and accepts it just
      when its user and group ids are known.
    - Control: the version and program of a handle are those last set.
    - Transports: in every interleaving a transport is allocated just while it is counted,
      a thread that looks one up holds a reference to it, and its destruction runs once
      and in order; the sweep of idle transports ends, and destroys the idle ones it may
      destroy and no other.
    - Checksums and strings: CRC-32C is the register's for every address and length, and
      tells apart buffers that differ within 32 bits; bounded copies stay inside the
      destination and terminate it.
    - Registry: lookups classify every list, a registered service is found, removal
      affects only its version.
    - Departures of the code from its intent, each proved on the model: sign of
      xdr_long, xdr_float, ownership in xdr_string, release of a portmapper list, the
      limit on tokens, the replay of the highest sequence number, the lowest version
      reported by svc_lookup, header reservation in memory streams, a full buffer that
      may not grow, positions in the last buffer, a unit across two buffers, a failed
      answer to the TLS probe, threads counted but not created, work submitted during
      shutdown, trees that do not lean left, a context handle read without a look at its
      length, a lock taken twice when the reply with a new context is lost, a completion
      that strands more than its own reply, a reply of two fragments without a last one,
      a fragment header that arrives in parts behind a proxy header, a reply that uses a
      request its caller has released, a failed set-up that gives back a reference it did
      not take, a timeout beyond 32 bits of milliseconds, a call that is answered and
      reported as timed out, an error reply that is asked for again, a timer on a channel
      that is gone, a short credential that does not fit, transaction ids set in the
      wrong byte order, a lookup that returns an existing transport unlocked to a caller
      that unlocks it, a destruction before the operations are set, a mark that one thread
      leaves for another in the walk over a partition, and a shutdown that goes on with a
      transport it has released.

    ** Bounds and fuel

    Loops over a list or a counter are structural.  The others take fuel, and in each case
    the theorems show it is never exhausted: [nodes_loop] gets one more than the bytes
    of memory plus the nodes of the list, and each iteration reads a word or releases a
    node; [clear_loop] gets the size of the map, which the code has just compared with the
    distance to the new number; [unreg_loop] gets the length of the list, and each iteration removes an
    entry; the copy loops of a buffer queue get its length and two rounds for each
    byte, one of which may append a buffer; the loops of a red-black tree get one more
    than the nodes of the heap ([node_fuel]), and each round goes one level up or
    down; collection of a partition gets the length of its queue; the loops of the sender
    get the number of the socket's answers, since each round uses one; the loops over the
    completion window get its size; the loops over a proxy header get its length, and each
    round reads a byte at least; a run of the writer goes back to its loop at most once for
    the replies queued meanwhile; arming a timer ([expire_insert_loop]) and the sweep of
    timers ([sweep_loop]) get the number of nodes of the tree, and each round passes or
    removes one; [clnt_req_wait_reply] gets a list of rounds, and the theorem bounds the
    number it needs; a walk over a partition of transports ([foreach_walk]) and its
    shutdown ([shutdown_part]) get the nodes of its tree, and a walk is begun again at most
    as often as the code allows.  The liveness theorems of the thread pool use a measure on states, not fuel.
    Integers keep the width of their C type on an LP64 target.

    ** Not modelled

    The stream transport is modelled in the build without TLS and without parsing of
    network identifiers, the defaults of CMakeLists.txt.  Threads wait for the flag
    SVC_XPRT_FLAG_IOQ_WRITING, so that runs of the writer follow one another in the model.
    Theorems on whole replies are for replies of one fragment (2^31 - 4 bytes at most)
    and, where the padding of a verifier would be left as the allocator returned it, for
    verifiers of whole units.  The client is modelled on one connection that is not RDMA;
    mutexes and condition variables of a request appear as the points where its pieces
    interleave.  The destruction of a transport is modelled up to its event channel, without
    the release of user data and the early shutdown of its descriptors; the turns it waits
    for SVC_XPRT_FLAG_READY are the time between two of its pieces.  The limits of the pool
    of threads are changed to such as svc_init passes only.

    Left for later: the buffer
    pools of src/xdr_ioq.c; the wrapping and unwrapping of RPCSEC_GSS bodies
    (src/authgss_prot.c) and the client of src/auth_gss.c; the statistics of
    src/rpcb_st_xdr.c and xdr_rpcb_rmtcallargs; the datagram client and server; universal
    addresses in src/rpc_generic.c; src/city.c.

    Outside the scope: sockets, epoll, RDMA verbs and TLS libraries, name services and
    configuration files, tracing and metrics, and the DES and key-server code, whose
    headers are not part of the repository. *)
From stdpp Require Import base gmap list fin_maps strings.
From Stdlib Require Import ZArith Lia.

#[global] Open Scope Z_scope.

Ltac Zify.zify_post_hook ::= Z.to_euclidean_division_equations.

Create HintDb ntirpc discriminated.
Create Rewrite HintDb ntirpc_len.

(** ** Outcomes of a C function *)

(** What running a piece of C yields: a value, a call of [abort]/a failed
    [assert], an access outside allocated memory (undefined behaviour), or more
    loop iterations than the fuel given to the model. *)
Inductive out (A : Type) : Type :=
| Ret (a : A)
| Abort
| Ub
| OutOfFuel.
Arguments Ret {A} a.
Arguments Abort {A}.
Arguments Ub {A}.
Arguments OutOfFuel {A}.

Definition obind {A B} (m : out A) (k : A → out B) : out B :=
  match m with
  | Ret a => k a
  | Abort => Abort
  | Ub => Ub
  | OutOfFuel => OutOfFuel
  end.

Declare Scope out_scope.
Notation "'let!' p := m 'in' k" := (obind m (fun p => k))
  (at level 10, p pattern, m at level 100, k at level 200,
   format "'let!'  p  :=  m  'in' '//' k") : out_scope.
#[global] Open Scope out_scope.

(** An access that must stay inside allocated memory. *)
Definition access {A} (o : option A) : out A :=
  match o with Some a => Ret a | None => Ub end.

Lemma bind_ret {A B} (a : A) (k : A → out B) : obind (Ret a) k = k a.
Proof. done. Qed.

Lemma Forall2_weaken_r {A B} (P R : A → B → Prop) (Q : B → Prop) l k :
  Forall2 P l k → Forall Q k → (∀ x y, P x y → Q y → R x y) → Forall2 R l k.
Proof. intros HP HQ HR. induction HP; [constructor|]. apply Forall_cons in HQ as [? ?]. constructor; auto. Qed.

Lemma Forall2_meet {A B D} (P : A → B → Prop) (Q : D → B → Prop) (R : A → D → Prop) l k m :
  Forall2 P l k → Forall2 Q m k → (∀ x y z, P x y → Q z y → R x z) → Forall2 R l m.
Proof.
  intros HP HQ HR. revert m HQ. induction HP as [|x y l k Hxy _ IH]; intros m HQ.
  - apply Forall2_nil_inv_r in HQ as ->. constructor.
  - apply Forall2_cons_inv_r in HQ as (z & m' & Hz & HQ & ->). constructor; eauto.
Qed.

Lemma bind_inv {A B} (m : out A) (k : A → out B) (b : B) :
  obind m k = Ret b → ∃ a, m = Ret a ∧ k a = Ret b.
Proof. destruct m; simpl; intros; simplify_eq; eauto. Qed.

(** ** Lists of bytes *)

Definition byte (z : Z) : Prop := 0 ≤ z < 256.
Abbreviation bytes := (Forall byte).

Abbreviation Zlen l := (Z.of_nat (length l)).

Lemma bytes_app l1 l2 : bytes (l1 ++ l2) ↔ bytes l1 ∧ bytes l2.
Proof. apply Forall_app. Qed.

Lemma bytes_replicate n z : byte z → bytes (replicate n z).
Proof. intros; by apply Forall_replicate. Qed.

Lemma Zlen_app {A} (l1 l2 : list A) : Zlen (l1 ++ l2) = Zlen l1 + Zlen l2.
Proof. rewrite length_app. lia. Qed.

#[export] Hint Rewrite @length_app @length_take @length_drop @length_replicate
  @length_cons @length_nil @length_fmap @length_insert : ntirpc_len.

(** [len] normalises lengths and closes the arithmetic. *)
Ltac len := autorewrite with ntirpc_len in *; simpl length in *; lia.

(** [step_out H]: split the outcome of a bind recorded in [H]. *)
Ltac step_out H :=
  let a := fresh "r" in let Ha := fresh "Hr" in
  apply bind_inv in H as (a & Ha & H).

Lemma take_app_exact {A} (l1 l2 : list A) n : n = length l1 → take n (l1 ++ l2) = l1.
Proof. intros ->. by rewrite take_app_length. Qed.

Lemma drop_app_exact {A} (l1 l2 : list A) n : n = length l1 → drop n (l1 ++ l2) = l2.
Proof. intros ->. by rewrite drop_app_length. Qed.

Lemma filter_all {A} (Q : A → Prop) `{!∀ x, Decision (Q x)} l : Forall Q l → filter Q l = l.
Proof. induction 1; [done|]. rewrite filter_cons_True by done. by f_equal. Qed.

Lemma filter_head (a : Z) l : NoDup (a :: l) → filter (λ b, b ≠ a) (a :: l) = l.
Proof.
  intros [Ha _]%NoDup_cons. rewrite filter_cons_False by (intros H; by apply H).
  apply filter_all, Forall_forall. intros b Hb ->. done.
Qed.
