(* ===== verification/Machine.v ===== *)
(** * Machine integers, byte order, memory and object pointers

    The C types of the source on the LP64 targets it is built for: fixed-width
    integers as [Z] with their conversions written out, big-endian (network)
    byte order as lists of bytes, byte-addressed memory as a finite map from
    addresses to bytes, and pointers to heap objects that a filter allocates or
    frees. *)
From stdpp Require Import base gmap list fin_maps.
From Stdlib Require Import ZArith Lia.
From S2P Require Import Prelude.

(** ** Fixed-width conversions *)

Definition wrapu (w : Z) (z : Z) : Z := z mod 2 ^ w.
Definition wraps (w : Z) (z : Z) : Z :=
  let u := z mod 2 ^ w in if u <? 2 ^ (w - 1) then u else u - 2 ^ w.

Abbreviation u8 := (wrapu 8).
Abbreviation u16 := (wrapu 16).
Abbreviation u32 := (wrapu 32).
Abbreviation u64 := (wrapu 64).
Abbreviation s8 := (wraps 8).
Abbreviation s16 := (wraps 16).
Abbreviation s32 := (wraps 32).
Abbreviation s64 := (wraps 64).

Definition is_u (w z : Z) : Prop := 0 ≤ z < 2 ^ w.
Definition is_s (w z : Z) : Prop := - 2 ^ (w - 1) ≤ z < 2 ^ (w - 1).

#[export] Instance is_u_dec w z : Decision (is_u w z).
Proof. unfold is_u. apply _. Defined.
#[export] Instance is_s_dec w z : Decision (is_s w z).
Proof. unfold is_s. apply _. Defined.

Lemma wrapu_id w z : is_u w z → wrapu w z = z.
Proof. apply Z.mod_small. Qed.

Lemma wrapu_range w z : 0 ≤ w → is_u w (wrapu w z).
Proof. intros. apply Z.mod_pos_bound. lia. Qed.

Lemma wraps_id w z : 0 < w → is_s w z → wraps w z = z.
Proof.
  unfold wraps, is_s. intros Hw Hz.
  assert (Hp : 2 ^ w = 2 * 2 ^ (w - 1)) by (rewrite <- Z.pow_succ_r by lia; f_equal; lia).
  destruct (Z_lt_le_dec z 0).
  - rewrite <- (Z.mod_add z 1) by lia. rewrite Z.mod_small by lia.
    case (Z.ltb_spec); lia.
  - rewrite Z.mod_small by lia. case (Z.ltb_spec); lia.
Qed.

Lemma wraps_range w z : 0 < w → is_s w (wraps w z).
Proof.
  unfold wraps, is_s. intros Hw.
  assert (Hp : 2 ^ w = 2 * 2 ^ (w - 1)) by (rewrite <- Z.pow_succ_r by lia; f_equal; lia).
  pose proof (Z.mod_pos_bound z (2 ^ w)) as ?. case (Z.ltb_spec); lia.
Qed.

Lemma wrapu_wraps w z : 0 < w → wrapu w (wraps w z) = wrapu w z.
Proof.
  unfold wraps, wrapu. intros Hw. case (Z.ltb_spec); intros.
  - by rewrite Z.mod_mod by lia.
  - rewrite <- (Z.mod_add _ 1) by lia.
    replace (z mod 2 ^ w - 2 ^ w + 1 * 2 ^ w) with (z mod 2 ^ w) by lia.
    by rewrite Z.mod_mod by lia.
Qed.

Lemma wraps_wrapu w z : 0 < w → wraps w (wrapu w z) = wraps w z.
Proof. unfold wraps, wrapu. intros. by rewrite Z.mod_mod by lia. Qed.

Lemma wraps_wrapu_id w z : 0 < w → is_s w z → wraps w (wrapu w z) = z.
Proof. intros. rewrite wraps_wrapu by done. by apply wraps_id. Qed.

Lemma wrapu_wrapu w z : wrapu w (wrapu w z) = wrapu w z.
Proof. apply Zmod_mod. Qed.

Lemma wrapu_narrow w w' z : 0 ≤ w ≤ w' → wrapu w (wrapu w' z) = wrapu w z.
Proof.
  intros Hw. unfold wrapu. apply Z.mod_mod_divide. exists (2 ^ (w' - w)).
  rewrite <- Z.pow_add_r by lia. f_equal. lia.
Qed.

Lemma wrapu_add_narrow w w' a b :
  0 ≤ w ≤ w' → wrapu w (wrapu w' a + wrapu w' b) = wrapu w (a + b).
Proof.
  intros Hw. pose proof (wrapu_narrow w w' a Hw). pose proof (wrapu_narrow w w' b Hw).
  unfold wrapu in *. rewrite (Zplus_mod (a mod 2 ^ w')), (Zplus_mod a). congruence.
Qed.

#[export] Hint Resolve wrapu_range wraps_range : ntirpc.

(** The bits of a [w]-bit number from [w] on are 0. *)
Lemma is_u_bits w x : 0 ≤ w → is_u w x ↔ ∀ i, w ≤ i → Z.testbit x i = false.
Proof.
  intros Hw. split.
  - intros Hx i Hi. rewrite <- (Z.mod_small x (2 ^ w)) by exact Hx. by apply Z.mod_pow2_bits_high.
  - intros Hb. cut (x = x mod 2 ^ w); [intros ->; apply Z.mod_pos_bound; lia|].
    apply Z.bits_inj. intros i. destruct (Z_lt_le_dec i w).
    + by rewrite Z.mod_pow2_bits_low.
    + rewrite Hb by lia. symmetry. apply Z.mod_pow2_bits_high. lia.
Qed.

Lemma lor_shiftl h l n : 0 ≤ n → 0 ≤ l < 2 ^ n → Z.lor (Z.shiftl h n) l = h * 2 ^ n + l.
Proof.
  intros Hn Hl. rewrite <- Z.shiftl_mul_pow2 by done.
  assert (Z.land (Z.shiftl h n) l = 0) as E; [|pose proof (Z.add_lor_land (Z.shiftl h n) l); lia].
  apply Z.bits_inj'. intros i Hi. rewrite Z.land_spec, Z.bits_0, Z.shiftl_spec by done.
  destruct (Z_lt_le_dec i n); [by rewrite Z.testbit_neg_r by lia|].
  rewrite <- (Z.mod_small l (2 ^ n)), Z.mod_pow2_bits_high by done. apply andb_false_r.
Qed.

(** ** Network byte order *)

(** The four bytes [htonl] leaves in memory for the low 32 bits of [v]. *)
Definition be32 (v : Z) : list Z :=
  [Z.land (Z.shiftr v 24) 255; Z.land (Z.shiftr v 16) 255;
   Z.land (Z.shiftr v 8) 255; Z.land v 255].

(** [ntohl] of the four bytes found in memory. *)
Definition be_dec (l : list Z) : Z := fold_left (λ acc b, acc * 256 + b) l 0.

Lemma land_255 v : Z.land v 255 = v mod 256.
Proof. change 255 with (Z.ones 8). by rewrite Z.land_ones. Qed.

Lemma be32_bytes v : bytes (be32 v).
Proof.
  unfold be32, byte. rewrite !land_255.
  repeat constructor; apply Z.mod_pos_bound; lia.
Qed.

Lemma be32_length v : length (be32 v) = 4%nat.
Proof. done. Qed.

Lemma be_dec_be32 v : be_dec (be32 v) = u32 v.
Proof.
  unfold be32, be_dec, wrapu; simpl. rewrite !land_255.
  rewrite !Z.shiftr_div_pow2 by lia. change (2 ^ 32) with 4294967296.
  change (2 ^ 24) with 16777216. change (2 ^ 16) with 65536. change (2 ^ 8) with 256.
  lia.
Qed.

Lemma be32_u32 v : be32 (u32 v) = be32 v.
Proof.
  unfold be32, wrapu. rewrite !land_255, !Z.shiftr_div_pow2 by lia.
  change (2 ^ 32) with 4294967296.
  change (2 ^ 24) with 16777216. change (2 ^ 16) with 65536. change (2 ^ 8) with 256.
  do 4 (apply (f_equal2 cons); [lia|]); done.
Qed.

Lemma be32_be_dec l : length l = 4%nat → bytes l → be32 (be_dec l) = l.
Proof.
  intros Hl Hb. destruct l as [|a [|b [|c [|d [|]]]]]; try discriminate Hl.
  repeat (apply Forall_cons in Hb as [? Hb]). unfold byte in *.
  unfold be32, be_dec; simpl. rewrite !land_255, !Z.shiftr_div_pow2 by lia.
  change (2 ^ 24) with 16777216. change (2 ^ 16) with 65536. change (2 ^ 8) with 256.
  do 4 (apply (f_equal2 cons); [lia|]); done.
Qed.

Lemma be_dec_range l : length l = 4%nat → bytes l → is_u 32 (be_dec l).
Proof.
  intros Hl Hb. destruct l as [|a [|b [|c [|d [|]]]]]; try discriminate Hl.
  repeat (apply Forall_cons in Hb as [? Hb]). unfold byte, is_u in *.
  unfold be_dec; simpl. change (2 ^ 32) with 4294967296. lia.
Qed.

#[global] Opaque be32.
#[export] Hint Resolve be32_bytes be_dec_range : ntirpc.
#[export] Hint Rewrite be32_length : ntirpc_len.

(** [RNDUP] of xdr.h: round up to a multiple of [BYTES_PER_XDR_UNIT]. *)
Definition BYTES_PER_XDR_UNIT : Z := 4.
Definition RNDUP (x : Z) : Z :=
  Z.land (u32 (x + BYTES_PER_XDR_UNIT - 1)) (Z.lnot (BYTES_PER_XDR_UNIT - 1)).

Lemma RNDUP_spec x : 0 ≤ x → x + 3 < 2 ^ 32 → RNDUP x = 4 * ((x + 3) / 4).
Proof.
  intros. unfold RNDUP, BYTES_PER_XDR_UNIT. rewrite wrapu_id by (unfold is_u; lia).
  change (4 - 1) with (Z.ones 2). replace (x + 4 - 1) with (x + 3) by lia.
  rewrite <- Z.ldiff_land. rewrite Z.ldiff_ones_r by lia.
  rewrite Z.shiftl_mul_pow2, Z.shiftr_div_pow2 by lia. change (2 ^ 2) with 4. lia.
Qed.

(** ** Memory *)

(** Allocated byte addresses; an address outside the domain is not allocated. *)
Abbreviation heap := (gmap Z Z).

Fixpoint load (h : heap) (a : Z) (n : nat) : option (list Z) :=
  match n with
  | O => Some []
  | S n => match h !! a, load h (a + 1) n with
           | Some b, Some bs => Some (b :: bs)
           | _, _ => None
           end
  end.

Fixpoint store (h : heap) (a : Z) (bs : list Z) : option heap :=
  match bs with
  | [] => Some h
  | b :: bs => match h !! a with
               | Some _ => store (<[a := b]> h) (a + 1) bs
               | None => None
               end
  end.

Definition allocd (h : heap) (a n : Z) : Prop :=
  ∀ i, a ≤ i < a + n → is_Some (h !! i).

(** [h'] differs from [h] at most inside [a, a+n), on the same allocation. *)
Definition same_outside (h h' : heap) (a n : Z) : Prop :=
  dom h' = dom h ∧ ∀ i, ¬ (a ≤ i < a + n) → h' !! i = h !! i.

Lemma load_length h a n l : load h a n = Some l → length l = n.
Proof.
  revert a l. induction n as [|n IH]; simpl; intros a l Hl; [by simplify_eq|].
  destruct (h !! a), (load h (a + 1) n) eqn:E; simplify_eq/=. f_equal. eauto.
Qed.

Lemma load_app h a n m :
  load h a (n + m) =
    match load h a n, load h (a + Z.of_nat n) m with
    | Some l1, Some l2 => Some (l1 ++ l2)
    | _, _ => None
    end.
Proof.
  revert a. induction n as [|n IH]; intros a; simpl.
  - rewrite Z.add_0_r. by destruct (load h a m).
  - replace (a + Z.of_nat (S n)) with (a + 1 + Z.of_nat n) by lia.
    rewrite IH. by destruct (h !! a), (load h (a + 1) n),
      (load h (a + 1 + Z.of_nat n) m).
Qed.

Lemma load_app_inv h a l1 l2 n :
  load h a n = Some (l1 ++ l2) → n = (length l1 + length l2)%nat →
  load h a (length l1) = Some l1 ∧ load h (a + Zlen l1) (length l2) = Some l2.
Proof.
  intros H ->. rewrite load_app in H.
  destruct (load h a (length l1)) as [k1|] eqn:E1; [|done].
  destruct (load h _ (length l2)) as [k2|] eqn:E2; [|done].
  apply load_length in E1 as L1. simplify_eq.
  apply app_inj_1 in H as [-> ->]; auto.
Qed.

Lemma load_concat h a l1 l2 n m :
  load h a n = Some l1 → load h (a + Z.of_nat n) m = Some l2 →
  load h a (n + m) = Some (l1 ++ l2).
Proof. intros H1 H2. by rewrite load_app, H1, H2. Qed.

Lemma load_ext h h' a n :
  (∀ i, a ≤ i < a + Z.of_nat n → h' !! i = h !! i) → load h' a n = load h a n.
Proof.
  revert a. induction n as [|n IH]; intros a H; simpl; [done|].
  rewrite H by lia. rewrite IH; [done|]. intros. apply H. lia.
Qed.

Lemma load_allocd h a n : allocd h a (Z.of_nat n) → ∃ l, load h a n = Some l.
Proof.
  revert a. induction n as [|n IH]; intros a H; simpl; [eauto|].
  destruct (H a) as [b ->]; [lia|].
  destruct (IH (a + 1)) as [l ->]; [|eauto]. intros i ?. apply H. lia.
Qed.

Lemma load_is_allocd h a n l : load h a n = Some l → allocd h a (Z.of_nat n).
Proof.
  revert a l. induction n as [|n IH]; intros a l; simpl; [intros _ i ?; exfalso; lia|].
  destruct (h !! a) eqn:E, (load h (a + 1) n) eqn:E'; try done.
  intros _ i Hi. destruct (decide (i = a)) as [->|]; [eauto|].
  eapply IH; [done|lia].
Qed.

(** Distinct allocated addresses: a load is no longer than the memory. *)
Lemma load_size h a n l : load h a n = Some l → (length l ≤ size h)%nat.
Proof.
  intros H. apply load_length in H as Hl. apply load_is_allocd in H. subst n.
  rewrite <- size_dom.
  assert (Hs : list_to_set (C := gset Z) (seqZ a (Zlen l)) ⊆ dom h).
  { intros i Hi. apply elem_of_list_to_set, elem_of_seqZ in Hi. apply elem_of_dom, H. lia. }
  apply subseteq_size in Hs. rewrite size_list_to_set in Hs by apply NoDup_seqZ.
  rewrite length_seqZ in Hs. lia.
Qed.

Lemma store_dom h a bs h' : store h a bs = Some h' → dom h' = dom h.
Proof.
  revert h a. induction bs as [|b bs IH]; simpl; intros h a H; [by simplify_eq|].
  destruct (h !! a) eqn:E; [|done]. apply IH in H. rewrite H, dom_insert_L.
  assert (a ∈ dom h) by (apply elem_of_dom; eauto). set_solver.
Qed.

Lemma store_outside h a bs h' i :
  store h a bs = Some h' → ¬ (a ≤ i < a + Zlen bs) → h' !! i = h !! i.
Proof.
  revert h a. induction bs as [|b bs IH]; simpl; intros h a H Hi; [by simplify_eq|].
  destruct (h !! a) eqn:E; [|done]. rewrite (IH _ _ H) by lia.
  apply lookup_insert_ne. lia.
Qed.

Lemma store_same_outside h a bs h' :
  store h a bs = Some h' → same_outside h h' a (Zlen bs).
Proof.
  split; [by eapply store_dom|]. intros. by eapply store_outside.
Qed.

Lemma load_store h a bs h' : store h a bs = Some h' → load h' a (length bs) = Some bs.
Proof.
  revert h a. induction bs as [|b bs IH]; simpl; intros h a H; [done|].
  destruct (h !! a) eqn:E; [|done].
  rewrite (store_outside _ _ _ _ a H) by lia. rewrite lookup_insert_eq.
  by rewrite (IH _ _ H).
Qed.

Lemma load_store_disj h a bs h' c m :
  store h a bs = Some h' → (c + Z.of_nat m ≤ a ∨ a + Zlen bs ≤ c) →
  load h' c m = load h c m.
Proof. intros H ?. apply load_ext. intros. eapply store_outside; [done|lia]. Qed.

Lemma store_allocd h a bs : allocd h a (Zlen bs) → ∃ h', store h a bs = Some h'.
Proof.
  revert h a. induction bs as [|b bs IH]; simpl; intros h a H; [eauto|].
  destruct (H a) as [b0 ->]; [lia|]. apply IH. intros i Hi.
  destruct (decide (i = a)) as [->|]; [rewrite lookup_insert_eq; eauto|].
  rewrite lookup_insert_ne by done. apply H. lia.
Qed.

Lemma allocd_dom h h' a n : dom h' = dom h → allocd h a n → allocd h' a n.
Proof.
  intros Hd H i Hi. apply elem_of_dom. rewrite Hd. apply elem_of_dom. auto.
Qed.

Lemma allocd_sub h a n b m : allocd h a n → a ≤ b → b + m ≤ a + n → allocd h b m.
Proof. intros H ?? i ?. apply H. lia. Qed.

Lemma same_outside_refl h a n : same_outside h h a n.
Proof. done. Qed.

Lemma same_outside_trans h1 h2 h3 a n :
  same_outside h1 h2 a n → same_outside h2 h3 a n → same_outside h1 h3 a n.
Proof. intros [D1 E1] [D2 E2]. split; [congruence|]. intros. by rewrite E2, E1. Qed.

Lemma same_outside_mono h h' a n b m :
  same_outside h h' b m → a ≤ b → b + m ≤ a + n → same_outside h h' a n.
Proof. intros [D E] ??. split; [done|]. intros. apply E. lia. Qed.

Lemma load_same_outside h h' a n c m :
  same_outside h h' a n → (c + Z.of_nat m ≤ a ∨ a + n ≤ c) → load h' c m = load h c m.
Proof. intros [_ E] ?. apply load_ext. intros. apply E. lia. Qed.

(** A freshly allocated block holding [bs] at [a]. *)
Fixpoint block (a : Z) (bs : list Z) : heap :=
  match bs with [] => ∅ | b :: bs => <[a := b]> (block (a + 1) bs) end.

Lemma block_lookup_lt a bs i : i < a → block a bs !! i = None.
Proof.
  revert a. induction bs as [|b bs IH]; intros a Hi; simpl; [apply lookup_empty|].
  rewrite lookup_insert_ne by lia. apply IH. lia.
Qed.

Lemma load_block a bs : load (block a bs) a (length bs) = Some bs.
Proof.
  revert a. induction bs as [|b bs IH]; intros a; simpl; [done|].
  rewrite lookup_insert_eq. rewrite (load_ext (block (a + 1) bs)).
  - by rewrite IH.
  - intros i Hi. rewrite lookup_insert_ne; [done|lia].
Qed.

(** ** Pointers to objects a filter allocates or frees *)

(** A [T *] field: null, pointing to a live object, or left pointing to storage
    that was freed. *)
Inductive ptr (A : Type) : Type :=
| Pnull
| Pobj (a : A)
| Pfreed.
Arguments Pnull {A}.
Arguments Pobj {A} a.
Arguments Pfreed {A}.

Definition is_null {A} (p : ptr A) : bool :=
  match p with Pnull => true | _ => false end.

(** [*p]: only a live object can be read. *)
Definition deref {A} (p : ptr A) : out A :=
  match p with Pobj a => Ret a | _ => Ub end.

(** [mem_free(p, n)]; freeing freed storage is undefined, freeing NULL is not. *)
Definition mem_free {A} (p : ptr A) : out unit :=
  match p with Pfreed => Ub | _ => Ret tt end.

(** [mem_alloc(n)]: the contents are unspecified until written; the model marks
    them with a value that is not a byte. *)
Definition undef_byte : Z := -1.
Definition mem_alloc (n : Z) : list Z := replicate (Z.to_nat n) undef_byte.

(** Overwrite the first bytes of an object: [memcpy(dst, bs, len)]. *)
Definition overlay (dst bs : list Z) : out (list Z) :=
  if (length bs <=? length dst)%nat then Ret (bs ++ drop (length bs) dst) else Ub.

Lemma overlay_exact dst bs : length dst = length bs → overlay dst bs = Ret bs.
Proof.
  intros H. unfold overlay. rewrite H, Nat.leb_refl.
  rewrite drop_ge by lia. by rewrite app_nil_r.
Qed.

(** [strlen]: the bytes before the first NUL; no NUL inside the object is an
    access past its end. *)
Fixpoint cstr (l : list Z) : option (list Z) :=
  match l with
  | [] => None
  | b :: l => if b =? 0 then Some [] else (λ s, b :: s) <$> cstr l
  end.

Definition nonul (s : list Z) : Prop := Forall (λ b, b ≠ 0) s.

Lemma cstr_app s tl : nonul s → cstr (s ++ 0 :: tl) = Some s.
Proof.
  induction 1 as [|b s Hb Hs IH]; simpl; [done|].
  rewrite (proj2 (Z.eqb_neq b 0)) by done. by rewrite IH.
Qed.

Lemma cstr_nonul l s : cstr l = Some s → nonul s.
Proof.
  revert s. induction l as [|b l IH]; simpl; intros s H; [done|].
  destruct (Z.eqb_spec b 0); simplify_eq; [constructor|].
  destruct (cstr l) eqn:E; simplify_eq/=. constructor; [done|by apply IH].
Qed.

(** [flags & f] as a condition. *)
Definition has_flag (flags f : Z) : bool := negb (Z.land flags f =? 0).
