(* ===== verification/XdrHandle.v ===== *)
(** * The XDR handle and its in-line accessors (ntirpc/rpc/xdr.h)

    The handle is the record [XDR P], where [P] is the private state of a stream
    implementation (nothing for xdr_mem.c, the buffer queue for xdr_ioq.c) and
    the memory the handle's pointers address is carried along as [x_mem].  The
    operations vector [x_ops] is the class [XdrOps].  The in-line accessors take
    the fast path inside the current buffer and fall back to the operations
    vector, exactly as the header does. *)
From stdpp Require Import base gmap list.
From Stdlib Require Import ZArith Lia.
From S2P Require Import Prelude Machine.

(** ** Data *)

Inductive xdr_op := XDR_ENCODE | XDR_DECODE | XDR_FREE.

#[export] Instance xdr_op_eq_dec : EqDecision xdr_op.
Proof. solve_decision. Defined.

Inductive vio_type_t := VIO_HEADER | VIO_DATA | VIO_TRAILER_LEN | VIO_TRAILER.

#[export] Instance vio_type_eq_dec : EqDecision vio_type_t.
Proof. solve_decision. Defined.

Record xdr_vio := mk_vio {
  vio_base : Z;
  vio_head : Z;
  vio_tail : Z;
  vio_wrap : Z;
  vio_length : Z;
  vio_type : vio_type_t;
}.

(** [vio_wrap >= vio_tail >= vio_head >= vio_base], the comment under the struct. *)
Definition vio_wf (v : xdr_vio) : Prop :=
  vio_base v ≤ vio_head v ∧ vio_head v ≤ vio_tail v ∧ vio_tail v ≤ vio_wrap v.

Definition set_vio_tail (t : Z) (v : xdr_vio) : xdr_vio :=
  mk_vio (vio_base v) (vio_head v) t (vio_wrap v) (vio_length v) (vio_type v).
Definition set_vio_head (t : Z) (v : xdr_vio) : xdr_vio :=
  mk_vio (vio_base v) t (vio_tail v) (vio_wrap v) (vio_length v) (vio_type v).
Definition set_vio_length (n : Z) (v : xdr_vio) : xdr_vio :=
  mk_vio (vio_base v) (vio_head v) (vio_tail v) (vio_wrap v) n (vio_type v).
Definition set_vio_type (t : vio_type_t) (v : xdr_vio) : xdr_vio :=
  mk_vio (vio_base v) (vio_head v) (vio_tail v) (vio_wrap v) (vio_length v) t.

(** [x_public], [x_lib] and [x_handy] are not read by the modelled code. *)
Record XDR (P : Type) := mk_xdr {
  x_op : xdr_op;
  x_data : Z;
  x_v : xdr_vio;
  x_private : P;
  x_mem : heap;
}.
Arguments mk_xdr {P}.
Arguments x_op {P}.
Arguments x_data {P}.
Arguments x_v {P}.
Arguments x_private {P}.
Arguments x_mem {P}.

Section Setters.
Context {P : Type}.
Implicit Types x : XDR P.
Definition set_op (o : xdr_op) x := mk_xdr o (x_data x) (x_v x) (x_private x) (x_mem x).
Definition set_data (d : Z) x := mk_xdr (x_op x) d (x_v x) (x_private x) (x_mem x).
Definition set_v (v : xdr_vio) x := mk_xdr (x_op x) (x_data x) v (x_private x) (x_mem x).
Definition set_private (p : P) x := mk_xdr (x_op x) (x_data x) (x_v x) p (x_mem x).
Definition set_mem (h : heap) x := mk_xdr (x_op x) (x_data x) (x_v x) (x_private x) h.
End Setters.

(** ** The operations vector

    A [bool] function that fills [*p] on success returns an [option]; a function
    that copies into caller memory returns the bytes it copied. [x_base_tail] is
    the store [XDR_VIO(xdrs)->vio_tail = t] through [x_base]. *)
Class XdrOps (P : Type) := {
  x_getunit : XDR P → out (option Z * XDR P);
  x_putunit : XDR P → Z → out (bool * XDR P);
  x_getbytes : XDR P → Z → out (bool * list Z * XDR P);
  x_putbytes : XDR P → list Z → out (bool * XDR P);
  x_getpostn : XDR P → Z * XDR P;
  x_setpostn : XDR P → Z → bool * XDR P;
  x_base_tail : Z → XDR P → XDR P;
}.

(** A filter: one procedure per type, driven by [x_op], reading or writing the
    object it is given. *)
Definition xdrproc (P T : Type) := XDR P → T → out (bool * T * XDR P).

Definition XDR_FALSE : Z := 0.
Definition XDR_TRUE : Z := 1.

(** ** In-line accessors *)

Section Accessors.
Context {P : Type} `{XdrOps P}.
Implicit Types xdrs : XDR P.

Definition xdr_size_inline xdrs : Z := u64 (vio_wrap (x_v xdrs) - x_data xdrs).
Definition xdr_tail_inline xdrs : Z := u64 (vio_tail (x_v xdrs) - x_data xdrs).

Definition xdr_tail_update xdrs : XDR P :=
    if vio_tail (x_v xdrs) <? x_data xdrs
    then x_base_tail (x_data xdrs) (set_v (set_vio_tail (x_data xdrs) (x_v xdrs)) xdrs)
    else xdrs.

(** Read the four bytes at [x_data] when they lie before [vio_tail]. *)
Definition fast_get xdrs (slow : out (option Z * XDR P)) : out (option Z * XDR P) :=
    let future := x_data xdrs + 4 in
    if future <=? vio_tail (x_v xdrs)
    then let! l := access (load (x_mem xdrs) (x_data xdrs) 4) in
         Ret (Some (be_dec l), set_data future xdrs)
    else slow.

(** Store the four bytes at [x_data] when they lie before [vio_wrap]. *)
Definition fast_put xdrs (v : Z) (slow : out (bool * XDR P)) : out (bool * XDR P) :=
    let future := x_data xdrs + 4 in
    if future <=? vio_wrap (x_v xdrs)
    then let! h := access (store (x_mem xdrs) (x_data xdrs) (be32 v)) in
         Ret (true, set_data future (set_mem h xdrs))
    else slow.

(** The slow path of [xdr_getlong] sign-extends, the fast path does not. *)
Definition xdr_getlong xdrs : out (option Z * XDR P) :=
    fast_get xdrs (let! (u, x) := x_getunit xdrs in Ret (s32 <$> u, x)).
Definition xdr_putlong xdrs (l : Z) : out (bool * XDR P) :=
    fast_put xdrs (s32 l) (x_putunit xdrs (u32 l)).

Definition xdr_inline_decode xdrs (count : Z) : option Z * XDR P :=
    let future := x_data xdrs + count in
    if future <=? vio_tail (x_v xdrs)
    then (Some (x_data xdrs), set_data future xdrs)
    else (None, xdrs).

Definition xdr_inline_encode xdrs (count : Z) : option Z * XDR P :=
    let future := x_data xdrs + count in
    if future <=? vio_wrap (x_v xdrs)
    then (Some (x_data xdrs), xdr_tail_update (set_data future xdrs))
    else (None, xdrs).

Definition xdr_getuint32 xdrs : out (option Z * XDR P) :=
    fast_get xdrs (x_getunit xdrs).
Definition xdr_putuint32 xdrs (v : Z) : out (bool * XDR P) :=
    fast_put xdrs v (x_putunit xdrs v).

(** The [uint32_t] stored through a signed view of the same cell. *)
Definition xdr_getint32 xdrs : out (option Z * XDR P) :=
    let! (u, x) := xdr_getuint32 xdrs in Ret (s32 <$> u, x).
Definition xdr_putint32 xdrs (v : Z) : out (bool * XDR P) := xdr_putuint32 xdrs (u32 v).
Definition xdr_getuint16 xdrs : out (option Z * XDR P) :=
    let! (u, x) := fast_get xdrs (x_getunit xdrs) in Ret (u16 <$> u, x).
Definition xdr_putuint16 xdrs (uint16v : Z) : out (bool * XDR P) :=
    fast_put xdrs uint16v (x_putunit xdrs uint16v).
Definition xdr_getint16 xdrs : out (option Z * XDR P) :=
    let! (u, x) := xdr_getuint16 xdrs in Ret (s16 <$> u, x).
Definition xdr_putint16 xdrs (int16v : Z) : out (bool * XDR P) :=
    xdr_putuint16 xdrs (u16 int16v).
Definition xdr_getuint8 xdrs : out (option Z * XDR P) :=
    let! (u, x) := fast_get xdrs (x_getunit xdrs) in Ret (u8 <$> u, x).
Definition xdr_putuint8 xdrs (uint8v : Z) : out (bool * XDR P) :=
    fast_put xdrs uint8v (x_putunit xdrs uint8v).
Definition xdr_getint8 xdrs : out (option Z * XDR P) :=
    let! (u, x) := xdr_getuint8 xdrs in Ret (s8 <$> u, x).
Definition xdr_putint8 xdrs (int8v : Z) : out (bool * XDR P) :=
    xdr_putuint8 xdrs (u8 int8v).
Definition xdr_getenum xdrs : out (option Z * XDR P) := xdr_getint32 xdrs.
Definition xdr_putenum xdrs (enumv : Z) : out (bool * XDR P) := xdr_putint32 xdrs (s32 enumv).
Definition xdr_getbool xdrs : out (option Z * XDR P) :=
    let! (lv, x) := xdr_getint32 xdrs in
    Ret ((λ v, if v =? 0 then XDR_FALSE else XDR_TRUE) <$> lv, x).
Definition xdr_putbool xdrs (boolv : Z) : out (bool * XDR P) :=
    xdr_putint32 xdrs (if boolv =? 0 then XDR_FALSE else XDR_TRUE).

(** ** IXDR_* macros: in-line access to a reserved window at [buf] *)

Definition ixdr_get (h : heap) (buf : Z) : out (Z * Z) :=
    let! l := access (load h buf 4) in Ret (be_dec l, buf + 4).
Definition ixdr_put (h : heap) (buf v : Z) : out (heap * Z) :=
    let! h' := access (store h buf (be32 v)) in Ret (h', buf + 4).

Definition IXDR_GET_U_INT32 xdrs buf : out (Z * Z) := ixdr_get (x_mem xdrs) buf.
Definition IXDR_GET_INT32 xdrs buf : out (Z * Z) :=
    let! (v, b) := ixdr_get (x_mem xdrs) buf in Ret (s32 v, b).
(** [(t)(long)ntohl(...)]: the enum's 32 bits. *)
Definition IXDR_GET_ENUM xdrs buf : out (Z * Z) :=
    let! (v, b) := ixdr_get (x_mem xdrs) buf in Ret (s32 v, b).

Definition IXDR_PUT_INT32 xdrs buf (v : Z) : out (XDR P * Z) :=
    let! (h, b) := ixdr_put (x_mem xdrs) buf (u32 v) in Ret (set_mem h xdrs, b).
Definition IXDR_PUT_ENUM xdrs buf (v : Z) : out (XDR P * Z) :=
    let! (h, b) := ixdr_put (x_mem xdrs) buf (u32 v) in Ret (set_mem h xdrs, b).

(** [memcpy(buf, body, len)] into a reserved window. *)
Definition ixdr_memcpy xdrs buf (bs : list Z) : out (XDR P) :=
    let! h := access (store (x_mem xdrs) buf bs) in Ret (set_mem h xdrs).
End Accessors.
