(* ===== verification/XdrStream.v ===== *)
(** * What an XDR stream promises to the filters

    [XdrInput] and [XdrOutput] are the contracts between a stream implementation
    (xdr_mem.c, xdr_ioq.c) and the filters of xdr_inline.h and of the protocols:
    a decoding stream stands before a list of bytes and hands them over in order,
    an encoding stream appends bytes to what was written, and neither touches
    memory it was not given.  The filters' theorems are proved against these
    classes; the implementations discharge them. *)
From stdpp Require Import base gmap list.
From Stdlib Require Import ZArith Lia.
From S2P Require Import Prelude Machine XdrHandle.

(** Room left in an encoding stream; [None] when it can always grow. *)
Definition fits (n : Z) (c : option Z) : Prop :=
  match c with Some c => n ≤ c | None => True end.
Definition cap_sub (c : option Z) (n : Z) : option Z := (λ c, c - n) <$> c.

#[export] Instance fits_dec n c : Decision (fits n c).
Proof. destruct c; simpl; apply _. Defined.

Lemma fits_cap_sub n m c : fits (n + m) c → 0 ≤ m → fits n c ∧ fits m (cap_sub c n).
Proof. destruct c; simpl; lia. Qed.

Lemma fits_split n m c : fits n c → fits m (cap_sub c n) → fits (n + m) c.
Proof. destruct c; simpl; lia. Qed.

Lemma fits_le n m c : fits n c → m ≤ n → fits m c.
Proof. destruct c; simpl; lia. Qed.

Lemma cap_sub_sub c n m : cap_sub (cap_sub c n) m = cap_sub c (n + m).
Proof. destruct c; simpl; [f_equal; lia|done]. Qed.

Lemma cap_sub_0 c : cap_sub c 0 = c.
Proof. destruct c; simpl; [f_equal; lia|done]. Qed.

(** [in_at x k l]: the stream decodes, stands [k] bytes past a unit boundary
    (only [k mod 4] matters) and has exactly the bytes [l] left. *)
Class XdrInput (P : Type) `{XdrOps P} := {
  in_at : XDR P → Z → list Z → Prop;
  in_at_decode x k l : in_at x k l → x_op x = XDR_DECODE;
  in_at_bytes x k l : in_at x k l → bytes l;
  in_at_size x k l : in_at x k l → (length l ≤ size (x_mem x))%nat;
  in_at_mod x k k' l : in_at x k l → k mod 4 = k' mod 4 → in_at x k' l;
  in_getuint32 x v tl :
    in_at x 0 (be32 v ++ tl) →
    ∃ x', xdr_getuint32 x = Ret (Some (u32 v), x') ∧ in_at x' 0 tl;
  in_getuint32_short x l :
    in_at x 0 l → Zlen l < 4 → ∃ x', xdr_getuint32 x = Ret (None, x');
  in_getlong x v tl :
    in_at x 0 (be32 v ++ tl) →
    ∃ lv x', xdr_getlong x = Ret (Some lv, x') ∧
             (lv = u32 v ∨ lv = s32 v) ∧ in_at x' 0 tl;
  in_getlong_short x l :
    in_at x 0 l → Zlen l < 4 → ∃ x', xdr_getlong x = Ret (None, x');
  in_getbytes x k bs tl :
    in_at x k (bs ++ tl) →
    ∃ x', x_getbytes x (Zlen bs) = Ret (true, bs, x') ∧ in_at x' (k + Zlen bs) tl;
  in_getbytes_short x k l n :
    in_at x k l → Zlen l < n →
    ∃ bs x', x_getbytes x n = Ret (false, bs, x') ∧ Zlen bs ≤ n;
  in_inline x bs tl :
    in_at x 0 (bs ++ tl) → Zlen bs mod 4 = 0 →
    match xdr_inline_decode x (Zlen bs) with
    | (Some a, x') => load (x_mem x') a (length bs) = Some bs ∧ in_at x' 0 tl
    | (None, x') => x' = x
    end;
  in_inline_short x l n :
    in_at x 0 l → Zlen l < n → xdr_inline_decode x n = (None, x);
}.

(** [out_at x w c]: the stream encodes, has written [w] and has room [c]. *)
Class XdrOutput (P : Type) `{XdrOps P} := {
  out_at : XDR P → list Z → option Z → Prop;
  out_at_encode x w c : out_at x w c → x_op x = XDR_ENCODE;
  out_at_room x w c : out_at x w c → fits 0 c;
  out_putuint32 x w c v :
    out_at x w c → fits 4 c →
    ∃ x', xdr_putuint32 x v = Ret (true, x') ∧ out_at x' (w ++ be32 v) (cap_sub c 4);
  out_putuint32_full x w c v :
    out_at x w c → ¬ fits 4 c → ∃ x', xdr_putuint32 x v = Ret (false, x');
  out_putlong x w c v :
    out_at x w c → fits 4 c →
    ∃ x', xdr_putlong x v = Ret (true, x') ∧ out_at x' (w ++ be32 v) (cap_sub c 4);
  out_putlong_full x w c v :
    out_at x w c → ¬ fits 4 c → ∃ x', xdr_putlong x v = Ret (false, x');
  out_putbytes x w c bs :
    out_at x w c → fits (Zlen bs) c →
    ∃ x', x_putbytes x bs = Ret (true, x') ∧ out_at x' (w ++ bs) (cap_sub c (Zlen bs));
  out_putbytes_full x w c bs :
    out_at x w c → ¬ fits (Zlen bs) c → ∃ x', x_putbytes x bs = Ret (false, x');
  out_inline x w c n :
    out_at x w c → 0 ≤ n →
    match xdr_inline_encode x n with
    | (Some a, x') =>
        fits n c ∧ allocd (x_mem x') a n ∧
        ∀ h bs, same_outside (x_mem x') h a n → load h a (Z.to_nat n) = Some bs →
                out_at (set_mem h x') (w ++ bs) (cap_sub c n)
    | (None, x') => x' = x
    end;
  out_tail_update x w c : out_at x w c → out_at (xdr_tail_update x) w c;
}.

(** A stream that meets one of a family of output contracts. *)
Definition output_any {P A} {O : XdrOps P} (W : A → XdrOutput P) : XdrOutput P.
Proof.
  refine {| out_at := λ x w c, ∃ a, @out_at P O (W a) x w c |}.
  - intros x w c [a Hx]. by eapply out_at_encode.
  - intros x w c [a Hx]. by eapply out_at_room.
  - intros x w c v [a Hx] Hf. destruct (out_putuint32 x w c v Hx Hf) as (x' & E & ?). eauto.
  - intros x w c v [a Hx] Hf. by eapply out_putuint32_full.
  - intros x w c v [a Hx] Hf. destruct (out_putlong x w c v Hx Hf) as (x' & E & ?). eauto.
  - intros x w c v [a Hx] Hf. by eapply out_putlong_full.
  - intros x w c bs [a Hx] Hf. destruct (out_putbytes x w c bs Hx Hf) as (x' & E & ?). eauto.
  - intros x w c bs [a Hx] Hf. by eapply out_putbytes_full.
  - intros x w c n [a Hx] Hn. assert (Hi := out_inline x w c n Hx Hn).
    destruct (xdr_inline_encode x n) as [[b|] x']; [|done].
    destruct Hi as (? & ? & Hi). split_and!; try done. eauto.
  - intros x w c [a Hx]. exists a. by apply out_tail_update.
Defined.

#[export] Hint Resolve in_at_decode in_at_bytes out_at_encode out_tail_update : ntirpc.

(** ** Derived laws of the other accessors *)

Lemma be32_s32 v : be32 (s32 v) = be32 v.
Proof. by rewrite <- be32_u32, wrapu_wraps, be32_u32 by lia. Qed.

Section Input.
Context {P : Type} `{XdrInput P}.

Lemma in_at_unit x l :
  in_at x 0 l → Zlen l < 4 ∨ ∃ v tl, l = be32 v ++ tl ∧ is_u 32 v.
Proof.
  intros Hx. apply in_at_bytes in Hx. destruct (Z_lt_le_dec (Zlen l) 4) as [|Hl]; [by left|].
  right. exists (be_dec (take 4 l)), (drop 4 l).
  assert (length (take 4 l) = 4%nat) by (rewrite length_take; lia).
  rewrite be32_be_dec by (auto using Forall_take).
  rewrite take_drop. auto using be_dec_range, Forall_take.
Qed.

Lemma in_getint32 x v tl :
  in_at x 0 (be32 v ++ tl) →
  ∃ x', xdr_getint32 x = Ret (Some (s32 v), x') ∧ in_at x' 0 tl.
Proof.
  intros Hx. destruct (in_getuint32 _ _ _ Hx) as (x' & E & Hx').
  exists x'. unfold xdr_getint32. rewrite E. simpl. by rewrite wraps_wrapu by lia.
Qed.

Lemma in_getint32_short x l :
  in_at x 0 l → Zlen l < 4 → ∃ x', xdr_getint32 x = Ret (None, x').
Proof.
  intros Hx Hl. destruct (in_getuint32_short _ _ Hx Hl) as (x' & E).
  exists x'. unfold xdr_getint32. by rewrite E.
Qed.

Lemma in_getbool x v tl :
  in_at x 0 (be32 v ++ tl) → is_u 32 v →
  ∃ x', xdr_getbool x = Ret (Some (if v =? 0 then XDR_FALSE else XDR_TRUE), x') ∧ in_at x' 0 tl.
Proof.
  intros Hx Hv. destruct (in_getint32 _ _ _ Hx) as (x' & E & Hx').
  exists x'. unfold xdr_getbool. rewrite E. simpl. split; [|done].
  assert (Hs : (s32 v =? 0) = (v =? 0)); [|by rewrite Hs].
  unfold is_u in Hv. unfold wraps. rewrite Z.mod_small by done.
  destruct (Z.ltb_spec v (2 ^ (32 - 1))); [done|]. rewrite !(proj2 (Z.eqb_neq _ _)); lia.
Qed.

Lemma in_getbool_short x l :
  in_at x 0 l → Zlen l < 4 → ∃ x', xdr_getbool x = Ret (None, x').
Proof.
  intros Hx Hl. destruct (in_getint32_short _ _ Hx Hl) as (x' & E).
  exists x'. unfold xdr_getbool. by rewrite E.
Qed.

Lemma in_get_unit x l :
  in_at x 0 l →
  (∃ x', Zlen l < 4 ∧ xdr_getuint32 x = Ret (None, x')) ∨
  (∃ v tl x', l = be32 v ++ tl ∧ is_u 32 v ∧
     xdr_getuint32 x = Ret (Some v, x') ∧ in_at x' 0 tl).
Proof.
  intros Hx. destruct (in_at_unit _ _ Hx) as [Hl|(v & tl & -> & Hv)].
  - left. destruct (in_getuint32_short _ _ Hx Hl) as [x' ?]. eauto.
  - right. destruct (in_getuint32 _ _ _ Hx) as (x' & E & ?).
    rewrite wrapu_id in E by done. eauto 10.
Qed.

Lemma in_getbytes_any x k l n :
  in_at x k l → 0 ≤ n →
  (Zlen l < n ∧ ∃ bs x', x_getbytes x n = Ret (false, bs, x') ∧ Zlen bs ≤ n) ∨
  (∃ bs tl x', l = bs ++ tl ∧ Zlen bs = n ∧
     x_getbytes x n = Ret (true, bs, x') ∧ in_at x' (k + n) tl).
Proof.
  intros Hx Hn. destruct (Z_lt_le_dec (Zlen l) n) as [Hl|Hl].
  - left. split; [done|]. by eapply in_getbytes_short.
  - right. exists (take (Z.to_nat n) l), (drop (Z.to_nat n) l).
    assert (Zlen (take (Z.to_nat n) l) = n) as Hn' by (rewrite length_take; lia).
    rewrite <- (take_drop (Z.to_nat n) l) in Hx.
    destruct (in_getbytes _ _ _ _ Hx) as (x' & E & Hx'). rewrite Hn' in *.
    exists x'. by rewrite take_drop.
Qed.
End Input.

Section Output.
Context {P : Type} `{XdrOutput P}.

Lemma out_putint32 x w c v :
  out_at x w c → fits 4 c →
  ∃ x', xdr_putint32 x v = Ret (true, x') ∧ out_at x' (w ++ be32 v) (cap_sub c 4).
Proof. intros. unfold xdr_putint32. rewrite <- (be32_u32 v). by apply out_putuint32. Qed.

Lemma out_putint32_full x w c v :
  out_at x w c → ¬ fits 4 c → ∃ x', xdr_putint32 x v = Ret (false, x').
Proof. unfold xdr_putint32. apply out_putuint32_full. Qed.

Lemma out_putenum x w c v :
  out_at x w c → fits 4 c →
  ∃ x', xdr_putenum x v = Ret (true, x') ∧ out_at x' (w ++ be32 v) (cap_sub c 4).
Proof. intros. unfold xdr_putenum. rewrite <- (be32_s32 v). by apply out_putint32. Qed.

Lemma out_putenum_full x w c v :
  out_at x w c → ¬ fits 4 c → ∃ x', xdr_putenum x v = Ret (false, x').
Proof. unfold xdr_putenum. apply out_putint32_full. Qed.

Lemma out_putbool x w c v :
  out_at x w c → fits 4 c →
  ∃ x', xdr_putbool x v = Ret (true, x') ∧
        out_at x' (w ++ be32 (if v =? 0 then XDR_FALSE else XDR_TRUE)) (cap_sub c 4).
Proof. apply out_putint32. Qed.
End Output.
