(* ===== verification/XdrMem.v ===== *)
(** * XDR streams over a memory buffer (src/xdr_mem.c)

    The stream's private state is empty; every operation works on the one buffer
    [vio_head .. vio_wrap].  The file models the whole operations vector, shows
    that it keeps the stream contracts of XdrStream and states the position and
    vector operations' behaviour. *)
From stdpp Require Import base gmap list.
From Stdlib Require Import ZArith Lia.
From S2P Require Import Prelude Machine XdrHandle XdrStream.

(** Private state of a memory stream: none. *)
Inductive mem_priv := MemPriv.

Abbreviation XDRM := (XDR mem_priv).

(** ** Creation *)

Definition xdrmem_ncreate (mem : heap) (addr size : Z) (op : xdr_op) : out XDRM :=
  if negb (Z.land addr 3 =? 0) then Abort else
  let wrap := if addr =? 0 then 0 else addr + size in
  match op with
  | XDR_ENCODE => Ret (mk_xdr op addr (mk_vio addr addr addr wrap 0 VIO_HEADER) MemPriv mem)
  | XDR_DECODE => Ret (mk_xdr op addr (mk_vio addr addr wrap wrap 0 VIO_HEADER) MemPriv mem)
  | XDR_FREE => Abort
  end.

(** ** Units and bytes *)

Definition xdrmem_getunit (xdrs : XDRM) : out (option Z * XDRM) := Ret (None, xdrs).
Definition xdrmem_putunit (xdrs : XDRM) (v : Z) : out (bool * XDRM) := Ret (false, xdrs).

Definition xdrmem_getbytes (xdrs : XDRM) (len : Z) : out (bool * list Z * XDRM) :=
  let future := x_data xdrs + len in
  if vio_tail (x_v xdrs) <? future then Ret (false, [], xdrs) else
  let! bs := access (load (x_mem xdrs) (x_data xdrs) (Z.to_nat len)) in
  Ret (true, bs, set_data future xdrs).

Definition xdrmem_putbytes (xdrs : XDRM) (bs : list Z) : out (bool * XDRM) :=
  let future := x_data xdrs + Zlen bs in
  if vio_wrap (x_v xdrs) <? future then Ret (false, xdrs) else
  let! h := access (store (x_mem xdrs) (x_data xdrs) bs) in
  Ret (true, set_data future (set_mem h xdrs)).

(** [x_base] points to the handle's own [x_v], so the second store of
    [xdr_tail_update] hits the cell the first one already set. *)
Definition xdrmem_base_tail (t : Z) (xdrs : XDRM) : XDRM :=
  set_v (set_vio_tail t (x_v xdrs)) xdrs.

(** [xdr_tail_update] on a memory stream, written out. *)
Definition mem_tail_update (xdrs : XDRM) : XDRM :=
  if vio_tail (x_v xdrs) <? x_data xdrs
  then set_v (set_vio_tail (x_data xdrs) (x_v xdrs)) xdrs else xdrs.

(** ** Positions *)

Definition xdrmem_getpos (xdrs : XDRM) : Z * XDRM :=
  let xdrs := mem_tail_update xdrs in
  (u32 (x_data xdrs - vio_head (x_v xdrs)), xdrs).

Definition xdrmem_getstartdatapos (xdrs : XDRM) (start datalen : Z) : Z := start.
Definition xdrmem_getenddatapos (xdrs : XDRM) (start datalen : Z) : Z := u32 (start + datalen).

Definition xdrmem_setpos (xdrs : XDRM) (pos : Z) : bool * XDRM :=
  let future := vio_head (x_v xdrs) + pos in
  let xdrs := mem_tail_update xdrs in
  if vio_wrap (x_v xdrs) <? future then (false, xdrs)
  else (true, set_data future xdrs).

#[export] Instance mem_ops : XdrOps mem_priv := {|
  x_getunit := xdrmem_getunit;
  x_putunit := xdrmem_putunit;
  x_getbytes := xdrmem_getbytes;
  x_putbytes := xdrmem_putbytes;
  x_getpostn := xdrmem_getpos;
  x_setpostn := xdrmem_setpos;
  x_base_tail := xdrmem_base_tail;
|}.

(** ** Scatter/gather operations *)

(** The part of [xdr_uio] these operations use: its vectors, the reference count
    and whether a release callback is installed. *)
Record xdr_uio := mk_uio {
  uio_vio : list xdr_vio;
  uio_references : Z;
  uio_release : bool;
}.

Fixpoint putbufs_loop (xdrs : XDRM) (vs : list xdr_vio) : out (bool * XDRM) :=
  match vs with
  | [] => Ret (true, xdrs)
  | v :: vs =>
      let! bs := access (load (x_mem xdrs) (vio_head v) (Z.to_nat (vio_length v))) in
      let! (b, xdrs) := xdrmem_putbytes xdrs bs in
      if b then putbufs_loop xdrs vs else Ret (false, xdrs)
  end.

(** Returns the uio with its reference dropped and whether it was released. *)
Definition xdrmem_putbufs (xdrs : XDRM) (uio : xdr_uio) : out (bool * xdr_uio * bool * XDRM) :=
  let xdrs := mem_tail_update xdrs in
  let! (b, xdrs) := putbufs_loop xdrs (uio_vio uio) in
  if negb b then Ret (false, uio, false, xdrs) else
  let refs := uio_references uio - 1 in
  let uio := mk_uio (uio_vio uio) refs (uio_release uio) in
  if refs =? 0
  then if uio_release uio then Ret (true, uio, true, xdrs) else Abort
  else Ret (true, uio, false, xdrs).

Definition xdrmem_noop (xdrs : XDRM) : bool := false.

Definition xdrmem_range_valid (xdrs : XDRM) (start datalen : Z) : bool :=
  if (vio_head (x_v xdrs) =? 0) || (vio_tail (x_v xdrs) =? 0)
  then (start =? 0) && (datalen =? 0)
  else
    let used := u64 (vio_tail (x_v xdrs) - vio_head (x_v xdrs)) in
    (start <=? used) && (datalen <=? u64 (used - start)).

Definition xdrmem_iovcount (xdrs : XDRM) (start datalen : Z) : Z :=
  if xdrmem_range_valid xdrs start datalen then 1 else -1.

(** The filled vector[0], or [None] for [false]. *)
Definition xdrmem_fillbufs (xdrs : XDRM) (start datalen : Z) : option xdr_vio :=
  if negb (xdrmem_range_valid xdrs start datalen) then None else
  let v := set_vio_type VIO_DATA (x_v xdrs) in
  let v := if vio_head (x_v xdrs) =? 0 then v
           else let h := vio_head (x_v xdrs) + start in
                set_vio_tail (h + datalen) (set_vio_head h v) in
  Some (set_vio_length datalen v).

(** The loop of [xdrmem_allochdrs]; [done] are the entries already filled. *)
Fixpoint allochdrs_loop (xdrs : XDRM) (found_data : bool) (done todo : list xdr_vio)
    : bool * list xdr_vio * XDRM :=
  match todo with
  | [] => (true, done, xdrs)
  | v :: todo' =>
      let is_data := bool_decide (vio_type v = VIO_DATA) in
      if Bool.eqb found_data (negb is_data) then (false, done ++ todo, xdrs)
      else if is_data then allochdrs_loop xdrs true (done ++ [v]) todo'
      else
        let future := x_data xdrs + vio_length v in
        if vio_wrap (x_v xdrs) <? future then (false, done ++ todo, xdrs)
        else
          let v' := mk_vio (vio_base (x_v xdrs)) (x_data xdrs) future
                           (vio_wrap (x_v xdrs)) (vio_length v) (vio_type v) in
          allochdrs_loop (set_data future xdrs) found_data (done ++ [v']) todo'
  end.

Definition xdrmem_allochdrs (xdrs : XDRM) (vector : list xdr_vio) : bool * list xdr_vio * XDRM :=
  let current := x_data xdrs in
  match allochdrs_loop xdrs false [] vector with
  | (true, vec, xdrs) => (true, vec, mem_tail_update xdrs)
  | (false, vec, xdrs) => (false, vec, set_data current xdrs)
  end.

(** ** The stream contracts *)

Lemma mem_tail_update_eq (xdrs : XDRM) : xdr_tail_update xdrs = mem_tail_update xdrs.
Proof. unfold xdr_tail_update, mem_tail_update. by destruct (_ <? _). Qed.

Definition mem_in (x : XDRM) (k : Z) (l : list Z) : Prop :=
  x_op x = XDR_DECODE ∧ Zlen l = vio_tail (x_v x) - x_data x ∧
  load (x_mem x) (x_data x) (length l) = Some l ∧ bytes l.

(** The buffer a stream was created over, and the memory at that time. *)
Record buffer := mk_buffer { bf_mem : heap; bf_addr : Z; bf_size : Z }.

(** The stream still writes to its buffer and has changed nothing outside it. *)
Definition framed (bf : buffer) (x : XDRM) : Prop :=
  vio_head (x_v x) = bf_addr bf ∧ vio_wrap (x_v x) = bf_addr bf + bf_size bf ∧
  same_outside (bf_mem bf) (x_mem x) (bf_addr bf) (bf_size bf).

Definition mem_out (bf : buffer) (x : XDRM) (w : list Z) (c : option Z) : Prop :=
  x_op x = XDR_ENCODE ∧ Zlen w = x_data x - vio_head (x_v x) ∧
  load (x_mem x) (vio_head (x_v x)) (length w) = Some w ∧
  x_data x ≤ vio_wrap (x_v x) ∧
  allocd (x_mem x) (x_data x) (vio_wrap (x_v x) - x_data x) ∧
  c = Some (vio_wrap (x_v x) - x_data x) ∧ framed bf x.

Lemma framed_change bf x h a n d :
  framed bf x → same_outside (x_mem x) h a n → vio_head (x_v x) ≤ a →
  a + n ≤ vio_wrap (x_v x) → framed bf (set_data d (set_mem h x)).
Proof.
  intros (Hh & Hw & Hs) Hs' ? ?. split_and!; try done. simpl.
  eapply same_outside_trans; [done|]. eapply same_outside_mono; [done|lia|lia].
Qed.

Lemma mem_in_split x k bs tl :
  mem_in x k (bs ++ tl) →
  x_data x + Zlen bs ≤ vio_tail (x_v x) ∧
  load (x_mem x) (x_data x) (length bs) = Some bs ∧
  ∀ k', mem_in (set_data (x_data x + Zlen bs) x) k' tl.
Proof.
  intros (Hop & Hlen & Hld & Hb). rewrite length_app in Hld, Hlen.
  apply load_app_inv in Hld as [H1 H2]; [|done].
  split_and!; [lia|done|]. intros k'. apply bytes_app in Hb as [??].
  unfold mem_in; simpl. split_and!; auto. lia.
Qed.

(** Appending [bs] at the fill pointer. *)
Lemma mem_out_store bf x w c bs :
  mem_out bf x w c → fits (Zlen bs) c →
  ∃ h, store (x_mem x) (x_data x) bs = Some h ∧
       mem_out bf (set_data (x_data x + Zlen bs) (set_mem h x)) (w ++ bs) (cap_sub c (Zlen bs)).
Proof.
  intros (Hop & Hw & Hld & Hle & Hal & -> & Hfr) Hf. simpl in Hf.
  destruct (store_allocd (x_mem x) (x_data x) bs) as [h Hh].
  { eapply allocd_sub; [done|lia..]. }
  exists h. split; [done|]. unfold mem_out; simpl. rewrite length_app.
  split_and!; try done; try lia.
  - apply load_concat.
    + by rewrite (load_store_disj _ _ _ _ _ _ Hh) by lia.
    + rewrite Hw. replace (_ + (_ - _)) with (x_data x) by lia. by eapply load_store.
  - eapply allocd_dom; [by eapply store_dom|]. eapply allocd_sub; [done|lia..].
  - f_equal. lia.
  - eapply framed_change; [done|by eapply store_same_outside|lia|lia].
Qed.

Lemma mem_fast_get x v tl k k' slow :
  mem_in x k (be32 v ++ tl) →
  fast_get x slow = Ret (Some (u32 v), set_data (x_data x + 4) x) ∧
  mem_in (set_data (x_data x + 4) x) k' tl.
Proof.
  intros Hx. apply mem_in_split in Hx as (Hle & Hld & Hin). rewrite be32_length in *.
  unfold fast_get. rewrite (proj2 (Z.leb_le _ _)) by lia.
  rewrite Hld. simpl. rewrite be_dec_be32. split; [done|apply Hin].
Qed.

Lemma mem_fast_get_short x l k slow :
  mem_in x k l → Zlen l < 4 → fast_get x slow = slow.
Proof.
  intros (_ & Hl & _) ?. unfold fast_get. by rewrite (proj2 (Z.leb_gt _ _)) by lia.
Qed.

Lemma mem_fast_put bf x w c v slow :
  mem_out bf x w c → fits 4 c →
  ∃ x', fast_put x v slow = Ret (true, x') ∧ mem_out bf x' (w ++ be32 v) (cap_sub c 4).
Proof.
  intros Hx Hf. destruct (mem_out_store _ _ _ _ (be32 v) Hx) as (h & Hh & Hx'); rewrite be32_length in *; [done|].
  destruct Hx as (_ & _ & _ & _ & _ & -> & _). simpl in Hf.
  unfold fast_put. rewrite (proj2 (Z.leb_le _ _)) by lia. rewrite Hh. simpl. eauto.
Qed.

Lemma mem_fast_put_full bf x w c v slow :
  mem_out bf x w c → ¬ fits 4 c → fast_put x v slow = slow.
Proof.
  intros (_ & _ & _ & _ & _ & -> & _) Hf. simpl in Hf.
  unfold fast_put. by rewrite (proj2 (Z.leb_gt _ _)) by lia.
Qed.

#[export] Instance mem_input : XdrInput mem_priv.
Proof.
  refine {| in_at := mem_in |}.
  - by intros x k l (? & _).
  - by intros x k l (_ & _ & _ & ?).
  - intros x k l (_ & _ & Hl & _). by eapply load_size.
  - done.
  - intros x v tl Hx. eapply mem_fast_get in Hx as [E Hx']. eauto.
  - intros x l Hx Hl. unfold xdr_getuint32. erewrite mem_fast_get_short by done.
    simpl. unfold xdrmem_getunit. eauto.
  - intros x v tl Hx. eapply mem_fast_get in Hx as [E Hx']. unfold xdr_getlong. eauto 10.
  - intros x l Hx Hl. unfold xdr_getlong. erewrite mem_fast_get_short by done.
    simpl. unfold xdrmem_getunit. simpl. eauto.
  - intros x k bs tl Hx. apply mem_in_split in Hx as (Hle & Hld & Hin).
    simpl. unfold xdrmem_getbytes. rewrite (proj2 (Z.ltb_ge _ _)) by lia.
    rewrite Nat2Z.id, Hld. simpl. eauto.
  - intros x k l n (_ & Hl & _) Hn. simpl. unfold xdrmem_getbytes.
    rewrite (proj2 (Z.ltb_lt _ _)) by lia. exists [], x. simpl. split; [done|lia].
  - intros x bs tl Hx Hbs. apply mem_in_split in Hx as (Hle & Hld & Hin).
    unfold xdr_inline_decode. rewrite (proj2 (Z.leb_le _ _)) by lia. auto.
  - intros x l n (_ & Hl & _) Hn. unfold xdr_inline_decode.
    by rewrite (proj2 (Z.leb_gt _ _)) by lia.
Defined.

Lemma mem_out_tail bf x w c : mem_out bf x w c → mem_out bf (mem_tail_update x) w c.
Proof. unfold mem_tail_update. by destruct (_ <? _). Qed.

(** A reserved window: whatever its bytes become, they are what was appended. *)
Lemma mem_out_window bf x w c n h bs :
  mem_out bf x w c → 0 ≤ n → fits n c →
  same_outside (x_mem x) h (x_data x) n → load h (x_data x) (Z.to_nat n) = Some bs →
  mem_out bf (set_data (x_data x + n) (set_mem h x)) (w ++ bs) (cap_sub c n).
Proof.
  intros (Hop & Hw & Hld & Hle & Hal & -> & Hfr) Hn Hf Hh Hbs. simpl in Hf.
  pose proof (load_length _ _ _ _ Hbs) as Hl.
  unfold mem_out; simpl. rewrite length_app. split_and!; try done; try lia.
  - apply load_concat.
    + by rewrite (load_same_outside _ _ _ _ _ _ Hh) by lia.
    + rewrite Hw, Hl. by replace (_ + (_ - _)) with (x_data x) by lia.
  - eapply allocd_dom; [apply Hh|]. eapply allocd_sub; [done|lia..].
  - f_equal. lia.
  - eapply framed_change; [done|done|lia|lia].
Qed.

(** A memory stream over a given buffer meets the output contract. *)
Definition mem_output_at (bf : buffer) : XdrOutput mem_priv.
Proof.
  refine {| out_at := mem_out bf |}.
  - by intros x w c (? & _).
  - intros x w c (_ & _ & _ & ? & _ & -> & _). simpl. lia.
  - intros x w c v Hx Hf. by apply mem_fast_put.
  - intros x w c v Hx Hf. unfold xdr_putuint32.
    erewrite mem_fast_put_full by done. simpl. unfold xdrmem_putunit. eauto.
  - intros x w c v Hx Hf. unfold xdr_putlong. rewrite <- (be32_s32 v). by apply mem_fast_put.
  - intros x w c v Hx Hf. unfold xdr_putlong.
    erewrite mem_fast_put_full by done. simpl. unfold xdrmem_putunit. eauto.
  - intros x w c bs Hx Hf. destruct (mem_out_store _ _ _ _ bs Hx Hf) as (h & Hh & Hx').
    destruct Hx as (_ & _ & _ & _ & _ & -> & _). simpl in Hf. simpl. unfold xdrmem_putbytes.
    rewrite (proj2 (Z.ltb_ge _ _)) by lia. rewrite Hh. simpl. eauto.
  - intros x w c bs (_ & _ & _ & _ & _ & -> & _) Hf. simpl in Hf. simpl. unfold xdrmem_putbytes.
    rewrite (proj2 (Z.ltb_lt _ _)) by lia. eauto.
  - intros x w c n Hx Hn. pose proof Hx as (_ & _ & _ & Hle & Hal & -> & _).
    unfold xdr_inline_encode. destruct (Z.leb_spec (x_data x + n) (vio_wrap (x_v x))); [|done].
    rewrite mem_tail_update_eq. unfold mem_tail_update; simpl.
    split; [simpl; lia|]. destruct (_ <? _); simpl.
    all: split; [eapply allocd_sub; [done|lia..]|]; intros h bs Hh Hbs.
    all: apply (mem_out_window bf x w (Some (vio_wrap (x_v x) - x_data x)) n h bs); auto; simpl; lia.
  - intros x w c Hx. rewrite mem_tail_update_eq. by apply mem_out_tail.
Defined.

(** ... and over whatever buffer it has. *)
#[export] Instance mem_output : XdrOutput mem_priv := output_any mem_output_at.

(** ** Creation, positions and vectors *)

Lemma xdrmem_ncreate_decode mem addr bs :
  addr mod 4 = 0 → 0 < addr → load mem addr (length bs) = Some bs → bytes bs →
  ∃ x, xdrmem_ncreate mem addr (Zlen bs) XDR_DECODE = Ret x ∧ x_mem x = mem ∧ mem_in x 0 bs.
Proof.
  intros Ha Hp Hld Hb. unfold xdrmem_ncreate.
  change 3 with (Z.ones 2). rewrite Z.land_ones by lia. change (2 ^ 2) with 4.
  rewrite Ha, (proj2 (Z.eqb_neq addr 0)) by lia. simpl.
  eexists. split_and!; [done|done|]. unfold mem_in; simpl. split_and!; auto; lia.
Qed.

Lemma xdrmem_ncreate_encode mem addr size :
  addr mod 4 = 0 → 0 < addr → 0 ≤ size → allocd mem addr size →
  ∃ x, xdrmem_ncreate mem addr size XDR_ENCODE = Ret x ∧ x_mem x = mem ∧
       mem_out (mk_buffer mem addr size) x [] (Some size).
Proof.
  intros Ha Hp Hs Hal. unfold xdrmem_ncreate.
  change 3 with (Z.ones 2). rewrite Z.land_ones by lia. change (2 ^ 2) with 4.
  rewrite Ha, (proj2 (Z.eqb_neq addr 0)) by lia. simpl.
  eexists. split_and!; [done|done|]. unfold mem_out, framed; simpl.
  replace (addr + size - addr) with size by lia. split_and!; auto using same_outside_refl; lia.
Qed.

(** Streams over a fresh block: one that encodes into [n] zeroed bytes, one that
    decodes [bs]. *)
Definition opened (o : out XDRM) : XDRM :=
  match o with Ret x => x | _ => mk_xdr XDR_FREE 0 (mk_vio 0 0 0 0 0 VIO_HEADER) MemPriv ∅ end.
Definition mem_writer (n : nat) : XDRM :=
  opened (xdrmem_ncreate (block 4096 (replicate n 0)) 4096 (Z.of_nat n) XDR_ENCODE).
Definition mem_reader (bs : list Z) : XDRM :=
  opened (xdrmem_ncreate (block 4096 bs) 4096 (Zlen bs) XDR_DECODE).

Lemma mem_writer_at n : out_at (mem_writer n) [] (Some (Z.of_nat n)).
Proof.
  destruct (xdrmem_ncreate_encode (block 4096 (replicate n 0)) 4096 (Z.of_nat n))
    as (x & E & _ & Hx); [done|done|lia| |unfold mem_writer; rewrite E; simpl; eauto].
  assert (Hl := load_block 4096 (replicate n 0)). apply load_is_allocd in Hl.
  by rewrite length_replicate in Hl.
Qed.

Lemma mem_reader_at bs : bytes bs → in_at (mem_reader bs) 0 bs.
Proof.
  intros Hb. destruct (xdrmem_ncreate_decode (block 4096 bs) 4096 bs) as (x & E & _ & Hx);
    [done|done|apply load_block|done|by unfold mem_reader; rewrite E].
Qed.

(** A non-null buffer below 2^64. *)
Definition mem_live (x : XDRM) : Prop :=
  0 < vio_head (x_v x) ∧ vio_wf (x_v x) ∧ vio_wrap (x_v x) < 2 ^ 64.

Lemma range_valid_iff x start datalen :
  mem_live x → is_u 32 start → is_u 32 datalen →
  xdrmem_range_valid x start datalen = true ↔
  vio_head (x_v x) + start + datalen ≤ vio_tail (x_v x).
Proof.
  intros (Hh & (Hb & Ht & Hw) & Hlim) Hs Hd. unfold is_u in *. unfold xdrmem_range_valid.
  rewrite (proj2 (Z.eqb_neq (vio_head _) 0)), (proj2 (Z.eqb_neq (vio_tail _) 0)) by lia.
  simpl. rewrite wrapu_id by (unfold is_u; lia).
  rewrite andb_true_iff, !Z.leb_le. unfold wrapu. split; intros.
  - rewrite Z.mod_small in * by lia. lia.
  - rewrite Z.mod_small by lia. lia.
Qed.

Definition vio_within (v : xdr_vio) (lo hi : Z) : Prop :=
  lo ≤ vio_head v ∧ vio_head v ≤ vio_tail v ∧ vio_tail v ≤ hi.

(** Consecutive header/trailer windows starting at [a]. *)
Fixpoint laid_out (b : xdr_vio) (a : Z) (vec vec' : list xdr_vio) : Prop :=
  match vec, vec' with
  | [], [] => True
  | v :: vec, v' :: vec' =>
      v' = mk_vio (vio_base b) a (a + vio_length v) (vio_wrap b)
                  (vio_length v) (vio_type v) ∧
      a + vio_length v ≤ vio_wrap b ∧ laid_out b (a + vio_length v) vec vec'
  | _, _ => False
  end.

Definition total_length (vec : list xdr_vio) : Z := foldr (λ v n, vio_length v + n) 0 vec.

Definition no_data (vec : list xdr_vio) : Prop := Forall (λ v, vio_type v ≠ VIO_DATA) vec.

Lemma allochdrs_loop_spec x pre todo b vec x' :
  allochdrs_loop x false pre todo = (b, vec, x') →
  x_v x' = x_v x ∧ x_mem x' = x_mem x ∧ x_op x' = x_op x ∧ x_private x' = x_private x ∧
  (b = true → no_data todo ∧ x_data x' = x_data x + total_length todo ∧
              ∃ vec', vec = pre ++ vec' ∧ laid_out (x_v x) (x_data x) todo vec').
Proof.
  revert x pre. induction todo as [|v todo IH]; intros x pre; cbn [allochdrs_loop].
  { intros; simplify_eq. split_and!; auto. intros _. split_and!; [constructor|simpl; lia|].
    exists []. by rewrite app_nil_r. }
  destruct (bool_decide_reflect (vio_type v = VIO_DATA)) as [Hd|Hd]; simpl.
  { intros; simplify_eq. split_and!; done. }
  destruct (Z.ltb_spec (vio_wrap (x_v x)) (x_data x + vio_length v)).
  { intros; simplify_eq. split_and!; done. }
  intros E. apply IH in E as (-> & -> & -> & -> & Hok). simpl.
  split_and!; auto. intros Hb. destruct (Hok Hb) as (Hnd & Hdat & vec' & -> & Hlay).
  simpl in *. split_and!; [by constructor|lia|].
  eexists (_ :: vec'). rewrite <- app_assoc. split; [done|]. simpl. split_and!; done.
Qed.

Lemma allochdrs_any_data x vec :
  ¬ no_data vec → ∃ vec' x', allochdrs_loop x false [] vec = (false, vec', x').
Proof.
  intros Hd. destruct (allochdrs_loop x false [] vec) as [[[] vec'] x'] eqn:E; [|eauto].
  apply allochdrs_loop_spec in E as (_ & _ & _ & _ & Hok). by destruct Hok.
Qed.

(** Range checks hold for hostile lengths: for every 32-bit start and length,
    the buffer check of the memory stream accepts exactly the ranges inside the
    used part of the buffer, so no sum wraps around. *)
Theorem xdrmem_range_valid_spec (x : XDRM) (start datalen : Z)
    (Hx : mem_live x) (Hs : is_u 32 start) (Hd : is_u 32 datalen) :
  (xdrmem_range_valid x start datalen = true ↔
     vio_head (x_v x) + start + datalen ≤ vio_tail (x_v x)) ∧
  (xdrmem_iovcount x start datalen = 1 ↔
     vio_head (x_v x) + start + datalen ≤ vio_tail (x_v x)).
Proof.
  pose proof (range_valid_iff x start datalen Hx Hs Hd) as Hr. split; [done|].
  unfold xdrmem_iovcount. destruct (xdrmem_range_valid x start datalen); naive_solver.
Qed.

(** A decoding stream over a block of five bytes. *)
Definition five : XDRM := mem_reader [10; 20; 30; 40; 50].

Lemma five_live : mem_live five.
Proof. repeat split; by vm_compute. Qed.

Lemma xdrmem_range_valid_spec_witness :
  (xdrmem_range_valid five 2 (2 ^ 32 - 1) = true ↔
     vio_head (x_v five) + 2 + (2 ^ 32 - 1) ≤ vio_tail (x_v five)) ∧
  (xdrmem_iovcount five 2 (2 ^ 32 - 1) = 1 ↔
     vio_head (x_v five) + 2 + (2 ^ 32 - 1) ≤ vio_tail (x_v five)).
Proof. apply (xdrmem_range_valid_spec five 2 (2 ^ 32 - 1) five_live); by vm_compute. Defined.

(** A vector filled from a memory stream describes exactly the requested bytes:
    when the range lies inside the used part of the buffer the call succeeds, the
    vector has the requested length and type, stays inside the buffer, and the memory
    it points to holds the requested slice of the stream's contents; otherwise the
    call fails. *)
Theorem xdrmem_fillbufs_spec (x : XDRM) (bs : list Z) (start datalen : Z) :
  mem_live x → is_u 32 start → is_u 32 datalen →
  load (x_mem x) (vio_head (x_v x)) (length bs) = Some bs →
  vio_tail (x_v x) = vio_head (x_v x) + Zlen bs →
  match xdrmem_fillbufs x start datalen with
  | Some v =>
      start + datalen ≤ Zlen bs ∧ vio_type v = VIO_DATA ∧ vio_length v = datalen ∧
      vio_tail v - vio_head v = datalen ∧ vio_within v (vio_head (x_v x)) (vio_tail (x_v x)) ∧
      load (x_mem x) (vio_head v) (Z.to_nat datalen) =
        Some (take (Z.to_nat datalen) (drop (Z.to_nat start) bs))
  | None => Zlen bs < start + datalen
  end.
Proof.
  intros Hx Hs Hd Hld Htl. assert (Hr := range_valid_iff x start datalen Hx Hs Hd).
  unfold is_u in *. destruct Hx as (Hh & Hwf & Hlim). unfold xdrmem_fillbufs.
  destruct (xdrmem_range_valid x start datalen); simpl.
  - destruct Hr as [Hr _]. specialize (Hr eq_refl). rewrite (proj2 (Z.eqb_neq _ 0)) by lia. simpl.
    split_and!; try done; try lia. { unfold vio_within; simpl. lia. }
    assert (E : bs = take (Z.to_nat start) bs ++ take (Z.to_nat datalen) (drop (Z.to_nat start) bs)
                      ++ drop (Z.to_nat datalen) (drop (Z.to_nat start) bs))
      by by rewrite !take_drop.
    rewrite E in Hld. apply load_app_inv in Hld as [_ Hld]; [|len].
    apply load_app_inv in Hld as [Hld _]; [|len].
    replace (vio_head (x_v x) + start) with (vio_head (x_v x) + Zlen (take (Z.to_nat start) bs))
      by len.
    rewrite <- Hld. f_equal. len.
  - destruct (Z_lt_le_dec (Zlen bs) (start + datalen)); [done|]. destruct Hr as [_ Hr].
    discriminate Hr. lia.
Qed.

Lemma xdrmem_fillbufs_spec_witness :
  match xdrmem_fillbufs five 1 3 with
  | Some v =>
      1 + 3 ≤ 5 ∧ vio_type v = VIO_DATA ∧ vio_length v = 3 ∧
      vio_tail v - vio_head v = 3 ∧ vio_within v (vio_head (x_v five)) (vio_tail (x_v five)) ∧
      load (x_mem five) (vio_head v) (Z.to_nat 3) =
        Some (take (Z.to_nat 3) (drop (Z.to_nat 1) [10; 20; 30; 40; 50]))
  | None => 5 < 1 + 3
  end.
Proof.
  apply (xdrmem_fillbufs_spec five [10; 20; 30; 40; 50] 1 3 five_live); by vm_compute.
Defined.

(** Reserving header and trailer space: on success every entry is a header or
    trailer, the entries become consecutive windows of the requested lengths inside
    the buffer starting at the fill pointer, and the fill pointer moves past the last
    one; on failure the fill pointer is where it was.  In both cases the buffer's
    contents are untouched. *)
Theorem xdrmem_allochdrs_spec (x : XDRM) (vec : list xdr_vio) :
  let '(b, vec', x') := xdrmem_allochdrs x vec in
  x_mem x' = x_mem x ∧ x_op x' = x_op x ∧
  if b then
    no_data vec ∧ laid_out (x_v x) (x_data x) vec vec' ∧
    x_data x' = x_data x + total_length vec
  else x_data x' = x_data x ∧ x_v x' = x_v x.
Proof.
  unfold xdrmem_allochdrs. destruct (allochdrs_loop x false [] vec) as [[b vec'] x'] eqn:E.
  apply allochdrs_loop_spec in E as (Hv & Hm & Ho & _ & Hok).
  destruct b; [|by rewrite <- Hv]. destruct (Hok eq_refl) as (Hnd & Hd & vec'' & -> & Hl).
  simpl. unfold mem_tail_update. by destruct (_ <? _).
Qed.

(** A vector that contains a data entry is never accepted by the memory stream's
    reservation of header space, whatever the order of its entries -- although the
    comment in the loop describes vectors of headers around one data entry. *)
Theorem xdrmem_allochdrs_rejects_data (x : XDRM) (vec : list xdr_vio) :
  ¬ no_data vec → (xdrmem_allochdrs x vec).1.1 = false.
Proof.
  intros Hd. destruct (allochdrs_any_data x vec Hd) as (vec' & x' & E).
  unfold xdrmem_allochdrs. by rewrite E.
Qed.

Lemma mem_tail_update_v (x : XDRM) :
  vio_head (x_v (mem_tail_update x)) = vio_head (x_v x) ∧
  vio_wrap (x_v (mem_tail_update x)) = vio_wrap (x_v x).
Proof. unfold mem_tail_update. by destruct (_ <? _). Qed.

Lemma mem_getpos_at bf (x : XDRM) w c :
  mem_out bf x w c → Zlen w < 2 ^ 32 → ∃ x', xdrmem_getpos x = (Zlen w, x') ∧ mem_out bf x' w c.
Proof.
  intros Hx Hw. exists (mem_tail_update x). split; [|by apply mem_out_tail].
  unfold xdrmem_getpos. assert (Hx' := mem_out_tail _ _ _ _ Hx).
  destruct Hx' as (_ & Hl & _). rewrite <- Hl, wrapu_id by (unfold is_u; lia). done.
Qed.

Lemma mem_setpos_eq bf (x : XDRM) w c pos :
  mem_out bf x w c → 0 ≤ pos ≤ Zlen w →
  xdrmem_setpos x pos = (true, set_data (vio_head (x_v x) + pos) (mem_tail_update x)).
Proof.
  intros Hx Hp. unfold xdrmem_setpos. destruct (mem_tail_update_v x) as [_ ->].
  destruct Hx as (_ & Hl & _ & Hle & _). by rewrite (proj2 (Z.ltb_ge _ _)) by lia.
Qed.

Lemma mem_setpos_at bf (x : XDRM) w c pos :
  mem_out bf x w c → 0 ≤ pos ≤ Zlen w →
  ∃ y, xdrmem_setpos x pos = (true, y) ∧
       mem_out bf y (take (Z.to_nat pos) w) (cap_sub c (pos - Zlen w)).
Proof.
  intros Hx Hp. rewrite (mem_setpos_eq _ _ _ _ _ Hx Hp).
  assert (Hx' := mem_out_tail _ _ _ _ Hx). destruct (mem_tail_update_v x) as [<- _].
  set (x1 := mem_tail_update x) in *. destruct Hx' as (Hop & Hl & Hld & Hle & Hal & -> & Hfr).
  eexists. split; [done|].
  rewrite <- (take_drop (Z.to_nat pos) w) in Hld. apply load_app_inv in Hld as [H1 H2]; [|len].
  split_and!; simpl; try done; try len.
  - apply load_is_allocd in H2. intros i Hi.
    destruct (Z_lt_le_dec i (x_data x1)); [apply H2|apply Hal]; len.
  - f_equal. lia.
Qed.

(** Overwriting a word already written. *)
Lemma mem_out_overwrite bf (x : XDRM) w1 u v w2 c :
  mem_out bf x (w1 ++ be32 u ++ w2) c →
  ∃ h, store (x_mem x) (vio_head (x_v x) + Zlen w1) (be32 v) = Some h ∧
       mem_out bf (set_mem h x) (w1 ++ be32 v ++ w2) c.
Proof.
  intros (Hop & Hl & Hld & Hle & Hal & -> & Hfr). set (a := vio_head (x_v x)) in *.
  apply load_app_inv in Hld as [H1 H2]; [|len]. apply load_app_inv in H2 as [H2 H3]; [|len].
  destruct (store_allocd (x_mem x) (a + Zlen w1) (be32 v)) as [h Hh].
  { apply load_is_allocd in H2. eapply allocd_sub; [exact H2|lia|len]. }
  exists h. split; [done|].
  assert (Hlen : Zlen (w1 ++ be32 v ++ w2) = Zlen (w1 ++ be32 u ++ w2)) by len.
  split_and!; simpl; [done|lia| |done| |done|].
  - rewrite !length_app. apply load_concat; [by rewrite (load_store_disj _ _ _ _ _ _ Hh) by lia|].
    apply load_concat; [by apply load_store in Hh|].
    rewrite (load_store_disj _ _ _ _ _ _ Hh) by len.
    replace (a + Zlen w1 + Zlen (be32 v)) with (a + Zlen w1 + Zlen (be32 u)) by len. done.
  - eapply allocd_dom; [by eapply store_dom|done].
  - apply (framed_change bf x h (a + Zlen w1) (Zlen (be32 v)) (x_data x)) in Hfr; try done; try len.
    by eapply store_same_outside.
Qed.

(** Moving back to a word, writing over it and returning. *)
Lemma mem_patch bf (x : XDRM) w1 u v w2 c :
  mem_out bf x (w1 ++ be32 u ++ w2) c →
  ∃ y z z', xdrmem_setpos x (Zlen w1) = (true, y) ∧ x_op y = XDR_ENCODE ∧
    xdr_putuint32 y v = Ret (true, z) ∧
    xdrmem_setpos z (Zlen (w1 ++ be32 u ++ w2)) = (true, z') ∧
    mem_out bf z' (w1 ++ be32 v ++ w2) c.
Proof.
  intros Hx. rewrite (mem_setpos_eq _ _ _ _ _ Hx) by len.
  assert (Hx1 := mem_out_tail _ _ _ _ Hx). destruct (mem_tail_update_v x) as [<- _].
  set (x1 := mem_tail_update x) in *. set (a := vio_head (x_v x1)).
  destruct (mem_out_overwrite bf x1 w1 u v w2 c Hx1) as (h & Hh & Ho).
  assert (Hlt : a + Zlen w1 + 4 ≤ vio_wrap (x_v x1)).
  { destruct Hx1 as (_ & ? & _ & ? & _). unfold a. len. }
  eexists _, _, _. split; [done|]. split; [apply Hx1|]. split.
  { unfold xdr_putuint32, fast_put. cbn [x_data set_data x_v x_mem].
    rewrite (proj2 (Z.leb_le _ _)) by done. fold a in Hh. rewrite Hh. done. }
  assert (Hd : x_data x1 = a + Zlen (w1 ++ be32 u ++ w2)) by (destruct Hx1 as (_ & ? & _); unfold a; lia).
  assert (Ht : x_data x1 ≤ vio_tail (x_v x1)).
  { unfold x1, mem_tail_update. destruct (Z.ltb_spec (vio_tail (x_v x)) (x_data x)); simpl; lia. }
  assert (Hle : x_data x1 ≤ vio_wrap (x_v x1)) by (by destruct Hx1 as (_ & _ & _ & ? & _)).
  unfold xdrmem_setpos, mem_tail_update. cbn [x_data set_data x_v x_mem set_mem]. fold a.
  rewrite <- Hd, (proj2 (Z.ltb_ge (vio_tail _) _)) by len. cbn [x_v set_data set_mem].
  rewrite (proj2 (Z.ltb_ge _ _)) by done. split; [done|]. by destruct x1.
Qed.

(** Positions of an encoding memory stream: the position is the number of bytes
    written; moving back to an earlier position keeps exactly the bytes before it and
    gives the room back, so that a header can be patched and encoding resumed. *)
Theorem xdrmem_rewind (bf : buffer) (x : XDRM) w c pos :
  mem_out bf x w c → Zlen w < 2 ^ 32 → 0 ≤ pos ≤ Zlen w →
  (∃ x', xdrmem_getpos x = (Zlen w, x') ∧ mem_out bf x' w c) ∧
  (∃ y, xdrmem_setpos x pos = (true, y) ∧
        mem_out bf y (take (Z.to_nat pos) w) (cap_sub c (pos - Zlen w))).
Proof.
  intros Hx Hw Hp. split; [by apply mem_getpos_at|by apply mem_setpos_at].
Qed.

Lemma xdrmem_rewind_witness :
  ∃ bf w c, mem_out bf (mem_writer 8) w c ∧
  (∃ x', xdrmem_getpos (mem_writer 8) = (Zlen w, x') ∧ mem_out bf x' w c) ∧
  (∃ y, xdrmem_setpos (mem_writer 8) 0 = (true, y) ∧
        mem_out bf y (take (Z.to_nat 0) w) (cap_sub c (0 - Zlen w))).
Proof.
  destruct (mem_writer_at 8) as [bf Hx]. exists bf, [], (Some 8). split; [exact Hx|].
  apply (xdrmem_rewind bf (mem_writer 8) [] (Some 8) 0 Hx); by vm_compute.
Defined.

Lemma xdrmem_allochdrs_rejects_data_witness :
  ¬ no_data [mk_vio 0 0 0 0 4 VIO_HEADER; mk_vio 0 0 0 0 0 VIO_DATA] ∧
  (xdrmem_allochdrs (mem_writer 8)
     [mk_vio 0 0 0 0 4 VIO_HEADER; mk_vio 0 0 0 0 0 VIO_DATA]).1.1 = false.
Proof.
  assert (¬ no_data [mk_vio 0 0 0 0 4 VIO_HEADER; mk_vio 0 0 0 0 0 VIO_DATA]) as H.
  { intros H. by inversion_clear H as [|? ? _ H']; inversion_clear H'. }
  split; [exact H|].
  apply (xdrmem_allochdrs_rejects_data (mem_writer 8)
    [mk_vio 0 0 0 0 4 VIO_HEADER; mk_vio 0 0 0 0 0 VIO_DATA] H).
Defined.
