(* ===== verification/XdrIoq.v ===== *)
(** * XDR streams over a queue of buffers (src/xdr_ioq.c, ntirpc/rpc/xdr_ioq.h)

    The stream every socket transport uses: the private state is the queue of
    buffers with the position in it, and an encoder that reaches the end of a buffer
    appends another.  [x_base] is the position of the current buffer in the queue.
    The allocator is a parameter (class [Allocator]), and so is [uvq_fetch], which only
    the RDMA transport sets. *)
From stdpp Require Import base gmap list.
From Stdlib Require Import ZArith Lia.
From S2P Require Import Prelude Machine XdrHandle XdrMem.

(** ** The allocator *)

(** [malloc(n)]: a block of [n] bytes that was not allocated before; the rest of the
    memory keeps its contents. *)
Class Allocator := {
  malloc : heap → Z → Z * heap;
  malloc_pos h n : 0 < (malloc h n).1;
  malloc_fresh h n i : (malloc h n).1 ≤ i < (malloc h n).1 + n → h !! i = None;
  malloc_allocd h n : allocd (malloc h n).2 (malloc h n).1 n;
  malloc_frame h n i :
    ¬ ((malloc h n).1 ≤ i < (malloc h n).1 + n) → (malloc h n).2 !! i = h !! i;
}.

(** [free(a)] of a block of [n] bytes; releasing what is not allocated is undefined. *)
Fixpoint free_block (h : heap) (a : Z) (n : nat) : option heap :=
  match n with
  | O => Some h
  | S n => match h !! a with Some _ => free_block (delete a h) (a + 1) n | None => None end
  end.

(** ** Data *)

Definition UIO_FLAG_NONE : Z := 0.
Definition UIO_FLAG_BUFQ : Z := 1.
Definition UIO_FLAG_FREE : Z := 2.
Definition UIO_FLAG_REALLOC : Z := 16.
Definition UIO_FLAG_REFER : Z := 32.
Definition IOQ_FLAG_NONE : Z := 0.
Definition IOQ_FLAG_BALLOC : Z := 262144.

(** One buffer: its flags, reference count, whether a release callback is installed,
    the caller's vector it was taken from (an address, or null) and its extent. *)
Record xdr_ioq_uv := mk_uv {
  uv_flags : Z;
  uv_references : Z;
  uv_release : bool;
  uv_refer : option Z;
  uv_v : xdr_vio;
}.

Definition ioquv_length (uv : xdr_ioq_uv) : Z := u64 (vio_tail (uv_v uv) - vio_head (uv_v uv)).
Definition ioquv_more (uv : xdr_ioq_uv) : Z := u64 (vio_wrap (uv_v uv) - vio_tail (uv_v uv)).
Definition ioquv_size (uv : xdr_ioq_uv) : Z := u64 (vio_wrap (uv_v uv) - vio_base (uv_v uv)).

Definition set_uv_v (v : xdr_vio) (uv : xdr_ioq_uv) : xdr_ioq_uv :=
  mk_uv (uv_flags uv) (uv_references uv) (uv_release uv) (uv_refer uv) v.

(** [struct xdr_ioq]: the queue [uvqh] with its count, the current buffer, the sizes of
    new buffers and the position ([plength] bytes and [pcount] buffers before the
    current one). *)
Record xdr_ioq := mk_ioq {
  uvq : list xdr_ioq_uv;
  qcount : Z;
  x_base : nat;
  min_bsize : Z;
  max_bsize : Z;
  plength : Z;
  pcount : Z;
}.

Abbreviation XDRQ := (XDR xdr_ioq).

Definition set_uvq (q : list xdr_ioq_uv) (p : xdr_ioq) : xdr_ioq :=
  mk_ioq q (qcount p) (x_base p) (min_bsize p) (max_bsize p) (plength p) (pcount p).
Definition set_qcount (n : Z) (p : xdr_ioq) : xdr_ioq :=
  mk_ioq (uvq p) n (x_base p) (min_bsize p) (max_bsize p) (plength p) (pcount p).
Definition set_base (b : nat) (p : xdr_ioq) : xdr_ioq :=
  mk_ioq (uvq p) (qcount p) b (min_bsize p) (max_bsize p) (plength p) (pcount p).
Definition set_plength (n : Z) (p : xdr_ioq) : xdr_ioq :=
  mk_ioq (uvq p) (qcount p) (x_base p) (min_bsize p) (max_bsize p) n (pcount p).
Definition set_pcount (n : Z) (p : xdr_ioq) : xdr_ioq :=
  mk_ioq (uvq p) (qcount p) (x_base p) (min_bsize p) (max_bsize p) (plength p) n.
Definition on_ioq (f : xdr_ioq → xdr_ioq) (xdrs : XDRQ) : XDRQ :=
  set_private (f (x_private xdrs)) xdrs.

Definition set_v_at (i : nat) (v : xdr_vio) (p : xdr_ioq) : xdr_ioq :=
  set_uvq (alter (set_uv_v v) i (uvq p)) p.

(** ** Positions in the queue *)

(** [XDR_VIO(xdrs)->vio_tail = t]; without a current buffer there is nothing to set. *)
Definition ioq_base_tail (t : Z) (xdrs : XDRQ) : XDRQ :=
  on_ioq (λ p, set_uvq (alter (λ uv, set_uv_v (set_vio_tail t (uv_v uv)) uv) (x_base p) (uvq p)) p) xdrs.

(** [xdr_tail_update] on a queue, written out. *)
Definition ioq_tail_update (xdrs : XDRQ) : XDRQ :=
  if vio_tail (x_v xdrs) <? x_data xdrs
  then ioq_base_tail (x_data xdrs) (set_v (set_vio_tail (x_data xdrs) (x_v xdrs)) xdrs)
  else xdrs.

Definition xdr_ioq_uv_reset (xdrs : XDRQ) (i : nat) : out XDRQ :=
  let! uv := access (uvq (x_private xdrs) !! i) in
  Ret (set_v (uv_v uv) (set_data (vio_head (uv_v uv)) (on_ioq (set_base i) xdrs))).

Definition xdr_ioq_uv_update (xdrs : XDRQ) (i : nat) : out XDRQ :=
  let! xdrs := xdr_ioq_uv_reset xdrs i in
  Ret (on_ioq (λ p, set_pcount (u32 (pcount p + 1)) p) xdrs).

Definition xdr_ioq_reset (xdrs : XDRQ) (wh_pos : Z) : out XDRQ :=
  let! uv := access (head (uvq (x_private xdrs))) in
  let xdrs := on_ioq (λ p, set_plength 0 (set_pcount 0 p)) xdrs in
  let xdrs := if ioquv_size uv <=? wh_pos then xdrs
              else on_ioq (set_v_at 0 (set_vio_head (vio_base (uv_v uv) + wh_pos) (uv_v uv))) xdrs in
  xdr_ioq_uv_reset xdrs 0.

(** The next buffer's position, if there is one. *)
Definition xdr_ioq_uv_advance (xdrs : XDRQ) : out (option nat * XDRQ) :=
  let i := x_base (x_private xdrs) in
  let xdrs := ioq_tail_update xdrs in
  let! uv := access (uvq (x_private xdrs) !! i) in
  let xdrs := on_ioq (λ p, set_plength (u64 (plength p + ioquv_length uv)) p) xdrs in
  Ret (if (S i <? length (uvq (x_private xdrs)))%nat then Some (S i) else None, xdrs).

Section Queue.
Context `{!Allocator}.

(** ** Creation *)

Definition xdr_ioq_uv_create (h : heap) (size uio_flags : Z) : out (xdr_ioq_uv * heap) :=
  if negb (size =? 0) then
    let '(base, h) := malloc h size in
    if negb (base <? base + size) then Abort else
    Ret (mk_uv uio_flags 1 false None (mk_vio base base base (base + size) 0 VIO_HEADER), h)
  else Ret (mk_uv uio_flags 1 false None (mk_vio 0 0 0 0 0 VIO_HEADER), h).

Definition ioq_insert_tail (uv : xdr_ioq_uv) (p : xdr_ioq) : xdr_ioq :=
  set_uvq (uvq p ++ [uv]) (set_qcount (qcount p + 1) p).

(** [xdr_ioq_setup] leaves an empty queue without a current buffer. *)
Definition xdr_ioq_setup (h : heap) (min_bsize max_bsize : Z) : XDRQ :=
  mk_xdr XDR_ENCODE 0 (mk_vio 0 0 0 0 0 VIO_HEADER) (mk_ioq [] 0 0 min_bsize max_bsize 0 0) h.

Definition xdr_ioq_create (h : heap) (min_bsize max_bsize uio_flags : Z) : out XDRQ :=
  let xdrs := xdr_ioq_setup h min_bsize max_bsize in
  if negb (has_flag uio_flags UIO_FLAG_BUFQ) then
    let! (uv, h) := xdr_ioq_uv_create h min_bsize uio_flags in
    let xdrs := on_ioq (λ p, set_qcount 1 (set_uvq (uv :: uvq p) p)) (set_mem h xdrs) in
    xdr_ioq_reset xdrs 0
  else Ret xdrs.

(** ** Growing *)

(** [uvq_fetch]: takes a buffer from a pool to the end of the queue. *)
Variable uvq_fetch : option (XDRQ → out (option nat * XDRQ)).

(** The buffer is replaced by one of [max_bsize] bytes; [None] when it has that size. *)
Definition ioq_realloc (xdrs : XDRQ) (i : nat) (uv : xdr_ioq_uv) : out (option nat * XDRQ) :=
  let size := ioquv_size uv in
  let delta := xdr_tail_inline xdrs in
  let len := ioquv_length uv in
  let max := max_bsize (x_private xdrs) in
  if max <=? size then Ret (None, xdrs) else
  let xdrs := on_ioq (λ p, set_plength (u64 (plength p - len)) p) xdrs in
  if negb (has_flag (uv_flags uv) UIO_FLAG_FREE) then Abort else
  let '(base, h) := malloc (x_mem xdrs) max in
  let! bs := access (load h (vio_head (uv_v uv)) (Z.to_nat len)) in
  let! h := access (store h base bs) in
  let! h := access (free_block h (vio_base (uv_v uv)) (Z.to_nat size)) in
  let v := mk_vio base base (base + len) (base + max) (vio_length (uv_v uv)) (vio_type (uv_v uv)) in
  let xdrs := on_ioq (set_v_at i v) (set_mem h xdrs) in
  Ret (Some i, set_data (vio_tail v - delta) (set_v v xdrs)).

Definition xdr_ioq_uv_append (xdrs : XDRQ) (ioq_flags : Z) : out (option nat * XDRQ) :=
  let i := x_base (x_private xdrs) in
  let! uv := access (uvq (x_private xdrs) !! i) in
  match uvq_fetch with
  | Some fetch =>
      let! (have, xdrs) := fetch xdrs in
      let! i := access have in
      let! xdrs := xdr_ioq_uv_update xdrs i in Ret (Some i, xdrs)
  | None =>
      if has_flag ioq_flags IOQ_FLAG_BALLOC && has_flag (uv_flags uv) UIO_FLAG_REALLOC
      then ioq_realloc xdrs i uv else
      let! (uv, h) :=
        if has_flag ioq_flags IOQ_FLAG_BALLOC
        then xdr_ioq_uv_create (x_mem xdrs) (min_bsize (x_private xdrs)) UIO_FLAG_FREE
        else xdr_ioq_uv_create (x_mem xdrs) 0 UIO_FLAG_NONE in
      let i := length (uvq (x_private xdrs)) in
      let xdrs := on_ioq (ioq_insert_tail uv) (set_mem h xdrs) in
      let! xdrs := xdr_ioq_uv_update xdrs i in Ret (Some i, xdrs)
  end.

(** Move to the next buffer, appending one when there is none. *)
Definition ioq_next_or_append (xdrs : XDRQ) (flags : Z) : out (option nat * XDRQ) :=
  let! (next, xdrs) := xdr_ioq_uv_advance xdrs in
  match next with
  | None => xdr_ioq_uv_append xdrs flags
  | Some i => let! xdrs := xdr_ioq_uv_update xdrs i in Ret (Some i, xdrs)
  end.

(** ** Units *)

(** [while (future > xdrs->x_v.vio_tail)]: whether a unit is there to be read. *)
Fixpoint getunit_loop (fuel : nat) (xdrs : XDRQ) : out (bool * XDRQ) :=
  if x_data xdrs + 4 <=? vio_tail (x_v xdrs) then Ret (true, xdrs) else
  if negb (x_data xdrs =? vio_tail (x_v xdrs)) then Ret (false, xdrs) else
  match fuel with
  | O => OutOfFuel
  | S fuel =>
      let! (next, xdrs) := xdr_ioq_uv_advance xdrs in
      match next with
      | None => Ret (false, xdrs)
      | Some i => let! xdrs := xdr_ioq_uv_update xdrs i in getunit_loop fuel xdrs
      end
  end.

Definition xdr_ioq_getunit (xdrs : XDRQ) : out (option Z * XDRQ) :=
  let! (b, xdrs) := getunit_loop (length (uvq (x_private xdrs))) xdrs in
  if negb b then Ret (None, xdrs) else
  let! l := access (load (x_mem xdrs) (x_data xdrs) 4) in
  Ret (Some (be_dec l), set_data (x_data xdrs + 4) xdrs).

(** [while (future > xdrs->x_v.vio_wrap)] *)
Fixpoint putunit_loop (fuel : nat) (xdrs : XDRQ) : out XDRQ :=
  if x_data xdrs + 4 <=? vio_wrap (x_v xdrs) then Ret xdrs else
  match fuel with
  | O => OutOfFuel
  | S fuel =>
      let! (_, xdrs) := ioq_next_or_append xdrs IOQ_FLAG_BALLOC in
      putunit_loop fuel xdrs
  end.

Definition xdr_ioq_putunit (xdrs : XDRQ) (v : Z) : out (bool * XDRQ) :=
  let! xdrs := putunit_loop (S (length (uvq (x_private xdrs)))) xdrs in
  let! h := access (store (x_mem xdrs) (x_data xdrs) (be32 v)) in
  Ret (true, set_data (x_data xdrs + 4) (set_mem h xdrs)).

(** ** Bytes *)

(** [acc] are the bytes copied so far. *)
Fixpoint getbytes_loop (fuel : nat) (xdrs : XDRQ) (acc : list Z) (len : Z)
    : out (bool * list Z * XDRQ) :=
  if (0 <? len) && (pcount (x_private xdrs) <? u32 (qcount (x_private xdrs))) then
    match fuel with
    | O => OutOfFuel
    | S fuel =>
        let delta := vio_tail (x_v xdrs) - x_data xdrs in
        if delta <? 0 then Ub else
        if negb (len <? delta) && (delta =? 0) then
          let! (next, xdrs) := xdr_ioq_uv_advance xdrs in
          match next with
          | None => Ret (false, acc, xdrs)
          | Some i => let! xdrs := xdr_ioq_uv_update xdrs i in getbytes_loop fuel xdrs acc len
          end
        else
          let delta := if len <? delta then len else delta in
          let! bs := access (load (x_mem xdrs) (x_data xdrs) (Z.to_nat delta)) in
          getbytes_loop fuel (set_data (x_data xdrs + delta) xdrs) (acc ++ bs) (len - delta)
    end
  else Ret (true, acc, xdrs).

Definition xdr_ioq_getbytes (xdrs : XDRQ) (len : Z) : out (bool * list Z * XDRQ) :=
  getbytes_loop (2 * length (uvq (x_private xdrs)) + 1) xdrs [] len.

Fixpoint putbytes_loop (fuel : nat) (xdrs : XDRQ) (bs : list Z) : out XDRQ :=
  match bs with
  | [] => Ret xdrs
  | _ =>
      match fuel with
      | O => OutOfFuel
      | S fuel =>
          let delta := vio_wrap (x_v xdrs) - x_data xdrs in
          if delta <? 0 then Ub else
          if negb (Zlen bs <? delta) && (delta =? 0) then
            let! (_, xdrs) := ioq_next_or_append xdrs IOQ_FLAG_BALLOC in
            putbytes_loop fuel xdrs bs
          else
            let n := Z.to_nat (if Zlen bs <? delta then Zlen bs else delta) in
            let! h := access (store (x_mem xdrs) (x_data xdrs) (take n bs)) in
            putbytes_loop fuel (set_data (x_data xdrs + Z.of_nat n) (set_mem h xdrs)) (drop n bs)
      end
  end.

Definition xdr_ioq_putbytes (xdrs : XDRQ) (bs : list Z) : out (bool * XDRQ) :=
  let! xdrs := putbytes_loop (length (uvq (x_private xdrs)) + 2 * length bs) xdrs bs in
  Ret (true, xdrs).

(** ** Positions *)

Definition xdr_ioq_getpos (xdrs : XDRQ) : Z * XDRQ :=
  let xdrs := ioq_tail_update xdrs in
  (u32 (plength (x_private xdrs) + u64 (x_data xdrs - vio_head (x_v xdrs))), xdrs).

Definition xdr_ioq_getstartdatapos (xdrs : XDRQ) (start datalen : Z) : Z := start.
Definition xdr_ioq_getenddatapos (xdrs : XDRQ) (start datalen : Z) : Z := u32 (start + datalen).

(** [TAILQ_FOREACH]; [i] is the position of the first buffer of [l].  [full] is computed
    from [x_v], the buffer the stream stands in. *)
Fixpoint setpos_loop (xdrs : XDRQ) (l : list xdr_ioq_uv) (i : nat) (pos : Z) : bool * XDRQ :=
  match l with
  | [] => (false, xdrs)
  | uv :: l =>
      let len := u32 (ioquv_length uv) in
      let full := u32 (vio_wrap (x_v xdrs) - vio_head (x_v xdrs)) in
      if (pos <? len) || (match l with [] => true | _ => false end && (pos <=? full)) then
        (true, set_v (uv_v uv) (set_data (vio_head (uv_v uv) + pos) (on_ioq (set_base i) xdrs)))
      else
        let xdrs := on_ioq (λ p, set_pcount (u32 (pcount p + 1)) (set_plength (u64 (plength p + len)) p)) xdrs in
        setpos_loop xdrs l (S i) (u32 (pos - len))
  end.

Definition xdr_ioq_setpos (xdrs : XDRQ) (pos : Z) : bool * XDRQ :=
  let xdrs := ioq_tail_update xdrs in
  let xdrs := on_ioq (λ p, set_plength 0 (set_pcount 0 p)) xdrs in
  setpos_loop xdrs (uvq (x_private xdrs)) 0 pos.

(** ** Vectors of buffers *)

Fixpoint ioq_putbufs_loop (xdrs : XDRQ) (uio : Z) (flags : Z) (vs : list xdr_vio) : out XDRQ :=
  match vs with
  | [] => Ret xdrs
  | v :: vs =>
      let! (next, xdrs) := ioq_next_or_append xdrs flags in
      let! i := access next in
      let! uv := access (uvq (x_private xdrs) !! i) in
      let uv := mk_uv UIO_FLAG_REFER (uv_references uv) (uv_release uv) (Some uio) v in
      let xdrs := on_ioq (λ p, set_base i (set_uvq (<[i := uv]> (uvq p)) p)) xdrs in
      ioq_putbufs_loop (set_v v (set_data (vio_tail v) xdrs)) uio flags vs
  end.

(** [uio] is the address of the caller's vector; its reference count is returned. *)
Definition xdr_ioq_putbufs (xdrs : XDRQ) (addr : Z) (uio : xdr_uio) (flags : Z)
    : out (bool * Z * XDRQ) :=
  let xdrs := ioq_tail_update xdrs in
  let! xdrs := ioq_putbufs_loop xdrs addr flags (uio_vio uio) in
  Ret (true, uio_references uio + Zlen (uio_vio uio), xdrs).

Definition xdr_ioq_newbuf (xdrs : XDRQ) : out (bool * XDRQ) :=
  let! (_, xdrs) := ioq_next_or_append xdrs IOQ_FLAG_BALLOC in Ret (true, xdrs).

(** [buffers] is -1 until the buffer that holds [start] is found. *)
Fixpoint iovcount_loop (l : list xdr_ioq_uv) (start datalen buffers : Z) : Z :=
  match l with
  | [] => if negb (datalen =? 0) then -1 else buffers
  | uv :: l =>
      let len := u32 (ioquv_length uv) in
      let '(buffers, start) :=
        if 0 <? buffers then (buffers + 1, start)
        else if start <? len then (1, start) else (buffers, u32 (start - len)) in
      if 0 <? buffers then
        let buflen := u32 (ioquv_length uv - start) in
        if datalen <=? buflen then buffers
        else iovcount_loop l 0 (u32 (datalen - buflen)) buffers
      else iovcount_loop l start datalen buffers
  end.

Definition xdr_ioq_iovcount (xdrs : XDRQ) (start datalen : Z) : Z * XDRQ :=
  let xdrs := ioq_tail_update xdrs in
  (iovcount_loop (uvq (x_private xdrs)) start datalen (-1), xdrs).

(** The entries written, and the result. *)
Fixpoint fillbufs_loop (l : list xdr_ioq_uv) (found : bool) (start datalen : Z)
    : list xdr_vio * bool :=
  match l with
  | [] => ([], if negb (datalen =? 0) then false else found)
  | uv :: l =>
      let len := u32 (ioquv_length uv) in
      let '(found, start) :=
        if found then (true, start)
        else if start <? len then (true, start) else (false, u32 (start - len)) in
      if found : bool then
        let v := set_vio_type VIO_DATA (uv_v uv) in
        let '(len, v) := if 0 <? start then (u32 (len - start), set_vio_head (vio_head v + start) v)
                         else (len, v) in
        let v := set_vio_length len v in
        if datalen <? len then
          ([set_vio_tail (vio_head v + datalen) (set_vio_length datalen v)], true)
        else if datalen =? len then ([v], true)
        else let '(vs, b) := fillbufs_loop l true 0 (u32 (datalen - len)) in (v :: vs, b)
      else fillbufs_loop l false start datalen
  end.

Definition xdr_ioq_fillbufs (xdrs : XDRQ) (start datalen : Z) : list xdr_vio * bool * XDRQ :=
  let xdrs := ioq_tail_update xdrs in
  (fillbufs_loop (uvq (x_private xdrs)) false start datalen, xdrs).

(** ** Reserving space for headers and trailers *)

(** [TAILQ_INSERT_AFTER]; [x_base] keeps designating the same buffer. *)
Definition ioq_insert_after (i : nat) (uv : xdr_ioq_uv) (p : xdr_ioq) : xdr_ioq :=
  let b := x_base p in
  set_base (if (i <? b)%nat then S b else b)
    (set_uvq (take (S i) (uvq p) ++ uv :: drop (S i) (uvq p)) (set_qcount (qcount p + 1) p)).

(** [v] is the entry to place and [next_len] the length of the entry behind it.  Returns
    the entry and the buffer used. *)
Definition xdr_ioq_use_or_allocate (xdrs : XDRQ) (v : xdr_vio) (next_len : Z) (i : nat)
    : out (xdr_vio * nat * XDRQ) :=
  let htlen := vio_length v in
  let! uv := access (uvq (x_private xdrs) !! i) in
  let! (v, i, xdrs) :=
    if htlen <=? ioquv_more uv then
      let t := vio_tail (uv_v uv) in
      let v := mk_vio (vio_base (uv_v uv)) t (t + htlen) (vio_wrap (uv_v uv)) htlen (vio_type v) in
      Ret (v, i, on_ioq (set_v_at i (set_vio_tail (vio_tail v) (uv_v uv))) xdrs)
    else
      let! (i, xdrs) :=
        match uvq_fetch with
        | Some fetch => let! (_, xdrs) := fetch xdrs in Ret (i, xdrs)
        | None =>
            let! (uv2, h) := xdr_ioq_uv_create (x_mem xdrs) (min_bsize (x_private xdrs)) UIO_FLAG_FREE in
            Ret (S i, on_ioq (ioq_insert_after i uv2) (set_mem h xdrs))
        end in
      let! uv := access (uvq (x_private xdrs) !! i) in
      let hd := vio_head (uv_v uv) in
      let v := mk_vio (vio_base (uv_v uv)) hd (hd + htlen) (vio_wrap (uv_v uv)) htlen (vio_type v) in
      Ret (v, i, on_ioq (set_v_at i (set_vio_tail (vio_tail v) (uv_v uv))) xdrs) in
  if bool_decide (vio_type v = VIO_TRAILER_LEN) then
    let! h := access (store (x_mem xdrs) (vio_head v) (be32 next_len)) in
    Ret (v, i, set_mem h xdrs)
  else Ret (v, i, xdrs).

(** The buffer at or before [start], and what is left of [start] there. *)
Fixpoint allochdrs_find (l : list xdr_ioq_uv) (i : nat) (start : Z) : option (nat * Z) :=
  match l with
  | [] => None
  | uv :: l =>
      let len := u32 (ioquv_length uv) in
      if start <? len then Some (i, start) else
      let start := u32 (start - len) in
      if start =? 0 then Some (i, start) else allochdrs_find l (S i) start
  end.

Definition tailq_next (xdrs : XDRQ) (i : nat) : option nat :=
  if (S i <? length (uvq (x_private xdrs)))%nat then Some (S i) else None.

(** The VIO_DATA entries: the number of them, the bytes they stand for and the buffer
    behind which trailers go. *)
Fixpoint allochdrs_data (xdrs : XDRQ) (vs : list xdr_vio) (have uv : option nat) (totlen : Z)
    : out (nat * Z * option nat) :=
  match vs with
  | v :: vs =>
      if bool_decide (vio_type v = VIO_DATA) then
        let! h := access have in
        let have := tailq_next xdrs h in
        let uv := match have with Some _ => have | None => uv end in
        let! (n, totlen, uv) := allochdrs_data xdrs vs have uv (u32 (totlen + vio_length v)) in
        Ret (S n, totlen, uv)
      else Ret (O, totlen, uv)
  | [] => Ret (O, totlen, uv)
  end.

Fixpoint allochdrs_trailers (xdrs : XDRQ) (done todo : list xdr_vio) (uv : option nat) (totlen : Z)
    : out (bool * list xdr_vio * Z * XDRQ) :=
  match todo with
  | [] => Ret (true, done, totlen, xdrs)
  | v :: todo' =>
      let vt := vio_type v in
      if negb (bool_decide (vt = VIO_TRAILER)) && negb (bool_decide (vt = VIO_TRAILER_LEN))
      then Ret (false, done ++ todo, totlen, xdrs) else
      if bool_decide (vt = VIO_TRAILER_LEN) &&
         match todo' with [] => true | v' :: _ => negb (bool_decide (vio_type v' = VIO_TRAILER)) end
      then Ret (false, done ++ todo, totlen, xdrs) else
      let! i := access uv in
      let next_len := match todo' with v' :: _ => vio_length v' | [] => 0 end in
      let! (v, i, xdrs) := xdr_ioq_use_or_allocate xdrs v next_len i in
      allochdrs_trailers xdrs (done ++ [v]) todo' (Some i) (u32 (totlen + vio_length v))
  end.

Definition xdr_ioq_allochdrs (xdrs : XDRQ) (start : Z) (vector : list xdr_vio)
    : out (bool * list xdr_vio * XDRQ) :=
  let totlen := start in
  let xdrs := ioq_tail_update xdrs in
  match allochdrs_find (uvq (x_private xdrs)) 0 start with
  | None => Ret (false, vector, xdrs)
  | Some (have, start) =>
      let! v0 := access (head vector) in
      let is_header := bool_decide (vio_type v0 = VIO_HEADER) in
      if is_header && negb (start =? 0) then Ret (false, vector, xdrs) else
      let! (done, todo, uv, totlen, xdrs) :=
        if is_header then
          let next_len := match tail vector with v' :: _ => vio_length v' | [] => 0 end in
          let! (v, i, xdrs) := xdr_ioq_use_or_allocate xdrs v0 next_len have in
          Ret ([v], tail vector, i, u32 (totlen + vio_length v), xdrs)
        else Ret ([], vector, have, totlen, xdrs) in
      let uv := if start =? 0 then tailq_next xdrs uv else Some uv in
      let! (n, totlen, uv) := allochdrs_data xdrs todo (Some have) uv totlen in
      let! (b, vector, totlen, xdrs) :=
        allochdrs_trailers xdrs (done ++ take n todo) (drop n todo) uv totlen in
      if negb b then Ret (false, vector, xdrs) else
      let '(_, xdrs) := xdr_ioq_setpos xdrs totlen in
      Ret (true, vector, xdrs)
  end.

(** ** Release *)

(** What becomes of a buffer whose reference is dropped. *)
Inductive uv_fate :=
| Kept | Called | Referred (uio : Z) | Freed | Recycled.

Definition xdr_ioq_uv_release (h : heap) (uv : xdr_ioq_uv) : out (uv_fate * xdr_ioq_uv * heap) :=
  let refs := uv_references uv - 1 in
  let dec r := mk_uv (uv_flags uv) r (uv_release uv) (uv_refer uv) (uv_v uv) in
  if negb (refs =? 0) then Ret (Kept, dec refs, h) else
  if uv_release uv then Ret (Called, dec refs, h) else
  if has_flag (uv_flags uv) UIO_FLAG_REFER then
    let! uio := access (uv_refer uv) in Ret (Referred uio, dec refs, h)
  else if has_flag (uv_flags uv) UIO_FLAG_FREE then
    let! h := access (free_block h (vio_base (uv_v uv)) (Z.to_nat (ioquv_size uv))) in
    Ret (Freed, dec refs, h)
  else if has_flag (uv_flags uv) UIO_FLAG_BUFQ then Ret (Recycled, dec 1, h)
  else Abort.

(** The fates of the buffers of a queue, in order, and the count left. *)
Fixpoint ioq_release_loop (h : heap) (l : list xdr_ioq_uv) (qcount : Z)
    : out (list uv_fate * Z * heap) :=
  match l with
  | [] => Ret ([], qcount, h)
  | uv :: l =>
      let! (f, _, h) := xdr_ioq_uv_release h uv in
      let! (fs, qcount, h) := ioq_release_loop h l (qcount - 1) in
      Ret (f :: fs, qcount, h)
  end.

Definition xdr_ioq_release (h : heap) (p : xdr_ioq) : out (list uv_fate * heap) :=
  let! (fs, n, h) := ioq_release_loop h (uvq p) (qcount p) in
  if negb (n =? 0) then Abort else Ret (fs, h).

(** The stream is destroyed with its buffers. *)
Definition xdr_ioq_destroy (xdrs : XDRQ) : out (list uv_fate * heap) :=
  xdr_ioq_release (x_mem xdrs) (x_private xdrs).

#[local] Instance ioq_ops_with : XdrOps xdr_ioq := {|
  x_getunit := xdr_ioq_getunit;
  x_putunit := xdr_ioq_putunit;
  x_getbytes := xdr_ioq_getbytes;
  x_putbytes := xdr_ioq_putbytes;
  x_getpostn := xdr_ioq_getpos;
  x_setpostn := xdr_ioq_setpos;
  x_base_tail := ioq_base_tail;
|}.
End Queue.

(** The streams of the socket transports: buffers are allocated on demand. *)
#[export] Instance ioq_ops `{!Allocator} : XdrOps xdr_ioq := ioq_ops_with None.

(** ** An allocator *)

(** The first multiple of 16 above every address in use. *)
Definition bump_addr (h : heap) : Z :=
  16 * (map_fold (λ a _ m, Z.max a m) 0 h / 16 + 1).

Fixpoint zero_block (h : heap) (a : Z) (n : nat) : heap :=
  match n with O => h | S n => <[a := 0]> (zero_block h (a + 1) n) end.

Lemma max_addr_spec (h : heap) :
  let m := map_fold (λ a _ m, Z.max a m) 0 h in
  0 ≤ m ∧ ∀ a, is_Some (h !! a) → a ≤ m.
Proof.
  apply (map_fold_weak_ind (λ m h, 0 ≤ m ∧ ∀ a, is_Some (h !! a) → a ≤ m)).
  - split; [done|]. intros a [b Hb]. by rewrite lookup_empty in Hb.
  - intros i b h' m _ [Hm IH]. split; [lia|]. intros a.
    destruct (decide (a = i)) as [->|Hne]; [lia|]. rewrite lookup_insert_ne by done.
    intros Ha. specialize (IH a Ha). lia.
Qed.

Lemma zero_block_lookup h a n i :
  zero_block h a n !! i = if bool_decide (a ≤ i < a + Z.of_nat n) then Some 0 else h !! i.
Proof.
  revert a. induction n as [|n IH]; intros a; cbn [zero_block].
  { by rewrite bool_decide_eq_false_2 by lia. }
  destruct (decide (i = a)) as [->|Hne].
  { by rewrite lookup_insert_eq, bool_decide_eq_true_2 by lia. }
  rewrite lookup_insert_ne, IH by done.
  destruct (decide (a + 1 ≤ i < a + 1 + Z.of_nat n)).
  - by rewrite !bool_decide_eq_true_2 by lia.
  - by rewrite !bool_decide_eq_false_2 by lia.
Qed.

(** Blocks of zeroes above everything allocated. *)
Definition bump : Allocator.
Proof.
  refine {| malloc h n := (bump_addr h, zero_block h (bump_addr h) (Z.to_nat n)) |}.
  - intros h n. destruct (max_addr_spec h) as [Hm _]. cbn. unfold bump_addr. lia.
  - intros h n i Hi. cbn in Hi. destruct (max_addr_spec h) as [_ Hm].
    apply eq_None_not_Some. intros Hs%Hm. unfold bump_addr in Hi. lia.
  - intros h n i Hi. cbn in *. rewrite zero_block_lookup, bool_decide_eq_true_2 by lia. eauto.
  - intros h n i Hi. cbn in *. by rewrite zero_block_lookup, bool_decide_eq_false_2 by lia.
Defined.
