(* ===== verification/XdrIoqFacts.v ===== *)
(** * Buffer queues keep the stream contracts

    A decoding queue hands over the bytes between head and tail of its buffers one
    after the other, provided no unit straddles two buffers; an encoding queue whose
    buffers are allocated on demand never runs out of room.  Both are instances of the
    contracts of XdrStream.v, so that every theorem about filters and messages holds
    on the streams the transports use. *)
From stdpp Require Import base gmap list.
From Stdlib Require Import ZArith Lia.
From S2P Require Import Prelude Machine XdrHandle XdrStream XdrMem XdrIoq.

Lemma alter_middle {B} (f : B → B) l1 b l2 : alter f (length l1) (l1 ++ b :: l2) = l1 ++ f b :: l2.
Proof. by rewrite alter_app_r_alt, Nat.sub_diag by lia. Qed.

(** ** Contents of buffers *)

(** The bytes in use of a buffer, and of a sequence of buffers. *)
Definition seg (h : heap) (uv : xdr_ioq_uv) : option (list Z) :=
  load h (vio_head (uv_v uv)) (Z.to_nat (vio_tail (uv_v uv) - vio_head (uv_v uv))).

Fixpoint segs (h : heap) (l : list xdr_ioq_uv) : option (list Z) :=
  match l with
  | [] => Some []
  | uv :: l => match seg h uv, segs h l with
               | Some bs, Some bs' => Some (bs ++ bs')
               | _, _ => None
               end
  end.

Lemma segs_cons h uv l w :
  segs h (uv :: l) = Some w ↔ ∃ w1 w2, seg h uv = Some w1 ∧ segs h l = Some w2 ∧ w = w1 ++ w2.
Proof.
  cbn. split.
  - destruct (seg h uv) as [w1|], (segs h l) as [w2|]; intros; simplify_eq. eauto.
  - by intros (w1 & w2 & -> & -> & ->).
Qed.

Lemma segs_app h l1 l2 w :
  segs h (l1 ++ l2) = Some w ↔
  ∃ w1 w2, segs h l1 = Some w1 ∧ segs h l2 = Some w2 ∧ w = w1 ++ w2.
Proof.
  revert w. induction l1 as [|uv l1 IH]; intros w; cbn [app].
  - split; [by exists [], w|]. by intros (? & ? & [= <-] & ? & ->).
  - rewrite segs_cons. setoid_rewrite segs_cons. setoid_rewrite IH. split.
    + intros (u & ? & ? & (v & z & ? & ? & ->) & ->). exists (u ++ v), z. rewrite app_assoc.
      split_and!; eauto 10.
    + intros (? & z & (u & v & ? & ? & ->) & ? & ->). exists u, (v ++ z). rewrite app_assoc.
      split_and!; eauto 10.
Qed.

Lemma seg_allocd h uv w i :
  seg h uv = Some w → vio_head (uv_v uv) ≤ i < vio_tail (uv_v uv) → is_Some (h !! i).
Proof. intros H Hi. eapply load_is_allocd; [done|lia]. Qed.

Lemma segs_allocd h l w uv i :
  segs h l = Some w → uv ∈ l → vio_head (uv_v uv) ≤ i < vio_tail (uv_v uv) → is_Some (h !! i).
Proof.
  revert w. induction l as [|uv' l IH]; intros w Hs Hin Hi; [by apply not_elem_of_nil in Hin|].
  apply segs_cons in Hs as (w1 & w2 & H1 & H2 & ->).
  apply elem_of_cons in Hin as [->|Hin]; [by eapply seg_allocd|by eapply IH].
Qed.

(** Changing memory outside the bytes in use. *)
Lemma segs_ext h h' l :
  (∀ uv i, uv ∈ l → vio_head (uv_v uv) ≤ i < vio_tail (uv_v uv) → h' !! i = h !! i) →
  segs h' l = segs h l.
Proof.
  induction l as [|uv l IH]; intros Hx; [done|]. cbn.
  rewrite IH by (intros ??? ; apply Hx; by right). unfold seg.
  rewrite (load_ext h h'); [done|]. intros i Hi. apply (Hx uv); [left|lia].
Qed.

(** Head and tail in order. *)
Definition ordered (uv : xdr_ioq_uv) : Prop := vio_head (uv_v uv) ≤ vio_tail (uv_v uv).
Definition nonempty (uv : xdr_ioq_uv) : Prop := vio_head (uv_v uv) < vio_tail (uv_v uv).

Lemma nonempty_ordered q : Forall nonempty q → Forall ordered q.
Proof. intros H. eapply Forall_impl; [exact H|]. unfold nonempty, ordered. lia. Qed.

(** ** Decoding *)

(** All buffers but the last hold whole units. *)
Fixpoint unit_segs (l : list xdr_ioq_uv) : Prop :=
  match l with
  | [] => True
  | uv :: l => vio_head (uv_v uv) ≤ vio_tail (uv_v uv) ∧
               (l = [] ∨ (vio_tail (uv_v uv) - vio_head (uv_v uv)) mod 4 = 0) ∧ unit_segs l
  end.

(** The stream stands in [uv], behind [pre] and before [post]; [l1] is left of [uv] and
    [l2] is in [post]. *)
Record ioq_reads (x : XDRQ) (k : Z) (pre : list xdr_ioq_uv) (uv : xdr_ioq_uv)
    (post : list xdr_ioq_uv) (l1 l2 : list Z) : Prop := {
  rd_op : x_op x = XDR_DECODE;
  rd_uvq : uvq (x_private x) = pre ++ uv :: post;
  rd_base : x_base (x_private x) = length pre;
  rd_v : x_v x = uv_v uv;
  rd_pcount : pcount (x_private x) = Zlen pre;
  rd_qcount : qcount (x_private x) = Zlen (uvq (x_private x));
  rd_count : Zlen (uvq (x_private x)) < 2 ^ 31;
  rd_here : load (x_mem x) (x_data x) (length l1) = Some l1;
  rd_left : Zlen l1 = vio_tail (uv_v uv) - x_data x;
  rd_rest : segs (x_mem x) post = Some l2;
  rd_bytes : bytes (l1 ++ l2);
  rd_unit : post = [] ∨ (Zlen l1 + k) mod 4 = 0;
  rd_units : unit_segs post;
  rd_size : (length (l1 ++ l2) ≤ size (x_mem x))%nat;
}.

Definition ioq_in (x : XDRQ) (k : Z) (l : list Z) : Prop :=
  ∃ pre uv post l1 l2, l = l1 ++ l2 ∧ ioq_reads x k pre uv post l1 l2.

Section Contracts.
Context `{A : !Allocator}.

Lemma ioq_tail_update_eq (x : XDRQ) : xdr_tail_update x = ioq_tail_update x.
Proof. done. Qed.

(** Reading [n] bytes of the current buffer. *)
Lemma reads_skip x k pre uv post l1 l2 bs :
  ioq_reads x k pre uv post (bs ++ l1) l2 →
  load (x_mem x) (x_data x) (length bs) = Some bs ∧
  x_data x + Zlen bs ≤ vio_tail (x_v x) ∧
  ioq_reads (set_data (x_data x + Zlen bs) x) (k + Zlen bs) pre uv post l1 l2.
Proof.
  intros []. apply load_app_inv in rd_here0 as [Hb Hl1]; [|len].
  rewrite rd_v0. rewrite <- app_assoc in rd_bytes0, rd_size0. apply bytes_app in rd_bytes0 as [_ ?].
  split; [done|]. split; [len|].
  constructor; cbn; try done; [len| |len].
  destruct rd_unit0 as [?|Hu]; [by left|right]. rewrite Zlen_app in Hu.
  by replace (Zlen l1 + (k + Zlen bs)) with (Zlen bs + Zlen l1 + k) by lia.
Qed.

(** Moving on from an exhausted buffer. *)
Lemma reads_next x k pre uv uv' post l2 :
  ioq_reads x k pre uv (uv' :: post) [] l2 →
  ∃ x0 x' l1' l2', xdr_ioq_uv_advance x = Ret (Some (S (length pre)), x0) ∧
    xdr_ioq_uv_update x0 (S (length pre)) = Ret x' ∧ l2 = l1' ++ l2' ∧
    ioq_reads x' k (pre ++ [uv]) uv' post l1' l2' ∧ x_mem x' = x_mem x ∧
    uvq (x_private x') = uvq (x_private x).
Proof.
  intros []. cbn in rd_left0. unfold xdr_ioq_uv_advance, ioq_tail_update.
  rewrite rd_v0, (proj2 (Z.ltb_ge _ _)), rd_base0, rd_uvq0, list_lookup_middle by (done || lia).
  cbn [access obind]. rewrite (proj2 (Nat.ltb_lt _ _)) by (cbn; rewrite ?rd_uvq0; len).
  apply segs_cons in rd_rest0 as (l1' & l2' & H1 & H2 & ->).
  destruct rd_units0 as (Hle & Hu & Hus).
  assert (Hl : Zlen l1' = vio_tail (uv_v uv') - vio_head (uv_v uv')).
  { unfold seg in H1. apply load_length in H1. lia. }
  unfold xdr_ioq_uv_update, xdr_ioq_uv_reset. cbn [on_ioq set_private x_private uvq set_plength].
  assert (E : (pre ++ uv :: uv' :: post) !! S (length pre) = Some uv').
  { rewrite (cons_middle uv), app_assoc. apply list_lookup_middle. len. }
  do 4 eexists. split; [done|]. cbn. rewrite rd_uvq0, E. cbn. split; [done|]. split; [done|].
  split; [|split; [done|exact rd_uvq0]].
  constructor; cbn; try done.
  - by rewrite <- app_assoc.
  - len.
  - rewrite rd_pcount0. rewrite wrapu_id by (unfold is_u; rewrite rd_uvq0 in *; len). len.
  - unfold seg in H1. replace (length l1') with (Z.to_nat (vio_tail (uv_v uv') - vio_head (uv_v uv'))) by lia.
    done.
  - destruct rd_unit0 as [?|Hk]; [done|]. cbn in Hk. destruct Hu as [->|Hm]; [by left|right].
    lia.
Qed.

(** At the end of the last buffer. *)
Lemma reads_end x k pre uv l1 l2 :
  ioq_reads x k pre uv [] l1 l2 →
  l2 = [] ∧ ∃ x', xdr_ioq_uv_advance x = Ret (None, x').
Proof.
  intros []. cbn in rd_rest0. simplify_eq. split; [done|].
  unfold xdr_ioq_uv_advance, ioq_tail_update.
  rewrite rd_v0, (proj2 (Z.ltb_ge _ _)), rd_base0, rd_uvq0, list_lookup_middle by (done || lia).
  cbn [access obind]. rewrite (proj2 (Nat.ltb_ge _ _)) by (cbn; rewrite ?rd_uvq0; len). eauto.
Qed.

(** There is a unit to read exactly when four bytes are left. *)
Lemma getunit_loop_spec post : ∀ fuel x pre uv l1 l2,
  ioq_reads x 0 pre uv post l1 l2 → (length post < fuel)%nat →
  ∃ b x', getunit_loop fuel x = Ret (b, x') ∧
    (4 ≤ Zlen (l1 ++ l2) → b = true ∧ x_data x' + 4 ≤ vio_tail (x_v x') ∧ ioq_in x' 0 (l1 ++ l2)) ∧
    (Zlen (l1 ++ l2) < 4 → b = false).
Proof.
  induction post as [|uv' post IH]; intros [|fuel] x pre uv l1 l2 Hx Hf; try (exfalso; len);
    pose proof (rd_left _ _ _ _ _ _ _ Hx) as Hl; cbn [getunit_loop];
    rewrite (rd_v _ _ _ _ _ _ _ Hx).
  all: destruct (Z.leb_spec (x_data x + 4) (vio_tail (uv_v uv))).
  1,3: exists true, x; rewrite (rd_v _ _ _ _ _ _ _ Hx); split; [done|]; split;
    [intros _; split; [done|]; split; [lia|eexists pre, uv, _, l1, l2; split; [done|exact Hx]]|len].
  - destruct (reads_end _ _ _ _ _ _ Hx) as (-> & x' & ->). rewrite app_nil_r.
    destruct (negb _); cbn; (eexists false, _; split; [done|]; split; [lia|done]).
  - assert (l1 = []) as ->.
    { destruct (rd_unit _ _ _ _ _ _ _ Hx) as [?|Hu]; [done|].
      destruct l1; [done|]. rewrite Z.add_0_r in Hu. len. }
    cbn in Hl. rewrite (proj2 (Z.eqb_eq _ _)) by lia. cbn [negb].
    destruct (reads_next _ _ _ _ _ _ _ Hx) as (x0 & x' & l1' & l2' & -> & E & -> & Hx' & _).
    cbn [obind]. rewrite E. cbn [obind]. apply (IH fuel x' _ _ _ _ Hx'). len.
Qed.

Lemma reads_fuel x k pre uv post l1 l2 :
  ioq_reads x k pre uv post l1 l2 → (length post < length (uvq (x_private x)))%nat.
Proof. intros []. rewrite rd_uvq0. len. Qed.

(** Bytes that are all in the current buffer. *)
Lemma ioq_get_here x k bs tl :
  ioq_in x k (bs ++ tl) → x_data x + Zlen bs ≤ vio_tail (x_v x) →
  load (x_mem x) (x_data x) (length bs) = Some bs ∧
  ioq_in (set_data (x_data x + Zlen bs) x) (k + Zlen bs) tl.
Proof.
  intros (pre & uv & post & l1 & l2 & E & Hx) Hle.
  assert (Hl := rd_left _ _ _ _ _ _ _ Hx). rewrite (rd_v _ _ _ _ _ _ _ Hx) in Hle.
  assert (l1 = bs ++ drop (length bs) l1 ∧ tl = drop (length bs) l1 ++ l2) as [E1 ->].
  { assert (E1 := f_equal (take (length bs)) E). assert (E2 := f_equal (drop (length bs)) E).
    rewrite take_app_length, take_app_le in E1 by lia.
    rewrite drop_app_length, drop_app_le in E2 by lia. by rewrite E1 at 1; rewrite take_drop. }
  rewrite E1 in Hx. apply reads_skip in Hx as (H1 & _ & H2).
  split; [done|]. by exists pre, uv, post, (drop (length bs) l1), l2.
Qed.

Lemma ioq_in_mod x k k' l : ioq_in x k l → k mod 4 = k' mod 4 → ioq_in x k' l.
Proof.
  intros (pre & uv & post & l1 & l2 & -> & []) Hk. exists pre, uv, post, l1, l2. split; [done|].
  constructor; try done. destruct rd_unit0 as [?|?]; [by left|right]. lia.
Qed.

Lemma ioq_get_word x v tl :
  ioq_in x 0 (be32 v ++ tl) → x_data x + 4 ≤ vio_tail (x_v x) →
  load (x_mem x) (x_data x) 4 = Some (be32 v) ∧ ioq_in (set_data (x_data x + 4) x) 0 tl.
Proof.
  intros Hx Hle. apply ioq_get_here in Hx as [H1 H2]; rewrite be32_length in *; [|done].
  split; [done|]. by eapply ioq_in_mod.
Qed.

Lemma ioq_getunit x v tl :
  ioq_in x 0 (be32 v ++ tl) →
  ∃ x', xdr_ioq_getunit x = Ret (Some (u32 v), x') ∧ ioq_in x' 0 tl.
Proof.
  intros (pre & uv & post & l1 & l2 & E & Hx).
  destruct (getunit_loop_spec post _ x pre uv l1 l2 Hx (reads_fuel _ _ _ _ _ _ _ Hx))
    as (b & x' & El & Hok & _). rewrite <- E in Hok.
  destruct Hok as (-> & Hle & Hx'); [rewrite Zlen_app, be32_length; lia|].
  apply ioq_get_word in Hx' as [Hld Hx']; [|done].
  unfold xdr_ioq_getunit. rewrite El. cbn [obind negb]. rewrite Hld. cbn [obind access].
  rewrite be_dec_be32. eauto.
Qed.

Lemma ioq_getunit_short x l :
  ioq_in x 0 l → Zlen l < 4 → ∃ x', xdr_ioq_getunit x = Ret (None, x').
Proof.
  intros (pre & uv & post & l1 & l2 & -> & Hx) Hl.
  destruct (getunit_loop_spec post _ x pre uv l1 l2 Hx (reads_fuel _ _ _ _ _ _ _ Hx))
    as (b & x' & El & _ & Hs). rewrite (Hs Hl) in El.
  unfold xdr_ioq_getunit. rewrite El. cbn. eauto.
Qed.

Lemma getbytes_loop_done fuel x acc : getbytes_loop fuel x acc 0 = Ret (true, acc, x).
Proof. by destruct fuel. Qed.

Lemma reads_more x k pre uv post l1 l2 n :
  ioq_reads x k pre uv post l1 l2 → 0 < n →
  (0 <? n) && (pcount (x_private x) <? u32 (qcount (x_private x))) = true.
Proof.
  intros [] Hn. rewrite rd_pcount0, rd_qcount0, rd_uvq0 in *.
  rewrite wrapu_id by (unfold is_u; lia). apply andb_true_iff. split; apply Z.ltb_lt; len.
Qed.

(** What a copy of [n] bytes does to a stream before [l], having copied [acc]. *)
Definition copied (o : out (bool * list Z * XDRQ)) (k : Z) (acc l : list Z) (n : Z) : Prop :=
  ∃ b bs x', o = Ret (b, acc ++ bs, x') ∧ Zlen bs ≤ n ∧
    (n ≤ Zlen l → b = true ∧ bs = take (Z.to_nat n) l ∧ ioq_in x' (k + n) (drop (Z.to_nat n) l)) ∧
    (Zlen l < n → b = false).

Lemma copied_more o k acc l1 l2 n :
  copied o (k + Zlen l1) (acc ++ l1) l2 (n - Zlen l1) → Zlen l1 ≤ n → copied o k acc (l1 ++ l2) n.
Proof.
  intros (b & bs & x' & -> & Hb & Hok & Hs) Hn. exists b, (l1 ++ bs), x'. rewrite app_assoc.
  split; [done|]. split; [len|]. split; [intros Hl|intros; apply Hs; len].
  destruct Hok as (-> & -> & Hx); [len|]. split; [done|].
  rewrite take_app_ge, drop_app_ge by lia.
  replace (Z.to_nat (n - Zlen l1)) with (Z.to_nat n - length l1)%nat in * by lia.
  split; [done|]. by replace (k + n) with (k + Zlen l1 + (n - Zlen l1)) by lia.
Qed.

Lemma copied_none x k pre uv post l1 l2 fuel acc :
  ioq_reads x k pre uv post l1 l2 → copied (getbytes_loop fuel x acc 0) k acc (l1 ++ l2) 0.
Proof.
  intros Hx. rewrite getbytes_loop_done. exists true, [], x.
  rewrite app_nil_r, Z.add_0_r, drop_0. split; [done|]. split; [done|]. split; [|lia].
  intros _. split; [done|]. split; [done|]. by exists pre, uv, post, l1, l2.
Qed.

(** The current buffer has bytes: they are copied, up to [n] of them. *)
Lemma getbytes_here x k pre uv post l1 l2 fuel acc n :
  ioq_reads x k pre uv post l1 l2 → l1 ≠ [] → 0 < n →
  (∀ x' acc n, ioq_reads x' (k + Zlen l1) pre uv post [] l2 → 0 ≤ n →
     copied (getbytes_loop fuel x' acc n) (k + Zlen l1) acc l2 n) →
  copied (getbytes_loop (S fuel) x acc n) k acc (l1 ++ l2) n.
Proof.
  intros Hx Hne Hn Hk. cbn [getbytes_loop]. rewrite (reads_more _ _ _ _ _ _ _ _ Hx Hn).
  rewrite (rd_v _ _ _ _ _ _ _ Hx), <- (rd_left _ _ _ _ _ _ _ Hx).
  rewrite (proj2 (Z.ltb_ge (Zlen l1) 0)) by lia.
  rewrite (proj2 (Z.eqb_neq (Zlen l1) 0)), andb_false_r by (destruct l1; done).
  destruct (Z.ltb_spec n (Zlen l1)).
  - rewrite <- (take_drop (Z.to_nat n) l1) in Hx. apply reads_skip in Hx as (Hl & _ & Hx').
    assert (Et : Zlen (take (Z.to_nat n) l1) = n) by (rewrite length_take; lia).
    replace (length (take (Z.to_nat n) l1)) with (Z.to_nat n) in * by lia.
    rewrite Hl. cbn [access obind]. rewrite Z.sub_diag, getbytes_loop_done.
    replace (x_data x + n) with (x_data x + Z.of_nat (Z.to_nat n)) by lia.
    eexists true, _, _. split; [done|]. split; [rewrite length_take; lia|]. split; [|len].
    intros _. split; [done|]. rewrite take_app_le, drop_app_le by lia. split; [done|].
    exists pre, uv, post, (drop (Z.to_nat n) l1), l2. split; [done|].
    by replace (k + n) with (k + Z.of_nat (Z.to_nat n)) by lia.
  - rewrite Nat2Z.id. rewrite <- (app_nil_r l1) in Hx at 1. apply reads_skip in Hx as (-> & _ & Hx').
    cbn [access obind]. apply copied_more; [|done]. apply Hk; [done|lia].
Qed.

(** The current buffer is exhausted. *)
Lemma getbytes_empty x k pre uv post l2 fuel acc n :
  ioq_reads x k pre uv post [] l2 → 0 ≤ n →
  (∀ x' pre' uv' post' l1' l2', post = uv' :: post' → l2 = l1' ++ l2' →
     ioq_reads x' k pre' uv' post' l1' l2' → copied (getbytes_loop fuel x' acc n) k acc l2 n) →
  copied (getbytes_loop (S fuel) x acc n) k acc l2 n.
Proof.
  intros Hx Hn Hk. destruct (decide (n = 0)) as [->|]; [by eapply copied_none in Hx|].
  cbn [getbytes_loop]. rewrite (reads_more _ _ _ _ _ _ _ n Hx) by lia.
  rewrite (rd_v _ _ _ _ _ _ _ Hx), <- (rd_left _ _ _ _ _ _ _ Hx). cbn [length].
  change (Z.of_nat 0) with 0. rewrite (proj2 (Z.ltb_ge n 0)) by lia. cbn.
  destruct post as [|uv' post].
  - destruct (reads_end _ _ _ _ _ _ Hx) as (-> & x' & ->). cbn. exists false, [], x'.
    rewrite app_nil_r. split; [done|]. split; [done|]. split; [cbn; lia|done].
  - destruct (reads_next _ _ _ _ _ _ _ Hx) as (x0 & x' & l1' & l2' & -> & E & -> & Hx' & _).
    cbn. rewrite E. cbn. by eapply Hk.
Qed.

Lemma getbytes_loop_spec post : ∀ fuel x k pre uv l1 l2 acc n,
  ioq_reads x k pre uv post l1 l2 → 0 ≤ n → (2 * length post + 2 ≤ fuel)%nat →
  copied (getbytes_loop fuel x acc n) k acc (l1 ++ l2) n.
Proof.
  induction post as [|uv' post IH]; intros fuel x k pre uv l1 l2 acc n Hx Hn Hf;
    (destruct fuel as [|[|fuel]]; [cbn in Hf; lia..|]);
    (destruct (decide (n = 0)) as [->|]; [by eapply copied_none in Hx|]);
    (destruct l1 as [|b l1]; [eapply getbytes_empty|eapply getbytes_here]; try done; try lia).
  - intros x' acc' n' Hx' Hn'. by eapply getbytes_empty.
  - intros x' pre' uv2 post' l1' l2' [= <- <-] -> Hx'. apply (IH _ _ _ _ _ _ _ _ _ Hx'); [done|].
    cbn in Hf. lia.
  - intros x' acc' n' Hx' Hn'. eapply getbytes_empty; [done|done|].
    intros x2 pre' uv2 post' l1' l2' [= <- <-] -> Hx2. apply (IH _ _ _ _ _ _ _ _ _ Hx2); [done|].
    cbn in Hf. lia.
Qed.

Lemma ioq_getbytes x k l n : ioq_in x k l → 0 ≤ n → copied (xdr_ioq_getbytes x n) k [] l n.
Proof.
  intros (pre & uv & post & l1 & l2 & -> & Hx) Hn. eapply getbytes_loop_spec; [done|done|].
  apply reads_fuel in Hx. lia.
Qed.

(** A queue decodes. *)
#[export] Instance ioq_input : XdrInput xdr_ioq.
Proof.
  refine {| in_at := ioq_in |}.
  - by intros x k l (? & ? & ? & ? & ? & _ & []).
  - by intros x k l (? & ? & ? & ? & ? & -> & []).
  - by intros x k l (? & ? & ? & ? & ? & -> & []).
  - apply ioq_in_mod.
  - intros x v tl Hx. unfold xdr_getuint32, fast_get.
    destruct (Z.leb_spec (x_data x + 4) (vio_tail (x_v x))); [|by apply ioq_getunit].
    apply ioq_get_word in Hx as [-> Hx]; [|done]. cbn [access obind]. rewrite be_dec_be32. eauto.
  - intros x l Hx Hl. unfold xdr_getuint32, fast_get.
    rewrite (proj2 (Z.leb_gt _ _)); [by eapply ioq_getunit_short|].
    destruct Hx as (? & ? & ? & ? & ? & -> & []). rewrite rd_v0. len.
  - intros x v tl Hx. unfold xdr_getlong, fast_get.
    destruct (Z.leb_spec (x_data x + 4) (vio_tail (x_v x))).
    + apply ioq_get_word in Hx as [-> Hx]; [|done]. cbn [access obind]. rewrite be_dec_be32.
      eauto 10.
    + destruct (ioq_getunit _ _ _ Hx) as (x' & E & Hx'). cbn [x_getunit ioq_ops ioq_ops_with].
      rewrite E. cbn. do 2 eexists. split; [done|]. split; [|done]. right.
      by rewrite wraps_wrapu by lia.
  - intros x l Hx Hl. unfold xdr_getlong, fast_get. rewrite (proj2 (Z.leb_gt _ _)).
    + destruct (ioq_getunit_short _ _ Hx Hl) as (x' & E). cbn [x_getunit ioq_ops ioq_ops_with].
      rewrite E. cbn. eauto.
    + destruct Hx as (? & ? & ? & ? & ? & -> & []). rewrite rd_v0. len.
  - intros x k bs tl Hx. destruct (ioq_getbytes x k (bs ++ tl) (Zlen bs) Hx) as (b & bs' & x' & E & _ & Hok & _);
      [lia|]. rewrite Nat2Z.id, take_app_length, drop_app_length in Hok.
    destruct Hok as (-> & -> & Hx'); [len|]. exists x'. by split; [exact E|].
  - intros x k l n Hx Hl. destruct (ioq_getbytes x k l n Hx) as (b & bs' & x' & E & Hb & _ & Hs); [lia|].
    rewrite (Hs Hl) in E. exists bs', x'. by split; [exact E|].
  - intros x bs tl Hx Hm. unfold xdr_inline_decode. destruct (Z.leb_spec (x_data x + Zlen bs) (vio_tail (x_v x))); [|done].
    apply ioq_get_here in Hx as [H1 H2]; [|done]. split; [done|]. eapply ioq_in_mod; [done|]. lia.
  - intros x l n Hx Hl. unfold xdr_inline_decode. rewrite (proj2 (Z.leb_gt _ _)); [done|].
    destruct Hx as (? & ? & ? & ? & ? & -> & []). rewrite rd_v0. len.
Defined.

(** ** Encoding *)

(** The stream stands at the end of its last buffer [uv], behind [pre]; [w1] was written
    to [pre] and [w2] to [uv]. *)
Record ioq_writes (x : XDRQ) (pre : list xdr_ioq_uv) (uv : xdr_ioq_uv) (w1 w2 : list Z) : Prop := {
  wr_op : x_op x = XDR_ENCODE;
  wr_uvq : uvq (x_private x) = pre ++ [uv];
  wr_base : x_base (x_private x) = length pre;
  wr_v : x_v x = uv_v uv;
  wr_kind : has_flag (uv_flags uv) UIO_FLAG_REALLOC = false;
  wr_min : 4 ≤ min_bsize (x_private x);
  wr_plength : plength (x_private x) = u64 (Zlen w1);
  wr_pre : segs (x_mem x) pre = Some w1;
  wr_here : load (x_mem x) (vio_head (uv_v uv)) (length w2) = Some w2;
  wr_len : Zlen w2 = x_data x - vio_head (uv_v uv);
  wr_tail : vio_head (uv_v uv) ≤ vio_tail (uv_v uv) ≤ x_data x;
  wr_wrap : x_data x ≤ vio_wrap (uv_v uv);
  wr_room : allocd (x_mem x) (x_data x) (vio_wrap (uv_v uv) - x_data x);
  wr_apart : ∀ uv' i, uv' ∈ pre → vio_head (uv_v uv') ≤ i < vio_tail (uv_v uv') →
               ¬ (vio_head (uv_v uv) ≤ i < vio_wrap (uv_v uv));
  wr_nonempty : Forall nonempty pre;
  wr_size : vio_head (uv_v uv) + 4 ≤ vio_wrap (uv_v uv);
}.

(** Memory changed in a window at the fill pointer, which then moves past it. *)
Lemma writes_window x pre uv w1 w2 h n bs :
  ioq_writes x pre uv w1 w2 → 0 ≤ n → x_data x + n ≤ vio_wrap (uv_v uv) →
  same_outside (x_mem x) h (x_data x) n → load h (x_data x) (Z.to_nat n) = Some bs →
  ioq_writes (set_data (x_data x + n) (set_mem h x)) pre uv w1 (w2 ++ bs).
Proof.
  intros [] Hn Hle Hs Hb. pose proof (load_length _ _ _ _ Hb) as Hl.
  constructor; cbn; try done; try len.
  - rewrite <- wr_pre0. apply segs_ext. intros uv' i Hin Hi. apply Hs.
    specialize (wr_apart0 uv' i Hin Hi). lia.
  - rewrite length_app. apply load_concat.
    + by rewrite (load_same_outside _ _ _ _ _ _ Hs) by lia.
    + rewrite wr_len0, Hl. by replace (_ + (_ - _)) with (x_data x) by lia.
  - eapply allocd_dom; [apply Hs|]. eapply allocd_sub; [done|lia..].
Qed.

Lemma writes_store x pre uv w1 w2 bs :
  ioq_writes x pre uv w1 w2 → x_data x + Zlen bs ≤ vio_wrap (uv_v uv) →
  ∃ h, store (x_mem x) (x_data x) bs = Some h ∧
       ioq_writes (set_data (x_data x + Zlen bs) (set_mem h x)) pre uv w1 (w2 ++ bs).
Proof.
  intros Hx Hle. destruct (store_allocd (x_mem x) (x_data x) bs) as [h Hh].
  { eapply allocd_sub; [apply (wr_room _ _ _ _ _ Hx)|lia..]. }
  exists h. split; [done|]. eapply writes_window; [done|lia|done|by apply store_same_outside|].
  rewrite Nat2Z.id. by eapply load_store.
Qed.

Lemma writes_tail x pre uv w1 w2 :
  ioq_writes x pre uv w1 w2 →
  ∃ uv', ioq_writes (ioq_tail_update x) pre uv' w1 w2 ∧ vio_tail (uv_v uv') = x_data x ∧
    x_data (ioq_tail_update x) = x_data x ∧ x_mem (ioq_tail_update x) = x_mem x ∧
    vio_wrap (uv_v uv') = vio_wrap (uv_v uv) ∧
    min_bsize (x_private (ioq_tail_update x)) = min_bsize (x_private x).
Proof.
  intros Hx. pose proof Hx as []. unfold ioq_tail_update. rewrite wr_v0.
  destruct (Z.ltb_spec (vio_tail (uv_v uv)) (x_data x)); [|exists uv; split_and!; try done; lia].
  exists (set_uv_v (set_vio_tail (x_data x) (uv_v uv)) uv). split; [|done].
  constructor; cbn; try done; [|lia..]. rewrite wr_uvq0, wr_base0. by rewrite alter_middle.
Qed.

Lemma uv_create_eq h n f :
  0 < n → xdr_ioq_uv_create h n f =
    Ret (mk_uv f 1 false None
           (mk_vio (malloc h n).1 (malloc h n).1 (malloc h n).1 ((malloc h n).1 + n) 0 VIO_HEADER),
         (malloc h n).2).
Proof.
  intros Hn. unfold xdr_ioq_uv_create. rewrite (proj2 (Z.eqb_neq n 0)) by lia.
  destruct (malloc h n) as [a h'] eqn:E. cbn. by rewrite (proj2 (Z.ltb_lt _ _)) by lia.
Qed.

(** A new buffer at the end of the queue. *)
Lemma writes_append x pre uv w1 w2 :
  ioq_writes x pre uv w1 w2 → vio_wrap (uv_v uv) < x_data x + 4 →
  ∃ i x' pre' uv', ioq_next_or_append None x IOQ_FLAG_BALLOC = Ret (Some i, x') ∧
    ioq_writes x' pre' uv' (w1 ++ w2) [] ∧
    vio_wrap (uv_v uv') - x_data x' = min_bsize (x_private x) ∧
    min_bsize (x_private x') = min_bsize (x_private x).
Proof.
  intros Hx Hfull. destruct (writes_tail _ _ _ _ _ Hx) as (uv1 & Hx1 & Ht & Hd & Hm & Hwrap & Hmin).
  unfold ioq_next_or_append, xdr_ioq_uv_advance. cbv zeta.
  rewrite (wr_base _ _ _ _ _ Hx). set (x1 := ioq_tail_update x) in *. clearbody x1.
  destruct Hx1. rewrite wr_uvq0, list_lookup_middle by done.
  cbn [access obind]. rewrite (proj2 (Nat.ltb_ge _ _)) by (cbn; rewrite ?wr_uvq0; len).
  unfold xdr_ioq_uv_append.
  cbn -[has_flag malloc ioquv_length xdr_ioq_uv_create xdr_ioq_uv_update].
  rewrite wr_base0, wr_uvq0, list_lookup_middle by done. cbn [access obind].
  rewrite wr_kind0. change (has_flag IOQ_FLAG_BALLOC IOQ_FLAG_BALLOC) with true. cbn [andb].
  rewrite uv_create_eq by lia. cbn [obind].
  set (a := (malloc _ _).1). set (h := (malloc _ _).2).
  unfold xdr_ioq_uv_update, xdr_ioq_uv_reset. cbn -[ioquv_length].
  rewrite wr_uvq0, list_lookup_middle by done. cbn -[ioquv_length].
  assert (Hsegs : segs (x_mem x1) (pre ++ [uv1]) = Some (w1 ++ w2)).
  { apply segs_app. exists w1, w2. split; [done|]. split; [|done]. apply segs_cons. exists w2, [].
    rewrite app_nil_r. split; [|done]. unfold seg. rewrite Ht, <- Hd, <- wr_len0. by rewrite Nat2Z.id. }
  assert (Hfresh : ∀ uv' i, uv' ∈ pre ++ [uv1] → vio_head (uv_v uv') ≤ i < vio_tail (uv_v uv') →
            ¬ (a ≤ i < a + min_bsize (x_private x1))).
  { intros uv' i Hin Hi Ha. destruct (segs_allocd _ _ _ _ _ Hsegs Hin Hi) as [b Hb].
    by rewrite (malloc_fresh _ _ _ Ha) in Hb. }
  eexists _, _, (pre ++ [uv1]), (mk_uv UIO_FLAG_FREE 1 false None
    (mk_vio a a a (a + min_bsize (x_private x1)) 0 VIO_HEADER)). split; [done|]. split; [|split; [cbn; lia|exact Hmin]].
  constructor; cbn -[ioquv_length]; try done; try lia.
  - by rewrite wr_uvq0.
  - rewrite wr_plength0. unfold ioquv_length. rewrite Ht, <- Hd, <- wr_len0.
    unfold wrapu. rewrite Zplus_mod_idemp_l, Zplus_mod_idemp_r. by rewrite Zlen_app.
  - rewrite <- Hsegs. apply segs_ext. intros uv' i Hin Hi. apply malloc_frame. by eapply Hfresh.
  - replace (a + _ - a) with (min_bsize (x_private x1)) by lia. apply malloc_allocd.
  - apply Forall_app. split; [done|]. constructor; [|done]. red. lia.
Qed.

Definition ioq_out (x : XDRQ) (w : list Z) (c : option Z) : Prop :=
  c = None ∧ ∃ pre uv w1 w2, w = w1 ++ w2 ∧ ioq_writes x pre uv w1 w2.

Lemma putunit_loop_spec x pre uv w1 w2 fuel :
  ioq_writes x pre uv w1 w2 →
  ∃ x' pre' uv' w1' w2', putunit_loop None (S fuel) x = Ret x' ∧ ioq_writes x' pre' uv' w1' w2' ∧
    w1' ++ w2' = w1 ++ w2 ∧ x_data x' + 4 ≤ vio_wrap (uv_v uv').
Proof.
  intros Hx. cbn [putunit_loop]. rewrite (wr_v _ _ _ _ _ Hx).
  destruct (Z.leb_spec (x_data x + 4) (vio_wrap (uv_v uv))); [by eauto 10|].
  destruct (writes_append _ _ _ _ _ Hx) as (i & x' & pre' & uv' & -> & Hx' & Hr & _); [lia|].
  assert (Hmin := wr_min _ _ _ _ _ Hx). cbn [obind].
  assert (E : (x_data x' + 4 <=? vio_wrap (x_v x')) = true).
  { apply Z.leb_le. rewrite (wr_v _ _ _ _ _ Hx'). lia. }
  destruct fuel; cbn [putunit_loop]; rewrite E; exists x', pre', uv', (w1 ++ w2), [];
    rewrite app_nil_r; split_and!; try done; lia.
Qed.

Lemma ioq_putunit x w c v :
  ioq_out x w c →
  ∃ x', xdr_ioq_putunit None x v = Ret (true, x') ∧ ioq_out x' (w ++ be32 v) c.
Proof.
  intros (-> & pre & uv & w1 & w2 & -> & Hx). unfold xdr_ioq_putunit.
  destruct (putunit_loop_spec x pre uv w1 w2 (length (uvq (x_private x))) Hx)
    as (x' & pre' & uv' & w1' & w2' & -> & Hx' & <- & Hr). cbn [obind].
  destruct (writes_store _ _ _ _ _ (be32 v) Hx') as (h & -> & Hx''); rewrite be32_length in *; [done|].
  eexists. split; [done|]. split; [done|]. exists pre', uv', w1', (w2' ++ be32 v).
  by rewrite app_assoc.
Qed.

(** One copy into the current buffer. *)
Lemma putbytes_here x pre uv w1 w2 fuel bs :
  ioq_writes x pre uv w1 w2 → bs ≠ [] → x_data x < vio_wrap (uv_v uv) →
  ∃ n x', (0 < n ≤ length bs)%nat ∧
    putbytes_loop None (S fuel) x bs = putbytes_loop None fuel x' (drop n bs) ∧
    ioq_writes x' pre uv w1 (w2 ++ take n bs).
Proof.
  intros Hx Hne Hr. destruct bs as [|b bs]; [done|]. cbn [putbytes_loop].
  set (l := b :: bs) in *. assert (0 < length l)%nat by (subst l; cbn; lia). clearbody l.
  rewrite (wr_v _ _ _ _ _ Hx). rewrite (proj2 (Z.ltb_ge _ 0)) by lia.
  rewrite (proj2 (Z.eqb_neq _ 0)), andb_false_r by lia.
  set (n := Z.to_nat _).
  assert (Hb : (0 < n ≤ length l)%nat ∧ x_data x + Z.of_nat n ≤ vio_wrap (uv_v uv)).
  { subst n. destruct (Z.ltb_spec (Zlen l) (vio_wrap (uv_v uv) - x_data x)); lia. }
  destruct (writes_store x pre uv w1 w2 (take n l) Hx) as (h & -> & Hx'); [rewrite length_take; lia|].
  rewrite length_take, Nat.min_l in Hx' by lia. cbn [access obind].
  eexists n, _. split; [apply Hb|]. by split.
Qed.

(** The current buffer is full. *)
Lemma putbytes_full x pre uv w1 w2 fuel bs :
  ioq_writes x pre uv w1 w2 → bs ≠ [] → x_data x = vio_wrap (uv_v uv) →
  ∃ x' pre' uv', putbytes_loop None (S fuel) x bs = putbytes_loop None fuel x' bs ∧
    ioq_writes x' pre' uv' (w1 ++ w2) [] ∧ x_data x' < vio_wrap (uv_v uv').
Proof.
  intros Hx Hne Hr. destruct (writes_append _ _ _ _ _ Hx) as (i & x' & pre' & uv' & E & Hx' & Hroom & _); [lia|].
  assert (Hmin := wr_min _ _ _ _ _ Hx). exists x', pre', uv'. split; [|split; [done|lia]].
  destruct bs as [|b bs]; [done|]. cbn [putbytes_loop]. rewrite (wr_v _ _ _ _ _ Hx), Hr, Z.sub_diag.
  rewrite (proj2 (Z.ltb_ge (Zlen _) 0)) by lia. cbn [negb andb Z.eqb Z.ltb Z.compare].
  by rewrite E.
Qed.

Lemma putbytes_loop_spec n : ∀ fuel x pre uv w1 w2 bs,
  (length bs ≤ n)%nat → ioq_writes x pre uv w1 w2 →
  (2 * length bs + (if bool_decide (x_data x = vio_wrap (uv_v uv)) then 1 else 0) ≤ fuel)%nat →
  ∃ x', putbytes_loop None fuel x bs = Ret x' ∧ ioq_out x' (w1 ++ w2 ++ bs) None.
Proof.
  induction n as [|n IH]; intros fuel x pre uv w1 w2 bs Hn Hx Hf.
  all: destruct (decide (bs = [])) as [->|Hne]; [exists x; split; [by destruct fuel|]; split; [done|];
         exists pre, uv, w1, w2; by rewrite app_nil_r|].
  { destruct bs; [done|]. cbn in Hn. lia. }
  assert (Hb : (0 < length bs)%nat) by (destruct bs; cbn; [done|lia]).
  assert (Hroom : ∀ fuel x pre uv w1 w2, ioq_writes x pre uv w1 w2 → x_data x < vio_wrap (uv_v uv) →
    (2 * length bs ≤ fuel)%nat →
    ∃ x', putbytes_loop None fuel x bs = Ret x' ∧ ioq_out x' (w1 ++ w2 ++ bs) None).
  { clear fuel x pre uv w1 w2 Hx Hf. intros [|fuel] x pre uv w1 w2 Hx Hr Hf; [lia|].
    destruct (putbytes_here _ _ _ _ _ fuel bs Hx Hne Hr) as (m & x' & Hm & -> & Hx').
    destruct (IH fuel x' pre uv w1 (w2 ++ take m bs) (drop m bs)) as (x'' & E & Ho); [len|done| |].
    - rewrite length_drop. case_bool_decide; lia.
    - exists x''. split; [done|]. by rewrite <- app_assoc, take_drop in Ho. }
  case_bool_decide as Hd.
  - destruct fuel as [|fuel]; [lia|].
    destruct (putbytes_full _ _ _ _ _ fuel bs Hx Hne Hd) as (x' & pre' & uv' & -> & Hx' & Hr).
    destruct (Hroom fuel x' pre' uv' (w1 ++ w2) [] Hx' Hr) as (x'' & E & Ho); [lia|].
    exists x''. by rewrite <- app_assoc in Ho.
  - apply (Hroom fuel x pre uv); [done|pose proof (wr_wrap _ _ _ _ _ Hx); lia|lia].
Qed.

Lemma ioq_putbytes x w c bs :
  ioq_out x w c → ∃ x', xdr_ioq_putbytes None x bs = Ret (true, x') ∧ ioq_out x' (w ++ bs) c.
Proof.
  intros (-> & pre & uv & w1 & w2 & -> & Hx). unfold xdr_ioq_putbytes.
  destruct (putbytes_loop_spec (length bs) (length (uvq (x_private x)) + 2 * length bs) x pre uv w1 w2 bs)
    as (x' & -> & Ho); [done|done| |].
  - rewrite (wr_uvq _ _ _ _ _ Hx), length_app. cbn. case_bool_decide; lia.
  - exists x'. by rewrite <- app_assoc.
Qed.

Lemma ioq_out_tail x w c : ioq_out x w c → ioq_out (ioq_tail_update x) w c.
Proof.
  intros (-> & pre & uv & w1 & w2 & -> & Hx).
  destruct (writes_tail _ _ _ _ _ Hx) as (uv' & Hx' & _). split; [done|]. by exists pre, uv', w1, w2.
Qed.

Lemma ioq_fast_put (x : XDRQ) w c v v' :
  ioq_out x w c → be32 v' = be32 v →
  ∃ x', fast_put x v (x_putunit x v') = Ret (true, x') ∧ ioq_out x' (w ++ be32 v) (cap_sub c 4).
Proof.
  intros Hx Hv. unfold fast_put. pose proof Hx as (-> & pre & uv & w1 & w2 & -> & Hw).
  destruct (Z.leb_spec (x_data x + 4) (vio_wrap (x_v x))) as [Hle|].
  - rewrite (wr_v _ _ _ _ _ Hw) in Hle.
    destruct (writes_store _ _ _ _ _ (be32 v) Hw) as (h & -> & Hx'); rewrite be32_length in *; [done|].
    eexists. split; [done|]. split; [done|]. exists pre, uv, w1, (w2 ++ be32 v). by rewrite app_assoc.
  - destruct (ioq_putunit x _ None v' Hx) as (x' & E & Ho). rewrite Hv in Ho. exists x'. by split.
Qed.

Lemma ioq_out_inline (x : XDRQ) w c n :
  ioq_out x w c → 0 ≤ n →
  match xdr_inline_encode x n with
  | (Some a, x') =>
      fits n c ∧ allocd (x_mem x') a n ∧
      ∀ h bs, same_outside (x_mem x') h a n → load h a (Z.to_nat n) = Some bs →
              ioq_out (set_mem h x') (w ++ bs) (cap_sub c n)
  | (None, x') => x' = x
  end.
Proof.
  intros (-> & pre & uv & w1 & w2 & -> & Hx) Hn. unfold xdr_inline_encode.
  rewrite (wr_v _ _ _ _ _ Hx). destruct (Z.leb_spec (x_data x + n) (vio_wrap (uv_v uv))); [|done].
  rewrite ioq_tail_update_eq. split; [done|].
  assert (Em : x_mem (ioq_tail_update (set_data (x_data x + n) x)) = x_mem x).
  { unfold ioq_tail_update. by case_match. }
  rewrite Em. split; [eapply allocd_sub; [apply (wr_room _ _ _ _ _ Hx)|lia..]|].
  intros h bs Hs Hb. split; [done|].
  assert (Hx' := writes_window _ _ _ _ _ _ _ _ Hx Hn H Hs Hb).
  destruct (writes_tail _ _ _ _ _ Hx') as (uv' & Hx'' & _).
  exists pre, uv', w1, (w2 ++ bs). rewrite app_assoc. split; [done|].
  replace (set_mem h _) with (ioq_tail_update (set_data (x_data x + n) (set_mem h x))); [done|].
  unfold ioq_tail_update. cbn. by case_match.
Qed.

(** A queue encodes, and never runs out of room. *)
#[export] Instance ioq_output : XdrOutput xdr_ioq.
Proof.
  refine {| out_at := ioq_out |}.
  - by intros x w c (_ & ? & ? & ? & ? & _ & []).
  - by intros x w c (-> & _).
  - intros x w c v Hx _. by apply ioq_fast_put.
  - by intros x w c v (-> & _) [].
  - intros x w c v Hx _. unfold xdr_putlong. rewrite <- (be32_s32 v). apply ioq_fast_put; [done|].
    by rewrite be32_s32, be32_u32.
  - by intros x w c v (-> & _) [].
  - intros x w c bs Hx _. pose proof Hx as [-> _]. by apply ioq_putbytes.
  - by intros x w c bs (-> & _) [].
  - apply ioq_out_inline.
  - apply ioq_out_tail.
Defined.
End Contracts.
