(* ===== verification/XdrInline.v ===== *)
(** * The generic XDR filters (ntirpc/rpc/xdr_inline.h, src/xdr.c,
      src/xdr_reference.c, src/xdr_float.c)

    One definition per filter.  A filter takes the handle and the object and
    returns whether it succeeded, the object as the call leaves it and the
    handle.  Out-of-line and in-line versions of the same filter (xdr_int and
    inline_xdr_int, ...) have the same body and share one definition. *)
From stdpp Require Import base gmap list.
From Stdlib Require Import ZArith Lia.
From S2P Require Import Prelude Machine XdrHandle.

Definition UINT32_MAX : Z := 2 ^ 32 - 1.
Definition MAX_NETOBJ_SZ : Z := 1024.
Definition RPC_MAXDATASIZE : Z := 9000.

(** The [(cpp, sizep)] pair of a counted-bytes field. *)
Abbreviation cbytes := (ptr (list Z) * Z)%type.

(** The [(cpp, sizep)] pair of a counted array field. *)
Abbreviation carray T := (ptr (list T) * Z)%type.

Section Filters.
Context {P : Type} `{XdrOps P}.
Implicit Types xdrs : XDR P.

(** [return XDR_PUT...(xdrs, *p)] *)
Definition keep {T} (v : T) (r : out (bool * XDR P)) : out (bool * T * XDR P) :=
  let! (b, x) := r in Ret (b, v, x).

(** [return XDR_GET...(xdrs, p)]: the object is written only on success. *)
Definition fetch {T} (v0 : T) (conv : Z → T) (r : out (option Z * XDR P))
    : out (bool * T * XDR P) :=
  let! (o, x) := r in
  match o with Some v => Ret (true, conv v, x) | None => Ret (false, v0, x) end.

(** ** Sequences of fields of a structure *)

(** [if (!f(xdrs, p)) return false; return g(xdrs, p);] *)
Definition xdr_and {T} (f g : xdrproc P T) : xdrproc P T := λ xdrs v,
  let! (b, v, xdrs) := f xdrs v in
  if b then g xdrs v else Ret (false, v, xdrs).

(** [f(xdrs, &p->field)] *)
Definition xdr_field {R T} (get : R → T) (set : T → R → R) (f : xdrproc P T)
    : xdrproc P R := λ xdrs r,
  let! (b, a, xdrs) := f xdrs (get r) in Ret (b, set a r, xdrs).

(** ** Integers, booleans and enumerations *)

Definition xdr_void {T} : xdrproc P T := λ xdrs unused, Ret (true, unused, xdrs).

Definition inline_xdr_int : xdrproc P Z := λ xdrs ip,
  match x_op xdrs with
  | XDR_ENCODE => keep ip (xdr_putlong xdrs ip)
  | XDR_DECODE => fetch ip s32 (xdr_getlong xdrs)
  | XDR_FREE => Ret (true, ip, xdrs)
  end.

Definition inline_xdr_u_int : xdrproc P Z := λ xdrs up,
  match x_op xdrs with
  | XDR_ENCODE => keep up (xdr_putlong xdrs up)
  | XDR_DECODE => fetch up u32 (xdr_getlong xdrs)
  | XDR_FREE => Ret (true, up, xdrs)
  end.

Definition inline_xdr_long : xdrproc P Z := λ xdrs lp,
  match x_op xdrs with
  | XDR_ENCODE => keep lp (xdr_putlong xdrs lp)
  | XDR_DECODE => fetch lp id (xdr_getlong xdrs)
  | XDR_FREE => Ret (true, lp, xdrs)
  end.

Definition inline_xdr_u_long : xdrproc P Z := λ xdrs ulp,
  match x_op xdrs with
  | XDR_ENCODE => keep ulp (xdr_putlong xdrs (s64 ulp))
  | XDR_DECODE => fetch ulp u64 (xdr_getlong xdrs)
  | XDR_FREE => Ret (true, ulp, xdrs)
  end.

(** The out-of-line copies of src/xdr.c. *)
Definition xdr_int : xdrproc P Z := inline_xdr_int.
Definition xdr_u_int : xdrproc P Z := inline_xdr_u_int.
Definition xdr_long : xdrproc P Z := inline_xdr_long.
Definition xdr_u_long : xdrproc P Z := inline_xdr_u_long.

Definition xdr_uint64_t : xdrproc P Z := λ xdrs p,
  match x_op xdrs with
  | XDR_ENCODE =>
      let u0 := Z.land (u32 (Z.shiftr p 32)) (2 ^ 32 - 1) in
      let u1 := Z.land (u32 p) (2 ^ 32 - 1) in
      let! (b, xdrs) := xdr_putuint32 xdrs u0 in
      if negb b then Ret (false, p, xdrs) else keep p (xdr_putuint32 xdrs u1)
  | XDR_DECODE =>
      let! (o0, xdrs) := xdr_getuint32 xdrs in
      match o0 with
      | None => Ret (false, p, xdrs)
      | Some u0 => fetch p (λ u1, Z.lor (u64 (Z.shiftl u0 32)) u1) (xdr_getuint32 xdrs)
      end
  | XDR_FREE => Ret (true, p, xdrs)
  end.

Definition xdr_u_int64_t : xdrproc P Z := xdr_uint64_t.

(** The signed filter works on the same cell through an unsigned view. *)
Definition xdr_int64_t : xdrproc P Z := λ xdrs p,
  let! (b, u, xdrs) := xdr_uint64_t xdrs (u64 p) in Ret (b, s64 u, xdrs).

Definition xdr_int32_t : xdrproc P Z := λ xdrs p,
  match x_op xdrs with
  | XDR_ENCODE => keep p (xdr_putint32 xdrs p)
  | XDR_DECODE => fetch p id (xdr_getint32 xdrs)
  | XDR_FREE => Ret (true, p, xdrs)
  end.

Definition xdr_uint32_t : xdrproc P Z := λ xdrs p,
  match x_op xdrs with
  | XDR_ENCODE => keep p (xdr_putuint32 xdrs p)
  | XDR_DECODE => fetch p id (xdr_getuint32 xdrs)
  | XDR_FREE => Ret (true, p, xdrs)
  end.

Definition xdr_u_int32_t : xdrproc P Z := xdr_uint32_t.
Definition xdr_rpcprog : xdrproc P Z := xdr_uint32_t.
Definition xdr_rpcvers : xdrproc P Z := xdr_uint32_t.
Definition xdr_rpcproc : xdrproc P Z := xdr_uint32_t.
Definition xdr_rpcprot : xdrproc P Z := xdr_uint32_t.
Definition xdr_rpcport : xdrproc P Z := xdr_uint32_t.

Definition xdr_int16_t : xdrproc P Z := λ xdrs p,
  match x_op xdrs with
  | XDR_ENCODE => keep p (xdr_putint16 xdrs p)
  | XDR_DECODE => fetch p id (xdr_getint16 xdrs)
  | XDR_FREE => Ret (true, p, xdrs)
  end.

Definition xdr_uint16_t : xdrproc P Z := λ xdrs p,
  match x_op xdrs with
  | XDR_ENCODE => keep p (xdr_putuint16 xdrs p)
  | XDR_DECODE => fetch p id (xdr_getuint16 xdrs)
  | XDR_FREE => Ret (true, p, xdrs)
  end.

Definition xdr_u_int16_t : xdrproc P Z := xdr_uint16_t.

Definition xdr_int8_t : xdrproc P Z := λ xdrs p,
  match x_op xdrs with
  | XDR_ENCODE => keep p (xdr_putint8 xdrs p)
  | XDR_DECODE => fetch p id (xdr_getint8 xdrs)
  | XDR_FREE => Ret (true, p, xdrs)
  end.

Definition xdr_uint8_t : xdrproc P Z := λ xdrs p,
  match x_op xdrs with
  | XDR_ENCODE => keep p (xdr_putuint8 xdrs p)
  | XDR_DECODE => fetch p id (xdr_getuint8 xdrs)
  | XDR_FREE => Ret (true, p, xdrs)
  end.

Definition xdr_u_int8_t : xdrproc P Z := xdr_uint8_t.

Definition xdr_bool : xdrproc P Z := λ xdrs bp,
  match x_op xdrs with
  | XDR_ENCODE => keep bp (xdr_putbool xdrs bp)
  | XDR_DECODE => fetch bp id (xdr_getbool xdrs)
  | XDR_FREE => Ret (true, bp, xdrs)
  end.

Definition xdr_enum : xdrproc P Z := λ xdrs ep,
  match x_op xdrs with
  | XDR_ENCODE => keep ep (xdr_putenum xdrs ep)
  | XDR_DECODE => fetch ep id (xdr_getenum xdrs)
  | XDR_FREE => Ret (true, ep, xdrs)
  end.

(** ** Opaque data *)

(** [cp] is the object of the caller; the copy must fit inside it. *)
Definition xdr_opaque_decode xdrs (cp : list Z) (cnt : Z) : out (bool * list Z * XDR P) :=
  if cnt =? 0 then Ret (true, cp, xdrs) else
  let! (b, bs, xdrs) := x_getbytes xdrs cnt in
  let! cp := overlay cp bs in
  if negb b then Ret (false, cp, xdrs) else
  let rndup := Z.land cnt (BYTES_PER_XDR_UNIT - 1) in
  if 0 <? rndup then
    let! (b, crud, xdrs) := x_getbytes xdrs (BYTES_PER_XDR_UNIT - rndup) in
    Ret (b, cp, xdrs)
  else Ret (true, cp, xdrs).

(** The first [cnt] bytes of the caller's object, which must have them. *)
Definition read_bytes (cp : list Z) (cnt : Z) : out (list Z) :=
  if cnt <=? Zlen cp then Ret (take (Z.to_nat cnt) cp) else Ub.

Definition xdr_opaque_encode xdrs (cp : list Z) (cnt : Z) : out (bool * XDR P) :=
  if cnt =? 0 then Ret (true, xdrs) else
  let! bs := read_bytes cp cnt in
  let! (b, xdrs) := x_putbytes xdrs bs in
  if negb b then Ret (false, xdrs) else
  let rndup := Z.land cnt (BYTES_PER_XDR_UNIT - 1) in
  if 0 <? rndup
  then x_putbytes xdrs (replicate (Z.to_nat (BYTES_PER_XDR_UNIT - rndup)) 0)
  else Ret (true, xdrs).

Definition xdr_opaque (cnt : Z) : xdrproc P (list Z) := λ xdrs cp,
  match x_op xdrs with
  | XDR_DECODE => xdr_opaque_decode xdrs cp cnt
  | XDR_ENCODE => keep cp (xdr_opaque_encode xdrs cp cnt)
  | XDR_FREE => Ret (true, cp, xdrs)
  end.

Definition xdr_opaques xdrs (sp : list Z) (sizep maxsize : Z)
    : out (bool * (list Z * Z) * XDR P) :=
  let! (b, nodesize, xdrs) := xdr_uint32_t xdrs sizep in
  if negb b then Ret (false, (sp, nodesize), xdrs) else
  if (maxsize <? nodesize) && negb (bool_decide (x_op xdrs = XDR_FREE))
  then Ret (false, (sp, nodesize), xdrs) else
  match x_op xdrs with
  | XDR_DECODE =>
      let! (b, sp, xdrs) := xdr_opaque_decode xdrs sp nodesize in Ret (b, (sp, nodesize), xdrs)
  | XDR_ENCODE =>
      let! (b, xdrs) := xdr_opaque_encode xdrs sp nodesize in Ret (b, (sp, nodesize), xdrs)
  | XDR_FREE => Ret (true, (sp, nodesize), xdrs)
  end.

(** ** Counted bytes *)

(** The storage [sp] a decoder writes to: the caller's, or a new one. *)
Definition storage (p : ptr (list Z)) (n : Z) : out (list Z) :=
  match p with Pnull => Ret (mem_alloc n) | Pobj b => Ret b | Pfreed => Ub end.

Definition xdr_bytes_decode xdrs (obj : cbytes) (maxsize : Z) : out (bool * cbytes * XDR P) :=
  let '(cpp, sizep) := obj in
  let! (o, xdrs) := xdr_getuint32 xdrs in
  match o with
  | None => Ret (false, (cpp, sizep), xdrs)
  | Some size =>
      if maxsize <? size then Ret (false, (cpp, sizep), xdrs) else
      if size =? 0 then Ret (true, (cpp, size), xdrs) else
      let! sp := storage cpp size in
      let! (ret, sp, xdrs) := xdr_opaque_decode xdrs sp size in
      if ret then Ret (true, (Pobj sp, size), xdrs)
      else Ret (false, (if is_null cpp then Pnull else Pobj sp, size), xdrs)
  end.

Definition xdr_bytes_encode xdrs (obj : cbytes) (maxsize : Z) : out (bool * cbytes * XDR P) :=
  let '(cpp, sizep) := obj in
  let size := u32 sizep in
  if maxsize <? sizep then Ret (false, obj, xdrs) else
  if size <? sizep then Ret (false, obj, xdrs) else
  let! (b, xdrs) := xdr_putuint32 xdrs size in
  if negb b then Ret (false, obj, xdrs) else
  if size =? 0 then Ret (true, obj, xdrs) else
  let! sp := deref cpp in
  keep obj (xdr_opaque_encode xdrs sp size).

Definition xdr_bytes_free xdrs (obj : cbytes) : out (bool * cbytes * XDR P) :=
  let '(cpp, sizep) := obj in
  let! _ := mem_free cpp in Ret (true, (Pnull, sizep), xdrs).

Definition xdr_bytes (maxsize : Z) : xdrproc P cbytes := λ xdrs obj,
  match x_op xdrs with
  | XDR_DECODE => xdr_bytes_decode xdrs obj maxsize
  | XDR_ENCODE => xdr_bytes_encode xdrs obj maxsize
  | XDR_FREE => xdr_bytes_free xdrs obj
  end.

(** ** Discriminated unions *)

(** [choices] is the array up to its NULL-procedure terminator. *)
Fixpoint union_loop {T} xdrs (dscm : Z) (unp : T) (choices : list (Z * xdrproc P T))
    (dfault : option (xdrproc P T)) : out (bool * T * XDR P) :=
  match choices with
  | (value, proc) :: choices =>
      if value =? dscm then proc xdrs unp else union_loop xdrs dscm unp choices dfault
  | [] => match dfault with None => Ret (false, unp, xdrs) | Some proc => proc xdrs unp end
  end.

Definition xdr_union {T} (choices : list (Z * xdrproc P T)) (dfault : option (xdrproc P T))
    : xdrproc P (Z * T) := λ xdrs '(dscmp, unp),
  let! (b, dscm, xdrs) := xdr_enum xdrs dscmp in
  if negb b then Ret (false, (dscm, unp), xdrs) else
  let! (b, unp, xdrs) := union_loop xdrs dscm unp choices dfault in
  Ret (b, (dscm, unp), xdrs).

(** ** Vectors and arrays *)

(** [for (; i < n && stat; i++)] over the elements from [target] on; running past
    the object's last element is out of bounds. *)
Fixpoint elem_loop {T} (xdr_elem : xdrproc P T) (n : nat) xdrs (target : list T)
    : out (bool * list T * XDR P) :=
  match n with
  | O => Ret (true, target, xdrs)
  | S n =>
      match target with
      | [] => Ub
      | e :: target =>
          let! (b, e, xdrs) := xdr_elem xdrs e in
          if negb b then Ret (false, e :: target, xdrs) else
          let! (b, target, xdrs) := elem_loop xdr_elem n xdrs target in
          Ret (b, e :: target, xdrs)
      end
  end.

Definition xdr_vector {T} (nelem : Z) (xdr_elem : xdrproc P T) : xdrproc P (list T) :=
  λ xdrs basep, elem_loop xdr_elem (Z.to_nat nelem) xdrs basep.

(** [mem_zalloc(size * selem)] with the product in 32-bit arithmetic: as many
    zeroed elements as the allocated bytes hold. *)
Definition zalloc_array {T} (zero : T) (size selem : Z) : list T :=
  replicate (Z.to_nat (u32 (size * selem) / selem)) zero.

Section Array.
Context {T : Type} (zero : T) (maxsize selem : Z) (xdr_elem : xdrproc P T).

Definition xdr_array_decode : xdrproc P (carray T) := λ xdrs '(cpp, sizep),
  if selem =? 0 then Ub else
  if UINT32_MAX / selem <? maxsize then Ret (false, (cpp, sizep), xdrs) else
  let! (o, xdrs) := xdr_getuint32 xdrs in
  match o with
  | None => Ret (false, (cpp, sizep), xdrs)
  | Some size =>
      if maxsize <? size then Ret (false, (cpp, sizep), xdrs) else
      if size =? 0 then Ret (true, (cpp, size), xdrs) else
      let! target := match cpp with
                     | Pnull => Ret (zalloc_array zero size selem)
                     | Pobj t => Ret t
                     | Pfreed => Ub
                     end in
      let! (stat, target, xdrs) := elem_loop xdr_elem (Z.to_nat size) xdrs target in
      Ret (stat, (Pobj target, size), xdrs)
  end.

Definition xdr_array_encode : xdrproc P (carray T) := λ xdrs '(cpp, sizep),
  let size := u32 sizep in
  if maxsize <? sizep then Ret (false, (cpp, sizep), xdrs) else
  if size <? sizep then Ret (false, (cpp, sizep), xdrs) else
  let! (b, xdrs) := xdr_putuint32 xdrs size in
  if negb b then Ret (false, (cpp, sizep), xdrs) else
  if size =? 0 then Ret (true, (cpp, sizep), xdrs) else
  let! target := deref cpp in
  let! (stat, target, xdrs) := elem_loop xdr_elem (Z.to_nat size) xdrs target in
  Ret (stat, (Pobj target, sizep), xdrs).

Definition xdr_array_free : xdrproc P (carray T) := λ xdrs '(cpp, sizep),
  if is_null cpp then Ret (true, (cpp, sizep), xdrs) else
  let! target := deref cpp in
  let! (stat, _, xdrs) := elem_loop xdr_elem (Z.to_nat sizep) xdrs target in
  Ret (stat, (Pnull, sizep), xdrs).

Definition xdr_array : xdrproc P (carray T) := λ xdrs obj,
  match x_op xdrs with
  | XDR_DECODE => xdr_array_decode xdrs obj
  | XDR_ENCODE => xdr_array_encode xdrs obj
  | XDR_FREE => xdr_array_free xdrs obj
  end.
End Array.

(** ** Strings *)

(** [sp[i] = b] *)
Definition poke (sp : list Z) (i b : Z) : out (list Z) :=
  if i <? Zlen sp then Ret (<[Z.to_nat i := b]> sp) else Ub.

(** On failure the storage is freed whether or not this call allocated it. *)
Definition xdr_string_decode (maxsize : Z) : xdrproc P (ptr (list Z)) := λ xdrs cpp,
  let! (o, xdrs) := xdr_getuint32 xdrs in
  match o with
  | None => Ret (false, cpp, xdrs)
  | Some size =>
      if maxsize <? size then Ret (false, cpp, xdrs) else
      if size =? UINT32_MAX then Ret (false, cpp, xdrs) else
      let nodesize := u32 (size + 1) in
      let! sp := storage cpp nodesize in
      let! (ret, sp, xdrs) := xdr_opaque_decode xdrs sp size in
      if negb ret then Ret (false, if is_null cpp then Pnull else Pfreed, xdrs) else
      let! sp := poke sp size 0 in
      Ret (true, Pobj sp, xdrs)
  end.

Definition xdr_string_encode (maxsize : Z) : xdrproc P (ptr (list Z)) := λ xdrs cpp,
  if is_null cpp then Ret (false, cpp, xdrs) else
  let! sp := deref cpp in
  let! s := access (cstr sp) in
  let size := Zlen s in
  if maxsize <? size then Ret (false, cpp, xdrs) else
  let nodesize := u32 (size + 1) in
  if nodesize <? u64 (size + 1) then Ret (false, cpp, xdrs) else
  let! (b, xdrs) := xdr_putuint32 xdrs (u32 size) in
  if negb b then Ret (false, cpp, xdrs) else
  keep cpp (xdr_opaque_encode xdrs sp (u32 size)).

Definition xdr_string_free : xdrproc P (ptr (list Z)) := λ xdrs cpp,
  if is_null cpp then Ret (true, cpp, xdrs) else
  let! sp := deref cpp in
  let! _ := access (cstr sp) in
  Ret (true, Pnull, xdrs).

Definition xdr_string (maxsize : Z) : xdrproc P (ptr (list Z)) := λ xdrs cpp,
  match x_op xdrs with
  | XDR_DECODE => xdr_string_decode maxsize xdrs cpp
  | XDR_ENCODE => xdr_string_encode maxsize xdrs cpp
  | XDR_FREE => xdr_string_free xdrs cpp
  end.

Definition xdr_wrapstring : xdrproc P (ptr (list Z)) := xdr_string RPC_MAXDATASIZE.

Definition xdr_longlong_t : xdrproc P Z := xdr_int64_t.
Definition xdr_u_longlong_t : xdrproc P Z := xdr_uint64_t.

Definition xdr_netobj : xdrproc P cbytes := xdr_bytes MAX_NETOBJ_SZ.

(** ** Pointers (src/xdr_reference.c) *)

Section Reference.
Context {T : Type} (zero : T) (proc : xdrproc P T).

(** Handing a NULL [loc] to [proc] makes it read through NULL.  [x_op] is read
    again after the call in the source; no filter or stream assigns it. *)
Definition xdr_reference : xdrproc P (ptr T) := λ xdrs pp,
  match pp, x_op xdrs with
  | Pnull, XDR_FREE => Ret (true, pp, xdrs)
  | Pnull, XDR_ENCODE => Ub
  | _, op =>
      let! loc := match pp with Pnull => Ret zero | _ => deref pp end in
      let! (stat, loc, xdrs) := proc xdrs loc in
      Ret (stat, match op with XDR_FREE => Pnull | _ => Pobj loc end, xdrs)
  end.

Definition xdr_pointer : xdrproc P (ptr T) := λ xdrs objpp,
  let more_data := if is_null objpp then 0 else 1 in
  let! (b, more_data, xdrs) := xdr_bool xdrs more_data in
  if negb b then Ret (false, objpp, xdrs) else
  if more_data =? 0 then Ret (true, Pnull, xdrs) else
  xdr_reference xdrs objpp.
End Reference.

(** ** Floating point (src/xdr_float.c, the IEEEFP branch)

    A [float] or [double] object is its IEEE 754 bit pattern. *)

(** [(int32_t) f]: the value truncated toward zero; infinities, NaNs and values
    outside the target type have no defined conversion. *)
Definition f32_to_int32 (bits : Z) : option Z :=
  let e := Z.land (Z.shiftr bits 23) 255 in
  let m := Z.land bits (2 ^ 23 - 1) in
  let neg := Z.testbit bits 31 in
  if e =? 255 then None else
  let mag := if e =? 0 then 0 else
             if e <? 150 then Z.shiftr (2 ^ 23 + m) (150 - e)
             else Z.shiftl (2 ^ 23 + m) (e - 150) in
  let v := if neg then - mag else mag in
  if bool_decide (is_s 32 v) then Some v else None.

(** Encoding converts the value to an integer; decoding stores raw bits. *)
Definition xdr_float : xdrproc P Z := λ xdrs fp,
  match x_op xdrs with
  | XDR_ENCODE => let! i := access (f32_to_int32 fp) in keep fp (xdr_putint32 xdrs i)
  | XDR_DECODE => fetch fp u32 (xdr_getint32 xdrs)
  | XDR_FREE => Ret (true, fp, xdrs)
  end.

(** Little-endian host: [*(i32p + 1)] is the high half. *)
Definition xdr_double : xdrproc P Z := λ xdrs dp,
  let hi := s32 (Z.shiftr dp 32) in
  let lo := s32 dp in
  match x_op xdrs with
  | XDR_ENCODE =>
      let! (rv, xdrs) := xdr_putint32 xdrs hi in
      if negb rv then Ret (false, dp, xdrs) else keep dp (xdr_putint32 xdrs lo)
  | XDR_DECODE =>
      let! (o1, xdrs) := xdr_getint32 xdrs in
      match o1 with
      | None => Ret (false, dp, xdrs)
      | Some hi =>
          let dp := Z.lor (Z.shiftl (u32 hi) 32) (u32 lo) in
          fetch dp (λ lo, Z.lor (Z.shiftl (u32 hi) 32) (u32 lo)) (xdr_getint32 xdrs)
      end
  | XDR_FREE => Ret (true, dp, xdrs)
  end.
End Filters.

(** [if (!m) return (false);] for a put, and for a get into an object that is [o]
    when the get fails. *)
Notation "'check!' x := m 'in' k" :=
  (obind m (fun r => let '(b, x) := r in if b then k else Ret (false, x)))
  (at level 10, x name, m at level 100, k at level 200,
   format "'check!'  x  :=  m  'in' '//' k") : out_scope.
Notation "'get!' ( v , x ) := m 'fail' o 'in' k" :=
  (obind m (fun r => let '(w, x) := r in
            match w with Some v => k | None => Ret (false, o, x) end))
  (at level 10, v name, x name, m at level 100, o at level 100, k at level 200,
   format "'get!'  ( v ,  x )  :=  m  'fail'  o  'in' '//' k") : out_scope.

(** A structure's filter is the conjunction of its fields' filters. *)
Notation "f '&&&&' g" := (xdr_and f g) (at level 62, right associativity) : out_scope.

(** ** Releasing an object ([xdr_nfree]) *)

(** [xdr_free_null_stream] *)
Definition xdr_free_null_stream {P} (priv : P) : XDR P :=
  mk_xdr XDR_FREE 0 (mk_vio 0 0 0 0 0 VIO_HEADER) priv ∅.

Definition xdr_nfree {P T} (priv : P) (proc : xdrproc P T) (objp : T) : out (bool * T) :=
  let! (b, obj, _) := proc (xdr_free_null_stream priv) objp in Ret (b, obj).
