(* ===== verification/XdrWire.v ===== *)
(** * Wire formats and what a filter does to them

    Four judgements describe a filter over any stream that meets [XdrInput] and
    [XdrOutput]: what it writes ([encodes]), what it reads from a given prefix
    ([decodes]), what it can return on arbitrary bytes ([decoded]) and what it
    leaves when asked to release an object ([frees]).  A [spec] collects the
    wire format of a type and [Codec f S] says the filter [f] implements [S];
    the filters of XdrInline.v are shown to be codecs, once, and every protocol
    structure is built from them. *)
From stdpp Require Import base gmap list.
From Stdlib Require Import ZArith Lia.
From S2P Require Import Prelude Machine XdrHandle XdrStream XdrInline.

(** Bytes of padding after [n] bytes of opaque data. *)
Definition padn (n : Z) : Z := (- n) mod 4.
Definition zeros (n : Z) : list Z := replicate (Z.to_nat n) 0.

Lemma padn_range n : 0 ≤ padn n < 4.
Proof. apply Z.mod_pos_bound. lia. Qed.

Lemma zeros_length n : 0 ≤ n → Zlen (zeros n) = n.
Proof. intros. unfold zeros. rewrite length_replicate. lia. Qed.

Lemma zeros_bytes n : bytes (zeros n).
Proof. apply bytes_replicate. unfold byte. lia. Qed.

Lemma land_3 n : Z.land n (BYTES_PER_XDR_UNIT - 1) = n mod 4.
Proof. change (BYTES_PER_XDR_UNIT - 1) with (Z.ones 2). by rewrite Z.land_ones. Qed.

(** Words one after the other. *)
Abbreviation words ws := (concat (be32 <$> ws)).

Lemma words_length ws : Zlen (words ws) = 4 * Zlen ws.
Proof. induction ws as [|v ws IH]; [done|]. cbn [fmap list_fmap concat]. len. Qed.

(** The wire format of a type: the canonical encoding [wire] of the values [wf],
    the bytes [got] accepted when decoding into a target that is [fresh], and the
    objects [live] that may be released. *)
Record spec (T : Type) := Spec {
  wire : T → list Z;
  wf : T → Prop;
  fresh : T → Prop;
  got : T → T → list Z → Prop;
  live : T → Prop;
  freed : T → T;
}.
Arguments Spec {T}.
Arguments wire {T}.
Arguments wf {T}.
Arguments fresh {T}.
Arguments got {T}.
Arguments live {T}.
Arguments freed {T}.

Section Judgements.
Context {P : Type} {O : XdrOps P} {I : XdrInput P} {W : XdrOutput P}.

Definition encodes {T} (f : xdrproc P T) (v : T) (w : list Z) : Prop :=
  ∀ x w0 c, out_at x w0 c →
    (fits (Zlen w) c →
       ∃ x', f x v = Ret (true, v, x') ∧ out_at x' (w0 ++ w) (cap_sub c (Zlen w))) ∧
    (¬ fits (Zlen w) c → ∃ x', f x v = Ret (false, v, x')).

Definition decodes {T} (f : xdrproc P T) (v0 : T) (w : list Z) (v : T) : Prop :=
  ∀ x tl, in_at x 0 (w ++ tl) → ∃ x', f x v0 = Ret (true, v, x') ∧ in_at x' 0 tl.

Definition decoded {T} (f : xdrproc P T) (v0 : T) (S : T → list Z → Prop) (F : T → Prop)
    : Prop :=
  ∀ x l, in_at x 0 l →
    (∃ v w tl x', l = w ++ tl ∧ S v w ∧ f x v0 = Ret (true, v, x') ∧ in_at x' 0 tl) ∨
    (∃ v x', F v ∧ f x v0 = Ret (false, v, x')).

Definition frees {T} (f : xdrproc P T) (v v' : T) : Prop :=
  ∀ x, x_op x = XDR_FREE → f x v = Ret (true, v', x).

(** [f] implements the wire format [S]. *)
Class Codec {T} (f : xdrproc P T) (S : spec T) : Prop := {
  cd_encodes v : wf S v → encodes f v (wire S v);
  cd_bytes v : wf S v → bytes (wire S v);
  cd_canon v0 v : wf S v → fresh S v0 → got S v0 v (wire S v);
  cd_decodes v0 v w : fresh S v0 → got S v0 v w → decodes f v0 w v;
  cd_decoded v0 : fresh S v0 → decoded f v0 (got S v0) (live S);
  cd_live v0 v w : fresh S v0 → got S v0 v w → live S v;
  cd_fresh_live v0 : fresh S v0 → live S v0;
  cd_frees v : live S v → frees f v (freed S v);
  cd_freed v : live S v → live S (freed S v);
}.

(** What every codec gives. *)
Lemma codec_roundtrip {T} (f : xdrproc P T) S `{!Codec f S} v v0 :
  wf S v → fresh S v0 → encodes f v (wire S v) ∧ decodes f v0 (wire S v) v.
Proof. split; [by apply cd_encodes|]. by eapply cd_decodes, cd_canon. Qed.

Lemma decoded_weaken {T} (f : xdrproc P T) v0 (S S' : T → list Z → Prop) (F F' : T → Prop) :
  decoded f v0 S F → (∀ v w, S v w → S' v w) → (∀ v, F v → F' v) → decoded f v0 S' F'.
Proof. intros Hd HS HF x l Hx. destruct (Hd x l Hx) as [?|?]; naive_solver. Qed.

(** Decoding into a fresh target, successful or not, leaves an object that can be
    released. *)
Lemma codec_decode_release {T} (f : xdrproc P T) S `{!Codec f S} v0 x l :
  fresh S v0 → in_at x 0 l →
  ∃ b v x', f x v0 = Ret (b, v, x') ∧ frees f v (freed S v).
Proof.
  intros Hf Hx. destruct (cd_decoded v0 Hf x l Hx) as [(v&w&tl&x'&->&Hg&E&_)|(v&x'&Hl&E)];
    eexists _, v, x'; (split; [exact E|]); apply cd_frees; eauto using cd_live.
Qed.

(** Two filters that agree for the stream's direction. *)
Lemma encodes_ext {T} (f g : xdrproc P T) v w :
  (∀ x, x_op x = XDR_ENCODE → f x v = g x v) → encodes g v w → encodes f v w.
Proof. intros E Hg x w0 c Hx. rewrite E by eauto with ntirpc. by apply Hg. Qed.

Lemma decodes_ext {T} (f g : xdrproc P T) v0 w v :
  (∀ x, x_op x = XDR_DECODE → f x v0 = g x v0) → decodes g v0 w v → decodes f v0 w v.
Proof. intros E Hg x tl Hx. rewrite E by eauto with ntirpc. by apply Hg. Qed.

Lemma decoded_ext {T} (f g : xdrproc P T) v0 S F :
  (∀ x, x_op x = XDR_DECODE → f x v0 = g x v0) → decoded g v0 S F → decoded f v0 S F.
Proof. intros E Hg x l Hx. rewrite E by eauto with ntirpc. by apply Hg. Qed.

(** ** Single units *)

(** A put operation that appends [bs] when there is room for it. *)
Definition puts (put : XDR P → out (bool * XDR P)) (bs : list Z) : Prop :=
  ∀ x w c, out_at x w c →
    (fits (Zlen bs) c →
       ∃ x', put x = Ret (true, x') ∧ out_at x' (w ++ bs) (cap_sub c (Zlen bs))) ∧
    (¬ fits (Zlen bs) c → ∃ x', put x = Ret (false, x')).

Lemma puts_uint32 u : puts (λ x, xdr_putuint32 x u) (be32 u).
Proof. split; intros; [by apply out_putuint32|by eapply out_putuint32_full]. Qed.

Lemma puts_bytes bs : puts (λ x, x_putbytes x bs) bs.
Proof. split; intros; [by apply out_putbytes|by eapply out_putbytes_full]. Qed.

Lemma puts_done : puts (λ x, Ret (true, x)) [].
Proof.
  intros x w0 c Hx. rewrite app_nil_r, cap_sub_0. split; [eauto|].
  intros []. by eapply out_at_room.
Qed.

Lemma encodes_keep {T} put bs (v : T) : puts put bs → encodes (λ x v, keep v (put x)) v bs.
Proof.
  intros Hp x w c Hx. unfold keep. destruct (Hp _ _ _ Hx) as [H1 H2]. split; intros Hc.
  - destruct (H1 Hc) as (x' & -> & ?). simpl. eauto.
  - destruct (H2 Hc) as (x' & ->). simpl. eauto.
Qed.

(** [if (!XDR_PUT...(xdrs, ...)) return false; return g(xdrs, p)] *)
Lemma encodes_put {T} put (g : xdrproc P T) bs v w :
  puts put bs → encodes g v w →
  encodes (λ x v, let! (b, x) := put x in if negb b then Ret (false, v, x) else g x v)
    v (bs ++ w).
Proof.
  intros Hp Hg x w0 c Hx. rewrite Zlen_app. destruct (Hp _ _ _ Hx) as [Hp1 Hp2].
  destruct (decide (fits (Zlen bs) c)) as [H4|H4].
  - destruct (Hp1 H4) as (x' & -> & Hx'). simpl.
    destruct (Hg _ _ _ Hx') as [H1 H2]. rewrite cap_sub_sub, <- app_assoc in H1.
    split; intros Hc.
    + apply fits_cap_sub in Hc as [_ ?]; [|lia]. by apply H1.
    + apply H2. contradict Hc. by apply fits_split.
  - destruct (Hp2 H4) as (x' & ->). simpl. split; [|eauto].
    intros Hc. destruct H4. eapply fits_le; [done|lia].
Qed.

Lemma puts_encodes put bs : encodes (λ x v, keep v (put x)) tt bs → puts put bs.
Proof.
  intros He x w c Hx. destruct (He _ _ _ Hx) as [H1 H2]. unfold keep in *.
  split; intros Hc; [destruct (H1 Hc) as (x' & E & ?)|destruct (H2 Hc) as (x' & E)];
    apply bind_inv in E as ([b x1] & -> & E); simplify_eq; eauto.
Qed.

(** [if (!XDR_PUT...(xdrs, ...)) return false; return XDR_PUT...(xdrs, ...)] *)
Lemma puts_then put1 put2 b1 b2 :
  puts put1 b1 → puts put2 b2 →
  puts (λ x, let! (b, x) := put1 x in if negb b then Ret (false, x) else put2 x) (b1 ++ b2).
Proof.
  intros H1 H2. apply puts_encodes.
  eapply encodes_ext; [|eapply encodes_put; [done|by apply encodes_keep]].
  intros x _. unfold keep. by destruct (put1 x) as [[[] ?]| | |].
Qed.

Lemma puts_check put1 put2 b1 b2 :
  puts put1 b1 → puts put2 b2 → puts (λ x, check! x := put1 x in put2 x) (b1 ++ b2).
Proof.
  intros H1 H2. assert (H := puts_then _ _ _ _ H1 H2). intros x w c Hx.
  specialize (H x w c Hx). cbv beta in *. destruct (put1 x) as [[[] ?]| | |]; exact H.
Qed.

Lemma puts_ret put b x w c :
  puts put b → out_at x w c →
  ∃ ok x', put x = Ret (ok, x') ∧ (ok = true → ∃ w' c', out_at x' w' c').
Proof.
  intros Hp Hx. destruct (Hp _ _ _ Hx) as [H1 H2].
  destruct (decide (fits (Zlen b) c)) as [Hc|Hc].
  - destruct (H1 Hc) as (x' & E & ?). exists true, x'. eauto.
  - destruct (H2 Hc) as (x' & E). by exists false, x'.
Qed.

Lemma puts_of_encodes {T} (f : xdrproc P T) v bs :
  encodes f v bs → puts (λ x, let! (b, _, x) := f x v in Ret (b, x)) bs.
Proof.
  intros He x w c Hx. destruct (He _ _ _ Hx) as [H1 H2]. split; intros Hc.
  - destruct (H1 Hc) as (x' & -> & ?). cbn. eauto.
  - destruct (H2 Hc) as (x' & ->). cbn. eauto.
Qed.

Lemma puts_check_done put b : puts put b → puts (λ x, check! x := put x in Ret (true, x)) b.
Proof. intros Hp. rewrite <- (app_nil_r b). apply puts_check; [done|apply puts_done]. Qed.

Lemma puts_int32 v : puts (λ x, xdr_putint32 x v) (be32 v).
Proof. intros x w c Hx. split; intros; [by apply out_putint32|by eapply out_putint32_full]. Qed.

Lemma puts_enum v : puts (λ x, xdr_putenum x v) (be32 v).
Proof. intros x w c Hx. split; intros; [by apply out_putenum|by eapply out_putenum_full]. Qed.

Lemma encodes_done {T} (v : T) : encodes (λ x v, Ret (true, v, x)) v [].
Proof.
  change (encodes (λ x v, keep v (Ret (true, x))) v []). apply encodes_keep, puts_done.
Qed.

(** [if (!XDR_GETUINT32(xdrs, &u)) return false; return k(u, xdrs, p)] *)
Definition get_then {T} (k : Z → xdrproc P T) : xdrproc P T := λ x v0,
  let! (o, x) := xdr_getuint32 x in
  match o with None => Ret (false, v0, x) | Some u => k u x v0 end.

Lemma decodes_get {T} (k : Z → xdrproc P T) v0 u w v :
  is_u 32 u → decodes (k u) v0 w v → decodes (get_then k) v0 (be32 u ++ w) v.
Proof.
  intros Hu Hk x tl Hx. unfold get_then. rewrite <- app_assoc in Hx.
  destruct (in_getuint32 _ _ _ Hx) as (x' & -> & Hx'). simpl. rewrite wrapu_id by done.
  by apply Hk.
Qed.

Lemma decoded_get {T} (k : Z → xdrproc P T) v0 (S : T → list Z → Prop) (F : T → Prop) :
  F v0 → (∀ u, is_u 32 u → decoded (k u) v0 (λ v w, S v (be32 u ++ w)) F) →
  decoded (get_then k) v0 S F.
Proof.
  intros HF Hk x l Hx. unfold get_then.
  destruct (in_get_unit _ _ Hx) as [(x' & _ & ->)|(u & tl & x' & -> & Hu & -> & Hx')]; simpl.
  - right. eauto.
  - destruct (Hk u Hu _ _ Hx') as [(v & w & tl' & x2 & -> & HS & E & Hx2)|(v & x2 & ? & E)].
    + left. exists v, (be32 u ++ w), tl', x2. rewrite <- app_assoc. auto.
    + right. eauto.
Qed.

Lemma decodes_done {T} (v : T) : decodes (λ x v, Ret (true, v, x)) v [] v.
Proof. intros x tl Hx. eauto. Qed.

Lemma decoded_done {T} (v0 v : T) (S : T → list Z → Prop) F :
  S v [] → decoded (λ x _, Ret (true, v, x)) v0 S F.
Proof. intros HS x l Hx. left. by exists v, [], l, x. Qed.

Lemma decoded_fail {T} (v0 v : T) (S : T → list Z → Prop) (F : T → Prop) :
  F v → decoded (λ x _, Ret (false, v, x)) v0 S F.
Proof. intros HS x l Hx. right. eauto. Qed.

(** ** Sequences of fields *)

Lemma encodes_and {T} (f g : xdrproc P T) v w1 w2 :
  encodes f v w1 → encodes g v w2 → encodes (xdr_and f g) v (w1 ++ w2).
Proof.
  intros Hf Hg x w0 c Hx. unfold xdr_and. rewrite Zlen_app.
  destruct (Hf _ _ _ Hx) as [Hf1 Hf2]. split; intros Hc.
  - apply fits_cap_sub in Hc as [Hc1 Hc2]; [|lia].
    destruct (Hf1 Hc1) as (x1 & -> & Hx1). simpl.
    destruct (Hg _ _ _ Hx1) as [Hg1 _]. destruct (Hg1 Hc2) as (x2 & -> & Hx2).
    exists x2. by rewrite app_assoc, <- cap_sub_sub.
  - destruct (decide (fits (Zlen w1) c)) as [Hc1|Hc1].
    + destruct (Hf1 Hc1) as (x1 & -> & Hx1). simpl.
      destruct (Hg _ _ _ Hx1) as [_ Hg2]. apply Hg2. contradict Hc. by apply fits_split.
    + destruct (Hf2 Hc1) as (x1 & ->). simpl. eauto.
Qed.

Lemma decodes_and {T} (f g : xdrproc P T) v0 v1 v2 w1 w2 :
  decodes f v0 w1 v1 → decodes g v1 w2 v2 → decodes (xdr_and f g) v0 (w1 ++ w2) v2.
Proof.
  intros Hf Hg x tl Hx. unfold xdr_and. rewrite <- app_assoc in Hx.
  destruct (Hf _ _ Hx) as (x1 & -> & Hx1). simpl. by apply Hg.
Qed.

Lemma decoded_and {T} (f g : xdrproc P T) v0 (S1 S : T → list Z → Prop) (F : T → Prop) :
  decoded f v0 S1 F →
  (∀ v1 w1, S1 v1 w1 → decoded g v1 (λ v w2, S v (w1 ++ w2)) F) →
  decoded (xdr_and f g) v0 S F.
Proof.
  intros Hf Hg x l Hx. unfold xdr_and.
  destruct (Hf _ _ Hx) as [(v1 & w1 & tl & x1 & -> & HS & -> & Hx1)|(v & x' & HF & ->)]; simpl.
  - destruct (Hg _ _ HS _ _ Hx1) as [(v2 & w2 & tl' & x2 & -> & HS2 & -> & Hx2)|(v2 & x2 & ? & ->)].
    + left. exists v2, (w1 ++ w2), tl', x2. by rewrite app_assoc.
    + right. eauto.
  - right. eauto.
Qed.

Lemma frees_and {T} (f g : xdrproc P T) v v1 v2 :
  frees f v v1 → frees g v1 v2 → frees (xdr_and f g) v v2.
Proof. intros Hf Hg x Hx. unfold xdr_and. rewrite Hf by done. simpl. by apply Hg. Qed.

Lemma encodes_field {R T} (get : R → T) set (f : xdrproc P T) r w :
  encodes f (get r) w → set (get r) r = r → encodes (xdr_field get set f) r w.
Proof.
  intros Hf Hs x w0 c Hx. unfold xdr_field. destruct (Hf _ _ _ Hx) as [H1 H2]. split; intros Hc.
  - destruct (H1 Hc) as (x' & -> & ?). simpl. rewrite Hs. eauto.
  - destruct (H2 Hc) as (x' & ->). simpl. rewrite Hs. eauto.
Qed.

Lemma decodes_field {R T} (get : R → T) set (f : xdrproc P T) r w a r' :
  decodes f (get r) w a → set a r = r' → decodes (xdr_field get set f) r w r'.
Proof.
  intros Hf <- x tl Hx. unfold xdr_field. destruct (Hf _ _ Hx) as (x' & -> & ?). simpl. eauto.
Qed.

Lemma decoded_field {R T} (get : R → T) set (f : xdrproc P T) r
    (S : T → list Z → Prop) (F : T → Prop) (S' : R → list Z → Prop) (F' : R → Prop) :
  decoded f (get r) S F →
  (∀ a w, S a w → S' (set a r) w) → (∀ a, F a → F' (set a r)) →
  decoded (xdr_field get set f) r S' F'.
Proof.
  intros Hf HS HF x l Hx. unfold xdr_field.
  destruct (Hf _ _ Hx) as [(v & w & tl & x' & -> & ? & -> & ?)|(v & x' & ? & ->)]; simpl;
    [left|right]; eauto 10.
Qed.

Lemma frees_field {R T} (get : R → T) set (f : xdrproc P T) r a r' :
  frees f (get r) a → set a r = r' → frees (xdr_field get set f) r r'.
Proof. intros Hf <- x Hx. unfold xdr_field. by rewrite Hf. Qed.
End Judgements.

(** Start a [Codec] proof: one goal per law, the [spec]'s fields unfolded. *)
Ltac codec := constructor; cbn [wire wf fresh got live freed]; auto with ntirpc.
