(* ===== verification/XdrCodecs.v ===== *)
(** * The filters of XdrInline.v implement their wire formats

    For each filter its [spec] and the proof that the filter is a [Codec] for it,
    over any stream.  A unit-sized type is four bytes; counted data is its length
    followed by the data and padding to a unit; an array is its length followed by
    its elements. *)
From stdpp Require Import base gmap list.
From Stdlib Require Import ZArith Lia.
From S2P Require Import Prelude Machine XdrHandle XdrStream XdrInline XdrWire.

(** ** Wire formats *)

(** A type carried in one unit: [enc] gives the 32-bit value written for a value
    satisfying [ok], [dec] the value read from the unit. *)
Definition unit_spec (ok : Z → Prop) (enc dec : Z → Z) : spec Z :=
  {| wire v := be32 (enc v);
     wf := ok;
     fresh _ := True;
     got _ v w := ∃ u, is_u 32 u ∧ w = be32 u ∧ v = dec u;
     live _ := True;
     freed := id |}.

Lemma bytes_be32_app u l : bytes l → bytes (be32 u ++ l).
Proof. intros. apply bytes_app. auto using be32_bytes. Qed.
#[export] Hint Resolve bytes_be32_app : ntirpc.

Definition int32_spec := unit_spec (is_s 32) id s32.
Definition uint32_spec := unit_spec (is_u 32) id id.
Definition int16_spec := unit_spec (is_s 16) u16 (λ u, s16 (u16 u)).
Definition uint16_spec := unit_spec (is_u 16) id u16.
Definition int8_spec := unit_spec (is_s 8) u8 (λ u, s8 (u8 u)).
Definition uint8_spec := unit_spec (is_u 8) id u8.
Definition truth (v : Z) : Z := if v =? 0 then XDR_FALSE else XDR_TRUE.
Definition bool_spec := unit_spec (λ v, v = XDR_FALSE ∨ v = XDR_TRUE) id (λ u, truth (s32 u)).

Definition uint64_spec : spec Z :=
  {| wire v := be32 (v / 2 ^ 32) ++ be32 v;
     wf := is_u 64;
     fresh _ := True;
     got _ v w := is_u 64 v ∧ w = be32 (v / 2 ^ 32) ++ be32 v;
     live _ := True;
     freed := id |}.

Definition int64_spec : spec Z :=
  {| wire v := be32 (v / 2 ^ 32) ++ be32 v;
     wf := is_s 64;
     fresh := is_s 64;
     got _ v w := is_s 64 v ∧ w = be32 (v / 2 ^ 32) ++ be32 v;
     live := is_s 64;
     freed := id |}.

(** Opaque data and its padding, of any content when it is read. *)
Definition padded (bs w : list Z) : Prop :=
  ∃ pad, w = bs ++ pad ∧ Zlen pad = padn (Zlen bs).
Definition pad_wire (bs : list Z) : list Z := bs ++ zeros (padn (Zlen bs)).

Lemma pad_wire_bytes bs : bytes bs → bytes (pad_wire bs).
Proof. intros. apply bytes_app. auto using zeros_bytes. Qed.
#[export] Hint Resolve pad_wire_bytes : ntirpc.

Definition opaque_spec (cnt : Z) : spec (list Z) :=
  {| wire := pad_wire;
     wf v := Zlen v = cnt ∧ bytes v;
     fresh v0 := Zlen v0 = cnt;
     got _ v w := Zlen v = cnt ∧ bytes v ∧ padded v w;
     live _ := True;
     freed := id |}.

Definition bytes_spec (maxsize : Z) : spec cbytes :=
  {| wire v := be32 (v.2) ++ match v.1 with Pobj bs => pad_wire bs | _ => [] end;
     wf v := v = (Pnull, 0) ∨
             ∃ bs, v = (Pobj bs, Zlen bs) ∧ 0 < Zlen bs ≤ maxsize ∧ bytes bs;
     fresh v0 := v0.1 = Pnull;
     got _ v w := v = (Pnull, 0) ∧ w = be32 0 ∨
                  ∃ bs w', v = (Pobj bs, Zlen bs) ∧ 0 < Zlen bs ≤ maxsize ∧ bytes bs ∧
                           padded bs w' ∧ w = be32 (Zlen bs) ++ w';
     live v := v.1 ≠ Pfreed;
     freed v := (Pnull, v.2) |}.

(** A C string is its bytes and a NUL.  One that is read may hold further NULs:
    the count on the wire, not the terminator, bounds it. *)
Definition string_spec (maxsize : Z) : spec (ptr (list Z)) :=
  {| wire v := match v with
               | Pobj sp => let s := removelast sp in be32 (Zlen s) ++ pad_wire s
               | _ => []
               end;
     wf v := ∃ s, v = Pobj (s ++ [0]) ∧ nonul s ∧ bytes s ∧ Zlen s ≤ maxsize;
     fresh v0 := v0 = Pnull;
     got _ v w := ∃ s w', v = Pobj (s ++ [0]) ∧ bytes s ∧ Zlen s ≤ maxsize ∧
                          padded s w' ∧ w = be32 (Zlen s) ++ w';
     live v := v = Pnull ∨ ∃ s tl, v = Pobj (s ++ 0 :: tl) ∧ nonul s;
     freed _ := Pnull |}.

(** The elements of an array one after the other. *)
Inductive gots {T} (S : spec T) (zero : T) : list T → list Z → Prop :=
| gots_nil : gots S zero [] []
| gots_cons v w vs ws : got S zero v w → gots S zero vs ws → gots S zero (v :: vs) (w ++ ws).

Definition array_spec {T} (maxsize : Z) (S : spec T) (zero : T) : spec (carray T) :=
  {| wire v := be32 (v.2) ++ match v.1 with Pobj l => concat (wire S <$> l) | _ => [] end;
     wf v := v = (Pnull, 0) ∨
             ∃ l, v = (Pobj l, Zlen l) ∧ 0 < Zlen l ≤ maxsize ∧ Forall (wf S) l;
     fresh v0 := v0.1 = Pnull;
     got _ v w := v = (Pnull, 0) ∧ w = be32 0 ∨
                  ∃ l w', v = (Pobj l, Zlen l) ∧ 0 < Zlen l ≤ maxsize ∧
                          gots S zero l w' ∧ w = be32 (Zlen l) ++ w';
     live v := v.1 = Pnull ∨ ∃ l, v = (Pobj l, Zlen l) ∧ Forall (live S) l;
     freed v := (Pnull, v.2) |}.

(** An optional object: a boolean, then the object when there is one. *)
Definition pointer_spec {T} (S : spec T) (zero : T) : spec (ptr T) :=
  {| wire v := match v with Pobj a => be32 1 ++ wire S a | _ => be32 0 end;
     wf v := match v with Pnull => True | Pobj a => wf S a | Pfreed => False end;
     fresh v0 := v0 = Pnull;
     got _ v w := v = Pnull ∧ w = be32 0 ∨
                  ∃ a u w', v = Pobj a ∧ is_u 32 u ∧ u ≠ 0 ∧ got S zero a w' ∧ w = be32 u ++ w';
     live v := match v with Pnull => True | Pobj a => live S a | Pfreed => False end;
     freed _ := Pnull |}.

(** ** Unit-sized types *)

Section Codecs.
Context {P : Type} {O : XdrOps P} {I : XdrInput P} {W : XdrOutput P}.

(** What there is to check of a filter for a unit-sized type. *)
Lemma unit_codec (f : xdrproc P Z) ok enc dec :
  (∀ v, ok v → dec (u32 (enc v)) = v) →
  (∀ x v, x_op x = XDR_ENCODE → ok v → ∃ u, be32 u = be32 (enc v) ∧
     (f x v = keep v (xdr_putuint32 x u) ∨ f x v = keep v (xdr_putlong x u))) →
  (∀ x v0, x_op x = XDR_DECODE →
     f x v0 = fetch v0 dec (xdr_getuint32 x) ∨
     f x v0 = fetch v0 dec (xdr_getlong x) ∧ ∀ u, dec (s32 u) = dec (u32 u)) →
  (∀ x v, x_op x = XDR_FREE → f x v = Ret (true, v, x)) →
  Codec f (unit_spec ok enc dec).
Proof.
  intros Hrt He Hd Hf.
  assert (Hdec : ∀ x v0 u tl, in_at x 0 (be32 u ++ tl) → is_u 32 u →
            ∃ x', f x v0 = Ret (true, dec u, x') ∧ in_at x' 0 tl).
  { intros x v0 u tl Hx Hu. destruct (Hd x v0 (in_at_decode _ _ _ Hx)) as [->|[-> Hs]].
    - destruct (in_getuint32 _ _ _ Hx) as (x' & E & ?). exists x'.
      unfold fetch. rewrite E. simpl. by rewrite wrapu_id.
    - destruct (in_getlong _ _ _ Hx) as (lv & x' & E & Hlv & ?). exists x'.
      unfold fetch. rewrite E. simpl. destruct Hlv as [-> | ->]; rewrite ?Hs, wrapu_id; done. }
  assert (Hshort : ∀ x v0 l, in_at x 0 l → Zlen l < 4 → ∃ x', f x v0 = Ret (false, v0, x')).
  { intros x v0 l Hx Hl. destruct (Hd x v0 (in_at_decode _ _ _ Hx)) as [->|[-> _]].
    - destruct (in_getuint32_short _ _ Hx Hl) as [x' E]. exists x'. unfold fetch. by rewrite E.
    - destruct (in_getlong_short _ _ Hx Hl) as [x' E]. exists x'. unfold fetch. by rewrite E. }
  unfold unit_spec; codec.
  - intros v Hv x w0 c Hx. rewrite be32_length.
    destruct (He x v (out_at_encode _ _ _ Hx) Hv) as (u & Hu & E).
    split; intros Hc.
    + destruct E as [-> | ->];
        [destruct (out_putuint32 x w0 c u Hx Hc) as (x' & E & Hx')
        |destruct (out_putlong x w0 c u Hx Hc) as (x' & E & Hx')];
        exists x'; unfold keep; rewrite E; simpl; by rewrite Hu in Hx'.
    + destruct E as [-> | ->];
        [destruct (out_putuint32_full x w0 c u Hx Hc) as (x' & E)
        |destruct (out_putlong_full x w0 c u Hx Hc) as (x' & E)];
        exists x'; unfold keep; by rewrite E.
  - intros v0 v Hv _. exists (u32 (enc v)). rewrite be32_u32, Hrt by done.
    auto using wrapu_range with lia.
  - intros v0 v w _ (u & Hu & -> & ->) x tl Hx. eauto.
  - intros v0 _ x l Hx. destruct (in_at_unit _ _ Hx) as [Hl|(u & tl & -> & Hu)].
    + right. destruct (Hshort x v0 l Hx Hl). eauto.
    + left. destruct (Hdec x v0 u tl Hx Hu) as (x' & E & Hx').
      exists (dec u), (be32 u), tl, x'. eauto 10.
  - intros v _ x Hx. by apply Hf.
Qed.

Lemma fetch_map {T} (v0 : T) conv g (m : out (option Z * XDR P)) :
  fetch v0 conv (let! (u, x) := m in Ret (g <$> u, x)) = fetch v0 (λ u, conv (g u)) m.
Proof. by destruct m as [[[u|] x]| | |]. Qed.

Lemma fetch_ext {T} (v0 : T) f g (m : out (option Z * XDR P)) :
  (∀ u, f u = g u) → fetch v0 f m = fetch v0 g m.
Proof. intros E. destruct m as [[[u|] x]| | |]; simpl; by rewrite ?E. Qed.

(** [unit_filter]: the obligations of [unit_codec] for a filter that is a switch
    over [x_op]. *)
Ltac unit_enc := intros ?? ?Hop ?; simpl; rewrite ?Hop; eexists;
  split; [|first [left; reflexivity | right; reflexivity]];
  rewrite ?be32_u32, ?be32_s32, ?be32_u32; try done.
Ltac unit_dec := intros ?? ?Hop; simpl; rewrite ?Hop; left;
  unfold xdr_getbool, xdr_getenum, xdr_getint32, xdr_getint16, xdr_getint8, xdr_getuint16,
    xdr_getuint8, xdr_getuint32;
  rewrite ?fetch_map; apply fetch_ext; try done.
Ltac unit_free := intros ?? ?Hop; simpl; by rewrite ?Hop.

#[global] Instance uint32_codec : Codec xdr_uint32_t uint32_spec.
Proof.
  apply unit_codec; [|unfold xdr_uint32_t; unit_enc|unfold xdr_uint32_t; unit_dec
    |unfold xdr_uint32_t; unit_free].
  intros. by apply wrapu_id.
Qed.

#[global] Instance int32_codec : Codec xdr_int32_t int32_spec.
Proof.
  apply unit_codec; [|unfold xdr_int32_t, xdr_putint32; unit_enc|unfold xdr_int32_t; unit_dec
    |unfold xdr_int32_t; unit_free].
  intros. apply wraps_wrapu_id; [lia|done].
Qed.

#[global] Instance enum_codec : Codec xdr_enum int32_spec.
Proof.
  apply unit_codec; [|unfold xdr_enum, xdr_putenum, xdr_putint32; unit_enc
    |unfold xdr_enum; unit_dec|unfold xdr_enum; unit_free].
  intros. apply wraps_wrapu_id; [lia|done].
Qed.

#[global] Instance bool_codec : Codec xdr_bool bool_spec.
Proof.
  apply unit_codec; [|unfold xdr_bool, xdr_putbool, xdr_putint32; unit_enc
    |unfold xdr_bool; unit_dec|unfold xdr_bool; unit_free].
  - by intros v [-> | ->].
  - match goal with H : _ ∨ _ |- _ => by destruct H as [-> | ->] end.
Qed.

Lemma truth_s32 u : is_u 32 u → truth (s32 u) = truth u.
Proof.
  intros Hu. unfold truth. assert ((s32 u =? 0) = (u =? 0)) as ->; [|done].
  unfold is_u in Hu. unfold wraps. rewrite Z.mod_small by done.
  destruct (Z.ltb_spec u (2 ^ (32 - 1))); [done|]. rewrite !(proj2 (Z.eqb_neq _ _)); lia.
Qed.

#[global] Instance int16_codec : Codec xdr_int16_t int16_spec.
Proof.
  apply unit_codec; [|unfold xdr_int16_t, xdr_putint16; unit_enc
    |unfold xdr_int16_t; unit_dec|unfold xdr_int16_t; unit_free].
  intros v Hv. rewrite (wrapu_id 32), (wrapu_id 16 (u16 v)) by
    (pose proof (wrapu_range 16 v ltac:(lia)); unfold is_u in *; lia).
  apply wraps_wrapu_id; [lia|done].
Qed.

#[global] Instance uint16_codec : Codec xdr_uint16_t uint16_spec.
Proof.
  apply unit_codec; [|unfold xdr_uint16_t; unit_enc
    |unfold xdr_uint16_t; unit_dec|unfold xdr_uint16_t; unit_free].
  intros v Hv. unfold id. rewrite (wrapu_id 32) by (unfold is_u in *; lia). by apply wrapu_id.
Qed.

#[global] Instance int8_codec : Codec xdr_int8_t int8_spec.
Proof.
  apply unit_codec; [|unfold xdr_int8_t, xdr_putint8; unit_enc
    |unfold xdr_int8_t; unit_dec|unfold xdr_int8_t; unit_free].
  intros v Hv. rewrite (wrapu_id 32), (wrapu_id 8 (u8 v)) by
    (pose proof (wrapu_range 8 v ltac:(lia)); unfold is_u in *; lia).
  apply wraps_wrapu_id; [lia|done].
Qed.

#[global] Instance uint8_codec : Codec xdr_uint8_t uint8_spec.
Proof.
  apply unit_codec; [|unfold xdr_uint8_t; unit_enc
    |unfold xdr_uint8_t; unit_dec|unfold xdr_uint8_t; unit_free].
  intros v Hv. unfold id. rewrite (wrapu_id 32) by (unfold is_u in *; lia). by apply wrapu_id.
Qed.

#[global] Instance int_codec : Codec inline_xdr_int int32_spec.
Proof.
  apply unit_codec; [|unfold inline_xdr_int; unit_enc| |unfold inline_xdr_int; unit_free].
  - intros. apply wraps_wrapu_id; [lia|done].
  - intros x v0 Hop. unfold inline_xdr_int. rewrite Hop. right. split; [done|].
    intros. rewrite wraps_wrapu by lia. apply wraps_id; [lia|]. by apply wraps_range.
Qed.

#[global] Instance u_int_codec : Codec inline_xdr_u_int (unit_spec (is_u 32) id u32).
Proof.
  apply unit_codec; [|unfold inline_xdr_u_int; unit_enc| |unfold inline_xdr_u_int; unit_free].
  - intros. unfold id. by rewrite !wrapu_id by (rewrite ?wrapu_id by done; done).
  - intros x v0 Hop. unfold inline_xdr_u_int. rewrite Hop. right. split; [done|].
    intros. rewrite wrapu_wraps by lia. symmetry. apply wrapu_id. by apply wrapu_range.
Qed.

(** ** 64-bit integers *)

Lemma u64_split v : is_u 64 v →
  be32 (Z.land (u32 (Z.shiftr v 32)) (2 ^ 32 - 1)) = be32 (v / 2 ^ 32) ∧
  be32 (Z.land (u32 v) (2 ^ 32 - 1)) = be32 v.
Proof.
  intros _. change (2 ^ 32 - 1) with (Z.ones 32). rewrite !Z.land_ones by lia.
  rewrite Z.shiftr_div_pow2 by lia.
  fold (u32 (u32 (v / 2 ^ 32))) (u32 (u32 v)).
  by rewrite !be32_u32.
Qed.

Lemma u64_join hi lo : is_u 32 hi → is_u 32 lo →
  Z.lor (u64 (Z.shiftl hi 32)) lo = hi * 2 ^ 32 + lo.
Proof.
  intros Hh Hl. unfold is_u in *.
  rewrite wrapu_id by (rewrite Z.shiftl_mul_pow2; unfold is_u; lia).
  by apply lor_shiftl.
Qed.

Lemma uint64_decode_eq x v0 : x_op x = XDR_DECODE →
  xdr_uint64_t x v0 =
    get_then (λ hi, get_then (λ lo x v, Ret (true, Z.lor (u64 (Z.shiftl hi 32)) lo, x))) x v0.
Proof.
  intros Hop. unfold xdr_uint64_t, get_then, fetch. rewrite Hop.
  by destruct (xdr_getuint32 x) as [[[]]| | |].
Qed.

Lemma u64_parts v : is_u 64 v →
  is_u 32 (v / 2 ^ 32) ∧ v = v / 2 ^ 32 * 2 ^ 32 + u32 v ∧ is_u 32 (u32 v).
Proof.
  unfold is_u, wrapu. intros. change (2 ^ 32) with 4294967296.
  change (2 ^ 64) with 18446744073709551616 in *. lia.
Qed.

#[global] Instance uint64_codec : Codec xdr_uint64_t uint64_spec.
Proof.
  unfold uint64_spec; codec.
  - intros v Hv. destruct (u64_split v Hv) as [<- <-].
    eapply encodes_ext; [|eapply encodes_put, encodes_keep; apply puts_uint32].
    intros x Hop. unfold xdr_uint64_t. by rewrite Hop.
  - intros v0 v w _ [Hv ->]. destruct (u64_parts v Hv) as (Hh & Hj & Hl).
    eapply decodes_ext; [by intros; apply uint64_decode_eq|].
    rewrite <- (be32_u32 v). apply decodes_get; [done|]. rewrite <- (app_nil_r (be32 (u32 v))).
    apply decodes_get; [done|]. rewrite u64_join, <- Hj by done. intros x tl Hx. eauto.
  - intros v0 _. eapply decoded_ext; [by intros; apply uint64_decode_eq|].
    apply decoded_get; [done|]. intros hi Hh. apply decoded_get; [done|]. intros lo Hl.
    apply decoded_done. rewrite u64_join, app_nil_r by done. unfold is_u in *. split; [lia|].
    rewrite Z.div_add_l, (Z.div_small lo), Z.add_0_r by lia.
    rewrite <- (be32_u32 (_ + lo)). unfold wrapu.
    by rewrite Z.add_comm, Z.mod_add, Z.mod_small by lia.
  - intros v _ x Hop. unfold xdr_uint64_t. by rewrite Hop.
Qed.

Lemma int64_wire v : wire uint64_spec (u64 v) = wire int64_spec v.
Proof.
  cbn [wire uint64_spec int64_spec]. unfold wrapu.
  rewrite <- (be32_u32 (v mod _ / _)), <- (be32_u32 (v / _)), <- (be32_u32 (v mod _)),
    <- (be32_u32 v). unfold wrapu.
  change (2 ^ 32) with 4294967296. change (2 ^ 64) with 18446744073709551616.
  f_equal; f_equal; lia.
Qed.

#[global] Instance int64_codec : Codec xdr_int64_t int64_spec.
Proof.
  change xdr_int64_t with (xdr_field (P := P) u64 (λ u _, s64 u) xdr_uint64_t).
  assert (Hs : ∀ v, is_s 64 v → s64 (u64 v) = v) by (intros; by apply wraps_wrapu_id).
  assert (Hr : ∀ v, is_u 64 (u64 v)) by (intros; by apply wrapu_range).
  codec.
  - intros v Hv. change (encodes (xdr_field u64 (λ u _, s64 u) xdr_uint64_t) v (wire int64_spec v)).
    rewrite <- int64_wire. apply encodes_field; [|by auto].
    apply (cd_encodes (S := uint64_spec)), Hr.
  - intros v _. cbn [wire int64_spec]. auto with ntirpc.
  - by intros.
  - intros v0 v w _ [Hv Hw]. change (w = wire int64_spec v) in Hw. subst w. rewrite <- int64_wire.
    eapply decodes_field; [|by apply Hs]. by apply (cd_decodes (S := uint64_spec)).
  - intros v0 _. eapply decoded_field; [by apply (cd_decoded (S := uint64_spec))|..].
    + intros a w [Ha ->]. split; [by apply wraps_range|].
      change (wire uint64_spec a = wire int64_spec (s64 a)).
      by rewrite <- int64_wire, wrapu_wraps, wrapu_id by done.
    + intros. by apply wraps_range.
  - by intros ??? _ [? _].
  - intros v Hv. eapply frees_field; [|by apply Hs]. by apply (cd_frees (S := uint64_spec)).
Qed.

(** ** Opaque data *)

Lemma in_at_shift x k l : in_at x k l → k mod 4 = 0 → in_at x 0 l.
Proof. intros Hx Hk. by eapply in_at_mod. Qed.

Lemma opaque_decode_ok x cp bs pad tl :
  in_at x 0 (bs ++ pad ++ tl) → Zlen pad = padn (Zlen bs) → (length bs ≤ length cp)%nat →
  ∃ x', xdr_opaque_decode x cp (Zlen bs) = Ret (true, bs ++ drop (length bs) cp, x') ∧
        in_at x' 0 tl.
Proof.
  intros Hx Hp Hl. unfold xdr_opaque_decode, padn in *. destruct (Z.eqb_spec (Zlen bs) 0) as [E|E].
  - destruct bs; [|len]. destruct pad; [|len]. eauto.
  - destruct (in_getbytes _ _ _ _ Hx) as (x1 & -> & Hx1). simpl.
    unfold overlay. rewrite (proj2 (Nat.leb_le _ _)) by done. simpl. rewrite land_3.
    unfold BYTES_PER_XDR_UNIT. destruct (Z.ltb_spec 0 (Zlen bs mod 4)).
    + destruct (in_getbytes _ _ _ _ Hx1) as (x2 & E2 & Hx2).
      replace (4 - Zlen bs mod 4) with (Zlen pad) by lia. rewrite E2. simpl.
      exists x2. split; [done|]. eapply in_at_shift; [done|lia].
    + destruct pad; [|len]. exists x1. split; [done|]. eapply in_at_shift; [done|lia].
Qed.

Lemma opaque_decode_any x cp cnt l :
  in_at x 0 l → 0 ≤ cnt ≤ Zlen cp →
  (∃ bs pad tl x', l = bs ++ pad ++ tl ∧ Zlen bs = cnt ∧ Zlen pad = padn cnt ∧ bytes bs ∧
     xdr_opaque_decode x cp cnt = Ret (true, bs ++ drop (length bs) cp, x') ∧ in_at x' 0 tl) ∨
  (∃ cp' x', xdr_opaque_decode x cp cnt = Ret (false, cp', x') ∧ length cp' = length cp).
Proof.
  intros Hx Hc. assert (Hb := in_at_bytes _ _ _ Hx). pose proof (padn_range cnt).
  destruct (Z_lt_le_dec (Zlen l) (cnt + padn cnt)) as [Hs|Hs].
  - right. unfold xdr_opaque_decode, padn, BYTES_PER_XDR_UNIT in *.
    destruct (Z.eqb_spec cnt 0) as [->|]; [len|].
    destruct (in_getbytes_any _ _ _ cnt Hx) as [(?&bs&x1&->&?)|(bs&tl&x1&->&Hbs&->&Hx1)]; [lia|..];
      simpl; unfold overlay; rewrite (proj2 (Nat.leb_le _ _)) by lia; simpl.
    + eexists _, _. split; [done|]. len.
    + rewrite land_3. destruct (Z.ltb_spec 0 (cnt mod 4)); [|len].
      destruct (in_getbytes_short _ _ _ (4 - cnt mod 4) Hx1) as (?&x2&->&_); [len|]. simpl.
      eexists _, _. split; [done|]. len.
  - left. exists (take (Z.to_nat cnt) l), (take (Z.to_nat (padn cnt)) (drop (Z.to_nat cnt) l)),
      (drop (Z.to_nat (padn cnt)) (drop (Z.to_nat cnt) l)).
    assert (Hn : Zlen (take (Z.to_nat cnt) l) = cnt) by len.
    destruct (opaque_decode_ok x cp (take (Z.to_nat cnt) l)
      (take (Z.to_nat (padn cnt)) (drop (Z.to_nat cnt) l))
      (drop (Z.to_nat (padn cnt)) (drop (Z.to_nat cnt) l))) as (x' & E & Hx');
      [by rewrite !take_drop|rewrite Hn; len|len|].
    rewrite Hn in E. exists x'. rewrite !take_drop. split_and!; auto using Forall_take. len.
Qed.

Lemma pad_wire_length bs : Zlen (pad_wire bs) = Zlen bs + padn (Zlen bs).
Proof.
  unfold pad_wire. rewrite Zlen_app, zeros_length; [done|]. apply padn_range.
Qed.

Lemma padded_pad_wire bs : padded bs (pad_wire bs).
Proof. eexists. split; [done|]. apply zeros_length, padn_range. Qed.

Lemma puts_opaque cp cnt : 0 ≤ cnt ≤ Zlen cp →
  puts (λ x, xdr_opaque_encode x cp cnt) (pad_wire (take (Z.to_nat cnt) cp)).
Proof.
  intros Hc. unfold xdr_opaque_encode, pad_wire, padn. rewrite length_take, Nat.min_l by lia.
  rewrite Z2Nat.id by lia.
  destruct (Z.eqb_spec cnt 0) as [->|]; [apply puts_done|].
  unfold read_bytes. rewrite (proj2 (Z.leb_le _ _)) by lia. simpl.
  apply puts_then; [apply puts_bytes|]. rewrite land_3. unfold BYTES_PER_XDR_UNIT, zeros.
  destruct (Z.ltb_spec 0 (cnt mod 4)).
  - replace (- cnt mod 4) with (4 - cnt mod 4) by lia. apply puts_bytes.
  - replace (- cnt mod 4) with 0 by lia. apply puts_done.
Qed.

Lemma puts_opaque_app bs tl : puts (λ x, xdr_opaque_encode x (bs ++ tl) (Zlen bs)) (pad_wire bs).
Proof.
  assert (E := puts_opaque (bs ++ tl) (Zlen bs)). rewrite take_app_exact in E by lia.
  apply E. len.
Qed.

Lemma puts_opaque_all bs : puts (λ x, xdr_opaque_encode x bs (Zlen bs)) (pad_wire bs).
Proof. assert (E := puts_opaque_app bs []). by rewrite app_nil_r in E. Qed.

#[global] Instance opaque_codec cnt : 0 ≤ cnt → Codec (xdr_opaque cnt) (opaque_spec cnt).
Proof.
  intros Hc. unfold opaque_spec; codec.
  - intros v [<- _]. eapply encodes_ext; [|eapply encodes_keep, puts_opaque_all].
    intros x Hop. unfold xdr_opaque. by rewrite Hop.
  - intros v [_ Hb]. by apply pad_wire_bytes.
  - intros v0 v [Hv ?] _. auto using padded_pad_wire.
  - intros v0 v w H0 (Hv & Hb & pad & -> & Hp) x tl Hx. unfold xdr_opaque.
    rewrite (in_at_decode _ _ _ Hx). rewrite <- app_assoc in Hx.
    destruct (opaque_decode_ok x v0 v pad tl Hx) as (x' & E & Hx'); [done|lia|].
    exists x'. rewrite <- Hv, E, drop_ge, app_nil_r by lia. done.
  - intros v0 H0 x l Hx. unfold xdr_opaque. rewrite (in_at_decode _ _ _ Hx).
    destruct (opaque_decode_any x v0 cnt l Hx) as [(bs&pad&tl&x'&->&Hbs&Hp&Hb&->&?)|(?&?&->&?)];
      [lia|left|right; eauto].
    exists (bs ++ drop (length bs) v0), (bs ++ pad), tl, x'.
    rewrite drop_ge, app_nil_r by lia. rewrite <- app_assoc. split_and!; auto.
    exists pad. by rewrite Hbs.
  - intros v _ x Hop. unfold xdr_opaque. by rewrite Hop.
Qed.

(** ** Counted bytes *)

(** Decoding into storage this call allocated: a buffer of exactly [cnt] bytes. *)
Lemma opaque_alloc_ok x bs pad tl :
  in_at x 0 (bs ++ pad ++ tl) → Zlen pad = padn (Zlen bs) →
  ∃ x', xdr_opaque_decode x (mem_alloc (Zlen bs)) (Zlen bs) = Ret (true, bs, x') ∧ in_at x' 0 tl.
Proof.
  intros Hx Hp. destruct (opaque_decode_ok x (mem_alloc (Zlen bs)) bs pad tl Hx Hp) as (x' & E & ?).
  - unfold mem_alloc. len.
  - exists x'. rewrite E, drop_ge, app_nil_r by (unfold mem_alloc; len). done.
Qed.

Lemma bytes_decode_eq maxsize n x :
  xdr_bytes_decode x (Pnull, n) maxsize =
    get_then (λ size x _,
      if maxsize <? size then Ret (false, (Pnull, n), x) else
      if size =? 0 then Ret (true, (Pnull, size), x) else
      let! (ret, sp, x) := xdr_opaque_decode x (mem_alloc size) size in
      if ret then Ret (true, (Pobj sp, size), x) else Ret (false, (Pnull, size), x)) x (Pnull, n).
Proof. done. Qed.

#[global] Instance bytes_codec maxsize :
  is_u 32 maxsize → Codec (xdr_bytes maxsize) (bytes_spec maxsize).
Proof.
  intros Hm. unfold is_u in Hm. unfold bytes_spec; codec.
  - intros v Hv.
    assert (Hpre : ∃ n bs, v = (match bs with [] => Pnull | _ => Pobj bs end, n) ∧ n = Zlen bs ∧
              n ≤ maxsize).
    { destruct Hv as [->|(bs & -> & ? & _)]; [exists 0, []|exists (Zlen bs), bs]; [auto with lia|].
      destruct bs; [len|]. auto with lia. }
    destruct Hpre as (n & bs & -> & -> & Hn). cbn [fst snd].
    assert (Hw : (match (match bs with [] => Pnull | _ => Pobj bs end) with
                  Pobj bs => pad_wire bs | _ => [] end) = pad_wire bs) by by destruct bs.
    rewrite Hw.
    eapply encodes_ext; [|eapply encodes_put; [apply puts_uint32|apply encodes_keep, puts_opaque_all]].
    intros x Hop. unfold xdr_bytes, xdr_bytes_encode. rewrite Hop.
    rewrite wrapu_id by (unfold is_u; lia). rewrite !(proj2 (Z.ltb_ge _ _)) by lia.
    destruct bs as [|b bs']; [|done]. simpl. by destruct (xdr_putuint32 x 0) as [[[] ?]| | |].
  - intros v [->|(bs & -> & _ & Hb)]; cbn [fst snd]; auto with ntirpc.
  - intros v0 v [->|(bs & -> & ?)] _; [left; by rewrite app_nil_r|right].
    destruct H. eauto 10 using padded_pad_wire.
  - intros [? n] v w Hf Hg. simpl in Hf. subst p.
    eapply decodes_ext; [intros x Hop; unfold xdr_bytes; rewrite Hop; apply bytes_decode_eq|].
    destruct Hg as [[-> ->]|(bs & w' & -> & Hn & Hb & (pad & -> & Hp) & ->)].
    + rewrite <- (app_nil_r (be32 0)). apply decodes_get; [by unfold is_u|].
      rewrite (proj2 (Z.ltb_ge _ _)) by lia. intros x tl Hx. eauto.
    + apply decodes_get; [unfold is_u; lia|]. intros x tl Hx.
      rewrite (proj2 (Z.ltb_ge _ _)), (proj2 (Z.eqb_neq _ _)) by lia. rewrite <- app_assoc in Hx.
      destruct (opaque_alloc_ok x bs pad tl Hx Hp) as (x' & -> & ?). simpl. eauto.
  - intros [? n] Hf. simpl in Hf. subst p.
    eapply decoded_ext; [intros x Hop; unfold xdr_bytes; rewrite Hop; apply bytes_decode_eq|].
    apply decoded_get; [done|]. intros u Hu. unfold is_u in Hu.
    destruct (Z.ltb_spec maxsize u); [by apply decoded_fail|].
    destruct (Z.eqb_spec u 0) as [->|]; [apply decoded_done; left; by rewrite app_nil_r|].
    intros x l Hx.
    destruct (opaque_decode_any x (mem_alloc u) u l Hx)
      as [(bs&pad&tl&x'&->&<-&Hp&Hb&->&?)|(?&x'&->&_)]; [unfold mem_alloc; len|left|].
    2: { right. simpl. by exists (Pnull, u), x'. }
    simpl. rewrite drop_ge, app_nil_r by (unfold mem_alloc; len).
    exists (Pobj bs, Zlen bs), (bs ++ pad), tl, x'. rewrite <- app_assoc. split_and!; try done.
    right. exists bs, (bs ++ pad). split_and!; try done; try lia. by exists pad.
  - intros v0 v w _ [[-> _]|(bs & w' & -> & _)]; done.
  - by intros [p n] ->.
  - intros [p n] Hl x Hop. unfold xdr_bytes, xdr_bytes_free. rewrite Hop. by destruct p.
Qed.

(** ** Strings *)

Lemma cstr_split s : ∃ s' tl, s ++ [0] = s' ++ 0 :: tl ∧ nonul s'.
Proof.
  induction s as [|b s (s' & tl & E & Hn)]; [exists [], []; split; [done|constructor]|].
  destruct (decide (b = 0)) as [->|Hb]; [exists [], (s ++ [0]); split; [done|constructor]|].
  exists (b :: s'), tl. simpl. rewrite E. split; [done|by constructor].
Qed.

Lemma string_encodes maxsize s : is_u 32 maxsize → nonul s → Zlen s ≤ maxsize →
  Zlen s + 1 < 2 ^ 32 →
  encodes (xdr_string maxsize) (Pobj (s ++ [0])) (be32 (Zlen s) ++ pad_wire s).
Proof.
  intros Hm Hs Hl Hl'. unfold is_u in Hm.
  eapply encodes_ext;
    [|eapply encodes_put; [apply puts_uint32|apply encodes_keep, (puts_opaque_app s [0])]].
  intros x Hop. unfold xdr_string, xdr_string_encode. rewrite Hop.
  cbn [is_null deref obind]. rewrite cstr_app by done. cbn [access obind].
  rewrite (wrapu_id 32 (Zlen s)) by (unfold is_u; lia).
  rewrite (wrapu_id 32), (wrapu_id 64) by (unfold is_u; lia).
  by rewrite !(proj2 (Z.ltb_ge _ _)) by lia.
Qed.

Lemma poke_end sp x : poke (sp ++ [x]) (Zlen sp) 0 = Ret (sp ++ [0]).
Proof.
  unfold poke. rewrite (proj2 (Z.ltb_lt _ _)) by len.
  by rewrite Nat2Z.id, insert_app_r_alt, Nat.sub_diag by lia.
Qed.

(** Storage for [n] bytes and a terminator, filled with [bs]. *)
Lemma alloc_fill bs : bs ++ drop (length bs) (mem_alloc (Zlen bs + 1)) = bs ++ [undef_byte].
Proof.
  unfold mem_alloc. rewrite drop_replicate. by replace (_ - _)%nat with 1%nat by lia.
Qed.

Lemma string_decode_eq maxsize x :
  xdr_string_decode maxsize x Pnull =
    get_then (λ size x _,
      if maxsize <? size then Ret (false, Pnull, x) else
      if size =? UINT32_MAX then Ret (false, Pnull, x) else
      let! (ret, sp, x) := xdr_opaque_decode x (mem_alloc (u32 (size + 1))) size in
      if negb ret then Ret (false, Pnull, x) else
      let! sp := poke sp size 0 in Ret (true, Pobj sp, x)) x Pnull.
Proof. done. Qed.

(** A limit of [UINT32_MAX] leaves no room for the terminator. *)
Lemma string_codec_lim maxsize lim :
  is_u 32 maxsize → lim = Z.min maxsize (UINT32_MAX - 1) →
  Codec (xdr_string maxsize) (string_spec lim).
Proof.
  unfold is_u, UINT32_MAX. intros Hm Hm'. unfold string_spec; codec.
  - intros v (s & -> & ? & ? & ?). rewrite removelast_last.
    apply string_encodes; try done; lia.
  - intros v (s & -> & _ & Hb & _). rewrite removelast_last. auto with ntirpc.
  - intros v0 v (s & -> & ? & ? & ?) _. exists s, (pad_wire s). rewrite removelast_last.
    auto using padded_pad_wire.
  - intros v0 v w -> (s & w' & -> & Hb & Hl & (pad & -> & Hp) & ->).
    eapply decodes_ext; [intros x Hop; unfold xdr_string; rewrite Hop; apply string_decode_eq|].
    apply decodes_get; [unfold is_u; lia|]. intros x tl Hx.
    rewrite (proj2 (Z.ltb_ge _ _)), (proj2 (Z.eqb_neq _ _)) by (unfold UINT32_MAX; lia).
    rewrite wrapu_id by (unfold is_u; lia). rewrite <- app_assoc in Hx.
    destruct (opaque_decode_ok x (mem_alloc (Zlen s + 1)) s pad tl Hx Hp) as (x' & -> & ?);
      [unfold mem_alloc; len|]. simpl.
    rewrite alloc_fill, poke_end. simpl. eauto.
  - intros v0 ->.
    eapply decoded_ext; [intros x Hop; unfold xdr_string; rewrite Hop; apply string_decode_eq|].
    apply decoded_get; [auto|]. intros u Hu. unfold is_u in Hu.
    destruct (Z.ltb_spec maxsize u); [apply decoded_fail; auto|].
    destruct (Z.eqb_spec u UINT32_MAX); [apply decoded_fail; auto|]. unfold UINT32_MAX in *.
    rewrite wrapu_id by (unfold is_u; lia). intros x l Hx.
    destruct (opaque_decode_any x (mem_alloc (u + 1)) u l Hx)
      as [(s&pad&tl&x'&->&<-&Hp&Hb&->&?)|(?&x'&->&_)]; [unfold mem_alloc; len|left|].
    2: { right. simpl. exists Pnull, x'. auto. }
    simpl. rewrite alloc_fill, poke_end. simpl.
    exists (Pobj (s ++ [0])), (s ++ pad), tl, x'. rewrite <- app_assoc. split_and!; try done.
    exists s, (s ++ pad). split_and!; try done; [lia|]. by exists pad.
  - intros v0 v w _ (s & w' & -> & _). right. destruct (cstr_split s) as (s' & tl & -> & ?). eauto.
  - intros v [->|(s & tl & -> & Hs)] x Hop; unfold xdr_string, xdr_string_free; rewrite Hop; [done|].
    simpl. by rewrite cstr_app.
Qed.

#[global] Instance string_codec maxsize :
  is_u 32 maxsize → maxsize < UINT32_MAX → Codec (xdr_string maxsize) (string_spec maxsize).
Proof. intros. apply string_codec_lim; [done|]. lia. Qed.

#[global] Instance string_codec_max :
  Codec (xdr_string UINT32_MAX) (string_spec (UINT32_MAX - 1)).
Proof. apply string_codec_lim; [by vm_compute|done]. Qed.

(** ** Vectors and arrays *)

Section Elements.
Context {T : Type} (f : xdrproc P T) (S : spec T) (zero : T).
Context {C : Codec f S} (Hzero : fresh S zero).

(** One iteration of the loop is two fields: the first element and the others. *)
Lemma elem_loop_S n x e l :
  elem_loop f (Datatypes.S n) x (e :: l) =
    xdr_and (xdr_field (λ l, hd e l) (λ a l, a :: tail l) f)
            (xdr_field tail (λ a l, hd e l :: a) (elem_loop f n)) x (e :: l).
Proof. unfold xdr_and, xdr_field. simpl. by destruct (f x e) as [[[[] ?] ?]| | |]. Qed.

Lemma elem_loop_encodes l :
  Forall (wf S) l → encodes (elem_loop f (length l)) l (concat (wire S <$> l)).
Proof.
  induction 1 as [|e l He Hl IH]; [apply encodes_done|].
  eapply encodes_ext; [intros x _; apply elem_loop_S|].
  apply encodes_and; apply encodes_field; try done. by apply cd_encodes.
Qed.

Lemma elem_loop_decodes l w :
  gots S zero l w → decodes (elem_loop f (length l)) (replicate (length l) zero) w l.
Proof.
  induction 1 as [|e w l ws He Hl IH]; [apply decodes_done|].
  eapply decodes_ext; [intros x _; apply elem_loop_S|].
  eapply decodes_and; eapply decodes_field; [by eapply cd_decodes|done|exact IH|done].
Qed.

Lemma elem_loop_decoded n :
  decoded (elem_loop f n) (replicate n zero)
    (λ l w, length l = n ∧ gots S zero l w) (λ l, length l = n ∧ Forall (live S) l).
Proof.
  induction n as [|n IH]; [by apply (decoded_done []); split; [|constructor]|].
  assert (Forall (live S) (replicate n zero)) as Hlz
    by (apply Forall_replicate; by apply cd_fresh_live).
  eapply decoded_ext; [intros x _; apply elem_loop_S|].
  eapply (decoded_and _ _ _ (λ l w, ∃ e, l = e :: replicate n zero ∧ got S zero e w)).
  - eapply decoded_field; [by apply cd_decoded|by eauto|].
    intros a Ha. simpl. rewrite length_replicate. auto.
  - intros ? w1 (e & -> & He). eapply decoded_field; [exact IH|..].
    + intros l w [<- Hg]. split; [done|]. by constructor.
    + intros l [<- Hl]. split; [done|]. constructor; [|done]. by eapply cd_live.
Qed.

Lemma elem_loop_frees l :
  Forall (live S) l → frees (elem_loop f (length l)) l (freed S <$> l).
Proof.
  induction 1 as [|e l He Hl IH]; [by intros x Hx|]. intros x Hx. simpl length.
  rewrite elem_loop_S. revert x Hx.
  eapply frees_and; eapply frees_field; [by apply cd_frees|done|exact IH|done].
Qed.

Lemma gots_wire l : Forall (wf S) l → gots S zero l (concat (wire S <$> l)).
Proof. induction 1; simpl; constructor; [by apply cd_canon|done]. Qed.

Lemma gots_live l w : gots S zero l w → Forall (live S) l.
Proof. induction 1; constructor; [by eapply cd_live|done]. Qed.

(** *** Counted arrays *)

Context (maxsize selem : Z) (Hmax : is_u 32 maxsize) (Hselem : 0 < selem)
        (Hfit : maxsize ≤ UINT32_MAX / selem).

Lemma zalloc_array_all n : 0 ≤ n ≤ maxsize → zalloc_array zero n selem = replicate (Z.to_nat n) zero.
Proof.
  intros Hn. unfold zalloc_array, UINT32_MAX in *.
  assert (n * selem ≤ 2 ^ 32 - 1).
  { etransitivity; [apply Z.mul_le_mono_nonneg_r; [lia|]; transitivity maxsize; [lia|exact Hfit]|].
    rewrite Z.mul_comm. apply Z.mul_div_le. lia. }
  rewrite wrapu_id by (unfold is_u; nia). by rewrite Z.div_mul by lia.
Qed.

Lemma array_decode_eq n x : x_op x = XDR_DECODE →
  xdr_array zero maxsize selem f x (Pnull, n) =
    get_then (λ size x _,
      if maxsize <? size then Ret (false, (Pnull, n), x) else
      if size =? 0 then Ret (true, (Pnull, size), x) else
      let! (stat, l, x) := elem_loop f (Z.to_nat size) x (zalloc_array zero size selem) in
      Ret (stat, (Pobj l, size), x)) x (Pnull, n).
Proof.
  intros Hop. unfold xdr_array, xdr_array_decode. rewrite Hop.
  rewrite (proj2 (Z.eqb_neq selem 0)), (proj2 (Z.ltb_ge _ _)) by lia. done.
Qed.

Lemma array_encodes l : Forall (wf S) l → Zlen l ≤ maxsize → l ≠ [] →
  encodes (xdr_array zero maxsize selem f) (Pobj l, Zlen l)
    (be32 (Zlen l) ++ concat (wire S <$> l)).
Proof.
  intros Hl Hn Hne. unfold is_u in Hmax. assert (0 < Zlen l) by (destruct l; [done|simpl; lia]).
  eapply encodes_ext; [|eapply encodes_put; [apply puts_uint32|]].
  2: { eapply (encodes_field fst (λ a v, (a, snd v)));
         [|by reflexivity].
       eapply (encodes_field (λ p, match p with Pobj l => l | _ => [] end) (λ l _, Pobj l));
         [|by reflexivity]. by apply elem_loop_encodes. }
  intros x Hop. unfold xdr_array, xdr_array_encode. rewrite Hop.
  rewrite wrapu_id by (unfold is_u; lia). rewrite !(proj2 (Z.ltb_ge _ _)) by lia.
  rewrite (proj2 (Z.eqb_neq _ 0)), Nat2Z.id by lia. simpl. unfold xdr_field. simpl.
  destruct (xdr_putuint32 x _) as [[[] x1]| | |]; try done. simpl.
  by destruct (elem_loop f (length l) x1 l) as [[[? ?] ?]| | |].
Qed.

Lemma array_decodes n v w :
  got (array_spec maxsize S zero) (Pnull, n) v w →
  decodes (xdr_array zero maxsize selem f) (Pnull, n) w v.
Proof.
  intros Hg. unfold is_u in Hmax.
  eapply decodes_ext; [intros x Hop; by apply array_decode_eq|].
  destruct Hg as [[-> ->]|(l & w' & -> & Hn & Hl & ->)].
  - rewrite <- (app_nil_r (be32 0)). apply decodes_get; [by unfold is_u|].
    rewrite (proj2 (Z.ltb_ge _ _)) by lia. intros x tl Hx. eauto.
  - apply decodes_get; [unfold is_u; lia|]. intros x tl Hx.
    rewrite (proj2 (Z.ltb_ge _ _)), (proj2 (Z.eqb_neq _ _)) by lia.
    rewrite zalloc_array_all, Nat2Z.id by lia.
    destruct (elem_loop_decodes l w' Hl x tl Hx) as (x' & -> & ?). simpl. eauto.
Qed.

Lemma array_decoded n :
  decoded (xdr_array zero maxsize selem f) (Pnull, n)
    (got (array_spec maxsize S zero) (Pnull, n)) (live (array_spec maxsize S zero)).
Proof.
  unfold is_u in Hmax. eapply decoded_ext; [intros x Hop; by apply array_decode_eq|].
  apply decoded_get; [by left|]. intros u Hu. unfold is_u in Hu.
  destruct (Z.ltb_spec maxsize u); [apply decoded_fail; by left|].
  destruct (Z.eqb_spec u 0) as [->|]; [apply decoded_done; left; by rewrite app_nil_r|].
  rewrite zalloc_array_all by lia. intros x l Hx.
  destruct (elem_loop_decoded (Z.to_nat u) x l Hx)
    as [(vs & w & tl & x' & -> & [Hn Hg] & -> & Hx')|(vs & x' & [Hn Hl] & ->)]; simpl.
  - left. exists (Pobj vs, u), w, tl, x'. split_and!; try done.
    right. exists vs, w. replace (Zlen vs) with u by lia. split_and!; try done; lia.
  - right. eexists _, _. split; [|done]. right. exists vs. split; [|done]. do 2 f_equal; lia.
Qed.

#[global] Instance array_codec : Codec (xdr_array zero maxsize selem f) (array_spec maxsize S zero).
Proof.
  constructor.
  - intros v [->|(l & -> & Hn & Hl)]; [|apply array_encodes; auto with lia].
    + cbn [wire array_spec fst snd]. unfold is_u in Hmax.
      eapply encodes_ext; [|eapply encodes_put; [apply puts_uint32|apply encodes_done]].
      intros x Hop. unfold xdr_array, xdr_array_encode. rewrite Hop.
      by rewrite !(proj2 (Z.ltb_ge _ _)) by lia.
    + intros ->. simpl in Hn. lia.
  - intros v [->|(l & -> & _ & Hl)]; cbn [wire array_spec fst snd]; apply bytes_be32_app; [done|].
    induction Hl; cbn; [done|]. apply bytes_app. split; [by eapply cd_bytes|done].
  - intros v0 v [->|(l & -> & Hn & Hl)] _; [left; split; [done|apply app_nil_r]|right].
    exists l, (concat (wire S <$> l)). auto using gots_wire.
  - intros [p n] v w Hf Hg. cbn in Hf. subst p. by apply array_decodes.
  - intros [p n] Hf. cbn in Hf. subst p. apply array_decoded.
  - intros v0 v w Hf [[-> _]|(l & w' & -> & Hn & Hg & _)]; [by left|right].
    exists l. split; [done|]. by eapply gots_live.
  - by left.
  - intros [p n] [Hp|(l & [= -> ->] & Hl)] x Hop; unfold xdr_array, xdr_array_free; rewrite Hop.
    + simpl in Hp. by subst p.
    + simpl. rewrite Nat2Z.id. by rewrite elem_loop_frees.
  - by left.
Qed.
End Elements.

(** ** Pointers *)

Section Pointer.
Context {T : Type} (f : xdrproc P T) (S : spec T) (zero : T).
Context {C : Codec f S} (Hzero : fresh S zero).

(** The present object behind a pointer, as a field of it. *)
Abbreviation obj a := (λ p, match p with Pobj b => b | _ => a end).

Lemma reference_obj x a : x_op x ≠ XDR_FREE →
  xdr_reference zero f x (Pobj a) = xdr_field (obj a) (λ b _, Pobj b) f x (Pobj a).
Proof.
  intros Hop. unfold xdr_reference, xdr_field. simpl.
  by destruct (x_op x), (f x a) as [[[? ?] ?]| | |].
Qed.

Lemma reference_null x : x_op x = XDR_DECODE →
  xdr_reference zero f x Pnull = xdr_field (obj zero) (λ b _, Pobj b) f x Pnull.
Proof.
  intros Hop. unfold xdr_reference, xdr_field. rewrite Hop. simpl.
  by destruct (f x zero) as [[[? ?] ?]| | |].
Qed.

Lemma pointer_frees a : live S a → frees (xdr_pointer zero f) (Pobj a) Pnull.
Proof.
  intros Ha x Hop. unfold xdr_pointer, xdr_bool. rewrite Hop. simpl. rewrite Hop.
  by rewrite (cd_frees a Ha x Hop).
Qed.

Lemma pointer_encodes_null : encodes (xdr_pointer zero f) Pnull (be32 0).
Proof.
  eapply encodes_ext; [|eapply (encodes_keep (λ x, xdr_putuint32 x 0)), puts_uint32].
  intros x Hop. unfold xdr_pointer, xdr_bool. rewrite Hop. unfold keep, xdr_putbool. simpl.
  change (xdr_putint32 x XDR_FALSE) with (xdr_putuint32 x 0).
  by destruct (xdr_putuint32 x 0) as [[[] ?]| | |].
Qed.

Lemma pointer_encodes_obj a :
  wf S a → encodes (xdr_pointer zero f) (Pobj a) (be32 1 ++ wire S a).
Proof.
  intros Ha.
  eapply encodes_ext;
    [|eapply (encodes_put (λ x, xdr_putuint32 x 1) (xdr_reference zero f)); [apply puts_uint32|]].
  - intros x Hop. unfold xdr_pointer, xdr_bool. rewrite Hop. unfold keep, xdr_putbool. simpl.
    change (xdr_putint32 x XDR_TRUE) with (xdr_putuint32 x 1).
    by destruct (xdr_putuint32 x 1) as [[[] ?]| | |].
  - eapply encodes_ext; [intros x Hop; apply reference_obj; by rewrite Hop|].
    eapply encodes_field; [by apply cd_encodes|done].
Qed.

Lemma pointer_decode_eq x : x_op x = XDR_DECODE →
  xdr_pointer zero f x Pnull =
    get_then (λ u x p, if truth (s32 u) =? 0 then Ret (true, Pnull, x)
                       else xdr_reference zero f x p) x Pnull.
Proof.
  intros Hop. unfold xdr_pointer, xdr_bool, xdr_getbool, xdr_getint32, get_then, fetch.
  rewrite Hop. by destruct (xdr_getuint32 x) as [[[u|] ?]| | |].
Qed.

Lemma truth_eqb u : is_u 32 u → (truth (s32 u) =? 0) = (u =? 0).
Proof. intros Hu. rewrite truth_s32 by done. unfold truth. by destruct (Z.eqb_spec u 0). Qed.

#[global] Instance pointer_codec : Codec (xdr_pointer zero f) (pointer_spec S zero).
Proof.
  constructor.
  - intros [|a|] Hv; [apply pointer_encodes_null|by apply pointer_encodes_obj|done].
  - intros [|a|] Hv; [apply be32_bytes|apply bytes_be32_app; by eapply cd_bytes|done].
  - intros v0 [|a|] Hv _; [by left|right|done].
    exists a, 1, (wire S a). split_and!; try done. by apply cd_canon.
  - intros v0 v w Hf Hg. cbn in Hf. subst v0.
    eapply decodes_ext; [intros; by apply pointer_decode_eq|].
    destruct Hg as [[-> ->]|(a & u & w' & -> & Hu & Hne & Hg & ->)].
    + rewrite <- (app_nil_r (be32 0)). apply decodes_get; [by unfold is_u|]. apply decodes_done.
    + apply decodes_get; [done|]. rewrite truth_eqb, (proj2 (Z.eqb_neq _ _)) by done.
      eapply decodes_ext; [intros; by apply reference_null|].
      eapply decodes_field; [by eapply cd_decodes|done].
  - intros v0 Hf. cbn in Hf. subst v0.
    eapply decoded_ext; [intros; by apply pointer_decode_eq|].
    apply decoded_get; [done|]. intros u Hu. rewrite truth_eqb by done.
    destruct (Z.eqb_spec u 0) as [->|]; [apply decoded_done; by left|].
    eapply decoded_ext; [intros; by apply reference_null|].
    eapply decoded_field; [by apply cd_decoded| |done].
    intros a w Ha. right. eauto 10.
  - intros v0 v w Hf [[-> _]|(a & u & w' & -> & _ & _ & Hg & _)]; [done|].
    exact (cd_live zero a w' Hzero Hg).
  - by intros v0 ->.
  - intros [|a|] Ha; [|by apply pointer_frees|done].
    intros x Hop. unfold xdr_pointer, xdr_bool. by rewrite Hop.
  - done.
Qed.
End Pointer.

(** ** Discriminated unions *)

(** The arm a discriminant selects. *)
Fixpoint union_pick {T} (choices : list (Z * xdrproc P T)) (dfault : option (xdrproc P T))
    (dscm : Z) : option (xdrproc P T) :=
  match choices with
  | (value, proc) :: choices =>
      if value =? dscm then Some proc else union_pick choices dfault dscm
  | [] => dfault
  end.

Lemma union_loop_pick {T} choices dfault dscm (u : T) x :
  union_loop x dscm u choices dfault =
    match union_pick choices dfault dscm with
    | Some proc => proc x u
    | None => Ret (false, u, x)
    end.
Proof.
  induction choices as [|[v p] choices IH]; simpl; [by destruct dfault|].
  by destruct (v =? dscm).
Qed.

Lemma union_fields {T} choices dfault (d : Z) (u : T) x :
  xdr_union choices dfault x (d, u) =
    xdr_and (xdr_field fst (λ a p, (a, p.2)) xdr_enum)
      (λ x p, match union_pick choices dfault p.1 with
              | Some proc => xdr_field snd (λ a p, (p.1, a)) proc x p
              | None => Ret (false, p, x)
              end) x (d, u).
Proof.
  unfold xdr_union, xdr_and, xdr_field. cbn.
  destruct (xdr_enum x d) as [[[[] d'] x']| | |]; [|done..]. cbn. rewrite union_loop_pick.
  by destruct (union_pick choices dfault d').
Qed.

Lemma union_encodes {T} choices dfault d (u : T) proc w :
  is_s 32 d → union_pick choices dfault d = Some proc → encodes proc u w →
  encodes (xdr_union choices dfault) (d, u) (be32 d ++ w).
Proof.
  intros Hd Hp He. eapply encodes_ext; [intros x _; apply union_fields|].
  apply encodes_and.
  - apply encodes_field; [|done]. by apply (cd_encodes (S := int32_spec)).
  - eapply encodes_ext; [|by eapply (encodes_field snd (λ a p, (p.1, a)))].
    intros x _. cbn. by rewrite Hp.
Qed.

Lemma union_decodes {T} choices dfault d d0 (u0 u : T) proc w :
  is_u 32 d → union_pick choices dfault (s32 d) = Some proc → decodes proc u0 w u →
  decodes (xdr_union choices dfault) (d0, u0) (be32 d ++ w) (s32 d, u).
Proof.
  intros Hd Hp He. eapply decodes_ext; [intros x _; apply union_fields|].
  eapply decodes_and.
  - eapply decodes_field; [|done]. apply (cd_decodes (S := int32_spec)); [done|]. by exists d.
  - eapply decodes_ext; [|by eapply (decodes_field snd (λ a p, (p.1, a)))].
    intros x _. cbn. by rewrite Hp.
Qed.

(** A discriminant with no arm and no default is refused. *)
Lemma union_refuses {T} choices d d0 (u0 : T) x tl :
  is_u 32 d → union_pick choices None (s32 d) = None → in_at x 0 (be32 d ++ tl) →
  ∃ x', xdr_union choices None x (d0, u0) = Ret (false, (s32 d, u0), x').
Proof.
  intros Hd Hp Hx. rewrite union_fields. unfold xdr_and, xdr_field. cbn.
  destruct (cd_decodes (f := xdr_enum) (S := int32_spec) d0 (s32 d) (be32 d)) with x tl
    as (x' & -> & _); [done|by exists d|done|]. cbn. rewrite Hp. eauto.
Qed.
End Codecs.
