(* ===== verification/XdrStruct.v ===== *)
(** * Codecs of structures and linked lists

    A structure is the tuple of its fields ([xdr_pair], [struct_codec]); a chain
    of heap nodes reached through a pointer is the list of their contents
    ([xdr_nodes]).  Protocols.v instantiates both. *)
From stdpp Require Import base gmap list.
From Stdlib Require Import ZArith Lia.
From S2P Require Import Prelude Machine XdrHandle XdrStream XdrInline XdrWire XdrCodecs.

(** ** Specifications *)

Definition pair_spec {A B} (S1 : spec A) (S2 : spec B) : spec (A * B) :=
  {| wire p := wire S1 p.1 ++ wire S2 p.2;
     wf p := wf S1 p.1 ∧ wf S2 p.2;
     fresh p := fresh S1 p.1 ∧ fresh S2 p.2;
     got p0 p w := ∃ w1 w2, w = w1 ++ w2 ∧ got S1 p0.1 p.1 w1 ∧ got S2 p0.2 p.2 w2;
     live p := live S1 p.1 ∧ live S2 p.2;
     freed p := (freed S1 p.1, freed S2 p.2) |}.

(** A record [R] and the tuple [T] of its fields. *)
Definition struct_spec {R T} (to : R → T) (from : T → R) (S : spec T) : spec R :=
  {| wire r := wire S (to r);
     wf r := wf S (to r);
     fresh r := fresh S (to r);
     got r0 r w := got S (to r0) (to r) w;
     live r := live S (to r);
     freed r := from (freed S (to r)) |}.

(** The nodes of a list, each after a true boolean, and a false boolean. *)
Fixpoint nodes_wire {T} (S : spec T) (l : list T) : list Z :=
  match l with
  | [] => be32 0
  | a :: l => be32 1 ++ wire S a ++ nodes_wire S l
  end.

Inductive nodes_got {T} (S : spec T) (zero : T) : list T → list Z → Prop :=
| nodes_got_nil : nodes_got S zero [] (be32 0)
| nodes_got_cons u a w l ws :
    is_u 32 u → u ≠ 0 → got S zero a w → nodes_got S zero l ws →
    nodes_got S zero (a :: l) (be32 u ++ w ++ ws).

Definition nodes_spec {T} (S : spec T) (zero : T) : spec (list T) :=
  {| wire := nodes_wire S;
     wf := Forall (wf S);
     fresh l := l = [];
     got _ := nodes_got S zero;
     live := Forall (live S);
     freed _ := [] |}.

(** ** Structures *)

Section Struct.
Context {P : Type} {O : XdrOps P}.

(** The two fields of a pair in order. *)
Definition xdr_pair {A B} (f : xdrproc P A) (g : xdrproc P B) : xdrproc P (A * B) :=
  xdr_and (xdr_field fst (λ a p, (a, p.2)) f) (xdr_field snd (λ b p, (p.1, b)) g).

Context {I : XdrInput P} {W : XdrOutput P}.

#[global] Instance pair_codec {A B} (f : xdrproc P A) (g : xdrproc P B) S1 S2 :
  Codec f S1 → Codec g S2 → Codec (xdr_pair f g) (pair_spec S1 S2).
Proof.
  intros C1 C2. codec.
  - intros [a b] [Ha Hb]. cbn in *. apply encodes_and; apply encodes_field; try done;
      by apply cd_encodes.
  - intros [a b] [Ha Hb]. apply bytes_app. split; by eapply cd_bytes.
  - intros p0 p [Ha Hb] [Ha0 Hb0]. do 2 eexists. split_and!; [done|by apply cd_canon..].
  - intros [a0 b0] [a b] w [Ha Hb] (w1 & w2 & -> & H1 & H2). cbn in *. eapply decodes_and.
    + eapply decodes_field; [by eapply (cd_decodes a0)|done].
    + eapply decodes_field; [by eapply (cd_decodes b0)|done].
  - intros [a0 b0] [Ha Hb]. cbn in *.
    eapply (decoded_and _ _ _ (λ p w, got S1 a0 p.1 w ∧ p.2 = b0)).
    + eapply decoded_field; [by apply cd_decoded|done|].
      intros a ?. split; [done|by eapply cd_fresh_live].
    + intros [a b] w1 [Hg Hp]. cbn in *. subst b.
      eapply decoded_field; [by apply (cd_decoded b0)|cbn; eauto 10|].
      intros b ?. split; [by eapply cd_live|done].
  - intros p0 p w [Ha Hb] (w1 & w2 & _ & H1 & H2). split; by eapply cd_live.
  - intros p0 [? ?]. split; by eapply cd_fresh_live.
  - intros [a b] [Ha Hb]. eapply frees_and.
    + eapply frees_field; [by apply cd_frees|done].
    + eapply frees_field; [by apply cd_frees|done].
  - intros [a b] [Ha Hb]. split; by eapply cd_freed.
Qed.

(** A filter that works through the fields of [R] in the order of the tuple. *)
Lemma struct_codec {R T} (to : R → T) (from : T → R) (f : xdrproc P R) (g : xdrproc P T) S :
  Codec g S → (∀ r, from (to r) = r) → (∀ t, to (from t) = t) →
  (∀ x r, f x r = let! (b, t, x) := g x (to r) in Ret (b, from t, x)) →
  Codec f (struct_spec to from S).
Proof.
  intros C Hft Htf Hf. assert (Hfield : ∀ x r, f x r = xdr_field to (λ t _, from t) g x r) by done.
  unfold struct_spec; codec.
  - intros r Hr. eapply encodes_ext; [intros; apply Hfield|].
    apply encodes_field; [by apply cd_encodes|done].
  - intros r. by eapply cd_bytes.
  - intros r0 r. by eapply cd_canon.
  - intros r0 r w H0 Hg. eapply decodes_ext; [intros; apply Hfield|].
    eapply decodes_field; [by eapply cd_decodes|done].
  - intros r0 H0. eapply decoded_ext; [intros; apply Hfield|].
    eapply decoded_field; [by apply cd_decoded|by intros; rewrite Htf..].
  - intros r0 r w. by eapply cd_live.
  - intros r0. by eapply cd_fresh_live.
  - intros r Hr x Hop. rewrite Hfield. unfold xdr_field.
    by rewrite (cd_frees (to r) Hr x Hop).
  - intros r Hr. rewrite Htf. by eapply cd_freed.
Qed.
End Struct.

(** ** Linked lists *)

Section Nodes.
Context {P : Type} {O : XdrOps P} {T : Type} (zero : T) (proc : xdrproc P T).
Context (copies : bool).

(** The pointer to the first node of a chain. *)
Definition head_ptr (rp : list T) : ptr T :=
  match rp with [] => Pnull | a :: _ => Pobj a end.

(** The body of the loop of xdr_pmaplist, xdr_rpcblist_ptr and
    xdr_rpcb_entry_list_ptr once there is a node.  When decoding the node is
    allocated zeroed, so its link is NULL.  When freeing, the loop goes on from a
    copy of the link made before the node was released ([copies]), or from the
    address of the link inside the node, which is then read after its release. *)
Definition node_step (loop : xdrproc P (list T)) : xdrproc P (list T) := λ xdrs rp,
  let! (b, p, xdrs) := xdr_reference zero proc xdrs (head_ptr rp) in
  match p with
  | Pobj a =>
      if negb b then Ret (false, a :: tail rp, xdrs) else
      let! (b, next, xdrs) := loop xdrs (tail rp) in Ret (b, a :: next, xdrs)
  | _ =>
      if negb b then Ret (false, [], xdrs) else
      if negb copies then Ub else
      let! (b, next, xdrs) := loop xdrs (tail rp) in Ret (b, [], xdrs)
  end.

Fixpoint nodes_loop (fuel : nat) (xdrs : XDR P) (rp : list T) : out (bool * list T * XDR P) :=
  match fuel with
  | 0%nat => OutOfFuel
  | S fuel =>
      let more_elements := if is_null (head_ptr rp) then 0 else 1 in
      let! (b, more_elements, xdrs) := xdr_bool xdrs more_elements in
      if negb b then Ret (false, rp, xdrs) else
      if more_elements =? 0 then Ret (true, rp, xdrs) else
      node_step (nodes_loop fuel) xdrs rp
  end.

(** A decoded node takes at least one byte of memory, an encoded or released one
    is in the list. *)
Definition xdr_nodes : xdrproc P (list T) := λ xdrs rp,
  nodes_loop (S (size (x_mem xdrs) + length rp)) xdrs rp.

Context {I : XdrInput P} {W : XdrOutput P} (S : spec T).
Context {C : Codec proc S} (Hzero : fresh S zero).

(** The first node and the rest of a list, as fields of it. *)
Abbreviation hd a := (λ p : list T, match p with b :: _ => b | [] => a end).
Abbreviation node_fields a loop :=
  (xdr_and (xdr_field (hd a) (λ b p, b :: tail p) proc)
           (xdr_field tail (λ q p, hd a p :: q) loop)).

Lemma node_step_encode loop a l x : x_op x = XDR_ENCODE →
  node_step loop x (a :: l) = node_fields a loop x (a :: l).
Proof.
  intros Hop. unfold node_step, xdr_reference, xdr_and, xdr_field. rewrite Hop. simpl.
  by destruct (proc x a) as [[[[] ?] ?]| | |].
Qed.

Lemma node_step_decode loop x : x_op x = XDR_DECODE →
  node_step loop x [] = node_fields zero loop x [].
Proof.
  intros Hop. unfold node_step, xdr_reference, xdr_and, xdr_field. rewrite Hop. simpl.
  by destruct (proc x zero) as [[[[] ?] ?]| | |].
Qed.

Lemma nodes_encodes n l :
  (length l < n)%nat → Forall (wf S) l → encodes (nodes_loop n) l (nodes_wire S l).
Proof.
  intros Hn Hl. revert n Hn. induction Hl as [|a l Ha Hl IH]; intros [|n] Hn; simpl in Hn; try lia.
  - eapply encodes_ext; [|eapply (encodes_keep (λ x, xdr_putuint32 x 0)), puts_uint32].
    intros x Hop. simpl. unfold xdr_bool. rewrite Hop. unfold keep, xdr_putbool. simpl.
    change (xdr_putint32 x XDR_FALSE) with (xdr_putuint32 x 0).
    by destruct (xdr_putuint32 x 0) as [[[] ?]| | |].
  - eapply encodes_ext; [|eapply (encodes_put (λ x, xdr_putuint32 x 1)
      (node_step (nodes_loop n))); [apply puts_uint32|]].
    + intros x Hop. simpl. unfold xdr_bool. rewrite Hop. unfold keep, xdr_putbool. simpl.
      change (xdr_putint32 x XDR_TRUE) with (xdr_putuint32 x 1).
      by destruct (xdr_putuint32 x 1) as [[[] ?]| | |].
    + eapply encodes_ext; [intros; by apply node_step_encode|].
      apply encodes_and; (apply encodes_field; [|done]); [by apply cd_encodes|].
      apply IH. lia.
Qed.

Lemma nodes_decode_eq n x : x_op x = XDR_DECODE →
  nodes_loop (Datatypes.S n) x [] =
    get_then (λ u x p, if truth (s32 u) =? 0 then Ret (true, p, x)
                       else node_step (nodes_loop n) x p) x [].
Proof.
  intros Hop. cbn [nodes_loop]. unfold xdr_bool, xdr_getbool, xdr_getint32, get_then, fetch.
  rewrite Hop. by destruct (xdr_getuint32 x) as [[[u|] ?]| | |].
Qed.

Lemma nodes_decodes n l w :
  (length l < n)%nat → nodes_got S zero l w → decodes (nodes_loop n) [] w l.
Proof.
  intros Hn Hg. revert n Hn.
  induction Hg as [|u a w l ws Hu Hne Ha Hg IH]; intros [|n] Hn; simpl in Hn; try lia;
    (eapply decodes_ext; [intros; by apply nodes_decode_eq|]).
  - rewrite <- (app_nil_r (be32 0)). apply decodes_get; [by unfold is_u|]. apply decodes_done.
  - apply decodes_get; [done|]. rewrite truth_eqb, (proj2 (Z.eqb_neq _ _)) by done.
    eapply decodes_ext; [intros; by apply node_step_decode|].
    eapply decodes_and; (eapply decodes_field; [|done]); [by eapply cd_decodes|].
    apply IH. lia.
Qed.

(** More fuel than bytes left is enough for any input. *)
Lemma nodes_decoded n x l :
  in_at x 0 l → (length l < n)%nat →
  (∃ v w tl x', l = w ++ tl ∧ nodes_got S zero v w ∧
     nodes_loop n x [] = Ret (true, v, x') ∧ in_at x' 0 tl) ∨
  (∃ v x', Forall (live S) v ∧ nodes_loop n x [] = Ret (false, v, x')).
Proof.
  revert x l. induction n as [|n IH]; intros x l Hx Hn; [lia|].
  rewrite nodes_decode_eq by eauto with ntirpc. unfold get_then.
  destruct (in_get_unit _ _ Hx) as [(x' & _ & ->)|(u & tl & x' & -> & Hu & -> & Hx')]; simpl;
    [right; eauto|].
  rewrite truth_eqb by done. destruct (Z.eqb_spec u 0) as [->|Hne].
  { left. exists [], (be32 0), tl, x'. auto using nodes_got. }
  rewrite node_step_decode by eauto with ntirpc. unfold xdr_and, xdr_field. cbn [tail].
  destruct (cd_decoded zero Hzero _ _ Hx') as [(a&w&tl'&x2&->&Ha&->&Hx2)|(a&x2&Ha&->)]; cbn.
  2: { right. eexists _, _. split; [|done]. auto. }
  destruct (IH x2 tl' Hx2) as [(v&w'&tl2&x3&->&Hv&->&Hx3)|(v&x3&Hv&->)]; [len|left|right]; cbn.
  - exists (a :: v), (be32 u ++ w ++ w'), tl2, x3. rewrite <- !app_assoc. auto using nodes_got.
  - eexists _, _. split; [|done]. constructor; [by eapply cd_live|done].
Qed.

Lemma nodes_frees n l x :
  copies = true → (length l < n)%nat → Forall (live S) l → x_op x = XDR_FREE →
  nodes_loop n x l = Ret (true, [], x).
Proof.
  intros Hc Hn Hl Hop. revert n Hn.
  induction Hl as [|a l Ha Hl IH]; intros [|n] Hn; simpl in Hn; try lia; cbn [nodes_loop]; unfold xdr_bool; rewrite Hop; [done|].
  cbn. unfold node_step, xdr_reference. cbn. rewrite Hop, (cd_frees a Ha x Hop), Hc. cbn.
  rewrite IH by lia. done.
Qed.

Lemma nodes_got_length l w : nodes_got S zero l w → (length l < length w)%nat.
Proof. induction 1; len. Qed.

Lemma xdr_nodes_encodes l : Forall (wf S) l → encodes xdr_nodes l (nodes_wire S l).
Proof. intros Hl x w c. apply (nodes_encodes _ l); [lia|done]. Qed.

Lemma xdr_nodes_decodes l w : nodes_got S zero l w → decodes xdr_nodes [] w l.
Proof.
  intros Hg x tl Hx. apply (nodes_decodes _ l w); [|done..].
  apply nodes_got_length in Hg. apply in_at_size in Hx. len.
Qed.

Lemma xdr_nodes_decoded : decoded xdr_nodes [] (nodes_got S zero) (Forall (live S)).
Proof. intros x l Hx. apply nodes_decoded; [done|]. apply in_at_size in Hx. lia. Qed.

Lemma nodes_wire_bytes l : Forall (wf S) l → bytes (nodes_wire S l).
Proof.
  induction 1; cbn; [auto with ntirpc|].
  apply bytes_be32_app, bytes_app. split; [by eapply cd_bytes|done].
Qed.

Lemma nodes_wire_got l : Forall (wf S) l → nodes_got S zero l (nodes_wire S l).
Proof. induction 1; constructor; try done. by apply cd_canon. Qed.

Lemma nodes_got_live l w : nodes_got S zero l w → Forall (live S) l.
Proof. induction 1; constructor; [by eapply cd_live|done]. Qed.
End Nodes.

#[global] Instance nodes_codec {P} {O : XdrOps P} {I : XdrInput P} {W : XdrOutput P} {T}
    (zero : T) (proc : xdrproc P T) S :
  Codec proc S → fresh S zero → Codec (xdr_nodes zero proc true) (nodes_spec S zero).
Proof.
  intros C Hzero. unfold nodes_spec; codec.
  - intros l. by apply (xdr_nodes_encodes zero proc true S (C := C)).
  - intros l. by apply (nodes_wire_bytes proc S (C := C)).
  - intros v0 l Hl _. by apply (nodes_wire_got zero proc S (C := C)).
  - intros v0 l w ->. by apply (xdr_nodes_decodes zero proc true S (C := C)).
  - intros v0 ->. by apply (xdr_nodes_decoded zero proc true S (C := C)).
  - intros v0 l w _. by apply (nodes_got_live zero proc S (C := C)).
  - by intros v0 ->.
  - intros l Hl x Hop. apply (nodes_frees zero proc true S (C := C)); [done|lia|done..].
Qed.

(** Compare a structure's filter, unfolded, with its tuple's field by field. *)
#[global] Arguments xdr_uint32_t : simpl never.
#[global] Arguments xdr_int32_t : simpl never.
#[global] Arguments xdr_enum : simpl never.
#[global] Arguments xdr_string : simpl never.
#[global] Arguments xdr_bytes : simpl never.
#[global] Arguments xdr_array : simpl never.
Ltac by_fields :=
  intros ? []; unfold xdr_pair, xdr_and, xdr_field, xdr_u_int32_t, xdr_rpcprog, xdr_rpcvers,
    xdr_rpcprot, xdr_rpcport; cbn;
  repeat match goal with
    | |- context [obind (?f ?x ?v) _] =>
        match type of x with XDR _ => idtac end;
        destruct (f x v) as [[[[] ?] ?]| | |]; cbn; try reflexivity
    end.
