(* ===== verification/XdrTheorems.v ===== *)
(** * What the XDR filters guarantee

    Round trips through real buffers, decoding of arbitrary bytes, release of what
    a decoder allocated, and the places where the code departs from its own
    comments. *)
From stdpp Require Import base gmap list.
From Stdlib Require Import ZArith Lia.
From S2P Require Import Prelude Machine XdrHandle XdrStream XdrMem XdrInline XdrWire XdrCodecs.

(** ** Round trips in memory *)

(** A value of a composite type: an array of at most ten strings of at most 32 bytes
    (each element is a pointer, eight bytes). *)
Abbreviation names := (xdr_array Pnull 10 8 (xdr_string 32)).
Abbreviation names_spec := (array_spec 10 (string_spec 32) Pnull).

#[local] Instance names_codec {P} {O : XdrOps P} {I : XdrInput P} {W : XdrOutput P} :
  Codec names names_spec.
Proof.
  apply array_codec; [apply string_codec; done|done|done|done|done].
Qed.

Definition some_names : carray (ptr (list Z)) :=
  (Pobj [Pobj ([110; 102; 115] ++ [0]); Pobj ([] ++ [0])], 2).

Lemma some_names_wf : wf names_spec some_names.
Proof.
  right. exists [Pobj ([110; 102; 115] ++ [0]); Pobj ([] ++ [0])].
  split; [by vm_compute|]. split; [by vm_compute|].
  repeat constructor; [exists [110; 102; 115]|exists []]; split_and!; try done;
    repeat constructor; lia.
Qed.

(** C23. A value written by a filter to a memory buffer is read back by the same
    filter from the same memory: for every filter that implements a wire format,
    every well-formed value and every aligned buffer, encoding writes the wire format
    at the start of the buffer and nothing outside it, and a decoding stream opened
    over those bytes returns the value.  When the buffer is too small for the
    encoding the filter returns false. *)
Theorem mem_filter_roundtrip {T} (f : xdrproc mem_priv T) (S : spec T)
    (C : ∀ W : XdrOutput mem_priv, Codec f S) v v0 mem addr size :
  wf S v → fresh S v0 → addr mod 4 = 0 → 0 < addr → 0 ≤ size → allocd mem addr size →
  ∃ x, xdrmem_ncreate mem addr size XDR_ENCODE = Ret x ∧
    (Zlen (wire S v) ≤ size →
      ∃ x' y y', f x v = Ret (true, v, x') ∧
        load (x_mem x') addr (length (wire S v)) = Some (wire S v) ∧
        same_outside mem (x_mem x') addr size ∧
        xdrmem_ncreate (x_mem x') addr (Zlen (wire S v)) XDR_DECODE = Ret y ∧
        f y v0 = Ret (true, v, y')) ∧
    (size < Zlen (wire S v) → ∃ x', f x v = Ret (false, v, x')).
Proof.
  intros Hv Hv0 Ha Hp Hs Hal.
  destruct (xdrmem_ncreate_encode mem addr size) as (x & E & _ & Hx); try done.
  exists x. split; [done|].
  destruct (cd_encodes (Codec := C (mem_output_at (mk_buffer mem addr size))) v Hv _ _ _ Hx)
    as [H1 H2]. split; intros Hn; [|apply H2; simpl; lia].
  destruct (H1 Hn) as (x' & Ex & (_ & _ & Hld & _ & _ & _ & Hh & _ & Hsame)). simpl in Hh, Hsame.
  rewrite Hh in Hld. simpl in Hld.
  destruct (xdrmem_ncreate_decode (x_mem x') addr (wire S v)) as (y & Ey & _ & Hy); try done.
  { by eapply cd_bytes. }
  destruct (codec_roundtrip f S v v0 Hv Hv0) as [_ Hd].
  rewrite <- (app_nil_r (wire S v)) in Hy. destruct (Hd y [] Hy) as (y' & Ed & _).
  exists x', y, y'. auto.
Qed.

Lemma mem_filter_roundtrip_witness :
  ∃ x, xdrmem_ncreate (block 4096 (replicate 64 0)) 4096 64 XDR_ENCODE = Ret x ∧
    (Zlen (wire names_spec some_names) ≤ 64 →
      ∃ x' y y', names x some_names = Ret (true, some_names, x') ∧
        load (x_mem x') 4096 (length (wire names_spec some_names)) =
          Some (wire names_spec some_names) ∧
        same_outside (block 4096 (replicate 64 0)) (x_mem x') 4096 64 ∧
        xdrmem_ncreate (x_mem x') 4096 (Zlen (wire names_spec some_names)) XDR_DECODE = Ret y ∧
        names y (Pnull, 0) = Ret (true, some_names, y')) ∧
    (64 < Zlen (wire names_spec some_names) →
       ∃ x', names x some_names = Ret (false, some_names, x')).
Proof.
  apply (mem_filter_roundtrip names names_spec (λ W, names_codec) some_names (Pnull, 0)
           (block 4096 (replicate 64 0)) 4096 64);
    [apply some_names_wf|done|done|done|done|].
  apply (load_is_allocd (block 4096 (replicate 64 0)) 4096 64 (replicate 64 0)). by vm_compute.
Defined.

(** ** Decoding arbitrary bytes *)

(** [v] is released to [v'], which can be released again. *)
Definition releases {P T} (f : xdrproc P T) (v v' : T) : Prop :=
  ∀ y, x_op y = XDR_FREE → f y v = Ret (true, v', y) ∧ f y v' = Ret (true, v', y).

(** What a codec gives for one decoding. *)
Lemma decode_then_free {P T} {O : XdrOps P} {I : XdrInput P} {W : XdrOutput P}
    (f : xdrproc P T) (S : spec T) {C : Codec f S} v0 (x : XDR P) l :
  (∀ v, freed S (freed S v) = freed S v) → fresh S v0 → in_at x 0 l →
  ∃ b v x', f x v0 = Ret (b, v, x') ∧ releases f v (freed S v) ∧
    (b = true → ∃ w tl, l = w ++ tl ∧ got S v0 v w ∧ in_at x' 0 tl).
Proof.
  intros Hff Hf Hx.
  assert (Hfree : ∀ v, live S v → releases f v (freed S v)).
  { intros v Hl y Hy. split; [by apply (cd_frees v)|].
    rewrite <- (Hff v) at 2. apply (cd_frees (freed S v)); [by apply cd_freed|done]. }
  destruct (cd_decoded v0 Hf x l Hx) as [(v & w & tl & x' & -> & Hg & E & Hx')|(v & x' & Hl & E)].
  - exists true, v, x'. split_and!; eauto 10 using cd_live.
  - exists false, v, x'. split_and!; [done|by apply Hfree|done].
Qed.

(** Nothing is left with the caller when the decoding of a string or of bytes fails. *)
Lemma string_decode_failed {P} {O : XdrOps P} smax (x : XDR P) s x' :
  x_op x = XDR_DECODE → xdr_string smax x Pnull = Ret (false, s, x') → s = Pnull.
Proof.
  intros Hop. unfold xdr_string, xdr_string_decode. rewrite Hop. intros E. step_out E. destruct r as [[n|] x1]; [|congruence].
  do 2 (destruct (_ : bool); [congruence|]). step_out E. step_out E. destruct r0 as [[[] sp] x2]; cbn in E; [|congruence].
  step_out E. congruence.
Qed.

Lemma bytes_decode_failed {P} {O : XdrOps P} bmax (x : XDR P) p n n0 x' :
  x_op x = XDR_DECODE → xdr_bytes bmax x (Pnull, n0) = Ret (false, (p, n), x') → p = Pnull.
Proof.
  intros Hop. unfold xdr_bytes, xdr_bytes_decode. rewrite Hop. intros E. step_out E. destruct r as [[k|] x1]; [|congruence].
  do 2 (destruct (_ : bool); [congruence|]). step_out E. step_out E. destruct r0 as [[[] sp] x2]; cbn in E; congruence.
Qed.

Lemma gots_strings smax strs w : gots (string_spec smax) Pnull strs w →
  Forall (λ s, ∃ cs, s = Pobj (cs ++ [0]) ∧ Zlen cs ≤ smax) strs.
Proof. induction 1 as [|v w vs ws (s & w' & -> & _ & Hl & _) _ IH]; constructor; eauto. Qed.

(** C25. Arbitrary bytes, decoded and released.  On every stream that keeps the input
    contract, with any bytes left, and for all limits below 2^32 - 1 for a string, below 2^32
    for counted bytes and up to (2^32 - 1) / 8 for an array of strings: [xdr_string],
    [xdr_bytes] and [xdr_array] with [xdr_string] as its element, given a null pointer,
    return; a string they accept is as long as announced, within its limit and terminated,
    the bytes they accept are those announced, and the stream stands behind their padding; a
    string or bytes that are refused leave the null pointer; and in every case XDR_FREE
    releases what there is, leaves a null pointer, and may be called again. *)
Theorem counted_decode_release {P} {O : XdrOps P} {I : XdrInput P} {W : XdrOutput P} smax bmax amax (x : XDR P) l :
  is_u 32 smax → smax < UINT32_MAX → is_u 32 bmax → 0 ≤ amax ≤ UINT32_MAX / 8 → in_at x 0 l →
  (∃ b s x', xdr_string smax x Pnull = Ret (b, s, x') ∧ releases (xdr_string smax) s Pnull ∧
     if b then ∃ cs w tl, s = Pobj (cs ++ [0]) ∧ Zlen cs ≤ smax ∧ padded cs w ∧
                 l = be32 (Zlen cs) ++ w ++ tl ∧ in_at x' 0 tl
     else s = Pnull) ∧
  (∃ b p n x', xdr_bytes bmax x (Pnull, 0) = Ret (b, (p, n), x') ∧ releases (xdr_bytes bmax) (p, n) (Pnull, n) ∧
     if b then ∃ bs w tl, p = (if n =? 0 then Pnull else Pobj bs) ∧ n = Zlen bs ∧ n ≤ bmax ∧ padded bs w ∧
                 l = be32 n ++ w ++ tl ∧ in_at x' 0 tl
     else p = Pnull) ∧
  (let names := xdr_array Pnull amax 8 (xdr_string smax) in
   ∃ b p n x', names x (Pnull, 0) = Ret (b, (p, n), x') ∧ releases names (p, n) (Pnull, n) ∧
     (b = true → ∃ strs, p = (if n =? 0 then Pnull else Pobj strs) ∧ n = Zlen strs ∧ n ≤ amax ∧
        Forall (λ s, ∃ cs, s = Pobj (cs ++ [0]) ∧ Zlen cs ≤ smax) strs)).
Proof.
  intros Hs Hs' Hb Ha Hx. pose proof (in_at_decode _ _ _ Hx) as Hop. pose proof (string_codec smax Hs Hs') as Cs.
  assert (Hmax : amax < 2 ^ 32) by (unfold UINT32_MAX in Ha; lia). split; [|split].
  - destruct (decode_then_free (xdr_string smax) (string_spec smax) Pnull x l) as (b & s & x' & E & Hr & Hok); try done.
    exists b, s, x'. split; [done|]. split; [done|]. destruct b; [|by eapply string_decode_failed].
    destruct (Hok eq_refl) as (w & tl & -> & (cs & w' & -> & _ & Hl & Hp & ->) & Hx'). exists cs, w', tl. by rewrite <- app_assoc.
  - pose proof (bytes_codec bmax Hb) as Cb.
    destruct (decode_then_free (xdr_bytes bmax) (bytes_spec bmax) (Pnull, 0) x l) as (b & [p n] & x' & E & Hr & Hok); try done.
    exists b, p, n, x'. split; [done|]. split; [done|]. destruct b; [|by eapply bytes_decode_failed].
    destruct (Hok eq_refl) as (w & tl & -> & [[E0 ->]|(bs & w' & E0 & Hl & _ & Hp & ->)] & Hx'); injection E0 as -> ->.
    + exists [], [], tl. split; [done|]. split; [done|]. split; [unfold is_u in Hb; lia|]. split; [by exists []|done].
    + exists bs, w', tl. rewrite (proj2 (Z.eqb_neq _ _)) by lia. rewrite <- app_assoc. by split_and!; [..|lia| | |].
  - assert (Ca : Codec (xdr_array Pnull amax 8 (xdr_string smax)) (array_spec amax (string_spec smax) Pnull)).
    { apply array_codec; [done|done|split; lia|done|lia]. }
    destruct (decode_then_free _ _ (Pnull, 0) x l (C := Ca)) as (b & [p n] & x' & E & Hr & Hok); try done.
    exists b, p, n, x'. split; [done|]. split; [done|]. intros ->.
    destruct (Hok eq_refl) as (w & tl & -> & [[E0 ->]|(strs & w' & E0 & Hl & Hg & ->)] & Hx'); injection E0 as -> ->.
    + exists []. split; [done|]. split; [done|]. split; [lia|constructor].
    + exists strs. rewrite (proj2 (Z.eqb_neq _ _)) by lia. split; [done|]. split; [done|]. split; [lia|by eapply gots_strings].
Qed.

(** Two strings promised, the second one longer than the bytes that follow. *)
Definition cut_short : list Z := be32 2 ++ be32 3 ++ [97; 98; 99; 0] ++ be32 9 ++ [97; 98].

Lemma counted_decode_release_witness :
  ∃ b p n x', names (mem_reader cut_short) (Pnull, 0) = Ret (b, (p, n), x') ∧ b = false ∧ p ≠ Pnull ∧
    releases names (p, n) (Pnull, n).
Proof.
  destruct (counted_decode_release 32 64 10 (mem_reader cut_short) cut_short) as (_ & _ & b & p & n & x' & E & Hr & _); try done.
  { apply mem_reader_at. vm_compute. repeat constructor; by vm_compute. }
  exists b, p, n, x'. split; [exact E|]. split; [|split; [|exact Hr]]; vm_compute in E; by injection E as <- <- _ _.
Defined.

(** ** Arrays *)

(** C39. [xdr_array] never writes past the storage it allocates: for any element
    filter that implements a wire format, any limit and any element size, decoding
    arbitrary bytes returns without undefined behaviour -- the 32-bit product
    [size * selem] given to the allocator cannot have wrapped around, because limits
    for which it could are refused before the count is read. *)
Theorem array_decode_no_overflow {P T} {O : XdrOps P} {I : XdrInput P} {W : XdrOutput P}
    (f : xdrproc P T) (S : spec T) {C : Codec f S} (zero : T) maxsize selem n (x : XDR P) l :
  fresh S zero → is_u 32 maxsize → 0 < selem → in_at x 0 l →
  ∃ b cpp sizep x', xdr_array zero maxsize selem f x (Pnull, n) = Ret (b, (cpp, sizep), x') ∧
    (b = true → 0 ≤ sizep ≤ maxsize ∧ sizep * selem < 2 ^ 32).
Proof.
  intros Hz Hm Hs Hx. destruct (Z_lt_le_dec (UINT32_MAX / selem) maxsize) as [Hbig|Hfit].
  - unfold xdr_array, xdr_array_decode. rewrite (in_at_decode _ _ _ Hx).
    rewrite (proj2 (Z.eqb_neq selem 0)), (proj2 (Z.ltb_lt _ _)) by lia. by eexists _, _, _, _.
  - destruct (array_decoded f S zero Hz maxsize selem Hm Hs Hfit n x l Hx)
      as [([cpp sz] & w & tl & x' & _ & Hg & E & _)|([cpp sz] & x' & _ & E)];
      eexists _, cpp, sz, x'; (split; [exact E|]); [intros _|done].
    assert (0 ≤ sz ≤ maxsize) as Hsz.
    { destruct Hg as [[Hg _]|(l' & w' & Hg & Hl & _)]; simplify_eq; unfold is_u in Hm; lia. }
    split; [done|]. unfold UINT32_MAX in Hfit.
    assert (maxsize * selem ≤ 2 ^ 32 - 1); [|nia].
    etransitivity; [apply Z.mul_le_mono_nonneg_r; [lia|exact Hfit]|].
    rewrite Z.mul_comm. apply Z.mul_div_le. lia.
Qed.

Lemma array_decode_no_overflow_witness :
  ∃ b cpp sizep x',
    xdr_array Pnull (2 ^ 31) 8 (xdr_string 32) (mem_reader (be32 (2 ^ 29))) (Pnull, 0) =
      Ret (b, (cpp, sizep), x') ∧
    (b = true → 0 ≤ sizep ≤ 2 ^ 31 ∧ sizep * 8 < 2 ^ 32).
Proof.
  apply (array_decode_no_overflow (xdr_string 32) (string_spec 32)
           (C := string_codec 32 ltac:(by vm_compute) ltac:(by vm_compute)) Pnull (2 ^ 31) 8 0
           (mem_reader (be32 (2 ^ 29))) (be32 (2 ^ 29)));
    [done|by vm_compute|done|apply mem_reader_at, be32_bytes].
Defined.

(** ** Caller-supplied storage *)

(** When the bytes of a string run out while decoding into a buffer the caller
    supplied, [xdr_string] frees that buffer and leaves the caller's pointer dangling:
    releasing the object afterwards is a use after free.  [xdr_bytes], in the same
    situation, leaves the caller's buffer alone. *)
Theorem string_decode_frees_callers_buffer {P} {O : XdrOps P} {I : XdrInput P}
    (maxsize n : Z) (buf l : list Z) (sizep : Z) (x : XDR P) :
  0 < n → n ≤ maxsize → n < UINT32_MAX → n + 1 ≤ Zlen buf → Zlen l < n + padn n →
  in_at x 0 (be32 n ++ l) →
  (∃ x', xdr_string maxsize x (Pobj buf) = Ret (false, Pfreed, x')) ∧
  (∀ y : XDR P, x_op y = XDR_FREE → xdr_string maxsize y Pfreed = Ub) ∧
  (∃ buf' x', xdr_bytes maxsize x (Pobj buf, sizep) = Ret (false, (Pobj buf', n), x') ∧
              length buf' = length buf).
Proof.
  unfold UINT32_MAX. intros Hn Hm Hm' Hb Hl Hx.
  destruct (in_getuint32 _ _ _ Hx) as (x1 & E1 & Hx1). rewrite wrapu_id in E1 by (unfold is_u; lia).
  assert (Hd : ∃ cp' x', xdr_opaque_decode x1 buf n = Ret (false, cp', x') ∧ length cp' = length buf).
  { destruct (opaque_decode_any x1 buf n l Hx1)
      as [(bs & pad & tl & x' & -> & Hbs & Hp & _)|?]; [lia| |done]. len. }
  destruct Hd as (cp' & x2 & E2 & Hlen). split_and!.
  - exists x2. unfold xdr_string, xdr_string_decode. rewrite (in_at_decode _ _ _ Hx), E1. cbn [obind].
    rewrite (proj2 (Z.ltb_ge _ _)), (proj2 (Z.eqb_neq _ _)) by (unfold UINT32_MAX; lia).
    cbn [storage obind]. by rewrite E2.
  - intros y Hy. unfold xdr_string, xdr_string_free. by rewrite Hy.
  - exists cp', x2. split; [|done]. unfold xdr_bytes, xdr_bytes_decode.
    rewrite (in_at_decode _ _ _ Hx), E1. cbn [obind].
    rewrite (proj2 (Z.ltb_ge _ _)), (proj2 (Z.eqb_neq _ _)) by lia.
    cbn [storage obind]. by rewrite E2.
Qed.

Lemma string_decode_frees_callers_buffer_witness :
  (∃ x', xdr_string 100 (mem_reader (be32 5 ++ [1; 2])) (Pobj (replicate 16 0)) =
           Ret (false, Pfreed, x')) ∧
  (∀ y : XDR mem_priv, x_op y = XDR_FREE → xdr_string 100 y Pfreed = Ub) ∧
  (∃ buf' x', xdr_bytes 100 (mem_reader (be32 5 ++ [1; 2])) (Pobj (replicate 16 0), 0) =
                Ret (false, (Pobj buf', 5), x') ∧ length buf' = length (replicate 16 0)).
Proof.
  apply (string_decode_frees_callers_buffer 100 5 (replicate 16 0) [1; 2] 0);
    try by vm_compute.
  apply mem_reader_at. apply Forall_app. split; [apply be32_bytes|]. by repeat constructor.
Defined.

(** ** Signed longs, 16-bit integers and floating point *)

(** [xdr_long] does not round-trip negative values on a memory stream: the
    encoder writes the low 32 bits of any negative 32-bit value and the fast path of
    [xdr_getlong] reads them back without sign extension, 2^32 too large.  [xdr_int],
    which narrows the result, is not affected. *)
Theorem long_negative_not_restored (v : Z) tl :
  is_s 32 v → v < 0 → bytes tl →
  (∃ x', inline_xdr_long (mem_writer 4) v = Ret (true, v, x') ∧
         out_at x' (be32 v) (Some 0)) ∧
  (∃ y', inline_xdr_long (mem_reader (be32 v ++ tl)) 0 = Ret (true, v + 2 ^ 32, y')) ∧
  (∃ z', inline_xdr_int (mem_reader (be32 v ++ tl)) 0 = Ret (true, v, z')).
Proof.
  intros Hv Hneg Htl. assert (Hr : in_at (mem_reader (be32 v ++ tl)) 0 (be32 v ++ tl))
    by (apply mem_reader_at, bytes_app; auto using be32_bytes).
  unfold is_s in Hv. split_and!.
  - destruct (out_putlong (mem_writer 4) [] (Some 4) v (mem_writer_at 4)) as (x' & E & Hx'); [done|].
    exists x'. change (inline_xdr_long (mem_writer 4) v) with (keep v (xdr_putlong (mem_writer 4) v)).
    unfold keep. rewrite E. split; [done|]. exact Hx'.
  - unfold inline_xdr_long. rewrite (in_at_decode _ _ _ Hr). unfold xdr_getlong.
    destruct (mem_fast_get _ v tl 0 0 (let! (u, x) := x_getunit (mem_reader (be32 v ++ tl)) in
       Ret (s32 <$> u, x)) Hr) as [-> _]. simpl. eexists. do 3 f_equal. unfold id, wrapu.
    rewrite <- (Z.mod_add _ 1), Z.mod_small by lia. lia.
  - destruct (cd_decodes (f := inline_xdr_int) (S := int32_spec) 0 v (be32 v)) with
      (mem_reader (be32 v ++ tl)) tl as (z' & ? & _); [done| |done|by eauto].
    exists (u32 v). rewrite be32_u32, wraps_wrapu_id by done. auto using wrapu_range with lia.
Qed.

Lemma long_negative_not_restored_witness :
  (∃ x', inline_xdr_long (mem_writer 4) (-1) = Ret (true, -1, x') ∧
         out_at x' (be32 (-1)) (Some 0)) ∧
  (∃ y', inline_xdr_long (mem_reader (be32 (-1) ++ [])) 0 = Ret (true, -1 + 2 ^ 32, y')) ∧
  (∃ z', inline_xdr_int (mem_reader (be32 (-1) ++ [])) 0 = Ret (true, -1, z')).
Proof. apply (long_negative_not_restored (-1) []); by vm_compute || constructor. Defined.

Lemma double_codec {P} {O : XdrOps P} {I : XdrInput P} {W : XdrOutput P} :
  Codec (xdr_double (P := P)) uint64_spec.
Proof.
  unfold uint64_spec; codec.
  - intros v Hv.
    eapply encodes_ext; [|eapply (encodes_put (λ x, xdr_putint32 x (s32 (Z.shiftr v 32))));
      [|eapply (encodes_keep (λ x, xdr_putint32 x (s32 v)))]].
    + intros x Hop. unfold xdr_double. by rewrite Hop.
    + rewrite <- (be32_s32 (v / 2 ^ 32)). rewrite <- Z.shiftr_div_pow2 by lia. apply puts_int32.
    + rewrite <- (be32_s32 v). apply puts_int32.
  - intros v0 v w _ [Hv ->]. destruct (u64_parts v Hv) as (Hh & Hj & Hl).
    intros x tl Hx. rewrite <- app_assoc in Hx. unfold xdr_double. rewrite (in_at_decode _ _ _ Hx).
    destruct (in_getint32 _ _ _ Hx) as (x1 & -> & Hx1). cbn [obind].
    destruct (in_getint32 _ _ _ Hx1) as (x2 & E2 & Hx2). unfold fetch. rewrite E2. cbn [obind].
    exists x2. rewrite !wrapu_wraps by lia. rewrite (wrapu_id 32 (v / 2 ^ 32)) by done.
    rewrite lor_shiftl by (lia || done). rewrite <- Hj. done.
  - intros v0 _ x l Hx. unfold xdr_double. rewrite (in_at_decode _ _ _ Hx).
    destruct (in_at_unit _ _ Hx) as [Hl|(hi & tl & -> & Hhi)].
    { right. destruct (in_getint32_short _ _ Hx Hl) as (x' & ->). simpl. eauto. }
    destruct (in_getint32 _ _ _ Hx) as (x1 & -> & Hx1). cbn [obind]. unfold fetch.
    destruct (in_at_unit _ _ Hx1) as [Hl|(lo & tl' & -> & Hlo)].
    { right. destruct (in_getint32_short _ _ Hx1 Hl) as (x' & ->). simpl. eauto. }
    destruct (in_getint32 _ _ _ Hx1) as (x2 & -> & Hx2). cbn [obind]. left.
    eexists _, (be32 hi ++ be32 lo), tl', x2. rewrite <- app_assoc.
    split; [done|]. split; [|done]. rewrite !wrapu_wraps, !wrapu_id by (lia || done).
    rewrite lor_shiftl by (lia || done). unfold is_u in *. split; [lia|].
    rewrite Z.div_add_l, (Z.div_small lo), Z.add_0_r by lia.
    rewrite <- (be32_u32 (_ + lo)). unfold wrapu.
    by rewrite Z.add_comm, Z.mod_add, Z.mod_small by lia.
  - intros v _ x Hop. unfold xdr_double. by rewrite Hop.
Qed.

(** [xdr_float] transmits the integer part of the number instead of its IEEE
    representation while decoding expects the representation: encoding a float whose
    value truncates to [i] writes the integer [i], and reading it back yields the
    float whose bit pattern is [i].  In particular 1.5 comes back as the denormal
    with bit pattern 1. *)
Theorem float_writes_integer {P} {O : XdrOps P} {I : XdrInput P} {W : XdrOutput P} (bits i : Z) :
  f32_to_int32 bits = Some i →
  encodes (xdr_float (P := P)) bits (be32 i) ∧ decodes (xdr_float (P := P)) 0 (be32 i) (u32 i).
Proof.
  intros Hi. split.
  - eapply encodes_ext; [|eapply (encodes_keep (λ x, xdr_putint32 x i)), puts_int32].
    intros x Hop. unfold xdr_float. by rewrite Hop, Hi.
  - intros x tl Hx. unfold xdr_float. rewrite (in_at_decode _ _ _ Hx).
    destruct (in_getint32 _ _ _ Hx) as (x' & E & Hx'). unfold fetch. rewrite E. cbn.
    exists x'. by rewrite wrapu_wraps by lia.
Qed.

(** 0x3FC00000 is 1.5. *)
Lemma float_writes_integer_witness :
  f32_to_int32 0x3FC00000 = Some 1 ∧ u32 1 ≠ 0x3FC00000 ∧
  encodes (xdr_float (P := mem_priv)) 0x3FC00000 (be32 1) ∧
  decodes (xdr_float (P := mem_priv)) 0 (be32 1) (u32 1).
Proof.
  split; [by vm_compute|]. split; [by vm_compute|].
  apply (float_writes_integer 0x3FC00000 1). by vm_compute.
Defined.

(** [xdr_double] carries the IEEE bit pattern: every 64-bit pattern is written
    high word first and read back unchanged, over any stream. *)
Theorem double_roundtrip {P} {O : XdrOps P} {I : XdrInput P} {W : XdrOutput P} (bits old : Z) :
  is_u 64 bits →
  encodes (xdr_double (P := P)) bits (be32 (bits / 2 ^ 32) ++ be32 bits) ∧
  decodes (xdr_double (P := P)) old (be32 (bits / 2 ^ 32) ++ be32 bits) bits.
Proof. intros Hb. by apply (codec_roundtrip xdr_double uint64_spec (Codec0 := double_codec)). Qed.

Lemma double_roundtrip_witness :
  encodes (xdr_double (P := mem_priv)) 0x3FF8000000000000
    (be32 (0x3FF8000000000000 / 2 ^ 32) ++ be32 0x3FF8000000000000) ∧
  decodes (xdr_double (P := mem_priv)) 0
    (be32 (0x3FF8000000000000 / 2 ^ 32) ++ be32 0x3FF8000000000000) 0x3FF8000000000000.
Proof. apply (double_roundtrip 0x3FF8000000000000 0). by vm_compute. Defined.

(** 16- and 8-bit signed values are put on the wire without sign extension
    (a negative value occupies only the low half or byte of its unit, although the
    comments in [xdr_putint16] and [xdr_putint8] announce an extension), and are
    still read back unchanged because the getters narrow before they sign-extend. *)
Theorem int16_int8_wire {P} {O : XdrOps P} {I : XdrInput P} {W : XdrOutput P} (v old : Z) :
  (is_s 16 v → encodes (xdr_int16_t (P := P)) v (be32 (u16 v)) ∧
               decodes (xdr_int16_t (P := P)) old (be32 (u16 v)) v) ∧
  (is_s 8 v → encodes (xdr_int8_t (P := P)) v (be32 (u8 v)) ∧
              decodes (xdr_int8_t (P := P)) old (be32 (u8 v)) v) ∧
  (is_s 16 v → v < 0 → u16 v ≠ u32 v).
Proof.
  split_and!; intros Hv.
  - by apply (codec_roundtrip xdr_int16_t int16_spec).
  - by apply (codec_roundtrip xdr_int8_t int8_spec).
  - unfold is_s in Hv. unfold wrapu. change (2 ^ 16) with 65536. change (2 ^ 32) with 4294967296.
    change (2 ^ (16 - 1)) with 32768 in Hv. lia.
Qed.
