(* ===== verification/XdrIoqTheorems.v ===== *)
(** * What buffer queues guarantee

    Round trips between queues, positions, the vectors handed to the security layer
    and the cases in which a queue stops short or never returns. *)
From stdpp Require Import base gmap list.
From Stdlib Require Import ZArith Lia.
From S2P Require Import Prelude Machine XdrHandle XdrStream XdrMem XdrIoq XdrIoqFacts XdrInline XdrWire XdrCodecs.

(** ** Received records *)

(** The addresses of the bytes in use. *)
Definition seg_addrs (uv : xdr_ioq_uv) : list Z :=
  seqZ (vio_head (uv_v uv)) (vio_tail (uv_v uv) - vio_head (uv_v uv)).

(** The bytes [l] of a record in the buffers of a queue: whole units in all buffers but
    the last, no byte in two buffers, the first one filled from its start. *)
Record received (h : heap) (q : list xdr_ioq_uv) (l : list Z) : Prop := {
  rc_segs : segs h q = Some l;
  rc_units : unit_segs q;
  rc_bytes : bytes l;
  rc_apart : NoDup (concat (seg_addrs <$> q));
  rc_some : ∃ uv, head q = Some uv ∧ vio_base (uv_v uv) = vio_head (uv_v uv);
  rc_count : Zlen q < 2 ^ 31;
}.

Lemma segs_size h q l :
  segs h q = Some l → NoDup (concat (seg_addrs <$> q)) → (length l ≤ size h)%nat.
Proof.
  intros Hs Hd.
  assert (Hl : length l = length (concat (seg_addrs <$> q))).
  { clear Hd. revert l Hs. induction q as [|uv q IH]; intros l Hs; [by simplify_eq/=|].
    apply segs_cons in Hs as (w1 & w2 & H1 & H2 & ->). cbn. rewrite !length_app, (IH _ H2).
    unfold seg_addrs. rewrite length_seqZ. by apply load_length in H1 as ->. }
  rewrite Hl, <- size_dom, <- (size_list_to_set (C := gset Z) _ Hd). apply subseteq_size.
  intros i Hi. apply elem_of_list_to_set, list_elem_of_In, in_concat in Hi as (la & Hla & Hi).
  apply list_elem_of_In, list_elem_of_fmap in Hla as (uv & -> & Huv).
  apply list_elem_of_In, elem_of_seqZ in Hi. apply elem_of_dom.
  eapply segs_allocd; [done|done|lia].
Qed.

(** [xdr_ioq_reset] puts a decoder at the start of the record. *)
Lemma received_reset h q l min max pl pc b v d :
  received h q l →
  ∃ x, xdr_ioq_reset (mk_xdr XDR_DECODE d v (mk_ioq q (Zlen q) b min max pl pc) h) 0 = Ret x ∧
       ioq_in x 0 l.
Proof.
  intros [Hs Hu Hb Hd (uv & Hh & Hbase) Hc]. destruct q as [|uv0 q]; [done|].
  injection Hh as ->. unfold xdr_ioq_reset. cbn [x_private uvq head access obind].
  pose proof (segs_size _ _ _ Hs Hd) as Hsz.
  apply segs_cons in Hs as (l1 & l2 & H1 & H2 & ->). destruct Hu as (Hle & Hm & Hus).
  assert (Hl1 : Zlen l1 = vio_tail (uv_v uv) - vio_head (uv_v uv)).
  { unfold seg in H1. apply load_length in H1. lia. }
  exists (set_v (uv_v uv) (set_data (vio_head (uv_v uv))
    (mk_xdr XDR_DECODE d v (mk_ioq (uv :: q) (Zlen (uv :: q)) 0 min max 0 0) h))).
  split.
  - destruct (ioquv_size uv <=? 0); [done|]. destruct uv as [? ? ? ? [base hd ? ? ? ?]].
    cbn in Hbase. subst base. unfold set_vio_head. cbn [uv_v vio_base]. by rewrite Z.add_0_r.
  - exists [], uv, q, l1, l2. split; [done|]. constructor; cbn -[Z.of_nat]; try done; try lia.
    + unfold seg in H1. by replace (length l1) with (Z.to_nat (vio_tail (uv_v uv) - vio_head (uv_v uv))) by lia.
    + destruct Hm as [->|Hm]; [by left|right]. lia.
Qed.

(** ** Round trips *)

Section RoundTrip.
Context `{A : !Allocator}.

(** A new stream stands at the start of an empty buffer. *)
Lemma ioq_create_room h min max flags :
  4 ≤ min → has_flag flags UIO_FLAG_BUFQ = false → has_flag flags UIO_FLAG_REALLOC = false →
  ∃ x, xdr_ioq_create h min max flags = Ret x ∧ ioq_out x [] None ∧ x_data x + min = vio_wrap (x_v x).
Proof.
  intros Hmin Hb Hr. unfold xdr_ioq_create. rewrite Hb. cbn [negb]. rewrite uv_create_eq by lia.
  cbn [obind]. set (a := (malloc h min).1). set (h' := (malloc h min).2).
  set (uv := mk_uv flags 1 false None (mk_vio a a a (a + min) 0 VIO_HEADER)).
  exists (mk_xdr XDR_ENCODE a (uv_v uv) (mk_ioq [uv] 1 0 min max 0 0) h'). split.
  - unfold xdr_ioq_reset. cbn [x_private on_ioq set_private set_mem xdr_ioq_setup uvq set_uvq set_qcount
      head access obind]. destruct (_ <=? 0); [done|]. unfold set_vio_head. cbn. by rewrite Z.add_0_r.
  - split; [|done]. split; [done|]. exists [], uv, [], []. split; [done|].
    constructor; cbn; try done; try lia.
    + replace (a + min - a) with min by lia. apply malloc_allocd.
    + intros ? ? Hin. by apply not_elem_of_nil in Hin.
Qed.

Lemma ioq_create_out h min max flags :
  4 ≤ min → has_flag flags UIO_FLAG_BUFQ = false → has_flag flags UIO_FLAG_REALLOC = false →
  ∃ x, xdr_ioq_create h min max flags = Ret x ∧ ioq_out x [] None.
Proof. intros H1 H2 H3. destruct (ioq_create_room h min max flags H1 H2 H3) as (x & ? & ? & _). eauto. Qed.

Lemma nonempty_count h q : ∀ w, segs h q = Some w → Forall nonempty q → (length q ≤ length w)%nat.
Proof.
  induction q as [|uv q IH]; intros w Hs Hq; [cbn; lia|]. apply Forall_cons in Hq as [H1 H2].
  apply segs_cons in Hs as (w1 & w2 & E1 & E2 & ->). specialize (IH w2 E2 H2).
  pose proof (load_length _ _ _ _ E1) as Hl. red in H1. rewrite length_app. cbn. lia.
Qed.

(** There are no more buffers than bytes, but for the last. *)
Lemma ioq_out_count x w c :
  ioq_out x w c → Zlen (uvq (x_private (ioq_tail_update x))) ≤ Zlen w + 1.
Proof.
  intros (_ & pre & uv & w1 & w2 & -> & Hx).
  destruct (writes_tail _ _ _ _ _ Hx) as (uv' & Hx' & _). rewrite (wr_uvq _ _ _ _ _ Hx').
  pose proof (nonempty_count _ _ _ (wr_pre _ _ _ _ _ Hx') (wr_nonempty _ _ _ _ _ Hx')).
  rewrite !length_app. cbn. lia.
Qed.

(** What was written is in the buffers, in order. *)
Lemma ioq_out_segs x w c :
  ioq_out x w c → segs (x_mem x) (uvq (x_private (ioq_tail_update x))) = Some w.
Proof.
  intros (_ & pre & uv & w1 & w2 & -> & Hx).
  destruct (writes_tail _ _ _ _ _ Hx) as (uv' & Hx' & Ht & Hd & Hm & _). rewrite <- Hm.
  rewrite (wr_uvq _ _ _ _ _ Hx'). apply segs_app. exists w1, w2.
  split; [apply Hx'|]. split; [|done]. apply segs_cons. exists w2, []. rewrite app_nil_r.
  split; [|done]. unfold seg. rewrite Ht, <- Hd, <- (wr_len _ _ _ _ _ Hx'), Nat2Z.id.
  by apply (wr_here _ _ _ _ _ Hx').
Qed.

Lemma ioq_out_getpos x w c : ioq_out x w c → (xdr_ioq_getpos x).1 = u32 (Zlen w).
Proof.
  intros (_ & pre & uv & w1 & w2 & -> & Hx).
  destruct (writes_tail _ _ _ _ _ Hx) as (uv' & Hx' & _). unfold xdr_ioq_getpos. cbn [fst].
  rewrite (wr_plength _ _ _ _ _ Hx'), (wr_v _ _ _ _ _ Hx'), <- (wr_len _ _ _ _ _ Hx').
  rewrite Zlen_app. apply wrapu_add_narrow; lia.
Qed.

(** C24. Values travel between queues: a value encoded by any filter that implements a
    wire format, on a new stream with any buffer size of at least a unit and any
    allocator, always fits -- the stream grows -- and leaves exactly the wire format in
    the buffers, one after the other, with the position at its length; and from any
    queue that received those bytes, split between buffers at any unit boundaries, the
    same filter reads the value back.  The flags of the stream are any without
    UIO_FLAG_BUFQ, the flag of a stream that starts without a buffer, and without
    UIO_FLAG_REALLOC, with which the one buffer of a stream is replaced once and does not
    grow beyond [max_bsize]. *)
Theorem ioq_filter_roundtrip {T} (f : xdrproc xdr_ioq T) (S : spec T) {C : Codec f S} v v0
    h min max flags q h' :
  wf S v → fresh S v0 → 4 ≤ min → has_flag flags UIO_FLAG_BUFQ = false → has_flag flags UIO_FLAG_REALLOC = false →
  received h' q (wire S v) →
  ∃ x x', xdr_ioq_create h min max flags = Ret x ∧ f x v = Ret (true, v, x') ∧
    segs (x_mem x') (uvq (x_private (xdr_tail_update x'))) = Some (wire S v) ∧
    (x_getpostn x').1 = u32 (Zlen (wire S v)) ∧
    ∀ d vio b pl pc, ∃ y y',
      xdr_ioq_reset (mk_xdr XDR_DECODE d vio (mk_ioq q (Zlen q) b min max pl pc) h') 0 = Ret y ∧
      f y v0 = Ret (true, v, y').
Proof.
  intros Hv Hv0 Hmin Hb Hr Hq. destruct (codec_roundtrip f S v v0 Hv Hv0) as [He Hd].
  destruct (ioq_create_out h min max flags) as (x & Ex & Hx); [done..|].
  destruct (proj1 (He x [] None Hx) I) as (x' & Ef & Hx').
  exists x, x'. split; [done|]. split; [done|]. split; [by eapply ioq_out_segs|].
  split; [by eapply ioq_out_getpos|]. intros d vio b pl pc.
  destruct (received_reset h' q (wire S v) min max pl pc b vio d Hq) as (y & Ey & Hy).
  rewrite <- (app_nil_r (wire S v)) in Hy. destruct (Hd y [] Hy) as (y' & E & _). eauto.
Qed.

(** ** A contiguous stream

    With UIO_FLAG_REALLOC, which the clients set for RPCSEC_GSS, the stream is kept in
    one buffer that is replaced once by one of [max_bsize] bytes. *)

Lemma free_block_ok n : ∀ h a,
  allocd h a (Z.of_nat n) →
  ∃ h', free_block h a n = Some h' ∧ ∀ i, ¬ (a ≤ i < a + Z.of_nat n) → h' !! i = h !! i.
Proof.
  induction n as [|n IH]; intros h a Ha; [by exists h|]. cbn [free_block].
  destruct (Ha a) as [b ->]; [lia|]. destruct (IH (delete a h) (a + 1)) as (h' & -> & Hh').
  { intros i Hi. rewrite lookup_delete_ne by lia. apply Ha. lia. }
  exists h'. split; [done|]. intros i Hi. rewrite Hh' by lia. apply lookup_delete_ne. lia.
Qed.

(** What [mem_alloc], [memcpy] and [mem_free] of the old block leave. *)
Lemma replace_block h a w m :
  load h a (length w) = Some w → Zlen w ≤ m →
  ∃ h2 h3, load (malloc h m).2 a (length w) = Some w ∧
    store (malloc h m).2 (malloc h m).1 w = Some h2 ∧
    free_block h2 a (length w) = Some h3 ∧
    load h3 (malloc h m).1 (length w) = Some w ∧ allocd h3 (malloc h m).1 m.
Proof.
  intros Hl Hm. pose proof (load_is_allocd _ _ _ _ Hl) as Ha.
  pose proof (malloc_allocd h m) as Hn. pose proof (malloc_fresh h m) as Hf.
  pose proof (malloc_frame h m) as Hr. destruct (malloc h m) as [b h1]. cbn [fst snd] in *.
  assert (Hout : ∀ i, a ≤ i < a + Zlen w → ¬ (b ≤ i < b + m)).
  { intros i Hi Hi'. destruct (Ha i Hi) as [? E]. by rewrite Hf in E. }
  assert (Hl1 : load h1 a (length w) = Some w).
  { rewrite <- Hl. apply load_ext. intros i Hi. apply Hr. auto. }
  destruct (store_allocd h1 b w) as [h2 Hs]; [eapply allocd_sub; [done|lia..]|].
  destruct (free_block_ok (length w) h2 a) as (h3 & Hfr & Hh3).
  { eapply allocd_dom; [by eapply store_dom|]. by eapply load_is_allocd. }
  exists h2, h3. do 3 (split; [done|]). split.
  - rewrite <- (load_store _ _ _ _ Hs). apply load_ext. intros i Hi. apply Hh3. intros Hi'.
    apply (Hout i Hi'). lia.
  - intros i Hi. rewrite Hh3; [|intros Hi'; by apply (Hout i)].
    by apply (allocd_dom _ _ _ _ (store_dom _ _ _ _ Hs) Hn).
Qed.

(** The stream's only buffer, of [size] bytes, holds [w]. *)
Record one_buffer (x : XDRQ) (w : list Z) (size : Z) (uv : xdr_ioq_uv) : Prop := {
  ob_uvq : uvq (x_private x) = [uv];
  ob_base : x_base (x_private x) = 0%nat;
  ob_v : x_v x = uv_v uv;
  ob_realloc : has_flag (uv_flags uv) UIO_FLAG_REALLOC = true;
  ob_free : has_flag (uv_flags uv) UIO_FLAG_FREE = true;
  ob_head : vio_head (uv_v uv) = vio_base (uv_v uv);
  ob_wrap : vio_wrap (uv_v uv) = vio_base (uv_v uv) + size;
  ob_size : size ≤ max_bsize (x_private x) < 2 ^ 64;
  ob_data : x_data x = vio_base (uv_v uv) + Zlen w;
  ob_tail : vio_base (uv_v uv) ≤ vio_tail (uv_v uv) ≤ x_data x;
  ob_room : Zlen w ≤ size;
  ob_here : load (x_mem x) (vio_base (uv_v uv)) (length w) = Some w;
  ob_alloc : allocd (x_mem x) (vio_base (uv_v uv)) size;
}.

Lemma one_buffer_store x w size uv bs :
  one_buffer x w size uv → Zlen w + Zlen bs ≤ size →
  ∃ h, store (x_mem x) (x_data x) bs = Some h ∧
       one_buffer (set_data (x_data x + Zlen bs) (set_mem h x)) (w ++ bs) size uv.
Proof.
  intros [] Hle. destruct (store_allocd (x_mem x) (x_data x) bs) as [h Hh].
  { eapply allocd_sub; [done|lia..]. }
  exists h. split; [done|]. constructor; cbn; try done; try len.
  - rewrite length_app. apply load_concat.
    + by rewrite (load_store_disj _ _ _ _ _ _ Hh) by lia.
    + rewrite <- ob_data0. by eapply load_store.
  - eapply allocd_dom; [by eapply store_dom|done].
Qed.

Lemma one_buffer_advance x w size uv :
  one_buffer x w size uv →
  ∃ uv' x', xdr_ioq_uv_advance x = Ret (None, x') ∧ one_buffer x' w size uv' ∧
    vio_tail (uv_v uv') = x_data x' ∧ max_bsize (x_private x') = max_bsize (x_private x).
Proof.
  intros []. unfold xdr_ioq_uv_advance, ioq_tail_update. rewrite ob_v0, ob_base0.
  destruct (Z.ltb_spec (vio_tail (uv_v uv)) (x_data x)).
  - cbn -[ioquv_length]. rewrite ob_uvq0, ?ob_base0. cbn -[ioquv_length].
    exists (set_uv_v (set_vio_tail (x_data x) (uv_v uv)) uv). eexists. split; [done|].
    split; [|done]. constructor; cbn; try done; [by rewrite ob_uvq0, ob_base0|lia].
  - rewrite ob_uvq0. cbn -[ioquv_length]. rewrite ?ob_uvq0. exists uv. eexists.
    split; [done|]. split; [|split; [cbn; lia|done]]. by constructor.
Qed.

(** A full buffer is replaced by a larger one, unless it is of the largest size. *)
Lemma one_buffer_more x w size uv :
  one_buffer x w size uv → Zlen w = size → 0 ≤ size →
  (size < max_bsize (x_private x) →
     ∃ i x' uv', ioq_next_or_append None x IOQ_FLAG_BALLOC = Ret (Some i, x') ∧
       one_buffer x' w (max_bsize (x_private x)) uv' ∧
       max_bsize (x_private x') = max_bsize (x_private x)) ∧
  (size = max_bsize (x_private x) →
     ∃ x' uv', ioq_next_or_append None x IOQ_FLAG_BALLOC = Ret (None, x') ∧
       one_buffer x' w size uv' ∧ max_bsize (x_private x') = max_bsize (x_private x)).
Proof.
  intros Hx Hw Hs. destruct (one_buffer_advance _ _ _ _ Hx) as (uv' & x1 & E & Hx1 & Ht & Hmax).
  unfold ioq_next_or_append. rewrite E. cbn [obind]. rewrite <- Hmax. clear E Hmax Hx x uv.
  pose proof Hx1 as []. unfold xdr_ioq_uv_append. rewrite ob_base0, ob_uvq0. cbn [lookup list_lookup access obind].
  rewrite ob_realloc0. change (has_flag IOQ_FLAG_BALLOC IOQ_FLAG_BALLOC) with true. cbn [andb].
  unfold ioq_realloc. unfold ioquv_size, ioquv_length, xdr_tail_inline.
  rewrite ob_v0, Ht, ob_wrap0, ob_head0, ob_data0, Z.sub_diag.
  replace (_ + size - _) with size by lia. replace (_ + Zlen w - _) with size by lia.
  rewrite (wrapu_id 64 size), (wrapu_id 64 0) by (unfold is_u; lia).
  split; intros Hmax; [rewrite (proj2 (Z.leb_gt _ _)) by lia|rewrite (proj2 (Z.leb_le _ _)) by lia; eauto].
  cbv zeta. rewrite ob_free0. cbn [negb x_mem on_ioq set_private].
  destruct (replace_block _ _ _ (max_bsize (x_private x1)) ob_here0) as (h2 & h3 & E1 & E2 & E3 & E4 & E5); [lia|].
  destruct (malloc _ _) as [b h1]. cbn [fst snd] in *. replace (Z.to_nat size) with (length w) by lia.
  rewrite E1. cbn [access obind]. rewrite E2. cbn [access obind]. rewrite E3. cbn [access obind].
  rewrite Z.sub_0_r. eexists _, _, _. split; [done|]. split; [|done].
  constructor; cbn; rewrite ?ob_uvq0; try done; cbn; lia.
Qed.

Lemma putbytes_room x w size uv bs :
  one_buffer x w size uv → Zlen w < size → bs ≠ [] →
  let k := Z.to_nat (size - Zlen w) in
  ∃ x', (∀ fuel, putbytes_loop None (S fuel) x bs = putbytes_loop None fuel x' (drop k bs)) ∧
    one_buffer x' (w ++ take k bs) size uv ∧ x_private x' = x_private x.
Proof.
  intros Hx Hlt Hbs k. pose proof Hx as []. destruct bs as [|b bs]; [done|].
  set (l := b :: bs) in *. set (n := Z.to_nat (if Zlen l <? size - Zlen w then Zlen l else size - Zlen w)).
  assert (En : take n l = take k l ∧ drop n l = drop k l ∧ Z.of_nat n = Zlen (take k l)).
  { subst n k. destruct (Z.ltb_spec (Zlen l) (size - Zlen w)).
    - rewrite !take_ge, !drop_ge by lia. split; [done|]. split; [done|lia].
    - split; [done|]. split; [done|]. rewrite length_take. lia. }
  destruct En as (En & Ed & El).
  destruct (one_buffer_store x w size uv (take k l) Hx) as (h & Hh & Hx').
  { rewrite length_take. lia. }
  eexists. split; [|split; [exact Hx'|done]]. intros fuel. cbn [putbytes_loop]. unfold l at 1. fold l.
  rewrite ob_v0, ob_wrap0. replace (_ + size - _) with (size - Zlen w) by lia.
  rewrite (proj2 (Z.ltb_ge (size - Zlen w) 0)), (proj2 (Z.eqb_neq _ _)) by lia.
  rewrite andb_false_r. cbv iota zeta. fold n. by rewrite En, Hh, Ed, El.
Qed.

Lemma putbytes_grow_full fuel x w size uv bs :
  one_buffer x w size uv → Zlen w = size → bs ≠ [] →
  putbytes_loop None (S fuel) x bs =
    let! (_, x') := ioq_next_or_append None x IOQ_FLAG_BALLOC in putbytes_loop None fuel x' bs.
Proof.
  intros [] Hw Hbs. destruct bs as [|b bs]; [done|]. cbn [putbytes_loop].
  rewrite ob_v0, ob_wrap0, ob_data0. replace (_ + size - _) with 0 by lia.
  by rewrite (proj2 (Z.ltb_ge (Zlen (b :: bs)) 0)) by lia.
Qed.

(** At the largest size the loop appends nothing and starts again. *)
Lemma putbytes_stuck fuel : ∀ x w size uv bs,
  one_buffer x w size uv → Zlen w = size → size = max_bsize (x_private x) → bs ≠ [] →
  putbytes_loop None fuel x bs = OutOfFuel.
Proof.
  induction fuel as [|fuel IH]; intros x w size uv bs Hx Hw Hmax Hbs; [by destruct bs|].
  rewrite (putbytes_grow_full _ _ _ _ _ _ Hx Hw Hbs).
  destruct (proj2 (one_buffer_more x w size uv Hx Hw ltac:(lia)) Hmax) as (x' & uv' & E & Hx' & Hm).
  rewrite E. cbn [obind]. eapply IH; [done|done|congruence|done].
Qed.

(** What a run of [putbytes] does: it writes all of [bs] when that fits in the largest
    size, given fuel [n], and otherwise never returns. *)
Definition runs (n : nat) (x : XDRQ) (w bs : list Z) : Prop :=
  (Zlen w + Zlen bs ≤ max_bsize (x_private x) → ∀ fuel, (n ≤ fuel)%nat →
     ∃ x' size' uv', putbytes_loop None fuel x bs = Ret x' ∧ one_buffer x' (w ++ bs) size' uv' ∧
       max_bsize (x_private x') = max_bsize (x_private x)) ∧
  (max_bsize (x_private x) < Zlen w + Zlen bs → ∀ fuel, putbytes_loop None fuel x bs = OutOfFuel).

Lemma runs_nil n x w size uv : one_buffer x w size uv → runs n x w [].
Proof.
  intros Hx. split.
  - intros _ fuel _. exists x, size, uv. rewrite app_nil_r. by destruct fuel.
  - intros Hlt fuel. destruct Hx. cbn in *. lia.
Qed.

(** One turn of the loop in a buffer with room. *)
Lemma runs_room n x w size uv bs :
  one_buffer x w size uv → Zlen w < size → bs ≠ [] →
  (∀ x' w' bs', one_buffer x' w' size uv → max_bsize (x_private x') = max_bsize (x_private x) →
     Zlen w' = size ∨ bs' = [] → runs n x' w' bs') →
  runs (S n) x w bs.
Proof.
  intros Hx Hlt Hbs IH. destruct (putbytes_room x w size uv bs Hx Hlt Hbs) as (x1 & E & Hx1 & Hp).
  set (k := Z.to_nat (size - Zlen w)) in *.
  assert (Hl : Zlen (w ++ take k bs) + Zlen (drop k bs) = Zlen w + Zlen bs).
  { rewrite <- Zlen_app, <- app_assoc, take_drop. apply Zlen_app. }
  destruct (IH x1 (w ++ take k bs) (drop k bs)) as [IH1 IH2]; [done|by rewrite Hp| |].
  { destruct (decide (length bs ≤ k)%nat); [right; by apply drop_ge|left].
    rewrite Zlen_app, length_take. lia. }
  rewrite Hl, Hp in IH1, IH2. rewrite <- app_assoc, take_drop in IH1.
  split; intros Hm [|fuel]; try lia; [|by destruct bs|by rewrite E; apply IH2].
  rewrite E. intros. apply IH1; [done|lia].
Qed.

(** A full buffer of the largest size is the end. *)
Lemma runs_full n x w size uv bs :
  one_buffer x w size uv → Zlen w = size → size = max_bsize (x_private x) → runs n x w bs.
Proof.
  intros Hx Hw Hm. destruct (decide (bs = [])) as [->|Hbs]; [by eapply runs_nil|].
  split; [destruct bs; [done|cbn; lia]|]. intros _ fuel. by eapply putbytes_stuck.
Qed.

(** A full smaller buffer is replaced. *)
Lemma runs_grow n x w size uv bs :
  one_buffer x w size uv → Zlen w = size → size < max_bsize (x_private x) → bs ≠ [] →
  (∀ x' uv', one_buffer x' w (max_bsize (x_private x)) uv' →
     max_bsize (x_private x') = max_bsize (x_private x) → runs n x' w bs) →
  runs (S n) x w bs.
Proof.
  intros Hx Hw Hm Hbs IH. pose proof (λ f, putbytes_grow_full f _ _ _ _ _ Hx Hw Hbs) as E.
  destruct (proj1 (one_buffer_more x w size uv Hx Hw ltac:(lia)) Hm) as (i & x' & uv' & Em & Hx' & Hm').
  rewrite Em in E. cbn [obind] in E. destruct (IH x' uv' Hx' Hm') as [IH1 IH2]. rewrite Hm' in IH1, IH2.
  split; intros Hle [|fuel]; try lia; [|by destruct bs|by rewrite E; apply IH2].
  rewrite E. intros. apply IH1; [done|lia].
Qed.

Lemma putbytes_runs x w size uv bs : one_buffer x w size uv → runs 3 x w bs.
Proof.
  intros Hx. destruct (decide (bs = [])) as [->|Hbs]; [by eapply runs_nil|].
  assert (Hmax : ∀ n x w uv bs, one_buffer x w (max_bsize (x_private x)) uv → runs (S n) x w bs).
  { clear. intros n x w uv bs Hx. destruct (decide (bs = [])) as [->|Hbs]; [by eapply runs_nil|].
    destruct (decide (Zlen w = max_bsize (x_private x))); [by eapply runs_full|].
    eapply runs_room; [done|pose proof (ob_room _ _ _ _ Hx); lia|done|].
    intros x' w' bs' Hx' Hm [Hw| ->]; [|by eapply runs_nil]. eapply runs_full; [done|done|congruence]. }
  assert (Hg : ∀ n x w uv bs, one_buffer x w size uv → Zlen w = size → runs (S (S n)) x w bs).
  { clear -Hmax. intros n x w uv bs Hx Hw. destruct (decide (bs = [])) as [->|Hbs]; [by eapply runs_nil|].
    pose proof (ob_size _ _ _ _ Hx).
    destruct (decide (size = max_bsize (x_private x))); [by eapply runs_full|].
    eapply runs_grow; [done|done|lia|done|]. intros x' uv' Hx' Hm. rewrite <- Hm in Hx'. by eapply Hmax. }
  destruct (decide (Zlen w = size)); [by eapply Hg|].
  eapply runs_room; [done|pose proof (ob_room _ _ _ _ Hx); lia|done|].
  intros x' w' bs' Hx' Hm [Hw| ->]; [by eapply Hg|by eapply runs_nil].
Qed.

Lemma ioq_create_one_buffer h min max :
  0 < min ≤ max → max < 2 ^ 64 →
  ∃ x uv, xdr_ioq_create h min max (Z.lor UIO_FLAG_REALLOC UIO_FLAG_FREE) = Ret x ∧
    one_buffer x [] min uv ∧ max_bsize (x_private x) = max.
Proof.
  intros Hmin Hmax. unfold xdr_ioq_create.
  change (has_flag (Z.lor UIO_FLAG_REALLOC UIO_FLAG_FREE) UIO_FLAG_BUFQ) with false. cbn [negb].
  rewrite uv_create_eq by lia. cbn [obind]. set (a := (malloc h min).1). set (h' := (malloc h min).2).
  set (uv := mk_uv (Z.lor UIO_FLAG_REALLOC UIO_FLAG_FREE) 1 false None (mk_vio a a a (a + min) 0 VIO_HEADER)).
  exists (mk_xdr XDR_ENCODE a (uv_v uv) (mk_ioq [uv] 1 0 min max 0 0) h'), uv.
  split; [|split; [constructor; cbn; try done; try lia; apply malloc_allocd|done]].
  unfold xdr_ioq_reset. cbn [x_private on_ioq set_private set_mem xdr_ioq_setup uvq set_uvq set_qcount
    head access obind]. destruct (_ <=? 0); [done|]. unfold set_vio_head. cbn. by rewrite Z.add_0_r.
Qed.

(** A stream that must stay contiguous, as the clients create for RPCSEC_GSS: bytes
    within the largest size all end up in order in its single buffer, the buffer being
    replaced by a larger one when it fills; with one byte more the loop of
    [xdr_ioq_putbytes] never returns, however long it runs, since the append gives no
    buffer and its result is not looked at. *)
Theorem ioq_realloc_limit h min max bs :
  0 < min ≤ max → max < 2 ^ 64 →
  ∃ x, xdr_ioq_create h min max (Z.lor UIO_FLAG_REALLOC UIO_FLAG_FREE) = Ret x ∧
    (Zlen bs ≤ max → ∃ x' uv, xdr_ioq_putbytes None x bs = Ret (true, x') ∧
       uvq (x_private x') = [uv] ∧ load (x_mem x') (vio_head (uv_v uv)) (length bs) = Some bs) ∧
    (max < Zlen bs → ∀ fuel, putbytes_loop None fuel x bs = OutOfFuel).
Proof.
  intros Hmin Hmax. destruct (ioq_create_one_buffer h min max) as (x & uv & Ex & Hx & Hm); [done..|].
  exists x. split; [done|]. destruct (putbytes_runs x [] min uv bs Hx) as [Hr1 Hr2].
  rewrite Hm in Hr1, Hr2. cbn [length Z.of_nat app] in Hr1, Hr2. split; [|intros; apply Hr2; lia].
  intros Hle. unfold xdr_ioq_putbytes. rewrite (ob_uvq _ _ _ _ Hx).
  destruct bs as [|b bs]; [exists x, uv; split; [done|]; by rewrite (ob_uvq _ _ _ _ Hx)|].
  destruct (Hr1 ltac:(lia) (length [uv] + 2 * length (b :: bs))%nat) as (x' & size & uv' & -> & [] & _); [cbn; lia|].
  exists x', uv'. rewrite ob_head0. done.
Qed.

End RoundTrip.

(** A queue of two buffers that received a string of seven bytes. *)
Definition some_name : ptr (list Z) := Pobj ([103; 97; 110; 101; 115; 104; 97] ++ [0]).

Definition two_buffers : list xdr_ioq_uv :=
  [mk_uv UIO_FLAG_FREE 1 false None (mk_vio 4096 4096 4104 4104 0 VIO_DATA);
   mk_uv UIO_FLAG_FREE 1 false None (mk_vio 8192 8192 8196 8208 0 VIO_DATA)].

Definition two_blocks : heap :=
  block 4096 (take 8 (wire (string_spec 32) some_name)) ∪ block 8192 (drop 8 (wire (string_spec 32) some_name)).

Lemma two_buffers_received : received two_blocks two_buffers (wire (string_spec 32) some_name).
Proof.
  constructor.
  - by vm_compute.
  - cbn. split; [lia|]. split; [right; done|]. split; [lia|]. split; [by left|done].
  - apply (bool_decide_unpack _). by vm_compute.
  - apply (bool_decide_unpack _). by vm_compute.
  - eexists. split; [done|done].
  - cbn. lia.
Qed.

Lemma ioq_filter_roundtrip_witness (O := @ioq_ops bump) (V := some_name) :
  ∃ x x', @xdr_ioq_create bump ∅ 8 64 UIO_FLAG_FREE = Ret x ∧ xdr_string 32 x V = Ret (true, V, x') ∧
    segs (x_mem x') (uvq (x_private (xdr_tail_update x'))) = Some (wire (string_spec 32) V) ∧
    (x_getpostn x').1 = u32 (Zlen (wire (string_spec 32) V)) ∧
    ∀ d vio b pl pc, ∃ y y',
      xdr_ioq_reset (mk_xdr XDR_DECODE d vio (mk_ioq two_buffers (Zlen two_buffers) b 8 64 pl pc) two_blocks) 0 = Ret y ∧
      xdr_string 32 y Pnull = Ret (true, V, y').
Proof.
  apply (@ioq_filter_roundtrip bump _ (xdr_string 32) (string_spec 32)
    (string_codec 32 ltac:(done) ltac:(done)) V Pnull ∅ 8 64 UIO_FLAG_FREE two_buffers two_blocks).
  - exists [103; 97; 110; 101; 115; 104; 97]. split_and!; try done; repeat constructor; lia.
  - done.
  - lia.
  - reflexivity.
  - reflexivity.
  - apply two_buffers_received.
Defined.

Lemma ioq_realloc_limit_witness :
  ∃ x, @xdr_ioq_create bump ∅ 4 8 (Z.lor UIO_FLAG_REALLOC UIO_FLAG_FREE) = Ret x ∧
    ∀ fuel, @putbytes_loop bump None fuel x [1; 2; 3; 4; 5; 6; 7; 8; 9] = OutOfFuel.
Proof.
  destruct (@ioq_realloc_limit bump ∅ 4 8 [1; 2; 3; 4; 5; 6; 7; 8; 9]) as (x & E & _ & H); [lia..|].
  exists x. split; [exact E|]. apply H. cbn. lia.
Defined.

(** ** Vectors

    The security layer gets the encoded bytes as a vector of entries, sized by
    [xdr_ioq_iovcount] and filled by [xdr_ioq_fillbufs]. *)

(** The bytes a vector designates. *)
Definition vio_bytes (h : heap) (v : xdr_vio) : option (list Z) :=
  if vio_tail v =? vio_head v + vio_length v
  then load h (vio_head v) (Z.to_nat (vio_length v)) else None.

Fixpoint vector_bytes (h : heap) (vs : list xdr_vio) : option (list Z) :=
  match vs with
  | [] => Some []
  | v :: vs => match vio_bytes h v, vector_bytes h vs with
               | Some bs, Some bs' => Some (bs ++ bs')
               | _, _ => None
               end
  end.

Lemma load_slice h a w s d :
  load h a (length w) = Some w → 0 ≤ s → 0 ≤ d → s + d ≤ Zlen w →
  load h (a + s) (Z.to_nat d) = Some (take (Z.to_nat d) (drop (Z.to_nat s) w)).
Proof.
  intros Hl Hs Hd Hle. rewrite <- (take_drop (Z.to_nat s) w) in Hl.
  apply load_app_inv in Hl as [_ Hl]; [|rewrite length_take, length_drop, length_app, length_take, length_drop; lia].
  rewrite <- (take_drop (Z.to_nat d) (drop (Z.to_nat s) w)) in Hl at 2.
  apply load_app_inv in Hl as [Hl _].
  - rewrite !length_take, length_drop in Hl.
    replace (a + s) with (a + Z.of_nat (Z.to_nat s `min` length w)) by lia.
    by replace (Z.to_nat d) with (Z.to_nat d `min` (length w - Z.to_nat s))%nat at 1 by lia.
  - rewrite !length_take, !length_drop. lia.
Qed.

Section Vectors.
Context (h : heap).

(** What is asked of the loops for [d] of the bytes [w] that are left, [k] buffers having
    been counted. *)
Definition vector_ok (w : list Z) (d k : Z) (r : list xdr_vio * bool) (n : Z) : Prop :=
  (d ≤ Zlen w → ∃ vs, r = (vs, true) ∧ vector_bytes h vs = Some (take (Z.to_nat d) w) ∧ n = k + Zlen vs) ∧
  (Zlen w < d → r.2 = false ∧ n = -1).

Lemma vector_ok_last w1 w2 d b v :
  d ≤ Zlen w1 → vio_bytes h v = Some (take (Z.to_nat d) w1) → vector_ok (w1 ++ w2) d (b - 1) ([v], true) b.
Proof.
  intros Hd Hv. split; [|rewrite Zlen_app; lia]. intros _. exists [v]. split; [done|].
  cbn. rewrite Hv, app_nil_r, take_app_le by lia. split; [done|lia].
Qed.

Lemma vector_ok_cons w1 w2 d b v r n :
  Zlen w1 ≤ d → vio_bytes h v = Some w1 → vector_ok w2 (d - Zlen w1) b r n →
  vector_ok (w1 ++ w2) d (b - 1) (let '(vs, c) := r in (v :: vs, c)) n.
Proof.
  intros Hd Hv [H1 H2]. split; rewrite Zlen_app; intros Hle.
  - destruct H1 as (vs & -> & Hvs & ->); [lia|]. exists (v :: vs). split; [done|].
    cbn [vector_bytes]. rewrite Hv, Hvs. rewrite take_app_ge by lia.
    replace (Z.to_nat d - length w1)%nat with (Z.to_nat (d - Zlen w1)) by lia. split; [done|cbn; lia].
  - destruct r. apply H2. lia.
Qed.

(** The buffer in which the range starts, or goes on with [s] 0. *)
Lemma vector_here uv q w1 w2 s d b :
  seg h uv = Some w1 → ordered uv → Zlen w1 + Zlen w2 < 2 ^ 32 → 0 ≤ s ≤ Zlen w1 → 0 ≤ d → d < 2 ^ 32 →
  (∀ d, 0 < d < 2 ^ 32 → vector_ok w2 d b (fillbufs_loop q true 0 d) (iovcount_loop q 0 d b)) →
  vector_ok (drop (Z.to_nat s) (w1 ++ w2)) d (b - 1) (fillbufs_loop (uv :: q) true s d)
    (let buflen := u32 (ioquv_length uv - s) in
     if d <=? buflen then b else iovcount_loop q 0 (u32 (d - buflen)) b).
Proof.
  intros Hs Ho Hlen Hss Hd Hd2 IH. unfold seg in Hs. red in Ho.
  pose proof (load_length _ _ _ _ Hs) as Hl. cbv zeta.
  assert (El : ioquv_length uv = Zlen w1).
  { unfold ioquv_length. rewrite wrapu_id by (unfold is_u; lia). lia. }
  cbn [fillbufs_loop]. rewrite El, (wrapu_id 32 (Zlen w1)), (wrapu_id 32 (Zlen w1 - s)) by (unfold is_u; lia).
  set (v0 := set_vio_type VIO_DATA (uv_v uv)).
  assert (Ev : (if 0 <? s then (Zlen w1 - s, set_vio_head (vio_head v0 + s) v0) else (Zlen w1, v0)) =
               (Zlen w1 - s, set_vio_head (vio_head v0 + s) v0)).
  { destruct (Z.ltb_spec 0 s); [done|]. replace s with 0 by lia. rewrite Z.sub_0_r, Z.add_0_r.
    by destruct v0. }
  rewrite Ev. clear Ev. rewrite drop_app_le by lia.
  assert (Hv : ∀ e, 0 ≤ e ≤ Zlen w1 - s →
    load h (vio_head (uv_v uv) + s) (Z.to_nat e) = Some (take (Z.to_nat e) (drop (Z.to_nat s) w1))).
  { intros e He. apply load_slice; [|lia..]. by rewrite Hl. }
  assert (Hd1 : Zlen (drop (Z.to_nat s) w1) = Zlen w1 - s) by (rewrite length_drop; lia).
  assert (Hv' : vio_bytes h (set_vio_length (Zlen w1 - s) (set_vio_head (vio_head v0 + s) v0)) =
                Some (drop (Z.to_nat s) w1)).
  { unfold vio_bytes. cbn. rewrite (proj2 (Z.eqb_eq _ _)), Hv by lia. by rewrite take_ge by lia. }
  destruct (Z.ltb_spec d (Zlen w1 - s)); [|destruct (Z.eqb_spec d (Zlen w1 - s))].
  - rewrite (proj2 (Z.leb_le _ _)) by lia. apply vector_ok_last; [lia|]. unfold vio_bytes. cbn.
    by rewrite Z.eqb_refl, Hv by lia.
  - rewrite (proj2 (Z.leb_le _ _)) by lia. apply vector_ok_last; [lia|]. by rewrite Hv', take_ge by lia.
  - rewrite (proj2 (Z.leb_gt _ _)), wrapu_id by (unfold is_u; lia). rewrite <- Hd1.
    apply vector_ok_cons; [lia|by rewrite Hd1|]. apply IH. lia.
Qed.

Lemma vector_rest q : ∀ w d b,
  segs h q = Some w → Forall ordered q → Zlen w < 2 ^ 32 → 0 < b → 0 < d < 2 ^ 32 →
  vector_ok w d b (fillbufs_loop q true 0 d) (iovcount_loop q 0 d b).
Proof.
  induction q as [|uv q IH]; intros w d b Hs Ho Hw Hb Hd.
  - injection Hs as <-. cbn [fillbufs_loop iovcount_loop]. rewrite (proj2 (Z.eqb_neq _ _)) by lia.
    split; cbn; [lia|done].
  - apply segs_cons in Hs as (w1 & w2 & H1 & H2 & ->). apply Forall_cons in Ho as [Ho1 Ho2].
    rewrite Zlen_app in Hw. cbn [iovcount_loop]. rewrite (proj2 (Z.ltb_lt 0 b)), (proj2 (Z.ltb_lt 0 (b + 1))) by lia.
    pose proof (vector_here uv q w1 w2 0 d (b + 1)) as Hh. replace (b + 1 - 1) with b in Hh by lia.
    apply Hh; try done; [lia..|]. intros d' Hd'. apply IH; [done|done|lia..].
Qed.

Lemma vector_range q : ∀ w s d,
  segs h q = Some w → Forall ordered q → Zlen w < 2 ^ 32 → 0 ≤ s < Zlen w → 0 ≤ d < 2 ^ 32 →
  vector_ok (drop (Z.to_nat s) w) d 0 (fillbufs_loop q false s d) (iovcount_loop q s d (-1)).
Proof.
  induction q as [|uv q IH]; intros w s d Hs Ho Hw Hss Hd; [injection Hs as <-; cbn in Hss; lia|].
  apply segs_cons in Hs as (w1 & w2 & H1 & H2 & ->). apply Forall_cons in Ho as [Ho1 Ho2].
  rewrite Zlen_app in *. pose proof (load_length _ _ _ _ H1) as Hl. pose proof Ho1 as Ho1'. red in Ho1'.
  assert (El : u32 (ioquv_length uv) = Zlen w1).
  { unfold ioquv_length. rewrite wrapu_narrow, wrapu_id by (unfold is_u; lia). lia. }
  destruct (Z.ltb_spec s (Zlen w1)) as [Hlt|Hge].
  - assert (E : fillbufs_loop (uv :: q) false s d = fillbufs_loop (uv :: q) true s d).
    { cbn [fillbufs_loop]. by rewrite El, (proj2 (Z.ltb_lt _ _)) by lia. }
    rewrite E. cbn [iovcount_loop]. rewrite El. change (0 <? -1) with false.
    rewrite (proj2 (Z.ltb_lt s _)) by lia. change (0 <? 1) with true.
    apply (vector_here uv q w1 w2 s d 1); try done; [lia..|].
    intros d' Hd'. apply vector_rest; [done|done|lia..].
  - cbn [fillbufs_loop iovcount_loop]. rewrite El. change (0 <? -1) with false.
    rewrite (proj2 (Z.ltb_ge s _)) by lia. change (0 <? -1) with false. rewrite wrapu_id by (unfold is_u; lia).
    rewrite drop_app_ge by lia. replace (Z.to_nat s - length w1)%nat with (Z.to_nat (s - Zlen w1)) by lia.
    apply IH; [done|done|lia..].
Qed.
End Vectors.

(** The vector handed to the security layer is exact: for every range of the stream
    that starts inside it, [xdr_ioq_iovcount] gives the number of entries that
    [xdr_ioq_fillbufs] writes, each entry's length agrees with its pointers, and
    together, in order, the entries designate exactly the bytes of the range, in place;
    when the stream ends before the range does, the count is -1 and the filling fails. *)
Theorem ioq_vector_exact (x : XDRQ) w start datalen :
  let q := uvq (x_private (ioq_tail_update x)) in
  segs (x_mem x) q = Some w → Forall ordered q → Zlen w < 2 ^ 32 →
  0 ≤ start < Zlen w → 0 ≤ datalen < 2 ^ 32 →
  let r := (xdr_ioq_fillbufs x start datalen).1 in
  let n := (xdr_ioq_iovcount x start datalen).1 in
  (start + datalen ≤ Zlen w →
     r.2 = true ∧ n = Zlen r.1 ∧
     vector_bytes (x_mem x) r.1 = Some (take (Z.to_nat datalen) (drop (Z.to_nat start) w))) ∧
  (Zlen w < start + datalen → r.2 = false ∧ n = -1).
Proof.
  intros q Hs Ho Hw Hst Hd r n.
  destruct (vector_range (x_mem x) q w start datalen) as [H1 H2]; [done..|].
  rewrite length_drop in H1, H2. split; intros Hle; [|apply H2; lia].
  destruct H1 as (vs & Er & Hvs & En); [lia|]. subst r n. unfold xdr_ioq_fillbufs, xdr_ioq_iovcount.
  cbn [fst snd]. fold q. rewrite Er, En. done.
Qed.

(** A queue read from its first buffer. *)
Definition two_reader : XDRQ :=
  mk_xdr XDR_DECODE 4096 (mk_vio 4096 4096 4104 4104 0 VIO_DATA)
    (mk_ioq two_buffers 2 0 8 64 0 0) two_blocks.

Lemma ioq_vector_exact_witness :
  let r := (xdr_ioq_fillbufs two_reader 4 7).1 in
  r.2 = true ∧ (xdr_ioq_iovcount two_reader 4 7).1 = Zlen r.1 ∧
  vector_bytes two_blocks r.1 = Some [103; 97; 110; 101; 115; 104; 97].
Proof.
  apply (ioq_vector_exact two_reader (wire (string_spec 32) some_name) 4 7).
  - apply two_buffers_received.
  - cbn. repeat constructor; unfold ordered; cbn; lia.
  - by vm_compute.
  - by vm_compute.
  - lia.
  - by vm_compute.
Defined.

(** ** Positions *)

(** The bytes from where the stream stands to its end. *)
Definition ioq_ahead (x : XDRQ) : option (list Z) :=
  match load (x_mem x) (x_data x) (Z.to_nat (vio_tail (x_v x) - x_data x)),
        segs (x_mem x) (drop (S (x_base (x_private x))) (uvq (x_private x))) with
  | Some l1, Some l2 => Some (l1 ++ l2)
  | _, _ => None
  end.

(** The buffer looked at is behind [pre], whose bytes are counted in [plength]. *)
Lemma setpos_inside post : ∀ x pre pos w,
  uvq (x_private x) = pre ++ post → segs (x_mem x) post = Some w → Forall ordered post →
  0 ≤ plength (x_private x) → plength (x_private x) + Zlen w < 2 ^ 32 → 0 ≤ pos < Zlen w →
  ∃ x', setpos_loop x post (length pre) pos = (true, x') ∧
    ioq_ahead x' = Some (drop (Z.to_nat pos) w) ∧ x_data x' < vio_tail (x_v x') ∧
    plength (x_private x') + (x_data x' - vio_head (x_v x')) = plength (x_private x) + pos ∧
    0 ≤ plength (x_private x') ∧ vio_head (x_v x') ≤ x_data x' ∧ x_mem x' = x_mem x.
Proof.
  induction post as [|uv post IH]; intros x pre pos w Hq Hs Ho Hp0 Hp Hpos.
  { injection Hs as <-. cbn in Hpos. lia. }
  apply segs_cons in Hs as (w1 & w2 & H1 & H2 & ->). apply Forall_cons in Ho as [Ho1 Ho2].
  rewrite Zlen_app in *. pose proof (load_length _ _ _ _ H1) as Hl. red in Ho1.
  assert (El : u32 (ioquv_length uv) = Zlen w1).
  { unfold ioquv_length. rewrite wrapu_narrow, wrapu_id by (unfold is_u; lia). lia. }
  cbn [setpos_loop]. rewrite El. destruct (Z.ltb_spec pos (Zlen w1)) as [Hlt|Hge]; cbn [orb].
  - eexists. split; [done|]. cbn. unfold ioq_ahead. cbn. rewrite Hq, cons_middle, app_assoc.
    rewrite drop_app_length', H2 by (rewrite length_app; simpl; lia).
    rewrite load_slice with (w := w1); [|by rewrite Hl|lia..].
    rewrite drop_app_le, take_ge by (rewrite ?length_drop; lia). split; [done|].
    split; [lia|]. split; [lia|]. split; [lia|]. split; [lia|done].
  - destruct post as [|uv' post]; [injection H2 as <-; cbn in Hpos; lia|]. cbn [andb].
    rewrite (wrapu_id 32 (pos - _)) by (unfold is_u; lia). set (x1 := on_ioq _ x).
    assert (Epl : plength (x_private x1) = plength (x_private x) + Zlen w1).
    { subst x1. cbn. apply wrapu_id. unfold is_u. lia. }
    destruct (IH x1 (pre ++ [uv]) (pos - Zlen w1) w2) as (x' & E & Ha & Hr); try done; [|lia..|].
    { subst x1. cbn. by rewrite <- app_assoc. }
    rewrite length_app, Nat.add_comm in E. exists x'. split; [exact E|]. rewrite drop_app_ge by lia.
    replace (Z.to_nat pos - length w1)%nat with (Z.to_nat (pos - Zlen w1)) by lia.
    split; [done|]. rewrite Epl in Hr. destruct Hr as (? & ? & ? & ? & Hm).
    split; [done|]. split; [lia|]. split; [done|]. split; [done|exact Hm].
Qed.

(** Past all the bytes only the last buffer is left, compared with the current one. *)
Lemma setpos_end pre : ∀ x i w w2 uv,
  segs (x_mem x) pre = Some w → seg (x_mem x) uv = Some w2 → Forall ordered (pre ++ [uv]) →
  Zlen w + Zlen w2 < 2 ^ 32 →
  (setpos_loop x (pre ++ [uv]) i (Zlen w + Zlen w2)).1 =
    (Zlen w2 <=? u32 (vio_wrap (x_v x) - vio_head (x_v x))).
Proof.
  assert (El : ∀ h uv w, seg h uv = Some w → ordered uv → Zlen w < 2 ^ 32 → u32 (ioquv_length uv) = Zlen w).
  { intros h uv w Hs Ho Hw. red in Ho. apply load_length in Hs. unfold ioquv_length.
    rewrite wrapu_narrow, wrapu_id by (unfold is_u; lia). lia. }
  induction pre as [|uv0 pre IH]; intros x i w w2 uv Hs H2 Ho Hw.
  - injection Hs as <-. apply Forall_cons in Ho as [Ho _]. cbn [app setpos_loop length Z.of_nat Z.add].
    rewrite (El _ _ _ H2 Ho), Z.ltb_irrefl by lia. cbn [orb andb]. by destruct (_ <=? _).
  - apply segs_cons in Hs as (w0 & w1 & H0 & H1 & ->). apply Forall_cons in Ho as [Ho Ho'].
    rewrite Zlen_app in *. cbn [app setpos_loop]. rewrite (El _ _ _ H0 Ho) by lia.
    rewrite (proj2 (Z.ltb_ge _ _)) by lia. rewrite (wrapu_id 32 (_ - Zlen w0)) by (unfold is_u; lia).
    replace (Zlen w0 + Zlen w1 + Zlen w2 - Zlen w0) with (Zlen w1 + Zlen w2) by lia.
    assert (match pre ++ [uv] with [] => true | _ => false end = false) as -> by (by destruct pre).
    cbn [orb andb]. apply (IH (on_ioq _ x)); [done|done|done|lia].
Qed.

(** Seeking: a position inside the stream is always reached -- the stream then stands
    on a byte of a buffer, reports that position, and what is ahead is what follows that
    position -- wherever the stream stood before.  The position just behind the last
    byte, the one an encoder goes back to, is accepted or refused by comparing the bytes
    in the last buffer with the size of the buffer the stream happens to stand in. *)
Theorem ioq_setpos_positions (x : XDRQ) w pos :
  let q := uvq (x_private (ioq_tail_update x)) in
  segs (x_mem x) q = Some w → Forall ordered q → Zlen w < 2 ^ 32 →
  (0 ≤ pos < Zlen w → ∃ x', xdr_ioq_setpos x pos = (true, x') ∧
     (xdr_ioq_getpos x').1 = pos ∧ ioq_ahead x' = Some (drop (Z.to_nat pos) w) ∧
     x_data x' < vio_tail (x_v x')) ∧
  (∀ pre uv w2, q = pre ++ [uv] → seg (x_mem x) uv = Some w2 → pos = Zlen w →
     (xdr_ioq_setpos x pos).1 = (Zlen w2 <=? u32 (vio_wrap (x_v x) - vio_head (x_v x)))).
Proof.
  intros q Hs Ho Hw. unfold xdr_ioq_setpos. set (x0 := on_ioq _ (ioq_tail_update x)).
  assert (Em : x_mem x0 = x_mem x) by (subst x0; unfold ioq_tail_update; by destruct (_ <? _)).
  assert (Eq : uvq (x_private x0) = q) by done. rewrite Eq. split.
  - intros Hp. destruct (setpos_inside q x0 [] pos w) as (x' & E & Ha & Ht & Hpl & Hp0 & Hh & _);
      [done|by rewrite Em|done|done|cbn; lia|done|]. cbn in Hpl.
    exists x'. split; [exact E|]. split; [|done]. unfold xdr_ioq_getpos, ioq_tail_update.
    rewrite (proj2 (Z.ltb_ge _ _)) by lia. cbn [fst].
    rewrite (wrapu_id 64 (_ - _)), wrapu_id by (unfold is_u; lia). lia.
  - intros pre uv w2 -> H2 ->. apply segs_app in Hs as (w1 & w2' & H1 & H2' & ->).
    apply segs_cons in H2' as (w3 & w4 & H3 & [= <-] & ->). rewrite app_nil_r in *.
    rewrite H3 in H2. injection H2 as ->. rewrite Zlen_app in *. rewrite <- Em in H1, H3.
    rewrite (setpos_end _ _ _ _ _ _ H1 H3) by done. subst x0. unfold ioq_tail_update.
    by destruct (_ <? _).
Qed.

(** Standing in a buffer of 8 bytes, before one that holds 12. *)
Definition small_then_large : XDRQ :=
  mk_xdr XDR_ENCODE 4100 (mk_vio 4096 4096 4104 4104 0 VIO_DATA)
    (mk_ioq [mk_uv UIO_FLAG_FREE 1 false None (mk_vio 4096 4096 4104 4104 0 VIO_DATA);
             mk_uv UIO_FLAG_FREE 1 false None (mk_vio 8192 8192 8204 8208 0 VIO_DATA)] 2 0 8 64 0 0)
    (block 4096 (seqZ 0 8) ∪ block 8192 (seqZ 8 12)).

Lemma ioq_setpos_positions_witness :
  (∃ x', xdr_ioq_setpos small_then_large 10 = (true, x') ∧ (xdr_ioq_getpos x').1 = 10 ∧
     ioq_ahead x' = Some (seqZ 10 10) ∧ x_data x' < vio_tail (x_v x')) ∧
  (xdr_ioq_setpos small_then_large 20).1 = false.
Proof.
  assert (Ho : Forall ordered (uvq (x_private (ioq_tail_update small_then_large)))).
  { cbn. repeat constructor; unfold ordered; cbn; lia. }
  split.
  - apply (ioq_setpos_positions small_then_large (seqZ 0 20) 10); [by vm_compute|exact Ho|by vm_compute|].
    by vm_compute.
  - apply (ioq_setpos_positions small_then_large (seqZ 0 20) 20) with
      (pre := take 1 (uvq (x_private small_then_large)))
      (uv := mk_uv UIO_FLAG_FREE 1 false None (mk_vio 8192 8192 8204 8208 0 VIO_DATA)) (w2 := seqZ 8 12);
      [by vm_compute|exact Ho|by vm_compute..].
Defined.

(** ** Units across buffers *)

(** A unit of which some bytes, but not all, are in the current buffer is refused, and
    the stream is left as it was, whatever the next buffers hold. *)
Theorem ioq_getunit_straddling (x : XDRQ) :
  x_data x < vio_tail (x_v x) < x_data x + 4 →
  xdr_ioq_getunit x = Ret (None, x).
Proof.
  intros Hx. unfold xdr_ioq_getunit. destruct (length _); cbn [getunit_loop];
    rewrite (proj2 (Z.leb_gt _ _)), (proj2 (Z.eqb_neq _ _)) by lia; done.
Qed.
