(* ===== verification/RpcMsg.v ===== *)
(** * RPC messages (ntirpc/rpc/rpc_msg.h, ntirpc/rpc/auth_inline.h,
      src/rpc_callmsg.c, src/rpc_dplx_msg.c, src/rpc_prot.c)

    The call and reply headers and their encoders and decoders, each with its
    in-line path (a window of the current buffer) and its stream path.  Arms of a
    C union are separate fields here: the code assigns the discriminant together
    with the arm and reads only the arm it selects. *)
From stdpp Require Import base gmap list.
From Stdlib Require Import ZArith Lia.
From S2P Require Import Prelude Machine XdrHandle XdrInline.

(** ** Data *)

Definition RPC_MSG_VERSION : Z := 2.
Definition MAX_AUTH_BYTES : Z := 400.

(** enum msg_type, reply_stat, accept_stat, reject_stat *)
Definition CALL : Z := 0.
Definition REPLY : Z := 1.
Definition MSG_ACCEPTED : Z := 0.
Definition MSG_DENIED : Z := 1.
Definition SUCCESS : Z := 0.
Definition PROG_UNAVAIL : Z := 1.
Definition PROG_MISMATCH : Z := 2.
Definition PROC_UNAVAIL : Z := 3.
Definition GARBAGE_ARGS : Z := 4.
Definition SYSTEM_ERR : Z := 5.
Definition RPC_MISMATCH : Z := 0.
Definition AUTH_ERROR : Z := 1.

(** [oa_body] is an array of [MAX_AUTH_BYTES] bytes. *)
Record opaque_auth := mk_auth {
  oa_flavor : Z;
  oa_length : Z;
  oa_body : list Z;
}.

Definition _null_auth : opaque_auth := mk_auth 0 0 (replicate 400 0).

Record rpcversions := mk_versions { low : Z; high : Z }.

(** [R] is what [ar_results.where] points to. *)
Record accepted_reply (R : Type) := mk_accepted {
  ar_stat : Z;
  ar_vers : rpcversions;
  ar_results : R;
  ar_verf : opaque_auth;
}.
Arguments mk_accepted {R}.
Arguments ar_stat {R}.
Arguments ar_vers {R}.
Arguments ar_results {R}.
Arguments ar_verf {R}.

Record rejected_reply := mk_rejected {
  rj_stat : Z;
  rj_vers : rpcversions;
  rj_why : Z;
}.

Record reply_body (R : Type) := mk_reply {
  rp_stat : Z;
  rp_acpt : accepted_reply R;
  rp_rjct : rejected_reply;
}.
Arguments mk_reply {R}.
Arguments rp_stat {R}.
Arguments rp_acpt {R}.
Arguments rp_rjct {R}.

(** [rm_xdr], [rm_flags] and [rq_cred_body] are not touched by the encoders. *)
Record rpc_msg (R : Type) := mk_msg {
  rm_xid : Z;
  rm_direction : Z;
  cb_rpcvers : Z;
  rm_reply : reply_body R;
  cb_prog : Z;
  cb_vers : Z;
  cb_proc : Z;
  cb_cred : opaque_auth;
  cb_verf : opaque_auth;
}.
Arguments mk_msg {R}.
Arguments rm_xid {R}.
Arguments rm_direction {R}.
Arguments cb_rpcvers {R}.
Arguments rm_reply {R}.
Arguments cb_prog {R}.
Arguments cb_vers {R}.
Arguments cb_proc {R}.
Arguments cb_cred {R}.
Arguments cb_verf {R}.

Section Assign.
Context {R : Type}.
Implicit Types m : rpc_msg R.
Implicit Types rb : reply_body R.
Implicit Types ar : accepted_reply R.

Definition set_flavor v oa := mk_auth v (oa_length oa) (oa_body oa).
Definition set_length v oa := mk_auth (oa_flavor oa) v (oa_body oa).
Definition set_body v oa := mk_auth (oa_flavor oa) (oa_length oa) v.
Definition set_low v vs := mk_versions v (high vs).
Definition set_high v vs := mk_versions (low vs) v.
Definition set_ar_stat v ar := mk_accepted v (ar_vers ar) (ar_results ar) (ar_verf ar).
Definition set_ar_vers v ar := mk_accepted (ar_stat ar) v (ar_results ar) (ar_verf ar).
Definition set_ar_results (v : R) (ar : accepted_reply R) := mk_accepted (ar_stat ar) (ar_vers ar) v (ar_verf ar).
Definition set_ar_verf v ar := mk_accepted (ar_stat ar) (ar_vers ar) (ar_results ar) v.
Definition set_rj_stat v rr := mk_rejected v (rj_vers rr) (rj_why rr).
Definition set_rj_vers v rr := mk_rejected (rj_stat rr) v (rj_why rr).
Definition set_rj_why v rr := mk_rejected (rj_stat rr) (rj_vers rr) v.
Definition set_rp_stat v rb := mk_reply v (rp_acpt rb) (rp_rjct rb).
Definition set_rp_acpt (v : accepted_reply R) rb := mk_reply (rp_stat rb) v (rp_rjct rb).
Definition set_rp_rjct v rb := mk_reply (rp_stat rb) (rp_acpt rb) v.
Definition set_xid v m := mk_msg v (rm_direction m) (cb_rpcvers m) (rm_reply m)
  (cb_prog m) (cb_vers m) (cb_proc m) (cb_cred m) (cb_verf m).
Definition set_direction v m := mk_msg (rm_xid m) v (cb_rpcvers m) (rm_reply m)
  (cb_prog m) (cb_vers m) (cb_proc m) (cb_cred m) (cb_verf m).
Definition set_rpcvers v m := mk_msg (rm_xid m) (rm_direction m) v (rm_reply m)
  (cb_prog m) (cb_vers m) (cb_proc m) (cb_cred m) (cb_verf m).
Definition set_reply (v : reply_body R) m := mk_msg (rm_xid m) (rm_direction m) (cb_rpcvers m) v
  (cb_prog m) (cb_vers m) (cb_proc m) (cb_cred m) (cb_verf m).
Definition set_prog v m := mk_msg (rm_xid m) (rm_direction m) (cb_rpcvers m) (rm_reply m)
  v (cb_vers m) (cb_proc m) (cb_cred m) (cb_verf m).
Definition set_vers v m := mk_msg (rm_xid m) (rm_direction m) (cb_rpcvers m) (rm_reply m)
  (cb_prog m) v (cb_proc m) (cb_cred m) (cb_verf m).
Definition set_proc v m := mk_msg (rm_xid m) (rm_direction m) (cb_rpcvers m) (rm_reply m)
  (cb_prog m) (cb_vers m) v (cb_cred m) (cb_verf m).
Definition set_cred v m := mk_msg (rm_xid m) (rm_direction m) (cb_rpcvers m) (rm_reply m)
  (cb_prog m) (cb_vers m) (cb_proc m) v (cb_verf m).
Definition set_verf v m := mk_msg (rm_xid m) (rm_direction m) (cb_rpcvers m) (rm_reply m)
  (cb_prog m) (cb_vers m) (cb_proc m) (cb_cred m) v.

(** [RPCM_ack] and [RPCM_rej]. *)
Definition RPCM_ack m := rp_acpt (rm_reply m).
Definition RPCM_rej m := rp_rjct (rm_reply m).
Definition set_ack v m := set_reply (set_rp_acpt v (rm_reply m)) m.
Definition set_rej v m := set_reply (set_rp_rjct v (rm_reply m)) m.
Definition set_reply_stat v m := set_reply (set_rp_stat v (rm_reply m)) m.
End Assign.

(** [rpc_msg_init]; the results procedure becomes [xdr_void], its object [where]. *)
Definition rpc_msg_init {R} (where_ : R) (msg : rpc_msg R) : rpc_msg R :=
  set_ack (set_ar_results where_ (set_ar_verf _null_auth (RPCM_ack msg))) msg.

(** ** Words in a window or in the stream *)

Section Words.
Context {P : Type} `{XdrOps P}.
Implicit Types xdrs : XDR P.

(** One word from the window, or from the stream with [get]. *)
Definition next_word (get : XDR P → out (option Z * XDR P)) (conv : Z → Z) xdrs
    (buf : option Z) : out (option Z * XDR P * option Z) :=
  match buf with
  | Some buf => let! (v, buf) := IXDR_GET_U_INT32 xdrs buf in Ret (Some (conv v), xdrs, Some buf)
  | None => let! (o, xdrs) := get xdrs in Ret (o, xdrs, None)
  end.
End Words.

Notation "'word!' ( v , x , b ) := m 'fail' o 'in' k" :=
  (obind m (fun r => let '(w, x, b) := r in
            match w with Some v => k | None => Ret (false, o, x) end))
  (at level 10, v name, x name, b name, m at level 100, o at level 100, k at level 200,
   format "'word!'  ( v ,  x ,  b )  :=  m  'fail'  o  'in' '//' k") : out_scope.

(** ** Credentials and verifiers (auth_inline.h) *)

Section Auth.
Context {P : Type} `{XdrOps P}.
Implicit Types xdrs : XDR P.
Implicit Types oa : opaque_auth.

Definition xdr_opaque_auth_encode_it xdrs oa : out (bool * XDR P) :=
  if MAX_AUTH_BYTES <? oa_length oa then Ret (false, xdrs)
  else xdr_opaque_encode xdrs (oa_body oa) (oa_length oa).

Definition xdr_opaque_auth_encode xdrs oa : out (bool * XDR P) :=
  check! xdrs := xdr_putenum xdrs (oa_flavor oa) in
  check! xdrs := xdr_putuint32 xdrs (oa_length oa) in
  if oa_length oa =? 0 then Ret (true, xdrs) else xdr_opaque_auth_encode_it xdrs oa.

Definition xdr_opaque_auth_decode_it xdrs oa : out (bool * opaque_auth * XDR P) :=
  if MAX_AUTH_BYTES <? oa_length oa then Ret (false, oa, xdrs) else
  let! (b, body, xdrs) := xdr_opaque_decode xdrs (oa_body oa) (oa_length oa) in
  Ret (b, set_body body oa, xdrs).

(** [buf] is a window with two more words, or NULL. *)
Definition xdr_opaque_auth_decode xdrs oa (buf : option Z) : out (bool * opaque_auth * XDR P) :=
  word! (flavor, xdrs, buf) := next_word xdr_getenum s32 xdrs buf fail oa in
  let oa := set_flavor flavor oa in
  word! (len, xdrs, buf) := next_word xdr_getuint32 id xdrs buf fail oa in
  let oa := set_length len oa in
  if oa_length oa =? 0 then Ret (true, oa, xdrs) else xdr_opaque_auth_decode_it xdrs oa.

Definition xdr_opaque_auth : xdrproc P opaque_auth := λ xdrs oa,
  match x_op xdrs with
  | XDR_ENCODE => keep oa (xdr_opaque_auth_encode xdrs oa)
  | XDR_DECODE => xdr_opaque_auth_decode xdrs oa None
  | XDR_FREE => Ret (true, oa, xdrs)
  end.

(** [XDR a DES block] *)
Definition xdr_des_block : xdrproc P (list Z) := xdr_opaque 8.
End Auth.

(** ** Call messages (rpc_callmsg.c) *)

Section Call.
Context {P : Type} `{XdrOps P} {R : Type}.
Implicit Types xdrs : XDR P.
Implicit Types cmsg : rpc_msg R.

(** [memcpy(buf, oa->oa_body, oa->oa_length)] and the pointer past its padding,
    for a non-empty body. *)
Definition ixdr_put_body xdrs (buf : Z) (oa : opaque_auth) : out (XDR P * Z) :=
  if oa_length oa =? 0 then Ret (xdrs, buf) else
  let! body := read_bytes (oa_body oa) (oa_length oa) in
  let! xdrs := ixdr_memcpy xdrs buf body in
  Ret (xdrs, buf + RNDUP (oa_length oa)).

Definition xdr_call_encode xdrs cmsg : out (bool * XDR P) :=
  if MAX_AUTH_BYTES <? oa_length (cb_cred cmsg) then Ret (false, xdrs) else
  if MAX_AUTH_BYTES <? oa_length (cb_verf cmsg) then Ret (false, xdrs) else
  let (buf, xdrs) := xdr_inline_encode xdrs
    (8 * BYTES_PER_XDR_UNIT + RNDUP (oa_length (cb_cred cmsg)) +
     2 * BYTES_PER_XDR_UNIT + RNDUP (oa_length (cb_verf cmsg))) in
  match buf with
  | Some buf =>
      let! (xdrs, buf) := IXDR_PUT_INT32 xdrs buf (rm_xid cmsg) in
      let! (xdrs, buf) := IXDR_PUT_ENUM xdrs buf (rm_direction cmsg) in
      let! (xdrs, buf) := IXDR_PUT_INT32 xdrs buf (cb_rpcvers cmsg) in
      if negb (cb_rpcvers cmsg =? RPC_MSG_VERSION) then Ret (false, xdrs) else
      let! (xdrs, buf) := IXDR_PUT_INT32 xdrs buf (cb_prog cmsg) in
      let! (xdrs, buf) := IXDR_PUT_INT32 xdrs buf (cb_vers cmsg) in
      let! (xdrs, buf) := IXDR_PUT_INT32 xdrs buf (cb_proc cmsg) in
      let oa := cb_cred cmsg in
      let! (xdrs, buf) := IXDR_PUT_ENUM xdrs buf (oa_flavor oa) in
      let! (xdrs, buf) := IXDR_PUT_INT32 xdrs buf (oa_length oa) in
      let! (xdrs, buf) := ixdr_put_body xdrs buf oa in
      let oa := cb_verf cmsg in
      let! (xdrs, buf) := IXDR_PUT_ENUM xdrs buf (oa_flavor oa) in
      let! (xdrs, buf) := IXDR_PUT_INT32 xdrs buf (oa_length oa) in
      let! (xdrs, buf) := ixdr_put_body xdrs buf oa in
      Ret (true, xdrs)
  | None =>
      check! xdrs := xdr_putuint32 xdrs (rm_xid cmsg) in
      check! xdrs := xdr_putenum xdrs (rm_direction cmsg) in
      check! xdrs := xdr_putuint32 xdrs (cb_rpcvers cmsg) in
      if negb (cb_rpcvers cmsg =? RPC_MSG_VERSION) then Ret (false, xdrs) else
      check! xdrs := xdr_putuint32 xdrs (cb_prog cmsg) in
      check! xdrs := xdr_putuint32 xdrs (cb_vers cmsg) in
      check! xdrs := xdr_putuint32 xdrs (cb_proc cmsg) in
      check! xdrs := xdr_opaque_auth_encode xdrs (cb_cred cmsg) in
      check! xdrs := xdr_opaque_auth_encode xdrs (cb_verf cmsg) in
      Ret (true, xdrs)
  end.

(** [buf] is a window with three more words, or NULL. *)
Definition xdr_call_decode xdrs cmsg (buf : option Z) : out (bool * rpc_msg R * XDR P) :=
  word! (v, xdrs, buf) := next_word xdr_getuint32 id xdrs buf fail cmsg in
  let cmsg := set_rpcvers v cmsg in
  if negb (v =? RPC_MSG_VERSION) then Ret (false, cmsg, xdrs) else
  word! (prog, xdrs, buf) := next_word xdr_getuint32 id xdrs buf fail cmsg in
  let cmsg := set_prog prog cmsg in
  word! (vers, xdrs, buf) := next_word xdr_getuint32 id xdrs buf fail cmsg in
  let cmsg := set_vers vers cmsg in
  let (buf, xdrs) := xdr_inline_decode xdrs (3 * BYTES_PER_XDR_UNIT) in
  word! (proc, xdrs, buf) := next_word xdr_getuint32 id xdrs buf fail cmsg in
  let cmsg := set_proc proc cmsg in
  let! (b, oa, xdrs) := xdr_opaque_auth_decode xdrs (cb_cred cmsg) buf in
  let cmsg := set_cred oa cmsg in
  if negb b then Ret (false, cmsg, xdrs) else
  let! (b, oa, xdrs) := xdr_opaque_auth_decode xdrs (cb_verf cmsg) None in
  Ret (b, set_verf oa cmsg, xdrs).
End Call.

(** ** Reply messages (rpc_prot.c, rpc_dplx_msg.c) *)

(** enum clnt_stat, the values the reply classification uses *)
Definition RPC_SUCCESS : Z := 0.
Definition RPC_VERSMISMATCH : Z := 6.
Definition RPC_AUTHERROR : Z := 7.
Definition RPC_PROGUNAVAIL : Z := 8.
Definition RPC_PROGVERSMISMATCH : Z := 9.
Definition RPC_PROCUNAVAIL : Z := 10.
Definition RPC_CANTDECODEARGS : Z := 11.
Definition RPC_SYSTEMERROR : Z := 12.
Definition RPC_FAILED : Z := 16.

Record rpc_err := mk_err {
  re_status : Z;
  re_why : Z;
  re_vers : rpcversions;
  re_lb_s1 : Z;
  re_lb_s2 : Z;
}.

Definition set_re_status v e := mk_err v (re_why e) (re_vers e) (re_lb_s1 e) (re_lb_s2 e).
Definition set_re_why v e := mk_err (re_status e) v (re_vers e) (re_lb_s1 e) (re_lb_s2 e).
Definition set_re_vers v e := mk_err (re_status e) (re_why e) v (re_lb_s1 e) (re_lb_s2 e).
Definition set_re_lb s1 s2 e := mk_err (re_status e) (re_why e) (re_vers e) s1 s2.

Section Reply.
Context {P : Type} `{XdrOps P} {R : Type}.

(** [ar_results.proc], chosen by the caller. *)
Context (ar_proc : xdrproc P R).

Implicit Types xdrs : XDR P.
Implicit Types dmsg : rpc_msg R.
Implicit Types ar : accepted_reply R.

Definition xdr_rpcversions : xdrproc P rpcversions :=
  xdr_field low set_low xdr_u_int32_t &&&& xdr_field high set_high xdr_u_int32_t.

Definition xdr_naccepted_reply : xdrproc P (accepted_reply R) :=
  xdr_field ar_verf set_ar_verf xdr_opaque_auth &&&&
  xdr_field ar_stat set_ar_stat xdr_enum &&&&
  (λ xdrs ar,
     if ar_stat ar =? SUCCESS then xdr_field ar_results set_ar_results ar_proc xdrs ar else
     if ar_stat ar =? PROG_MISMATCH then xdr_field ar_vers set_ar_vers xdr_rpcversions xdrs ar
     else Ret (true, ar, xdrs)).

Definition xdr_nrejected_reply : xdrproc P rejected_reply :=
  xdr_field rj_stat set_rj_stat xdr_enum &&&&
  (λ xdrs rr,
     if rj_stat rr =? RPC_MISMATCH then xdr_field rj_vers set_rj_vers xdr_rpcversions xdrs rr else
     if rj_stat rr =? AUTH_ERROR then xdr_field rj_why set_rj_why xdr_enum xdrs rr
     else Abort).

(** The reply body seen by [inline_xdr_union]: its discriminant and its arms. *)
Definition reply_dscrm : list (Z * xdrproc P (accepted_reply R * rejected_reply)) :=
  [(MSG_ACCEPTED, xdr_field fst (λ a p, (a, snd p)) xdr_naccepted_reply);
   (MSG_DENIED, xdr_field snd (λ r p, (fst p, r)) xdr_nrejected_reply)].

Definition xdr_reply_body : xdrproc P (reply_body R) :=
  xdr_field (λ rb, (rp_stat rb, (rp_acpt rb, rp_rjct rb)))
            (λ p _, mk_reply p.1 p.2.1 p.2.2)
            (xdr_union reply_dscrm None).

Definition xdr_nreplymsg : xdrproc P (rpc_msg R) :=
  xdr_field rm_xid set_xid xdr_u_int32_t &&&&
  xdr_field rm_direction set_direction xdr_enum &&&&
  (λ xdrs rmsg,
     if rm_direction rmsg =? REPLY then xdr_field rm_reply set_reply xdr_reply_body xdrs rmsg
     else Ret (false, rmsg, xdrs)).

Definition xdr_ncallhdr : xdrproc P (rpc_msg R) := λ xdrs cmsg,
  let cmsg := set_rpcvers RPC_MSG_VERSION (set_direction CALL cmsg) in
  match x_op xdrs with
  | XDR_ENCODE =>
      (xdr_field rm_xid set_xid xdr_u_int32_t &&&&
       xdr_field rm_direction set_direction xdr_enum &&&&
       xdr_field cb_rpcvers set_rpcvers xdr_u_int32_t &&&&
       xdr_field cb_prog set_prog xdr_u_int32_t &&&&
       xdr_field cb_vers set_vers xdr_u_int32_t) xdrs cmsg
  | _ => Ret (false, cmsg, xdrs)
  end.

(** The two words of [ar_vers], in-line or through the stream. *)
Definition put_ar_vers xdrs (v : rpcversions) : out (bool * XDR P) :=
  let (buf, xdrs) := xdr_inline_encode xdrs (2 * BYTES_PER_XDR_UNIT) in
  match buf with
  | Some buf =>
      let! (xdrs, buf) := IXDR_PUT_ENUM xdrs buf (low v) in
      let! (xdrs, buf) := IXDR_PUT_ENUM xdrs buf (high v) in
      Ret (true, xdrs)
  | None =>
      check! xdrs := xdr_putuint32 xdrs (low v) in
      check! xdrs := xdr_putuint32 xdrs (high v) in
      Ret (true, xdrs)
  end.

Definition xdr_reply_encode_accepted xdrs dmsg : out (bool * XDR P) :=
  let ar := RPCM_ack dmsg in
  let oa := ar_verf ar in
  if MAX_AUTH_BYTES <? oa_length oa then Ret (false, xdrs) else
  let (buf, xdrs) := xdr_inline_encode xdrs (6 * BYTES_PER_XDR_UNIT + RNDUP (oa_length oa)) in
  match buf with
  | Some buf =>
      let! (xdrs, buf) := IXDR_PUT_INT32 xdrs buf (rm_xid dmsg) in
      let! (xdrs, buf) := IXDR_PUT_ENUM xdrs buf (rm_direction dmsg) in
      let! (xdrs, buf) := IXDR_PUT_ENUM xdrs buf (rp_stat (rm_reply dmsg)) in
      let! (xdrs, buf) := IXDR_PUT_ENUM xdrs buf (oa_flavor oa) in
      let! (xdrs, buf) := IXDR_PUT_INT32 xdrs buf (oa_length oa) in
      let! (xdrs, buf) := ixdr_put_body xdrs buf oa in
      let! (xdrs, buf) := IXDR_PUT_ENUM xdrs buf (ar_stat ar) in
      if ar_stat ar =? SUCCESS then Ret (true, xdrs) else
      if ar_stat ar =? PROG_MISMATCH then put_ar_vers xdrs (ar_vers ar)
      else Ret (true, xdrs)
  | None =>
      check! xdrs := xdr_putuint32 xdrs (rm_xid dmsg) in
      check! xdrs := xdr_putenum xdrs (rm_direction dmsg) in
      let! (b, _, xdrs) := xdr_reply_body xdrs (rm_reply dmsg) in
      Ret (b, xdrs)
  end.

(** A run of [IXDR_PUT_*] calls. *)
Fixpoint ixdr_put_words xdrs (buf : Z) (ws : list Z) : out (XDR P) :=
  match ws with
  | [] => Ret xdrs
  | w :: ws => let! (xdrs, buf) := IXDR_PUT_INT32 xdrs buf w in ixdr_put_words xdrs buf ws
  end.

Definition xdr_reply_encode_denied xdrs dmsg : out (bool * XDR P) :=
  let rr := RPCM_rej dmsg in
  let! (b, xdrs) :=
    (let (buf, xdrs) := xdr_inline_encode xdrs (3 * BYTES_PER_XDR_UNIT) in
     match buf with
     | Some buf =>
         let! xdrs := ixdr_put_words xdrs buf
           [rm_xid dmsg; rm_direction dmsg; rp_stat (rm_reply dmsg)] in
         Ret (true, xdrs)
     | None =>
         check! xdrs := xdr_putuint32 xdrs (rm_xid dmsg) in
         check! xdrs := xdr_putenum xdrs (rm_direction dmsg) in
         xdr_putenum xdrs (rp_stat (rm_reply dmsg))
     end) in
  if negb b then Ret (false, xdrs) else
  if rj_stat rr =? RPC_MISMATCH then
    let (buf, xdrs) := xdr_inline_encode xdrs (3 * BYTES_PER_XDR_UNIT) in
    match buf with
    | Some buf =>
        let! xdrs := ixdr_put_words xdrs buf
          [rj_stat rr; low (rj_vers rr); high (rj_vers rr)] in
        Ret (true, xdrs)
    | None =>
        check! xdrs := xdr_putenum xdrs (rj_stat rr) in
        check! xdrs := xdr_putuint32 xdrs (low (rj_vers rr)) in
        xdr_putuint32 xdrs (high (rj_vers rr))
    end
  else if rj_stat rr =? AUTH_ERROR then
    let (buf, xdrs) := xdr_inline_encode xdrs (2 * BYTES_PER_XDR_UNIT) in
    match buf with
    | Some buf =>
        let! xdrs := ixdr_put_words xdrs buf [rj_stat rr; rj_why rr] in Ret (true, xdrs)
    | None =>
        check! xdrs := xdr_putenum xdrs (rj_stat rr) in
        xdr_putenum xdrs (rj_why rr)
    end
  else Ret (false, xdrs).

Definition xdr_reply_encode xdrs dmsg : out (bool * XDR P) :=
  if rp_stat (rm_reply dmsg) =? MSG_ACCEPTED then xdr_reply_encode_accepted xdrs dmsg else
  if rp_stat (rm_reply dmsg) =? MSG_DENIED then xdr_reply_encode_denied xdrs dmsg
  else Ret (false, xdrs).

(** The arms of [xdr_reply_decode]; [buf] is a window with two more words, or NULL. *)
Definition decode_accepted xdrs ar (buf : option Z) : out (bool * accepted_reply R * XDR P) :=
  let! (b, oa, xdrs) := xdr_opaque_auth_decode xdrs (ar_verf ar) buf in
  let ar := set_ar_verf oa ar in
  if negb b then Ret (false, ar, xdrs) else
  get! (stat, xdrs) := xdr_getenum xdrs fail ar in
  let ar := set_ar_stat stat ar in
  if stat =? PROG_MISMATCH then
    get! (lo, xdrs) := xdr_getuint32 xdrs fail ar in
    let ar := set_ar_vers (set_low lo (ar_vers ar)) ar in
    get! (hi, xdrs) := xdr_getuint32 xdrs fail ar in
    Ret (true, set_ar_vers (set_high hi (ar_vers ar)) ar, xdrs)
  else Ret (true, ar, xdrs).

Definition decode_rejected xdrs (rr : rejected_reply) (buf : option Z)
    : out (bool * rejected_reply * XDR P) :=
  word! (stat, xdrs, buf) := next_word xdr_getenum s32 xdrs buf fail rr in
  let rr := set_rj_stat stat rr in
  if stat =? RPC_MISMATCH then
    word! (lo, xdrs, buf) := next_word xdr_getuint32 id xdrs buf fail rr in
    let rr := set_rj_vers (set_low lo (rj_vers rr)) rr in
    get! (hi, xdrs) := xdr_getuint32 xdrs fail rr in
    Ret (true, set_rj_vers (set_high hi (rj_vers rr)) rr, xdrs)
  else if stat =? AUTH_ERROR then
    word! (why, xdrs, buf) := next_word xdr_getenum s32 xdrs buf fail rr in
    Ret (true, set_rj_why why rr, xdrs)
  else Ret (true, rr, xdrs).

(** [buf] is a window with three more words, or NULL. *)
Definition xdr_reply_decode xdrs dmsg (buf : option Z) : out (bool * rpc_msg R * XDR P) :=
  word! (stat, xdrs, buf) := next_word xdr_getenum s32 xdrs buf fail dmsg in
  let dmsg := set_reply_stat stat dmsg in
  if stat =? MSG_ACCEPTED then
    let! (b, ar, xdrs) := decode_accepted xdrs (RPCM_ack dmsg) buf in
    Ret (b, set_ack ar dmsg, xdrs)
  else if stat =? MSG_DENIED then
    let! (b, rr, xdrs) := decode_rejected xdrs (RPCM_rej dmsg) buf in
    Ret (b, set_rej rr dmsg, xdrs)
  else Ret (false, dmsg, xdrs).

Definition xdr_dplx_decode xdrs dmsg : out (bool * rpc_msg R * XDR P) :=
  let (buf, xdrs) := xdr_inline_decode xdrs (5 * BYTES_PER_XDR_UNIT) in
  word! (xid, xdrs, buf) := next_word xdr_getuint32 id xdrs buf fail dmsg in
  let dmsg := set_xid xid dmsg in
  word! (direction, xdrs, buf) := next_word xdr_getenum s32 xdrs buf fail dmsg in
  let dmsg := set_direction direction dmsg in
  if direction =? CALL then xdr_call_decode xdrs dmsg buf else
  if direction =? REPLY then xdr_reply_decode xdrs dmsg buf
  else Ret (false, dmsg, xdrs).

Definition xdr_dplx_msg : xdrproc P (rpc_msg R) := λ xdrs dmsg,
  match x_op xdrs with
  | XDR_ENCODE =>
      if rm_direction dmsg =? CALL then keep dmsg (xdr_call_encode xdrs dmsg) else
      if rm_direction dmsg =? REPLY then keep dmsg (xdr_reply_encode xdrs dmsg)
      else Ret (false, dmsg, xdrs)
  | XDR_DECODE => xdr_dplx_decode xdrs dmsg
  | XDR_FREE => Ret (true, dmsg, xdrs)
  end.

Definition xdr_ncallmsg : xdrproc P (rpc_msg R) := λ xdrs cmsg,
  match x_op xdrs with
  | XDR_ENCODE =>
      if negb (rm_direction cmsg =? CALL) then Ret (false, cmsg, xdrs)
      else keep cmsg (xdr_call_encode xdrs cmsg)
  | XDR_DECODE =>
      let! (b, cmsg, xdrs) := xdr_dplx_decode xdrs cmsg in
      Ret (b && (rm_direction cmsg =? CALL), cmsg, xdrs)
  | XDR_FREE => Ret (true, cmsg, xdrs)
  end.
End Reply.

(** ** Classifying a reply (rpc_prot.c) *)

Definition accepted (acpt_stat : Z) (error : rpc_err) : rpc_err :=
  if acpt_stat =? PROG_UNAVAIL then set_re_status RPC_PROGUNAVAIL error else
  if acpt_stat =? PROG_MISMATCH then set_re_status RPC_PROGVERSMISMATCH error else
  if acpt_stat =? PROC_UNAVAIL then set_re_status RPC_PROCUNAVAIL error else
  if acpt_stat =? GARBAGE_ARGS then set_re_status RPC_CANTDECODEARGS error else
  if acpt_stat =? SYSTEM_ERR then set_re_status RPC_SYSTEMERROR error else
  if acpt_stat =? SUCCESS then set_re_status RPC_SUCCESS error
  else set_re_lb MSG_ACCEPTED acpt_stat (set_re_status RPC_FAILED error).

Definition rejected (rjct_stat : Z) (error : rpc_err) : rpc_err :=
  if rjct_stat =? RPC_MISMATCH then set_re_status RPC_VERSMISMATCH error else
  if rjct_stat =? AUTH_ERROR then set_re_status RPC_AUTHERROR error
  else set_re_lb MSG_DENIED rjct_stat (set_re_status RPC_FAILED error).

Definition _seterr_reply {R} (msg : rpc_msg R) (error : rpc_err) : rpc_err :=
  let stat := rp_stat (rm_reply msg) in
  if (stat =? MSG_ACCEPTED) && (ar_stat (RPCM_ack msg) =? SUCCESS)
  then set_re_status RPC_SUCCESS error else
  let error :=
    if stat =? MSG_ACCEPTED then accepted (ar_stat (RPCM_ack msg)) error else
    if stat =? MSG_DENIED then rejected (rj_stat (RPCM_rej msg)) error
    else set_re_lb stat (re_lb_s2 error) (set_re_status RPC_FAILED error) in
  if re_status error =? RPC_VERSMISMATCH then set_re_vers (rj_vers (RPCM_rej msg)) error else
  if re_status error =? RPC_AUTHERROR then set_re_why (rj_why (RPCM_rej msg)) error else
  if re_status error =? RPC_PROGVERSMISMATCH then set_re_vers (ar_vers (RPCM_ack msg)) error
  else error.
