(* ===== verification/Protocols.v ===== *)
(** * Protocol structures (src/authunix_prot.c, src/pmap_prot.c, src/pmap_prot2.c,
      src/pmap_rmt.c, src/rpcb_prot.c, the filters of src/authgss_prot.c)

    The structures of the portmapper, rpcbind, AUTH_SYS and RPCSEC_GSS protocols
    and their filters, built from XdrInline.v the way the source builds them.  A
    chain of heap nodes is the list of its contents. *)
From stdpp Require Import base gmap list.
From Stdlib Require Import ZArith Lia.
From S2P Require Import Prelude Machine XdrHandle XdrInline XdrStruct RpcMsg.

Abbreviation cstring := (ptr (list Z)).

Definition MAX_MACHINE_NAME : Z := 255.
Definition NGRPS : Z := 16.

(** ** Data *)

Record authunix_parms := mk_authunix_parms {
  aup_time : Z;
  aup_machname : cstring;
  aup_uid : Z;
  aup_gid : Z;
  aup_gids : carray Z;  (* aup_gids and aup_len *)
}.

Definition set_aup_time v r :=
  mk_authunix_parms v (aup_machname r) (aup_uid r) (aup_gid r) (aup_gids r).
Definition set_aup_machname v r :=
  mk_authunix_parms (aup_time r) v (aup_uid r) (aup_gid r) (aup_gids r).
Definition set_aup_uid v r :=
  mk_authunix_parms (aup_time r) (aup_machname r) v (aup_gid r) (aup_gids r).
Definition set_aup_gid v r :=
  mk_authunix_parms (aup_time r) (aup_machname r) (aup_uid r) v (aup_gids r).
Definition set_aup_gids v r :=
  mk_authunix_parms (aup_time r) (aup_machname r) (aup_uid r) (aup_gid r) v.

Record pmap := mk_pmap { pm_prog : Z; pm_vers : Z; pm_prot : Z; pm_port : Z }.

Definition set_pm_prog v r := mk_pmap v (pm_vers r) (pm_prot r) (pm_port r).
Definition set_pm_vers v r := mk_pmap (pm_prog r) v (pm_prot r) (pm_port r).
Definition set_pm_prot v r := mk_pmap (pm_prog r) (pm_vers r) v (pm_port r).
Definition set_pm_port v r := mk_pmap (pm_prog r) (pm_vers r) (pm_prot r) v.
Definition pmap_zero := mk_pmap 0 0 0 0.

Record rpcb := mk_rpcb {
  r_prog : Z; r_vers : Z; r_netid : cstring; r_addr : cstring; r_owner : cstring;
}.

Definition set_r_prog v r := mk_rpcb v (r_vers r) (r_netid r) (r_addr r) (r_owner r).
Definition set_r_vers v r := mk_rpcb (r_prog r) v (r_netid r) (r_addr r) (r_owner r).
Definition set_r_netid v r := mk_rpcb (r_prog r) (r_vers r) v (r_addr r) (r_owner r).
Definition set_r_addr v r := mk_rpcb (r_prog r) (r_vers r) (r_netid r) v (r_owner r).
Definition set_r_owner v r := mk_rpcb (r_prog r) (r_vers r) (r_netid r) (r_addr r) v.
Definition rpcb_zero := mk_rpcb 0 0 Pnull Pnull Pnull.

Record rpcb_entry := mk_rpcb_entry {
  r_maddr : cstring; r_nc_netid : cstring; r_nc_semantics : Z;
  r_nc_protofmly : cstring; r_nc_proto : cstring;
}.

Definition set_r_maddr v r :=
  mk_rpcb_entry v (r_nc_netid r) (r_nc_semantics r) (r_nc_protofmly r) (r_nc_proto r).
Definition set_r_nc_netid v r :=
  mk_rpcb_entry (r_maddr r) v (r_nc_semantics r) (r_nc_protofmly r) (r_nc_proto r).
Definition set_r_nc_semantics v r :=
  mk_rpcb_entry (r_maddr r) (r_nc_netid r) v (r_nc_protofmly r) (r_nc_proto r).
Definition set_r_nc_protofmly v r :=
  mk_rpcb_entry (r_maddr r) (r_nc_netid r) (r_nc_semantics r) v (r_nc_proto r).
Definition set_r_nc_proto v r :=
  mk_rpcb_entry (r_maddr r) (r_nc_netid r) (r_nc_semantics r) (r_nc_protofmly r) v.
Definition rpcb_entry_zero := mk_rpcb_entry Pnull Pnull 0 Pnull Pnull.

Record netbuf := mk_netbuf { nb_maxlen : Z; nb_buf : cbytes (* buf and len *) }.

Definition set_nb_maxlen v r := mk_netbuf v (nb_buf r).
Definition set_nb_buf v r := mk_netbuf (nb_maxlen r) v.

(** A remote call's arguments and results: [A] is the type behind [args_ptr]
    (or [results_ptr]), whose filter the caller stores in the structure. *)
Record rmtcallargs A := mk_rmtcallargs {
  ra_prog : Z; ra_vers : Z; ra_proc : Z; ra_arglen : Z; ra_args : A;
}.
Arguments mk_rmtcallargs {A}.
Arguments ra_prog {A}.
Arguments ra_vers {A}.
Arguments ra_proc {A}.
Arguments ra_arglen {A}.
Arguments ra_args {A}.

Definition set_ra_prog {A} v (r : rmtcallargs A) :=
  mk_rmtcallargs v (ra_vers r) (ra_proc r) (ra_arglen r) (ra_args r).
Definition set_ra_vers {A} v (r : rmtcallargs A) :=
  mk_rmtcallargs (ra_prog r) v (ra_proc r) (ra_arglen r) (ra_args r).
Definition set_ra_proc {A} v (r : rmtcallargs A) :=
  mk_rmtcallargs (ra_prog r) (ra_vers r) v (ra_arglen r) (ra_args r).
Definition set_ra_arglen {A} v (r : rmtcallargs A) :=
  mk_rmtcallargs (ra_prog r) (ra_vers r) (ra_proc r) v (ra_args r).
Definition set_ra_args {A} (v : A) (r : rmtcallargs A) :=
  mk_rmtcallargs (ra_prog r) (ra_vers r) (ra_proc r) (ra_arglen r) v.

Record rmtcallres A := mk_rmtcallres { rr_port : Z; rr_resultslen : Z; rr_results : A }.
Arguments mk_rmtcallres {A}.
Arguments rr_port {A}.
Arguments rr_resultslen {A}.
Arguments rr_results {A}.

Definition set_rr_port {A} v (r : rmtcallres A) := mk_rmtcallres v (rr_resultslen r) (rr_results r).
Definition set_rr_resultslen {A} v (r : rmtcallres A) := mk_rmtcallres (rr_port r) v (rr_results r).
Definition set_rr_results {A} (v : A) (r : rmtcallres A) := mk_rmtcallres (rr_port r) (rr_resultslen r) v.

Record rpcb_rmtcallres A := mk_rpcb_rmtcallres {
  br_addr : cstring; br_results_len : Z; br_results : A;
}.
Arguments mk_rpcb_rmtcallres {A}.
Arguments br_addr {A}.
Arguments br_results_len {A}.
Arguments br_results {A}.

Definition set_br_addr {A} v (r : rpcb_rmtcallres A) :=
  mk_rpcb_rmtcallres v (br_results_len r) (br_results r).
Definition set_br_results_len {A} v (r : rpcb_rmtcallres A) :=
  mk_rpcb_rmtcallres (br_addr r) v (br_results r).
Definition set_br_results {A} (v : A) (r : rpcb_rmtcallres A) :=
  mk_rpcb_rmtcallres (br_addr r) (br_results_len r) v.

(** [gss_buffer_desc] and the RPCSEC_GSS structures. *)
Record gss_buffer := mk_gss_buffer { gb_value : ptr (list Z); gb_length : Z }.

Record rpc_gss_cred := mk_rpc_gss_cred {
  gc_v : Z; gc_proc : Z; gc_seq : Z; gc_svc : Z; gc_ctx : gss_buffer;
}.

Definition set_gc_v v r := mk_rpc_gss_cred v (gc_proc r) (gc_seq r) (gc_svc r) (gc_ctx r).
Definition set_gc_proc v r := mk_rpc_gss_cred (gc_v r) v (gc_seq r) (gc_svc r) (gc_ctx r).
Definition set_gc_seq v r := mk_rpc_gss_cred (gc_v r) (gc_proc r) v (gc_svc r) (gc_ctx r).
Definition set_gc_svc v r := mk_rpc_gss_cred (gc_v r) (gc_proc r) (gc_seq r) v (gc_ctx r).
Definition set_gc_ctx v r := mk_rpc_gss_cred (gc_v r) (gc_proc r) (gc_seq r) (gc_svc r) v.

Record rpc_gss_init_res := mk_rpc_gss_init_res {
  gr_ctx : gss_buffer; gr_major : Z; gr_minor : Z; gr_win : Z; gr_token : gss_buffer;
}.

Definition set_gr_ctx v r :=
  mk_rpc_gss_init_res v (gr_major r) (gr_minor r) (gr_win r) (gr_token r).
Definition set_gr_major v r :=
  mk_rpc_gss_init_res (gr_ctx r) v (gr_minor r) (gr_win r) (gr_token r).
Definition set_gr_minor v r :=
  mk_rpc_gss_init_res (gr_ctx r) (gr_major r) v (gr_win r) (gr_token r).
Definition set_gr_win v r :=
  mk_rpc_gss_init_res (gr_ctx r) (gr_major r) (gr_minor r) v (gr_token r).
Definition set_gr_token v r :=
  mk_rpc_gss_init_res (gr_ctx r) (gr_major r) (gr_minor r) (gr_win r) v.

Definition RPC_SLACK_SPACE : Z := 1024.
Definition AUTHGSS_MAX_TOKEN_SIZE : Z := 24576.

(** ** Filters *)

Section Protocols.
Context {P : Type} {O : XdrOps P}.

Definition xdr_authunix_parms : xdrproc P authunix_parms :=
  xdr_field aup_time set_aup_time xdr_int32_t &&&&
  xdr_field aup_machname set_aup_machname (xdr_string MAX_MACHINE_NAME) &&&&
  xdr_field aup_uid set_aup_uid xdr_u_int32_t &&&&
  xdr_field aup_gid set_aup_gid xdr_u_int32_t &&&&
  xdr_field aup_gids set_aup_gids (xdr_array 0 NGRPS 4 xdr_u_int32_t).

Definition xdr_pmap : xdrproc P pmap :=
  xdr_field pm_prog set_pm_prog xdr_rpcprog &&&&
  xdr_field pm_vers set_pm_vers xdr_rpcvers &&&&
  xdr_field pm_prot set_pm_prot xdr_rpcprot &&&&
  xdr_field pm_port set_pm_port xdr_rpcport.

(** [next] is the address of the node's [pml_next], not a copy of the link. *)
Definition xdr_pmaplist : xdrproc P (list pmap) := xdr_nodes pmap_zero xdr_pmap false.

Definition xdr_rpcb : xdrproc P rpcb :=
  xdr_field r_prog set_r_prog xdr_u_int32_t &&&&
  xdr_field r_vers set_r_vers xdr_u_int32_t &&&&
  xdr_field r_netid set_r_netid (xdr_string UINT32_MAX) &&&&
  xdr_field r_addr set_r_addr (xdr_string UINT32_MAX) &&&&
  xdr_field r_owner set_r_owner (xdr_string UINT32_MAX).

Definition xdr_rpcblist_ptr : xdrproc P (list rpcb) := xdr_nodes rpcb_zero xdr_rpcb true.
Definition xdr_rpcblist : xdrproc P (list rpcb) := xdr_rpcblist_ptr.

Definition xdr_rpcb_entry : xdrproc P rpcb_entry :=
  xdr_field r_maddr set_r_maddr (xdr_string UINT32_MAX) &&&&
  xdr_field r_nc_netid set_r_nc_netid (xdr_string UINT32_MAX) &&&&
  xdr_field r_nc_semantics set_r_nc_semantics xdr_u_int32_t &&&&
  xdr_field r_nc_protofmly set_r_nc_protofmly (xdr_string UINT32_MAX) &&&&
  xdr_field r_nc_proto set_r_nc_proto (xdr_string UINT32_MAX).

Definition xdr_rpcb_entry_list_ptr : xdrproc P (list rpcb_entry) :=
  xdr_nodes rpcb_entry_zero xdr_rpcb_entry true.

Definition xdr_netbuf : xdrproc P netbuf :=
  xdr_field nb_maxlen set_nb_maxlen xdr_u_int32_t &&&&
  λ xdrs objp, xdr_field nb_buf set_nb_buf (xdr_bytes (nb_maxlen objp)) xdrs objp.

Definition xdr_rmtcallres {A} (xdr_results : xdrproc P A) : xdrproc P (rmtcallres A) :=
  xdr_field rr_port set_rr_port xdr_rpcport &&&&
  xdr_field rr_resultslen set_rr_resultslen xdr_uint32_t &&&&
  xdr_field rr_results set_rr_results xdr_results.

Definition xdr_rpcb_rmtcallres {A} (xdr_res : xdrproc P A) : xdrproc P (rpcb_rmtcallres A) :=
  xdr_field br_addr set_br_addr (xdr_string UINT32_MAX) &&&&
  xdr_field br_results_len set_br_results_len xdr_uint32_t &&&&
  xdr_field br_results set_br_results xdr_res.

(** The length is written first as the caller left it and again, over itself, once
    the arguments' extent is known. *)
Definition xdr_rmtcall_args {A} (xdr_args : xdrproc P A) : xdrproc P (rmtcallargs A) :=
  xdr_field ra_prog set_ra_prog xdr_rpcprog &&&&
  xdr_field ra_vers set_ra_vers xdr_rpcvers &&&&
  xdr_field ra_proc set_ra_proc xdr_rpcproc &&&&
  λ xdrs cap,
    let (lenposition, xdrs) := x_getpostn xdrs in
    let! (b, cap, xdrs) := xdr_field ra_arglen set_ra_arglen xdr_uint32_t xdrs cap in
    if negb b then Ret (false, cap, xdrs) else
    let (argposition, xdrs) := x_getpostn xdrs in
    let! (b, cap, xdrs) := xdr_field ra_args set_ra_args xdr_args xdrs cap in
    if negb b then Ret (false, cap, xdrs) else
    let (position, xdrs) := x_getpostn xdrs in
    let cap := set_ra_arglen (u32 (position - argposition)) cap in
    let (_, xdrs) := x_setpostn xdrs lenposition in
    let! (b, cap, xdrs) := xdr_field ra_arglen set_ra_arglen xdr_uint32_t xdrs cap in
    if negb b then Ret (false, cap, xdrs) else
    let (_, xdrs) := x_setpostn xdrs position in
    Ret (true, cap, xdrs).

(** ** RPCSEC_GSS *)

Definition xdr_rpc_gss_encode (maxsize : Z) : xdrproc P gss_buffer := λ xdrs buf,
  let tmplen := u32 (gb_length buf) in
  if UINT32_MAX <? gb_length buf then Ret (false, buf, xdrs) else
  let! (b, p, xdrs) := xdr_bytes_encode xdrs (gb_value buf, tmplen) maxsize in
  Ret (b, mk_gss_buffer p.1 (gb_length buf), xdrs).

Definition xdr_rpc_gss_decode : xdrproc P gss_buffer := λ xdrs buf,
  let! (b, p, xdrs) := xdr_bytes_decode xdrs (gb_value buf, 0) UINT32_MAX in
  Ret (b, mk_gss_buffer p.1 (if b : bool then p.2 else gb_length buf), xdrs).

(** The released pointer stays in the buffer. *)
Definition xdr_rpc_gss_buf (maxsize : Z) : xdrproc P gss_buffer := λ xdrs buf,
  match x_op xdrs with
  | XDR_ENCODE => xdr_rpc_gss_encode maxsize xdrs buf
  | XDR_DECODE => xdr_rpc_gss_decode xdrs buf
  | XDR_FREE =>
      let! _ := mem_free (gb_value buf) in
      Ret (true, mk_gss_buffer (if is_null (gb_value buf) then Pnull else Pfreed)
                               (gb_length buf), xdrs)
  end.

Definition xdr_rpc_gss_cred : xdrproc P rpc_gss_cred :=
  xdr_field gc_v set_gc_v xdr_u_int32_t &&&&
  xdr_field gc_proc set_gc_proc xdr_enum &&&&
  xdr_field gc_seq set_gc_seq xdr_u_int32_t &&&&
  xdr_field gc_svc set_gc_svc xdr_enum &&&&
  xdr_field gc_ctx set_gc_ctx (xdr_rpc_gss_buf MAX_AUTH_BYTES).

Definition xdr_rpc_gss_init_args : xdrproc P gss_buffer :=
  xdr_rpc_gss_buf AUTHGSS_MAX_TOKEN_SIZE.

Definition xdr_rpc_gss_init_res : xdrproc P rpc_gss_init_res := λ xdrs p,
  let ctx_maxlen := u32 (gb_length (gr_ctx p) + RPC_SLACK_SPACE) in
  let tok_maxlen := u32 (gb_length (gr_token p) + RPC_SLACK_SPACE) in
  (xdr_field gr_ctx set_gr_ctx (xdr_rpc_gss_buf ctx_maxlen) &&&&
   xdr_field gr_major set_gr_major xdr_u_int32_t &&&&
   xdr_field gr_minor set_gr_minor xdr_u_int32_t &&&&
   xdr_field gr_win set_gr_win xdr_u_int32_t &&&&
   xdr_field gr_token set_gr_token (xdr_rpc_gss_buf tok_maxlen)) xdrs p.
End Protocols.
