(* ===== verification/ProtocolFacts.v ===== *)
(** * The protocol structures implement their wire formats

    One [Codec] instance per structure of Protocols.v, each proved by comparing the
    structure's filter with the tuple of its fields. *)
From stdpp Require Import base gmap list.
From Stdlib Require Import ZArith Lia.
From S2P Require Import Prelude Machine XdrHandle XdrStream XdrInline XdrWire XdrCodecs XdrStruct RpcMsg Protocols.

Abbreviation long_string := (string_spec (UINT32_MAX - 1)).

(** ** Structures as tuples *)

Definition authunix_to r :=
  (aup_time r, (aup_machname r, (aup_uid r, (aup_gid r, aup_gids r)))).
Definition authunix_from (t : Z * (cstring * (Z * (Z * carray Z)))) :=
  let '(a, (b, (c, (d, e)))) := t in mk_authunix_parms a b c d e.
Definition authunix_spec : spec authunix_parms :=
  struct_spec authunix_to authunix_from
    (pair_spec int32_spec (pair_spec (string_spec MAX_MACHINE_NAME)
      (pair_spec uint32_spec (pair_spec uint32_spec (array_spec NGRPS uint32_spec 0))))).

Definition pmap_to r := (pm_prog r, (pm_vers r, (pm_prot r, pm_port r))).
Definition pmap_from (t : Z * (Z * (Z * Z))) := let '(a, (b, (c, d))) := t in mk_pmap a b c d.
Definition pmap_spec : spec pmap :=
  struct_spec pmap_to pmap_from
    (pair_spec uint32_spec (pair_spec uint32_spec (pair_spec uint32_spec uint32_spec))).

Definition rpcb_to r := (r_prog r, (r_vers r, (r_netid r, (r_addr r, r_owner r)))).
Definition rpcb_from (t : Z * (Z * (cstring * (cstring * cstring)))) :=
  let '(a, (b, (c, (d, e)))) := t in mk_rpcb a b c d e.
Definition rpcb_spec : spec rpcb :=
  struct_spec rpcb_to rpcb_from
    (pair_spec uint32_spec (pair_spec uint32_spec
      (pair_spec long_string (pair_spec long_string long_string)))).

Definition rpcb_entry_to r :=
  (r_maddr r, (r_nc_netid r, (r_nc_semantics r, (r_nc_protofmly r, r_nc_proto r)))).
Definition rpcb_entry_from (t : cstring * (cstring * (Z * (cstring * cstring)))) :=
  let '(a, (b, (c, (d, e)))) := t in mk_rpcb_entry a b c d e.
Definition rpcb_entry_spec : spec rpcb_entry :=
  struct_spec rpcb_entry_to rpcb_entry_from
    (pair_spec long_string (pair_spec long_string
      (pair_spec uint32_spec (pair_spec long_string long_string)))).

Definition rmtcallres_to {A} (r : rmtcallres A) := (rr_port r, (rr_resultslen r, rr_results r)).
Definition rmtcallres_from {A} (t : Z * (Z * A)) := let '(a, (b, c)) := t in mk_rmtcallres a b c.
Definition rmtcallres_spec {A} (S : spec A) : spec (rmtcallres A) :=
  struct_spec rmtcallres_to rmtcallres_from (pair_spec uint32_spec (pair_spec uint32_spec S)).

Definition rpcb_rmtcallres_to {A} (r : rpcb_rmtcallres A) :=
  (br_addr r, (br_results_len r, br_results r)).
Definition rpcb_rmtcallres_from {A} (t : cstring * (Z * A)) :=
  let '(a, (b, c)) := t in mk_rpcb_rmtcallres a b c.
Definition rpcb_rmtcallres_spec {A} (S : spec A) : spec (rpcb_rmtcallres A) :=
  struct_spec rpcb_rmtcallres_to rpcb_rmtcallres_from
    (pair_spec long_string (pair_spec uint32_spec S)).

(** The limit on the address is itself read from the stream. *)
Definition netbuf_spec : spec netbuf :=
  {| wire r := be32 (nb_maxlen r) ++ wire (bytes_spec (nb_maxlen r)) (nb_buf r);
     wf r := is_u 32 (nb_maxlen r) ∧ wf (bytes_spec (nb_maxlen r)) (nb_buf r);
     fresh r := (nb_buf r).1 = Pnull;
     got r0 r w := ∃ w', is_u 32 (nb_maxlen r) ∧ w = be32 (nb_maxlen r) ++ w' ∧
                         got (bytes_spec (nb_maxlen r)) (nb_buf r0) (nb_buf r) w';
     live r := (nb_buf r).1 ≠ Pfreed;
     freed r := mk_netbuf (nb_maxlen r) (Pnull, (nb_buf r).2) |}.

(** ** Codecs *)

Section Structures.
Context {P : Type} {O : XdrOps P} {I : XdrInput P} {W : XdrOutput P}.

#[global] Instance gids_codec :
  Codec (xdr_array 0 NGRPS 4 xdr_uint32_t) (array_spec NGRPS uint32_spec 0).
Proof. apply array_codec; [apply uint32_codec|by vm_compute..]. Qed.

#[global] Instance machname_codec :
  Codec (xdr_string MAX_MACHINE_NAME) (string_spec MAX_MACHINE_NAME).
Proof. apply string_codec; by vm_compute. Qed.

#[global] Instance authunix_codec : Codec xdr_authunix_parms authunix_spec.
Proof.
  apply (struct_codec _ _ _
    (xdr_pair xdr_int32_t (xdr_pair (xdr_string MAX_MACHINE_NAME)
      (xdr_pair xdr_uint32_t (xdr_pair xdr_uint32_t
        (xdr_array 0 NGRPS 4 xdr_uint32_t))))));
    [apply _|by intros []|by intros (?&?&?&?&?)|]. unfold xdr_authunix_parms. by_fields.
Qed.

#[global] Instance pmap_codec : Codec xdr_pmap pmap_spec.
Proof.
  apply (struct_codec _ _ _
    (xdr_pair xdr_uint32_t (xdr_pair xdr_uint32_t (xdr_pair xdr_uint32_t xdr_uint32_t))));
    [apply _|by intros []|by intros (?&?&?&?)|]. unfold xdr_pmap. by_fields.
Qed.

#[global] Instance rpcb_codec : Codec xdr_rpcb rpcb_spec.
Proof.
  apply (struct_codec _ _ _
    (xdr_pair xdr_uint32_t (xdr_pair xdr_uint32_t (xdr_pair (xdr_string UINT32_MAX)
      (xdr_pair (xdr_string UINT32_MAX) (xdr_string UINT32_MAX))))));
    [apply _|by intros []|by intros (?&?&?&?&?)|]. unfold xdr_rpcb. by_fields.
Qed.

#[global] Instance rpcb_entry_codec : Codec xdr_rpcb_entry rpcb_entry_spec.
Proof.
  apply (struct_codec _ _ _
    (xdr_pair (xdr_string UINT32_MAX) (xdr_pair (xdr_string UINT32_MAX)
      (xdr_pair xdr_uint32_t (xdr_pair (xdr_string UINT32_MAX) (xdr_string UINT32_MAX))))));
    [apply _|by intros []|by intros (?&?&?&?&?)|]. unfold xdr_rpcb_entry. by_fields.
Qed.

#[global] Instance rmtcallres_codec {A} (f : xdrproc P A) S :
  Codec f S → Codec (xdr_rmtcallres f) (rmtcallres_spec S).
Proof.
  intros. apply (struct_codec _ _ _ (xdr_pair xdr_uint32_t (xdr_pair xdr_uint32_t f)));
    [apply _|by intros []|by intros (?&?&?)|]. unfold xdr_rmtcallres. by_fields.
Qed.

#[global] Instance rpcb_rmtcallres_codec {A} (f : xdrproc P A) S :
  Codec f S → Codec (xdr_rpcb_rmtcallres f) (rpcb_rmtcallres_spec S).
Proof.
  intros. apply (struct_codec _ _ _ (xdr_pair (xdr_string UINT32_MAX) (xdr_pair xdr_uint32_t f)));
    [apply _|by intros []|by intros (?&?&?)|]. unfold xdr_rpcb_rmtcallres. by_fields.
Qed.

#[global] Instance rpcblist_codec :
  Codec xdr_rpcblist_ptr (nodes_spec rpcb_spec rpcb_zero).
Proof. apply nodes_codec; [apply _|by vm_compute]. Qed.

#[global] Instance rpcb_entry_list_codec :
  Codec xdr_rpcb_entry_list_ptr (nodes_spec rpcb_entry_spec rpcb_entry_zero).
Proof. apply nodes_codec; [apply _|by vm_compute]. Qed.

Abbreviation netbuf_body :=
  (λ x r, xdr_field nb_buf set_nb_buf (xdr_bytes (nb_maxlen r)) x r).

Lemma netbuf_body_at (r : netbuf) x :
  netbuf_body x r = xdr_field nb_buf set_nb_buf (xdr_bytes (nb_maxlen r)) x r.
Proof. done. Qed.

#[global] Instance netbuf_codec : Codec xdr_netbuf netbuf_spec.
Proof.
  unfold netbuf_spec, xdr_netbuf; codec.
  - intros r [Hm Hb]. apply encodes_and.
    + apply encodes_field; [|by destruct r]. by apply (cd_encodes (S := uint32_spec)).
    + eapply encodes_ext; [intros; apply netbuf_body_at|].
      apply encodes_field; [|by destruct r]. by apply (cd_encodes (Codec := bytes_codec _ Hm)).
  - intros r [Hm Hb]. apply bytes_be32_app. by apply (cd_bytes (Codec := bytes_codec _ Hm)).
  - intros r0 r [Hm Hb] Hf. eexists. split_and!; [done..|].
    by apply (cd_canon (Codec := bytes_codec _ Hm)).
  - intros r0 r w Hf (w' & Hm & -> & Hg). eapply decodes_and.
    + apply (decodes_field _ _ _ _ _ (nb_maxlen r) (set_nb_maxlen (nb_maxlen r) r0)); [|done].
      apply (cd_decodes (S := uint32_spec)); [done|by eexists].
    + eapply decodes_ext; [intros; apply netbuf_body_at|].
      apply (decodes_field _ _ _ _ _ (nb_buf r)); [|by destruct r].
      by apply (cd_decodes (Codec := bytes_codec _ Hm)).
  - intros r0 Hf.
    eapply (decoded_and _ _ _ (λ r w, is_u 32 (nb_maxlen r) ∧ w = be32 (nb_maxlen r) ∧
                                      nb_buf r = nb_buf r0)).
    + eapply decoded_field; [by apply (cd_decoded (S := uint32_spec))| |].
      * intros a w (u & Hu & -> & ->). done.
      * intros a _. cbn. by rewrite Hf.
    + intros r1 w1 (Hm & -> & Hb). eapply decoded_ext; [intros; apply netbuf_body_at|].
      eapply decoded_field; [apply (cd_decoded (Codec := bytes_codec _ Hm)); cbn; by rewrite Hb| |done].
      intros a w Ha. cbn. eexists. split_and!; [done..|exact Ha].
  - intros r0 r w _ (w' & Hm & _ & Hg). by apply (cd_live (Codec := bytes_codec _ Hm) (Pnull, 0) _ w').
  - intros r0 Hf. by rewrite Hf.
  - intros [m [p n]] Hl. eapply frees_and.
    + eapply frees_field; [by apply (cd_frees (S := uint32_spec))|done].
    + intros x Hop. unfold xdr_field, xdr_bytes, xdr_bytes_free. rewrite Hop. by destruct p.
Qed.
End Structures.
