(* ===== verification/GssWindow.v ===== *)
(** * The RPCSEC_GSS sequence window (svcauth_gss_is_seq_num_valid in
      src/svc_auth_gss.c, SVC_GSS_SEQ_WIN_INTERNAL in ntirpc/rpc/gss_internal.h)

    The two fields of [struct svc_rpc_gss_data] that detect replays: the highest
    sequence number seen and a bit map of the numbers just below it.  The abstract
    state is the set of numbers accepted so far; the bit map represents it inside
    the window. *)
From stdpp Require Import base gmap list.
From Stdlib Require Import ZArith Lia.
From S2P Require Import Prelude Machine.

Definition CHAR_BIT : Z := 8.
Definition SVC_GSS_SEQ_WIN : Z := 256.
Definition SVC_GSS_SEQ_WIN_INTERNAL : Z := SVC_GSS_SEQ_WIN * 2.

Record gss_seq := mk_gss_seq { seqlast : Z; seqmask : list Z }.

(** As allocated by alloc_svc_rpc_gss_data. *)
Definition gss_seq_zero : gss_seq :=
  mk_gss_seq 0 (replicate (Z.to_nat (SVC_GSS_SEQ_WIN_INTERNAL / CHAR_BIT)) 0).

(** ** The bit macros on [uint8_t] arrays *)

Definition isset (a : list Z) (i : Z) : out bool :=
  let! b := access (a !! Z.to_nat (i / CHAR_BIT)) in
  Ret (negb (Z.land b (Z.shiftl 1 (i mod CHAR_BIT)) =? 0)).

Definition setbit (a : list Z) (i : Z) : out (list Z) :=
  let! b := access (a !! Z.to_nat (i / CHAR_BIT)) in
  Ret (<[Z.to_nat (i / CHAR_BIT) := u8 (Z.lor b (Z.shiftl 1 (i mod CHAR_BIT)))]> a).

Definition clrbit (a : list Z) (i : Z) : out (list Z) :=
  let! b := access (a !! Z.to_nat (i / CHAR_BIT)) in
  Ret (<[Z.to_nat (i / CHAR_BIT) := u8 (Z.land b (Z.lnot (Z.shiftl 1 (i mod CHAR_BIT))))]> a).

(** ** The check *)

(** [while (gd->seqlast < seq_num) { gd->seqlast++; clrbit(...); }] *)
Fixpoint clear_loop (fuel : nat) (gd : gss_seq) (seq_num : Z) : out gss_seq :=
  if negb (seqlast gd <? seq_num) then Ret gd else
  match fuel with
  | O => OutOfFuel
  | S fuel =>
      let last := u32 (seqlast gd + 1) in
      let! mask := clrbit (seqmask gd) (last mod SVC_GSS_SEQ_WIN_INTERNAL) in
      clear_loop fuel (mk_gss_seq last mask) seq_num
  end.

Definition svcauth_gss_is_seq_num_valid (gd : gss_seq) (seq_num : Z) : out (bool * gss_seq) :=
  let seq_num_bit_in_window := seq_num mod SVC_GSS_SEQ_WIN_INTERNAL in
  if seq_num <? seqlast gd then
    if SVC_GSS_SEQ_WIN_INTERNAL <=? u32 (seqlast gd - seq_num) then Ret (false, gd) else
    let! seen := isset (seqmask gd) seq_num_bit_in_window in
    if seen : bool then Ret (false, gd) else
    let! mask := setbit (seqmask gd) seq_num_bit_in_window in
    Ret (true, mk_gss_seq (seqlast gd) mask)
  else
    let! gd :=
      if SVC_GSS_SEQ_WIN_INTERNAL <=? u32 (seq_num - seqlast gd)
      then Ret (mk_gss_seq seq_num (replicate (length (seqmask gd)) 0))
      else clear_loop (Z.to_nat SVC_GSS_SEQ_WIN_INTERNAL) gd seq_num in
    let! mask := setbit (seqmask gd) seq_num_bit_in_window in
    Ret (true, mk_gss_seq (seqlast gd) mask).

(** The answers to a sequence of requests on one context. *)
Fixpoint answers (gd : gss_seq) (seq_nums : list Z) : out (list bool * gss_seq) :=
  match seq_nums with
  | [] => Ret ([], gd)
  | n :: ns =>
      let! (b, gd) := svcauth_gss_is_seq_num_valid gd n in
      let! (bs, gd) := answers gd ns in
      Ret (b :: bs, gd)
  end.

(** ** The bit map *)

Definition bit (a : list Z) (i : Z) : bool :=
  Z.testbit (nth (Z.to_nat (i / CHAR_BIT)) a 0) (i mod CHAR_BIT).

Definition mask_ok (a : list Z) : Prop :=
  Zlen a = SVC_GSS_SEQ_WIN_INTERNAL / CHAR_BIT ∧ bytes a.

Definition in_mask (i : Z) : Prop := 0 ≤ i < SVC_GSS_SEQ_WIN_INTERNAL.

Lemma in_mask_mod n : in_mask (n mod SVC_GSS_SEQ_WIN_INTERNAL).
Proof. apply Z.mod_pos_bound. done. Qed.

Lemma mask_cell a i :
  mask_ok a → in_mask i →
  ∃ b, a !! Z.to_nat (i / CHAR_BIT) = Some b ∧ byte b ∧
       nth (Z.to_nat (i / CHAR_BIT)) a 0 = b.
Proof.
  intros [Hl Hb] Hi. unfold in_mask, CHAR_BIT, SVC_GSS_SEQ_WIN_INTERNAL, SVC_GSS_SEQ_WIN in *.
  destruct (lookup_lt_is_Some_2 a (Z.to_nat (i / 8))) as [b E]; [lia|].
  exists b. split_and!; [done|by eapply Forall_lookup_1|].
  by apply nth_lookup_Some.
Qed.

Lemma isset_spec a i : mask_ok a → in_mask i → isset a i = Ret (bit a i).
Proof.
  intros Ha Hi. destruct (mask_cell a i Ha Hi) as (b & E & _ & En).
  unfold isset, bit. rewrite E, En. cbn. f_equal.
  rewrite Z.shiftl_1_l. set (k := i mod CHAR_BIT).
  assert (0 ≤ k) by (apply Z.mod_pos_bound; done).
  destruct (Z.testbit b k) eqn:Eb.
  - apply negb_true_iff, Z.eqb_neq. intros H0.
    assert (Z.testbit (Z.land b (2 ^ k)) k = true)
      by (by rewrite Z.land_spec, Eb, Z.pow2_bits_true).
    by rewrite H0, Z.bits_0 in *.
  - apply negb_false_iff, Z.eqb_eq. apply Z.bits_inj'. intros j Hj.
    rewrite Z.land_spec, Z.pow2_bits_eqb, Z.bits_0 by done.
    destruct (Z.eqb_spec k j); [subst j; by rewrite Eb|by rewrite andb_false_r].
Qed.

Lemma u8_byte v : byte (u8 v).
Proof. unfold byte, u8, wrapu. apply Z.mod_pos_bound. done. Qed.

Lemma u8_testbit v k : 0 ≤ k < 8 → Z.testbit (u8 v) k = Z.testbit v k.
Proof. intros. unfold u8, wrapu. apply Z.mod_pow2_bits_low. lia. Qed.

(** Replacing one cell changes one bit when the new cell differs in that bit only. *)
Lemma bit_update a i b v x :
  mask_ok a → in_mask i → nth (Z.to_nat (i / CHAR_BIT)) a 0 = b →
  (∀ k, 0 ≤ k < 8 → Z.testbit v k = if k =? i mod CHAR_BIT then x else Z.testbit b k) →
  let a' := <[Z.to_nat (i / CHAR_BIT) := u8 v]> a in
  mask_ok a' ∧ ∀ j, in_mask j → bit a' j = if j =? i then x else bit a j.
Proof.
  intros Ha Hi En Hv a'. destruct (mask_cell a i Ha Hi) as (b' & E & _ & _).
  destruct Ha as [Hl Hb]. split.
  { split; [unfold a'; len|]. apply Forall_insert; [done|apply u8_byte]. }
  intros j Hj. unfold bit, a', in_mask, CHAR_BIT, SVC_GSS_SEQ_WIN_INTERNAL, SVC_GSS_SEQ_WIN in *.
  rewrite !nth_lookup. destruct (decide (Z.to_nat (i / 8) = Z.to_nat (j / 8))) as [Eq|Ne].
  - rewrite <- Eq, list_lookup_insert_eq by (by eapply lookup_lt_Some). cbn.
    rewrite nth_lookup, E in En. cbn in En. rewrite E. cbn. subst b'.
    rewrite u8_testbit, Hv by lia. destruct (Z.eqb_spec (j mod 8) (i mod 8)), (Z.eqb_spec j i); lia || done.
  - rewrite list_lookup_insert_ne by done. destruct (Z.eqb_spec j i); [lia|done].
Qed.

Lemma setbit_spec a i :
  mask_ok a → in_mask i →
  ∃ a', setbit a i = Ret a' ∧ mask_ok a' ∧
        ∀ j, in_mask j → bit a' j = if j =? i then true else bit a j.
Proof.
  intros Ha Hi. destruct (mask_cell a i Ha Hi) as (b & E & _ & En).
  unfold setbit. rewrite E. cbn. eexists. split; [done|]. eapply bit_update; [done..|].
  intros k Hk. rewrite Z.lor_spec, Z.shiftl_1_l, Z.pow2_bits_eqb, orb_comm, Z.eqb_sym
    by (unfold CHAR_BIT; lia). by destruct (k =? _).
Qed.

Lemma clrbit_spec a i :
  mask_ok a → in_mask i →
  ∃ a', clrbit a i = Ret a' ∧ mask_ok a' ∧
        ∀ j, in_mask j → bit a' j = if j =? i then false else bit a j.
Proof.
  intros Ha Hi. destruct (mask_cell a i Ha Hi) as (b & E & _ & En).
  unfold clrbit. rewrite E. cbn. eexists. split; [done|]. eapply bit_update; [done..|].
  intros k Hk. rewrite Z.land_spec, Z.lnot_spec, Z.shiftl_1_l, Z.pow2_bits_eqb, andb_comm, Z.eqb_sym
    by (unfold CHAR_BIT; lia). by destruct (k =? _).
Qed.

Lemma zero_mask n : Z.of_nat n = SVC_GSS_SEQ_WIN_INTERNAL / CHAR_BIT →
  mask_ok (replicate n 0) ∧ ∀ j, bit (replicate n 0) j = false.
Proof.
  intros Hn. split.
  { split; [by rewrite length_replicate|]. by apply bytes_replicate. }
  intros j. unfold bit. rewrite nth_lookup.
  destruct (replicate n 0 !! _) eqn:E; [apply lookup_replicate in E as [-> _]|]; apply Z.bits_0.
Qed.

(** ** The window represents the numbers seen *)

Definition win (last n : Z) : Prop := 0 ≤ n ∧ last - SVC_GSS_SEQ_WIN_INTERNAL < n ≤ last.

(** Every number in the window has its own bit, set when the number was accepted. *)
Record seq_inv (gd : gss_seq) (seen : gset Z) : Prop := {
  si_last : is_u 32 (seqlast gd);
  si_mask : mask_ok (seqmask gd);
  si_max n : n ∈ seen → n ≤ seqlast gd;
  si_bits n : win (seqlast gd) n →
    bit (seqmask gd) (n mod SVC_GSS_SEQ_WIN_INTERNAL) = true ↔ n ∈ seen;
}.

Lemma seq_inv_zero : seq_inv gss_seq_zero ∅.
Proof.
  destruct (zero_mask (Z.to_nat (SVC_GSS_SEQ_WIN_INTERNAL / CHAR_BIT)) eq_refl) as [Hm Hb].
  constructor; [done|done|set_solver|]. intros n _. cbn. rewrite Hb. set_solver.
Qed.

(** Two numbers of one window do not share a bit. *)
Lemma win_inj last n m :
  win last n → win last m → n mod SVC_GSS_SEQ_WIN_INTERNAL = m mod SVC_GSS_SEQ_WIN_INTERNAL → n = m.
Proof. unfold win, SVC_GSS_SEQ_WIN_INTERNAL, SVC_GSS_SEQ_WIN. lia. Qed.

(** Moving the window up by one: the bit of the number that leaves is the bit of the
    one that enters. *)
Lemma seq_inv_advance gd seen :
  seq_inv gd seen → is_u 32 (seqlast gd + 1) →
  ∃ mask, clrbit (seqmask gd) ((seqlast gd + 1) mod SVC_GSS_SEQ_WIN_INTERNAL) = Ret mask ∧
          seq_inv (mk_gss_seq (seqlast gd + 1) mask) seen.
Proof.
  intros [Hlast Hm Hmax Hbits] Hl.
  destruct (clrbit_spec (seqmask gd) ((seqlast gd + 1) mod SVC_GSS_SEQ_WIN_INTERNAL))
    as (mask & E & Hm' & Hb); [done|apply in_mask_mod|].
  exists mask. split; [done|]. constructor; cbn; [done|done|intros n Hn; apply Hmax in Hn; lia|].
  intros n Hn. rewrite Hb by apply in_mask_mod.
  destruct (Z.eqb_spec (n mod SVC_GSS_SEQ_WIN_INTERNAL)
              ((seqlast gd + 1) mod SVC_GSS_SEQ_WIN_INTERNAL)) as [Eq|Ne].
  - apply (win_inj (seqlast gd + 1)) in Eq as ->; [|done|unfold win, is_u in *; lia].
    split; [done|]. intros Hn'. apply Hmax in Hn'. lia.
  - apply Hbits. unfold win in *. destruct (decide (n = seqlast gd + 1)); [by subst|lia].
Qed.

Lemma clear_loop_spec fuel gd seen n :
  seq_inv gd seen → is_u 32 n → seqlast gd ≤ n ≤ seqlast gd + Z.of_nat fuel →
  ∃ gd', clear_loop fuel gd n = Ret gd' ∧ seqlast gd' = n ∧ seq_inv gd' seen.
Proof.
  revert gd. induction fuel as [|fuel IH]; intros gd Hi Hn Hf; cbn [clear_loop];
    destruct (Z.ltb_spec (seqlast gd) n); cbn [negb].
  1: lia. 1,3: exists gd; auto with lia.
  pose proof (si_last _ _ Hi). unfold is_u in *.
  rewrite wrapu_id by (unfold is_u; lia).
  destruct (seq_inv_advance gd seen) as (mask & -> & Hi'); [done|unfold is_u; lia|].
  apply IH; cbn; [done|done|lia].
Qed.

(** A number above the whole window: every bit is cleared. *)
Lemma seq_inv_jump gd seen n :
  seq_inv gd seen → is_u 32 n → seqlast gd + SVC_GSS_SEQ_WIN_INTERNAL ≤ n →
  seq_inv (mk_gss_seq n (replicate (length (seqmask gd)) 0)) seen.
Proof.
  intros [Hlast [Hlen Hm] Hmax Hbits] Hn Hj. destruct (zero_mask _ Hlen) as [Hz Hb].
  constructor; cbn; [done|done| |].
  - intros m Hm'. apply Hmax in Hm'. unfold SVC_GSS_SEQ_WIN_INTERNAL, SVC_GSS_SEQ_WIN in *. lia.
  - intros m Hw. rewrite Hb. split; [done|]. intros Hm'. apply Hmax in Hm'.
    unfold win in Hw. lia.
Qed.

(** Recording a number of the window. *)
Lemma seq_inv_record gd seen n :
  seq_inv gd seen → win (seqlast gd) n →
  ∃ mask, setbit (seqmask gd) (n mod SVC_GSS_SEQ_WIN_INTERNAL) = Ret mask ∧
          seq_inv (mk_gss_seq (seqlast gd) mask) ({[n]} ∪ seen).
Proof.
  intros [Hlast Hm Hmax Hbits] Hw.
  destruct (setbit_spec (seqmask gd) (n mod SVC_GSS_SEQ_WIN_INTERNAL))
    as (mask & E & Hm' & Hb); [done|apply in_mask_mod|].
  exists mask. split; [done|]. constructor; cbn; [done|done| |].
  - intros m [->%elem_of_singleton|?]%elem_of_union; [unfold win in Hw; lia|auto].
  - intros m Hw'. rewrite Hb by apply in_mask_mod. rewrite elem_of_union, elem_of_singleton.
    destruct (Z.eqb_spec (m mod SVC_GSS_SEQ_WIN_INTERNAL) (n mod SVC_GSS_SEQ_WIN_INTERNAL)) as [Eq|Ne].
    + apply (win_inj (seqlast gd)) in Eq as ->; [|done..]. naive_solver.
    + rewrite Hbits by done. naive_solver.
Qed.

(** What the check answers, as a predicate on the abstract state. *)
Definition seq_accepts (last : Z) (seen : gset Z) (n : Z) : Prop :=
  last ≤ n ∨ last - n < SVC_GSS_SEQ_WIN_INTERNAL ∧ (n ∉ seen).

Lemma seq_step gd seen n :
  seq_inv gd seen → is_u 32 n →
  ∃ b gd', svcauth_gss_is_seq_num_valid gd n = Ret (b, gd') ∧
    (b = true ↔ seq_accepts (seqlast gd) seen n) ∧
    seqlast gd' = Z.max (seqlast gd) n ∧
    seq_inv gd' (if b : bool then {[n]} ∪ seen else seen).
Proof.
  intros Hi Hn. pose proof (si_last _ _ Hi) as Hl. unfold is_u in *. unfold seq_accepts.
  unfold svcauth_gss_is_seq_num_valid. destruct (Z.ltb_spec n (seqlast gd)).
  - rewrite wrapu_id by (unfold is_u; lia).
    destruct (Z.leb_spec SVC_GSS_SEQ_WIN_INTERNAL (seqlast gd - n)).
    { exists false, gd. split_and!; [done|naive_solver lia|lia|done]. }
    rewrite isset_spec by (apply Hi || apply in_mask_mod). cbn [obind].
    assert (Hw : win (seqlast gd) n) by (unfold win; lia).
    pose proof (si_bits _ _ Hi n Hw) as Hb.
    destruct (bit _ _).
    { exists false, gd. split_and!; [done|naive_solver lia|lia|done]. }
    destruct (seq_inv_record gd seen n Hi Hw) as (mask & -> & Hi').
    eexists true, _. split_and!; [done|naive_solver lia|cbn; lia|done].
  - rewrite wrapu_id by (unfold is_u; lia).
    assert (∃ gd1, (if SVC_GSS_SEQ_WIN_INTERNAL <=? n - seqlast gd
                    then Ret (mk_gss_seq n (replicate (length (seqmask gd)) 0))
                    else clear_loop (Z.to_nat SVC_GSS_SEQ_WIN_INTERNAL) gd n) = Ret gd1 ∧
                   seqlast gd1 = n ∧ seq_inv gd1 seen) as (gd1 & -> & E1 & H1).
    { destruct (Z.leb_spec SVC_GSS_SEQ_WIN_INTERNAL (n - seqlast gd)).
      - eexists. split_and!; [done..|]. apply seq_inv_jump; [done|done|lia].
      - apply clear_loop_spec; [done|done|lia]. }
    destruct (seq_inv_record gd1 seen n H1) as (mask & E & Hi').
    { unfold win, SVC_GSS_SEQ_WIN_INTERNAL, SVC_GSS_SEQ_WIN. lia. }
    cbn [obind]. rewrite E. eexists true, _. split_and!; [done|naive_solver lia|cbn; lia|done].
Qed.

(** ** Histories *)

(** The window as it is meant to be: a number is accepted that is not too far below the
    highest one seen and was not accepted before. *)
Fixpoint seq_spec (last : Z) (seen : gset Z) (ns : list Z) : list bool :=
  match ns with
  | [] => []
  | n :: ns =>
      let b := (last - n <? SVC_GSS_SEQ_WIN_INTERNAL) && bool_decide (n ∉ seen) in
      b :: seq_spec (Z.max last n) (if b then {[n]} ∪ seen else seen) ns
  end.

(** What the code answers, on the same state: it does not look whether a number that is not
    below the highest one was accepted before. *)
Fixpoint seq_answers (last : Z) (seen : gset Z) (ns : list Z) : list bool :=
  match ns with
  | [] => []
  | n :: ns =>
      let b := (last <=? n) || (last - n <? SVC_GSS_SEQ_WIN_INTERNAL) && bool_decide (n ∉ seen) in
      b :: seq_answers (Z.max last n) (if b then {[n]} ∪ seen else seen) ns
  end.

(** The numbers answered [true]. *)
Fixpoint accepted_nums (ns : list Z) (bs : list bool) : gset Z :=
  match ns, bs with
  | n :: ns, b :: bs => (if b : bool then {[n]} else ∅) ∪ accepted_nums ns bs
  | _, _ => ∅
  end.

Definition highest (last : Z) (ns : list Z) : Z := fold_left Z.max ns last.

Lemma seq_accepts_bool last seen n b :
  (b = true ↔ seq_accepts last seen n) →
  b = (last <=? n) || (last - n <? SVC_GSS_SEQ_WIN_INTERNAL) && bool_decide (n ∉ seen).
Proof.
  intros H. apply eq_true_iff_eq. rewrite H, orb_true_iff, andb_true_iff, bool_decide_eq_true.
  rewrite Z.leb_le, Z.ltb_lt. done.
Qed.

Lemma answers_spec gd seen ns :
  seq_inv gd seen → Forall (is_u 32) ns →
  ∃ gd', answers gd ns = Ret (seq_answers (seqlast gd) seen ns, gd') ∧
    seqlast gd' = highest (seqlast gd) ns ∧
    seq_inv gd' (accepted_nums ns (seq_answers (seqlast gd) seen ns) ∪ seen).
Proof.
  intros Hi Hns. revert gd seen Hi.
  induction Hns as [|n ns Hn Hns IH]; intros gd seen Hi; cbn [answers seq_answers accepted_nums].
  { exists gd. rewrite union_empty_l_L. done. }
  destruct (seq_step gd seen n Hi Hn) as (b & gd1 & -> & Hb%seq_accepts_bool & Hl & Hi1).
  cbn [obind]. destruct (IH _ _ Hi1) as (gd2 & -> & Hl2 & Hi2). cbn [obind].
  rewrite <- Hb. rewrite Hl in *. exists gd2. split_and!; [done|done|].
  eapply eq_ind; [exact Hi2|]. destruct b; set_solver.
Qed.

Lemma seq_answers_length last seen ns : length (seq_answers last seen ns) = length ns.
Proof. revert last seen. induction ns; intros; cbn; auto. Qed.

Lemma answers_app gd ns ms bs gd1 :
  answers gd ns = Ret (bs, gd1) →
  answers gd (ns ++ ms) = let! (cs, gd2) := answers gd1 ms in Ret (bs ++ cs, gd2).
Proof.
  revert gd bs. induction ns as [|n ns IH]; intros gd bs; cbn.
  { intros [= <- <-]. by destruct (answers gd ms) as [[]| | |]. }
  intros H. apply bind_inv in H as ([b gd2] & -> & H). apply bind_inv in H as ([bs' gd3] & E & [= <- <-]).
  cbn. rewrite (IH _ _ E). by destruct (answers gd3 ms) as [[]| | |].
Qed.

(** The two differ on a repetition of the highest number only, and keep the same state. *)
Lemma answers_meant ns : ∀ last seen i n, (∀ m, m ∈ seen → m ≤ last) → ns !! i = Some n →
  ∃ s, seq_spec last seen ns !! i = Some s ∧
    seq_answers last seen ns !! i = Some (s || (n =? highest last (take i ns))).
Proof.
  induction ns as [|m ns IH]; intros last seen i n Hmax Hi; [done|]. cbn [seq_spec seq_answers].
  set (b := (last - m <? _) && _). set (b' := (last <=? m) || _).
  assert (Eb : b' = b || (m =? last)).
  { subst b b'. destruct (Z.ltb_spec (last - m) SVC_GSS_SEQ_WIN_INTERNAL), (Z.leb_spec last m), (Z.eqb_spec m last);
      cbn [andb orb]; rewrite ?orb_true_r, ?orb_false_r; try done; try (unfold SVC_GSS_SEQ_WIN_INTERNAL, SVC_GSS_SEQ_WIN in *; lia).
    rewrite bool_decide_eq_true_2; [done|]. intros Hm%Hmax. lia. }
  destruct i as [|i]; cbn in Hi; [injection Hi as ->; exists b; by rewrite Eb|].
  assert (Es : (if b' then {[m]} ∪ seen else seen) = (if b then {[m]} ∪ seen else seen)).
  { rewrite Eb. destruct (Z.eqb_spec m last) as [->|]; [|by rewrite orb_false_r]. subst b. rewrite Z.sub_diag.
    change (0 <? SVC_GSS_SEQ_WIN_INTERNAL) with true. cbn [andb]. destruct (decide (last ∈ seen)).
    - rewrite bool_decide_eq_false_2 by naive_solver. cbn. set_solver.
    - by rewrite bool_decide_eq_true_2. }
  cbn [lookup list_lookup take]. rewrite Es.
  apply (IH (Z.max last m)); [|done]. intros k. destruct b; [rewrite elem_of_union, elem_of_singleton|]; intros Hk.
  - destruct Hk as [->|Hk%Hmax]; lia.
  - apply Hmax in Hk. lia.
Qed.

(** C26. The sequence window implements its specification but for one case: on a fresh
    context and for every sequence of 32-bit sequence numbers, the check returns for each of
    them, never runs past the 512-bit circular map, and answers as a window with an unbounded
    record of the accepted numbers would -- a number is accepted that is less than 512 below
    the highest one seen and was not accepted before -- except that a number equal to the
    highest one of the earlier requests is always accepted, even if it was accepted before. *)
Theorem gss_window_refines ns :
  Forall (is_u 32) ns →
  ∃ bs gd, answers gss_seq_zero ns = Ret (bs, gd) ∧ length bs = length ns ∧
    ∀ i n, ns !! i = Some n →
      ∃ s, seq_spec 0 ∅ ns !! i = Some s ∧ bs !! i = Some (s || (n =? highest 0 (take i ns))).
Proof.
  intros Hns. destruct (answers_spec _ _ ns seq_inv_zero Hns) as (gd & E & _). exists (seq_answers 0 ∅ ns), gd.
  split; [done|]. split; [apply seq_answers_length|]. intros i n. apply answers_meant. set_solver.
Qed.

Lemma gss_window_refines_witness :
  seq_spec 0 ∅ [5; 3; 5; 3; 700; 189; 188] = [true; true; false; false; true; true; false] ∧
  ∃ bs gd, answers gss_seq_zero [5; 3; 5; 3; 700; 189; 188] = Ret (bs, gd) ∧
    bs !! 2%nat = Some true ∧ bs !! 3%nat = Some false.
Proof.
  split; [by vm_compute|].
  destruct (gss_window_refines [5; 3; 5; 3; 700; 189; 188]) as (bs & gd & E & _ & H).
  { repeat constructor; by vm_compute. }
  exists bs, gd. split; [exact E|].
  destruct (H 2%nat 5 eq_refl) as (s2 & _ & ->). destruct (H 3%nat 3 eq_refl) as (s3 & H3 & ->).
  vm_compute in H3. injection H3 as <-. split; [|done]. by destruct s2.
Defined.

(** C27. A sequence number below the highest one seen is accepted at most once: after
    any requests on a fresh context, a number that was accepted before and is not the
    highest is refused, and so is one that fell out of the window; one in the window
    that was not accepted before is accepted. *)
Theorem gss_no_replay ns n :
  Forall (is_u 32) ns → is_u 32 n → n < highest 0 ns →
  ∃ bs b gd, answers gss_seq_zero (ns ++ [n]) = Ret (bs ++ [b], gd) ∧ length bs = length ns ∧
    (b = true ↔ (n ∉ accepted_nums ns bs) ∧ highest 0 ns - n < SVC_GSS_SEQ_WIN_INTERNAL).
Proof.
  intros Hns Hn Hh. destruct (answers_spec _ _ ns seq_inv_zero Hns) as (gd & E & Hl & Hi).
  rewrite union_empty_r_L in Hi. cbn in Hl.
  destruct (seq_step gd _ n Hi Hn) as (b & gd' & Es & Hb & _).
  eexists _, b, gd'. split; [|split].
  - rewrite (answers_app _ _ _ _ _ E). cbn. by rewrite Es.
  - apply seq_answers_length.
  - rewrite Hb. unfold seq_accepts. rewrite Hl. naive_solver lia.
Qed.

Lemma gss_no_replay_witness :
  answers gss_seq_zero [9; 10; 9] ≠ OutOfFuel ∧
  ∃ bs b gd, answers gss_seq_zero ([9; 10] ++ [9]) = Ret (bs ++ [b], gd) ∧ length bs = 2%nat ∧
    (b = true ↔ (9 ∉ accepted_nums [9; 10] bs) ∧ highest 0 [9; 10] - 9 < SVC_GSS_SEQ_WIN_INTERNAL).
Proof.
  split; [by vm_compute|]. apply (gss_no_replay [9; 10] 9); [|by vm_compute..].
  repeat constructor; by vm_compute.
Defined.

(** The highest sequence number is not protected: a request whose number is at
    least every earlier one is accepted, and accepted again when it is repeated at
    once, because the branch for new numbers is also taken for a number equal to the
    highest one and does not look at its bit. *)
Theorem gss_highest_replayed ns n :
  Forall (is_u 32) ns → is_u 32 n → highest 0 ns ≤ n →
  ∃ bs gd, answers gss_seq_zero (ns ++ [n; n]) = Ret (bs ++ [true; true], gd).
Proof.
  intros Hns Hn Hh. destruct (answers_spec _ _ ns seq_inv_zero Hns) as (gd & E & Hl & Hi).
  rewrite union_empty_r_L in Hi. cbn in Hl.
  destruct (seq_step gd _ n Hi Hn) as (b & gd1 & E1 & Hb & Hl1 & Hi1).
  destruct (seq_step gd1 _ n Hi1 Hn) as (b' & gd2 & E2 & Hb' & _).
  assert (b = true) as -> by (apply Hb; left; lia).
  assert (b' = true) as -> by (apply Hb'; left; lia).
  eexists _, gd2. rewrite (answers_app _ _ _ _ _ E). cbn. rewrite E1. cbn. by rewrite E2.
Qed.

Lemma gss_highest_replayed_witness :
  ∃ bs gd, answers gss_seq_zero ([1; 2] ++ [7; 7]) = Ret (bs ++ [true; true], gd).
Proof.
  apply (gss_highest_replayed [1; 2] 7); [repeat constructor|..]; by vm_compute.
Defined.
