(* ===== verification/SvcAuthUnix.v ===== *)
(** * AUTH_SYS credentials on the server (src/svc_auth_unix.c)

    [_svcauth_unix] parses the credential in place, from the [oa_body] array of the
    message, into the area the request carries.  The theorems compare it with the
    generic filter [xdr_authunix_parms] and bound what it reads. *)
From stdpp Require Import base gmap list.
From Stdlib Require Import ZArith Lia.
From S2P Require Import Prelude Machine XdrHandle XdrStream XdrMem XdrInline XdrWire XdrCodecs XdrStruct RpcMsg Protocols ProtocolFacts.

(** enum auth_stat *)
Definition AUTH_OK : Z := 0.
Definition AUTH_BADCRED : Z := 1.
Definition AUTH_REJECTEDCRED : Z := 2.
Definition AUTH_TOOWEAK : Z := 5.

(** [(uid_t)-1] *)
Definition NO_ID : Z := 2 ^ 32 - 1.

(** ** The parser *)

(** [for (i = 0; i < gid_len; i++)]; [n] iterations are left. *)
Fixpoint gids_loop (xdrs : XDRM) (n i : nat) (buf : Z) (gids : list Z) : out (bool * list Z) :=
  match n with
  | O => Ret (true, gids)
  | S n =>
      let! (gid, buf) := IXDR_GET_INT32 xdrs buf in
      if negb (i <? length gids)%nat then Ub else
      let gids := <[i := u32 gid]> gids in
      if u32 gid =? NO_ID then Ret (false, gids) else
      gids_loop xdrs n (S i) buf gids
  end.

(** The checks on the ids and the group list, [str_len] rounded up. *)
Definition unix_groups (xdrs : XDRM) (buf auth_len str_len gid_len : Z) (aup : authunix_parms)
    (gids : list Z) : out (Z * authunix_parms) :=
  if (NGRPS <? gid_len) || (aup_uid aup =? NO_ID) || (aup_gid aup =? NO_ID)
  then Ret (AUTH_BADCRED, aup) else
  let! (ok, gids) := gids_loop xdrs (Z.to_nat gid_len) 0 buf gids in
  let aup := set_aup_gids (Pobj gids, gid_len) aup in
  if negb ok then Ret (AUTH_BADCRED, aup) else
  if auth_len <? u64 ((5 + gid_len) * BYTES_PER_XDR_UNIT + str_len)
  then Ret (AUTH_BADCRED, aup) else
  Ret (AUTH_OK, aup).

(** The in-line branch; [machname] and [gids] are the arrays of the area. *)
Definition unix_inline (xdrs : XDRM) (buf auth_len : Z) (aup : authunix_parms)
    (machname gids : list Z) : out (Z * authunix_parms) :=
  let! (time, buf) := IXDR_GET_INT32 xdrs buf in
  let aup := set_aup_time time aup in
  let! (str_len, buf) := IXDR_GET_U_INT32 xdrs buf in
  if MAX_MACHINE_NAME <? str_len then Ret (AUTH_BADCRED, aup) else
  let! bs := access (load (x_mem xdrs) buf (Z.to_nat str_len)) in
  let! machname := overlay machname bs in
  let! machname := poke machname str_len 0 in
  let aup := set_aup_machname (Pobj machname) aup in
  let str_len := RNDUP str_len in
  let buf := buf + str_len in
  let! (uid, buf) := IXDR_GET_INT32 xdrs buf in
  let aup := set_aup_uid (u32 uid) aup in
  let! (gid, buf) := IXDR_GET_INT32 xdrs buf in
  let aup := set_aup_gid (u32 gid) aup in
  let! (gid_len, buf) := IXDR_GET_U_INT32 xdrs buf in
  unix_groups xdrs buf auth_len str_len gid_len aup gids.

(** [addr] is the address of [cb_cred.oa_body]; nothing else is readable.  Returns
    the status, the cooked credential and the reply's verifier. *)
Definition _svcauth_unix (addr : Z) (cb_cred cb_verf : opaque_auth) (aup : authunix_parms)
    (machname gids : list Z) (ar_verf : opaque_auth)
    : out (Z * authunix_parms * opaque_auth) :=
  let aup := set_aup_machname (Pobj machname) (set_aup_gids (Pobj gids, (aup_gids aup).2) aup) in
  let auth_len := oa_length cb_cred in
  let! xdrs := xdrmem_ncreate (block addr (oa_body cb_cred)) addr auth_len XDR_DECODE in
  match xdr_inline_decode xdrs auth_len with
  | (Some buf, xdrs) =>
      let! (stat, aup) := unix_inline xdrs buf auth_len aup machname gids in
      Ret (stat, aup, if stat =? AUTH_OK then cb_verf else ar_verf)
  | (None, xdrs) =>
      let! (ok, aup, xdrs) := xdr_authunix_parms xdrs aup in
      if negb ok then
        let! (_, aup, _) := xdr_authunix_parms (set_op XDR_FREE xdrs) aup in
        Ret (AUTH_BADCRED, aup, ar_verf)
      else Ret (AUTH_OK, aup, cb_verf)
  end.

(** Looks up nothing: there is no cache of shorthand credentials. *)
Definition _svcauth_short : Z := AUTH_REJECTEDCRED.

(** ** Reading words from an array *)

(** The bytes [l] are at [a]. *)
Definition at_mem (m : heap) (a : Z) (l : list Z) : Prop :=
  load m a (length l) = Some l ∧ bytes l.

Lemma at_mem_app m a l1 l2 : at_mem m a (l1 ++ l2) → at_mem m a l1 ∧ at_mem m (a + Zlen l1) l2.
Proof.
  intros [Hl [H1 H2]%bytes_app]. apply load_app_inv in Hl as [Hl1 Hl2]; [|len]. by repeat split.
Qed.

Lemma at_mem_word m a l :
  at_mem m a l → 4 ≤ Zlen l →
  ∃ v tl, l = be32 v ++ tl ∧ is_u 32 v ∧ ixdr_get m a = Ret (v, a + 4) ∧ at_mem m (a + 4) tl.
Proof.
  intros Hl Hn. assert (Hb := proj2 Hl).
  assert (Ht : length (take 4 l) = 4%nat) by len.
  assert (Hbt : bytes (take 4 l)) by by apply Forall_take.
  exists (be_dec (take 4 l)), (drop 4 l). rewrite be32_be_dec, take_drop by done.
  rewrite <- (take_drop 4 l) in Hl. apply at_mem_app in Hl as [[H1 _] H2].
  rewrite Ht in *. split_and!; [done|by apply be_dec_range| |done].
  unfold ixdr_get. by rewrite H1.
Qed.

Lemma be32_inj_app v v' l l' :
  is_u 32 v → is_u 32 v' → be32 v ++ l = be32 v' ++ l' → v = v' ∧ l = l'.
Proof.
  intros Hv Hv' E. apply app_inj_1 in E as [E ->]; [|by rewrite !be32_length].
  split; [|done]. apply (f_equal be_dec) in E. rewrite !be_dec_be32, !wrapu_id in E; done.
Qed.

(** ** The wire format, written out *)

Definition gid_ptr (gl : list Z) : ptr (list Z) := match gl with [] => Pnull | _ => Pobj gl end.

Lemma words_inj gl gl' l l' :
  Forall (is_u 32) gl → Forall (is_u 32) gl' → length gl = length gl' →
  words gl ++ l = words gl' ++ l' → gl = gl'.
Proof.
  intros Hg. revert gl'. induction Hg as [|g gl Hg Hgl IH]; intros [|g' gl'] Hg' Hl E; try done.
  inversion Hg'; subst. cbn [fmap list_fmap concat] in E.
  rewrite <- !app_assoc in E. apply be32_inj_app in E as [-> E]; [|done..].
  f_equal. eapply IH; [done| |done]. by injection Hl.
Qed.

Definition unix_wire t (s pad : list Z) uid gid (gl : list Z) : list Z :=
  be32 t ++ be32 (Zlen s) ++ s ++ pad ++ be32 uid ++ be32 gid ++ be32 (Zlen gl) ++ words gl.

Record unix_fields t (s pad : list Z) uid gid (gl : list Z) : Prop := {
  uf_time : is_u 32 t;
  uf_name : bytes s;
  uf_name_len : Zlen s ≤ MAX_MACHINE_NAME;
  uf_pad : Zlen pad = padn (Zlen s);
  uf_uid : is_u 32 uid;
  uf_gid : is_u 32 gid;
  uf_gids : Forall (is_u 32) gl;
  uf_gids_len : Zlen gl ≤ NGRPS;
}.

Lemma gots_words gl w : gots uint32_spec 0 gl w ↔ Forall (is_u 32) gl ∧ w = words gl.
Proof.
  split.
  - induction 1 as [|v w gl ws (u & Hu & -> & ->) Hg [IH ->]]; [done|]. split; [by constructor|done].
  - intros [Hg ->]. induction Hg as [|g gl Hg Hgl IH]; [constructor|].
    cbn [fmap list_fmap concat]. constructor; [by exists g|done].
Qed.

Lemma gids_got n gl w :
  got (array_spec NGRPS uint32_spec 0) n gl w ↔
  ∃ l, gl = (gid_ptr l, Zlen l) ∧ Forall (is_u 32) l ∧ Zlen l ≤ NGRPS ∧ w = be32 (Zlen l) ++ words l.
Proof.
  cbn. split.
  - intros [[-> ->]|(l & w' & -> & Hn & [Hg ->]%gots_words & ->)].
    + exists []. split_and!; [done..|]. cbn. by rewrite app_nil_r.
    + exists l. destruct l; [cbn in Hn; lia|]. split_and!; [done..|lia|done].
  - intros (l & -> & Hg & Hn & ->). destruct l as [|g l]; [left|right].
    + cbn. by rewrite app_nil_r.
    + exists (g :: l), (words (g :: l)). split_and!; [done|cbn; lia|lia|by apply gots_words|done].
Qed.

Lemma authunix_got_iff r0 r w :
  got authunix_spec r0 r w ↔
  ∃ t s pad uid gid gl, unix_fields t s pad uid gid gl ∧
    r = mk_authunix_parms (s32 t) (Pobj (s ++ [0])) uid gid (gid_ptr gl, Zlen gl) ∧
    w = unix_wire t s pad uid gid gl.
Proof.
  unfold unix_wire. destruct r as [t' n' uid' gid' g']. split.
  - intros (w1 & w2 & -> & (t & Ht & -> & E1) & (w3 & w4 & -> & Hs & (w5 & w6 & -> & Hu &
      (w7 & w8 & -> & Hg & Ha)))). cbn in *.
    destruct Hs as (s & w' & -> & Hb & Hl & (pad & -> & Hp) & ->).
    destruct Hu as (uid & Hu & -> & ->), Hg as (gid & Hg & -> & ->).
    apply (gids_got (Pnull, 0)) in Ha as (gl & -> & Hgl & Hn & ->).
    exists t, s, pad, uid, gid, gl. split; [by constructor|]. subst t'. split; [done|].
    unfold id. by rewrite <- !app_assoc.
  - intros (t & s & pad & uid & gid & gl & [] & [= -> -> -> -> ->] & ->).
    eexists (be32 t), _. split; [reflexivity|]. split; [by exists t|].
    exists (be32 (Zlen s) ++ s ++ pad). eexists. rewrite <- !app_assoc. split; [reflexivity|]. split.
    { exists s, (s ++ pad). cbn. split_and!; try done. by exists pad. }
    eexists _, _. split; [reflexivity|]. split; [by exists uid|].
    eexists _, _. split; [reflexivity|]. split; [by exists gid|].
    apply (gids_got (Pnull, 0)). eauto.
Qed.

(** ** What the parser accepts *)

Definition known (id : Z) : Prop := id ≠ NO_ID.

Lemma gids_loop_spec (xdrs : XDRM) n i buf gids l :
  at_mem (x_mem xdrs) buf l → 4 * Z.of_nat n ≤ Zlen l → (i + n ≤ length gids)%nat →
  ∃ gl tl, l = words gl ++ tl ∧ length gl = n ∧ Forall (is_u 32) gl ∧
    ∃ ok gids', gids_loop xdrs n i buf gids = Ret (ok, gids') ∧
      (ok = true ↔ Forall known gl) ∧
      (ok = true → gids' = take i gids ++ gl ++ drop (i + n) gids).
Proof.
  revert i buf gids l. induction n as [|n IH]; intros i buf gids l Hl Hn Hi.
  { exists [], l. split_and!; [done..|]. exists true, gids. split_and!; [done..|].
    intros _. rewrite Nat.add_0_r. cbn. by rewrite take_drop. }
  destruct (at_mem_word _ _ _ Hl) as (g & tl & -> & Hg & Ew & Htl); [lia|].
  destruct (IH (S i) (buf + 4) (<[i := g]> gids) tl) as (gl & tl' & -> & Hlen & Hgl & ok & gids' & E & Hok & Hgids);
    [done|len|len|].
  exists (g :: gl), tl'. cbn [fmap list_fmap concat]. rewrite <- app_assoc.
  split_and!; [done|cbn; lia|by constructor|].
  cbn [gids_loop]. unfold IXDR_GET_INT32. rewrite Ew. cbn [obind].
  rewrite (proj2 (Nat.ltb_lt _ _)) by lia. cbn [negb]. rewrite wrapu_wraps, wrapu_id by done.
  destruct (Z.eqb_spec g NO_ID) as [->|Hne].
  - eexists false, _. split_and!; [done| |done]. split; [done|]. intros Hf. by inversion Hf.
  - exists ok, gids'. split_and!; [done| |].
    + rewrite Hok, Forall_cons. unfold known at 2. naive_solver.
    + intros Ht. rewrite (Hgids Ht), drop_insert_lt by lia.
      rewrite (take_S_r _ i g) by (apply list_lookup_insert_eq; lia).
      rewrite take_insert_ge, <- app_assoc by lia. by rewrite Nat.add_succ_r.
Qed.

(** The filter's view of a credential and the parser's: the arrays of the area may be
    longer than what was read. *)
Definition same_cred (aup a : authunix_parms) : Prop :=
  aup_time aup = aup_time a ∧ aup_uid aup = aup_uid a ∧ aup_gid aup = aup_gid a ∧
  (∃ s tl, aup_machname a = Pobj (s ++ [0]) ∧ aup_machname aup = Pobj (s ++ 0 :: tl)) ∧
  (∃ gl tl, aup_gids a = (gid_ptr gl, Zlen gl) ∧ aup_gids aup = (Pobj (gl ++ tl), Zlen gl)).

(** No id is the one that stands for nobody. *)
Definition ids_known (a : authunix_parms) : Prop :=
  known (aup_uid a) ∧ known (aup_gid a) ∧
  match (aup_gids a).1 with Pobj gl => Forall known gl | _ => True end.

(** The fields of a credential can be read off its bytes. *)
Lemma unix_wire_head t s pad uid gid gl r t' n tl :
  unix_fields t s pad uid gid gl → is_u 32 t' → is_u 32 n →
  be32 t' ++ be32 n ++ tl = unix_wire t s pad uid gid gl ++ r →
  t' = t ∧ n = Zlen s ∧
  tl = s ++ pad ++ be32 uid ++ be32 gid ++ be32 (Zlen gl) ++ words gl ++ r.
Proof.
  unfold unix_wire, MAX_MACHINE_NAME. intros [] Ht Hn. rewrite <- !app_assoc.
  intros [-> [-> ->]%be32_inj_app]%be32_inj_app; try done. unfold MAX_MACHINE_NAME, is_u in *. lia.
Qed.

Lemma unix_wire_tail t s pad uid gid gl r s' pad' uid' gid' k tl :
  unix_fields t s pad uid gid gl → Zlen s' = Zlen s → Zlen pad' = padn (Zlen s) →
  is_u 32 uid' → is_u 32 gid' → is_u 32 k →
  s' ++ pad' ++ be32 uid' ++ be32 gid' ++ be32 k ++ tl =
    s ++ pad ++ be32 uid ++ be32 gid ++ be32 (Zlen gl) ++ words gl ++ r →
  uid' = uid ∧ gid' = gid ∧ k = Zlen gl ∧ tl = words gl ++ r.
Proof.
  intros [] Hs Hp Hu Hg Hk E.
  apply app_inj_1 in E as [_ E]; [|lia]. apply app_inj_1 in E as [_ E]; [|lia].
  apply be32_inj_app in E as [-> E]; [|done..]. apply be32_inj_app in E as [-> E]; [|done..].
  apply be32_inj_app in E as [-> ->]; [|done|]; [done|]. unfold NGRPS, is_u in *. lia.
Qed.

(** The parser's verdict on the array [B]. *)
Definition unix_verdict (B : list Z) (auth_len stat : Z) (aup : authunix_parms) : Prop :=
  (stat = AUTH_OK ∧ ∃ a w rest, got authunix_spec a a w ∧ B = w ++ rest ∧ Zlen w ≤ auth_len ∧
     ids_known a ∧ same_cred aup a) ∨
  (stat = AUTH_BADCRED ∧ ∀ a w rest, got authunix_spec a a w → B = w ++ rest →
     Zlen w ≤ auth_len → ¬ ids_known a).

Lemma RNDUP_padn n : 0 ≤ n ≤ MAX_MACHINE_NAME → RNDUP n = n + padn n.
Proof. unfold MAX_MACHINE_NAME, padn. intros. rewrite RNDUP_spec by lia. lia. Qed.

Lemma at_mem_name m a l n :
  at_mem m a l → 0 ≤ n → n + padn n ≤ Zlen l →
  ∃ s pad tl, l = s ++ pad ++ tl ∧ Zlen s = n ∧ Zlen pad = padn n ∧ bytes s ∧
    load m a (Z.to_nat n) = Some s ∧ at_mem m (a + (n + padn n)) tl.
Proof.
  intros Hl Hn Hp. pose proof (padn_range n).
  set (k := Z.to_nat n). set (p := Z.to_nat (padn n)).
  exists (take k l), (take p (drop k l)), (drop p (drop k l)).
  rewrite !take_drop. rewrite <- (take_drop k l) in Hl at 1.
  apply at_mem_app in Hl as [[Hs Hb] Hl]. rewrite <- (take_drop p (drop k l)) in Hl.
  apply at_mem_app in Hl as [_ Hl].
  replace (Zlen (take k l)) with n in Hl by len.
  replace (Zlen (take p (drop k l))) with (padn n) in Hl by len.
  replace (length (take k l)) with k in Hs by len.
  split_and!; [done|len|len|done|done|by rewrite Z.add_assoc].
Qed.

Lemma name_stored machname s :
  Zlen machname = MAX_MACHINE_NAME + 1 → Zlen s ≤ MAX_MACHINE_NAME →
  ∃ tl, overlay machname s = Ret (s ++ drop (length s) machname) ∧
        poke (s ++ drop (length s) machname) (Zlen s) 0 = Ret (s ++ 0 :: tl).
Proof.
  unfold MAX_MACHINE_NAME. intros Hm Hs. exists (drop (S (length s)) machname). split.
  - unfold overlay. by rewrite (proj2 (Nat.leb_le _ _)) by lia.
  - unfold poke. rewrite (proj2 (Z.ltb_lt _ _)) by len. f_equal. rewrite Nat2Z.id.
    rewrite insert_app_r_alt, Nat.sub_diag by lia. f_equal.
    destruct (drop (length s) machname) as [|b tl] eqn:E.
    { apply (f_equal length) in E. len. }
    cbn. f_equal. by rewrite <- Nat.add_1_r, <- drop_drop, E.
Qed.

(** Every reading of the array as a credential has the fields the parser found. *)
Lemma unix_parts t s pad uid gid k tl a w rest :
  is_u 32 t → is_u 32 (Zlen s) → Zlen pad = padn (Zlen s) →
  is_u 32 uid → is_u 32 gid → is_u 32 k → got authunix_spec a a w →
  be32 t ++ be32 (Zlen s) ++ s ++ pad ++ be32 uid ++ be32 gid ++ be32 k ++ tl = w ++ rest →
  ∃ gl, aup_uid a = uid ∧ aup_gid a = gid ∧ aup_gids a = (gid_ptr gl, k) ∧ k = Zlen gl ∧
    Forall (is_u 32) gl ∧ k ≤ NGRPS ∧ tl = words gl ++ rest ∧
    Zlen w = (5 + k) * 4 + (Zlen s + padn (Zlen s)).
Proof.
  intros Ht Hs Hp Hu Hg Hk Hgot E.
  apply authunix_got_iff in Hgot as (t' & s' & pad' & uid' & gid' & gl & Hf & -> & ->).
  destruct (unix_wire_head _ _ _ _ _ _ _ _ _ _ Hf Ht Hs E) as (-> & Hss & E2).
  rewrite Hss in Hp.
  destruct (unix_wire_tail _ _ _ _ _ _ _ _ _ _ _ _ _ Hf Hss Hp Hu Hg Hk E2)
    as (-> & -> & -> & ->).
  exists gl. destruct Hf. split_and!; try done. unfold unix_wire.
  pose proof (words_length gl). rewrite Hss. len.
Qed.

(** The credential the parser found is the one the filter would return. *)
Lemma unix_found t s pad uid gid gl aup auth_len rest ntl gtl :
  unix_fields t s pad uid gid gl → known uid → known gid → Forall known gl →
  aup_time aup = s32 t → aup_machname aup = Pobj (s ++ 0 :: ntl) →
  aup_uid aup = uid → aup_gid aup = gid → aup_gids aup = (Pobj (gl ++ gtl), Zlen gl) →
  (5 + Zlen gl) * 4 + (Zlen s + padn (Zlen s)) ≤ auth_len →
  ∃ a w, got authunix_spec a a w ∧
    be32 t ++ be32 (Zlen s) ++ s ++ pad ++ be32 uid ++ be32 gid ++ be32 (Zlen gl) ++
      words gl ++ rest = w ++ rest ∧
    Zlen w ≤ auth_len ∧ ids_known a ∧ same_cred aup a.
Proof.
  intros Hf Hu Hg Hgl Et En Eu Eg Egs Hl.
  exists (mk_authunix_parms (s32 t) (Pobj (s ++ [0])) uid gid (gid_ptr gl, Zlen gl)),
    (unix_wire t s pad uid gid gl).
  split; [|split; [|split; [|split]]].
  - apply authunix_got_iff. exists t, s, pad, uid, gid, gl. done.
  - unfold unix_wire. by rewrite <- !app_assoc.
  - unfold unix_wire. pose proof (words_length gl). pose proof (uf_pad _ _ _ _ _ _ Hf). len.
  - unfold ids_known. cbn. split_and!; [done..|by destruct gl].
  - unfold same_cred. cbn. rewrite Et, En, Eu, Eg, Egs. split_and!; [done..| |].
    + by exists s, ntl.
    + by exists gl, gtl.
Qed.

Lemma unix_groups_spec (xdrs : XDRM) buf auth_len aup gids t s pad uid gid k tl ntl :
  at_mem (x_mem xdrs) buf tl → 4 * NGRPS ≤ Zlen tl → Zlen gids = NGRPS →
  is_u 32 t → bytes s → Zlen s ≤ MAX_MACHINE_NAME → Zlen pad = padn (Zlen s) →
  is_u 32 uid → is_u 32 gid → is_u 32 k →
  aup_time aup = s32 t → aup_machname aup = Pobj (s ++ 0 :: ntl) →
  aup_uid aup = uid → aup_gid aup = gid →
  ∃ stat aup',
    unix_groups xdrs buf auth_len (Zlen s + padn (Zlen s)) k aup gids = Ret (stat, aup') ∧
    unix_verdict (be32 t ++ be32 (Zlen s) ++ s ++ pad ++ be32 uid ++ be32 gid ++ be32 k ++ tl)
      auth_len stat aup'.
Proof.
  intros Htl Hlen Hg Ht Hsb Hsl Hp Hu Hgi Hk Et En Eu Eg.
  assert (Hs : is_u 32 (Zlen s)) by (unfold is_u, MAX_MACHINE_NAME in *; lia).
  assert (Hinv := λ a w rest, unix_parts t s pad uid gid k tl a w rest Ht Hs Hp Hu Hgi Hk).
  unfold unix_groups, unix_verdict. rewrite Eu, Eg.
  destruct (Z.ltb_spec NGRPS k) as [Hk'|Hk']; cbn [orb].
  { do 2 eexists. split; [done|]. right. split; [done|]. intros a w rest Ha E.
    destruct (Hinv a w rest Ha E) as (gl & _ & _ & _ & _ & _ & ? & _). lia. }
  destruct ((uid =? NO_ID) || (gid =? NO_ID)) eqn:Eids.
  { do 2 eexists. split; [done|]. right. split; [done|]. intros a w rest Ha E _ (H1 & H2 & _).
    destruct (Hinv a w rest Ha E) as (gl & E1 & E2 & _). unfold known in *.
    apply orb_true_iff in Eids. rewrite !Z.eqb_eq in Eids. destruct Eids; congruence. }
  apply orb_false_iff in Eids as [Hu'%Z.eqb_neq Hg'%Z.eqb_neq].
  unfold is_u in Hk. unfold NGRPS in *.
  destruct (gids_loop_spec xdrs (Z.to_nat k) 0 buf gids tl Htl)
    as (gl & tl' & -> & Hgl & Hglu & ok & gids' & -> & Hok & Hgids); [lia|lia|]. cbn [obind].
  assert (k = Zlen gl) as -> by lia. destruct ok; cbn [negb].
  2: { do 2 eexists. split; [done|]. right. split; [done|]. intros a w rest Ha E _ (_ & _ & H3).
    destruct (Hinv a w rest Ha E) as (gl' & _ & _ & E3 & Hl' & Hu'' & _ & E4 & _).
    apply words_inj in E4 as ->; [|done|done|lia]. rewrite E3 in H3.
    assert (Forall known gl') by (by destruct gl'). by apply Hok in H. }
  rewrite wrapu_id by (unfold is_u, BYTES_PER_XDR_UNIT, MAX_MACHINE_NAME in *;
    pose proof (padn_range (Zlen s)); lia).
  unfold BYTES_PER_XDR_UNIT. destruct (Z.ltb_spec auth_len ((5 + Zlen gl) * 4 + (Zlen s + padn (Zlen s)))).
  { do 2 eexists. split; [done|]. right. split; [done|]. intros a w rest Ha E Hw.
    destruct (Hinv a w rest Ha E) as (? & _ & _ & _ & _ & _ & _ & _ & ?). lia. }
  destruct (unix_found t s pad uid gid gl (set_aup_gids (Pobj gids', Zlen gl) aup) auth_len tl' ntl
              (drop (length gl) gids)) as (a & w & ?); try done.
  { by apply Hok. }
  { cbn. rewrite Hgids, Nat2Z.id by done. done. }
  do 2 eexists. split; [done|]. left. split; [done|]. exists a, w, tl'. done.
Qed.

Lemma unix_inline_spec (xdrs : XDRM) buf auth_len aup machname gids B :
  at_mem (x_mem xdrs) buf B → Zlen B = MAX_AUTH_BYTES →
  Zlen machname = MAX_MACHINE_NAME + 1 → Zlen gids = NGRPS →
  ∃ stat aup', unix_inline xdrs buf auth_len aup machname gids = Ret (stat, aup') ∧
               unix_verdict B auth_len stat aup'.
Proof.
  intros HB Hlen Hm Hg. unfold MAX_AUTH_BYTES in *. unfold unix_inline, unix_verdict.
  unfold IXDR_GET_INT32, IXDR_GET_U_INT32.
  destruct (at_mem_word _ _ _ HB) as (t & B1 & -> & Ht & -> & H1); [lia|]. cbn [obind].
  destruct (at_mem_word _ _ _ H1) as (n & B2 & -> & Hn & -> & H2); [len|]. cbn [obind].
  destruct (Z.ltb_spec MAX_MACHINE_NAME n).
  { do 2 eexists. split; [done|]. right. split; [done|].
    intros a w rest (t' & s & pad & uid & gid & gl & Hf & -> & ->)%authunix_got_iff E.
    destruct (unix_wire_head _ _ _ _ _ _ _ _ _ _ Hf Ht Hn E) as (_ & -> & _).
    pose proof (uf_name_len _ _ _ _ _ _ Hf). lia. }
  unfold is_u in Hn. pose proof (padn_range n). unfold MAX_MACHINE_NAME in H.
  destruct (at_mem_name _ _ _ n H2) as (s & pad & B3 & -> & Hs & Hpad & Hsb & -> & H3); [lia|len|].
  cbn [access obind]. subst n.
  destruct (name_stored machname s Hm) as (ntl & -> & Hpk); [unfold MAX_MACHINE_NAME; lia|].
  cbn [obind]. rewrite Hpk. cbn [obind]. rewrite RNDUP_padn by (unfold MAX_MACHINE_NAME; lia).
  destruct (at_mem_word _ _ _ H3) as (uid & B4 & -> & Hu & -> & H4); [len|]. cbn [obind].
  destruct (at_mem_word _ _ _ H4) as (gid & B5 & -> & Hgi & -> & H5); [len|]. cbn [obind].
  destruct (at_mem_word _ _ _ H5) as (k & B6 & -> & Hk & -> & H6); [len|]. cbn [obind].
  rewrite !wrapu_wraps, !wrapu_id by done.
  eapply unix_groups_spec; try done. unfold NGRPS. len.
Qed.

(** ** The authenticator *)

(** The message's credential and the areas it is cooked into: arrays of the sizes
    declared, and a credential no longer than its array. *)
Record unix_pre (addr : Z) (cred : opaque_auth) (machname gids : list Z) : Prop := {
  up_addr : 0 < addr ∧ addr mod 4 = 0;
  up_body : Zlen (oa_body cred) = MAX_AUTH_BYTES ∧ bytes (oa_body cred);
  up_len : 0 ≤ oa_length cred ≤ MAX_AUTH_BYTES;
  up_machname : Zlen machname = MAX_MACHINE_NAME + 1;
  up_gids : Zlen gids = NGRPS;
}.

(** The in-line branch is always taken: the whole credential is in the buffer. *)
Lemma svcauth_unix_inline addr cred verf aup machname gids ar_verf :
  unix_pre addr cred machname gids →
  ∃ stat aup', _svcauth_unix addr cred verf aup machname gids ar_verf =
      Ret (stat, aup', if stat =? AUTH_OK then verf else ar_verf) ∧
    unix_verdict (oa_body cred) (oa_length cred) stat aup'.
Proof.
  intros [[Ha Ha4] [Hb Hbytes] Hl Hm Hg]. unfold _svcauth_unix, xdrmem_ncreate.
  change 3 with (Z.ones 2). rewrite Z.land_ones by lia. change (2 ^ 2) with 4. rewrite Ha4.
  rewrite (proj2 (Z.eqb_neq addr 0)) by lia. cbn [Z.eqb negb obind]. unfold xdr_inline_decode. cbn.
  rewrite Z.leb_refl. match goal with |- context [unix_inline ?x] => pose (xd := x) end.
  destruct (unix_inline_spec xd addr (oa_length cred)
              (set_aup_machname (Pobj machname) (set_aup_gids (Pobj gids, (aup_gids aup).2) aup))
              machname gids (oa_body cred)) as (stat & aup' & E & Hv); [|done..|].
  { split; [apply load_block|done]. }
  exists stat, aup'. unfold xd in E. rewrite E. done.
Qed.

Definition aup_zero : authunix_parms := mk_authunix_parms 0 Pnull 0 0 (Pnull, 0).

(** C28. The in-place parser of AUTH_SYS credentials agrees with the generic filter: for
    every credential in its 400-byte array, [_svcauth_unix] stays inside the arrays it
    is given, and returns AUTH_OK exactly when [xdr_authunix_parms], run on the
    [oa_length] bytes of the credential, succeeds and no id in it is the one for
    nobody; it then holds the same time, machine name, ids and groups, and the
    reply's verifier is the call's.  Otherwise it returns AUTH_BADCRED and leaves the
    reply's verifier alone. *)
Theorem svcauth_unix_agrees addr cred verf aup machname gids ar_verf :
  unix_pre addr cred machname gids →
  ∃ stat aup' v b a x',
    _svcauth_unix addr cred verf aup machname gids ar_verf = Ret (stat, aup', v) ∧
    xdr_authunix_parms (mem_reader (take (Z.to_nat (oa_length cred)) (oa_body cred))) aup_zero =
      Ret (b, a, x') ∧
    (b = true ∧ ids_known a → stat = AUTH_OK ∧ same_cred aup' a ∧ v = verf) ∧
    (b = false ∨ ¬ ids_known a → stat = AUTH_BADCRED ∧ v = ar_verf).
Proof.
  intros Hpre. destruct (svcauth_unix_inline addr cred verf aup machname gids ar_verf Hpre)
    as (stat & aup' & E & Hv).
  destruct Hpre as [_ [Hlen Hb] Hl _ _]. set (n := Z.to_nat (oa_length cred)).
  assert (Hx := mem_reader_at (take n (oa_body cred)) (Forall_take _ _ _ Hb)).
  assert (Hf : fresh authunix_spec aup_zero) by done.
  destruct Hv as [[-> (a & w & rest & Hg & Eb & Hw & Hid & Hs)]|[-> Hno]].
  - assert (Et : take n (oa_body cred) = w ++ take (n - length w) rest).
    { rewrite Eb, take_app. f_equal. apply take_ge. lia. }
    rewrite Et in *. apply authunix_got_iff, authunix_got_iff with (r0 := aup_zero) in Hg.
    destruct (cd_decodes aup_zero a w Hf Hg _ _ Hx) as (x' & Ed & _).
    exists AUTH_OK, aup', verf, true, a, x'. split_and!; [done..|naive_solver|naive_solver].
  - destruct (cd_decoded aup_zero Hf _ _ Hx) as [(a & w & tl & x' & Et & Hg & Ed & _)|(a & x' & _ & Ed)].
    + eexists _, _, _, _, _, _. split_and!; [done|done|intros [_ Hid]|done].
      destruct (Hno a w (tl ++ drop n (oa_body cred))); [|by rewrite app_assoc, <- Et, take_drop| |done].
      * apply authunix_got_iff, authunix_got_iff with (r0 := a) in Hg. done.
      * apply (f_equal length) in Et. len.
    + eexists _, _, _, _, _, _. split_and!; [done|done|by intros []|done].
Qed.

(** User 1000 of group 100, also in group 5, on the machine hi. *)
Definition some_cred : opaque_auth :=
  mk_auth 1 28 (unix_wire 7 [104; 105] [0; 0] 1000 100 [5] ++ replicate 372 0).

Lemma some_cred_pre : unix_pre 16 some_cred (replicate 256 0) (replicate 16 0).
Proof.
  constructor; [done| |done|done|done]. split; [done|]. apply bytes_app. split.
  - unfold unix_wire. repeat (apply bytes_app; split); try apply be32_bytes; by repeat constructor.
  - by apply bytes_replicate.
Qed.

Lemma svcauth_unix_agrees_witness :
  (∃ aup, _svcauth_unix 16 some_cred _null_auth aup_zero (replicate 256 0) (replicate 16 0) _null_auth =
     Ret (AUTH_OK, aup, _null_auth) ∧ aup_uid aup = 1000 ∧ (aup_gids aup).2 = 1) ∧
  ∃ stat aup' v b a x',
    _svcauth_unix 16 some_cred _null_auth aup_zero (replicate 256 0) (replicate 16 0) _null_auth =
      Ret (stat, aup', v) ∧
    xdr_authunix_parms (mem_reader (take 28 (oa_body some_cred))) aup_zero = Ret (b, a, x') ∧
    (b = true ∧ ids_known a → stat = AUTH_OK ∧ same_cred aup' a ∧ v = _null_auth) ∧
    (b = false ∨ ¬ ids_known a → stat = AUTH_BADCRED ∧ v = _null_auth).
Proof.
  split.
  - eexists. split; [vm_compute; reflexivity|]. by vm_compute.
  - apply (svcauth_unix_agrees 16 some_cred _null_auth aup_zero (replicate 256 0) (replicate 16 0)
             _null_auth some_cred_pre).
Defined.
