(* ===== verification/ProtocolTheorems.v ===== *)
(** * What the protocol filters guarantee

    Linked lists of registrations (termination on arbitrary input, release), the
    back-patched length of a remote call's arguments, the limit an address carries
    with itself and the release of RPCSEC_GSS buffers. *)
From stdpp Require Import base gmap list.
From Stdlib Require Import ZArith Lia.
From S2P Require Import Prelude Machine XdrHandle XdrStream XdrMem XdrInline XdrWire XdrCodecs XdrStruct RpcMsg Protocols ProtocolFacts.

(** ** Linked lists *)

(** C38. The loop that decodes rpcbind's list of registrations ends on every input and
    never touches released memory: on any bytes it returns, with fewer registrations
    than bytes read, and what it built -- the whole list, or the nodes completed
    before a failure -- is released node by node, leaving a null pointer. *)
Theorem rpcblist_decode_release bs :
  bytes bs →
  ∃ b l x', xdr_rpcblist_ptr (mem_reader bs) [] = Ret (b, l, x') ∧
    (b = true → ∃ w tl, bs = w ++ tl ∧ nodes_got rpcb_spec rpcb_zero l w ∧
                        (length l < length bs)%nat) ∧
    xdr_nfree MemPriv xdr_rpcblist_ptr l = Ret (true, []).
Proof.
  intros Hb. assert (Hx := mem_reader_at bs Hb).
  assert (Hfree : ∀ l, Forall (live rpcb_spec) l →
            xdr_nfree MemPriv xdr_rpcblist_ptr l = Ret (true, [])).
  { intros l Hl. unfold xdr_nfree.
    by rewrite (cd_frees (f := xdr_rpcblist_ptr) (S := nodes_spec rpcb_spec rpcb_zero) l Hl). }
  destruct (cd_decoded (f := xdr_rpcblist_ptr) (S := nodes_spec rpcb_spec rpcb_zero) [] eq_refl _ _ Hx)
    as [(l & w & tl & x' & -> & Hg & E & _)|(l & x' & Hl & E)].
  - exists true, l, x'. split_and!; [done| |].
    + intros _. exists w, tl. apply (nodes_got_length) in Hg as Hn. split_and!; [done..|len].
    + apply Hfree. by apply (cd_live (f := xdr_rpcblist_ptr) (S := nodes_spec rpcb_spec rpcb_zero) [] l w).
  - exists false, l, x'. split_and!; [done|done|by apply Hfree].
Qed.

(** One registration, then a promise of another that is cut short. *)
Definition one_and_a_half : list Z :=
  be32 1 ++ be32 100003 ++ be32 4 ++ be32 3 ++ [116; 99; 112; 0] ++ be32 0 ++ be32 0 ++
  be32 1 ++ be32 100005.

Lemma rpcblist_decode_release_witness :
  ∃ b l x', xdr_rpcblist_ptr (mem_reader one_and_a_half) [] = Ret (b, l, x') ∧
    (b = true → ∃ w tl, one_and_a_half = w ++ tl ∧ nodes_got rpcb_spec rpcb_zero l w ∧
                        (length l < length one_and_a_half)%nat) ∧
    xdr_nfree MemPriv xdr_rpcblist_ptr l = Ret (true, []).
Proof.
  apply (rpcblist_decode_release one_and_a_half). vm_compute. repeat constructor; by vm_compute.
Defined.

(** Releasing a portmapper list reads released memory: [xdr_pmaplist] remembers the
    address of the next-pointer inside the node it is about to release and reads the
    pointer through it afterwards, so XDR_FREE on any non-empty list is undefined
    behaviour.  The rpcbind loop copies the pointer first and releases the same
    list safely. *)
Theorem pmaplist_free_use_after_free p ps r rs :
  xdr_nfree MemPriv xdr_pmaplist (p :: ps) = Ub ∧
  (Forall (live rpcb_spec) (r :: rs) →
   xdr_nfree MemPriv xdr_rpcblist_ptr (r :: rs) = Ret (true, [])).
Proof.
  split; [done|]. intros Hl. unfold xdr_nfree.
  by rewrite (cd_frees (f := xdr_rpcblist_ptr) (S := nodes_spec rpcb_spec rpcb_zero) (r :: rs) Hl).
Qed.

Lemma pmaplist_free_use_after_free_witness :
  xdr_nfree MemPriv xdr_pmaplist [pmap_zero] = Ub ∧
  (Forall (live rpcb_spec) [rpcb_zero] →
   xdr_nfree MemPriv xdr_rpcblist_ptr [rpcb_zero] = Ret (true, [])).
Proof. apply (pmaplist_free_use_after_free pmap_zero [] rpcb_zero []). Defined.

(** A portmapper list survives the wire: encoding any list of registrations with
    32-bit fields fills a buffer of exactly its size with a true word and four
    words per registration and a final false word, and decoding that buffer gives
    the list back. *)
Theorem pmaplist_roundtrip l :
  Forall (λ p, is_u 32 (pm_prog p) ∧ is_u 32 (pm_vers p) ∧ is_u 32 (pm_prot p) ∧
               is_u 32 (pm_port p)) l →
  let w := concat ((λ p, be32 1 ++ be32 (pm_prog p) ++ be32 (pm_vers p) ++ be32 (pm_prot p) ++
                         be32 (pm_port p)) <$> l) ++ be32 0 in
  ∃ x' y', xdr_pmaplist (mem_writer (length w)) l = Ret (true, l, x') ∧
    load (x_mem x') 4096 (length w) = Some w ∧
    xdr_pmaplist (mem_reader w) [] = Ret (true, l, y').
Proof.
  intros Hl w. assert (Hwf : Forall (wf pmap_spec) l) by (eapply Forall_impl; [done|]; by intros []).
  assert (Hw : w = nodes_wire pmap_spec l).
  { unfold w. clear. induction l as [|[] l IH]; [done|]. cbn [fmap list_fmap concat nodes_wire].
    rewrite <- IH. cbn. by rewrite <- !app_assoc. }
  clearbody w. subst w.
  destruct (mem_writer_at (length (nodes_wire pmap_spec l))) as [bf Hx].
  destruct (xdr_nodes_encodes (W := mem_output_at bf) pmap_zero xdr_pmap false pmap_spec l Hwf _ _ _ Hx)
    as [He _]. destruct He as (x' & E & (_ & _ & Hld & _ & _ & _ & Hh & _)); [simpl; lia|].
  assert (Hz : fresh pmap_spec pmap_zero) by done.
  assert (bf_addr bf = 4096) as Ha by (symmetry; apply Hx).
  assert (Hb : bytes (nodes_wire pmap_spec l))
    by exact (nodes_wire_bytes (W := mem_output_at bf) xdr_pmap pmap_spec l Hwf).
  destruct (xdr_nodes_decodes (W := mem_output_at bf) pmap_zero xdr_pmap false pmap_spec Hz l
    (nodes_wire pmap_spec l)) with (x := mem_reader (nodes_wire pmap_spec l)) (tl := @nil Z)
    as (y' & Ey & _).
  { exact (nodes_wire_got (W := mem_output_at bf) pmap_zero xdr_pmap pmap_spec Hz l Hwf). }
  { rewrite app_nil_r. by apply mem_reader_at. }
  exists x', y'. rewrite Hh, Ha in Hld. done.
Qed.

Lemma pmaplist_roundtrip_witness :
  let l := [mk_pmap 100003 4 6 2049; mk_pmap 100005 3 17 20048] in
  let w := concat ((λ p, be32 1 ++ be32 (pm_prog p) ++ be32 (pm_vers p) ++ be32 (pm_prot p) ++
                         be32 (pm_port p)) <$> l) ++ be32 0 in
  ∃ x' y', xdr_pmaplist (mem_writer (length w)) l = Ret (true, l, x') ∧
    load (x_mem x') 4096 (length w) = Some w ∧
    xdr_pmaplist (mem_reader w) [] = Ret (true, l, y').
Proof.
  apply (pmaplist_roundtrip [mk_pmap 100003 4 6 2049; mk_pmap 100005 3 17 20048]).
  repeat constructor; by vm_compute.
Defined.

(** ** Remote calls *)

Lemma uint32_encode_at bf (x : XDRM) w c v :
  mem_out bf x w c → is_u 32 v → fits 4 c →
  ∃ x', xdr_uint32_t x v = Ret (true, v, x') ∧ mem_out bf x' (w ++ be32 v) (cap_sub c 4).
Proof.
  intros Hx Hv Hf.
  destruct (cd_encodes (W := mem_output_at bf) (f := xdr_uint32_t) (S := uint32_spec) v Hv _ _ _ Hx)
    as [He _]. cbn [wire uint32_spec unit_spec] in He. rewrite be32_length in He. by apply He.
Qed.

Lemma putuint32_uint32 (x : XDRM) v z :
  x_op x = XDR_ENCODE → xdr_putuint32 x v = Ret (true, z) → xdr_uint32_t x v = Ret (true, v, z).
Proof. intros Hop E. unfold xdr_uint32_t. rewrite Hop. unfold keep. by rewrite E. Qed.

(** The length of a remote call's arguments is patched in place: for any argument
    filter that writes [w] for [v], encoding a portmapper CALLIT request into a
    buffer with room for it writes the program, version, procedure, the number of
    argument bytes and the arguments, whatever length the caller left in the
    structure, stands after the arguments, and stores the length found. *)
Theorem rmtcall_args_encode {A} bf (f : xdrproc mem_priv A) (v : A) w (x : XDRM) w0 c
    prog vers proc arglen :
  encodes (W := mem_output_at bf) f v w → mem_out bf x w0 c →
  is_u 32 prog → is_u 32 vers → is_u 32 proc → is_u 32 arglen →
  fits (16 + Zlen w) c → Zlen w0 + 16 + Zlen w < 2 ^ 32 →
  ∃ x', xdr_rmtcall_args f x (mk_rmtcallargs prog vers proc arglen v) =
          Ret (true, mk_rmtcallargs prog vers proc (Zlen w) v, x') ∧
        mem_out bf x' (w0 ++ be32 prog ++ be32 vers ++ be32 proc ++ be32 (Zlen w) ++ w)
          (cap_sub c (16 + Zlen w)).
Proof.
  intros Hf Hx Hp Hv Hpr Ha Hc Hlen.
  assert (∃ k, c = Some k) as [k ->] by (destruct Hx as (_ & _ & _ & _ & _ & -> & _); eauto).
  cbn [fits] in Hc. cbn [cap_sub].
  unfold xdr_rmtcall_args, xdr_and, xdr_field, xdr_rpcprog, xdr_rpcvers, xdr_rpcproc.
  destruct (uint32_encode_at _ _ _ _ prog Hx Hp) as (x1 & E1 & H1); [cbn; lia|].
  destruct (uint32_encode_at _ _ _ _ vers H1 Hv) as (x2 & E2 & H2); [cbn; lia|].
  destruct (uint32_encode_at _ _ _ _ proc H2 Hpr) as (x3 & E3 & H3); [cbn; lia|].
  destruct (mem_getpos_at _ _ _ _ H3) as (x4 & E4 & H4); [len|].
  destruct (uint32_encode_at _ _ _ _ arglen H4 Ha) as (x5 & E5 & H5); [cbn; lia|].
  destruct (mem_getpos_at _ _ _ _ H5) as (x6 & E6 & H6); [len|].
  destruct (Hf _ _ _ H6) as [(x7 & E7 & H7) _]; [cbn; lia|].
  destruct (mem_getpos_at _ _ _ _ H7) as (x8 & E8 & H8); [len|].
  set (hd := ((w0 ++ be32 prog) ++ be32 vers) ++ be32 proc) in *.
  rewrite <- (app_assoc hd) in H8, E8.
  destruct (mem_patch _ _ hd arglen (Zlen w) w _ H8)
    as (x9 & x10 & x11 & E9 & Hop & E10%putuint32_uint32 & E11 & H11); [|done].
  assert (Hn : u32 (Zlen (hd ++ be32 arglen ++ w) - Zlen (hd ++ be32 arglen)) = Zlen w).
  { rewrite wrapu_id; [|unfold is_u]; len. }
  exists x11. split.
  - cbn -[xdrmem_getpos xdrmem_setpos wrapu].
    repeat (first [rewrite E1|rewrite E2|rewrite E3|rewrite E4|rewrite E5|rewrite E6|rewrite E7
                  |rewrite E8|rewrite Hn|rewrite E9|rewrite E10|rewrite E11];
            cbn -[xdrmem_getpos xdrmem_setpos wrapu app length Z.of_nat Z.sub]). done.
  - unfold hd in H11. rewrite <- !app_assoc in H11. rewrite !cap_sub_sub in H11.
    replace (16 + Zlen w) with (4 + (4 + (4 + (4 + Zlen w)))) by lia. exact H11.
Qed.

Lemma rmtcall_args_encode_witness :
  ∃ bf x', xdr_rmtcall_args xdr_u_int32_t (mem_writer 64) (mk_rmtcallargs 100003 4 1 999 7) =
             Ret (true, mk_rmtcallargs 100003 4 1 4 7, x') ∧
           mem_out bf x' (be32 100003 ++ be32 4 ++ be32 1 ++ be32 4 ++ be32 7) (Some 44).
Proof.
  destruct (mem_writer_at 64) as [bf Hx]. exists bf.
  apply (rmtcall_args_encode bf xdr_u_int32_t 7 (be32 7) (mem_writer 64) [] (Some 64) 100003 4 1 999);
    [|exact Hx|by vm_compute..].
  apply (cd_encodes (W := mem_output_at bf) (f := xdr_uint32_t) (S := uint32_spec)). by vm_compute.
Defined.

(** ** Addresses *)

(** An address read from the wire carries its own limit: decoding arbitrary bytes as
    a netbuf never overruns, and on success the address has the length found, at most
    the maximum found before it. *)
Theorem netbuf_decode_bounded bs nb0 :
  bytes bs → (nb_buf nb0).1 = Pnull →
  ∃ b nb x', xdr_netbuf (mem_reader bs) nb0 = Ret (b, nb, x') ∧
    (b = true → 0 ≤ (nb_buf nb).2 ≤ nb_maxlen nb ∧
       match (nb_buf nb).1 with
       | Pobj l => Zlen l = (nb_buf nb).2 ∧ 8 + Zlen l ≤ Zlen bs
       | Pnull => (nb_buf nb).2 = 0
       | Pfreed => False
       end).
Proof.
  intros Hb H0.
  destruct (cd_decoded (f := xdr_netbuf) (S := netbuf_spec) nb0 H0 _ _ (mem_reader_at bs Hb))
    as [(nb & w & tl & x' & -> & (w' & Hm & -> & Hg) & E & _)|(nb & x' & _ & E)];
    eexists _, nb, x'; (split; [exact E|]); [intros _|done]. unfold is_u in Hm.
  destruct Hg as [[-> ->]|(l & w2 & -> & Hl & _ & (pad & -> & _) & ->)]; cbn [fst snd]; [lia|].
  split; [lia|]. split; [done|]. len.
Qed.

Lemma netbuf_decode_bounded_witness :
  ∃ b nb x', xdr_netbuf (mem_reader (be32 16 ++ be32 2 ++ [7; 8; 0; 0])) (mk_netbuf 0 (Pnull, 0)) =
      Ret (b, nb, x') ∧
    (b = true → 0 ≤ (nb_buf nb).2 ≤ nb_maxlen nb ∧
       match (nb_buf nb).1 with
       | Pobj l => Zlen l = (nb_buf nb).2 ∧ 8 + Zlen l ≤ Zlen (be32 16 ++ be32 2 ++ [7; 8; 0; 0])
       | Pnull => (nb_buf nb).2 = 0
       | Pfreed => False
       end).
Proof.
  apply (netbuf_decode_bounded (be32 16 ++ be32 2 ++ [7; 8; 0; 0]) (mk_netbuf 0 (Pnull, 0)));
    [|done]. vm_compute. repeat constructor; by vm_compute.
Defined.

(** ** RPCSEC_GSS *)

Abbreviation gss_pair b := (gb_value b, gb_length b).

Section Gss.
Context {P : Type} {O : XdrOps P} {I : XdrInput P} {W : XdrOutput P}.

Lemma gss_buf_encodes m b :
  is_u 32 m → wf (bytes_spec m) (gss_pair b) →
  encodes (xdr_rpc_gss_buf m) b (wire (bytes_spec m) (gss_pair b)).
Proof.
  intros Hm Hb x w c Hx.
  destruct (cd_encodes (Codec := bytes_codec m Hm) _ Hb x w c Hx) as [H1 H2].
  assert (Hl : is_u 32 (gb_length b)).
  { destruct b as [p n]. destruct Hb as [[= -> ->]|(bs & [= -> ->] & Hl & _)];
      unfold is_u in *; cbn; lia. }
  unfold xdr_bytes in H1, H2. unfold xdr_rpc_gss_buf, xdr_rpc_gss_encode.
  rewrite (out_at_encode _ _ _ Hx) in *. rewrite wrapu_id by done.
  rewrite (proj2 (Z.ltb_ge UINT32_MAX _)) by (unfold is_u, UINT32_MAX in *; lia).
  destruct b as [p n]. split; intros Hc.
  - destruct (H1 Hc) as (x' & E & ?). cbn [gb_value gb_length] in *. rewrite E. cbn. eauto.
  - destruct (H2 Hc) as (x' & E). cbn [gb_value gb_length] in *. rewrite E. cbn. eauto.
Qed.

Lemma max_u32 : is_u 32 UINT32_MAX.
Proof. done. Qed.

Lemma gss_buf_decodes m b0 b w :
  gb_value b0 = Pnull → got (bytes_spec UINT32_MAX) (Pnull, 0) (gss_pair b) w →
  decodes (xdr_rpc_gss_buf m) b0 w b.
Proof.
  intros H0 Hg x tl Hx.
  destruct (cd_decodes (Codec := bytes_codec _ max_u32) (Pnull, 0) _ w eq_refl Hg x tl Hx) as (x' & E & ?).
  unfold xdr_bytes in E. unfold xdr_rpc_gss_buf, xdr_rpc_gss_decode.
  rewrite (in_at_decode _ _ _ Hx) in *. rewrite H0, E. cbn. destruct b. eauto.
Qed.
End Gss.

(** The limit on RPCSEC_GSS tokens binds only the sender: a token longer than
    [AUTHGSS_MAX_TOKEN_SIZE] is refused by the encoder, while the decoder accepts one
    of any 32-bit length, because the limit is not passed on when decoding. *)
Theorem gss_token_limit_not_checked bs :
  bytes bs → AUTHGSS_MAX_TOKEN_SIZE < Zlen bs ≤ UINT32_MAX →
  (∀ x, x_op x = XDR_ENCODE →
     xdr_rpc_gss_init_args (P := mem_priv) x (mk_gss_buffer (Pobj bs) (Zlen bs)) =
       Ret (false, mk_gss_buffer (Pobj bs) (Zlen bs), x)) ∧
  ∃ x', xdr_rpc_gss_init_args (mem_reader (be32 (Zlen bs) ++ pad_wire bs)) (mk_gss_buffer Pnull 0) =
          Ret (true, mk_gss_buffer (Pobj bs) (Zlen bs), x').
Proof.
  unfold AUTHGSS_MAX_TOKEN_SIZE, UINT32_MAX. intros Hb Hl. split.
  - intros x Hop. unfold xdr_rpc_gss_init_args, xdr_rpc_gss_buf, xdr_rpc_gss_encode, UINT32_MAX.
    rewrite Hop. cbn [gb_length gb_value]. rewrite wrapu_id by (unfold is_u; lia).
    rewrite (proj2 (Z.ltb_ge _ _)) by lia. unfold xdr_bytes_encode, AUTHGSS_MAX_TOKEN_SIZE.
    by rewrite (proj2 (Z.ltb_lt 24576 _)) by lia.
  - set (w := be32 (Zlen bs) ++ pad_wire bs).
    assert (Hx : in_at (mem_reader w) 0 (w ++ [])).
    { rewrite app_nil_r. apply mem_reader_at. unfold w. auto with ntirpc. }
    destruct (gss_buf_decodes AUTHGSS_MAX_TOKEN_SIZE (mk_gss_buffer Pnull 0)
                (mk_gss_buffer (Pobj bs) (Zlen bs)) w eq_refl) with (mem_reader w) (@nil Z)
      as (x' & E & _); [|done|eauto].
    right. exists bs, (pad_wire bs). unfold UINT32_MAX. split_and!; try done; [lia|lia|].
    apply padded_pad_wire.
Qed.

Definition big_token : list Z := replicate (Z.to_nat 30000) 7.

Lemma gss_token_limit_not_checked_witness :
  (∀ x, x_op x = XDR_ENCODE →
     xdr_rpc_gss_init_args (P := mem_priv) x (mk_gss_buffer (Pobj big_token) (Zlen big_token)) =
       Ret (false, mk_gss_buffer (Pobj big_token) (Zlen big_token), x)) ∧
  ∃ x', xdr_rpc_gss_init_args (mem_reader (be32 (Zlen big_token) ++ pad_wire big_token))
          (mk_gss_buffer Pnull 0) =
        Ret (true, mk_gss_buffer (Pobj big_token) (Zlen big_token), x').
Proof.
  apply (gss_token_limit_not_checked big_token).
  - by apply bytes_replicate.
  - unfold big_token. rewrite length_replicate. by vm_compute.
Defined.

Definition gss_cred_zero : rpc_gss_cred := mk_rpc_gss_cred 0 0 0 0 (mk_gss_buffer Pnull 0).

(** An RPCSEC_GSS credential survives the wire: on every stream that keeps its
    contract, encoding a credential with a context handle of at most
    [MAX_AUTH_BYTES] bytes writes its four words and the handle, and decoding them
    into a zeroed structure gives the credential back.  It must be released once
    only: XDR_FREE leaves the handle's pointer in place, and a second XDR_FREE
    releases it again. *)
Theorem gss_cred_roundtrip {P} {O : XdrOps P} {I : XdrInput P} {W : XdrOutput P}
    v proc seq svc bs :
  is_u 32 v → is_s 32 proc → is_u 32 seq → is_s 32 svc → bytes bs →
  0 < Zlen bs ≤ MAX_AUTH_BYTES →
  let c := mk_rpc_gss_cred v proc seq svc (mk_gss_buffer (Pobj bs) (Zlen bs)) in
  let w := be32 v ++ be32 proc ++ be32 seq ++ be32 svc ++ be32 (Zlen bs) ++ pad_wire bs in
  encodes xdr_rpc_gss_cred c w ∧ decodes xdr_rpc_gss_cred gss_cred_zero w c ∧
  ∀ x, x_op x = XDR_FREE →
    ∃ c', xdr_rpc_gss_cred (P := P) x c = Ret (true, c', x) ∧ xdr_rpc_gss_cred x c' = Ub.
Proof.
  intros Hv Hp Hs Hsv Hb Hl c w. unfold xdr_rpc_gss_cred.
  assert (Hu : ∀ T (get : T → Z) set r a r', is_u 32 a → set a r = r' →
            decodes (xdr_field get set xdr_u_int32_t) r (be32 a) r').
  { intros * Ha E. eapply decodes_field; [|exact E].
    apply (cd_decodes (S := uint32_spec)); [done|by exists a]. }
  assert (He : ∀ T (get : T → Z) set r a r', is_s 32 a → set a r = r' →
            decodes (xdr_field get set xdr_enum) r (be32 a) r').
  { intros * Ha E. eapply decodes_field; [|exact E].
    apply (cd_decodes (S := int32_spec)); [done|]. by apply (cd_canon (f := xdr_enum) (S := int32_spec)). }
  split_and!.
  - repeat apply encodes_and; (apply encodes_field; [|done]); cbn [gc_v gc_proc gc_seq gc_svc gc_ctx c].
    1,3: by apply (cd_encodes (S := uint32_spec)). 1,2: by apply (cd_encodes (S := int32_spec)).
    apply gss_buf_encodes; [done|]. right. exists bs. done.
  - unfold w. repeat eapply decodes_and; [by apply Hu|by apply He|by apply Hu|by apply He|].
    eapply decodes_field; [apply (gss_buf_decodes _ _ (mk_gss_buffer (Pobj bs) (Zlen bs)))|]; [done| |done].
    right. exists bs, (pad_wire bs). unfold MAX_AUTH_BYTES, UINT32_MAX in *.
    split_and!; auto using padded_pad_wire; lia.
  - intros x Hop. exists (set_gc_ctx (mk_gss_buffer Pfreed (Zlen bs)) c).
    unfold xdr_and, xdr_field, xdr_u_int32_t, xdr_uint32_t, xdr_enum, xdr_rpc_gss_buf.
    split; repeat (rewrite Hop; cbn); done.
Qed.

Lemma gss_cred_roundtrip_witness :
  let c := mk_rpc_gss_cred 1 0 5 1 (mk_gss_buffer (Pobj [1; 2; 3]) (Zlen [1; 2; 3])) in
  let w := be32 1 ++ be32 0 ++ be32 5 ++ be32 1 ++ be32 (Zlen [1; 2; 3]) ++ pad_wire [1; 2; 3] in
  encodes (P := mem_priv) xdr_rpc_gss_cred c w ∧
  decodes (P := mem_priv) xdr_rpc_gss_cred gss_cred_zero w c ∧
  ∀ x, x_op x = XDR_FREE →
    ∃ c', xdr_rpc_gss_cred (P := mem_priv) x c = Ret (true, c', x) ∧ xdr_rpc_gss_cred x c' = Ub.
Proof.
  apply (gss_cred_roundtrip (P := mem_priv) 1 0 5 1 [1; 2; 3]); try by vm_compute.
  repeat constructor; by vm_compute.
Defined.
