(* ===== verification/RpcMsgFacts.v ===== *)
(** * The RPC message encoders and decoders

    The decoders read the same words whether they find them in a window of the
    current buffer or through the stream, accept exactly the messages described by
    [msg_got] and never read outside what they were given; the encoders write the
    message's words, and the two together are a round trip. *)
From stdpp Require Import base gmap list.
From Stdlib Require Import ZArith Lia.
From S2P Require Import Prelude Machine XdrHandle XdrStream XdrInline XdrWire XdrCodecs RpcMsg.

(** ** Words in a window *)

Section Source.
Context {P : Type} {O : XdrOps P} {I : XdrInput P}.

(** [n] bytes of [l] are still in the window [buf], the others in the stream. *)
Definition src_at (x : XDR P) (buf : option Z) (n : Z) (l : list Z) : Prop :=
  match buf with
  | None => in_at x 0 l
  | Some a => ∃ ws tl, l = ws ++ tl ∧ Zlen ws = n ∧
                load (x_mem x) a (length ws) = Some ws ∧ bytes ws ∧ in_at x 0 tl
  end.

Lemma src_done x buf l : src_at x buf 0 l → in_at x 0 l.
Proof. destruct buf; [|done]. intros (ws & tl & -> & H0 & _ & _ & ?). by destruct ws. Qed.

(** Leaving a window unread consumes it. *)
Lemma src_skip x buf n l :
  src_at x buf n l →
  ∃ skip tl, l = skip ++ tl ∧ (Zlen skip = 0 ∨ Zlen skip = n) ∧ in_at x 0 tl.
Proof.
  destruct buf; [|exists [], l; auto]. intros (ws & tl & -> & Hn & _ & _ & ?). exists ws, tl. auto.
Qed.

Lemma inline_src x l n : in_at x 0 l → 0 ≤ n → n mod 4 = 0 →
  let (buf, x') := xdr_inline_decode x n in src_at x' buf n l.
Proof.
  intros Hx Hn Hm. destruct (Z_lt_le_dec (Zlen l) n) as [Hl|Hl].
  - by rewrite (in_inline_short _ _ _ Hx Hl).
  - assert (Hlen : Zlen (take (Z.to_nat n) l) = n) by len.
    assert (Hb := in_at_bytes _ _ _ Hx).
    rewrite <- (take_drop (Z.to_nat n) l) in Hx.
    assert (Hi := in_inline _ _ _ Hx). rewrite Hlen in Hi. specialize (Hi Hm).
    destruct (xdr_inline_decode x n) as [[a|] x'].
    + destruct Hi as [Hld Hx']. exists (take (Z.to_nat n) l), (drop (Z.to_nat n) l).
      rewrite take_drop. split_and!; auto using Forall_take.
    + subst x'. by rewrite take_drop in Hx.
Qed.

(** A stream accessor of a 32-bit word read through [conv]. *)
Definition word_get (get : XDR P → out (option Z * XDR P)) (conv : Z → Z) : Prop :=
  (∀ x v tl, in_at x 0 (be32 v ++ tl) → is_u 32 v →
     ∃ x', get x = Ret (Some (conv v), x') ∧ in_at x' 0 tl) ∧
  (∀ x l, in_at x 0 l → Zlen l < 4 → ∃ x', get x = Ret (None, x')).

Lemma word_get_uint32 : word_get xdr_getuint32 id.
Proof.
  split; [|apply in_getuint32_short]. intros x v tl Hx Hv.
  destruct (in_getuint32 _ _ _ Hx) as (x' & E & ?). rewrite wrapu_id in E by done. eauto.
Qed.

Lemma word_get_enum : word_get xdr_getenum s32.
Proof. split; [|apply in_getint32_short]. intros x v tl Hx Hv. by apply in_getint32. Qed.

Lemma next_word_ok get conv x buf n v tl :
  word_get get conv → src_at x buf n (be32 v ++ tl) → 4 ≤ n → is_u 32 v →
  ∃ x' buf', next_word get conv x buf = Ret (Some (conv v), x', buf') ∧
             src_at x' buf' (n - 4) tl.
Proof.
  intros [Hg _] Hx Hn Hv. destruct buf as [a|]; simpl.
  - destruct Hx as (ws & tl' & E & Hl & Hld & Hb & Hx).
    destruct (app_eq_inv _ _ _ _ E) as [(k & Ek & Ek')|(k & Ek & Ek')].
    + assert (k = []) as -> by (apply nil_length_inv; apply (f_equal length) in Ek; len).
      rewrite app_nil_r in Ek. subst ws tl'. simpl.
      exists x, (Some (a + 4)). unfold IXDR_GET_U_INT32, ixdr_get.
      change (length (be32 v)) with 4%nat in Hld.
      rewrite Hld. simpl. rewrite be_dec_be32, wrapu_id by done. split; [done|].
      exists [], tl. split_and!; try done. len.
    + subst ws tl. apply load_app_inv in Hld as [H1 H2]; [|len].
      change (length (be32 v)) with 4%nat in *.
      exists x, (Some (a + 4)). unfold IXDR_GET_U_INT32, ixdr_get. rewrite H1. simpl.
      rewrite be_dec_be32, wrapu_id by done. split; [done|].
      exists k, tl'. apply bytes_app in Hb as [_ Hb]. split_and!; try done. len.
  - destruct (Hg x v tl Hx Hv) as (x' & -> & Hx'). simpl. eauto.
Qed.

Lemma next_word_any get conv x buf n l :
  word_get get conv → src_at x buf n l → 4 ≤ n →
  (∃ v tl x' buf', l = be32 v ++ tl ∧ is_u 32 v ∧
     next_word get conv x buf = Ret (Some (conv v), x', buf') ∧ src_at x' buf' (n - 4) tl) ∨
  (∃ x', next_word get conv x buf = Ret (None, x', None)).
Proof.
  intros Hg Hx Hn.
  assert (Hw : Zlen l < 4 ∨ ∃ v tl, l = be32 v ++ tl ∧ is_u 32 v).
  { destruct buf as [a|]; [|by apply in_at_unit with x].
    destruct Hx as (ws & tl' & -> & Hl & Hld & Hb & Hx). right.
    exists (be_dec (take 4 ws)), (drop 4 ws ++ tl').
    rewrite be32_be_dec by (auto using Forall_take; len). rewrite app_assoc, take_drop.
    split; [done|]. apply be_dec_range; [len|by apply Forall_take]. }
  destruct Hw as [Hw|(v & tl & -> & Hv)].
  - right. destruct buf as [a|]; [destruct Hx as (ws & tl' & -> & Hl & _); len|].
    destruct (proj2 Hg x l Hx Hw) as (x' & E). exists x'. simpl. by rewrite E.
  - left. destruct (next_word_ok get conv x buf n v tl) as (x' & buf' & ? & ?); eauto 10.
Qed.

(** ** Credentials and verifiers *)

(** A target whose body is the full array. *)
Definition auth_ok (oa : opaque_auth) : Prop := Zlen (oa_body oa) = MAX_AUTH_BYTES.

(** [oa] is what reading [w] leaves in [oa0]. *)
Definition auth_got (oa0 oa : opaque_auth) (w : list Z) : Prop :=
  ∃ flavor bs wb, is_u 32 flavor ∧ bytes bs ∧ Zlen bs ≤ MAX_AUTH_BYTES ∧ padded bs wb ∧
    w = be32 flavor ++ be32 (Zlen bs) ++ wb ∧
    oa = mk_auth (s32 flavor) (Zlen bs) (bs ++ drop (length bs) (oa_body oa0)).

Lemma auth_got_ok oa0 oa w : auth_got oa0 oa w → auth_ok oa0 → auth_ok oa.
Proof.
  unfold auth_ok, auth_got, MAX_AUTH_BYTES. intros (fl & bs & wb & _ & _ & Hl & _ & _ & ->) ?. simpl. len.
Qed.

Lemma auth_decodes oa0 oa w x buf tl :
  auth_ok oa0 → auth_got oa0 oa w → src_at x buf 8 (w ++ tl) →
  ∃ x', xdr_opaque_auth_decode x oa0 buf = Ret (true, oa, x') ∧ in_at x' 0 tl.
Proof.
  unfold auth_ok, auth_got, MAX_AUTH_BYTES.
  intros H0 (fl & bs & wb & Hfl & Hb & Hl & (pad & -> & Hp) & -> & ->) Hx.
  unfold xdr_opaque_auth_decode. rewrite <- !app_assoc in Hx.
  destruct (next_word_ok _ _ _ _ _ _ _ word_get_enum Hx) as (x1 & buf1 & -> & Hx1); [lia|done|].
  simpl. destruct (next_word_ok _ _ _ _ _ _ _ word_get_uint32 Hx1) as (x2 & buf2 & -> & Hx2);
    [lia|unfold is_u, MAX_AUTH_BYTES in *; lia|].
  apply src_done in Hx2. unfold id, set_length, set_flavor. simpl.
  destruct (Z.eqb_spec (Zlen bs) 0) as [E|E].
  - destruct bs; [|len]. destruct pad; [|unfold padn in Hp; len]. simpl. eauto.
  - unfold xdr_opaque_auth_decode_it, MAX_AUTH_BYTES; simpl.
    rewrite (proj2 (Z.ltb_ge _ _)) by lia.
    destruct (opaque_decode_ok x2 (oa_body oa0) bs pad tl Hx2 Hp) as (x3 & -> & ?); [lia|].
    simpl. eauto.
Qed.

Lemma auth_decoded oa0 x buf l :
  auth_ok oa0 → src_at x buf 8 l →
  (∃ oa w tl x', l = w ++ tl ∧ auth_got oa0 oa w ∧
     xdr_opaque_auth_decode x oa0 buf = Ret (true, oa, x') ∧ in_at x' 0 tl) ∨
  (∃ oa x', xdr_opaque_auth_decode x oa0 buf = Ret (false, oa, x') ∧ auth_ok oa).
Proof.
  unfold auth_ok, MAX_AUTH_BYTES. intros H0 Hx. unfold xdr_opaque_auth_decode.
  destruct (next_word_any _ _ _ _ _ _ word_get_enum Hx)
    as [(fl & tl1 & x1 & buf1 & -> & Hfl & -> & Hx1)|(x1 & ->)]; [lia| |by right; eauto].
  simpl. destruct (next_word_any _ _ _ _ _ _ word_get_uint32 Hx1)
    as [(n & tl2 & x2 & buf2 & -> & Hn & -> & Hx2)|(x2 & ->)]; [lia| |by right; eauto].
  apply src_done in Hx2. unfold id, set_length, set_flavor. simpl. unfold is_u in Hn.
  destruct (Z.eqb_spec n 0) as [->|E].
  - left. eexists _, (be32 fl ++ be32 0), tl2, x2. rewrite <- app_assoc. split_and!; try done.
    exists fl, [], []. rewrite app_nil_r. split_and!; try done. by exists [].
  - unfold xdr_opaque_auth_decode_it, MAX_AUTH_BYTES; simpl.
    destruct (Z.ltb_spec 400 n); [right; eauto|].
    destruct (opaque_decode_any x2 (oa_body oa0) n tl2 Hx2)
      as [(bs&pad&tl&x3&->&<-&Hp&Hb&->&?)|(cp&?&->&Hcp)]; [lia| |right; simpl; eexists _, _; split; [done|]; simpl; lia].
    left. simpl. eexists _, (be32 fl ++ be32 (Zlen bs) ++ bs ++ pad), tl, x3.
    rewrite <- !app_assoc. split_and!; try done.
    exists fl, bs, (bs ++ pad). split_and!; try done. by exists pad.
Qed.
End Source.

(** Reading the next word of a message whose bytes are known ([word_ok]) or not
    ([word_any]); [H] is the [src_at] fact. *)
Ltac word_step G H :=
  let x := fresh "x" in let buf := fresh "buf" in let H' := fresh "Hs" in
  destruct (next_word_ok _ _ _ _ _ _ _ G H) as (x & buf & -> & H');
  [lia|first [done|by vm_compute]|clear H; rename H' into H; cbn [obind id]].
Ltac word_ok H := first [word_step uconstr:(word_get_enum) H | word_step uconstr:(word_get_uint32) H].

Ltac word_cases G H :=
  let v := fresh "v" in let tl := fresh "tl" in let x := fresh "x" in let buf := fresh "buf" in
  let H' := fresh "Hs" in let Hv := fresh "Hv" in
  destruct (next_word_any _ _ _ _ _ _ G H)
    as [(v & tl & x & buf & -> & Hv & -> & H')|(x & ->)];
  [lia|clear H; rename H' into H; cbn [obind id]|right; cbn [obind]; by eauto].
Ltac word_any H := first [word_cases uconstr:(word_get_enum) H | word_cases uconstr:(word_get_uint32) H].

(** ** What the decoders accept *)

(** Comparing an enumeration read from the wire with a small constant. *)
Lemma s32_eqb u k : is_u 32 u → 0 ≤ k < 2 ^ 31 → (s32 u =? k) = (u =? k).
Proof.
  unfold is_u, wraps. intros Hu Hk. rewrite Z.mod_small by done.
  destruct (Z.ltb_spec u (2 ^ (32 - 1))); [done|]. rewrite !(proj2 (Z.eqb_neq _ _)); lia.
Qed.

Section Messages.
Context {P : Type} {O : XdrOps P} {I : XdrInput P} {R : Type}.
Implicit Types m : rpc_msg R.
Implicit Types ar : accepted_reply R.

(** The call header after xid and direction. *)
Inductive call_got (m0 : rpc_msg R) : rpc_msg R → list Z → Prop :=
| call_got_intro prog vers proc cred verf wc wv :
    is_u 32 prog → is_u 32 vers → is_u 32 proc →
    auth_got (cb_cred m0) cred wc → auth_got (cb_verf m0) verf wv →
    call_got m0
      (set_verf verf (set_cred cred (set_proc proc (set_vers vers (set_prog prog
        (set_rpcvers RPC_MSG_VERSION m0))))))
      (be32 RPC_MSG_VERSION ++ be32 prog ++ be32 vers ++ be32 proc ++ wc ++ wv).

Inductive accepted_got (ar0 : accepted_reply R) : accepted_reply R → list Z → Prop :=
| accepted_mismatch verf wv lo hi :
    auth_got (ar_verf ar0) verf wv → is_u 32 lo → is_u 32 hi →
    accepted_got ar0
      (set_ar_vers (mk_versions lo hi) (set_ar_stat PROG_MISMATCH (set_ar_verf verf ar0)))
      (wv ++ be32 PROG_MISMATCH ++ be32 lo ++ be32 hi)
| accepted_other verf wv stat :
    auth_got (ar_verf ar0) verf wv → is_u 32 stat → stat ≠ PROG_MISMATCH →
    accepted_got ar0 (set_ar_stat (s32 stat) (set_ar_verf verf ar0)) (wv ++ be32 stat).

(** A reject status that is neither of the two defined ones is accepted as well;
    [skip] is the word the window already took. *)
Inductive rejected_got (rr0 : rejected_reply) : rejected_reply → list Z → list Z → Prop :=
| rejected_mismatch lo hi :
    is_u 32 lo → is_u 32 hi →
    rejected_got rr0 (set_rj_vers (mk_versions lo hi) (set_rj_stat RPC_MISMATCH rr0))
      (be32 RPC_MISMATCH ++ be32 lo ++ be32 hi) []
| rejected_auth why :
    is_u 32 why →
    rejected_got rr0 (set_rj_why (s32 why) (set_rj_stat AUTH_ERROR rr0))
      (be32 AUTH_ERROR ++ be32 why) []
| rejected_unknown stat skip :
    is_u 32 stat → stat ≠ RPC_MISMATCH → stat ≠ AUTH_ERROR → Zlen skip = 0 ∨ Zlen skip = 4 →
    rejected_got rr0 (set_rj_stat (s32 stat) rr0) (be32 stat) skip.

Inductive reply_got (m0 : rpc_msg R) : rpc_msg R → list Z → list Z → Prop :=
| reply_accepted ar w :
    accepted_got (RPCM_ack m0) ar w →
    reply_got m0 (set_ack ar (set_reply_stat MSG_ACCEPTED m0)) (be32 MSG_ACCEPTED ++ w) []
| reply_denied rr w skip :
    rejected_got (RPCM_rej m0) rr w skip →
    reply_got m0 (set_rej rr (set_reply_stat MSG_DENIED m0)) (be32 MSG_DENIED ++ w) skip.

Inductive msg_got (m0 : rpc_msg R) : rpc_msg R → list Z → list Z → Prop :=
| msg_call xid m w :
    is_u 32 xid → call_got (set_direction CALL (set_xid xid m0)) m w →
    msg_got m0 m (be32 xid ++ be32 CALL ++ w) []
| msg_reply xid m w skip :
    is_u 32 xid → reply_got (set_direction REPLY (set_xid xid m0)) m w skip →
    msg_got m0 m (be32 xid ++ be32 REPLY ++ w) skip.

(** A message whose credential and verifier bodies are full arrays. *)
Definition msg_ok m : Prop :=
  auth_ok (cb_cred m) ∧ auth_ok (cb_verf m) ∧ auth_ok (ar_verf (RPCM_ack m)).

Lemma call_decodes m0 m w x buf tl :
  msg_ok m0 → call_got m0 m w → src_at x buf 12 (w ++ tl) →
  ∃ x', xdr_call_decode x m0 buf = Ret (true, m, x') ∧ in_at x' 0 tl.
Proof.
  intros (Hc & Hv & _) [prog vers proc cred verf wc wv Hp Hvs Hpr Hcr Hvr] Hx.
  rewrite <- !app_assoc in Hx. unfold xdr_call_decode.
  word_ok Hx. rewrite Z.eqb_refl. cbn [negb]. word_ok Hx. word_ok Hx. apply src_done in Hx.
  assert (Hi := inline_src _ _ (3 * BYTES_PER_XDR_UNIT) Hx). unfold BYTES_PER_XDR_UNIT in *.
  destruct (xdr_inline_decode _ _) as [buf' x']. specialize (Hi ltac:(lia) ltac:(done)).
  word_ok Hi.
  edestruct (auth_decodes (cb_cred m0)) as (x4 & E4 & Hx4); [done|exact Hcr|exact Hi|].
  unfold set_proc, set_vers, set_prog, set_rpcvers in *. cbn in E4 |- *. rewrite E4. cbn.
  destruct (auth_decodes (cb_verf m0) verf wv x4 None tl Hv Hvr Hx4) as (x5 & -> & ?). cbn. eauto.
Qed.

Lemma call_decoded m0 x buf l :
  msg_ok m0 → src_at x buf 12 l →
  (∃ m w tl x', l = w ++ tl ∧ call_got m0 m w ∧
     xdr_call_decode x m0 buf = Ret (true, m, x') ∧ in_at x' 0 tl) ∨
  (∃ m x', xdr_call_decode x m0 buf = Ret (false, m, x')).
Proof.
  intros (Hc & Hv & _) Hx. unfold xdr_call_decode. word_any Hx.
  destruct (Z.eqb_spec v RPC_MSG_VERSION) as [->|]; cbn [negb]; [|by right; eauto].
  word_any Hx. word_any Hx. apply src_done in Hx.
  assert (Hi := inline_src _ _ (3 * BYTES_PER_XDR_UNIT) Hx). unfold BYTES_PER_XDR_UNIT in *.
  destruct (xdr_inline_decode _ _) as [buf' x']. specialize (Hi ltac:(lia) ltac:(done)).
  word_any Hi. unfold set_proc, set_vers, set_prog, set_rpcvers in *. cbn [cb_cred cb_verf].
  destruct (auth_decoded (cb_cred m0) _ _ _ Hc Hi)
    as [(cred & wc & tl' & x4 & -> & Hcr & -> & Hx4)|(? & ? & -> & _)]; [|right; cbn; eauto].
  cbn [obind negb cb_verf set_cred].
  destruct (auth_decoded (cb_verf m0) x4 None _ Hv Hx4)
    as [(verf & wv & tl & x5 & -> & Hvr & -> & Hx5)|(? & ? & -> & _)]; [|right; cbn; eauto].
  left. cbn [obind]. eexists _, _, tl, x5. split_and!; [| |done|done]; cycle 1.
  - by econstructor.
  - by rewrite <- !app_assoc.
Qed.

Lemma accepted_decodes ar0 ar w x buf tl :
  auth_ok (ar_verf ar0) → accepted_got ar0 ar w → src_at x buf 8 (w ++ tl) →
  ∃ x', decode_accepted x ar0 buf = Ret (true, ar, x') ∧ in_at x' 0 tl.
Proof.
  intros Hv Hg Hx. unfold decode_accepted.
  destruct Hg as [verf wv lo hi Ha Hlo Hhi|verf wv stat Ha Hst Hne]; rewrite <- !app_assoc in Hx;
    destruct (auth_decodes _ _ _ _ _ _ Hv Ha Hx) as (x1 & -> & Hx1); cbn [obind negb].
  - destruct (in_getint32 _ _ _ Hx1) as (x2 & E2 & Hx2). unfold xdr_getenum. rewrite E2. cbn.
    destruct (in_getuint32 _ _ _ Hx2) as (x3 & -> & Hx3). cbn.
    destruct (in_getuint32 _ _ _ Hx3) as (x4 & -> & Hx4). cbn. rewrite !wrapu_id by done. eauto.
  - destruct (in_getint32 _ _ _ Hx1) as (x2 & E2 & Hx2). unfold xdr_getenum. rewrite E2. cbn.
    rewrite s32_eqb by (done || by vm_compute). rewrite (proj2 (Z.eqb_neq _ _)) by done. eauto.
Qed.

Lemma accepted_decoded ar0 x buf l :
  auth_ok (ar_verf ar0) → src_at x buf 8 l →
  (∃ ar w tl x', l = w ++ tl ∧ accepted_got ar0 ar w ∧
     decode_accepted x ar0 buf = Ret (true, ar, x') ∧ in_at x' 0 tl) ∨
  (∃ ar x', decode_accepted x ar0 buf = Ret (false, ar, x')).
Proof.
  intros Hv Hx. unfold decode_accepted.
  destruct (auth_decoded _ _ _ _ Hv Hx)
    as [(verf & wv & l1 & x1 & -> & Ha & -> & Hx1)|(? & ? & -> & _)]; [|right; cbn; eauto].
  cbn [obind negb].
  destruct (in_at_unit _ _ Hx1) as [Hl|(st & l2 & -> & Hst)].
  { destruct (in_getint32_short _ _ Hx1 Hl) as (x2 & E). unfold xdr_getenum. rewrite E.
    right. cbn. eauto. }
  destruct (in_getint32 _ _ _ Hx1) as (x2 & E2 & Hx2). unfold xdr_getenum. rewrite E2. cbn [obind].
  rewrite s32_eqb by (done || by vm_compute).
  destruct (Z.eqb_spec st PROG_MISMATCH) as [->|Hne].
  - destruct (in_get_unit _ _ Hx2) as [(x3 & _ & ->)|(lo & l3 & x3 & -> & Hlo & -> & Hx3)];
      [right; cbn; eauto|]. cbn [obind].
    destruct (in_get_unit _ _ Hx3) as [(x4 & _ & ->)|(hi & l4 & x4 & -> & Hhi & -> & Hx4)];
      [right; cbn; eauto|]. cbn [obind].
    left. eexists _, (wv ++ be32 PROG_MISMATCH ++ be32 lo ++ be32 hi), l4, x4.
    split_and!; [by rewrite <- !app_assoc| |done|done]. by constructor.
  - left. eexists _, (wv ++ be32 st), l2, x2. split_and!; [by rewrite <- app_assoc| |done|done].
    by constructor.
Qed.

Lemma rejected_decodes rr0 rr w x buf tl :
  rejected_got rr0 rr w [] → rj_stat rr = RPC_MISMATCH ∨ rj_stat rr = AUTH_ERROR →
  src_at x buf 8 (w ++ tl) →
  ∃ x', decode_rejected x rr0 buf = Ret (true, rr, x') ∧ in_at x' 0 tl.
Proof.
  intros Hg Hk Hx. unfold decode_rejected. inversion Hg; subst; clear Hg; rewrite <- ?app_assoc in Hx.
  - word_ok Hx. change (s32 RPC_MISMATCH =? RPC_MISMATCH) with true. word_ok Hx.
    apply src_done in Hx. destruct (in_getuint32 _ _ _ Hx) as (x3 & -> & Hx3).
    cbn [obind]. rewrite !wrapu_id by done. eauto.
  - word_ok Hx. change (s32 AUTH_ERROR =? RPC_MISMATCH) with false.
    change (s32 AUTH_ERROR =? AUTH_ERROR) with true. word_ok Hx. apply src_done in Hx. eauto.
  - exfalso. cbn in Hk. assert (E0 := s32_eqb stat 0). assert (E1 := s32_eqb stat 1).
    unfold RPC_MISMATCH, AUTH_ERROR in *.
    rewrite (proj2 (Z.eqb_neq stat _)) in E0 by done. rewrite (proj2 (Z.eqb_neq stat _)) in E1 by done.
    destruct Hk as [Hk|Hk]; rewrite Hk in *; [discriminate E0|discriminate E1]; done || lia.
Qed.

Lemma rejected_decoded rr0 x buf l :
  src_at x buf 8 l →
  (∃ rr w skip tl x', l = w ++ skip ++ tl ∧ rejected_got rr0 rr w skip ∧
     decode_rejected x rr0 buf = Ret (true, rr, x') ∧ in_at x' 0 tl) ∨
  (∃ rr x', decode_rejected x rr0 buf = Ret (false, rr, x')).
Proof.
  intros Hx. unfold decode_rejected. word_any Hx. rewrite !s32_eqb by (done || by vm_compute).
  destruct (Z.eqb_spec v RPC_MISMATCH) as [->|Hn0].
  - word_any Hx. apply src_done in Hx.
    destruct (in_get_unit _ _ Hx) as [(x3 & _ & ->)|(hi & l3 & x3 & -> & Hhi & -> & Hx3)];
      [right; cbn; eauto|]. cbn [obind].
    left. eexists _, (be32 RPC_MISMATCH ++ be32 v ++ be32 hi), [], l3, x3.
    split_and!; [by rewrite <- !app_assoc| |done|done]. by constructor.
  - destruct (Z.eqb_spec v AUTH_ERROR) as [->|Hn1].
    + word_any Hx. apply src_done in Hx. left.
      eexists _, (be32 AUTH_ERROR ++ be32 v), [], _, _.
      split_and!; [by rewrite <- !app_assoc| |done|done]. by constructor.
    + apply src_skip in Hx as (skip & tl' & -> & Hs & Hx). left.
      eexists _, (be32 v), skip, tl', _. split_and!; [done| |done|done].
      by constructor.
Qed.

Lemma reply_decodes m0 m w x buf tl :
  msg_ok m0 → reply_got m0 m w [] →
  (rp_stat (rm_reply m) = MSG_DENIED →
     rj_stat (RPCM_rej m) = RPC_MISMATCH ∨ rj_stat (RPCM_rej m) = AUTH_ERROR) →
  src_at x buf 12 (w ++ tl) →
  ∃ x', xdr_reply_decode x m0 buf = Ret (true, m, x') ∧ in_at x' 0 tl.
Proof.
  intros (_ & _ & Hv) Hg Hk Hx. unfold xdr_reply_decode.
  inversion Hg as [ar w' Ha|rr w' skip Hr]; subst; clear Hg; rewrite <- app_assoc in Hx; word_ok Hx.
  - change (s32 MSG_ACCEPTED) with MSG_ACCEPTED. rewrite Z.eqb_refl.
    destruct (accepted_decodes _ _ _ _ _ _ Hv Ha Hx) as (x2 & E & Hx2).
    exists x2. split; [|done]. unfold RPCM_ack in *. cbn [rm_reply set_reply rp_acpt set_rp_stat
      set_reply_stat]. by rewrite E.
  - change (s32 MSG_DENIED) with MSG_DENIED. change (MSG_DENIED =? MSG_ACCEPTED) with false.
    rewrite Z.eqb_refl.
    destruct (rejected_decodes _ _ _ _ _ _ Hr (Hk eq_refl) Hx) as (x2 & E & Hx2).
    exists x2. split; [|done]. unfold RPCM_rej in *. cbn [rm_reply set_reply rp_rjct set_rp_stat
      set_reply_stat]. by rewrite E.
Qed.

Lemma reply_decoded m0 x buf l :
  msg_ok m0 → src_at x buf 12 l →
  (∃ m w skip tl x', l = w ++ skip ++ tl ∧ reply_got m0 m w skip ∧
     xdr_reply_decode x m0 buf = Ret (true, m, x') ∧ in_at x' 0 tl) ∨
  (∃ m x', xdr_reply_decode x m0 buf = Ret (false, m, x')).
Proof.
  intros (_ & _ & Hv) Hx. unfold xdr_reply_decode. word_any Hx.
  rewrite !s32_eqb by (done || by vm_compute).
  destruct (Z.eqb_spec v MSG_ACCEPTED) as [->|Hn0].
  - change (s32 MSG_ACCEPTED) with MSG_ACCEPTED.
    destruct (accepted_decoded (RPCM_ack (set_reply_stat MSG_ACCEPTED m0)) _ _ _ Hv Hx)
      as [(ar & w & tl' & x2 & -> & Ha & -> & Hx2)|(? & ? & ->)]; [|right; cbn; eauto].
    left. eexists _, (be32 MSG_ACCEPTED ++ w), [], tl', x2.
    split_and!; [by rewrite <- app_assoc|by constructor|done|done].
  - destruct (Z.eqb_spec v MSG_DENIED) as [->|Hn1]; [|right; eauto].
    change (s32 MSG_DENIED) with MSG_DENIED.
    destruct (rejected_decoded (RPCM_rej (set_reply_stat MSG_DENIED m0)) _ _ _ Hx)
      as [(rr & w & skip & tl' & x2 & -> & Ha & -> & Hx2)|(? & ? & ->)]; [|right; cbn; eauto].
    left. eexists _, (be32 MSG_DENIED ++ w), skip, tl', x2.
    split_and!; [by rewrite <- app_assoc|by constructor|done|done].
Qed.

(** The reject status, when there is one, is one of the two defined ones. *)
Definition msg_defined m : Prop :=
  rm_direction m = REPLY → rp_stat (rm_reply m) = MSG_DENIED →
  rj_stat (RPCM_rej m) = RPC_MISMATCH ∨ rj_stat (RPCM_rej m) = AUTH_ERROR.

Lemma msg_decodes m0 m w :
  msg_ok m0 → msg_got m0 m w [] → msg_defined m → decodes xdr_dplx_decode m0 w m.
Proof.
  intros Hok Hg Hd x tl Hx. unfold xdr_dplx_decode.
  assert (Hi := inline_src _ _ (5 * BYTES_PER_XDR_UNIT) Hx).
  destruct (xdr_inline_decode _ _) as [buf' x']. specialize (Hi ltac:(done) ltac:(done)).
  unfold BYTES_PER_XDR_UNIT in *.
  inversion Hg as [xid m' w' Hxid Hc|xid m' w' skip Hxid Hr]; subst; clear Hg;
    rewrite <- !app_assoc in Hi; word_ok Hi; word_ok Hi.
  - change (s32 CALL) with CALL. rewrite Z.eqb_refl. by eapply call_decodes.
  - change (s32 REPLY) with REPLY. change (REPLY =? CALL) with false. rewrite Z.eqb_refl.
    eapply reply_decodes; [done|done| |done]. apply Hd. by inversion Hr.
Qed.

Lemma msg_decoded m0 x l :
  msg_ok m0 → in_at x 0 l →
  (∃ m w skip tl x', l = w ++ skip ++ tl ∧ msg_got m0 m w skip ∧
     xdr_dplx_decode x m0 = Ret (true, m, x') ∧ in_at x' 0 tl) ∨
  (∃ m x', xdr_dplx_decode x m0 = Ret (false, m, x')).
Proof.
  intros Hok Hx. unfold xdr_dplx_decode.
  assert (Hi := inline_src _ _ (5 * BYTES_PER_XDR_UNIT) Hx).
  destruct (xdr_inline_decode _ _) as [buf' x']. specialize (Hi ltac:(done) ltac:(done)).
  unfold BYTES_PER_XDR_UNIT in *. word_any Hi. word_any Hi.
  rewrite !s32_eqb by (done || by vm_compute).
  destruct (Z.eqb_spec v0 CALL) as [->|Hn0].
  - change (s32 CALL) with CALL.
    destruct (call_decoded (set_direction CALL (set_xid v m0)) _ _ _ Hok Hi)
      as [(m & w & tl' & x2 & -> & Hc & -> & Hx2)|(? & ? & ->)]; [|right; eauto].
    left. eexists _, (be32 v ++ be32 CALL ++ w), [], tl', x2.
    split_and!; [by rewrite <- !app_assoc|by constructor|done|done].
  - destruct (Z.eqb_spec v0 REPLY) as [->|Hn1]; [|right; eauto].
    change (s32 REPLY) with REPLY.
    destruct (reply_decoded (set_direction REPLY (set_xid v m0)) _ _ _ Hok Hi)
      as [(m & w & skip & tl' & x2 & -> & Hc & -> & Hx2)|(? & ? & ->)]; [|right; eauto].
    left. eexists _, (be32 v ++ be32 REPLY ++ w), skip, tl', x2.
    split_and!; [by rewrite <- !app_assoc|by constructor|done|done].
Qed.
End Messages.

(** ** Writing a window *)

Section Window.
Context {P : Type} {O : XdrOps P} {W : XdrOutput P}.

(** [x] is [x0] with the bytes [bs] written at the start of the window of [n] bytes
    at [a], and [buf] points past them. *)
Definition window (x0 : XDR P) (a n : Z) (x : XDR P) (buf : Z) (bs : list Z) : Prop :=
  buf = a + Zlen bs ∧ allocd (x_mem x0) a n ∧
  ∃ h, x = set_mem h x0 ∧ same_outside (x_mem x0) h a n ∧ load h a (length bs) = Some bs.

Lemma window_start x a n : allocd (x_mem x) a n → window x a n x a [].
Proof.
  intros Ha. split; [simpl; lia|]. split; [done|]. exists (x_mem x). by destruct x.
Qed.

Lemma window_store x0 a n x buf bs l :
  window x0 a n x buf bs → Zlen bs + Zlen l ≤ n →
  ∃ h', store (x_mem x) buf l = Some h' ∧
        window x0 a n (set_mem h' x) (buf + Zlen l) (bs ++ l).
Proof.
  intros (-> & Ha & h & -> & Hs & Hl) Hn. simpl.
  destruct (store_allocd h (a + Zlen bs) l) as (h' & Hh').
  { eapply allocd_sub; [by eapply allocd_dom; [apply Hs|]|lia|lia]. }
  exists h'. split; [done|]. split; [rewrite Zlen_app; lia|]. split; [done|].
  exists h'. split; [done|]. split.
  - eapply same_outside_trans; [done|]. eapply same_outside_mono; [by apply store_same_outside|lia|lia].
  - rewrite length_app. apply load_concat; [|by eapply load_store].
    rewrite (load_store_disj _ _ _ _ _ _ Hh'); [done|lia].
Qed.

Lemma window_skip x0 a n x buf bs k :
  window x0 a n x buf bs → 0 ≤ k → Zlen bs + k ≤ n →
  ∃ pad, Zlen pad = k ∧ window x0 a n x (buf + k) (bs ++ pad).
Proof.
  intros (-> & Ha & h & -> & Hs & Hl) Hk Hn.
  destruct (load_allocd h (a + Zlen bs) (Z.to_nat k)) as (pad & Hp).
  { eapply allocd_sub; [by eapply allocd_dom; [apply Hs|]|lia|lia]. }
  apply load_length in Hp as Hlen. exists pad. split; [lia|].
  split; [rewrite Zlen_app; lia|]. split; [done|]. exists h. split; [done|]. split; [done|].
  rewrite length_app. apply load_concat; [done|]. by rewrite Hlen.
Qed.

Lemma window_put x0 a n x buf bs v :
  window x0 a n x buf bs → Zlen bs + 4 ≤ n →
  ∃ x' buf', IXDR_PUT_INT32 x buf v = Ret (x', buf') ∧ window x0 a n x' buf' (bs ++ be32 v).
Proof.
  intros Hw Hn. destruct (window_store _ _ _ _ _ _ (be32 v) Hw) as (h' & Hh & Hw'); [done|].
  unfold IXDR_PUT_INT32, ixdr_put. rewrite be32_u32, Hh. simpl. eauto.
Qed.

Lemma window_put_enum x0 a n x buf bs v :
  window x0 a n x buf bs → Zlen bs + 4 ≤ n →
  ∃ x' buf', IXDR_PUT_ENUM x buf v = Ret (x', buf') ∧ window x0 a n x' buf' (bs ++ be32 v).
Proof. apply window_put. Qed.

Lemma window_body x0 a n x buf bs oa :
  window x0 a n x buf bs → auth_ok oa → 0 ≤ oa_length oa ≤ MAX_AUTH_BYTES →
  Zlen bs + RNDUP (oa_length oa) ≤ n →
  ∃ x' buf' wb, ixdr_put_body x buf oa = Ret (x', buf') ∧
    padded (take (Z.to_nat (oa_length oa)) (oa_body oa)) wb ∧
    Zlen wb = RNDUP (oa_length oa) ∧ window x0 a n x' buf' (bs ++ wb).
Proof.
  unfold auth_ok, MAX_AUTH_BYTES. intros Hw Hok Hl Hn. unfold ixdr_put_body.
  rewrite RNDUP_spec in * by lia. destruct (Z.eqb_spec (oa_length oa) 0) as [->|Hne].
  - exists x, buf, []. rewrite app_nil_r. split_and!; try done. by exists [].
  - set (body := take (Z.to_nat (oa_length oa)) (oa_body oa)).
    assert (Hb : Zlen body = oa_length oa) by (unfold body; len).
    unfold read_bytes. rewrite (proj2 (Z.leb_le _ _)) by lia. cbn [obind]. fold body.
    destruct (window_store _ _ _ _ _ _ body Hw) as (h' & Hh & Hw'); [lia|].
    unfold ixdr_memcpy. rewrite Hh. cbn [access obind].
    destruct (window_skip _ _ _ _ _ _ (padn (oa_length oa)) Hw') as (pad & Hp & Hw2);
      [apply padn_range|unfold padn; len|].
    eexists _, _, (body ++ pad). split; [done|]. split; [exists pad; by rewrite Hb|].
    split; [rewrite Zlen_app; unfold padn in *; lia|].
    rewrite app_assoc. replace (buf + 4 * ((oa_length oa + 3) / 4)) with
      (buf + Zlen body + padn (oa_length oa)) by (unfold padn; lia). done.
Qed.

(** [enc] writes [n] bytes that satisfy [Q], or fails when there is no room. *)
Definition enc_rel (enc : XDR P → out (bool * XDR P)) (n : Z) (Q : list Z → Prop) : Prop :=
  ∀ x w c, out_at x w c →
    (fits n c → ∃ bs x', enc x = Ret (true, x') ∧ Q bs ∧ Zlen bs = n ∧
                         out_at x' (w ++ bs) (cap_sub c n)) ∧
    (¬ fits n c → ∃ x', enc x = Ret (false, x')).

Lemma enc_rel_puts enc bs (Q : list Z → Prop) : puts enc bs → Q bs → enc_rel enc (Zlen bs) Q.
Proof.
  intros Hp HQ x w c Hx. destruct (Hp _ _ _ Hx) as [H1 H2]. split; intros Hc; [|by apply H2].
  destruct (H1 Hc) as (x' & E & ?). eauto 10.
Qed.

(** A window of [n1] bytes written by [inl] and then [k], or the stream path. *)
Lemma enc_inline n n1 n2 inl k str (Q1 Q2 Q : list Z → Prop) :
  n = n1 + n2 → 0 ≤ n1 → 0 ≤ n2 →
  (∀ x0 a, allocd (x_mem x0) a n1 →
     ∃ x buf bs, inl x0 a = k x ∧ window x0 a n1 x buf bs ∧ Zlen bs = n1 ∧ Q1 bs) →
  enc_rel k n2 Q2 → enc_rel str n Q → (∀ b1 b2, Q1 b1 → Q2 b2 → Q (b1 ++ b2)) →
  enc_rel (λ x, let (buf, x) := xdr_inline_encode x n1 in
                match buf with Some a => inl x a | None => str x end) n Q.
Proof.
  intros -> Hn1 Hn2 Hinl Hk Hstr HQ x w c Hx. assert (Hi := out_inline x w c n1 Hx Hn1).
  destruct (xdr_inline_encode x n1) as [[a|] x0]; [|subst x0; by apply Hstr].
  destruct Hi as (Hf & Ha & Hout).
  destruct (Hinl x0 a Ha) as (x1 & buf & b1 & -> & (_ & _ & h & -> & Hs & Hl) & Hlen & HQ1).
  assert (Hx1 := Hout h b1 Hs). rewrite <- Hlen, Nat2Z.id in Hx1. specialize (Hx1 Hl).
  rewrite Hlen in Hx1. destruct (Hk _ _ _ Hx1) as [H1 H2]. split; intros Hc.
  - apply fits_cap_sub in Hc as [_ Hc2]; [|done].
    destruct (H1 Hc2) as (b2 & x2 & -> & HQ2 & Hlen2 & Hx2).
    exists (b1 ++ b2), x2. rewrite app_assoc, <- cap_sub_sub. split_and!; auto. len.
  - apply H2. contradict Hc. by apply fits_split.
Qed.

Lemma enc_rel_seq enc1 enc2 n1 n2 (Q1 Q2 Q : list Z → Prop) :
  0 ≤ n2 → enc_rel enc1 n1 Q1 → enc_rel enc2 n2 Q2 → (∀ b1 b2, Q1 b1 → Q2 b2 → Q (b1 ++ b2)) →
  enc_rel (λ x, let! (b, x) := enc1 x in if negb b then Ret (false, x) else enc2 x) (n1 + n2) Q.
Proof.
  intros Hn2 He1 He2 HQ x w c Hx. destruct (He1 _ _ _ Hx) as [H1 H2].
  destruct (decide (fits n1 c)) as [Hc1|Hc1].
  - destruct (H1 Hc1) as (b1 & x1 & -> & HQ1 & Hl1 & Hx1). cbn [obind negb].
    destruct (He2 _ _ _ Hx1) as [H3 H4]. split; intros Hc.
    + apply fits_cap_sub in Hc as [_ Hc2]; [|done].
      destruct (H3 Hc2) as (b2 & x2 & -> & HQ2 & Hl2 & Hx2).
      exists (b1 ++ b2), x2. rewrite app_assoc, <- cap_sub_sub. split_and!; auto. len.
    + apply H4. contradict Hc. by apply fits_split.
  - destruct (H2 Hc1) as (x1 & ->). cbn. split; [|eauto].
    intros Hc. destruct Hc1. eapply fits_le; [done|lia].
Qed.

Lemma enc_rel_done : enc_rel (λ x, Ret (true, x)) 0 (λ bs, bs = []).
Proof. by apply (enc_rel_puts _ []); [apply puts_done|]. Qed.
End Window.

(** [win H]: the next [IXDR_PUT_*] into the window [H]. *)
Ltac win H :=
  let x' := fresh "x" in let b' := fresh "buf" in let H' := fresh "Hw" in
  lazymatch type of H with
  | window _ _ _ ?x ?b _ =>
      match goal with
      | |- context [IXDR_PUT_INT32 x b ?v] =>
          destruct (window_put _ _ _ _ _ _ v H) as (x' & b' & -> & H')
      | |- context [IXDR_PUT_ENUM x b ?v] =>
          destruct (window_put_enum _ _ _ _ _ _ v H) as (x' & b' & -> & H')
      end
  end; [len|]; clear H; rename H' into H; cbn [obind].

(** ** What the encoders write *)

(** The bytes of a credential or verifier: flavor, length, body and padding. *)
Definition auth_bytes (oa : opaque_auth) (w : list Z) : Prop :=
  ∃ wb, padded (take (Z.to_nat (oa_length oa)) (oa_body oa)) wb ∧
        w = be32 (oa_flavor oa) ++ be32 (oa_length oa) ++ wb.

Definition call_bytes {R} (m : rpc_msg R) (w : list Z) : Prop :=
  ∃ wc wv, auth_bytes (cb_cred m) wc ∧ auth_bytes (cb_verf m) wv ∧
    w = be32 (rm_xid m) ++ be32 (rm_direction m) ++ be32 (cb_rpcvers m) ++ be32 (cb_prog m) ++
        be32 (cb_vers m) ++ be32 (cb_proc m) ++ wc ++ wv.

(** An encodable credential or verifier. *)
Definition auth_wf (oa : opaque_auth) : Prop :=
  auth_ok oa ∧ is_s 32 (oa_flavor oa) ∧ 0 ≤ oa_length oa ≤ MAX_AUTH_BYTES.

Definition auth_len (oa : opaque_auth) : Z := 8 + RNDUP (oa_length oa).
Definition call_len {R} (m : rpc_msg R) : Z :=
  24 + auth_len (cb_cred m) + auth_len (cb_verf m).

Section Encode.
Context {P : Type} {O : XdrOps P} {W : XdrOutput P} {R : Type}.
Implicit Types m : rpc_msg R.
Implicit Types oa : opaque_auth.

Definition auth_wire oa : list Z :=
  be32 (oa_flavor oa) ++ be32 (oa_length oa) ++
  pad_wire (take (Z.to_nat (oa_length oa)) (oa_body oa)).

Lemma auth_wire_bytes oa : auth_bytes oa (auth_wire oa).
Proof. eexists. split; [apply padded_pad_wire|done]. Qed.

Lemma auth_bytes_len oa w : auth_wf oa → auth_bytes oa w → Zlen w = auth_len oa.
Proof.
  intros (Hok & _ & Hl) (wb & (pad & -> & Hp) & ->). unfold auth_ok, MAX_AUTH_BYTES, auth_len in *.
  rewrite RNDUP_spec by lia. unfold padn in Hp. len.
Qed.

Lemma puts_auth oa : auth_wf oa → puts (λ x, xdr_opaque_auth_encode x oa) (auth_wire oa).
Proof.
  intros (Hok & _ & Hl). unfold auth_ok, MAX_AUTH_BYTES in *.
  unfold xdr_opaque_auth_encode, auth_wire.
  apply puts_check; [apply puts_enum|]. apply puts_check; [apply puts_uint32|].
  destruct (Z.eqb_spec (oa_length oa) 0) as [->|]; [apply puts_done|].
  unfold xdr_opaque_auth_encode_it, MAX_AUTH_BYTES. rewrite (proj2 (Z.ltb_ge _ _)) by lia.
  apply puts_opaque. lia.
Qed.

Definition call_wire m : list Z :=
  be32 (rm_xid m) ++ be32 (rm_direction m) ++ be32 (cb_rpcvers m) ++ be32 (cb_prog m) ++
  be32 (cb_vers m) ++ be32 (cb_proc m) ++ auth_wire (cb_cred m) ++ auth_wire (cb_verf m).

Lemma call_wire_bytes m : call_bytes m (call_wire m).
Proof. exists (auth_wire (cb_cred m)), (auth_wire (cb_verf m)). auto using auth_wire_bytes. Qed.

Lemma call_bytes_len m w :
  auth_wf (cb_cred m) → auth_wf (cb_verf m) → call_bytes m w → Zlen w = call_len m.
Proof.
  intros Hc Hv (wc & wv & Ha & Hb & ->). apply auth_bytes_len in Ha, Hb; try done.
  unfold call_len. len.
Qed.

(** The in-line branch of [xdr_call_encode]. *)
Lemma call_inline m (x0 : XDR P) a :
  auth_wf (cb_cred m) → auth_wf (cb_verf m) → cb_rpcvers m = RPC_MSG_VERSION →
  allocd (x_mem x0) a (call_len m) →
  ∃ x buf bs,
    (let! (xdrs, buf) := IXDR_PUT_INT32 x0 a (rm_xid m) in
     let! (xdrs, buf) := IXDR_PUT_ENUM xdrs buf (rm_direction m) in
     let! (xdrs, buf) := IXDR_PUT_INT32 xdrs buf (cb_rpcvers m) in
     if negb (cb_rpcvers m =? RPC_MSG_VERSION) then Ret (false, xdrs) else
     let! (xdrs, buf) := IXDR_PUT_INT32 xdrs buf (cb_prog m) in
     let! (xdrs, buf) := IXDR_PUT_INT32 xdrs buf (cb_vers m) in
     let! (xdrs, buf) := IXDR_PUT_INT32 xdrs buf (cb_proc m) in
     let! (xdrs, buf) := IXDR_PUT_ENUM xdrs buf (oa_flavor (cb_cred m)) in
     let! (xdrs, buf) := IXDR_PUT_INT32 xdrs buf (oa_length (cb_cred m)) in
     let! (xdrs, buf) := ixdr_put_body xdrs buf (cb_cred m) in
     let! (xdrs, buf) := IXDR_PUT_ENUM xdrs buf (oa_flavor (cb_verf m)) in
     let! (xdrs, buf) := IXDR_PUT_INT32 xdrs buf (oa_length (cb_verf m)) in
     let! (xdrs, buf) := ixdr_put_body xdrs buf (cb_verf m) in
     Ret (true, xdrs)) = Ret (true, x) ∧
    window x0 a (call_len m) x buf bs ∧ call_bytes m bs.
Proof.
  intros (Hcok & _ & Hcl) (Hvok & _ & Hvl) Hvers Ha. unfold call_len, auth_len in *.
  assert (0 ≤ RNDUP (oa_length (cb_cred m))) by (unfold MAX_AUTH_BYTES in *; rewrite RNDUP_spec; lia).
  assert (0 ≤ RNDUP (oa_length (cb_verf m))) by (unfold MAX_AUTH_BYTES in *; rewrite RNDUP_spec; lia).
  apply window_start in Ha. win Ha. win Ha. win Ha. rewrite (proj2 (Z.eqb_eq _ _) Hvers). cbn [negb].
  win Ha. win Ha. win Ha. win Ha. win Ha.
  destruct (window_body _ _ _ _ _ _ _ Ha Hcok Hcl) as (xc & bc & wc & -> & Hpc & Hlc & Hw); [len|].
  cbn [obind]. win Hw. win Hw.
  destruct (window_body _ _ _ _ _ _ _ Hw Hvok Hvl) as (xv & bv & wv & -> & Hpv & Hlv & Hw2); [len|].
  cbn [obind]. eexists _, _, _. split; [done|]. split; [exact Hw2|].
  eexists _, _. split; [by exists wc|]. split; [by exists wv|]. by rewrite <- !app_assoc.
Qed.

Lemma call_encode_spec m :
  auth_wf (cb_cred m) → auth_wf (cb_verf m) → cb_rpcvers m = RPC_MSG_VERSION →
  enc_rel (λ x, xdr_call_encode x m) (call_len m) (call_bytes m).
Proof.
  intros Hc Hv Hvers. assert (Hc' := Hc). assert (Hv' := Hv).
  destruct Hc' as (_ & _ & Hcl), Hv' as (_ & _ & Hvl).
  unfold xdr_call_encode. rewrite !(proj2 (Z.ltb_ge _ _)) by lia.
  assert (Hn : 8 * BYTES_PER_XDR_UNIT + RNDUP (oa_length (cb_cred m)) +
     2 * BYTES_PER_XDR_UNIT + RNDUP (oa_length (cb_verf m)) = call_len m)
    by (unfold call_len, auth_len, BYTES_PER_XDR_UNIT; lia).
  rewrite Hn.
  assert (Hlw := call_bytes_len _ _ Hc Hv (call_wire_bytes m)).
  eapply (enc_inline _ _ 0 _ _ _ (call_bytes m)); [lia|lia|done| |apply enc_rel_done| |].
  - intros x0 a Ha. destruct (call_inline m x0 a Hc Hv Hvers Ha) as (x & buf & bs & E & Hw & Hb).
    exists x, buf, bs. rewrite E. auto using call_bytes_len.
  - rewrite <- Hlw. apply enc_rel_puts; [|apply call_wire_bytes]. rewrite (proj2 (Z.eqb_eq _ _) Hvers).
    unfold call_wire. cbn [negb].
    repeat (apply puts_check; [first [apply puts_uint32|apply puts_enum|by apply puts_auth]|]).
    by apply puts_check_done, puts_auth.
  - intros b1 b2 Hb ->. by rewrite app_nil_r.
Qed.

(** Headers that [xdr_call_encode] refuses. *)
Lemma call_encode_refuses m (x : XDR P) w c :
  out_at x w c → auth_wf (cb_cred m) → auth_wf (cb_verf m) →
  cb_rpcvers m ≠ RPC_MSG_VERSION → ∃ x', xdr_call_encode x m = Ret (false, x').
Proof.
  intros Hx (Hcok & _ & Hcl) (Hvok & _ & Hvl) Hvers. apply Z.eqb_neq in Hvers.
  unfold xdr_call_encode. rewrite !(proj2 (Z.ltb_ge _ _)) by lia. rewrite Hvers. cbn [negb].
  set (n := _ + RNDUP (oa_length (cb_verf m))).
  assert (Hn : 12 ≤ n) by (unfold n, BYTES_PER_XDR_UNIT, MAX_AUTH_BYTES in *; rewrite !RNDUP_spec; lia).
  assert (Hi := out_inline x w c n Hx). destruct (xdr_inline_encode x n) as [[a|] x0].
  - destruct Hi as (_ & Ha & _); [lia|]. apply window_start in Ha.
    win Ha. win Ha. win Ha. eauto.
  - rewrite Hi by lia. clear Hi.
    destruct (puts_ret _ _ _ _ _ (puts_uint32 (rm_xid m)) Hx) as ([] & x1 & -> & Hx1); cbn; [|eauto].
    destruct (Hx1 eq_refl) as (w1 & c1 & Hx1').
    destruct (puts_ret _ _ _ _ _ (puts_enum (rm_direction m)) Hx1') as ([] & x2 & E2 & Hx2);
      unfold xdr_putenum, xdr_putint32 in *; rewrite E2; cbn; [|eauto].
    destruct (Hx2 eq_refl) as (w2 & c2 & Hx2').
    destruct (puts_ret _ _ _ _ _ (puts_uint32 (cb_rpcvers m)) Hx2') as ([] & x3 & -> & Hx3); cbn; eauto.
Qed.

(** *** Replies *)

Definition versions_wire (v : rpcversions) : list Z := be32 (low v) ++ be32 (high v).

(** What follows the accept status, and the reject status. *)
Definition accepted_tail (ar : accepted_reply R) : list Z :=
  if ar_stat ar =? PROG_MISMATCH then versions_wire (ar_vers ar) else [].
Definition rejected_tail (rr : rejected_reply) : list Z :=
  if rj_stat rr =? RPC_MISMATCH then versions_wire (rj_vers rr) else be32 (rj_why rr).

Definition reply_head m : list Z :=
  be32 (rm_xid m) ++ be32 (rm_direction m) ++ be32 (rp_stat (rm_reply m)).

Definition accepted_bytes m (w : list Z) : Prop :=
  ∃ wv, auth_bytes (ar_verf (RPCM_ack m)) wv ∧
        w = reply_head m ++ wv ++ be32 (ar_stat (RPCM_ack m)) ++ accepted_tail (RPCM_ack m).
Definition denied_wire m : list Z :=
  reply_head m ++ be32 (rj_stat (RPCM_rej m)) ++ rejected_tail (RPCM_rej m).

Lemma put_ar_vers_spec v : enc_rel (λ x, put_ar_vers x v) 8 (λ bs, bs = versions_wire v).
Proof.
  unfold put_ar_vers. change (2 * BYTES_PER_XDR_UNIT) with 8.
  eapply (enc_inline 8 8 0 _ _ _ (λ bs, bs = versions_wire v));
    [done|done|done| |apply enc_rel_done| |by intros b1 b2 -> ->; rewrite app_nil_r].
  - intros x0 a Ha. apply window_start in Ha. win Ha. win Ha. eauto 10.
  - apply (enc_rel_puts _ (versions_wire v)); [|done].
    apply puts_check; [apply puts_uint32|]. apply puts_check_done, puts_uint32.
Qed.

(** The words [ws], in-line when the window is free, through the stream otherwise. *)
Lemma window_words x0 a n ws : ∀ (x : XDR P) buf bs,
  window x0 a n x buf bs → Zlen bs + 4 * Zlen ws ≤ n →
  ∃ x' buf', ixdr_put_words x buf ws = Ret x' ∧ window x0 a n x' buf' (bs ++ words ws).
Proof.
  induction ws as [|v ws IH]; intros x buf bs Hw Hn.
  - exists x, buf. simpl. by rewrite app_nil_r.
  - rewrite length_cons in Hn. cbn [ixdr_put_words]. win Hw.
    destruct (IH _ _ _ Hw) as (x2 & b2 & E & Hw2); [len|].
    exists x2, b2. rewrite E, fmap_cons. cbn [concat]. by rewrite app_assoc.
Qed.

Lemma enc_words ws str : puts str (words ws) →
  enc_rel (λ x, let (buf, x) := xdr_inline_encode x (4 * Zlen ws) in
                match buf with
                | Some a => let! x := ixdr_put_words x a ws in Ret (true, x)
                | None => str x
                end) (4 * Zlen ws) (λ bs, bs = words ws).
Proof.
  intros Hs. eapply (enc_inline _ (4 * Zlen ws) 0 _ _ _ (λ bs, bs = words ws));
    [lia|lia|done| |apply enc_rel_done| |by intros b1 b2 -> ->; rewrite app_nil_r].
  - intros x0 a Ha. apply window_start in Ha.
    destruct (window_words _ _ _ ws _ _ _ Ha) as (x & buf & -> & Hw); [simpl; lia|].
    eexists _, _, _. split_and!; [done|exact Hw|apply words_length|done].
  - rewrite <- words_length. by apply enc_rel_puts.
Qed.

Context (ar_proc : xdrproc P R).

Lemma denied_encode_spec m :
  rp_stat (rm_reply m) = MSG_DENIED →
  rj_stat (RPCM_rej m) = RPC_MISMATCH ∨ rj_stat (RPCM_rej m) = AUTH_ERROR →
  enc_rel (λ x, xdr_reply_encode ar_proc x m) (Zlen (denied_wire m)) (λ bs, bs = denied_wire m).
Proof.
  intros Hst Hrj. unfold xdr_reply_encode. rewrite Hst. cbn [Z.eqb]. unfold xdr_reply_encode_denied.
  set (ws := [rm_xid m; rm_direction m; rp_stat (rm_reply m)]).
  assert (Hhead : reply_head m = words ws) by (unfold reply_head, ws; cbn [fmap list_fmap concat]; by rewrite app_nil_r).
  unfold denied_wire. rewrite Zlen_app, Hhead, words_length.
  eapply (enc_rel_seq _ _ _ _ (λ bs, bs = words ws)
    (λ bs, bs = be32 (rj_stat (RPCM_rej m)) ++ rejected_tail (RPCM_rej m)));
    [lia| | |by intros b1 b2 -> ->].
  - apply (enc_words ws). unfold ws. cbn [fmap list_fmap concat]. rewrite app_nil_r.
    apply puts_check; [apply puts_uint32|]. apply puts_check; [apply puts_enum|]. apply puts_enum.
  - set (rr := RPCM_rej m) in *. unfold rejected_tail.
    destruct Hrj as [Hrj|Hrj]; rewrite Hrj; cbn [Z.eqb].
    + assert (Hw := enc_words [RPC_MISMATCH; low (rj_vers rr); high (rj_vers rr)]
        (λ x, check! x := xdr_putenum x RPC_MISMATCH in
              check! x := xdr_putuint32 x (low (rj_vers rr)) in xdr_putuint32 x (high (rj_vers rr)))).
      cbn [fmap list_fmap concat] in Hw. rewrite app_nil_r in Hw. apply Hw.
      apply puts_check; [apply puts_enum|]. apply puts_check; apply puts_uint32.
    + assert (Hw := enc_words [AUTH_ERROR; rj_why rr]
        (λ x, check! x := xdr_putenum x AUTH_ERROR in xdr_putenum x (rj_why rr))).
      cbn [fmap list_fmap concat] in Hw. rewrite app_nil_r in Hw. apply Hw.
      apply puts_check; apply puts_enum.
Qed.

Definition accepted_wire m : list Z :=
  reply_head m ++ auth_wire (ar_verf (RPCM_ack m)) ++ be32 (ar_stat (RPCM_ack m)) ++
  accepted_tail (RPCM_ack m).
Definition accepted_len m : Z :=
  16 + auth_len (ar_verf (RPCM_ack m)) + Zlen (accepted_tail (RPCM_ack m)).

(** What is required of an accepted reply: its results, if it has any, are written
    by the caller after the header, so their procedure writes nothing here. *)
Definition accepted_wf m : Prop :=
  rp_stat (rm_reply m) = MSG_ACCEPTED ∧ auth_wf (ar_verf (RPCM_ack m)) ∧
  is_s 32 (ar_stat (RPCM_ack m)) ∧
  is_u 32 (low (ar_vers (RPCM_ack m))) ∧ is_u 32 (high (ar_vers (RPCM_ack m))) ∧
  (ar_stat (RPCM_ack m) = SUCCESS → encodes ar_proc (ar_results (RPCM_ack m)) []).

Lemma auth_encodes oa : auth_wf oa → encodes xdr_opaque_auth oa (auth_wire oa).
Proof.
  intros Ha. eapply encodes_ext; [|by eapply encodes_keep, puts_auth].
  intros x Hop. unfold xdr_opaque_auth. by rewrite Hop.
Qed.

Context {I : XdrInput P}.

Lemma versions_encodes v :
  is_u 32 (low v) → is_u 32 (high v) → encodes xdr_rpcversions v (versions_wire v).
Proof.
  intros Hl Hh. apply encodes_and; apply encodes_field; try (by destruct v);
    by apply (cd_encodes (f := xdr_uint32_t) (S := uint32_spec)).
Qed.

Lemma naccepted_encodes m : accepted_wf m →
  encodes (xdr_naccepted_reply ar_proc) (RPCM_ack m)
    (auth_wire (ar_verf (RPCM_ack m)) ++ be32 (ar_stat (RPCM_ack m)) ++ accepted_tail (RPCM_ack m)).
Proof.
  intros (Hst & Ha & Hs & Hlo & Hhi & Hres). set (ar := RPCM_ack m) in *.
  apply encodes_and; [apply encodes_field; [by apply auth_encodes|by destruct ar]|].
  apply encodes_and; [apply encodes_field; [by apply (cd_encodes (S := int32_spec))|by destruct ar]|].
  unfold accepted_tail. destruct (Z.eqb_spec (ar_stat ar) SUCCESS) as [E|E].
  - rewrite E. cbn [Z.eqb]. eapply encodes_ext; [intros x _; rewrite E; reflexivity|].
    apply encodes_field; [by apply Hres|by destruct ar].
  - destruct (Z.eqb_spec (ar_stat ar) PROG_MISMATCH) as [E'|E'].
    + eapply encodes_ext; [intros x _; rewrite E'; reflexivity|].
      apply encodes_field; [by apply versions_encodes|by destruct ar].
    + eapply encodes_ext; [|apply encodes_done]. intros x _.
      by rewrite !(proj2 (Z.eqb_neq _ _)).
Qed.

Lemma reply_body_encodes m : accepted_wf m →
  encodes (xdr_reply_body ar_proc) (rm_reply m)
    (be32 (rp_stat (rm_reply m)) ++ auth_wire (ar_verf (RPCM_ack m)) ++
     be32 (ar_stat (RPCM_ack m)) ++ accepted_tail (RPCM_ack m)).
Proof.
  intros Hm. assert (Hst := proj1 Hm). apply encodes_field; [|by destruct (rm_reply m)].
  rewrite Hst. eapply union_encodes; [by vm_compute|reflexivity|].
  apply encodes_field; [|done]. by apply naccepted_encodes.
Qed.

(** What the in-line branch does after the accept status. *)
Definition accepted_rest m : XDR P → out (bool * XDR P) := λ x,
  if ar_stat (RPCM_ack m) =? SUCCESS then Ret (true, x) else
  if ar_stat (RPCM_ack m) =? PROG_MISMATCH then put_ar_vers x (ar_vers (RPCM_ack m))
  else Ret (true, x).

Lemma accepted_rest_spec m :
  enc_rel (accepted_rest m) (Zlen (accepted_tail (RPCM_ack m)))
    (λ bs, bs = accepted_tail (RPCM_ack m)).
Proof.
  unfold accepted_rest, accepted_tail.
  destruct (Z.eqb_spec (ar_stat (RPCM_ack m)) SUCCESS) as [->|]; [apply enc_rel_done|].
  destruct (Z.eqb_spec (ar_stat (RPCM_ack m)) PROG_MISMATCH); [apply put_ar_vers_spec|].
  apply enc_rel_done.
Qed.

Lemma accepted_inline m (x0 : XDR P) a :
  auth_wf (ar_verf (RPCM_ack m)) →
  allocd (x_mem x0) a (16 + auth_len (ar_verf (RPCM_ack m))) →
  ∃ x buf wv,
    (let! (xdrs, buf) := IXDR_PUT_INT32 x0 a (rm_xid m) in
     let! (xdrs, buf) := IXDR_PUT_ENUM xdrs buf (rm_direction m) in
     let! (xdrs, buf) := IXDR_PUT_ENUM xdrs buf (rp_stat (rm_reply m)) in
     let! (xdrs, buf) := IXDR_PUT_ENUM xdrs buf (oa_flavor (ar_verf (RPCM_ack m))) in
     let! (xdrs, buf) := IXDR_PUT_INT32 xdrs buf (oa_length (ar_verf (RPCM_ack m))) in
     let! (xdrs, buf) := ixdr_put_body xdrs buf (ar_verf (RPCM_ack m)) in
     let! (xdrs, buf) := IXDR_PUT_ENUM xdrs buf (ar_stat (RPCM_ack m)) in
     accepted_rest m xdrs) = accepted_rest m x ∧
    window x0 a (16 + auth_len (ar_verf (RPCM_ack m))) x buf
      (reply_head m ++ wv ++ be32 (ar_stat (RPCM_ack m))) ∧
    auth_bytes (ar_verf (RPCM_ack m)) wv.
Proof.
  intros (Hok & _ & Hl) Ha. set (oa := ar_verf (RPCM_ack m)) in *. unfold auth_len in *.
  assert (0 ≤ RNDUP (oa_length oa)) by (unfold MAX_AUTH_BYTES in *; rewrite RNDUP_spec; lia).
  apply window_start in Ha. win Ha. win Ha. win Ha. win Ha. win Ha.
  destruct (window_body _ _ _ _ _ _ _ Ha Hok Hl) as (xc & bc & wb & -> & Hp & Hlb & Hw); [len|].
  cbn [obind]. win Hw. eexists _, _, _. split; [done|]. split; [|by exists wb].
  unfold reply_head. rewrite <- !app_assoc in *. exact Hw.
Qed.

Lemma accepted_encode_spec m : accepted_wf m →
  enc_rel (λ x, xdr_reply_encode ar_proc x m) (accepted_len m) (accepted_bytes m).
Proof.
  intros Hm. assert (Hm' := Hm). destruct Hm' as (Hst & Ha & Hs & Hv & _).
  assert (Ha' := Ha). destruct Ha' as (_ & _ & Hl).
  unfold xdr_reply_encode. rewrite Hst. cbn [Z.eqb]. unfold xdr_reply_encode_accepted.
  rewrite (proj2 (Z.ltb_ge _ _)) by lia.
  replace (6 * BYTES_PER_XDR_UNIT + RNDUP (oa_length (ar_verf (RPCM_ack m)))) with
    (16 + auth_len (ar_verf (RPCM_ack m))) by (unfold auth_len, BYTES_PER_XDR_UNIT; lia).
  assert (Hal := auth_bytes_len _ _ Ha (auth_wire_bytes _)).
  eapply (enc_inline _ _ _ _ (accepted_rest m) _
    (λ bs, ∃ wv, auth_bytes (ar_verf (RPCM_ack m)) wv ∧
                 bs = reply_head m ++ wv ++ be32 (ar_stat (RPCM_ack m)))
    (λ bs, bs = accepted_tail (RPCM_ack m))); [done|lia|lia| |apply accepted_rest_spec| |].
  - intros x0 a Hal'. destruct (accepted_inline m x0 a Ha Hal') as (x & buf & wv & E & Hw & Hb).
    eexists x, buf, _. split; [exact E|]. split; [exact Hw|]. split; [|by eauto].
    apply auth_bytes_len in Hb; [|done]. unfold reply_head. len.
  - assert (accepted_len m = Zlen (accepted_wire m)) as ->
      by (unfold accepted_len, accepted_wire, reply_head; len).
    apply enc_rel_puts; [|exists (auth_wire (ar_verf (RPCM_ack m))); auto using auth_wire_bytes].
    unfold accepted_wire, reply_head. rewrite <- !app_assoc.
    apply puts_check; [apply puts_uint32|]. apply puts_check; [apply puts_enum|].
    by apply puts_of_encodes, reply_body_encodes.
  - intros b1 b2 (wv & Hb & ->) ->. exists wv. by rewrite <- !app_assoc.
Qed.
End Encode.
