(* ===== verification/RpcMsgTheorems.v ===== *)
(** * What the RPC message layer guarantees

    Theorems about call and reply headers over any pair of streams that meet the
    contracts of XdrStream.v, with instances on memory buffers (xdr_mem.c). *)
From stdpp Require Import base gmap list.
From Stdlib Require Import ZArith Lia.
From S2P Require Import Prelude Machine XdrHandle XdrStream XdrMem XdrInline XdrWire XdrCodecs RpcMsg RpcMsgFacts.

(** Same flavor, same length and the same bytes up to it. *)
Definition auth_same (a b : opaque_auth) : Prop :=
  oa_flavor a = oa_flavor b ∧ oa_length a = oa_length b ∧
  take (Z.to_nat (oa_length a)) (oa_body a) = take (Z.to_nat (oa_length b)) (oa_body b).

Definition call_same {R S} (a : rpc_msg R) (b : rpc_msg S) : Prop :=
  rm_xid a = rm_xid b ∧ rm_direction a = rm_direction b ∧ cb_rpcvers a = cb_rpcvers b ∧
  cb_prog a = cb_prog b ∧ cb_vers a = cb_vers b ∧ cb_proc a = cb_proc b ∧
  auth_same (cb_cred a) (cb_cred b) ∧ auth_same (cb_verf a) (cb_verf b).

(** A call header whose fields are in range. *)
Definition call_wf {R} (m : rpc_msg R) : Prop :=
  rm_direction m = CALL ∧ cb_rpcvers m = RPC_MSG_VERSION ∧ is_u 32 (rm_xid m) ∧
  is_u 32 (cb_prog m) ∧ is_u 32 (cb_vers m) ∧ is_u 32 (cb_proc m) ∧
  auth_wf (cb_cred m) ∧ auth_wf (cb_verf m) ∧ bytes (oa_body (cb_cred m)) ∧
  bytes (oa_body (cb_verf m)).

Lemma auth_bytes_got oa0 oa w :
  auth_wf oa → bytes (oa_body oa) → auth_bytes oa w → 
  ∃ oa', auth_got oa0 oa' w ∧ auth_same oa' oa.
Proof.
  unfold auth_wf, auth_ok. intros (Hok & Hf & Hl) Hb (wb & Hp & ->).
  set (bs := take (Z.to_nat (oa_length oa)) (oa_body oa)) in *.
  assert (Hlen : Zlen bs = oa_length oa) by (unfold bs, MAX_AUTH_BYTES in *; len).
  exists (mk_auth (oa_flavor oa) (oa_length oa) (bs ++ drop (length bs) (oa_body oa0))). split.
  - exists (u32 (oa_flavor oa)), bs, wb. rewrite be32_u32, wraps_wrapu_id, Hlen by done.
    split_and!; auto; try lia; [by apply wrapu_range|by apply Forall_take].
  - split_and!; try done. simpl. rewrite take_app_exact by lia. done.
Qed.

Lemma call_bytes_got {R S} (m : rpc_msg R) (m0 : rpc_msg S) w :
  call_wf m → call_bytes m w → ∃ m', msg_got m0 m' w [] ∧ msg_defined m' ∧ call_same m' m.
Proof.
  intros (Hd & Hv & Hx & Hp & Hvs & Hpr & Hc & Hvf & Hbc & Hbv) (wc & wv & Ha & Hb & ->).
  destruct (auth_bytes_got (cb_cred m0) _ _ Hc Hbc Ha) as (cred & Hgc & Hsc).
  destruct (auth_bytes_got (cb_verf m0) _ _ Hvf Hbv Hb) as (verf & Hgv & Hsv).
  rewrite Hd, Hv. eexists. split; [apply msg_call; [done|]; apply call_got_intro; eauto|].
  split; [by intros|]. by split_and!.
Qed.

(** C3. A call header written by [xdr_call_encode] to any stream with room for it,
    through the in-line window or word by word, is read back by [xdr_dplx_decode]
    from any stream positioned on those bytes, leaving the stream exactly after
    them: xid, direction, versions, program, procedure, credential and verifier
    all come back. *)
Theorem call_roundtrip {P Q R S} {OP : XdrOps P} {WP : XdrOutput P} {OQ : XdrOps Q}
    {IQ : XdrInput Q} (m : rpc_msg R) (m0 : rpc_msg S) (x : XDR P) w c :
  out_at x w c → fits (call_len m) c → call_wf m → msg_ok m0 →
  ∃ bs x', xdr_call_encode x m = Ret (true, x') ∧
    out_at x' (w ++ bs) (cap_sub c (Zlen bs)) ∧ Zlen bs = call_len m ∧
    ∀ (y : XDR Q) tl, in_at y 0 (bs ++ tl) →
      ∃ m' y', xdr_dplx_decode y m0 = Ret (true, m', y') ∧ in_at y' 0 tl ∧ call_same m' m.
Proof.
  intros Hx Hc Hwf Hok. assert (Hwf' := Hwf).
  destruct Hwf' as (_ & Hv & _ & _ & _ & _ & Hcr & Hvf & _).
  destruct (proj1 (call_encode_spec m Hcr Hvf Hv x w c Hx) Hc) as (bs & x' & E & Hb & Hl & Hx').
  exists bs, x'. rewrite Hl. split_and!; try done. intros y tl Hy.
  destruct (call_bytes_got m m0 bs Hwf Hb) as (m' & Hg & Hd & Hs).
  destruct (msg_decodes m0 m' bs Hok Hg Hd y tl Hy) as (y' & -> & Hy'). eauto.
Qed.

(** A zeroed message, as svc_request structures are allocated. *)
Definition msg_zero : rpc_msg unit :=
  let none := mk_auth 0 0 (replicate 400 0) in
  mk_msg 0 0 0 (mk_reply 0 (mk_accepted 0 (mk_versions 0 0) tt none)
    (mk_rejected 0 (mk_versions 0 0) 0)) 0 0 0 none none.

Lemma msg_zero_ok : msg_ok msg_zero.
Proof. by vm_compute. Qed.

(** A call with a five-byte credential. *)
Definition a_call : rpc_msg unit :=
  mk_msg 77 CALL RPC_MSG_VERSION (rm_reply msg_zero) 100003 3 1
    (mk_auth 1 5 ([1; 2; 3; 4; 5] ++ replicate 395 0)) (cb_verf msg_zero).

Lemma a_call_wf : call_wf a_call.
Proof. repeat split; try done; try lia; by repeat constructor. Qed.

Lemma call_roundtrip_witness :
  ∃ bs x', xdr_call_encode (mem_writer 200) a_call = Ret (true, x') ∧
    out_at x' ([] ++ bs) (cap_sub (Some 200) (Zlen bs)) ∧ Zlen bs = call_len a_call ∧
    ∀ (y : XDR mem_priv) tl, in_at y 0 (bs ++ tl) →
      ∃ m' y', xdr_dplx_decode y msg_zero = Ret (true, m', y') ∧ in_at y' 0 tl ∧
               call_same m' a_call.
Proof.
  apply (call_roundtrip a_call msg_zero (mem_writer 200) [] (Some 200));
    [apply mem_writer_at|by vm_compute|apply a_call_wf|apply msg_zero_ok].
Defined.

(** ** Decoding arbitrary bytes *)

Lemma auth_got_wf oa0 oa w : auth_ok oa0 → auth_got oa0 oa w → auth_wf oa.
Proof.
  intros Hok Hg. split; [by eapply auth_got_ok|].
  destruct Hg as (fl & bs & wb & Hfl & Hb & Hl & _ & _ & ->). simpl.
  split; [by apply wraps_range|lia].
Qed.

Lemma msg_got_wf {R} (m0 m : rpc_msg R) w skip :
  msg_ok m0 → msg_got m0 m w skip →
  msg_ok m ∧
  (rm_direction m = CALL ∧ cb_rpcvers m = RPC_MSG_VERSION ∧ auth_wf (cb_cred m) ∧
     auth_wf (cb_verf m) ∨
   rm_direction m = REPLY ∧ (rp_stat (rm_reply m) = MSG_ACCEPTED ∧ auth_wf (ar_verf (RPCM_ack m)) ∨
                             rp_stat (rm_reply m) = MSG_DENIED)).
Proof.
  intros (Hc & Hv & Ha) [xid m' w' Hx Hg|xid m' w' skip' Hx Hg].
  - destruct Hg as [prog vers proc cred verf wc wv _ _ _ Hgc Hgv]. cbn in *.
    apply auth_got_wf in Hgc, Hgv; try done. split; [|by left].
    split; [apply Hgc|]. split; [apply Hgv|done].
  - destruct Hg as [ar w'' Hg|rr w'' skip'' Hg].
    + assert (auth_wf (ar_verf ar)) as Hw by (destruct Hg; cbn in *; by eapply auth_got_wf).
      split; [|right; cbn; auto]. split; [done|]. split; [done|]. apply Hw.
    + split; [done|]. right. cbn. auto.
Qed.

(** C2. [xdr_dplx_decode] is total on arbitrary input: it returns, accesses only the
    bytes of the stream and of the message structure, and when it reports success the
    message is well formed -- a call of RPC version 2 or a reply, every credential
    and verifier it filled has a length of at most [MAX_AUTH_BYTES] -- and the bytes
    it consumed are exactly the accepted encoding of that message. *)
Theorem dplx_decode_total {Q R} {OQ : XdrOps Q} {IQ : XdrInput Q} (m0 : rpc_msg R)
    (x : XDR Q) l :
  msg_ok m0 → in_at x 0 l →
  ∃ b m x', xdr_dplx_decode x m0 = Ret (b, m, x') ∧
    (b = true →
       (rm_direction m = CALL ∧ cb_rpcvers m = RPC_MSG_VERSION ∧ auth_wf (cb_cred m) ∧
          auth_wf (cb_verf m) ∨
        rm_direction m = REPLY ∧
          (rp_stat (rm_reply m) = MSG_ACCEPTED ∧ auth_wf (ar_verf (RPCM_ack m)) ∨
           rp_stat (rm_reply m) = MSG_DENIED)) ∧
       ∃ w skip tl, l = w ++ skip ++ tl ∧ msg_got m0 m w skip ∧ in_at x' 0 tl).
Proof.
  intros Hok Hx. destruct (msg_decoded m0 x l Hok Hx)
    as [(m & w & skip & tl & x' & -> & Hg & E & Hx')|(m & x' & E)].
  - exists true, m, x'. split; [done|]. intros _. split; [by eapply msg_got_wf|eauto 10].
  - exists false, m, x'. by split.
Qed.

Lemma dplx_decode_total_witness :
  let l := be32 9 ++ be32 0 ++ be32 2 ++ be32 1 ++ be32 1 ++ be32 0 ++ be32 1 ++ be32 401 in
  ∃ b m x', xdr_dplx_decode (mem_reader l) msg_zero = Ret (b, m, x') ∧
    (b = true →
       (rm_direction m = CALL ∧ cb_rpcvers m = RPC_MSG_VERSION ∧ auth_wf (cb_cred m) ∧
          auth_wf (cb_verf m) ∨
        rm_direction m = REPLY ∧
          (rp_stat (rm_reply m) = MSG_ACCEPTED ∧ auth_wf (ar_verf (RPCM_ack m)) ∨
           rp_stat (rm_reply m) = MSG_DENIED)) ∧
       ∃ w skip tl, l = w ++ skip ++ tl ∧ msg_got msg_zero m w skip ∧ in_at x' 0 tl).
Proof.
  intros l. apply (dplx_decode_total msg_zero (mem_reader l) l); [apply msg_zero_ok|].
  apply mem_reader_at. repeat (apply Forall_app; split); apply be32_bytes.
Defined.

(** ** Replies *)

Definition denied_wf {R} (m : rpc_msg R) : Prop :=
  rp_stat (rm_reply m) = MSG_DENIED ∧
  (rj_stat (RPCM_rej m) = RPC_MISMATCH ∨ rj_stat (RPCM_rej m) = AUTH_ERROR) ∧
  is_u 32 (low (rj_vers (RPCM_rej m))) ∧ is_u 32 (high (rj_vers (RPCM_rej m))) ∧
  is_s 32 (rj_why (RPCM_rej m)).

Lemma accepted_bytes_got {P R S} {OP : XdrOps P} {WP : XdrOutput P} (ar_proc : xdrproc P R)
    (m : rpc_msg R) (m0 : rpc_msg S) w e :
  rm_direction m = REPLY → is_u 32 (rm_xid m) → bytes (oa_body (ar_verf (RPCM_ack m))) →
  accepted_wf ar_proc m → accepted_bytes m w →
  ∃ m', msg_got m0 m' w [] ∧ msg_defined m' ∧ rm_xid m' = rm_xid m ∧ rm_direction m' = REPLY ∧
        _seterr_reply m' e = _seterr_reply m e.
Proof.
  intros Hd Hx Hb (Hst & Ha & Hs & Hlo & Hhi & _) (wv & Hw & ->).
  destruct (auth_bytes_got (ar_verf (RPCM_ack m0)) _ _ Ha Hb Hw) as (verf & Hg & _).
  unfold reply_head, accepted_tail. rewrite Hd, Hst.
  destruct (Z.eqb_spec (ar_stat (RPCM_ack m)) PROG_MISMATCH) as [E|E].
  - unfold versions_wire. rewrite E. rewrite <- !app_assoc.
    eexists. split; [apply msg_reply; [done|]; apply reply_accepted, accepted_mismatch; eauto|].
    split; [by intros|]. split; [done|]. split; [done|]. unfold _seterr_reply. cbn. rewrite Hst, E. cbn.
    by destruct (ar_vers (RPCM_ack m)).
  - rewrite app_nil_r, <- !app_assoc. rewrite <- (be32_u32 (ar_stat (RPCM_ack m))).
    eexists. split; [apply msg_reply; [done|]; apply reply_accepted, accepted_other; eauto|].
    + by apply wrapu_range.
    + intros E'. destruct E. rewrite <- (wraps_wrapu_id 32 (ar_stat _)) by done. by rewrite E'.
    + split; [by intros|]. split; [done|]. split; [done|]. unfold _seterr_reply. cbn. rewrite Hst.
      rewrite wraps_wrapu_id by done. cbn. destruct (ar_stat (RPCM_ack m) =? SUCCESS); [done|].
      unfold accepted. rewrite (proj2 (Z.eqb_neq _ PROG_MISMATCH)) by done.
      repeat (case_match; try done).
Qed.

Lemma denied_bytes_got {R S} (m : rpc_msg R) (m0 : rpc_msg S) e :
  rm_direction m = REPLY → is_u 32 (rm_xid m) → denied_wf m →
  ∃ m', msg_got m0 m' (denied_wire m) [] ∧ msg_defined m' ∧ rm_xid m' = rm_xid m ∧ rm_direction m' = REPLY ∧
        _seterr_reply m' e = _seterr_reply m e.
Proof.
  intros Hd Hx (Hst & Hrj & Hlo & Hhi & Hw).
  unfold denied_wire, reply_head, rejected_tail. rewrite Hd, Hst, <- !app_assoc.
  destruct Hrj as [E|E]; rewrite E; cbn [Z.eqb].
  - unfold versions_wire.
    eexists. split; [apply msg_reply; [done|]; apply reply_denied, rejected_mismatch; eauto|].
    split; [by left|]. split; [done|]. split; [done|]. unfold _seterr_reply. cbn. rewrite Hst, E. cbn.
    by destruct (rj_vers (RPCM_rej m)).
  - rewrite <- (be32_u32 (rj_why _)).
    eexists. split; [apply msg_reply; [done|]; apply reply_denied, rejected_auth; eauto|].
    + by apply wrapu_range.
    + split; [by right|]. split; [done|]. split; [done|]. unfold _seterr_reply. cbn. rewrite Hst, E. cbn.
      by rewrite wraps_wrapu_id by done.
Qed.

(** A verifier of whole units needs no padding, whose bytes are not written. *)
Lemma accepted_bytes_bytes {P R} {OP : XdrOps P} {WP : XdrOutput P} (ar_proc : xdrproc P R) (m : rpc_msg R) w :
  bytes (oa_body (ar_verf (RPCM_ack m))) → accepted_wf ar_proc m → accepted_bytes m w →
  oa_length (ar_verf (RPCM_ack m)) mod 4 = 0 → bytes w.
Proof.
  intros Hb (_ & (Hok & _ & Hl) & _) (wv & (wb & (pad & -> & Hp) & ->) & ->) Hm.
  unfold auth_ok, MAX_AUTH_BYTES in *. destruct pad as [|b pad].
  2:{ exfalso. unfold padn in Hp. rewrite length_take in Hp. cbn in Hp. lia. }
  unfold reply_head, accepted_tail, versions_wire. rewrite app_nil_r.
  repeat (apply bytes_app; split; try apply be32_bytes); [by apply Forall_take|].
  case_match; [repeat (apply bytes_app; split; try apply be32_bytes)|constructor].
Qed.

Lemma denied_wire_bytes {R} (m : rpc_msg R) : bytes (denied_wire m).
Proof.
  unfold denied_wire, reply_head, rejected_tail, versions_wire.
  repeat (apply bytes_app; split; try apply be32_bytes).
  repeat case_match; repeat (apply bytes_app; split); try apply be32_bytes; constructor.
Qed.

(** A reply the server may send. *)
Definition reply_wf {P R} {OP : XdrOps P} {WP : XdrOutput P} (ar_proc : xdrproc P R)
    (m : rpc_msg R) : Prop :=
  rm_direction m = REPLY ∧ is_u 32 (rm_xid m) ∧
  (accepted_wf ar_proc m ∧ bytes (oa_body (ar_verf (RPCM_ack m))) ∨ denied_wf m).

Definition reply_len {R} (m : rpc_msg R) : Z :=
  if rp_stat (rm_reply m) =? MSG_ACCEPTED then accepted_len m else Zlen (denied_wire m).

Definition reply_bytes {R} (m : rpc_msg R) (w : list Z) : Prop :=
  if rp_stat (rm_reply m) =? MSG_ACCEPTED then accepted_bytes m w else w = denied_wire m.

Lemma reply_encode_spec {P R} {OP : XdrOps P} {IP : XdrInput P} {WP : XdrOutput P}
    (ar_proc : xdrproc P R) (m : rpc_msg R) :
  reply_wf ar_proc m → enc_rel (λ x, xdr_reply_encode ar_proc x m) (reply_len m) (reply_bytes m).
Proof.
  intros (Hd & Hx & [[Ha Hb]|Hde]) x w c Hxa; unfold reply_len, reply_bytes.
  - rewrite (proj1 Ha), Z.eqb_refl. by apply (accepted_encode_spec ar_proc m Ha).
  - destruct Hde as (Hst & Hrj & _). rewrite Hst. change (MSG_DENIED =? MSG_ACCEPTED) with false.
    by apply (denied_encode_spec ar_proc m Hst Hrj).
Qed.

Lemma reply_bytes_got {P R S} {OP : XdrOps P} {WP : XdrOutput P} (ar_proc : xdrproc P R)
    (m : rpc_msg R) (m0 : rpc_msg S) w e :
  reply_wf ar_proc m → reply_bytes m w →
  ∃ m', msg_got m0 m' w [] ∧ msg_defined m' ∧ rm_xid m' = rm_xid m ∧ rm_direction m' = REPLY ∧
        _seterr_reply m' e = _seterr_reply m e.
Proof.
  unfold reply_bytes. intros (Hd & Hx & [[Ha Hb]|Hde]) Hw.
  - rewrite (proj1 Ha), Z.eqb_refl in Hw. by eapply accepted_bytes_got.
  - rewrite (proj1 Hde) in Hw. assert (w = denied_wire m) as -> by exact Hw. by apply denied_bytes_got.
Qed.

Lemma reply_bytes_bytes {P R} {OP : XdrOps P} {WP : XdrOutput P} (ar_proc : xdrproc P R) (m : rpc_msg R) w :
  reply_wf ar_proc m → reply_bytes m w →
  (rp_stat (rm_reply m) = MSG_ACCEPTED → oa_length (ar_verf (RPCM_ack m)) mod 4 = 0) → bytes w.
Proof.
  unfold reply_bytes. intros (Hd & Hx & [[Ha Hb]|Hde]) Hw Hm.
  - rewrite (proj1 Ha), Z.eqb_refl in Hw. eapply accepted_bytes_bytes; [done..|]. by apply Hm, Ha.
  - rewrite (proj1 Hde) in Hw. assert (w = denied_wire m) as -> by exact Hw. apply denied_wire_bytes.
Qed.

(** C4. A reply header -- accepted with any status, or denied -- written by
    [xdr_reply_encode] to a stream with room for it and read by [xdr_dplx_decode]
    carries its transaction id, and [_seterr_reply] on the receiving side reports
    exactly the error (status, version range, authentication failure) the sender's
    message stands for; the decoder stops exactly after the header. *)
Theorem reply_roundtrip {P Q R S} {OP : XdrOps P} {IP : XdrInput P} {WP : XdrOutput P}
    {OQ : XdrOps Q} {IQ : XdrInput Q} (ar_proc : xdrproc P R) (m : rpc_msg R) (m0 : rpc_msg S)
    (x : XDR P) w c e :
  out_at x w c → fits (reply_len m) c → reply_wf ar_proc m → msg_ok m0 →
  ∃ bs x', xdr_reply_encode ar_proc x m = Ret (true, x') ∧
    out_at x' (w ++ bs) (cap_sub c (Zlen bs)) ∧ Zlen bs = reply_len m ∧
    ∀ (y : XDR Q) tl, in_at y 0 (bs ++ tl) →
      ∃ m' y', xdr_dplx_decode y m0 = Ret (true, m', y') ∧ in_at y' 0 tl ∧
               rm_xid m' = rm_xid m ∧ _seterr_reply m' e = _seterr_reply m e.
Proof.
  intros Hx Hc Hwf Hok.
  destruct (proj1 (reply_encode_spec ar_proc m Hwf x w c Hx) Hc) as (bs & x' & E & Hb & Hl & Hx').
  exists bs, x'. rewrite Hl. split_and!; try done. intros y tl Hy.
  destruct (reply_bytes_got ar_proc m m0 bs e Hwf Hb) as (m' & Hg & Hd & Hxid & _ & He).
  destruct (msg_decodes m0 m' bs Hok Hg Hd y tl Hy) as (y' & -> & Hy'). eauto 10.
Qed.

(** A server that supports versions 2 to 4 refuses a call. *)
Definition a_mismatch : rpc_msg unit :=
  set_ack (set_ar_vers (mk_versions 2 4) (set_ar_stat PROG_MISMATCH (RPCM_ack msg_zero)))
    (set_direction REPLY (set_xid 77 msg_zero)).

Lemma reply_roundtrip_witness :
  ∃ bs x', xdr_reply_encode xdr_void (mem_writer 64) a_mismatch = Ret (true, x') ∧
    out_at x' ([] ++ bs) (cap_sub (Some 64) (Zlen bs)) ∧ Zlen bs = reply_len a_mismatch ∧
    ∀ (y : XDR mem_priv) tl, in_at y 0 (bs ++ tl) →
      ∃ m' y', xdr_dplx_decode y msg_zero = Ret (true, m', y') ∧ in_at y' 0 tl ∧
               rm_xid m' = rm_xid a_mismatch ∧
               _seterr_reply m' (mk_err 0 0 (mk_versions 0 0) 0 0) =
               _seterr_reply a_mismatch (mk_err 0 0 (mk_versions 0 0) 0 0).
Proof.
  apply (reply_roundtrip xdr_void a_mismatch msg_zero (mem_writer 64) [] (Some 64)
           (mk_err 0 0 (mk_versions 0 0) 0 0));
    [apply mem_writer_at|by vm_compute| |apply msg_zero_ok].
  split; [done|]. split; [by vm_compute|]. left. split; [|by repeat constructor].
  split; [done|]. split; [by vm_compute|]. split; [by vm_compute|]. split; [by vm_compute|].
  split; [by vm_compute|]. intros Hs. discriminate Hs.
Defined.

(** [_seterr_reply] reports success exactly for an accepted reply whose accept
    status is SUCCESS: no other reply, known or unknown, is taken for a result. *)
Theorem seterr_success_iff {R} (m : rpc_msg R) e :
  re_status (_seterr_reply m e) = RPC_SUCCESS ↔
  rp_stat (rm_reply m) = MSG_ACCEPTED ∧ ar_stat (RPCM_ack m) = SUCCESS.
Proof.
  unfold _seterr_reply, accepted, rejected.
  destruct (Z.eqb_spec (rp_stat (rm_reply m)) MSG_ACCEPTED) as [->|];
    destruct (Z.eqb_spec (ar_stat (RPCM_ack m)) SUCCESS) as [->|]; cbn [andb]; [done|..];
    (split; [|intros [? ?]; congruence]);
    repeat (case_match; cbn; try done).
Qed.
