(* ===== verification/SvcCallout.v ===== *)
(** * The service registry and error replies (src/svc.c)

    The list of registered services with its registration, removal and lookup, and
    the routines that turn a request into a reply.  What the registry asks of the
    rest of the system -- the network id of a descriptor and the answer of the local
    binder -- are arguments. *)
From stdpp Require Import base gmap list.
From Stdlib Require Import ZArith Lia.
From S2P Require Import Prelude Machine XdrHandle XdrStream XdrMem XdrInline XdrWire XdrCodecs RpcMsg SvcAuthUnix RpcMsgFacts RpcMsgTheorems.

(** ** The callout list *)

(** A network id: the bytes of the string, or [None] for NULL.  A dispatch routine is
    its address. *)
Abbreviation netid_t := (option (list Z)).

Record svc_record := mk_svc_record {
  sc_prog : Z; sc_vers : Z; sc_netid : netid_t; sc_dispatch : Z;
}.

(** [(netid == NULL) || (s->rec.sc_netid == NULL) || strcmp(...) == 0] *)
Definition netid_match (netid sc : netid_t) : bool :=
  match netid, sc with
  | Some a, Some b => bool_decide (a = b)
  | _, _ => true
  end.

Definition callout_match (prog vers : Z) (netid : netid_t) (r : svc_record) : bool :=
  (sc_prog r =? prog) && (sc_vers r =? vers) && netid_match netid (sc_netid r).

(** The loop of svc_find from position [i]; [p] is the position before it. *)
Fixpoint find_from (i : nat) (p : option nat) (l : list svc_record) (prog vers : Z)
    (netid : netid_t) : option nat * option nat :=
  match l with
  | [] => (p, None)
  | r :: l =>
      if callout_match prog vers netid r then (p, Some i)
      else find_from (S i) (Some i) l prog vers netid
  end.

(** The predecessor's position and the entry's. *)
Definition svc_find (svc_head : list svc_record) (prog vers : Z) (netid : netid_t)
    : option nat * option nat := find_from 0 None svc_head prog vers netid.

(** ** Registration *)

(** [xp_netid], [nconf]'s network id, whether the transport is excluded from the
    binder, and the answers of [__rpcgettp] and [rpcb_set].  Returns the result, the
    list and the transport's network id. *)
Definition svc_reg (svc_head : list svc_record) (xp_netid : netid_t) (no_set : bool)
    (prog vers dispatch : Z) (nconf : netid_t) (rpcgettp : netid_t) (rpcb_set : bool)
    : out (bool * list svc_record * netid_t) :=
  let '(netid, flag) :=
    match xp_netid, nconf, rpcgettp with
    | Some n, _, _ => (Some n, true)
    | None, Some n, _ => (Some n, true)
    | None, None, Some n => (Some n, true)
    | None, None, None => (None, false)
    end in
  if (match netid with None => true | _ => false end) && flag
  then Ret (false, svc_head, xp_netid) else
  let rpcb_it svc_head xp_netid :=
    match nconf with
    | Some _ => if no_set then Ret (true, svc_head, xp_netid)
                else Ret (rpcb_set, svc_head, xp_netid)
    | None => Ret (true, svc_head, xp_netid)
    end in
  match svc_find svc_head prog vers netid with
  | (_, Some i) =>
      let! s := access (svc_head !! i) in
      if sc_dispatch s =? dispatch then rpcb_it svc_head xp_netid
      else Ret (false, svc_head, xp_netid)
  | (_, None) =>
      rpcb_it (mk_svc_record prog vers netid dispatch :: svc_head)
        (match xp_netid with None => if flag then netid else None | _ => xp_netid end)
  end.

(** [while ((s = svc_find(prog, vers, &prev, NULL)) != NULL) unlink s] *)
Fixpoint unreg_loop (fuel : nat) (svc_head : list svc_record) (prog vers : Z)
    : out (list svc_record) :=
  match svc_find svc_head prog vers None with
  | (_, None) => Ret svc_head
  | (prev, Some i) =>
      match fuel with
      | O => OutOfFuel
      | S fuel =>
          let next := drop (S i) svc_head in
          unreg_loop fuel
            (match prev with None => next | Some p => take (S p) svc_head ++ next end) prog vers
      end
  end.

Definition svc_unreg (svc_head : list svc_record) (prog vers : Z) : out (list svc_record) :=
  unreg_loop (length svc_head) svc_head prog vers.

(** ** Lookup *)

Inductive svc_lookup_result := SVC_LKP_SUCCESS | SVC_LKP_PROG_NOTFOUND
  | SVC_LKP_VERS_NOTFOUND | SVC_LKP_NETID_NOTFOUND | SVC_LKP_ERR.

(** The local variables of svc_lookup. *)
Record lookup_state := mk_lookup {
  lk_p : option svc_record;
  lk_prog_found : bool; lk_vers_found : bool; lk_netid_found : bool;
  lk_lowvers : Z; lk_highvers : Z;
}.

Definition lookup_step (prog vers : Z) (netid : netid_t) (st : lookup_state) (r : svc_record)
    : lookup_state :=
  if negb (sc_prog r =? prog) then st else
  let high := if lk_highvers st <? sc_vers r then sc_vers r else lk_highvers st in
  let low := if lk_lowvers st <? sc_vers r then sc_vers r else lk_lowvers st in
  if negb (sc_vers r =? vers)
  then mk_lookup (lk_p st) true (lk_vers_found st) (lk_netid_found st) low high else
  if negb (netid_match netid (sc_netid r))
  then mk_lookup (lk_p st) true true (lk_netid_found st) low high
  else mk_lookup (Some r) true true true low high.

Definition svc_lookup (svc_head : list svc_record) (prog vers : Z) (netid : netid_t)
    : svc_lookup_result * option svc_record * Z * Z :=
  let st := fold_left (lookup_step prog vers netid) svc_head
              (mk_lookup None false false false 0 0) in
  let code :=
    match lk_p st with
    | Some _ => SVC_LKP_SUCCESS
    | None =>
        if negb (lk_prog_found st) then SVC_LKP_PROG_NOTFOUND else
        if negb (lk_vers_found st) then SVC_LKP_VERS_NOTFOUND else
        if (match netid with Some _ => true | None => false end) && negb (lk_netid_found st)
        then SVC_LKP_NETID_NOTFOUND else SVC_LKP_ERR
    end in
  (code, lk_p st, lk_lowvers st, lk_highvers st).

(** ** What the loops compute *)

Lemma find_from_spec i p l prog vers netid pr o :
  find_from i p l prog vers netid = (pr, o) →
  match o with
  | None => Forall (λ r, callout_match prog vers netid r = false) l
  | Some j => ∃ l1 r l2, l = l1 ++ r :: l2 ∧ j = (i + length l1)%nat ∧
                callout_match prog vers netid r = true ∧
                Forall (λ r, callout_match prog vers netid r = false) l1 ∧
                pr = match l1 with [] => p | _ => Some (i + length l1 - 1)%nat end
  end.
Proof.
  revert i p. induction l as [|r l IH]; intros i p; cbn [find_from].
  { intros [= <- <-]. constructor. }
  destruct (callout_match prog vers netid r) eqn:Em.
  { intros [= <- <-]. exists [], r, l. cbn. rewrite Nat.add_0_r. done. }
  intros E. apply IH in E. destruct o as [j|]; [|by constructor].
  destruct E as (l1 & r' & l2 & -> & -> & Hm & Hl1 & ->). exists (r :: l1), r', l2.
  split_and!; [done|cbn; lia|done|by constructor|]. destruct l1; cbn; f_equal; lia.
Qed.

(** An entry for [prog] and [vers], whatever its network id. *)
Definition for_service (prog vers : Z) (r : svc_record) : Prop :=
  sc_prog r = prog ∧ sc_vers r = vers.
#[export] Instance for_service_dec prog vers r : Decision (for_service prog vers r).
Proof. unfold for_service. apply _. Defined.

Lemma callout_match_any prog vers r :
  callout_match prog vers None r = bool_decide (for_service prog vers r).
Proof.
  unfold callout_match, for_service. apply eq_true_iff_eq.
  rewrite !andb_true_iff, bool_decide_eq_true, !Z.eqb_eq. naive_solver.
Qed.

Lemma callout_match_iff prog vers netid r :
  callout_match prog vers netid r = true ↔
  for_service prog vers r ∧ netid_match netid (sc_netid r) = true.
Proof. unfold callout_match, for_service. by rewrite !andb_true_iff, !Z.eqb_eq. Qed.

Lemma unreg_loop_spec fuel l prog vers :
  (length l ≤ fuel)%nat →
  unreg_loop fuel l prog vers = Ret (filter (λ r, ¬ for_service prog vers r) l).
Proof.
  revert l. induction fuel as [|fuel IH]; intros l Hl; cbn [unreg_loop].
  { destruct l; [done|cbn in Hl; lia]. }
  destruct (svc_find l prog vers None) as [prev [i|]] eqn:E; apply find_from_spec in E.
  - destruct E as (l1 & r & l2 & -> & -> & Hm & Hl1 & ->). rewrite !Nat.add_0_l.
    replace (drop (S (length l1)) (l1 ++ r :: l2)) with l2
      by (by rewrite cons_middle, app_assoc, drop_app_exact by len).
    assert (Hunl : match (match l1 with [] => None | _ => Some (length l1 - 1)%nat end) with
                   | None => l2 | Some p => take (S p) (l1 ++ r :: l2) ++ l2 end = l1 ++ l2).
    { destruct l1 as [|r1 l1]; [done|].
      replace (S (length (r1 :: l1) - 1)) with (length (r1 :: l1)) by (cbn; lia).
      by rewrite take_app_length. }
    rewrite Hunl, IH by len. rewrite !filter_app. do 2 f_equal.
    rewrite callout_match_any in Hm. apply bool_decide_eq_true in Hm.
    rewrite filter_cons_False by naive_solver. done.
  - f_equal. symmetry. apply filter_all. eapply Forall_impl; [exact E|].
    intros r Hr. cbn in Hr. rewrite callout_match_any in Hr. by apply bool_decide_eq_false in Hr.
Qed.

Abbreviation matches prog vers netid := (λ r, callout_match prog vers netid r = true).

Definition highest_vers (prog : Z) (l : list svc_record) : Z :=
  fold_left Z.max (sc_vers <$> filter (λ r, sc_prog r = prog) l) 0.

Lemma ltb_max a b : (if a <? b then b else a) = Z.max a b.
Proof. destruct (Z.ltb_spec a b); lia. Qed.

Ltac lookup_cases :=
  unfold for_service; cbn [lk_p lk_prog_found lk_vers_found lk_netid_found lk_lowvers lk_highvers];
  split_and!; try done; intuition congruence.

(** The local variables after the loop. *)
Lemma lookup_state_spec prog vers netid l :
  let st := fold_left (lookup_step prog vers netid) l (mk_lookup None false false false 0 0) in
  lk_p st = last (filter (matches prog vers netid) l) ∧
  (lk_prog_found st = true ↔ Exists (λ r, sc_prog r = prog) l) ∧
  (lk_vers_found st = true ↔ Exists (for_service prog vers) l) ∧
  (lk_netid_found st = true ↔ Exists (matches prog vers netid) l) ∧
  lk_lowvers st = highest_vers prog l ∧ lk_highvers st = highest_vers prog l.
Proof.
  induction l as [|r l IH] using rev_ind; cbn zeta.
  { cbn. rewrite !Exists_nil. done. }
  rewrite fold_left_app. cbn [fold_left]. cbn zeta in IH.
  set (st := fold_left _ _ _) in *. destruct IH as (Hp & Hf & Hv & Hn & Hlo & Hhi).
  unfold highest_vers in *. rewrite !filter_app, !Exists_app, !Exists_cons, !Exists_nil.
  unfold lookup_step. destruct (Z.eqb_spec (sc_prog r) prog) as [Ep|Np]; cbn [negb].
  2: { rewrite !filter_cons_False, !app_nil_r; [|done|].
       2: { rewrite callout_match_iff. unfold for_service. tauto. }
       rewrite callout_match_iff. lookup_cases. }
  rewrite (filter_cons_True (λ r, sc_prog r = prog)), filter_nil, fmap_app, fold_left_app by done.
  cbn [fmap list_fmap fold_left]. rewrite Hlo, Hhi, !ltb_max.
  destruct (Z.eqb_spec (sc_vers r) vers) as [Ev|Nv]; cbn [negb].
  2: { rewrite filter_cons_False, filter_nil, app_nil_r.
       - cbn. rewrite callout_match_iff. lookup_cases.
       - rewrite callout_match_iff. unfold for_service. tauto. }
  destruct (netid_match netid (sc_netid r)) eqn:En; cbn [negb].
  - rewrite filter_cons_True, filter_nil, last_snoc.
    + cbn. rewrite callout_match_iff. lookup_cases.
    + by rewrite callout_match_iff.
  - rewrite filter_cons_False, filter_nil, app_nil_r.
    + cbn. rewrite callout_match_iff. lookup_cases.
    + rewrite callout_match_iff, En. by intros [].
Qed.

(** ** Registries *)

(** Two entries one call could be meant for. *)
Definition clash (r1 r2 : svc_record) : Prop :=
  callout_match (sc_prog r1) (sc_vers r1) (sc_netid r1) r2 = true.

Definition distinct : list svc_record → Prop := List.ForallOrdPairs (λ r1 r2, ¬ clash r1 r2).

(** The lists the server can build. *)
Inductive registry : list svc_record → Prop :=
| registry_empty : registry []
| registry_reg l xp no_set prog vers d nconf tp rpcb b l' xp' :
    registry l → svc_reg l xp no_set prog vers d nconf tp rpcb = Ret (b, l', xp') → registry l'
| registry_unreg l prog vers l' :
    registry l → svc_unreg l prog vers = Ret l' → registry l'.

(** The network id a registration is made under. *)
Definition reg_netid (xp nconf tp : netid_t) : netid_t :=
  match xp with Some _ => xp | None => match nconf with Some _ => nconf | None => tp end end.

Definition binder_answer (nconf : netid_t) (no_set rpcb : bool) : bool :=
  match nconf with Some _ => no_set || rpcb | None => true end.

Lemma svc_reg_cases l xp no_set prog vers d nconf tp rpcb :
  let n := reg_netid xp nconf tp in
  ∃ b l' xp', svc_reg l xp no_set prog vers d nconf tp rpcb = Ret (b, l', xp') ∧
    (Forall (λ r, callout_match prog vers n r = false) l ∧
       l' = mk_svc_record prog vers n d :: l ∧ b = binder_answer nconf no_set rpcb ∨
     ∃ r, r ∈ l ∧ callout_match prog vers n r = true ∧ l' = l ∧
       (sc_dispatch r = d ∧ b = binder_answer nconf no_set rpcb ∨ sc_dispatch r ≠ d ∧ b = false)).
Proof.
  cbn zeta. unfold svc_reg.
  replace (match xp, nconf, tp with
           | Some n, _, _ => (Some n, true) | None, Some n, _ => (Some n, true)
           | None, None, Some n => (Some n, true) | None, None, None => (None, false) end)
    with (reg_netid xp nconf tp, match reg_netid xp nconf tp with Some _ => true | None => false end)
    by (by destruct xp, nconf, tp).
  set (n := reg_netid xp nconf tp).
  assert ((match n with None => true | _ => false end) &&
          (match n with Some _ => true | None => false end) = false) as -> by (by destruct n).
  destruct (svc_find l prog vers n) as [pr [i|]] eqn:E; apply find_from_spec in E.
  - destruct E as (l1 & r & l2 & -> & -> & Hm & _ & _).
    rewrite Nat.add_0_l, list_lookup_middle by done. cbn [access obind].
    assert (Hin : r ∈ l1 ++ r :: l2) by set_solver.
    destruct (Z.eqb_spec (sc_dispatch r) d); [destruct nconf, no_set|]; eexists _, _, _;
      (split; [done|right; exists r; cbn; auto 10]).
  - destruct nconf, no_set; eexists _, _, _; (split; [done|left; done]).
Qed.

Lemma svc_unreg_filter l prog vers :
  svc_unreg l prog vers = Ret (filter (λ r, ¬ for_service prog vers r) l).
Proof. by apply unreg_loop_spec. Qed.

Lemma distinct_filter (Q : svc_record → Prop) `{!∀ r, Decision (Q r)} l :
  distinct l → distinct (filter Q l).
Proof.
  induction 1 as [|r l Hr Hl IH]; [constructor|]. rewrite filter_cons. case_decide; [|done].
  constructor; [|done]. apply Forall_forall. intros r' [_ Hin]%list_elem_of_filter.
  rewrite List.Forall_forall in Hr. apply Hr. by apply list_elem_of_In.
Qed.

Lemma registry_distinct l : registry l → distinct l.
Proof.
  induction 1 as [|l xp no_set prog vers d nconf tp rpcb b l' xp' _ IH E|l prog vers l' _ IH E].
  - constructor.
  - destruct (svc_reg_cases l xp no_set prog vers d nconf tp rpcb) as (b1 & l1 & xp1 & E1 & H).
    rewrite E in E1. injection E1 as -> -> ->.
    destruct H as [(Hn & -> & _)|(r & _ & _ & -> & _)]; [|done].
    constructor; [|done]. eapply Forall_impl; [exact Hn|]. intros r Hr. unfold clash. cbn in *. congruence.
  - rewrite svc_unreg_filter in E. injection E as <-. by apply distinct_filter.
Qed.

(** In a registry a named network id selects at most one entry. *)
Lemma registry_unique l prog vers n r1 r2 :
  distinct l → r1 ∈ l → r2 ∈ l → callout_match prog vers (Some n) r1 = true →
  callout_match prog vers (Some n) r2 = true → r1 = r2.
Proof.
  intros Hd H1 H2 [[<- <-] M1]%callout_match_iff [[E1 E2] M2]%callout_match_iff.
  apply list_elem_of_In in H1, H2.
  assert (Hc : clash r1 r2 ∧ clash r2 r1).
  { unfold clash. rewrite !callout_match_iff. unfold for_service. rewrite E1, E2.
    destruct (sc_netid r1) as [a|], (sc_netid r2) as [b|]; cbn in *; try done.
    apply bool_decide_eq_true in M1, M2. subst. rewrite bool_decide_eq_true. done. }
  destruct (List.ForallOrdPairs_In Hd r1 r2 H1 H2) as [|[|]]; naive_solver.
Qed.

(** ** What the registry guarantees *)

Definition lk_code (x : svc_lookup_result * option svc_record * Z * Z) := x.1.1.1.
Definition lk_rec (x : svc_lookup_result * option svc_record * Z * Z) := x.1.1.2.

(** C36. [svc_lookup] classifies every list: it succeeds exactly when an entry matches the
    program, version and network id, returning the oldest such entry, and otherwise
    says which of the three was not found; it never returns SVC_LKP_ERR. *)
Theorem svc_lookup_spec l prog vers netid :
  let res := svc_lookup l prog vers netid in
  lk_rec res = last (filter (matches prog vers netid) l) ∧
  match lk_code res with
  | SVC_LKP_SUCCESS => Exists (matches prog vers netid) l
  | SVC_LKP_PROG_NOTFOUND => ¬ Exists (λ r, sc_prog r = prog) l
  | SVC_LKP_VERS_NOTFOUND =>
      Exists (λ r, sc_prog r = prog) l ∧ ¬ Exists (for_service prog vers) l
  | SVC_LKP_NETID_NOTFOUND =>
      netid ≠ None ∧ Exists (for_service prog vers) l ∧ ¬ Exists (matches prog vers netid) l
  | SVC_LKP_ERR => False
  end.
Proof.
  destruct (lookup_state_spec prog vers netid l) as (Hp & Hf & Hv & Hn & _).
  cbn zeta. unfold svc_lookup, lk_code, lk_rec. cbn [fst snd].
  set (st := fold_left _ _ _) in *. split; [done|].
  destruct (lk_p st) as [r|] eqn:Ep.
  { symmetry in Hp. apply last_Some in Hp as (l1 & Hp). apply Exists_exists. exists r.
    assert (r ∈ filter (matches prog vers netid) l) as Hr by (rewrite Hp; set_solver).
    apply list_elem_of_filter in Hr as [??]. done. }
  assert (Hno : ¬ Exists (matches prog vers netid) l).
  { intros (r & Hin & Hm)%Exists_exists. symmetry in Hp. apply last_None in Hp.
    by apply (filter_nil_not_elem_of _ _ r Hp). }
  destruct (lk_prog_found st); [|naive_solver]. cbn [negb].
  destruct (lk_vers_found st); [|naive_solver]. cbn [negb].
  destruct netid as [n|]; cbn [andb].
  - destruct (lk_netid_found st); naive_solver.
  - destruct Hno. apply Exists_exists. destruct Hv as [Hv _].
    apply Exists_exists in Hv as (r & Hin & Hr); [|done]. exists r. split; [done|].
    rewrite callout_match_any. by apply bool_decide_eq_true.
Qed.

Lemma lk_rec_last l prog vers netid :
  lk_rec (svc_lookup l prog vers netid) = last (filter (matches prog vers netid) l).
Proof. apply lookup_state_spec. Qed.

Lemma registry_found l prog vers n r :
  distinct l → r ∈ l → callout_match prog vers (Some n) r = true →
  lk_rec (svc_lookup l prog vers (Some n)) = Some r.
Proof.
  intros Hd Hin Hm. rewrite lk_rec_last.
  destruct (last (filter (matches prog vers (Some n)) l)) as [r'|] eqn:E.
  - apply last_Some in E as (l1 & E). f_equal.
    assert (r' ∈ filter (matches prog vers (Some n)) l) as [? ?]%list_elem_of_filter
      by (rewrite E; set_solver). by eapply registry_unique.
  - apply last_None in E. destruct (filter_nil_not_elem_of _ l r E Hm Hin).
Qed.

(** A service that was registered is found: in every registry the server can build,
    registering a routine under a network id either leaves the list with exactly that
    routine reachable under that program, version and network id -- the result is then
    the binder's answer, when it is asked -- or is refused, without changing the list,
    because another routine already holds the place. *)
Theorem svc_reg_lookup l xp no_set prog vers d nconf tp rpcb n :
  registry l → reg_netid xp nconf tp = Some n →
  ∃ b l' xp', svc_reg l xp no_set prog vers d nconf tp rpcb = Ret (b, l', xp') ∧
    ((b = binder_answer nconf no_set rpcb ∧
      ∃ r, lk_rec (svc_lookup l' prog vers (Some n)) = Some r ∧ sc_dispatch r = d) ∨
     (b = false ∧ l' = l ∧
      ∃ r, lk_rec (svc_lookup l prog vers (Some n)) = Some r ∧ sc_dispatch r ≠ d)).
Proof.
  intros Hl Hn.
  destruct (svc_reg_cases l xp no_set prog vers d nconf tp rpcb) as (b & l' & xp' & E & H).
  rewrite Hn in H. exists b, l', xp'. split; [done|].
  assert (Hl' : distinct l') by (eapply registry_distinct, registry_reg; done).
  destruct H as [(_ & -> & ->)|(r & Hin & Hm & -> & [[Hd ->]|[Hd ->]])].
  - left. split; [done|]. eexists. split; [apply registry_found; [done|left|]|done].
    rewrite callout_match_iff. cbn. split; [done|by apply bool_decide_eq_true].
  - left. split; [done|]. exists r. split; [by apply registry_found|done].
  - right. split_and!; [done..|]. exists r. split; [by apply registry_found|done].
Qed.

Definition nfs_tcp : netid_t := Some [116; 99; 112].

Lemma svc_reg_lookup_witness :
  ∃ b l' xp', svc_reg [] nfs_tcp true 100003 4 1234 None None false = Ret (b, l', xp') ∧
    ((b = binder_answer None true false ∧
      ∃ r, lk_rec (svc_lookup l' 100003 4 nfs_tcp) = Some r ∧ sc_dispatch r = 1234) ∨
     (b = false ∧ l' = [] ∧
      ∃ r, lk_rec (svc_lookup [] 100003 4 nfs_tcp) = Some r ∧ sc_dispatch r ≠ 1234)).
Proof.
  apply (svc_reg_lookup [] nfs_tcp true 100003 4 1234 None None false [116; 99; 112]);
    [constructor|done].
Defined.

(** Unregistering removes a program version and nothing else: [svc_unreg] ends, no
    lookup of that version succeeds afterwards, and every lookup of another program
    or version finds what it found before. *)
Theorem svc_unreg_spec l prog vers :
  ∃ l', svc_unreg l prog vers = Ret l' ∧
    (∀ netid, lk_rec (svc_lookup l' prog vers netid) = None) ∧
    (∀ p v netid, ¬ (p = prog ∧ v = vers) →
       lk_rec (svc_lookup l' p v netid) = lk_rec (svc_lookup l p v netid)).
Proof.
  eexists. split; [apply svc_unreg_filter|].
  split; intros; rewrite !lk_rec_last.
  - destruct (filter (matches _ _ _) _) as [|r l0] eqn:E; [done|].
    assert (r ∈ r :: l0) as Hr by left. rewrite <- E in Hr.
    apply list_elem_of_filter in Hr as [[Hs _]%callout_match_iff [Hr _]%list_elem_of_filter]. done.
  - f_equal. apply list_filter_filter_l. intros r [[? ?] _]%callout_match_iff [? ?]. naive_solver.
Qed.

Lemma fold_max_le l a v : v ∈ l → v ≤ fold_left Z.max l a.
Proof.
  assert (Hge : ∀ l a, a ≤ fold_left Z.max l a).
  { clear. induction l as [|x l IH]; intros a; cbn; [lia|]. specialize (IH (Z.max a x)). lia. }
  revert a. induction l as [|x l IH]; intros a; [by intros ?%elem_of_nil|].
  intros Hin; inversion Hin; subst; cbn; [|by apply IH]. specialize (Hge l (Z.max a x)). lia.
Qed.

(** The range of versions reported with SVC_LKP_VERS_NOTFOUND has no lower end: both
    ends are the highest version registered for the program, so whenever two versions
    are registered the lowest one is outside the range. *)
Theorem svc_lookup_low_vers l prog vers netid r1 r2 :
  r1 ∈ l → r2 ∈ l → sc_prog r1 = prog → sc_prog r2 = prog → sc_vers r1 < sc_vers r2 →
  let '(_, _, lowvers, highvers) := svc_lookup l prog vers netid in
  lowvers = highvers ∧ sc_vers r1 < lowvers.
Proof.
  intros H1 H2 P1 P2 Hlt. destruct (lookup_state_spec prog vers netid l) as (_ & _ & _ & _ & Hlo & Hhi).
  unfold svc_lookup. rewrite Hlo, Hhi. split; [done|].
  enough (sc_vers r2 ≤ highest_vers prog l) by lia. unfold highest_vers.
  assert (Hin : sc_vers r2 ∈ sc_vers <$> filter (λ r, sc_prog r = prog) l).
  { apply list_elem_of_fmap_2. by apply list_elem_of_filter. }
  by apply fold_max_le.
Qed.

Definition three_versions : list svc_record :=
  [mk_svc_record 100003 4 None 1; mk_svc_record 100003 3 None 1; mk_svc_record 100003 2 None 1].

Lemma svc_lookup_low_vers_witness :
  svc_lookup three_versions 100003 9 None = (SVC_LKP_VERS_NOTFOUND, None, 4, 4) ∧
  let '(_, _, lowvers, highvers) := svc_lookup three_versions 100003 9 None in
  lowvers = highvers ∧ 2 < lowvers.
Proof.
  split; [done|].
  apply (svc_lookup_low_vers three_versions 100003 9 None
           (mk_svc_record 100003 2 None 1) (mk_svc_record 100003 4 None 1));
    [right; right; left|left|done..].
Defined.

(** ** Replies

    The message [SVC_REPLY] is given; sending it is the transport's part. *)

Section Replies.
Context {R : Type}.
Implicit Types m : rpc_msg R.

Definition svc_accept (stat : Z) m : rpc_msg R :=
  let m := set_direction REPLY m in
  let m := set_reply_stat MSG_ACCEPTED m in
  set_ack (set_ar_stat stat (RPCM_ack m)) m.

Definition svc_sendreply m : rpc_msg R := svc_accept SUCCESS m.
Definition svcerr_noproc m : rpc_msg R := svc_accept PROC_UNAVAIL m.
Definition svcerr_decode m : rpc_msg R := svc_accept GARBAGE_ARGS m.
Definition svcerr_systemerr m : rpc_msg R := svc_accept SYSTEM_ERR m.
Definition svcerr_noprog m : rpc_msg R := svc_accept PROG_UNAVAIL m.

Definition svcerr_progvers m (low_vers high_vers : Z) : rpc_msg R :=
  let m := svc_accept PROG_MISMATCH m in
  set_ack (set_ar_vers (mk_versions (u32 low_vers) (u32 high_vers)) (RPCM_ack m)) m.

Definition svcerr_auth m (why : Z) : rpc_msg R :=
  let m := set_direction REPLY m in
  let m := set_reply_stat MSG_DENIED m in
  set_rej (set_rj_why why (set_rj_stat AUTH_ERROR (RPCM_rej m))) m.

Definition svcerr_weakauth m : rpc_msg R := svcerr_auth m AUTH_TOOWEAK.
End Replies.

(** The error replies and what the caller should be told. *)
Inductive svc_error :=
| Err_noproc | Err_decode | Err_systemerr | Err_noprog
| Err_progvers (low high : Z) | Err_auth (why : Z).

Definition error_reply {R} (e : svc_error) (m : rpc_msg R) : rpc_msg R :=
  match e with
  | Err_noproc => svcerr_noproc m
  | Err_decode => svcerr_decode m
  | Err_systemerr => svcerr_systemerr m
  | Err_noprog => svcerr_noprog m
  | Err_progvers lo hi => svcerr_progvers m lo hi
  | Err_auth why => svcerr_auth m why
  end.

Definition error_wf (e : svc_error) : Prop :=
  match e with
  | Err_progvers lo hi => is_u 32 lo ∧ is_u 32 hi
  | Err_auth why => is_s 32 why
  | _ => True
  end.

Definition told (e : svc_error) (err : rpc_err) : Prop :=
  match e with
  | Err_noproc => re_status err = RPC_PROCUNAVAIL
  | Err_decode => re_status err = RPC_CANTDECODEARGS
  | Err_systemerr => re_status err = RPC_SYSTEMERROR
  | Err_noprog => re_status err = RPC_PROGUNAVAIL
  | Err_progvers lo hi => re_status err = RPC_PROGVERSMISMATCH ∧ re_vers err = mk_versions lo hi
  | Err_auth why => re_status err = RPC_AUTHERROR ∧ re_why err = why
  end.

(** A request whose reply fields hold 32-bit values. *)
Definition request_wf {R} (m : rpc_msg R) : Prop :=
  is_u 32 (rm_xid m) ∧ auth_wf (ar_verf (RPCM_ack m)) ∧
  bytes (oa_body (ar_verf (RPCM_ack m))) ∧
  is_u 32 (low (ar_vers (RPCM_ack m))) ∧ is_u 32 (high (ar_vers (RPCM_ack m))) ∧
  is_u 32 (low (rj_vers (RPCM_rej m))) ∧ is_u 32 (high (rj_vers (RPCM_rej m))).

Lemma svc_accept_wf {P R} {OP : XdrOps P} {WP : XdrOutput P} (ar_proc : xdrproc P R) stat m :
  auth_wf (ar_verf (RPCM_ack m)) → bytes (oa_body (ar_verf (RPCM_ack m))) →
  is_u 32 (low (ar_vers (RPCM_ack m))) → is_u 32 (high (ar_vers (RPCM_ack m))) →
  0 < stat < 6 →
  accepted_wf ar_proc (svc_accept stat m) ∧ bytes (oa_body (ar_verf (RPCM_ack (svc_accept stat m)))).
Proof.
  intros Hv Hb Hlo Hhi Hs. split; [|done].
  split; [done|]. split; [done|]. split; [unfold is_s; cbn; lia|]. split; [done|]. split; [done|].
  cbn. unfold SUCCESS. lia.
Qed.

Lemma error_reply_wf {P R} {OP : XdrOps P} {WP : XdrOutput P} (ar_proc : xdrproc P R) e m :
  request_wf m → error_wf e → reply_wf ar_proc (error_reply e m).
Proof.
  intros (Hx & Hv & Hb & Hlo & Hhi & Hlo' & Hhi') He.
  destruct e as [| | | |lo hi|why]; (split; [done|]; split; [done|]).
  1-4: by left; apply svc_accept_wf.
  - left. destruct He as [Hl Hh]. apply (svc_accept_wf ar_proc PROG_MISMATCH
      (set_ack (set_ar_vers (mk_versions (u32 lo) (u32 hi)) (RPCM_ack m)) m)); cbn; try done;
      by apply wrapu_range.
  - right. split_and!; [done|by right|done..].
Qed.

Lemma error_reply_told {R} e (m : rpc_msg R) err :
  error_wf e → told e (_seterr_reply (error_reply e m) err).
Proof.
  destruct e; try done. intros [Hl Hh]. unfold _seterr_reply. cbn. by rewrite !wrapu_id by done.
Qed.

(** The caller learns what went wrong: whichever of the svcerr routines answers a
    request -- no such procedure, undecodable arguments, system error, no such
    program, unsupported version with the range offered, authentication failure with
    its reason -- the reply written by [xdr_reply_encode] and read by
    [xdr_dplx_decode] carries the request's transaction id, and [_seterr_reply] on the
    caller's side reports the matching status, range or reason. *)
Theorem svcerr_told {P Q R S} {OP : XdrOps P} {IP : XdrInput P} {WP : XdrOutput P}
    {OQ : XdrOps Q} {IQ : XdrInput Q} (ar_proc : xdrproc P R) e (m : rpc_msg R)
    (m0 : rpc_msg S) (x : XDR P) w c err :
  request_wf m → error_wf e → msg_ok m0 → out_at x w c → fits (reply_len (error_reply e m)) c →
  ∃ bs x', xdr_reply_encode ar_proc x (error_reply e m) = Ret (true, x') ∧
    out_at x' (w ++ bs) (cap_sub c (Zlen bs)) ∧
    ∀ (y : XDR Q) tl, in_at y 0 (bs ++ tl) →
      ∃ m' y', xdr_dplx_decode y m0 = Ret (true, m', y') ∧ rm_xid m' = rm_xid m ∧
               told e (_seterr_reply m' err).
Proof.
  intros Hm He Hok Hx Hc.
  pose proof (error_reply_wf ar_proc e m Hm He) as Hwf.
  destruct (proj1 (reply_encode_spec ar_proc _ Hwf x w c Hx) Hc) as (bs & x' & E & Hb & Hl & Hx').
  exists bs, x'. rewrite Hl. split_and!; try done. intros y tl Hy.
  destruct (reply_bytes_got ar_proc _ m0 bs err Hwf Hb) as (m' & Hg & Hd & Hxid & _ & Hse).
  destruct (msg_decodes m0 m' bs Hok Hg Hd y tl Hy) as (y' & -> & _). exists m', y'.
  split_and!; [done| |rewrite Hse; by apply error_reply_told]. rewrite Hxid. by destruct e.
Qed.

Lemma svcerr_told_witness :
  ∃ bs x', xdr_reply_encode xdr_void (mem_writer 64) (error_reply (Err_progvers 2 4) msg_zero) =
      Ret (true, x') ∧
    out_at x' ([] ++ bs) (cap_sub (Some 64) (Zlen bs)) ∧
    ∀ (y : XDR mem_priv) tl, in_at y 0 (bs ++ tl) →
      ∃ m' y', xdr_dplx_decode y msg_zero = Ret (true, m', y') ∧ rm_xid m' = rm_xid msg_zero ∧
               told (Err_progvers 2 4) (_seterr_reply m' (mk_err 0 0 (mk_versions 0 0) 0 0)).
Proof.
  apply (svcerr_told xdr_void (Err_progvers 2 4) msg_zero msg_zero (mem_writer 64) [] (Some 64)
           (mk_err 0 0 (mk_versions 0 0) 0 0));
    [|by vm_compute|apply msg_zero_ok|apply mem_writer_at|by vm_compute].
  split_and!; try by vm_compute. by repeat constructor.
Defined.
