(* ===== verification/SvcAuth.v ===== *)
(** * Server-side authentication dispatch (src/svc_auth.c, src/svc_auth_none.c,
      src/svc_auth_tls.c)

    The built-in flavours and the list of flavours a program registers.  The handler
    of RPCSEC_GSS, the sending of a reply and the start of a TLS session are
    parameters; the AUTH_SYS handler is the one of SvcAuthUnix.v. *)
From stdpp Require Import base gmap list.
From Stdlib Require Import ZArith Lia.
From S2P Require Import Prelude Machine XdrHandle XdrStream XdrMem XdrInline XdrWire XdrCodecs XdrStruct RpcMsg Protocols ProtocolFacts SvcAuthUnix RpcMsgFacts RpcMsgTheorems SvcCallout.

(** Authentication flavours. *)
Definition AUTH_NONE : Z := 0.
Definition AUTH_SYS : Z := 1.
Definition AUTH_SHORT : Z := 2.
Definition RPCSEC_GSS : Z := 6.
Definition AUTH_TLS : Z := 7.

Definition NULLPROC : Z := 0.
Definition XPRT_DIED : Z := 3.

(** [rq_auth]: the operations of AUTH_NONE, or others at an address. *)
Inductive SVCAUTH := svc_auth_none | svc_auth_at (p : Z).

Record xp_tls := mk_tls { tls_enabled : bool; tls_established : bool; tls_pending : bool }.

(** The request.  [rq_cred_body] is the area the AUTH_SYS credential is cooked into:
    the structure, and the arrays for the machine name and the groups as they are
    before authentication; afterwards their contents are read through the structure.
    [rq_ap1] is the sequence number RPCSEC_GSS keeps for the reply. *)
Record svc_req (R : Type) := mk_req {
  rq_msg : rpc_msg R;
  rq_auth : option SVCAUTH;
  area_aup : authunix_parms;
  area_machname : list Z;
  area_gids : list Z;
  rq_tls : xp_tls;
  rq_ap1 : Z;
}.
Arguments mk_req {R}.
Arguments rq_msg {R}.
Arguments rq_auth {R}.
Arguments area_aup {R}.
Arguments area_machname {R}.
Arguments area_gids {R}.
Arguments rq_tls {R}.
Arguments rq_ap1 {R}.

Section Assign.
Context {R : Type}.
Implicit Types req : svc_req R.

Definition set_msg (m : rpc_msg R) req : svc_req R :=
  mk_req m (rq_auth req) (area_aup req) (area_machname req) (area_gids req) (rq_tls req) (rq_ap1 req).
Definition set_auth (a : SVCAUTH) req : svc_req R :=
  mk_req (rq_msg req) (Some a) (area_aup req) (area_machname req) (area_gids req) (rq_tls req) (rq_ap1 req).
Definition set_aup (a : authunix_parms) req : svc_req R :=
  mk_req (rq_msg req) (rq_auth req) a (area_machname req) (area_gids req) (rq_tls req) (rq_ap1 req).
Definition set_tls (t : xp_tls) req : svc_req R :=
  mk_req (rq_msg req) (rq_auth req) (area_aup req) (area_machname req) (area_gids req) t (rq_ap1 req).
Definition rq_verf req : opaque_auth := ar_verf (RPCM_ack (rq_msg req)).
Definition set_rq_verf (v : opaque_auth) req : svc_req R :=
  set_msg (set_ack (set_ar_verf v (RPCM_ack (rq_msg req))) (rq_msg req)) req.
End Assign.

(** The handler of a flavour. *)
Abbreviation handler R := (svc_req R → out (Z * svc_req R)).

Record authsvc (R : Type) := mk_authsvc { as_flavor : Z; as_handler : handler R }.
Arguments mk_authsvc {R}.
Arguments as_flavor {R}.
Arguments as_handler {R}.

Section Auth.
Context {R : Type}.
Implicit Types req : svc_req R.
Implicit Types Auths : list (authsvc R).

(** The build's options. *)
Variables USE_TLS HAVE_GSSAPI : bool.
(** The address of [cb_cred.oa_body]. *)
Variable addr : Z.
(** [_svcauth_gss], which may also tell the caller not to dispatch. *)
Variable _svcauth_gss : svc_req R → bool → out (Z * svc_req R * bool).
(** The transport's reply routine, and [svc_tls_init_xprt]. *)
Variable SVC_REPLY : svc_req R → Z * svc_req R.
Variable svc_tls_init_xprt : xp_tls → bool * xp_tls.
(** The value of [ar_results] when [where] is NULL and [proc] is [xdr_void]. *)
Variable no_results : R.

Definition _svcauth_none req : Z * svc_req R := (AUTH_OK, set_auth svc_auth_none req).

(** [_svcauth_unix] on the request. *)
Definition svcauth_unix_rq req : out (Z * svc_req R) :=
  let req := set_auth svc_auth_none req in
  let m := rq_msg req in
  let! (stat, aup, verf) :=
    _svcauth_unix addr (cb_cred m) (cb_verf m) (area_aup req) (area_machname req) (area_gids req)
      (rq_verf req) in
  Ret (stat, set_rq_verf verf (set_aup aup req)).

Definition svcauth_short_rq req : Z * svc_req R := (_svcauth_short, set_auth svc_auth_none req).

(** ** AUTH_TLS *)

(** The token STARTTLS. *)
Definition STARTTLS_TOKEN : list Z := [83; 84; 65; 82; 84; 84; 76; 83].

Definition svcauth_tls_send_response req : out (bool * svc_req R) :=
  let verf := set_length (Zlen STARTTLS_TOKEN) (set_flavor AUTH_NONE (rq_verf req)) in
  let! body := overlay (oa_body verf) STARTTLS_TOKEN in
  let req := set_rq_verf (set_body body verf) req in
  let ack := RPCM_ack (rq_msg req) in
  let m := set_ack (set_ar_results no_results (set_ar_stat SUCCESS ack)) (rq_msg req) in
  let m := set_reply_stat MSG_ACCEPTED (set_direction REPLY m) in
  let '(rc, req) := SVC_REPLY (set_msg (svc_sendreply m) req) in
  let res := negb (XPRT_DIED <=? rc) in
  let '(res, tls) := svc_tls_init_xprt (rq_tls req) in
  Ret (res, set_tls tls req).

Definition svcauth_tls_checks req : Z * svc_req R :=
  let m := rq_msg req in
  let rc := AUTH_OK in
  if negb (oa_length (cb_cred m) =? 0) then (AUTH_BADCRED, req) else
  let rc := if negb (oa_flavor (cb_cred m) =? AUTH_TLS) then AUTH_BADCRED else rc in
  let rc := if negb (oa_flavor (cb_verf m) =? AUTH_NONE) || negb (oa_length (cb_verf m) =? 0)
            then AUTH_BADCRED else rc in
  let t := rq_tls req in
  if tls_enabled t || tls_established t then (AUTH_BADCRED, req) else
  let rc := if negb (cb_proc m =? NULLPROC) then AUTH_BADCRED else rc in
  (rc, set_tls (mk_tls (tls_enabled t) (tls_established t) true) req).

Definition _svcauth_tls req : out (Z * svc_req R) :=
  let '(rslt, req) := svcauth_tls_checks req in
  if rslt =? AUTH_OK then
    let! (ok, req) := svcauth_tls_send_response (set_auth svc_auth_none req) in
    Ret (if ok : bool then rslt else AUTH_TOOWEAK, req)
  else Ret (rslt, req).

(** ** The switch *)

(** [for (asp = Auths; asp; asp = asp->next) if (asp->flavor == cred_flavor)] *)
Fixpoint auths_find Auths (cred_flavor : Z) : option (handler R) :=
  match Auths with
  | [] => None
  | asp :: Auths =>
      if as_flavor asp =? cred_flavor then Some (as_handler asp) else auths_find Auths cred_flavor
  end.

Definition svc_auth_authenticate Auths req (no_dispatch : bool) : out (Z * svc_req R * bool) :=
  let req := set_rq_verf _null_auth req in
  let cred_flavor := oa_flavor (cb_cred (rq_msg req)) in
  let req := set_rq_verf (set_flavor cred_flavor (rq_verf req)) req in
  if USE_TLS && (cred_flavor =? AUTH_TLS) then
    let! (rslt, req) := _svcauth_tls req in Ret (rslt, req, no_dispatch)
  else if HAVE_GSSAPI && (cred_flavor =? RPCSEC_GSS) then _svcauth_gss req no_dispatch
  else if cred_flavor =? AUTH_NONE then
    let '(rslt, req) := _svcauth_none req in Ret (rslt, req, no_dispatch)
  else if cred_flavor =? AUTH_SYS then
    let! (rslt, req) := svcauth_unix_rq req in Ret (rslt, req, no_dispatch)
  else if cred_flavor =? AUTH_SHORT then
    let '(rslt, req) := svcauth_short_rq req in Ret (rslt, req, no_dispatch)
  else
    match auths_find Auths cred_flavor with
    | Some h => let! (rslt, req) := h req in Ret (rslt, req, no_dispatch)
    | None => Ret (AUTH_REJECTEDCRED, req, no_dispatch)
    end.

(** The cases of the switch in [svc_auth_reg]. *)
Definition reserved (cred_flavor : Z) : bool :=
  (cred_flavor =? AUTH_NONE) || (cred_flavor =? AUTH_SYS) ||
  (USE_TLS && (cred_flavor =? AUTH_TLS)) || (cred_flavor =? AUTH_SHORT) ||
  (cred_flavor =? RPCSEC_GSS).

Definition svc_auth_reg Auths (cred_flavor : Z) (h : handler R) : Z * list (authsvc R) :=
  if reserved cred_flavor then (1, Auths) else
  match auths_find Auths cred_flavor with
  | Some _ => (1, Auths)
  | None => (0, mk_authsvc cred_flavor h :: Auths)
  end.
End Auth.

(** ** Registered flavours *)

Section Registered.
Context {R : Type}.
Implicit Types req : svc_req R.
Variables USE_TLS HAVE_GSSAPI : bool.

(** The list after a program's registrations, in order. *)
Definition register_all (regs : list (Z * handler R)) : list (authsvc R) :=
  fold_left (λ Auths '(f, h), (svc_auth_reg USE_TLS Auths f h).2) regs [].

(** What the registrations promise: the first one of a flavour counts. *)
Definition first_reg (regs : list (Z * handler R)) (f : Z) : option (handler R) :=
  snd <$> List.find (λ '(g, _), g =? f) regs.

Lemma auths_find_reg (Auths : list (authsvc R)) f (h : handler R) g :
  auths_find (svc_auth_reg USE_TLS Auths f h).2 g =
  match auths_find Auths g with
  | Some h' => Some h'
  | None => if (f =? g) && negb (reserved USE_TLS f) then Some h else None
  end.
Proof.
  unfold svc_auth_reg. destruct (reserved USE_TLS f); cbn [negb snd]; rewrite ?andb_false_r, ?andb_true_r.
  { by destruct (auths_find Auths g). }
  destruct (auths_find Auths f) eqn:Ef; cbn [snd auths_find as_flavor as_handler].
  all: destruct (Z.eqb_spec f g) as [->|]; rewrite ?Ef; try done; by destruct (auths_find Auths g).
Qed.

Lemma auths_find_all (regs : list (Z * handler R)) (Auths : list (authsvc R)) g :
  auths_find (fold_left (λ Auths '(f, h), (svc_auth_reg USE_TLS Auths f h).2) regs Auths) g =
  match auths_find Auths g with
  | Some h => Some h
  | None => if reserved USE_TLS g then None else first_reg regs g
  end.
Proof.
  revert Auths. induction regs as [|[f h] regs IH]; intros Auths; cbn [fold_left].
  { unfold first_reg. cbn. destruct (auths_find Auths g); [done|]. by destruct (reserved USE_TLS g). }
  rewrite IH, auths_find_reg. destruct (auths_find Auths g); [done|].
  unfold first_reg. cbn. destruct (Z.eqb_spec f g) as [->|]; cbn; [|done].
  by destruct (reserved USE_TLS g).
Qed.

(** The request a handler is given: its reply carries an empty verifier. *)
Definition fresh_verf req : svc_req R :=
  set_rq_verf (set_flavor (oa_flavor (cb_cred (rq_msg req))) _null_auth) req.

Lemma authenticate_eq addr gss reply init nores Auths req nd :
  svc_auth_authenticate USE_TLS HAVE_GSSAPI addr gss reply init nores Auths req nd =
  let f := oa_flavor (cb_cred (rq_msg req)) in
  let req := fresh_verf req in
  if USE_TLS && (f =? AUTH_TLS) then
    let! (rslt, req) := _svcauth_tls reply init nores req in Ret (rslt, req, nd)
  else if HAVE_GSSAPI && (f =? RPCSEC_GSS) then gss req nd
  else if f =? AUTH_NONE then Ret (AUTH_OK, set_auth svc_auth_none req, nd)
  else if f =? AUTH_SYS then let! (rslt, req) := svcauth_unix_rq addr req in Ret (rslt, req, nd)
  else if f =? AUTH_SHORT then Ret (AUTH_REJECTEDCRED, set_auth svc_auth_none req, nd)
  else match auths_find Auths f with
       | Some h => let! (rslt, req) := h req in Ret (rslt, req, nd)
       | None => Ret (AUTH_REJECTEDCRED, req, nd)
       end.
Proof. done. Qed.

(** Registered authenticators: after any registrations, a request with a flavour
    of the library's own is treated as if nothing had been registered, and one with
    another flavour is passed, with an empty reply verifier, to the handler registered
    first for it, or refused when there is none.  A further registration is refused
    exactly for the library's flavours and those that have a handler. *)
Theorem svc_auth_first_wins addr gss reply init nores (regs : list (Z * handler R)) req nd f (h : handler R) :
  let authenticate := svc_auth_authenticate USE_TLS HAVE_GSSAPI addr gss reply init nores in
  let Auths := register_all regs in
  let g := oa_flavor (cb_cred (rq_msg req)) in
  authenticate Auths req nd =
    (if reserved USE_TLS g then authenticate [] req nd else
     match first_reg regs g with
     | Some h => let! (rslt, req) := h (fresh_verf req) in Ret (rslt, req, nd)
     | None => Ret (AUTH_REJECTEDCRED, fresh_verf req, nd)
     end) ∧
  ((svc_auth_reg USE_TLS Auths f h).1 = 1 ↔
   reserved USE_TLS f = true ∨ is_Some (first_reg regs f)).
Proof.
  intros authenticate Auths g. split.
  - unfold authenticate. rewrite !authenticate_eq. fold g. cbv zeta.
    unfold Auths, register_all. rewrite auths_find_all. cbn [auths_find].
    unfold reserved. destruct (USE_TLS && (g =? AUTH_TLS)); [by rewrite orb_true_r|].
    destruct (Z.eqb_spec g RPCSEC_GSS) as [->|]; [by rewrite !orb_true_r, andb_true_r; destruct HAVE_GSSAPI|].
    rewrite andb_false_r. destruct (g =? AUTH_NONE); [done|]. destruct (g =? AUTH_SYS); [done|].
    by destruct (g =? AUTH_SHORT).
  - unfold svc_auth_reg, Auths, register_all. rewrite auths_find_all. cbn [auths_find].
    destruct (reserved USE_TLS f); [naive_solver|].
    destruct (first_reg regs f) eqn:E; cbn; [|naive_solver]. split; [|done]. intros _. right. by eexists.
Qed.
End Registered.

(** ** From the wire to the verdict *)

(** The arrays of the area have the sizes declared. *)
Definition area_ok {R} (req : svc_req R) : Prop :=
  Zlen (area_machname req) = MAX_MACHINE_NAME + 1 ∧ Zlen (area_gids req) = NGRPS.

Lemma call_got_cred_bytes {R} (m0 m : rpc_msg R) w skip :
  msg_got m0 m w skip → rm_direction m = CALL → bytes (oa_body (cb_cred m0)) →
  bytes (oa_body (cb_cred m)).
Proof.
  intros [xid m' w' Hx Hg|xid m' w' skip' Hx Hg] Hd Hb.
  - destruct Hg as [prog vers proc cred verf wc wv _ _ _ Hgc _]. cbn.
    destruct Hgc as (fl & bs & wb & _ & Hbs & _ & _ & _ & ->). cbn.
    apply bytes_app. split; [done|]. by apply Forall_drop.
  - by destruct Hg.
Qed.

(** What [stat] and the request left say about a credential of one of the flavours
    that need nothing from outside this library. *)
Definition verdict {R} (m : rpc_msg R) (stat : Z) (req : svc_req R) : Prop :=
  let f := oa_flavor (cb_cred m) in
  let empty := set_flavor f _null_auth in
  (f = AUTH_NONE ∧ stat = AUTH_OK ∧ rq_verf req = empty) ∨
  (f = AUTH_SYS ∧ unix_verdict (oa_body (cb_cred m)) (oa_length (cb_cred m)) stat (area_aup req) ∧
     rq_verf req = if stat =? AUTH_OK then cb_verf m else empty) ∨
  (f ≠ AUTH_NONE ∧ f ≠ AUTH_SYS ∧ stat = AUTH_REJECTEDCRED ∧ rq_verf req = empty).

Lemma null_verf_wf f : is_s 32 f → auth_wf (set_flavor f _null_auth).
Proof. intros Hf. split; [done|]. split; [done|]. unfold MAX_AUTH_BYTES. cbn. lia. Qed.

Lemma verdict_verf_wf {R} (m : rpc_msg R) stat req :
  verdict m stat req → auth_wf (cb_cred m) → auth_wf (cb_verf m) → auth_wf (rq_verf req).
Proof.
  intros [(_ & _ & ->)|[(_ & _ & ->)|(_ & _ & _ & ->)]] (_ & Hf & _) Hv; try case_match; try done;
    by apply null_verf_wf.
Qed.

Section Receive.
Context {R : Type}.
Implicit Types req : svc_req R.
Variables USE_TLS HAVE_GSSAPI : bool.
Variable addr : Z.

(** A flavour handled without the GSS-API, TLS or a registered handler. *)
Definition plain (Auths : list (authsvc R)) (f : Z) : Prop :=
  USE_TLS && (f =? AUTH_TLS) = false ∧ HAVE_GSSAPI && (f =? RPCSEC_GSS) = false ∧
  auths_find Auths f = None.

Lemma authenticate_verdict gss reply init nores Auths req nd :
  unix_pre addr (cb_cred (rq_msg req)) (area_machname req) (area_gids req) →
  plain Auths (oa_flavor (cb_cred (rq_msg req))) →
  ∃ stat req',
    svc_auth_authenticate USE_TLS HAVE_GSSAPI addr gss reply init nores Auths req nd =
      Ret (stat, req', nd) ∧
    verdict (rq_msg req) stat req' ∧ rm_xid (rq_msg req') = rm_xid (rq_msg req) ∧
    cb_prog (rq_msg req') = cb_prog (rq_msg req) ∧ cb_vers (rq_msg req') = cb_vers (rq_msg req) ∧
    cb_proc (rq_msg req') = cb_proc (rq_msg req).
Proof.
  intros Hpre (H1 & H2 & H3). rewrite authenticate_eq. cbv zeta. rewrite H1, H2, H3.
  unfold verdict. destruct (Z.eqb_spec (oa_flavor (cb_cred (rq_msg req))) AUTH_NONE) as [E|E].
  { do 2 eexists. split; [done|]. split; [by left|done]. }
  destruct (Z.eqb_spec (oa_flavor (cb_cred (rq_msg req))) AUTH_SYS) as [E'|E'].
  - unfold svcauth_unix_rq. cbv zeta.
    destruct (svcauth_unix_inline addr (cb_cred (rq_msg req)) (cb_verf (rq_msg req)) (area_aup req)
                (area_machname req) (area_gids req)
                (set_flavor (oa_flavor (cb_cred (rq_msg req))) _null_auth) Hpre)
      as (stat & aup' & Eu & Hv).
    change (_svcauth_unix _ _ _ _ _ _ _) with
      (_svcauth_unix addr (cb_cred (rq_msg req)) (cb_verf (rq_msg req)) (area_aup req)
         (area_machname req) (area_gids req)
         (set_flavor (oa_flavor (cb_cred (rq_msg req))) _null_auth)).
    rewrite Eu. cbn [obind]. do 2 eexists. split; [done|]. split; [|done].
    right; left. split; [done|]. split; [exact Hv|]. cbn. by destruct (stat =? AUTH_OK).
  - destruct (oa_flavor (cb_cred (rq_msg req)) =? AUTH_SHORT);
      (do 2 eexists; split; [done|]; split; [by right; right|done]).
Qed.

(** C29. Any bytes a peer sends lead to a verdict: the call header is decoded from an
    arbitrary record without touching memory outside it, and when that succeeds a
    credential of a flavour that needs neither the GSS-API, TLS nor a registered
    handler is judged without touching memory outside the request.  AUTH_NONE is
    accepted; AUTH_SYS is accepted exactly for a well-formed credential with known
    ids; everything else is refused.  The reply verifier is one the reply encoder
    accepts, and the call's numbers are left as received. *)
Theorem receive_call_verdict {Q} {OQ : XdrOps Q} {IQ : XdrInput Q} gss reply init nores
    (Auths : list (authsvc R)) req (m0 : rpc_msg R) (x : XDR Q) l nd :
  msg_ok m0 → bytes (oa_body (cb_cred m0)) → in_at x 0 l → area_ok req →
  0 < addr ∧ addr mod 4 = 0 →
  ∃ b m x', xdr_dplx_decode x m0 = Ret (b, m, x') ∧
    (b = true → rm_direction m = CALL → plain Auths (oa_flavor (cb_cred m)) →
     ∃ stat req',
       svc_auth_authenticate USE_TLS HAVE_GSSAPI addr gss reply init nores Auths (set_msg m req) nd =
         Ret (stat, req', nd) ∧
       verdict m stat req' ∧ auth_wf (rq_verf req') ∧ rm_xid (rq_msg req') = rm_xid m ∧
       cb_prog (rq_msg req') = cb_prog m ∧ cb_vers (rq_msg req') = cb_vers m ∧
       cb_proc (rq_msg req') = cb_proc m).
Proof.
  intros Hok Hb Hx [Hmn Hgi] Haddr. destruct (msg_decoded m0 x l Hok Hx)
    as [(m & w & skip & tl & x' & _ & Hg & E & _)|(m & x' & E)]; (eexists; exists m, x'; split; [exact E|]); [|done].
  intros _ Hd Hp. destruct (msg_got_wf m0 m w skip Hok Hg) as [_ [(_ & _ & Hc & Hv)|[Hd' _]]];
    [|rewrite Hd in Hd'; discriminate].
  destruct (authenticate_verdict gss reply init nores Auths (set_msg m req) nd)
    as (stat & req' & Ea & Hver & Hrest); [|done|].
  - constructor; cbn; try done; [|apply Hc].
    split; [apply Hc|by eapply call_got_cred_bytes].
  - exists stat, req'. split; [done|]. split; [done|]. split; [by eapply verdict_verf_wf|done].
Qed.
End Receive.

(** User 1000's call of procedure 1 of version 4 of program 100003. *)
Definition sys_call : list Z :=
  be32 9 ++ be32 0 ++ be32 2 ++ be32 100003 ++ be32 4 ++ be32 1 ++
  (be32 1 ++ be32 28 ++ unix_wire 7 [104; 105] [0; 0] 1000 100 [5]) ++ be32 0 ++ be32 0.

Definition req_zero : svc_req unit :=
  mk_req msg_zero None aup_zero (replicate 256 0) (replicate 16 0) (mk_tls false false false) 0.

Lemma receive_call_verdict_witness :
  let gss := (λ req nd, Ret (AUTH_BADCRED, req, nd)) in
  let reply := (λ req, (0, req)) in
  let init := (λ t, (false, t)) in
  ∃ b m x', xdr_dplx_decode (mem_reader sys_call) msg_zero = Ret (b, m, x') ∧
    (b = true → rm_direction m = CALL → plain (R := unit) false true [] (oa_flavor (cb_cred m)) →
     ∃ stat req',
       svc_auth_authenticate false true 16 gss reply init tt [] (set_msg m req_zero) false =
         Ret (stat, req', false) ∧
       verdict m stat req' ∧ auth_wf (rq_verf req') ∧ rm_xid (rq_msg req') = rm_xid m ∧
       cb_prog (rq_msg req') = cb_prog m ∧ cb_vers (rq_msg req') = cb_vers m ∧
       cb_proc (rq_msg req') = cb_proc m).
Proof.
  intros gss reply init.
  apply (receive_call_verdict false true 16 gss reply init tt [] req_zero msg_zero
           (mem_reader sys_call) sys_call false); [apply msg_zero_ok|by apply bytes_replicate| |done|done].
  apply mem_reader_at. unfold sys_call, unix_wire.
  repeat (apply bytes_app; split); try apply be32_bytes; by repeat constructor.
Defined.

(** ** AUTH_TLS *)

(** The answer that is sent. *)
Definition starttls_answer {R} (nores : R) (req : svc_req R) : svc_req R :=
  let req := set_rq_verf (mk_auth AUTH_NONE 8 (STARTTLS_TOKEN ++ drop 8 (oa_body (rq_verf req)))) req in
  set_msg (svc_sendreply (set_ack (set_ar_results nores (RPCM_ack (rq_msg req))) (rq_msg req))) req.

Lemma tls_response {R} reply init (nores : R) req :
  auth_ok (rq_verf req) →
  svcauth_tls_send_response reply init nores req =
  let '(_, sent) := reply (starttls_answer nores req) in
  let '(res, tls) := init (rq_tls sent) in Ret (res, set_tls tls sent).
Proof.
  intros Hv. unfold svcauth_tls_send_response. cbv zeta. unfold overlay.
  rewrite (proj2 (Nat.leb_le _ _)); [done|]. unfold auth_ok, MAX_AUTH_BYTES in Hv. cbn. lia.
Qed.

(** An AUTH_TLS probe is answered with the STARTTLS verifier and accepted exactly
    when it has an empty credential and an AUTH_NONE verifier, calls the null
    procedure, comes outside a TLS session and the session can be started; every other
    probe is refused without sending anything.  A failure to send the answer is not
    noticed: the verdict is that of the session's start. *)
Theorem svcauth_tls_verdict {R} reply init (nores : R) (req : svc_req R) :
  auth_ok (rq_verf req) → oa_flavor (cb_cred (rq_msg req)) = AUTH_TLS →
  let m := rq_msg req in
  let t := rq_tls req in
  let probe := oa_length (cb_cred m) = 0 ∧ oa_flavor (cb_verf m) = AUTH_NONE ∧
               oa_length (cb_verf m) = 0 ∧ cb_proc m = NULLPROC ∧
               tls_enabled t = false ∧ tls_established t = false in
  ∃ stat req', _svcauth_tls reply init nores req = Ret (stat, req') ∧
    (probe →
       ∃ sent, rq_tls sent = mk_tls false false true ∧
         rq_verf sent = mk_auth AUTH_NONE 8 (STARTTLS_TOKEN ++ drop 8 (oa_body (rq_verf req))) ∧
         rm_xid (rq_msg sent) = rm_xid m ∧
         ar_stat (RPCM_ack (rq_msg sent)) = SUCCESS ∧ rp_stat (rm_reply (rq_msg sent)) = MSG_ACCEPTED ∧
         stat = (if (init (rq_tls (reply sent).2)).1 then AUTH_OK else AUTH_TOOWEAK)) ∧
    (¬ probe → stat = AUTH_BADCRED ∧ rq_msg req' = m).
Proof.
  intros Hv Hf m t probe. unfold _svcauth_tls, svcauth_tls_checks. rewrite Hf. fold m t.
  destruct (Z.eqb_spec (oa_length (cb_cred m)) 0) as [E1|E1]; cbn [negb];
    [|do 2 eexists; split; [done|]; unfold probe; split; [by intros (? & _)|done]].
  destruct (Z.eqb_spec (oa_flavor (cb_verf m)) AUTH_NONE) as [E2|E2];
    destruct (Z.eqb_spec (oa_length (cb_verf m)) 0) as [E3|E3];
    destruct (Z.eqb_spec (cb_proc m) NULLPROC) as [E4|E4];
    destruct (tls_enabled t) eqn:E5; destruct (tls_established t) eqn:E6; cbn [negb orb Z.eqb];
    try (do 2 eexists; split; [done|]; split; [unfold probe; intuition congruence|done]).
  rewrite tls_response by exact Hv.
  destruct (reply _) as [rc sent'] eqn:Er. destruct (init (rq_tls sent')) as [res tls] eqn:Ei.
  do 2 eexists. split; [done|]. split; [|by intros []; split_and!]. intros _.
  exists (starttls_answer nores (set_auth svc_auth_none (set_tls (mk_tls false false true) req))).
  do 5 (split; [done|]). rewrite Er. cbn. by rewrite Ei.
Qed.

Definition tls_probe : svc_req unit :=
  set_msg (set_cred (set_flavor AUTH_TLS _null_auth) msg_zero) req_zero.

(** The reply cannot be sent, and the probe is accepted. *)
Lemma svcauth_tls_verdict_witness :
  let reply := (λ req, (XPRT_DIED, req)) in
  let init := (λ t, (true, t)) in
  ∃ stat req', _svcauth_tls reply init tt tls_probe = Ret (stat, req') ∧ stat = AUTH_OK.
Proof.
  intros reply init.
  destruct (svcauth_tls_verdict reply init tt tls_probe) as (stat & req' & E & Hp & _); [done|done|].
  exists stat, req'. split; [done|].
  destruct Hp as (sent & _ & _ & _ & _ & _ & ->); [|done]. by vm_compute.
Defined.
