(* ===== verification/RbTree.v ===== *)
(** * Red-black trees with parent pointers (src/rbtree.c, ntirpc/misc/rbtree.h)

    The nodes are a finite map from addresses; a null pointer is [None] and following it,
    or an address with no node, is [Ub].  Every read and write of a field is one step, in
    the order of the source, so that a pointer changed by one statement is seen by the
    next. *)
From stdpp Require Import base gmap list.
From Stdlib Require Import ZArith Lia.
From S2P Require Import Prelude Machine.

Abbreviation nptr := (option Z).

(** [red] is only ever set to 0 or 1. *)
Record opr_rbtree_node := mk_node {
  n_left : nptr; n_right : nptr; n_parent : nptr; n_red : bool; n_gen : Z;
}.

Definition set_left (v : nptr) (n : opr_rbtree_node) := mk_node v (n_right n) (n_parent n) (n_red n) (n_gen n).
Definition set_right (v : nptr) (n : opr_rbtree_node) := mk_node (n_left n) v (n_parent n) (n_red n) (n_gen n).
Definition set_parent (v : nptr) (n : opr_rbtree_node) := mk_node (n_left n) (n_right n) v (n_red n) (n_gen n).
Definition set_red (b : bool) (n : opr_rbtree_node) := mk_node (n_left n) (n_right n) (n_parent n) b (n_gen n).
Definition set_gen (g : Z) (n : opr_rbtree_node) := mk_node (n_left n) (n_right n) (n_parent n) (n_red n) g.

(** The tree's head and the memory that holds the nodes. *)
Record opr_rbtree := mk_rb {
  rb_root : nptr; rb_size : Z; rb_gen : Z; rb_nodes : gmap Z opr_rbtree_node;
}.

Definition set_root (v : nptr) (s : opr_rbtree) := mk_rb v (rb_size s) (rb_gen s) (rb_nodes s).
Definition set_size (v : Z) (s : opr_rbtree) := mk_rb (rb_root s) v (rb_gen s) (rb_nodes s).
Definition set_hgen (v : Z) (s : opr_rbtree) := mk_rb (rb_root s) (rb_size s) v (rb_nodes s).
Definition set_nodes (v : gmap Z opr_rbtree_node) (s : opr_rbtree) := mk_rb (rb_root s) (rb_size s) (rb_gen s) v.

(** [p->f] and [p->f = v]. *)
Definition rd {A} (s : opr_rbtree) (p : Z) (f : opr_rbtree_node → A) : out A :=
  let! n := access (rb_nodes s !! p) in Ret (f n).
Definition wr (s : opr_rbtree) (p : Z) (f : opr_rbtree_node → opr_rbtree_node) : out opr_rbtree :=
  let! n := access (rb_nodes s !! p) in Ret (set_nodes (<[p := f n]> (rb_nodes s)) s).

(** [if (p) p->f = v] *)
Definition wr_opt (s : opr_rbtree) (p : nptr) (f : opr_rbtree_node → opr_rbtree_node) : out opr_rbtree :=
  match p with Some p => wr s p f | None => Ret s end.

(** [p && p->red] *)
Definition is_red (s : opr_rbtree) (p : nptr) : out bool :=
  match p with Some p => rd s p n_red | None => Ret false end.

Definition opr_rbtree_node_valid (s : opr_rbtree) (p : Z) : out bool :=
  let! g := rd s p n_gen in Ret (negb (g =? 0)).
Definition opr_rbtree_size (s : opr_rbtree) : Z := rb_size s.

(** A loop that follows pointers visits at most every node once. *)
Definition node_fuel (s : opr_rbtree) : nat := S (size (rb_nodes s)).

Definition update_parent_ptr (head : opr_rbtree) (old : Z) (replacement : nptr) : out opr_rbtree :=
  let! pp := rd head old n_parent in
  match pp with
  | Some pp =>
      let! l := rd head pp n_left in
      if decide (l = Some old) then wr head pp (set_left replacement)
      else wr head pp (set_right replacement)
  | None => Ret (set_root replacement head)
  end.

Definition opr_rbtree_init (nodes : gmap Z opr_rbtree_node) : opr_rbtree := mk_rb None 0 0 nodes.

(** ** Walking the tree *)

(** [while (node->left != NULL) node = node->left;] and its mirror image. *)
Fixpoint leftmost (fuel : nat) (s : opr_rbtree) (node : Z) : out Z :=
  let! l := rd s node n_left in
  match l with
  | None => Ret node
  | Some l => match fuel with O => OutOfFuel | S fuel => leftmost fuel s l end
  end.

Fixpoint rightmost (fuel : nat) (s : opr_rbtree) (node : Z) : out Z :=
  let! r := rd s node n_right in
  match r with
  | None => Ret node
  | Some r => match fuel with O => OutOfFuel | S fuel => rightmost fuel s r end
  end.

Definition opr_rbtree_first (head : opr_rbtree) : out nptr :=
  match rb_root head with
  | None => Ret None
  | Some node => let! n := leftmost (node_fuel head) head node in Ret (Some n)
  end.

Definition opr_rbtree_last (head : opr_rbtree) : out nptr :=
  match rb_root head with
  | None => Ret None
  | Some node => let! n := rightmost (node_fuel head) head node in Ret (Some n)
  end.

(** [while ((parent = node->parent) != NULL && node == parent->right) node = parent;] *)
Fixpoint climb_right (fuel : nat) (s : opr_rbtree) (node : Z) : out nptr :=
  let! parent := rd s node n_parent in
  match parent with
  | None => Ret None
  | Some p =>
      let! r := rd s p n_right in
      if decide (r = Some node)
      then match fuel with O => OutOfFuel | S fuel => climb_right fuel s p end
      else Ret (Some p)
  end.

Fixpoint climb_left (fuel : nat) (s : opr_rbtree) (node : Z) : out nptr :=
  let! parent := rd s node n_parent in
  match parent with
  | None => Ret None
  | Some p =>
      let! l := rd s p n_left in
      if decide (l = Some node)
      then match fuel with O => OutOfFuel | S fuel => climb_left fuel s p end
      else Ret (Some p)
  end.

Definition opr_rbtree_next (s : opr_rbtree) (node : Z) : out nptr :=
  let! r := rd s node n_right in
  match r with
  | Some r => let! n := leftmost (node_fuel s) s r in Ret (Some n)
  | None => climb_right (node_fuel s) s node
  end.

Definition opr_rbtree_prev (s : opr_rbtree) (node : Z) : out nptr :=
  let! l := rd s node n_left in
  match l with
  | Some l => let! n := rightmost (node_fuel s) s l in Ret (Some n)
  | None => climb_left (node_fuel s) s node
  end.

(** ** Rotations *)

Definition rotateright (head : opr_rbtree) (node : Z) : out opr_rbtree :=
  let! l := rd head node n_left in
  let! lft := access l in
  let! lr := rd head lft n_right in
  let! head := wr head node (set_left lr) in
  let! lr := rd head lft n_right in
  let! head := wr_opt head lr (set_parent (Some node)) in
  let! head := wr head lft (set_right (Some node)) in
  let! np := rd head node n_parent in
  let! head := wr head lft (set_parent np) in
  let! head := update_parent_ptr head node (Some lft) in
  wr head node (set_parent (Some lft)).

Definition rotateleft (head : opr_rbtree) (node : Z) : out opr_rbtree :=
  let! r := rd head node n_right in
  let! rgt := access r in
  let! rl := rd head rgt n_left in
  let! head := wr head node (set_right rl) in
  let! rl := rd head rgt n_left in
  let! head := wr_opt head rl (set_parent (Some node)) in
  let! head := wr head rgt (set_left (Some node)) in
  let! np := rd head node n_parent in
  let! head := wr head rgt (set_parent np) in
  let! head := update_parent_ptr head node (Some rgt) in
  wr head node (set_parent (Some rgt)).

(** ** Insertion *)

(** One iteration for [parent] red; [node] of the next iteration is returned. *)
Definition insert_recolour_body (head : opr_rbtree) (node parent : Z) : out (Z * opr_rbtree) :=
  let! gp := rd head parent n_parent in
  let! gramps := access gp in
  let! gl := rd head gramps n_left in
  if decide (gl = Some parent) then
    let! uncle := rd head gramps n_right in
    let! ured := is_red head uncle in
    if ured : bool then
      let! head := wr_opt head uncle (set_red false) in
      let! head := wr head parent (set_red false) in
      let! head := wr head gramps (set_red true) in
      Ret (gramps, head)
    else
      let! pr := rd head parent n_right in
      let! (parent, node, head) :=
        if decide (pr = Some node)
        then let! head := rotateleft head parent in Ret (node, parent, head)
        else Ret (parent, node, head) in
      let! head := wr head parent (set_red false) in
      let! head := wr head gramps (set_red true) in
      let! head := rotateright head gramps in
      Ret (node, head)
  else
    let! uncle := rd head gramps n_left in
    let! ured := is_red head uncle in
    if ured : bool then
      let! head := wr_opt head uncle (set_red false) in
      let! head := wr head parent (set_red false) in
      let! head := wr head gramps (set_red true) in
      Ret (gramps, head)
    else
      let! pl := rd head parent n_left in
      let! (parent, node, head) :=
        if decide (pl = Some node)
        then let! head := rotateright head parent in Ret (node, parent, head)
        else Ret (parent, node, head) in
      let! head := wr head parent (set_red false) in
      let! head := wr head gramps (set_red true) in
      let! head := rotateleft head gramps in
      Ret (node, head).

Fixpoint insert_recolour_loop (fuel : nat) (head : opr_rbtree) (node : Z) : out opr_rbtree :=
  let! pp := rd head node n_parent in
  let! pred := is_red head pp in
  match pp with
  | Some parent =>
      if pred : bool then
        match fuel with
        | O => OutOfFuel
        | S fuel =>
            let! (node, head) := insert_recolour_body head node parent in
            insert_recolour_loop fuel head node
        end
      else Ret head
  | None => Ret head
  end.

Definition insert_recolour (head : opr_rbtree) (node : Z) : out opr_rbtree :=
  let! head := insert_recolour_loop (node_fuel head) head node in
  let! root := access (rb_root head) in
  wr head root (set_red false).

(** [struct opr_rbtree_node **childptr] *)
Inductive slot := RootSlot | LeftSlot (p : Z) | RightSlot (p : Z).

Definition slot_get (s : opr_rbtree) (sl : slot) : out nptr :=
  match sl with
  | RootSlot => Ret (rb_root s)
  | LeftSlot p => rd s p n_left
  | RightSlot p => rd s p n_right
  end.

Definition slot_set (s : opr_rbtree) (sl : slot) (v : nptr) : out opr_rbtree :=
  match sl with
  | RootSlot => Ret (set_root v s)
  | LeftSlot p => wr s p (set_left v)
  | RightSlot p => wr s p (set_right v)
  end.

Definition opr_rbtree_insert_at (head : opr_rbtree) (parent : nptr) (childptr : slot) (node : Z)
    : out opr_rbtree :=
  let! head := wr head node (set_parent parent) in
  let! head := wr head node (set_right None) in
  let! head := wr head node (set_left None) in
  let! head := wr head node (set_red true) in
  let head := set_hgen (u64 (rb_gen head + 1)) head in
  let! head := wr head node (set_gen (u32 (rb_gen head))) in
  let! g := rd head node n_gen in
  let! head :=
    if g =? 0 then
      let head := set_hgen (u64 (rb_gen head + 1)) head in wr head node (set_gen (u32 (rb_gen head)))
    else Ret head in
  let! head := slot_set head childptr (Some node) in
  insert_recolour head node.

Section Compare.
(** [head->cmpf] on the nodes at two addresses. *)
Variable cmpf : Z → Z → Z.

Fixpoint insert_search (fuel : nat) (head : opr_rbtree) (node : Z) (parent : nptr) (iter : slot)
    : out (nptr * nptr * slot) :=
  let! cur := slot_get head iter in
  match cur with
  | None => Ret (None, parent, iter)
  | Some parent =>
      match fuel with
      | O => OutOfFuel
      | S fuel =>
          let c := cmpf node parent in
          if c =? -1 then insert_search fuel head node (Some parent) (LeftSlot parent)
          else if c =? 1 then insert_search fuel head node (Some parent) (RightSlot parent)
          else Ret (Some parent, Some parent, iter)
      end
  end.

Definition opr_rbtree_insert (head : opr_rbtree) (node : Z) : out (nptr * opr_rbtree) :=
  let! (found, parent, iter) := insert_search (node_fuel head) head node None RootSlot in
  match found with
  | Some p => Ret (Some p, head)
  | None =>
      let! head := opr_rbtree_insert_at head parent iter node in
      Ret (None, set_size (u64 (rb_size head + 1)) head)
  end.

Fixpoint lookup_loop (fuel : nat) (head : opr_rbtree) (node : Z) (iter : nptr) : out nptr :=
  match iter with
  | None => Ret None
  | Some parent =>
      match fuel with
      | O => OutOfFuel
      | S fuel =>
          let c := cmpf node parent in
          if c =? -1 then let! l := rd head parent n_left in lookup_loop fuel head node l
          else if c =? 1 then let! r := rd head parent n_right in lookup_loop fuel head node r
          else Ret (Some parent)
      end
  end.

Definition opr_rbtree_lookup (head : opr_rbtree) (node : Z) : out nptr :=
  lookup_loop (node_fuel head) head node (rb_root head).
End Compare.

(** ** Removal *)

(** [(o->left == NULL || !o->left->red) && (o->right == NULL || !o->right->red)] *)
Definition black_children (s : opr_rbtree) (other : Z) : out bool :=
  let! l := rd s other n_left in
  let! lred := is_red s l in
  if lred : bool then Ret false else
  let! r := rd s other n_right in
  let! rred := is_red s r in
  Ret (negb rred).

(** One iteration; the last component says whether the loop is left by [break]. *)
Definition remove_recolour_body (head : opr_rbtree) (parent : Z) (node : nptr)
    : out (nptr * nptr * bool * opr_rbtree) :=
  let! pl := rd head parent n_left in
  if decide (pl = node) then
    let! o := rd head parent n_right in
    let! other := access o in
    let! ored := rd head other n_red in
    let! (other, head) :=
      if ored : bool then
        let! head := wr head other (set_red false) in
        let! head := wr head parent (set_red true) in
        let! head := rotateleft head parent in
        let! o := rd head parent n_right in
        let! other := access o in Ret (other, head)
      else Ret (other, head) in
    let! black := black_children head other in
    if black : bool then
      let! head := wr head other (set_red true) in
      let! pp := rd head parent n_parent in
      Ret (Some parent, pp, false, head)
    else
      let! or := rd head other n_right in
      let! orred := is_red head or in
      let! (other, head) :=
        if negb orred then
          let! ol := rd head other n_left in
          let! ol := access ol in
          let! head := wr head ol (set_red false) in
          let! head := wr head other (set_red true) in
          let! head := rotateright head other in
          let! o := rd head parent n_right in
          let! other := access o in Ret (other, head)
        else Ret (other, head) in
      let! pred := rd head parent n_red in
      let! head := wr head other (set_red pred) in
      let! head := wr head parent (set_red false) in
      let! or := rd head other n_right in
      let! or := access or in
      let! head := wr head or (set_red false) in
      let! head := rotateleft head parent in
      Ret (rb_root head, Some parent, true, head)
  else
    let! o := rd head parent n_left in
    let! other := access o in
    let! ored := rd head other n_red in
    let! (other, head) :=
      if ored : bool then
        let! head := wr head other (set_red false) in
        let! head := wr head parent (set_red true) in
        let! head := rotateright head parent in
        let! o := rd head parent n_left in
        let! other := access o in Ret (other, head)
      else Ret (other, head) in
    let! black := black_children head other in
    if black : bool then
      let! head := wr head other (set_red true) in
      let! pp := rd head parent n_parent in
      Ret (Some parent, pp, false, head)
    else
      let! ol := rd head other n_left in
      let! olred := is_red head ol in
      let! (other, head) :=
        if negb olred then
          let! or := rd head other n_right in
          let! or := access or in
          let! head := wr head or (set_red false) in
          let! head := wr head other (set_red true) in
          let! head := rotateleft head other in
          let! o := rd head parent n_left in
          let! other := access o in Ret (other, head)
        else Ret (other, head) in
      let! pred := rd head parent n_red in
      let! head := wr head other (set_red pred) in
      let! head := wr head parent (set_red false) in
      let! ol := rd head other n_left in
      let! ol := access ol in
      let! head := wr head ol (set_red false) in
      let! head := rotateright head parent in
      Ret (rb_root head, Some parent, true, head).

Fixpoint remove_recolour_loop (fuel : nat) (head : opr_rbtree) (parent node : nptr)
    : out (nptr * opr_rbtree) :=
  let! red := is_red head node in
  if (red : bool) || bool_decide (node = rb_root head) then Ret (node, head) else
  match fuel with
  | O => OutOfFuel
  | S fuel =>
      let! p := access parent in
      let! (node, parent, brk, head) := remove_recolour_body head p node in
      if brk : bool then Ret (node, head) else remove_recolour_loop fuel head parent node
  end.

Definition remove_recolour (head : opr_rbtree) (parent node : nptr) : out opr_rbtree :=
  let! (node, head) := remove_recolour_loop (node_fuel head) head parent node in
  wr_opt head node (set_red false).

(** The three ways [opr_rbtree_remove] unlinks a node whose [gen] is cleared: a node with no
    child, with two children, and with one. *)
Definition remove_leaf (head : opr_rbtree) (node : Z) : out opr_rbtree :=
  let! head := update_parent_ptr head node None in
  let! red := rd head node n_red in
  if red : bool then Ret head else
  let! pp := rd head node n_parent in
  remove_recolour head pp None.

Definition remove_two (head : opr_rbtree) (old : Z) : out opr_rbtree :=
  let! r := rd head old n_right in
  let! node := access r in
  let! node := leftmost (node_fuel head) head node in
  let! head := update_parent_ptr head old (Some node) in
  let! child := rd head node n_right in
  let! parent := rd head node n_parent in
  let! red := rd head node n_red in
  let! ored := rd head old n_red in
  let! head := wr head node (set_red ored) in
  let! (parent, head) :=
    if decide (parent = Some old) then Ret (Some node, head)
    else
      let! head := wr_opt head child (set_parent parent) in
      let! p := access parent in
      let! head := wr head p (set_left child) in
      let! or := rd head old n_right in
      let! head := wr head node (set_right or) in
      let! or := rd head old n_right in
      let! or := access or in
      let! head := wr head or (set_parent (Some node)) in
      Ret (parent, head) in
  let! op := rd head old n_parent in
  let! head := wr head node (set_parent op) in
  let! ol := rd head old n_left in
  let! head := wr head node (set_left ol) in
  let! ol := rd head old n_left in
  let! ol := access ol in
  let! head := wr head ol (set_parent (Some node)) in
  if red : bool then Ret head else remove_recolour head parent child.

Definition remove_one (head : opr_rbtree) (node : Z) : out opr_rbtree :=
  let! l := rd head node n_left in
  let! r := rd head node n_right in
  let child := match l, r with None, r => r | l, None => l | _, _ => None end in
  let! c := access child in
  let! pp := rd head node n_parent in
  let! head := wr head c (set_parent pp) in
  let! head := update_parent_ptr head node child in
  let! red := rd head node n_red in
  if red : bool then Ret head else
  let! pp := rd head node n_parent in
  remove_recolour head pp child.

Definition opr_rbtree_remove (head : opr_rbtree) (node : Z) : out opr_rbtree :=
  let! g := rd head node n_gen in
  if g =? 0 then Ret head else
  let! head := wr head node (set_gen 0) in
  let! l := rd head node n_left in
  let! r := rd head node n_right in
  let! head :=
    match l, r with
    | None, None => remove_leaf head node
    | Some _, Some _ => remove_two head node
    | _, _ => remove_one head node
    end in
  Ret (set_hgen (u64 (rb_gen head + 1)) (set_size (u64 (rb_size head - 1)) head)).

Definition opr_rbtree_replace (head : opr_rbtree) (old replacement : Z) : out opr_rbtree :=
  let! head := update_parent_ptr head old (Some replacement) in
  let! l := rd head old n_left in
  let! head := wr_opt head l (set_parent (Some replacement)) in
  let! r := rd head old n_right in
  let! head := wr_opt head r (set_parent (Some replacement)) in
  let! n := access (rb_nodes head !! old) in
  wr head replacement (λ _, n).
