(* ===== verification/RbTreeFacts.v ===== *)
(** * The pointers of a red-black tree represent a tree

    A tree is described by its shape, with the colour, address and generation of each
    node; a position inside it by the path to the root.  The operations of src/rbtree.c
    on pointers are shown to be operations on these descriptions. *)
From stdpp Require Import base gmap list.
From Stdlib Require Import ZArith Lia.
From S2P Require Import Prelude Machine RbTree.

(** ** Trees and paths *)

Inductive tree :=
| E
| N (c : bool) (l : tree) (p g : Z) (r : tree).

Inductive dir := L | R.
Definition flip (d : dir) : dir := match d with L => R | R => L end.

(** The node with [a] on side [d] and [b] on the other. *)
Definition T (d : dir) (c : bool) (a : tree) (p g : Z) (b : tree) : tree :=
  match d with L => N c a p g b | R => N c b p g a end.

Definition rootp (t : tree) : nptr := match t with E => None | N _ _ p _ _ => Some p end.

(** The addresses in order. *)
Fixpoint locs (t : tree) : list Z :=
  match t with E => [] | N _ l p _ r => locs l ++ p :: locs r end.

(** A step of a path: the hole is on side [fd], [fs] on the other. *)
Record frame := F { fd : dir; fc : bool; fp : Z; fg : Z; fs : tree }.

Definition plug1 (f : frame) (t : tree) : tree := T (fd f) (fc f) t (fp f) (fg f) (fs f).
Fixpoint plug (K : list frame) (t : tree) : tree :=
  match K with [] => t | f :: K => plug K (plug1 f t) end.

Definition kpar (K : list frame) : nptr := match K with [] => None | f :: _ => Some (fp f) end.
Fixpoint klocs (K : list frame) : list Z :=
  match K with [] => [] | f :: K => fp f :: locs (fs f) ++ klocs K end.

Definition mkd (d : dir) (a b par : nptr) (c : bool) (g : Z) : opr_rbtree_node :=
  match d with L => mk_node a b par c g | R => mk_node b a par c g end.
Definition child (d : dir) (n : opr_rbtree_node) : nptr := match d with L => n_left n | R => n_right n end.
Definition set_child (d : dir) (v : nptr) (n : opr_rbtree_node) : opr_rbtree_node :=
  match d with L => set_left v n | R => set_right v n end.

(** ** Representation *)

Abbreviation nodes := (gmap Z opr_rbtree_node).

Fixpoint rep (ns : nodes) (par : nptr) (t : tree) : Prop :=
  match t with
  | E => True
  | N c l p g r => ns !! p = Some (mk_node (rootp l) (rootp r) par c g) ∧
                   rep ns (Some p) l ∧ rep ns (Some p) r
  end.

(** A path whose hole holds the pointer [h]. *)
Fixpoint repk (ns : nodes) (root : nptr) (K : list frame) (h : nptr) : Prop :=
  match K with
  | [] => root = h
  | F d c p g t :: K => ns !! p = Some (mkd d h (rootp t) (kpar K) c g) ∧
                        rep ns (Some p) t ∧ repk ns root K (Some p)
  end.

Record tree_at (s : opr_rbtree) (K : list frame) (t : tree) : Prop := {
  ta_path : repk (rb_nodes s) (rb_root s) K (rootp t);
  ta_tree : rep (rb_nodes s) (kpar K) t;
  ta_nodup : NoDup (locs t ++ klocs K);
}.

(** [s'] differs from [s] only in the nodes [X] and the root. *)
Record keeps (X : list Z) (s s' : opr_rbtree) : Prop := {
  kp_nodes : ∀ x, x ∉ X → rb_nodes s' !! x = rb_nodes s !! x;
  kp_size : rb_size s' = rb_size s;
  kp_gen : rb_gen s' = rb_gen s;
}.

Lemma keeps_refl X s : keeps X s s.
Proof. done. Qed.

Lemma keeps_trans X s1 s2 s3 : keeps X s1 s2 → keeps X s2 s3 → keeps X s1 s3.
Proof.
  intros [H1 ? ?] [H2 ? ?]. constructor; [|congruence..].
  intros x Hx. by rewrite H2, H1.
Qed.

Lemma keeps_weaken X Y s s' : X ⊆ Y → keeps X s s' → keeps Y s s'.
Proof. intros HX [H ? ?]. constructor; [|done..]. intros x Hx. apply H. set_solver. Qed.

Lemma locs_T d c a p g b : locs (T d c a p g b) ≡ₚ p :: locs a ++ locs b.
Proof. destruct d; cbn; [solve_Permutation|]. rewrite (Permutation_app_comm (locs a)). solve_Permutation. Qed.

Lemma rootp_T d c a p g b : rootp (T d c a p g b) = Some p.
Proof. by destruct d. Qed.

Lemma rootp_locs t p : rootp t = Some p → p ∈ locs t.
Proof. destruct t; intros [= ->]. cbn. set_solver. Qed.

Lemma rep_T ns par d c a p g b :
  rep ns par (T d c a p g b) ↔
  ns !! p = Some (mkd d (rootp a) (rootp b) par c g) ∧ rep ns (Some p) a ∧ rep ns (Some p) b.
Proof. destruct d; cbn; tauto. Qed.

Lemma rep_ext ns ns' par t :
  (∀ x, x ∈ locs t → ns' !! x = ns !! x) → rep ns par t → rep ns' par t.
Proof.
  revert par. induction t as [|c l IHl p g r IHr]; intros par Hx; [done|]. cbn in *.
  intros (Hp & Hl & Hr). split; [rewrite Hx by set_solver; done|].
  split; [apply IHl|apply IHr]; try done; intros; apply Hx; set_solver.
Qed.

Lemma repk_ext ns ns' root K h :
  (∀ x, x ∈ klocs K → ns' !! x = ns !! x) → repk ns root K h → repk ns' root K h.
Proof.
  revert h. induction K as [|[d c p g t] K IH]; intros h Hx; [done|]. cbn in *.
  intros (Hp & Ht & HK). split; [rewrite Hx by set_solver; done|].
  split; [eapply rep_ext; [|done]|apply IH; [|done]]; intros; apply Hx; set_solver.
Qed.

(** Moving along the path. *)
Lemma tree_at_plug s f K t : tree_at s (f :: K) t ↔ tree_at s K (plug1 f t).
Proof.
  destruct f as [d c p g u]. unfold plug1. cbn.
  assert (HP : locs t ++ klocs (F d c p g u :: K) ≡ₚ locs (T d c t p g u) ++ klocs K).
  { rewrite locs_T. cbn. solve_Permutation. }
  split; intros [HK Ht Hd]; cbn in *.
  - destruct HK as (Hp & Hu & HK). constructor; [by rewrite rootp_T|by apply rep_T|by rewrite <- HP].
  - apply rep_T in Ht as (Hp & Ht & Hu). rewrite rootp_T in HK.
    constructor; [done|done|by rewrite HP].
Qed.

Lemma tree_at_path s K t : tree_at s K t ↔ tree_at s [] (plug K t).
Proof. revert t. induction K as [|f K IH]; intros t; [done|]. by rewrite tree_at_plug, IH. Qed.

Lemma plug_app K1 K2 t : plug (K1 ++ K2) t = plug K2 (plug K1 t).
Proof. revert t. induction K1 as [|f K1 IH]; intros t; [done|]. apply IH. Qed.

(** ** Reads and writes *)

Lemma rd_ok {A} s p n (f : opr_rbtree_node → A) : rb_nodes s !! p = Some n → rd s p f = Ret (f n).
Proof. unfold rd. by intros ->. Qed.

Lemma wr_ok s p n f :
  rb_nodes s !! p = Some n → wr s p f = Ret (set_nodes (<[p := f n]> (rb_nodes s)) s).
Proof. unfold wr. by intros ->. Qed.

Lemma keeps_insert s p n : keeps [p] s (set_nodes (<[p := n]> (rb_nodes s)) s).
Proof. constructor; [|done..]. intros x Hx. cbn. apply lookup_insert_ne. set_solver. Qed.

(** Giving the root of a subtree another parent. *)
Lemma reparent_ok s par par' t :
  rep (rb_nodes s) par t → NoDup (locs t) →
  ∃ s', wr_opt s (rootp t) (set_parent par') = Ret s' ∧ rep (rb_nodes s') par' t ∧
        keeps (locs t) s s' ∧ rb_root s' = rb_root s.
Proof.
  destruct t as [|c l p g r]; cbn; intros Ht Hd; [by exists s|]. destruct Ht as (Hp & Hl & Hr).
  apply NoDup_app in Hd as (_ & Hd1 & [Hd2 _]%NoDup_cons).
  eexists. split; [by apply wr_ok|]. cbn. split; [|split; [|done]].
  - rewrite lookup_insert_eq. split; [done|].
    split; (eapply rep_ext; [|done]); intros x Hx; apply lookup_insert_ne; set_solver.
  - eapply keeps_weaken; [|apply keeps_insert]. set_solver.
Qed.

(** [update_parent_ptr] redirects the pointer to the subtree a path leads to. *)
Lemma update_parent_ok s K p n v :
  rb_nodes s !! p = Some n → n_parent n = kpar K → repk (rb_nodes s) (rb_root s) K (Some p) →
  NoDup (klocs K) → p ∉ klocs K →
  ∃ s', update_parent_ptr s p v = Ret s' ∧ repk (rb_nodes s') (rb_root s') K v ∧ keeps (klocs K) s s'.
Proof.
  intros Hp Hpar HK Hd Hn. unfold update_parent_ptr. rewrite (rd_ok _ _ _ _ Hp), Hpar. cbn [obind].
  destruct K as [|[d c q g t] K]; cbn [kpar fp]; [by eexists|].
  cbn in HK, Hd, Hn. destruct HK as (Hq & Ht & HK). apply NoDup_cons in Hd as [Hd1 Hd2].
  rewrite (rd_ok _ _ _ _ Hq). cbn [obind].
  assert (Hw : (if decide (n_left (mkd d (Some p) (rootp t) (kpar K) c g) = Some p)
                then wr s q (set_left v) else wr s q (set_right v)) =
               Ret (set_nodes (<[q := mkd d v (rootp t) (kpar K) c g]> (rb_nodes s)) s)).
  { destruct d; cbn [n_left mkd].
    - rewrite decide_True by done. by rewrite (wr_ok _ _ _ _ Hq).
    - rewrite decide_False by (intros E%rootp_locs; set_solver). by rewrite (wr_ok _ _ _ _ Hq). }
  rewrite Hw. eexists. split; [done|]. cbn. rewrite lookup_insert_eq. split; [split; [done|split]|].
  - eapply rep_ext; [|done]. intros x Hx. apply lookup_insert_ne. set_solver.
  - eapply repk_ext; [|done]. intros x Hx. apply lookup_insert_ne. set_solver.
  - eapply keeps_weaken; [|apply keeps_insert]. set_solver.
Qed.

(** ** Rotations *)

Definition rotate (d : dir) (head : opr_rbtree) (node : Z) : out opr_rbtree :=
  let! up := rd head node (child (flip d)) in
  let! up := access up in
  let! mid := rd head up (child d) in
  let! head := wr head node (set_child (flip d) mid) in
  let! mid := rd head up (child d) in
  let! head := wr_opt head mid (set_parent (Some node)) in
  let! head := wr head up (set_child d (Some node)) in
  let! np := rd head node n_parent in
  let! head := wr head up (set_parent np) in
  let! head := update_parent_ptr head node (Some up) in
  wr head node (set_parent (Some up)).

Lemma rotateleft_eq s p : rotateleft s p = rotate L s p.
Proof. done. Qed.
Lemma rotateright_eq s p : rotateright s p = rotate R s p.
Proof. done. Qed.

Lemma child_mkd d a b par c g : child d (mkd d a b par c g) = a.
Proof. by destruct d. Qed.
Lemma child_flip_mkd d a b par c g : child (flip d) (mkd d a b par c g) = b.
Proof. by destruct d. Qed.
Lemma set_child_mkd d a b par c g v : set_child d v (mkd d a b par c g) = mkd d v b par c g.
Proof. by destruct d. Qed.
Lemma set_child_flip_mkd d a b par c g v :
  set_child (flip d) v (mkd d a b par c g) = mkd d a v par c g.
Proof. by destruct d. Qed.
Lemma parent_mkd d a b par c g : n_parent (mkd d a b par c g) = par.
Proof. by destruct d. Qed.
Lemma set_parent_mkd d a b par c g v : set_parent v (mkd d a b par c g) = mkd d a b v c g.
Proof. by destruct d. Qed.
Lemma red_mkd d a b par c g : n_red (mkd d a b par c g) = c.
Proof. by destruct d. Qed.
Lemma set_red_mkd d a b par c g v : set_red v (mkd d a b par c g) = mkd d a b par v g.
Proof. by destruct d. Qed.
Create Rewrite HintDb mkd.
#[export] Hint Rewrite child_mkd child_flip_mkd set_child_mkd set_child_flip_mkd parent_mkd
  set_parent_mkd red_mkd set_red_mkd : mkd.

(** The state after a write. *)
Abbreviation put s p n := (set_nodes (<[p := n]> (rb_nodes s)) s).

(** [run H]: execute the next read or write, of the node that [H] describes. *)
Ltac run H :=
  first [rewrite (rd_ok _ _ _ _ H)|rewrite (wr_ok _ _ _ _ H)]; autorewrite with mkd; cbn [obind access].

(** The nodes of a rotation are all different. *)
Lemma rotate_nodup d c a p g c2 b q g2 e K :
  let X := locs (T d c a p g (T d c2 b q g2 e)) ++ klocs K in
  NoDup X →
  ((p ∉ q :: locs a ++ locs b ++ locs e ++ klocs K) ∧ (q ∉ locs a ++ locs b ++ locs e ++ klocs K) ∧
   (∀ x, x ∈ locs a → x ∉ locs b ++ locs e ++ klocs K) ∧ (∀ x, x ∈ locs b → x ∉ locs e ++ klocs K) ∧
   (∀ x, x ∈ locs e → x ∉ klocs K)) ∧ NoDup (locs b) ∧ NoDup (klocs K) ∧
  p :: q :: locs b ++ klocs K ⊆ X ∧ X ≡ₚ locs (T d c2 (T d c a p g b) q g2 e) ++ klocs K.
Proof.
  intros X Hd. assert (HP : X ≡ₚ p :: q :: locs a ++ locs b ++ locs e ++ klocs K).
  { unfold X. rewrite !locs_T. solve_Permutation. }
  rewrite HP in Hd. apply NoDup_cons in Hd as [? Hd]. apply NoDup_cons in Hd as [? Hd].
  apply NoDup_app in Hd as (? & ? & Hd). apply NoDup_app in Hd as (? & ? & Hd).
  apply NoDup_app in Hd as (? & ? & Hd). split; [done|]. split; [done|]. split; [done|]. split.
  - intros x. rewrite HP. set_solver.
  - rewrite HP, !locs_T. cbn. solve_Permutation.
Qed.

Lemma rotate_ok s K d c a p g c2 b q g2 e :
  tree_at s K (T d c a p g (T d c2 b q g2 e)) →
  ∃ s', rotate d s p = Ret s' ∧ tree_at s' K (T d c2 (T d c a p g b) q g2 e) ∧
        keeps (locs (T d c a p g (T d c2 b q g2 e)) ++ klocs K) s s'.
Proof.
  intros [HK Ht Hd]. apply rotate_nodup in Hd as Hn. destruct Hn as ((?&?&?&?&?) & Hdb & HdK & HX & HP).
  rewrite rootp_T in HK. apply rep_T in Ht as (Hp & Ha & Ht). rewrite rootp_T in Hp.
  apply rep_T in Ht as (Hq & Hb & He). unfold rotate. run Hp. run Hq. run Hp.
  set (s1 := put s p _). assert (Hq1 : rb_nodes s1 !! q = rb_nodes s !! q) by (apply lookup_insert_ne; set_solver).
  rewrite Hq in Hq1. run Hq1.
  destruct (reparent_ok s1 (Some q) (Some p) b) as (s2 & -> & Hb2 & [K2 S2 G2] & Hr2);
    [eapply rep_ext; [|done]; intros x Hx; apply lookup_insert_ne; set_solver|done|].
  rewrite <- (K2 q) in Hq1 by set_solver. cbn [obind]. run Hq1. set (s3 := put s2 q _).
  assert (Hp3 : rb_nodes s3 !! p = Some (mkd d (rootp a) (rootp b) (kpar K) c g)).
  { cbn. rewrite lookup_insert_ne, K2 by set_solver. apply lookup_insert_eq. }
  assert (Hq3 : rb_nodes s3 !! q = Some (mkd d (Some p) (rootp e) (Some p) c2 g2)) by apply lookup_insert_eq.
  run Hp3. run Hq3. set (s4 := put s3 q _).
  assert (Hp4 : rb_nodes s4 !! p = Some (mkd d (rootp a) (rootp b) (kpar K) c g)).
  { cbn. rewrite lookup_insert_ne by set_solver. apply Hp3. }
  assert (E4 : ∀ x, x ∉ p :: q :: locs b → rb_nodes s4 !! x = rb_nodes s !! x).
  { intros x Hx. cbn. rewrite !lookup_insert_ne, K2 by set_solver. apply lookup_insert_ne. set_solver. }
  destruct (update_parent_ok s4 K p _ (Some q) Hp4) as (s5 & -> & HK5 & [K5 S5 G5]); [by destruct d| |done|set_solver|].
  { cbn. rewrite Hr2. eapply repk_ext; [|done]. intros x Hx. apply E4. set_solver. }
  cbn [obind]. rewrite <- (K5 p) in Hp4 by set_solver. run Hp4.
  set (s6 := put s5 p _).
  assert (E6 : ∀ x, x ∉ p :: klocs K → rb_nodes s6 !! x = rb_nodes s4 !! x).
  { intros x Hx. cbn. rewrite lookup_insert_ne, K5 by set_solver. done. }
  exists s6. split; [done|]. split; [constructor|constructor; [|etrans; [exact S5|exact S2]|etrans; [exact G5|exact G2]]].
  - rewrite rootp_T. cbn. eapply repk_ext; [|done]. intros x Hx. apply lookup_insert_ne. set_solver.
  - rewrite rep_T, rep_T, rootp_T, E6 by set_solver. cbn [rb_nodes s4 s6 set_nodes].
    rewrite !lookup_insert_eq. split; [done|]. split; [split; [done|split]|].
    + eapply rep_ext; [|done]. intros x Hx. rewrite E6, E4 by set_solver. done.
    + eapply rep_ext; [|exact Hb2]. intros x Hx. rewrite E6 by set_solver.
      cbn. by rewrite !lookup_insert_ne by set_solver.
    + eapply rep_ext; [|done]. intros x Hx. rewrite E6, E4 by set_solver. done.
  - by rewrite <- HP.
  - intros x Hx. rewrite E6, E4; [done|set_solver..].
Qed.

(** ** Operations on the whole tree

    [is_tree s W]: the pointers of [s] are the tree [W].  A position is chosen by writing
    [W] as [plug K t]. *)

Definition is_tree (s : opr_rbtree) (W : tree) : Prop := tree_at s [] W.

Lemma focus s K t : is_tree s (plug K t) → tree_at s K t.
Proof. apply tree_at_path. Qed.
Lemma unfocus s K t : tree_at s K t → is_tree s (plug K t).
Proof. apply tree_at_path. Qed.

(** The addresses and generations in order; unlike the shape, rebalancing keeps them. *)
Fixpoint items (t : tree) : list (Z * Z) :=
  match t with E => [] | N _ l p g r => items l ++ (p, g) :: items r end.

Lemma items_locs t : locs t = (items t).*1.
Proof. induction t as [|c l IHl p g r IHr]; [done|]. cbn. rewrite IHl, IHr, fmap_app. done. Qed.

Lemma items_plug1 f t t' : items t = items t' → items (plug1 f t) = items (plug1 f t').
Proof. unfold plug1. destruct f as [[] ? ? ? ?]; cbn; congruence. Qed.

Lemma items_plug K : ∀ t t', items t = items t' → items (plug K t) = items (plug K t').
Proof. induction K as [|f K IH]; intros t t' E; [done|]. by apply IH, items_plug1. Qed.

Lemma items_rotate d c a p g c2 b q g2 e :
  items (T d c2 (T d c a p g b) q g2 e) = items (T d c a p g (T d c2 b q g2 e)).
Proof. destruct d; cbn; by rewrite <- app_assoc. Qed.

Lemma items_paint d c v a p g b : items (T d v a p g b) = items (T d c a p g b).
Proof. by destruct d. Qed.

Lemma T_flip d c a p g b : T (flip d) c a p g b = T d c b p g a.
Proof. by destruct d. Qed.

Lemma flip_flip d : flip (flip d) = d.
Proof. by destruct d. Qed.

Lemma locs_plug1 f t : locs (plug1 f t) ≡ₚ fp f :: locs t ++ locs (fs f).
Proof. apply locs_T. Qed.

Lemma locs_plug K : ∀ t, locs (plug K t) ≡ₚ locs t ++ klocs K.
Proof.
  induction K as [|f K IH]; intros t; cbn; [by rewrite app_nil_r|].
  rewrite IH, locs_plug1. solve_Permutation.
Qed.

Lemma node_at s K d c a p g b :
  is_tree s (plug K (T d c a p g b)) →
  rb_nodes s !! p = Some (mkd d (rootp a) (rootp b) (kpar K) c g).
Proof. intros [_ Ht _]%focus. by apply rep_T in Ht as [? _]. Qed.

Lemma paint_at s K d c a p g b v :
  is_tree s (plug K (T d c a p g b)) →
  ∃ s', wr s p (set_red v) = Ret s' ∧ is_tree s' (plug K (T d v a p g b)) ∧
        keeps (locs (plug K (T d c a p g b))) s s' ∧ rb_root s' = rb_root s.
Proof.
  intros Hs. pose proof (node_at _ _ _ _ _ _ _ _ Hs) as Hp. rewrite (wr_ok _ _ _ _ Hp).
  autorewrite with mkd. eexists. split; [done|]. split; [|split; [|done]].
  - apply unfocus. apply focus in Hs as [HK Ht Hd].
    rewrite rootp_T, rep_T, locs_T in *. destruct Ht as (_ & Ha & Hb).
    cbn in Hd. apply NoDup_cons in Hd as [Hd1 Hd2]. constructor; [|apply rep_T|rewrite locs_T; cbn; by constructor].
    + rewrite rootp_T. cbn. eapply repk_ext; [|done]. intros x Hx. apply lookup_insert_ne. set_solver.
    + cbn. rewrite lookup_insert_eq. split; [done|].
      split; (eapply rep_ext; [|done]); intros x Hx; apply lookup_insert_ne; set_solver.
  - eapply keeps_weaken; [|apply keeps_insert]. intros x. rewrite locs_plug, locs_T. set_solver.
Qed.

Lemma rotate_at s K d c a p g c2 b q g2 e :
  is_tree s (plug K (T d c a p g (T d c2 b q g2 e))) →
  ∃ s', rotate d s p = Ret s' ∧ is_tree s' (plug K (T d c2 (T d c a p g b) q g2 e)) ∧
        keeps (locs (plug K (T d c a p g (T d c2 b q g2 e)))) s s'.
Proof.
  intros Hs. apply focus, rotate_ok in Hs as (s' & E & Hs' & Hk). exists s'.
  split; [done|]. split; [by apply unfocus|]. eapply keeps_weaken; [|done].
  intros x. by rewrite locs_plug.
Qed.

(** A child pointer compared with a node in another place of the tree. *)
Lemma root_other s K d c a p g b x :
  is_tree s (plug K (T d c a p g b)) → x ∈ locs a → rootp b ≠ Some x.
Proof.
  intros [_ _ Hd]%focus Hx Hb%rootp_locs. rewrite locs_T in Hd. cbn in Hd.
  apply NoDup_cons in Hd as [_ Hd]. apply NoDup_app in Hd as [Hd _].
  apply NoDup_app in Hd as (_ & Hd & _). by apply (Hd x).
Qed.

(** ** The balance *)

(** [rb b n t]: every path of [t] has [n] black nodes and no red node has a red child;
    the root may be red if [b]. *)
Fixpoint rb (b : bool) (n : nat) (t : tree) : Prop :=
  match t with
  | E => n = 0%nat
  | N true l _ _ r => b = true ∧ rb false n l ∧ rb false n r
  | N false l _ _ r => match n with O => False | S m => rb true m l ∧ rb true m r end
  end.

(** A path whose hole wants a tree [rb b n], in a tree with a black root. *)
Fixpoint rbc (K : list frame) (b : bool) (n : nat) : Prop :=
  match K with
  | [] => b = false
  | F _ true _ _ t :: K => b = false ∧ rb false n t ∧ rbc K true n
  | F _ false _ _ t :: K => rb true n t ∧ rbc K false (S n)
  end.

Lemma rb_weaken n t b : rb false n t → rb b n t.
Proof. destruct t as [|[] l p g r]; cbn; [done| |done]. by intros [? _]. Qed.

Lemma rbc_weaken K b n : rbc K b n → rbc K false n.
Proof. destruct K as [|[d [] p g t] K]; cbn; [done| |done]. by intros (_ & ? & ?). Qed.

Lemma rb_T b n d c l p g r :
  rb b n (T d c l p g r) ↔
  if c then b = true ∧ rb false n l ∧ rb false n r
  else match n with O => False | S m => rb true m l ∧ rb true m r end.
Proof. destruct d, c, n; cbn; tauto. Qed.

Lemma rb_plug K : ∀ t b n, rb b n t → rbc K b n → ∃ m, rb false m (plug K t).
Proof.
  induction K as [|[d [] p g u] K IH]; intros t b n Ht HK; cbn in *.
  - subst b. by exists n.
  - destruct HK as (-> & Hu & HK). eapply IH; [|exact HK]. by apply rb_T.
  - destruct HK as (Hu & HK). eapply IH; [|exact HK]. apply rb_T. split; [|done].
    destruct b; [done|by apply rb_weaken].
Qed.

Lemma rb_unplug K : ∀ t m, rb false m (plug K t) → ∃ b n, rb b n t ∧ rbc K b n.
Proof.
  induction K as [|[d [] p g u] K IH]; intros t m Hm; cbn in *; [by exists false, m| |];
    apply IH in Hm as (b & n & Hn & HK); unfold plug1 in Hn; cbn in Hn; apply rb_T in Hn.
  - destruct Hn as (-> & Ht & Hu). by exists false, n.
  - destruct n as [|n]; [done|]. destruct Hn as (Ht & Hu). exists true, n.
    split; [done|]. split; [done|by eapply rbc_weaken].
Qed.
