(* ===== verification/RbTreeBalance.v ===== *)
(** * Rebalancing

    The loops that restore the balance after an insertion and after a removal
    (insert_recolour and remove_recolour in src/rbtree.c): they end, keep the nodes in
    order and give back a red-black tree. *)
From stdpp Require Import base gmap list.
From Stdlib Require Import ZArith Lia.
From S2P Require Import Prelude Machine RbTree RbTreeFacts.

(** From the tree [W] to the tree [W'] with the same nodes in the same order. *)
Record moves (s : opr_rbtree) (W : tree) (s' : opr_rbtree) (W' : tree) : Prop := {
  mv_tree : is_tree s' W';
  mv_items : items W' = items W;
  mv_keeps : keeps (locs W) s s';
}.

Lemma moves_refl s W : is_tree s W → moves s W s W.
Proof. done. Qed.

Lemma moves_trans s1 W1 s2 W2 s3 W3 :
  moves s1 W1 s2 W2 → moves s2 W2 s3 W3 → moves s1 W1 s3 W3.
Proof.
  intros [H1 E1 K1] [H2 E2 K2]. constructor; [done|congruence|].
  eapply keeps_trans; [done|]. by rewrite items_locs, <- E1, <- items_locs.
Qed.

Lemma moves_paint s K d c a p g b v :
  is_tree s (plug K (T d c a p g b)) →
  ∃ s', wr s p (set_red v) = Ret s' ∧
        moves s (plug K (T d c a p g b)) s' (plug K (T d v a p g b)) ∧ rb_root s' = rb_root s.
Proof.
  intros Hs. destruct (paint_at _ _ _ _ _ _ _ _ v Hs) as (s' & E & Ht & Hk & Hr).
  exists s'. split; [done|]. split; [|done]. constructor; [done| |done].
  apply items_plug, items_paint.
Qed.

Lemma moves_rotate s K d c a p g c2 b q g2 e :
  is_tree s (plug K (T d c a p g (T d c2 b q g2 e))) →
  ∃ s', rotate d s p = Ret s' ∧
    moves s (plug K (T d c a p g (T d c2 b q g2 e))) s' (plug K (T d c2 (T d c a p g b) q g2 e)).
Proof.
  intros Hs. destruct (rotate_at _ _ _ _ _ _ _ _ _ _ _ _ Hs) as (s' & E & Ht & Hk).
  exists s'. split; [done|]. constructor; [done| |done]. apply items_plug, items_rotate.
Qed.

Definition red (t : tree) : bool := match t with E => false | N c _ _ _ _ => c end.

Lemma is_red_at s K t : is_tree s (plug K t) → is_red s (rootp t) = Ret (red t).
Proof.
  destruct t as [|c l p g r]; [done|]. intros Hs. cbn.
  by rewrite (rd_ok _ _ _ _ (node_at s K L c l p g r Hs)).
Qed.

(** ** Running code on a tree whose shape is known

    The tactics below find the node an operation works on in the tree that a hypothesis
    [moves s0 W0 s (plug K t)] describes, and execute the operation. *)

Lemma step_paint s0 W0 s K d c a p g b v :
  moves s0 W0 s (plug K (T d c a p g b)) →
  ∃ s', wr s p (set_red v) = Ret s' ∧ moves s0 W0 s' (plug K (T d v a p g b)).
Proof.
  intros M. destruct (moves_paint s K d c a p g b v) as (s' & E & M' & _); [apply M|].
  exists s'. split; [done|]. by eapply moves_trans.
Qed.

Lemma step_rotate s0 W0 s K d c a p g c2 b q g2 e :
  moves s0 W0 s (plug K (T d c a p g (T d c2 b q g2 e))) →
  ∃ s', rotate d s p = Ret s' ∧ moves s0 W0 s' (plug K (T d c2 (T d c a p g b) q g2 e)).
Proof.
  intros M. destruct (moves_rotate s K d c a p g c2 b q g2 e) as (s' & E & M'); [apply M|].
  exists s'. split; [done|]. by eapply moves_trans.
Qed.

(** [path_in t p K k]: call [k] with the path to the node [p] of [t] and its parts. *)
Ltac path_in t p K k :=
  lazymatch t with
  | N ?c ?l ?q ?g ?r =>
      tryif constr_eq p q then k K c l g r
      else first [path_in l p constr:(F L c q g r :: K) k | path_in r p constr:(F R c q g l :: K) k]
  end.

(** [path_sub t u K k]: call [k] with the path to the subtree [u] of [t]. *)
Ltac path_sub t u K k :=
  tryif constr_eq t u then k K else
  lazymatch t with
  | N ?c ?l ?q ?g ?r =>
      first [path_sub l u constr:(F L c q g r :: K) k | path_sub r u constr:(F R c q g l :: K) k]
  end.

Ltac rb_cbn := cbn [obind access mkd n_left n_right n_parent n_red child flip kpar fp rootp wr_opt negb].

Ltac rb_rd :=
  match goal with
  | M : moves _ _ ?s (plug ?K ?t) |- context [rd ?s ?p ?f] =>
      path_in t p K ltac:(fun K c l g r =>
        rewrite (rd_ok s p _ f (node_at s K L c l p g r (mv_tree _ _ _ _ M))); rb_cbn)
  end.

Ltac rb_isred :=
  match goal with
  | M : moves _ _ ?s (plug ?K ?t) |- context [is_red ?s (rootp ?u)] =>
      path_sub t u K ltac:(fun K => rewrite (is_red_at s K u (mv_tree _ _ _ _ M)); rb_cbn)
  | |- context [is_red ?s (Some ?p)] => change (is_red s (Some p)) with (rd s p n_red); rb_rd
  | |- context [is_red ?s None] => change (is_red s None) with (Ret false); rb_cbn
  end.

Ltac rb_paint :=
  match goal with
  | M : moves ?s0 ?W0 ?s (plug ?K ?t) |- context [wr ?s ?p (set_red ?v)] =>
      path_in t p K ltac:(fun K c l g r =>
        let s' := fresh "s" in let M' := fresh "M" in
        destruct (step_paint s0 W0 s K L c l p g r v M) as (s' & -> & M'); clear M;
        cbn [plug plug1 T fd fc fp fg fs] in M'; rb_cbn)
  end.

Ltac rb_rot :=
  match goal with
  | M : moves ?s0 ?W0 ?s (plug ?K ?t) |- context [rotate ?d ?s ?p] =>
      path_in t p K ltac:(fun K c l g r =>
        let s' := fresh "s" in let M' := fresh "M" in
        lazymatch d with
        | L => lazymatch r with N ?c2 ?b ?q ?g2 ?e =>
                 destruct (step_rotate s0 W0 s K L c l p g c2 b q g2 e M) as (s' & -> & M') end
        | R => lazymatch l with N ?c2 ?e ?q ?g2 ?b =>
                 destruct (step_rotate s0 W0 s K R c r p g c2 b q g2 e M) as (s' & -> & M') end
        end; clear M; cbn [plug plug1 T fd fc fp fg fs] in M'; rb_cbn)
  end.

Ltac rb_step := first [rb_rd | rb_isred | rb_paint | rb_rot].

(** ** After an insertion *)

(** The two halves of the loop body are mirror images. *)
Definition insert_side (d : dir) (head : opr_rbtree) (node parent gramps : Z) : out (Z * opr_rbtree) :=
  let! uncle := rd head gramps (child (flip d)) in
  let! ured := is_red head uncle in
  if ured : bool then
    let! head := wr_opt head uncle (set_red false) in
    let! head := wr head parent (set_red false) in
    let! head := wr head gramps (set_red true) in
    Ret (gramps, head)
  else
    let! pc := rd head parent (child (flip d)) in
    let! (parent, node, head) :=
      if decide (pc = Some node)
      then let! head := rotate d head parent in Ret (node, parent, head)
      else Ret (parent, node, head) in
    let! head := wr head parent (set_red false) in
    let! head := wr head gramps (set_red true) in
    let! head := rotate (flip d) head gramps in
    Ret (node, head).

Lemma insert_recolour_body_eq s node parent :
  insert_recolour_body s node parent =
    let! gp := rd s parent n_parent in
    let! gramps := access gp in
    let! gl := rd s gramps n_left in
    if decide (gl = Some parent) then insert_side L s node parent gramps
    else insert_side R s node parent gramps.
Proof. done. Qed.

(** The side on which the parent hangs is the one the code finds. *)
Lemma insert_body_side s K d c y gy U e p gp X S x :
  is_tree s (plug K (T d c (T e true X p gp S) y gy U)) →
  insert_recolour_body s x p = insert_side d s x p y.
Proof.
  intros Hs. rewrite insert_recolour_body_eq.
  pose proof (node_at s _ _ _ _ _ _ _ Hs) as Hy. rewrite rootp_T in Hy.
  pose proof (node_at s (F d c y gy U :: K) _ _ _ _ _ _ Hs) as Hp. cbn [kpar fp] in Hp.
  run Hp. run Hy. destruct d; cbn [n_left mkd]; [by rewrite decide_True|].
  rewrite decide_False; [done|]. eapply root_other; [exact Hs|]. rewrite locs_T. set_solver.
Qed.

Lemma insert_red_uncle d s K e p gp X S y gy ul u gu ur x :
  let W := plug K (T d false (T e true X p gp S) y gy (N true ul u gu ur)) in
  is_tree s W →
  ∃ s', insert_side d s x p y = Ret (y, s') ∧
    moves s W s' (plug K (T d true (T e false X p gp S) y gy (N false ul u gu ur))).
Proof.
  intros W M%moves_refl. subst W. unfold insert_side.
  destruct d, e; cbn [T] in *; repeat rb_step; eauto.
Qed.

(** The node is on the same side of its parent as the parent of its own. *)
Lemma insert_outer d s K p gp X S y gy U x :
  let W := plug K (T d false (T d true X p gp S) y gy U) in
  is_tree s W → red U = false → rootp X = Some x →
  ∃ s', insert_side d s x p y = Ret (x, s') ∧
    moves s W s' (plug K (T d false X p gp (T d true S y gy U))).
Proof.
  intros W Hs HU Hx. pose proof (moves_refl _ _ Hs) as M. subst W.
  assert (HS : rootp S ≠ Some x).
  { eapply (root_other s (F d false y gy U :: K) d); [exact Hs|by apply rootp_locs]. }
  unfold insert_side. destruct d; cbn [T] in *; repeat (rb_step; rewrite ?HU, ?decide_False by done; rb_cbn); eauto.
Qed.

(** The node is on the other side. *)
Lemma insert_inner d s K p gp S xa x g xb y gy U :
  let W := plug K (T d false (T (flip d) true (T d true xa x g xb) p gp S) y gy U) in
  is_tree s W → red U = false →
  ∃ s', insert_side d s x p y = Ret (p, s') ∧
    moves s W s' (plug K (T d false (T d true S p gp xa) x g (T d true xb y gy U))).
Proof.
  intros W M%moves_refl HU. subst W. unfold insert_side.
  destruct d; cbn [T flip] in *; repeat (rb_step; rewrite ?HU, ?decide_True by done; rb_cbn); eauto.
Qed.

(** Below a black parent, and at the root, the loop ends. *)
Lemma insert_loop_black fuel s K d c x g a b :
  is_tree s (plug K (T d c a x g b)) →
  match K with F _ pc _ _ _ :: _ => pc = false | [] => True end →
  insert_recolour_loop fuel s x = Ret s.
Proof.
  intros Hs HK. pose proof (node_at s _ _ _ _ _ _ _ Hs) as Hx. destruct K as [|[e pc p gp S] K].
  - destruct fuel; cbn [insert_recolour_loop]; run Hx; done.
  - subst pc. pose proof (node_at s K e false _ p gp S Hs) as Hp.
    destruct fuel; cbn [insert_recolour_loop]; run Hx; cbn [kpar fp is_red]; by run Hp.
Qed.

Lemma insert_loop_red fuel s K d x g a b e p gp S :
  is_tree s (plug (F e true p gp S :: K) (T d true a x g b)) →
  insert_recolour_loop (Datatypes.S fuel) s x =
    let! (node, s) := insert_recolour_body s x p in insert_recolour_loop fuel s node.
Proof.
  intros Hs. pose proof (node_at s _ _ _ _ _ _ _ Hs) as Hx.
  pose proof (node_at s K e true _ p gp S Hs) as Hp. cbn [insert_recolour_loop].
  run Hx. cbn [kpar fp is_red]. by run Hp.
Qed.

Lemma red_false_rb b n t : rb true n t → red t = false → rb b n t.
Proof. destruct t as [|[] l p g r]; cbn; [done..|]. done. Qed.

Lemma dir_cases (e d : dir) : e = d ∨ e = flip d.
Proof. destruct e, d; auto. Qed.

(** The case that ends with one or two rotations. *)
Lemma insert_rotate_ok s K2 d e y gy U p gp S d0 a x g b n :
  let W := plug K2 (T d false (T e true (T d0 true a x g b) p gp S) y gy U) in
  is_tree s W → red U = false →
  rb false n a → rb false n b → rb false n S → rb true n U →
  ∃ s' node B, insert_side d s x p y = Ret (node, s') ∧ moves s W s' (plug K2 B) ∧ rb false (Datatypes.S n) B ∧
    ∀ fuel, insert_recolour_loop fuel s' node = Ret s'.
Proof.
  intros W Hs HU Ha Hb HS HrU. apply (red_false_rb false) in HrU; [|done].
  destruct (dir_cases e d) as [->| ->].
  - destruct (insert_outer d s K2 p gp (T d0 true a x g b) S y gy U x) as (s' & E & M); [done|done|by rewrite rootp_T|].
    exists s', x, (T d false (T d0 true a x g b) p gp (T d true S y gy U)).
    split; [done|]. split; [done|]. split.
    + rewrite !rb_T. auto using rb_weaken.
    + intros fuel. by apply (insert_loop_black fuel s' (F d false p gp (T d true S y gy U) :: K2) d0 true x g a b (mv_tree _ _ _ _ M)).
  - assert (∃ xa xb, T d0 true a x g b = T d true xa x g xb ∧ rb false n xa ∧ rb false n xb) as (xa & xb & Ex & Hxa & Hxb).
    { destruct (dir_cases d0 d) as [->| ->]; [by exists a, b|]. exists b, a. by rewrite T_flip. }
    unfold W in *. rewrite Ex in *.
    destruct (insert_inner d s K2 p gp S xa x g xb y gy U) as (s' & E & M); [done..|].
    exists s', p, (T d false (T d true S p gp xa) x g (T d true xb y gy U)).
    split; [done|]. split; [done|]. split.
    + rewrite !rb_T. auto using rb_weaken.
    + intros fuel. by apply (insert_loop_black fuel s' (F d false x g (T d true xb y gy U) :: K2) d true p gp S xa (mv_tree _ _ _ _ M)).
Qed.

(** The loop on a path: the node is red, and its parent may be red as well. *)
Lemma insert_loop_ok fuel : ∀ s K d a x g b c n,
  (length K ≤ fuel)%nat →
  is_tree s (plug K (T d true a x g b)) → rb false n a → rb false n b → rbc K c n →
  ∃ s' W' m, insert_recolour_loop fuel s x = Ret s' ∧ moves s (plug K (T d true a x g b)) s' W' ∧ rb true m W'.
Proof.
  induction fuel as [fuel IH] using lt_wf_ind. intros s K d a x g b c n Hf Hs Ha Hb HK.
  assert (Ht : rb true n (T d true a x g b)) by (by apply rb_T).
  destruct K as [|[e [] p gp S] K1].
  - exists s, (T d true a x g b), n. rewrite (insert_loop_black _ _ _ _ _ _ _ _ _ Hs) by done.
    auto using moves_refl.
  - cbn in HK. destruct HK as (-> & HS & HK). destruct K1 as [|[d2 [] y gy U] K2]; [done|by destruct HK|].
    destruct HK as [HU HK]. destruct fuel as [|fuel]; [cbn in Hf; lia|].
    rewrite (insert_loop_red _ _ _ _ _ _ _ _ _ _ _ _ Hs), (insert_body_side s K2 d2 false y gy U e p gp _ S x Hs).
    destruct (red U) eqn:HrU.
    + destruct U as [|[] ul u gu ur]; [done| |done]. destruct HU as (_ & Hul & Hur).
      destruct (insert_red_uncle d2 s K2 e p gp _ S y gy ul u gu ur x Hs) as (s1 & -> & M1). cbn [obind].
      destruct (IH fuel ltac:(lia) s1 K2 d2 _ y gy _ false (Datatypes.S n) ltac:(cbn in Hf; lia) (mv_tree _ _ _ _ M1))
        as (s' & W' & m & E & M & Hm); [by rewrite rb_T; auto using rb_weaken|cbn; auto using rb_weaken|done|].
      exists s', W', m. split; [done|]. split; [by eapply moves_trans|done].
    + destruct (insert_rotate_ok s K2 d2 e y gy U p gp S d a x g b n Hs) as (s' & node & B & E & M & HB & Hl); [done..|].
      rewrite E. cbn [obind]. rewrite Hl. destruct (rb_plug K2 _ _ _ HB HK) as (m & Hm).
      exists s', (plug K2 B), m. auto using rb_weaken.
  - destruct (rb_plug (F e false p gp S :: K1) _ _ _ Ht HK) as (m & Hm).
    exists s, (plug (F e false p gp S :: K1) (T d true a x g b)), m.
    rewrite (insert_loop_black _ _ _ _ _ _ _ _ _ Hs) by done. auto using moves_refl, rb_weaken.
Qed.

(** [insert_recolour] on a new red node. *)
Lemma insert_recolour_ok s K d a x g b c n :
  (length K ≤ node_fuel s)%nat →
  is_tree s (plug K (T d true a x g b)) → rb false n a → rb false n b → rbc K c n →
  ∃ s' W' m, insert_recolour s x = Ret s' ∧ moves s (plug K (T d true a x g b)) s' W' ∧ rb false m W'.
Proof.
  intros Hf Hs Ha Hb HK. unfold insert_recolour.
  destruct (insert_loop_ok _ s K d a x g b c n Hf Hs Ha Hb HK) as (s1 & W1 & m & -> & M & Hm). cbn [obind].
  destruct W1 as [|c' l p gp r].
  { assert (Hx : x ∈ locs (plug K (T d true a x g b))) by (rewrite locs_plug, locs_T; set_solver).
    rewrite items_locs, <- (mv_items _ _ _ _ M) in Hx. by apply not_elem_of_nil in Hx. }
  rewrite (ta_path _ _ _ (mv_tree _ _ _ _ M)). cbn [rootp access obind].
  destruct (step_paint _ _ _ [] L c' l p gp r false M) as (s' & -> & M').
  destruct c'; cbn in Hm.
  - exists s', (N false l p gp r), (Datatypes.S m). destruct Hm as (_ & Hl & Hr). cbn. auto using rb_weaken.
  - exists s', (N false l p gp r), m. cbn. auto.
Qed.

(** ** After a removal *)

(** The loop body from the test of the children of [other] on. *)
Definition remove_rest (d : dir) (head : opr_rbtree) (parent other : Z) : out (nptr * nptr * bool * opr_rbtree) :=
  let! black := black_children head other in
  if black : bool then
    let! head := wr head other (set_red true) in
    let! pp := rd head parent n_parent in
    Ret (Some parent, pp, false, head)
  else
    let! far := rd head other (child (flip d)) in
    let! farred := is_red head far in
    let! (other, head) :=
      if negb farred then
        let! near := rd head other (child d) in
        let! near := access near in
        let! head := wr head near (set_red false) in
        let! head := wr head other (set_red true) in
        let! head := rotate (flip d) head other in
        let! o := rd head parent (child (flip d)) in
        let! other := access o in Ret (other, head)
      else Ret (other, head) in
    let! pred := rd head parent n_red in
    let! head := wr head other (set_red pred) in
    let! head := wr head parent (set_red false) in
    let! far := rd head other (child (flip d)) in
    let! far := access far in
    let! head := wr head far (set_red false) in
    let! head := rotate d head parent in
    Ret (rb_root head, Some parent, true, head).

Definition remove_side (d : dir) (head : opr_rbtree) (parent : Z) : out (nptr * nptr * bool * opr_rbtree) :=
  let! o := rd head parent (child (flip d)) in
  let! other := access o in
  let! ored := rd head other n_red in
  let! (other, head) :=
    if ored : bool then
      let! head := wr head other (set_red false) in
      let! head := wr head parent (set_red true) in
      let! head := rotate d head parent in
      let! o := rd head parent (child (flip d)) in
      let! other := access o in Ret (other, head)
    else Ret (other, head) in
  remove_rest d head parent other.

Lemma remove_recolour_body_eq s parent node :
  remove_recolour_body s parent node =
    let! pl := rd s parent n_left in
    if decide (pl = node) then remove_side L s parent else remove_side R s parent.
Proof. done. Qed.

(** The side of the parent on which the node, null or not, is found. *)
Lemma remove_body_side s K d c X p g O o :
  is_tree s (plug K (T d c X p g O)) → rootp O = Some o →
  remove_recolour_body s p (rootp X) = remove_side d s p.
Proof.
  intros Hs HO. rewrite remove_recolour_body_eq. pose proof (node_at s _ _ _ _ _ _ _ Hs) as Hp. run Hp.
  destruct d; cbn [n_left mkd]; [by rewrite decide_True|]. rewrite decide_False; [done|].
  destruct X as [|cx xl x gx xr]; cbn [rootp]; [by rewrite HO|].
  eapply root_other; [exact Hs|]. cbn. set_solver.
Qed.

(** A black sibling with two black children: the lack of a black node moves up. *)
Lemma remove_rest_up d s0 W0 s K c X p g oa o go ob :
  moves s0 W0 s (plug K (T d c X p g (T d false oa o go ob))) → red oa = false → red ob = false →
  ∃ s', remove_rest d s p o = Ret (Some p, kpar K, false, s') ∧
    moves s0 W0 s' (plug K (T d c X p g (T d true oa o go ob))).
Proof.
  intros M Ha Hb. unfold remove_rest, black_children.
  destruct d; cbn [T] in *; repeat (rb_step; rewrite ?Ha, ?Hb; rb_cbn); eauto.
Qed.

(** A black sibling whose outer child is red. *)
Lemma remove_rest_outer d s0 W0 s K c X p g oa o go fa f gf fb :
  moves s0 W0 s (plug K (T d c X p g (T d false oa o go (T d true fa f gf fb)))) →
  ∃ s', remove_rest d s p o = Ret (rb_root s', Some p, true, s') ∧
    moves s0 W0 s' (plug K (T d c (T d false X p g oa) o go (T d false fa f gf fb))).
Proof.
  intros M. unfold remove_rest, black_children. destruct d, (red oa) eqn:Ha; cbn [T] in *;
    repeat (rb_step; rewrite ?Ha; rb_cbn); eauto.
Qed.

(** A black sibling of which only the inner child is red. *)
Lemma remove_rest_inner d s0 W0 s K c X p g na nn gn nb o go ob :
  moves s0 W0 s (plug K (T d c X p g (T d false (T d true na nn gn nb) o go ob))) → red ob = false →
  ∃ s', remove_rest d s p o = Ret (rb_root s', Some p, true, s') ∧
    moves s0 W0 s' (plug K (T d c (T d false X p g na) nn gn (T d false nb o go ob))).
Proof.
  intros M Hb. unfold remove_rest, black_children. destruct d; cbn [T] in *;
    repeat (rb_step; rewrite ?Hb; rb_cbn); eauto.
Qed.

Lemma red_T d a p g b t : t = T d true a p g b → red t = true.
Proof. intros ->. by destruct d. Qed.

Lemma red_inv d t : red t = true → ∃ a p g b, t = T d true a p g b.
Proof. destruct t as [|[] l p g r]; [done| |done]. intros _. destruct d; [by exists l, p, g, r|by exists r, p, g, l]. Qed.

Lemma black_inv d b n t : rb b (S n) t → red t = false → ∃ l p g r, t = T d false l p g r ∧ rb true n l ∧ rb true n r.
Proof.
  destruct t as [|[] l p g r]; [done..|]. intros [Hl Hr] _.
  destruct d; [by exists l, p, g, r|by exists r, p, g, l].
Qed.

(** The body below a black sibling: up, or done. *)
Lemma remove_rest_ok d s0 W0 s K c X p g oa o go ob n b :
  moves s0 W0 s (plug K (T d c X p g (T d false oa o go ob))) →
  rb false n X → rb true n oa → rb true n ob → (c = true → b = true) →
  (∃ s', remove_rest d s p o = Ret (Some p, kpar K, false, s') ∧
     moves s0 W0 s' (plug K (T d c X p g (T d true oa o go ob))) ∧ rb false n oa ∧ rb false n ob) ∨
  (∃ s' B, remove_rest d s p o = Ret (rb_root s', Some p, true, s') ∧ moves s0 W0 s' (plug K B) ∧
     rb b (if c then S n else S (S n)) B).
Proof.
  intros M HX Ha Hb Hc. destruct (red ob) eqn:Eb; [right|destruct (red oa) eqn:Ea; [right|left]].
  - apply (red_inv d) in Eb as (fa & f & gf & fb & ->). apply rb_T in Hb as (_ & Hfa & Hfb).
    destruct (remove_rest_outer _ _ _ _ _ _ _ _ _ _ _ _ _ _ _ _ M) as (s' & E & M').
    eexists s', _. split; [done|]. split; [done|]. destruct c; rewrite !rb_T; auto 6 using rb_weaken.
  - apply (red_inv d) in Ea as (na & nn & gn & nb & ->). apply rb_T in Ha as (_ & Hna & Hnb).
    apply (red_false_rb false) in Hb; [|done].
    destruct (remove_rest_inner _ _ _ _ _ _ _ _ _ _ _ _ _ _ _ _ M) as (s' & E & M'); [done|].
    eexists s', _. split; [done|]. split; [done|]. destruct c; rewrite !rb_T; auto 6 using rb_weaken.
  - destruct (remove_rest_up _ _ _ _ _ _ _ _ _ _ _ _ _ M) as (s' & E & M'); [done..|].
    exists s'. auto using red_false_rb.
Qed.

(** A red sibling is first rotated above the parent. *)
Lemma remove_side_red d s K X p g oa o go ob oo :
  let W := plug K (T d false X p g (T d true oa o go ob)) in
  is_tree s W → rootp oa = Some oo →
  ∃ s', moves s W s' (plug (F d false o go ob :: K) (T d true X p g oa)) ∧
    remove_side d s p = remove_rest d s' p oo.
Proof.
  intros W M%moves_refl Hoo. subst W. unfold remove_side.
  destruct d; cbn [T] in *; repeat (rb_step; rewrite ?Hoo; rb_cbn); eauto.
Qed.

Lemma remove_side_black d s K c X p g oa o go ob :
  is_tree s (plug K (T d c X p g (T d false oa o go ob))) → remove_side d s p = remove_rest d s p o.
Proof.
  intros M%moves_refl. unfold remove_side. destruct d; cbn [T] in *; repeat (rb_step; rb_cbn); done.
Qed.

(** ** The loop *)

Definition blacken (t : tree) : tree := match t with E => E | N _ l p g r => N false l p g r end.

Lemma blacken_rb n t b : rb true n t → red t = true → rb b (S n) (blacken t).
Proof. destruct t as [|[] l p g r]; [done| |done]. cbn. intros (_ & Hl & Hr) _. auto using rb_weaken. Qed.

Lemma blacken_root n t : rb true n t → ∃ m, rb false m (blacken t).
Proof.
  destruct t as [|[] l p g r]; cbn; [by exists 0%nat| |by exists n].
  intros (_ & Hl & Hr). exists (S n). auto using rb_weaken.
Qed.

(** What the loop leaves: painting the node it ends on black restores the balance. *)
Definition settled (s0 : opr_rbtree) (W0 : tree) (node : nptr) (s : opr_rbtree) : Prop :=
  ∃ K Y m, moves s0 W0 s (plug K Y) ∧ node = rootp Y ∧ rb false m (plug K (blacken Y)).

Lemma rootp_plug f K : ∀ X, ∃ q, rootp (plug (f :: K) X) = Some q ∧ q ∈ klocs (f :: K).
Proof.
  revert f. induction K as [|f' K IH]; intros f X; cbn [plug].
  - exists (fp f). unfold plug1. rewrite rootp_T. cbn. split; [done|set_solver].
  - destruct (IH f' (plug1 f X)) as (q & E & Hq). exists q. split; [exact E|]. cbn in *. set_solver.
Qed.

(** A place below the root is not the root. *)
Lemma below_root s f K X : is_tree s (plug (f :: K) X) → rootp X ≠ rb_root s.
Proof.
  intros Hs E. pose proof (ta_path _ _ _ Hs) as Hr. cbn [repk] in Hr. rewrite Hr in E.
  destruct (rootp_plug f K X) as (q & Eq & Hq). cbn [plug] in *. rewrite Eq in E.
  apply rootp_locs in E. apply (focus s (f :: K)) in Hs as [_ _ Hd].
  apply NoDup_app in Hd as (_ & Hd & _). by apply (Hd q).
Qed.

(** A subtree with [n] black nodes on each path where one more is wanted, or red with
    that number once painted black. *)
Definition short (n : nat) (X : tree) : Prop :=
  rb false n X ∨ (red X = true ∧ ∀ b, rb b (S n) (blacken X)).

Lemma short_rb n X : rb true n X → short n X.
Proof.
  intros H. destruct (red X) eqn:E; [right|left; by apply red_false_rb].
  split; [done|]. intros b. by apply blacken_rb.
Qed.

Lemma rb_false_red n t : rb false n t → red t = false.
Proof. destruct t as [|[] l p g r]; cbn; [done|by intros [? _]|done]. Qed.

(** On a red node the loop ends, and painting it is enough. *)
Lemma remove_loop_red fuel s0 W0 s K X b n par :
  moves s0 W0 s (plug K X) → red X = true → rb b (S n) (blacken X) → rbc K b (S n) →
  remove_recolour_loop fuel s par (rootp X) = Ret (rootp X, s) ∧ settled s0 W0 (rootp X) s.
Proof.
  intros M HX HB HK. split.
  - destruct fuel; cbn [remove_recolour_loop]; by rewrite (is_red_at _ _ _ (mv_tree _ _ _ _ M)), HX.
  - destruct (rb_plug K _ _ _ HB HK) as [m Hm]. by exists K, X, m.
Qed.

(** After the final rotation the loop is left with the root. *)
Lemma settled_root s0 W0 s K B b n :
  moves s0 W0 s (plug K B) → rb b n B → rbc K b n → settled s0 W0 (rb_root s) s.
Proof.
  intros M HB HK. destruct (rb_plug K _ _ _ HB HK) as [m Hm]. exists [], (plug K B), m.
  split; [done|]. split; [apply (ta_path _ _ _ (mv_tree _ _ _ _ M))|]. cbn [plug].
  destruct (plug K B) as [|[] l p g r]; [done|by destruct Hm|done].
Qed.

(** The turn of the loop at a node with a red sibling. *)
Lemma remove_turn_red s0 W0 s K d X p g O n fuel :
  moves s0 W0 s (plug K (T d false X p g O)) → rb false n X → rb true (S n) O → red O = true →
  rbc K false (S (S n)) →
  ∃ node par brk s1, remove_side d s p = Ret (node, par, brk, s1) ∧
    ∃ node' s', (if brk : bool then Ret (node, s1) else remove_recolour_loop fuel s1 par node) = Ret (node', s') ∧
      settled s0 W0 node' s'.
Proof.
  intros M HX HO HrO HK. apply (red_inv d) in HrO as (oa & o & go & ob & ->).
  apply rb_T in HO as (_ & Hoa & Hob).
  destruct (black_inv d _ _ _ Hoa) as (l & oo & goo & r & Eo & Hl & Hr); [by eapply rb_false_red|]. subst oa.
  destruct (remove_side_red d s K X p g (T d false l oo goo r) o go ob oo (mv_tree _ _ _ _ M)) as (s1 & M1 & ->);
    [apply rootp_T|]. pose proof (moves_trans _ _ _ _ _ _ M M1) as M2.
  assert (HK' : ∀ b, rbc (F d false o go ob :: K) b (S n)) by (intros; cbn; auto using rb_weaken).
  destruct (remove_rest_ok d s0 W0 s1 _ true X p g l oo goo r n true M2) as [(s2 & E & M3 & Hl' & Hr')|(s2 & B & E & M3 & HB)];
    [done..| |].
  - exists (Some p), (kpar (F d false o go ob :: K)), false, s2. split; [done|].
    set (Y := T d true X p g (T d true l oo goo r)) in *.
    assert (EY : Some p = rootp Y) by (unfold Y; by rewrite rootp_T). rewrite EY. eexists _, _.
    apply (remove_loop_red fuel s0 W0 s2 _ Y true n _ M3); [by eapply red_T| |done].
    assert (EB : blacken Y = T d false X p g (T d true l oo goo r)) by (unfold Y; by destruct d).
    rewrite EB, !rb_T. auto 6 using rb_weaken.
  - exists (rb_root s2), (Some p), true, s2. split; [done|]. exists (rb_root s2), s2.
    split; [done|]. by eapply settled_root.
Qed.

(** Up from a node with a black sibling. *)
Lemma short_up d (c : bool) X p g oa o go ob n :
  rb false n X → rb false n oa → rb false n ob →
  short (if c then n else S n) (T d c X p g (T d true oa o go ob)).
Proof.
  intros HX Ha Hb. destruct c; [right|left; rewrite !rb_T; auto 6 using rb_weaken].
  split; [by eapply red_T|]. intros b.
  assert (EB : blacken (T d true X p g (T d true oa o go ob)) = T d false X p g (T d true oa o go ob)) by (by destruct d).
  rewrite EB, !rb_T. auto 6 using rb_weaken.
Qed.

(** The loop: it ends within as many turns as the path has nodes. *)
Lemma remove_loop_ok fuel : ∀ s0 W0 s K X b n,
  moves s0 W0 s (plug K X) → short n X → rbc K b (S n) → (length K ≤ fuel)%nat →
  ∃ node s', remove_recolour_loop fuel s (kpar K) (rootp X) = Ret (node, s') ∧ settled s0 W0 node s'.
Proof.
  induction fuel as [|fuel IH]; intros s0 W0 s K X b n M HX HK Hf;
    (destruct HX as [HX|[HX HB]]; [|eexists _, _; by eapply remove_loop_red]);
    cbn [remove_recolour_loop]; rewrite (is_red_at _ _ _ (mv_tree _ _ _ _ M)), (rb_false_red _ _ HX); cbn [obind orb];
    (destruct K as [|[d c p g O] K];
      [rewrite bool_decide_true by (symmetry; apply (ta_path _ _ _ (mv_tree _ _ _ _ M)));
       destruct (blacken_root n X) as [m Hm]; [by apply rb_weaken|]; eexists _, _; split; [done|by exists [], X, m]|]).
  { cbn in Hf. lia. }
  rewrite bool_decide_false by (eapply below_root, M). cbn [kpar fp access obind].
  assert (∃ o, rootp O = Some o) as [o Ho].
  { destruct O; [|by eexists]. destruct c; cbn in HK; intuition lia. }
  rewrite (remove_body_side s K d c X p g O o (mv_tree _ _ _ _ M) Ho).
  destruct (red O) eqn:HrO.
  - destruct c; cbn in HK; [destruct HK as (_ & HO & _); apply rb_false_red in HO; congruence|].
    destruct HK as [HO HK].
    destruct (remove_turn_red s0 W0 s K d X p g O n fuel M) as (node & par & brk & s1 & -> & ?); done.
  - assert (HO : rb true (S n) O) by (destruct c; cbn in HK; [apply rb_weaken|]; apply HK).
    apply (black_inv d) in HO as (oa & o' & go & ob & -> & Ha & Hb); [|done]. clear Ho o.
    rewrite (remove_side_black d s K c X p g oa o' go ob (mv_tree _ _ _ _ M)).
    assert (HK' : rbc K c (if c then S n else S (S n))) by (destruct c; cbn in HK; apply HK).
    destruct (remove_rest_ok d s0 W0 s K c X p g oa o' go ob n c M) as [(s2 & -> & M2 & Ha' & Hb')|(s2 & B & -> & M2 & HB)];
      [done..| |]; cbn [obind].
    + destruct (IH s0 W0 s2 K _ c (if c then n else S n) M2) as (node & s' & E & Hs'); [by apply short_up|by destruct c|cbn in Hf; lia|].
      rewrite rootp_T in E. eauto.
    + exists (rb_root s2), s2. split; [done|]. by eapply settled_root.
Qed.

(** [remove_recolour] where a black node is missing below the path [K]. *)
Lemma remove_recolour_ok s K X b n :
  is_tree s (plug K X) → rb true n X → rbc K b (S n) → (length K ≤ node_fuel s)%nat →
  ∃ s' W' m, remove_recolour s (kpar K) (rootp X) = Ret s' ∧ moves s (plug K X) s' W' ∧ rb false m W'.
Proof.
  intros M%moves_refl HX HK Hf. unfold remove_recolour.
  destruct (remove_loop_ok _ _ _ _ _ _ _ _ M (short_rb _ _ HX) HK Hf) as (node & s1 & -> & K' & Y & m & M1 & -> & Hm).
  cbn [obind]. destruct Y as [|c l p g r]; cbn [rootp wr_opt]; [by exists s1, (plug K' E), m|].
  destruct (step_paint _ _ _ K' L c l p g r false M1) as (s2 & -> & M2). by exists s2, (plug K' (T L false l p g r)), m.
Qed.
