(* ===== verification/RbTreeOps.v ===== *)
(** * Searching, linking and unlinking in a red-black tree

    What each operation of src/rbtree.c does to the tree its pointers represent, before
    the order of the nodes is looked at. *)
From stdpp Require Import base gmap list.
From Stdlib Require Import ZArith Lia.
From S2P Require Import Prelude Machine RbTree RbTreeFacts RbTreeBalance.

(** ** What is before and behind a place *)

Fixpoint before (K : list frame) : list (Z * Z) :=
  match K with
  | [] => []
  | F L _ _ _ _ :: K => before K
  | F R _ p g t :: K => before K ++ items t ++ [(p, g)]
  end.

Fixpoint behind (K : list frame) : list (Z * Z) :=
  match K with
  | [] => []
  | F L _ p g t :: K => (p, g) :: items t ++ behind K
  | F R _ _ _ _ :: K => behind K
  end.

Lemma items_path K : ∀ t, items (plug K t) = before K ++ items t ++ behind K.
Proof.
  induction K as [|[[] c p g u] K IH]; intros t; cbn; [by rewrite app_nil_r| |]; rewrite IH; cbn;
    by rewrite <- ?app_assoc.
Qed.

(** Every node of a tree is at the end of a path. *)
Lemma item_path t : ∀ x g, (x, g) ∈ items t → ∃ K c l r, t = plug K (N c l x g r).
Proof.
  induction t as [|c l IHl p gp r IHr]; intros x g Hx; [by apply not_elem_of_nil in Hx|].
  cbn in Hx. apply elem_of_app in Hx as [Hx|Hx]; [|apply elem_of_cons in Hx as [[= -> ->]|Hx]].
  - apply IHl in Hx as (K & c' & l' & r' & ->). exists (K ++ [F L c p gp r]), c', l', r'.
    by rewrite plug_app.
  - by exists [], c, l, r.
  - apply IHr in Hx as (K & c' & l' & r' & ->). exists (K ++ [F R c p gp l]), c', l', r'.
    by rewrite plug_app.
Qed.

Lemma locs_items x t : x ∈ locs t → ∃ g, (x, g) ∈ items t.
Proof. rewrite items_locs. intros ([y g] & -> & H)%list_elem_of_fmap. by exists g. Qed.

(** The nodes of a tree are allocated, so that [node_fuel] is enough for any path. *)
Lemma rep_allocd ns t : ∀ par x, rep ns par t → x ∈ locs t → is_Some (ns !! x).
Proof.
  induction t as [|c l IHl p g r IHr]; intros par x Ht Hx; [by apply not_elem_of_nil in Hx|].
  destruct Ht as (Hp & Hl & Hr). cbn in Hx. apply elem_of_app in Hx as [Hx|Hx]; [by eapply IHl|].
  apply elem_of_cons in Hx as [->|Hx]; [by eexists|by eapply IHr].
Qed.

Lemma tree_size s W : is_tree s W → (length (locs W) ≤ size (rb_nodes s))%nat.
Proof.
  intros [_ Ht Hd]. cbn in Hd. rewrite app_nil_r in Hd.
  rewrite <- size_dom, <- (size_list_to_set (C := gset Z) _ Hd). apply subseteq_size.
  intros x Hx. apply elem_of_list_to_set in Hx. apply elem_of_dom. by eapply rep_allocd.
Qed.

Lemma path_fuel s K t : is_tree s (plug K t) → (length K ≤ size (rb_nodes s))%nat.
Proof.
  intros H%tree_size. rewrite locs_plug, length_app in H.
  assert (length K ≤ length (klocs K))%nat; [|lia]. clear.
  induction K as [|f K IH]; cbn; [done|]. rewrite length_app. lia.
Qed.

(** ** Walking *)

Lemma leftmost_ok t : ∀ s K fuel p,
  is_tree s (plug K t) → rootp t = Some p → (size (rb_nodes s) ≤ length K + fuel)%nat →
  ∃ q g, leftmost fuel s p = Ret q ∧ head (items t) = Some (q, g).
Proof.
  induction t as [|c l IHl p g r _]; intros s K fuel p' Hs Hp Hf; [done|]. injection Hp as <-.
  pose proof (node_at s K L c l p g r Hs) as Hn.
  destruct l as [|c' l' p' g' r'] eqn:El.
  - exists p, g. destruct fuel; cbn [leftmost]; by run Hn.
  - rewrite <- El in *. assert (Hs' : is_tree s (plug (F L c p g r :: K) l)) by exact Hs.
    pose proof (path_fuel s (F L c' p' g' r' :: F L c p g r :: K) l') as Hpf.
    destruct fuel as [|fuel]; [rewrite El in Hs'; specialize (Hpf Hs'); cbn in Hpf; lia|].
    cbn [leftmost]. run Hn. rewrite El. cbn [rootp]. rewrite <- El.
    destruct (IHl s _ fuel p' Hs') as (q & gq & E & Hq); [by rewrite El|cbn; lia|].
    exists q, gq. split; [exact E|]. cbn. destruct (items l); [done|]. exact Hq.
Qed.

Lemma rightmost_ok t : ∀ s K fuel p,
  is_tree s (plug K t) → rootp t = Some p → (size (rb_nodes s) ≤ length K + fuel)%nat →
  ∃ q g, rightmost fuel s p = Ret q ∧ last (items t) = Some (q, g).
Proof.
  induction t as [|c l _ p g r IHr]; intros s K fuel p' Hs Hp Hf; [done|]. injection Hp as <-.
  pose proof (node_at s K L c l p g r Hs) as Hn.
  destruct r as [|c' l' p' g' r'] eqn:Er.
  - exists p, g. cbn. rewrite last_app. destruct fuel; cbn [rightmost]; by run Hn.
  - rewrite <- Er in *. assert (Hs' : is_tree s (plug (F R c p g l :: K) r)) by exact Hs.
    pose proof (path_fuel s (F R c' p' g' l' :: F R c p g l :: K) r') as Hpf.
    destruct fuel as [|fuel]; [rewrite Er in Hs'; specialize (Hpf Hs'); cbn in Hpf; lia|].
    cbn [rightmost]. run Hn. rewrite Er. cbn [rootp]. rewrite <- Er.
    destruct (IHr s _ fuel p' Hs') as (q & gq & E & Hq); [by rewrite Er|cbn; lia|].
    exists q, gq. split; [exact E|]. cbn. rewrite last_app, last_cons, Hq. done.
Qed.

Lemma climb_right_ok K : ∀ s fuel c l x g r,
  is_tree s (plug K (N c l x g r)) → (length K ≤ fuel)%nat →
  climb_right fuel s x = Ret (fst <$> head (behind K)).
Proof.
  induction K as [|[d c' p gp t] K IH]; intros s fuel c l x g r Hs Hf;
    pose proof (node_at s _ L c l x g r Hs) as Hn.
  - destruct fuel; cbn [climb_right]; by run Hn.
  - destruct fuel as [|fuel]; [cbn in Hf; lia|]. cbn [climb_right]. run Hn. cbn [n_parent mkd kpar fp].
    pose proof (node_at s K d c' _ p gp t Hs) as Hp. run Hp. destruct d; cbn [n_right mkd rootp].
    + rewrite decide_False; [done|]. eapply (root_other s K L c'); [exact Hs|cbn; set_solver].
    + rewrite decide_True by done. cbn [behind]. eapply IH; [exact Hs|cbn in Hf; lia].
Qed.

Lemma climb_left_ok K : ∀ s fuel c l x g r,
  is_tree s (plug K (N c l x g r)) → (length K ≤ fuel)%nat →
  climb_left fuel s x = Ret (fst <$> last (before K)).
Proof.
  induction K as [|[d c' p gp t] K IH]; intros s fuel c l x g r Hs Hf;
    pose proof (node_at s _ L c l x g r Hs) as Hn.
  - destruct fuel; cbn [climb_left]; by run Hn.
  - destruct fuel as [|fuel]; [cbn in Hf; lia|]. cbn [climb_left]. run Hn. cbn [n_parent mkd kpar fp].
    pose proof (node_at s K d c' _ p gp t Hs) as Hp. run Hp. destruct d; cbn [n_left mkd rootp before].
    + rewrite decide_True by done. eapply IH; [exact Hs|cbn in Hf; lia].
    + rewrite decide_False, app_assoc, last_snoc; [done|].
      eapply (root_other s K R c'); [exact Hs|cbn; set_solver].
Qed.

Lemma node_fuel_path s K t : is_tree s (plug K t) → (length K ≤ node_fuel s)%nat.
Proof. intros Hs%path_fuel. unfold node_fuel. lia. Qed.

Lemma next_ok s K c l x g r :
  is_tree s (plug K (N c l x g r)) →
  opr_rbtree_next s x = Ret (fst <$> head (items r ++ behind K)).
Proof.
  intros Hs. unfold opr_rbtree_next. pose proof (node_at s K L c l x g r Hs) as Hn. run Hn.
  cbn [n_right mkd]. destruct (rootp r) as [p|] eqn:Er.
  - destruct (leftmost_ok r s (F R c x g l :: K) (node_fuel s) p) as (q & gq & -> & Hq); [exact Hs|done|unfold node_fuel; lia|].
    cbn [obind]. destruct (items r); [done|]. injection Hq as ->. done.
  - destruct r; [|done]. cbn [items app]. eapply climb_right_ok; [exact Hs|by eapply node_fuel_path].
Qed.

Lemma prev_ok s K c l x g r :
  is_tree s (plug K (N c l x g r)) →
  opr_rbtree_prev s x = Ret (fst <$> last (before K ++ items l)).
Proof.
  intros Hs. unfold opr_rbtree_prev. pose proof (node_at s K L c l x g r Hs) as Hn. run Hn.
  cbn [n_left mkd]. destruct (rootp l) as [p|] eqn:El.
  - destruct (rightmost_ok l s (F L c x g r :: K) (node_fuel s) p) as (q & gq & -> & Hq); [exact Hs|done|unfold node_fuel; lia|].
    cbn [obind]. by rewrite last_app, Hq.
  - destruct l; [|done]. rewrite app_nil_r. eapply climb_left_ok; [exact Hs|by eapply node_fuel_path].
Qed.

Lemma first_last_ok s W :
  is_tree s W →
  opr_rbtree_first s = Ret (fst <$> head (items W)) ∧ opr_rbtree_last s = Ret (fst <$> last (items W)).
Proof.
  intros Hs. unfold opr_rbtree_first, opr_rbtree_last. rewrite (ta_path _ _ _ Hs : rb_root s = rootp W).
  destruct (rootp W) as [p|] eqn:Ep; [|by destruct W].
  destruct (leftmost_ok W s [] (node_fuel s) p Hs Ep) as (q & g & -> & ->); [unfold node_fuel; cbn; lia|].
  destruct (rightmost_ok W s [] (node_fuel s) p Hs Ep) as (q' & g' & -> & ->); [unfold node_fuel; cbn; lia|].
  done.
Qed.

(** ** Linking a new node *)

(** Where a pointer to the place at the end of a path is kept. *)
Definition slot_of (K : list frame) : slot :=
  match K with [] => RootSlot | F L _ p _ _ :: _ => LeftSlot p | F R _ p _ _ :: _ => RightSlot p end.

Lemma slot_get_ok s K t : is_tree s (plug K t) → slot_get s (slot_of K) = Ret (rootp t).
Proof.
  intros Hs. destruct K as [|[d c p g u] K]; cbn [slot_of slot_get].
  - f_equal. apply (ta_path _ _ _ Hs).
  - pose proof (node_at s K d c t p g u Hs) as Hp. by destruct d; cbn [slot_get]; run Hp.
Qed.

(** [*childptr = node] for a node set up outside the tree. *)
Lemma link_ok s K x g :
  is_tree s (plug K E) → x ∉ klocs K →
  rb_nodes s !! x = Some (mk_node None None (kpar K) true g) →
  ∃ s', slot_set s (slot_of K) (Some x) = Ret s' ∧ is_tree s' (plug K (N true E x g E)) ∧ keeps (klocs K) s s'.
Proof.
  intros Hs%focus Hx Hn. assert (Hd' : NoDup (locs (N true E x g E) ++ klocs K)).
  { cbn. constructor; [done|apply (ta_nodup _ _ _ Hs)]. }
  destruct Hs as [HK _ _]. destruct K as [|[d c p gp u] K]; cbn [slot_of slot_set].
  - eexists. split; [done|]. split; [|by constructor]. apply (unfocus _ [] (N true E x g E)). by constructor.
  - cbn in HK, Hx. destruct HK as (Hp & Hu & HK).
    assert (Hw : ∀ f, f (mkd d None (rootp u) (kpar K) c gp) = mkd d (Some x) (rootp u) (kpar K) c gp →
      ∃ s', wr s p f = Ret s' ∧ is_tree s' (plug (F d c p gp u :: K) (N true E x g E)) ∧
            keeps (klocs (F d c p gp u :: K)) s s').
    { intros f Ef. rewrite (wr_ok _ _ _ _ Hp), Ef. eexists. split; [done|].
      pose proof Hd' as Hd2. cbn in Hd2. apply NoDup_cons in Hd2 as [_ Hd2]. apply NoDup_cons in Hd2 as [Hd2 _].
      split; [|eapply keeps_weaken; [|apply keeps_insert]; set_solver].
      apply unfocus. constructor; cbn; [|rewrite lookup_insert_ne by set_solver; done|done].
      rewrite lookup_insert_eq. split; [done|]. split; [eapply rep_ext; [|done]|eapply repk_ext; [|done]];
        intros y Hy; apply lookup_insert_ne; set_solver. }
    destruct d; cbn [slot_of slot_set]; by apply Hw.
Qed.

Lemma is_tree_ext s s' W :
  is_tree s W → rb_root s' = rb_root s → (∀ y, y ∈ locs W → rb_nodes s' !! y = rb_nodes s !! y) →
  is_tree s' W.
Proof.
  intros [HK Ht Hd] Hr Hn. constructor; [cbn in *; congruence| |done]. by eapply rep_ext.
Qed.

(** The generation given to a node is never zero, the mark of a node in no tree. *)
Lemma new_gen_nonzero g :
  u32 (u64 (g + 1)) ≠ 0 ∨ (u32 (u64 (g + 1)) = 0 ∧ u32 (u64 (u64 (g + 1) + 1)) = 1).
Proof.
  destruct (decide (u32 (u64 (g + 1)) = 0)) as [E|]; [right|by left]. split; [done|].
  rewrite wrapu_narrow by lia. rewrite wrapu_narrow in E by lia.
  rewrite <- (wrapu_narrow 32 64 (u64 (g + 1) + 1)) by lia. unfold wrapu in *. lia.
Qed.

(** The fields of a new node are filled in before it is linked. *)
Lemma insert_at_prep s par sl x n0 :
  rb_nodes s !! x = Some n0 →
  ∃ s1 g, opr_rbtree_insert_at s par sl x =
      (let! s2 := slot_set s1 sl (Some x) in insert_recolour s2 x) ∧
    rb_nodes s1 !! x = Some (mk_node None None par true g) ∧ g ≠ 0 ∧
    (∀ y, y ≠ x → rb_nodes s1 !! y = rb_nodes s !! y) ∧ rb_root s1 = rb_root s ∧ rb_size s1 = rb_size s.
Proof.
  intros Hx. unfold opr_rbtree_insert_at. rewrite (wr_ok _ _ _ _ Hx). cbn [obind].
  do 3 (erewrite wr_ok by (cbn; apply lookup_insert_eq); cbn [obind]).
  erewrite wr_ok by (cbn; apply lookup_insert_eq). cbn [obind].
  erewrite rd_ok by (cbn; apply lookup_insert_eq). cbn [obind].
  cbn [rb_nodes rb_gen rb_root rb_size set_nodes set_hgen set_parent set_right set_left set_red set_gen
    n_gen n_left n_right n_parent n_red]. rewrite !insert_insert_eq.
  destruct (new_gen_nonzero (rb_gen s)) as [Hg|[Hg Hg']].
  - rewrite (proj2 (Z.eqb_neq _ _) Hg). cbn [obind]. eexists _, _. split; [done|]. cbn.
    rewrite lookup_insert_eq. split; [done|]. split; [done|]. split; [|done].
    intros y Hy. by apply lookup_insert_ne.
  - rewrite (proj2 (Z.eqb_eq _ _) Hg). erewrite wr_ok by (cbn; apply lookup_insert_eq). cbn [obind].
    cbn [rb_nodes rb_gen rb_root rb_size set_nodes set_hgen set_gen n_left n_right n_parent n_red].
    rewrite insert_insert_eq, Hg'. eexists _, 1. split; [done|]. cbn.
    rewrite lookup_insert_eq. split; [done|]. split; [done|]. split; [|done].
    intros y Hy. by apply lookup_insert_ne.
Qed.

(** [opr_rbtree_insert_at] at the end of a path. *)
Lemma insert_at_ok s K x n0 c :
  is_tree s (plug K E) → x ∉ klocs K → rb_nodes s !! x = Some n0 → rbc K c 0 →
  ∃ s' W' g m, opr_rbtree_insert_at s (kpar K) (slot_of K) x = Ret s' ∧ is_tree s' W' ∧
    items W' = before K ++ (x, g) :: behind K ∧ g ≠ 0 ∧ rb false m W' ∧
    (∀ y, y ∉ x :: klocs K → rb_nodes s' !! y = rb_nodes s !! y) ∧ rb_size s' = rb_size s.
Proof.
  intros Hs Hx Hn HK. destruct (insert_at_prep s (kpar K) (slot_of K) x n0 Hn) as (s1 & g & -> & Hx1 & Hg & Ho & Hr & Hsz).
  assert (Hs1 : is_tree s1 (plug K E)).
  { eapply is_tree_ext; [done|done|]. intros y. rewrite locs_plug. cbn. intros Hy. apply Ho. by intros ->. }
  destruct (link_ok s1 K x g Hs1 Hx Hx1) as (s2 & -> & Hs2 & [Hk2 Hsz2 _]). cbn [obind].
  destruct (insert_recolour_ok s2 K L E x g E c 0) as (s3 & W3 & m & -> & [Ht Hi [Hk3 Hsz3 _]] & Hm);
    [by eapply node_fuel_path|done..|].
  exists s3, W3, g, m. split; [done|]. split; [done|].
  split; [by rewrite Hi, items_path|]. split; [done|]. split; [done|]. split; [|congruence].
  intros y Hy. rewrite Hk3, Hk2, Ho; [done|set_solver|set_solver|]. rewrite locs_plug. cbn. set_solver.
Qed.

(** ** Unlinking *)

Lemma set_gen_ok s K c l x g r v :
  is_tree s (plug K (N c l x g r)) →
  ∃ s', wr s x (set_gen v) = Ret s' ∧ is_tree s' (plug K (N c l x v r)) ∧
        (∀ y, y ≠ x → rb_nodes s' !! y = rb_nodes s !! y) ∧ rb_size s' = rb_size s ∧ rb_gen s' = rb_gen s.
Proof.
  intros Hs. pose proof (node_at s K L c l x g r Hs) as Hn. rewrite (wr_ok _ _ _ _ Hn).
  apply focus in Hs as [HK Ht Hd]. eexists. split; [done|].
  assert (Hx : x ∉ locs l ++ locs r ++ klocs K).
  { cbn in Hd. rewrite <- app_assoc in Hd. apply NoDup_app in Hd as (_ & Hl & Hd).
    cbn in Hd. apply NoDup_cons in Hd as [Hr _]. set_solver. }
  split; [|split; [|done]].
  - apply unfocus. destruct Ht as (_ & Hl & Hr). constructor; [| |done]; cbn.
    + eapply repk_ext; [|done]. intros y Hy. apply lookup_insert_ne. set_solver.
    + rewrite lookup_insert_eq. split; [done|]. split; (eapply rep_ext; [|done]); intros y Hy;
        apply lookup_insert_ne; set_solver.
  - intros y Hy. cbn. by apply lookup_insert_ne.
Qed.

(** The subtree [X] put in the place of the node [x]. *)
Lemma splice_ok s K x n X :
  rb_nodes s !! x = Some n → n_parent n = kpar K → repk (rb_nodes s) (rb_root s) K (Some x) →
  rep (rb_nodes s) (kpar K) X → NoDup (x :: locs X ++ klocs K) →
  ∃ s', update_parent_ptr s x (rootp X) = Ret s' ∧ is_tree s' (plug K X) ∧ keeps (klocs K) s s'.
Proof.
  intros Hx Hp HK HX Hd. apply NoDup_cons in Hd as [Hx' Hd]. pose proof Hd as Hd0.
  apply NoDup_app in Hd as (_ & Hd1 & Hd2).
  destruct (update_parent_ok s K x n (rootp X)) as (s' & E & HK' & Hk); [done..|set_solver|].
  exists s'. split; [done|]. split; [|done]. apply unfocus. constructor; [done| |done].
  eapply rep_ext; [|done]. intros y Hy. apply Hk. by apply Hd1.
Qed.

(** The balance where a node of colour [c] is taken away above [X]. *)
Definition lacks (c b : bool) (n : nat) (X : tree) : Prop :=
  if c then rb b n X else ∃ m, n = S m ∧ rb true m X.

Lemma lacks_child d c b n x g X Y : rb b n (T d c Y x g X) → lacks c b n X.
Proof.
  rewrite rb_T. destruct c; [intros (-> & _ & H); cbn; by apply rb_weaken|].
  destruct n as [|m]; [done|]. intros [_ H]. by exists m.
Qed.

(** The node gone was red and nothing is left to do, or it was black and the tree is
    rebalanced from its place on. *)
Lemma finish_ok s s1 A K X (c b : bool) n :
  is_tree s1 (plug K X) → keeps A s s1 → locs X ++ klocs K ⊆ A → lacks c b n X → rbc K b n →
  ∃ s' W' m, (if c then Ret s1 else remove_recolour s1 (kpar K) (rootp X)) = Ret s' ∧ is_tree s' W' ∧
    items W' = items (plug K X) ∧ rb false m W' ∧ keeps A s s'.
Proof.
  intros Hs HA Hsub Hl HK. destruct c; cbn in Hl.
  - destruct (rb_plug K X b n Hl HK) as [m Hm]. by exists s1, (plug K X), m.
  - destruct Hl as (m & -> & Hm).
    destruct (remove_recolour_ok s1 K X b m) as (s' & W' & m' & E & [Ht Hi Hk] & Hm'); [done..|by eapply node_fuel_path|].
    exists s', W', m'. split; [done|]. split; [done|]. split; [done|]. split; [done|].
    eapply keeps_trans; [done|]. eapply keeps_weaken; [|done]. intros y. rewrite locs_plug. apply Hsub.
Qed.

(** [unlinked s K l x r s']: from the tree with [x] between [l] and [r] below [K] to a
    balanced tree without [x], which itself is not written to. *)
Definition unlinked (s : opr_rbtree) (K : list frame) (l r : tree) (s' : opr_rbtree) : Prop :=
  ∃ W' m, is_tree s' W' ∧ items W' = before K ++ (items l ++ items r) ++ behind K ∧ rb false m W' ∧
    keeps (locs l ++ locs r ++ klocs K) s s'.

Lemma node_nodup s K c l x g r :
  is_tree s (plug K (N c l x g r)) → NoDup (x :: locs l ++ locs r ++ klocs K).
Proof.
  intros [_ _ Hd]%focus. cbn in Hd.
  assert (HP : (locs l ++ x :: locs r) ++ klocs K ≡ₚ x :: locs l ++ locs r ++ klocs K) by solve_Permutation.
  by rewrite HP in Hd.
Qed.

Lemma remove_leaf_ok s K c x g b n :
  is_tree s (plug K (N c E x g E)) → rb b n (N c E x g E) → rbc K b n →
  ∃ s', remove_leaf s x = Ret s' ∧ unlinked s K E E s'.
Proof.
  intros Hs Hb HK. unfold remove_leaf. pose proof (node_at s K L c E x g E Hs) as Hx.
  pose proof (node_nodup _ _ _ _ _ _ _ Hs) as Hd. cbn in Hd. apply focus in Hs as [Hp _ _].
  destruct (splice_ok s K x _ E Hx) as (s1 & Eu & Hs1 & Hk1); [done..|].
  cbn [rootp] in Eu. rewrite Eu. cbn [obind].
  assert (Hx1 : rb_nodes s1 !! x = rb_nodes s !! x) by (apply Hk1; by apply NoDup_cons in Hd as [? _]).
  rewrite Hx in Hx1. run Hx1. cbn [n_red mkd].
  destruct (finish_ok s s1 (klocs K) K E c b n) as (s' & W' & m & E & Ht & Hi & Hm & Hk);
    [done|done|done|by eapply (lacks_child L)|done|].
  exists s'. split; [destruct c; [exact E|run Hx1; exact E]|].
  exists W', m. rewrite items_path in Hi. done.
Qed.

Lemma remove_one_ok s K c x g l r X b n :
  is_tree s (plug K (N c l x g r)) → rb b n (N c l x g r) → rbc K b n →
  (l = E ∧ r = X ∨ l = X ∧ r = E) → X ≠ E →
  ∃ s', remove_one s x = Ret s' ∧ unlinked s K l r s'.
Proof.
  intros Hs Hb HK HX HE. unfold remove_one. pose proof (node_at s K L c l x g r Hs) as Hx.
  pose proof (node_nodup _ _ _ _ _ _ _ Hs) as Hd. apply focus in Hs as [Hp (_ & Hl & Hr) _].
  assert (HXr : rep (rb_nodes s) (Some x) X) by (by destruct HX as [[_ <-]|[<- _]]).
  assert (HA : locs l ++ locs r ++ klocs K = locs X ++ klocs K) by (by destruct HX as [[-> ->]|[-> ->]]; cbn).
  assert (Hlk : lacks c b n X) by (destruct HX as [[_ ->]|[-> _]]; [eapply (lacks_child L)|eapply (lacks_child R)]; exact Hb).
  assert (Hit : items l ++ items r = items X) by (destruct HX as [[-> ->]|[-> ->]]; cbn; by rewrite ?app_nil_r).
  rewrite HA in Hd. pose proof Hd as Hd'. apply NoDup_cons in Hd' as [Hx' Hd']. apply NoDup_app in Hd' as (HdX & Hdis & HdK).
  do 2 run Hx. cbn [n_left n_right n_parent mkd]. destruct X as [|cX lX pX gX rX]; [done|]. set (X := N cX lX pX gX rX) in *.
  assert (Ec : match rootp l with Some _ => match rootp r with Some _ => None | None => rootp l end
               | None => rootp r end = rootp X).
  { by destruct HX as [[-> ->]|[-> ->]]; cbn. }
  rewrite Ec. change (access (rootp X)) with (Ret pX). cbn [obind]. run Hx. cbn [n_parent mkd].
  destruct (reparent_ok s (Some x) (kpar K) X HXr HdX) as (s1 & E1 & HX1 & [Hk1 Hsz1 Hg1] & Hr1).
  change (wr s pX (set_parent (kpar K))) with (wr_opt s (rootp X) (set_parent (kpar K))). rewrite E1. cbn [obind].
  assert (Hx1 : rb_nodes s1 !! x = rb_nodes s !! x) by (apply Hk1; set_solver). rewrite Hx in Hx1.
  destruct (splice_ok s1 K x _ X Hx1) as (s2 & E2 & Hs2 & [Hk2 Hsz2 Hg2]); [done| |done|done|].
  { rewrite Hr1. eapply repk_ext; [|exact Hp]. intros y Hy. apply Hk1. intros Hy'. by apply (Hdis y). }
  rewrite E2. cbn [obind].
  assert (Hx2 : rb_nodes s2 !! x = rb_nodes s1 !! x) by (apply Hk2; set_solver). rewrite Hx1 in Hx2.
  run Hx2. cbn [n_red mkd].
  destruct (finish_ok s s2 (locs X ++ klocs K) K X c b n) as (s' & W' & m & E & Ht & Hi & Hm & Hk); [done| |done|done|done|].
  { constructor; [|congruence..]. intros y Hy. rewrite Hk2, Hk1 by set_solver. done. }
  exists s'. split; [destruct c; [exact E|run Hx2; exact E]|].
  exists W', m. rewrite HA, Hit, <- items_path. done.
Qed.

(** ** A node with two children *)

Definition kparb (base : nptr) (D : list frame) : nptr :=
  match D with [] => base | f :: _ => Some (fp f) end.

(** A path inside a subtree below [base]. *)
Fixpoint rep_path (ns : nodes) (base : nptr) (D : list frame) (h : nptr) : Prop :=
  match D with
  | [] => True
  | F d c p g t :: D => ns !! p = Some (mkd d h (rootp t) (kparb base D) c g) ∧
                        rep ns (Some p) t ∧ rep_path ns base D (Some p)
  end.

Lemma rep_plug ns base D : ∀ t,
  rep ns base (plug D t) ↔ rep_path ns base D (rootp t) ∧ rep ns (kparb base D) t.
Proof.
  induction D as [|[d c p g u] D IH]; intros t; cbn [plug rep_path kparb fp]; [tauto|].
  rewrite IH. unfold plug1. cbn. rewrite rep_T, rootp_T. tauto.
Qed.

Lemma rep_path_ext ns ns' base D h :
  (∀ x, x ∈ klocs D → ns' !! x = ns !! x) → rep_path ns base D h → rep_path ns' base D h.
Proof.
  revert h. induction D as [|[d c p g t] D IH]; intros h Hx; [done|]. cbn in *.
  intros (Hp & Ht & HD). split; [rewrite Hx by set_solver; done|].
  split; [eapply rep_ext; [|done]|apply IH; [|done]]; intros; apply Hx; set_solver.
Qed.

Lemma leftmost_path r :
  r ≠ E → ∃ D cy y gy yr, r = plug D (N cy E y gy yr) ∧ Forall (λ f, fd f = L) D.
Proof.
  induction r as [|c l IHl p g r _]; [done|]. intros _. destruct l as [|c' l' p' g' r'].
  - by exists [], c, p, g, r.
  - destruct IHl as (D & cy & y & gy & yr & E & HD); [done|].
    exists (D ++ [F L c p g r]), cy, y, gy, yr. rewrite plug_app, <- E. split; [done|].
    apply Forall_app. by repeat constructor.
Qed.

Lemma before_left D : Forall (λ f, fd f = L) D → before D = [].
Proof. induction 1 as [|[d c p g t] D Hd _ IH]; [done|]. cbn in Hd. by subst d. Qed.

Lemma rootp_plug_any f D t t' : rootp (plug (f :: D) t) = rootp (plug (f :: D) t').
Proof.
  revert f t t'. induction D as [|f' D IH]; intros f t t'; cbn [plug]; [by unfold plug1; rewrite !rootp_T|].
  apply IH.
Qed.

(** The child [yr] put in the place of its parent, a left child. *)
Lemma drop_left_ok s base cf pf gf uf D y yr :
  let f := F L cf pf gf uf in let r' := plug (f :: D) yr in
  rep_path (rb_nodes s) base (f :: D) (Some y) → rep (rb_nodes s) (Some y) yr → NoDup (locs r') →
  ∃ s', (∀ A (k : opr_rbtree → out A),
           (let! s := wr_opt s (rootp yr) (set_parent (Some pf)) in
            let! s := wr s pf (set_left (rootp yr)) in k s) = k s') ∧
    rep (rb_nodes s') base r' ∧ keeps (locs r') s s' ∧ rb_root s' = rb_root s.
Proof.
  intros f r' HD Hyr Hd. assert (HP : locs r' ≡ₚ pf :: locs yr ++ locs uf ++ klocs D).
  { unfold r'. rewrite locs_plug. cbn. solve_Permutation. }
  pose proof Hd as Hd0. rewrite HP in Hd. apply NoDup_cons in Hd as [Hdp Hd].
  apply NoDup_app in Hd as (Hdyr & Hdis & _). cbn [rep_path f] in HD. destruct HD as (Hpf & Huf & HD).
  destruct (reparent_ok s (Some y) (Some pf) yr Hyr Hdyr) as (s1 & E1 & Hyr1 & [Hk1 Hsz1 Hg1] & Hr1).
  assert (Hpf1 : rb_nodes s1 !! pf = rb_nodes s !! pf) by (apply Hk1; set_solver). rewrite Hpf in Hpf1.
  pose proof (wr_ok _ _ _ (set_left (rootp yr)) Hpf1) as E2. set (s2 := put s1 pf _) in E2.
  assert (Hk2 : ∀ z, z ∉ pf :: locs yr → rb_nodes s2 !! z = rb_nodes s !! z).
  { intros z Hz. cbn. rewrite lookup_insert_ne, Hk1 by set_solver. done. }
  assert (Hz : ∀ z, z ∈ locs uf ++ klocs D → z ∉ pf :: locs yr).
  { intros z Hz [->|Hz']%elem_of_cons; [set_solver|]. by apply (Hdis z). }
  exists s2. split; [intros A k; by rewrite E1; cbn [obind]; rewrite E2|]. split; [|split; [|done]].
  - apply rep_plug. cbn [rep_path kparb fp]. split; [split; [apply lookup_insert_eq|split]|].
    + eapply rep_ext; [|done]. intros z ?. apply Hk2, Hz. set_solver.
    + eapply rep_path_ext; [|done]. intros z ?. apply Hk2, Hz. set_solver.
    + eapply rep_ext; [|exact Hyr1]. intros z ?. apply lookup_insert_ne. set_solver.
  - constructor; [|done..]. intros z Hz'. apply Hk2. rewrite HP in Hz'. set_solver.
Qed.

(** The successor [y] is taken out of the right subtree, whose other nodes it then
    becomes the parent of. *)
Lemma detach_ok s x cf pf gf uf D y cx gy yr :
  let f := F L cf pf gf uf in let r' := plug (f :: D) yr in
  rb_nodes s !! y = Some (mk_node None (rootp yr) (Some pf) cx gy) →
  (∃ n, rb_nodes s !! x = Some n ∧ n_right n = rootp r') →
  rep_path (rb_nodes s) (Some x) (f :: D) (Some y) → rep (rb_nodes s) (Some y) yr →
  NoDup (x :: y :: locs r') →
  ∃ s', (∀ A (k : opr_rbtree → out A),
           (let! s := wr_opt s (rootp yr) (set_parent (Some pf)) in
            let! s := wr s pf (set_left (rootp yr)) in
            let! or := rd s x n_right in
            let! s := wr s y (set_right or) in
            let! or := rd s x n_right in
            let! or := access or in
            let! s := wr s or (set_parent (Some y)) in k s) = k s') ∧
    rep (rb_nodes s') (Some y) r' ∧ rb_nodes s' !! y = Some (mk_node None (rootp r') (Some pf) cx gy) ∧
    keeps (y :: locs r') s s' ∧ rb_root s' = rb_root s.
Proof.
  intros f r' Hy (n & Hx & Hn) HD Hyr Hd. apply NoDup_cons in Hd as [Hdx Hd]. apply NoDup_cons in Hd as [Hdy Hd].
  destruct (drop_left_ok s (Some x) cf pf gf uf D y yr) as (s1 & E1 & Hr1 & [Hk1 Hsz1 Hg1] & Hrt1); [done..|].
  fold f r' in Hr1, Hk1. rewrite <- Hk1 in Hx, Hy by set_solver.
  set (s2 := put s1 y (mk_node None (rootp r') (Some pf) cx gy)).
  assert (Hx2 : rb_nodes s2 !! x = Some n) by (cbn; rewrite lookup_insert_ne by set_solver; done).
  destruct (rootp_plug f D yr) as (q & Eq & _). fold r' in Eq.
  destruct (reparent_ok s2 (Some x) (Some y) r') as (s3 & E3 & Hr3 & [Hk3 Hsz3 Hg3] & Hrt3); [|done|].
  { eapply rep_ext; [|done]. intros z Hz. apply lookup_insert_ne. set_solver. }
  rewrite Eq in E3. cbn [wr_opt] in E3. exists s3. split.
  { intros A k. rewrite E1. run Hx. rewrite Hn. run Hy. change (put s1 y _) with s2. run Hx2. rewrite Hn, Eq.
    cbn [access obind]. by rewrite E3. }
  split; [done|]. split; [rewrite Hk3 by set_solver; apply lookup_insert_eq|].
  split; [|etrans; [exact Hrt3|exact Hrt1]].
  constructor; [|etrans; [exact Hsz3|exact Hsz1]|etrans; [exact Hg3|exact Hg1]].
  intros z Hz. rewrite Hk3 by set_solver. cbn. rewrite lookup_insert_ne by set_solver. apply Hk1. set_solver.
Qed.

(** The successor takes over the place of [x] and its left subtree. *)
Lemma graft_ok s K x n y yl yp cx gy l lp r :
  rb_nodes s !! x = Some n → n_parent n = kpar K → n_left n = rootp l → rootp l = Some lp →
  rb_nodes s !! y = Some (mk_node yl (rootp r) yp cx gy) →
  rep (rb_nodes s) (Some x) l → rep (rb_nodes s) (Some y) r → repk (rb_nodes s) (rb_root s) K (Some y) →
  NoDup (x :: y :: locs l ++ locs r ++ klocs K) →
  ∃ s', (∀ A (k : opr_rbtree → out A),
           (let! op := rd s x n_parent in
            let! s := wr s y (set_parent op) in
            let! ol := rd s x n_left in
            let! s := wr s y (set_left ol) in
            let! ol := rd s x n_left in
            let! ol := access ol in
            let! s := wr s ol (set_parent (Some y)) in k s) = k s') ∧
    is_tree s' (plug K (N cx l y gy r)) ∧ keeps (y :: locs l) s s'.
Proof.
  intros Hx Hp Hl Hlp Hy Hrl Hrr HK Hd. apply NoDup_cons in Hd as [Hdx Hd]. pose proof Hd as Hd0.
  apply NoDup_cons in Hd as [Hdy Hd]. apply NoDup_app in Hd as (Hdl & Hdis & _).
  set (s1 := put s y (mk_node yl (rootp r) (kpar K) cx gy)).
  assert (Hx1 : rb_nodes s1 !! x = Some n) by (cbn; rewrite lookup_insert_ne by set_solver; done).
  assert (Hy1 : rb_nodes s1 !! y = Some (mk_node yl (rootp r) (kpar K) cx gy)) by apply lookup_insert_eq.
  set (s2 := put s1 y (mk_node (rootp l) (rootp r) (kpar K) cx gy)).
  assert (Hx2 : rb_nodes s2 !! x = Some n) by (cbn; rewrite !lookup_insert_ne by set_solver; done).
  assert (Hk2 : ∀ z, z ≠ y → rb_nodes s2 !! z = rb_nodes s !! z) by (intros z Hz; cbn; by rewrite !lookup_insert_ne).
  destruct (reparent_ok s2 (Some x) (Some y) l) as (s3 & E3 & Hl3 & [Hk3 Hsz3 Hg3] & Hrt3); [|done|].
  { eapply rep_ext; [|done]. intros z Hz. apply Hk2. set_solver. }
  rewrite Hlp in E3. cbn [wr_opt] in E3. exists s3. split.
  { intros A k. run Hx. rewrite Hp. run Hy. change (put s y _) with s1. run Hx1. rewrite Hl. run Hy1.
    change (put s1 y _) with s2. run Hx2. rewrite Hl, Hlp. cbn [access obind]. by rewrite E3. }
  split.
  - apply unfocus. constructor; cbn.
    + rewrite Hrt3. eapply repk_ext; [|exact HK]. intros z Hz. rewrite Hk3, Hk2; [done|set_solver|].
      intros Hz'. apply (Hdis z Hz'). set_solver.
    + split; [rewrite Hk3 by set_solver; apply lookup_insert_eq|]. split; [done|].
      eapply rep_ext; [|exact Hrr]. intros z Hz. rewrite Hk3, Hk2; [done|set_solver|].
      intros Hz'. apply (Hdis z Hz'). set_solver.
    + assert (HP : y :: locs l ++ locs r ++ klocs K ≡ₚ (locs l ++ y :: locs r) ++ klocs K) by solve_Permutation.
      by rewrite <- HP.
  - constructor; [|done..]. intros z Hz. rewrite Hk3, Hk2; [done|set_solver|set_solver].
Qed.

Lemma rbc_rename D d c x g y g' t K : ∀ b n,
  rbc (D ++ F d c x g t :: K) b n → rbc (D ++ F d c y g' t :: K) b n.
Proof. induction D as [|[? [] ? ? ?] D IH]; intros b n; cbn; [done|naive_solver..]. Qed.

(** What is known of the tree when the successor has been found. *)
Lemma two_setup s K c l x g D cy y gy yr :
  let r := plug D (N cy E y gy yr) in
  is_tree s (plug K (N c l x g r)) → Forall (λ f, fd f = L) D →
  rb_nodes s !! x = Some (mk_node (rootp l) (rootp r) (kpar K) c g) ∧
  rb_nodes s !! y = Some (mk_node None (rootp yr) (kparb (Some x) D) cy gy) ∧
  rep (rb_nodes s) (Some x) l ∧ rep_path (rb_nodes s) (Some x) D (Some y) ∧ rep (rb_nodes s) (Some y) yr ∧
  repk (rb_nodes s) (rb_root s) K (Some x) ∧ NoDup (x :: y :: locs l ++ locs (plug D yr) ++ klocs K) ∧
  locs r ≡ₚ y :: locs (plug D yr) ∧
  ∀ p, rootp r = Some p → leftmost (node_fuel s) s p = Ret y.
Proof.
  intros r Hs HD. pose proof (node_nodup _ _ _ _ _ _ _ Hs) as Hd.
  assert (HP : locs r ≡ₚ y :: locs (plug D yr)).
  { unfold r. rewrite !locs_plug. cbn. done. }
  assert (HP' : x :: locs l ++ locs r ++ klocs K ≡ₚ x :: y :: locs l ++ locs (plug D yr) ++ klocs K).
  { rewrite HP. solve_Permutation. }
  rewrite HP' in Hd. pose proof Hs as Hs'. apply focus in Hs' as [HK (Hx & Hl & Hr) _].
  apply rep_plug in Hr as [Hp (Hy & _ & Hyr)].
  repeat (split; [done|]). intros p Hp'.
  destruct (leftmost_ok r s (F R c x g l :: K) (node_fuel s) p Hs Hp') as (q & gq & E & Hq); [unfold node_fuel; lia|].
  unfold r in Hq. rewrite items_path, before_left in Hq by done. cbn in Hq. injection Hq as -> ->. done.
Qed.

(** From the colour of the successor to the linkage of the old node. *)
Lemma two_middle s x n D cy y cx gy yr :
  Forall (λ f, fd f = L) D →
  rb_nodes s !! y = Some (mk_node None (rootp yr) (kparb (Some x) D) cx gy) →
  rb_nodes s !! x = Some n → n_right n = rootp (plug D (N cy E y gy yr)) →
  rep_path (rb_nodes s) (Some x) D (Some y) → rep (rb_nodes s) (Some y) yr →
  NoDup (x :: y :: locs (plug D yr)) →
  ∃ s' yp,
    (if decide (kparb (Some x) D = Some x) then Ret (Some y, s)
     else
       let! s := wr_opt s (rootp yr) (set_parent (kparb (Some x) D)) in
       let! p := access (kparb (Some x) D) in
       let! s := wr s p (set_left (rootp yr)) in
       let! or := rd s x n_right in
       let! s := wr s y (set_right or) in
       let! or := rd s x n_right in
       let! or := access or in
       let! s := wr s or (set_parent (Some y)) in
       Ret (kparb (Some x) D, s)) = Ret (kparb (Some y) D, s') ∧
    rep (rb_nodes s') (Some y) (plug D yr) ∧
    rb_nodes s' !! y = Some (mk_node None (rootp (plug D yr)) yp cx gy) ∧
    keeps (y :: locs (plug D yr)) s s' ∧ rb_root s' = rb_root s.
Proof.
  intros HD Hy Hx Hn Hp Hyr Hd. destruct D as [|[d cf pf gf uf] D].
  - cbn [kparb] in *. rewrite decide_True by done. by exists s, (Some x).
  - apply Forall_cons in HD as [Hf _]. cbn in Hf. subst d. cbn [kparb fp] in *.
    rewrite decide_False; [|intros [= ->]; apply NoDup_cons in Hd as [Hd _]; apply Hd; rewrite locs_plug; cbn; set_solver].
    cbn [access obind]. destruct (detach_ok s x cf pf gf uf D y cx gy yr) as (s' & E & Hr & Hy' & Hk & Hrt);
      [done| |done|done|done|].
    { exists n. split; [done|]. rewrite Hn. apply rootp_plug_any. }
    rewrite E. eauto 10.
Qed.

Lemma two_nodup x y (l r k : list Z) :
  NoDup (x :: y :: l ++ r ++ k) →
  (x ∉ y :: l ++ r ++ k) ∧ (y ∉ l ++ r ++ k) ∧ (∀ z, z ∈ l → z ∉ r ++ k) ∧ (∀ z, z ∈ r → z ∉ k) ∧
  NoDup (x :: y :: r) ∧ NoDup k.
Proof.
  intros Hd. apply NoDup_cons in Hd as [Hx Hd]. apply NoDup_cons in Hd as [Hy Hd].
  apply NoDup_app in Hd as (_ & Hl & Hd). apply NoDup_app in Hd as (Hr & Hrk & Hk).
  split; [done|]. split; [done|]. split; [done|]. split; [done|]. split; [|done].
  constructor; [set_solver|]. constructor; [set_solver|done].
Qed.

Lemma remove_two_shape s K c l x g D cy y gy yr :
  is_tree s (plug K (N c l x g (plug D (N cy E y gy yr)))) → Forall (λ f, fd f = L) D → l ≠ E →
  ∃ s1, remove_two s x = (if cy then Ret s1 else remove_recolour s1 (kparb (Some y) D) (rootp yr)) ∧
    is_tree s1 (plug K (N c l y gy (plug D yr))) ∧ keeps (locs l ++ (y :: locs (plug D yr)) ++ klocs K) s s1.
Proof.
  intros Hs HD Hl. destruct (two_setup _ _ _ _ _ _ _ _ _ _ _ Hs HD) as (Hx & Hy & Hrl & Hp & Hyr & HK & Hd & _ & Hlm).
  set (r := plug D (N cy E y gy yr)) in *. destruct (two_nodup _ _ _ _ _ Hd) as (Hdx & Hdy & Hdl & Hdr & Hdxy & HdK).
  assert (∃ rp, rootp r = Some rp) as [rp Hrp].
  { unfold r. destruct D as [|f D]; [by eexists|]. destruct (rootp_plug f D (N cy E y gy yr)) as (q & Eq & _). eauto. }
  assert (∃ lp, rootp l = Some lp) as [lp Hlp] by (destruct l; [done|by eexists]).
  destruct (update_parent_ok s K x _ (Some y) Hx) as (s1 & E1 & HK1 & [Hk1 Hsz1 Hg1]); [done|done|done|set_solver|].
  pose proof Hx as Hx1. pose proof Hy as Hy1. rewrite <- Hk1 in Hx1, Hy1 by set_solver.
  set (s2 := put s1 y (mk_node None (rootp yr) (kparb (Some x) D) c gy)).
  assert (Hk2 : ∀ z, z ∉ y :: klocs K → rb_nodes s2 !! z = rb_nodes s !! z).
  { intros z Hz. cbn. rewrite lookup_insert_ne, Hk1 by set_solver. done. }
  assert (Hk2' : ∀ z, z ∈ locs (plug D yr) → rb_nodes s2 !! z = rb_nodes s !! z).
  { intros z Hz. apply Hk2. specialize (Hdr z Hz). set_solver. }
  assert (HP : ∀ z, z ∈ locs yr ++ klocs D → z ∈ locs (plug D yr)) by (intros z; by rewrite locs_plug).
  assert (Hx2 : rb_nodes s2 !! x = rb_nodes s !! x) by (apply Hk2; set_solver). rewrite Hx in Hx2.
  destruct (two_middle s2 x _ D cy y c gy yr HD (lookup_insert_eq _ _ _) Hx2) as (s3 & yp & E3 & Hr3 & Hy3 & [Hk3 Hsz3 Hg3] & Hrt3);
    [done|eapply rep_path_ext; [|done]; intros; apply Hk2', HP; set_solver
    |eapply rep_ext; [|done]; intros; apply Hk2', HP; set_solver|done|].
  rewrite <- Hk3 in Hx2 by set_solver.
  destruct (graft_ok s3 K x _ y None yp c gy l lp (plug D yr) Hx2) as (s4 & E4 & Hs4 & [Hk4 Hsz4 Hg4]); try done.
  { eapply rep_ext; [|exact Hrl]. intros z Hz. specialize (Hdl z Hz). rewrite Hk3, Hk2 by set_solver. done. }
  { rewrite Hrt3. eapply repk_ext; [|exact HK1]. intros z Hz. rewrite Hk3; [|intros [->|Hz']%elem_of_cons; [set_solver|by apply (Hdr z)]].
    apply lookup_insert_ne. set_solver. }
  exists s4. split; [|split; [done|]].
  - unfold remove_two. run Hx. cbn [n_right]. rewrite Hrp. cbn [access obind]. rewrite (Hlm _ Hrp). cbn [obind].
    rewrite E1. cbn [obind]. do 3 (run Hy1; cbn [n_right n_parent n_red]). run Hx1. run Hy1.
    cbn [n_red set_red n_left n_right n_parent n_gen]. change (put s1 y _) with s2. rewrite E3. cbn [obind]. apply E4.
  - constructor; [|etrans; [exact Hsz4|]; etrans; [exact Hsz3|exact Hsz1]|etrans; [exact Hg4|]; etrans; [exact Hg3|exact Hg1]].
    intros z Hz. rewrite Hk4, Hk3, Hk2 by set_solver. done.
Qed.

Lemma remove_two_ok s K c x g l r b n :
  is_tree s (plug K (N c l x g r)) → rb b n (N c l x g r) → rbc K b n → l ≠ E → r ≠ E →
  ∃ s', remove_two s x = Ret s' ∧ unlinked s K l r s'.
Proof.
  intros Hs Hb HK Hl Hr. destruct (leftmost_path r Hr) as (D & cy & y & gy & yr & -> & HD).
  destruct (remove_two_shape s K c l x g D cy y gy yr Hs HD Hl) as (s1 & -> & Hs1 & Hk1).
  destruct (rb_plug K _ _ _ Hb HK) as [m Hm].
  assert (EW : ∀ p q t, plug K (N c l p q (plug D t)) = plug (D ++ F R c p q l :: K) t) by (intros; by rewrite plug_app).
  rewrite EW in Hm. apply rb_unplug in Hm as (b' & n' & Hy & HK').
  set (K' := D ++ F R c y gy l :: K). rewrite EW in Hs1. fold K' in Hs1.
  assert (Ek : kparb (Some y) D = kpar K') by (by destruct D). rewrite Ek.
  destruct (finish_ok s s1 (locs l ++ (y :: locs (plug D yr)) ++ klocs K) K' yr cy b' n') as (s' & W' & m' & E' & Ht & Hi & Hm' & Hk');
    [done|done| |by eapply (lacks_child L)|by eapply rbc_rename|].
  { intros z. rewrite <- locs_plug. unfold K'. rewrite <- EW, locs_plug. cbn. set_solver. }
  exists s'. split; [done|]. exists W', m'. split; [done|]. split; [|split; [done|]].
  - rewrite Hi. unfold K'. rewrite <- EW, !items_path. cbn. rewrite !items_path, (before_left D HD). cbn. done.
  - eapply keeps_weaken; [|done]. intros z. rewrite !locs_plug. cbn. set_solver.
Qed.

(** [opr_rbtree_remove] of a node of the tree. *)
Lemma remove_ok s K c l x g r m :
  is_tree s (plug K (N c l x g r)) → rb false m (plug K (N c l x g r)) → g ≠ 0 →
  ∃ s' W' m', opr_rbtree_remove s x = Ret s' ∧ is_tree s' W' ∧
    items W' = before K ++ (items l ++ items r) ++ behind K ∧ rb false m' W' ∧
    (∀ y, y ∉ x :: locs l ++ locs r ++ klocs K → rb_nodes s' !! y = rb_nodes s !! y) ∧
    (∃ n, rb_nodes s' !! x = Some n ∧ n_gen n = 0) ∧ rb_size s' = u64 (rb_size s - 1).
Proof.
  intros Hs Hm Hg. unfold opr_rbtree_remove. pose proof (node_at s K L c l x g r Hs) as Hx.
  pose proof (node_nodup _ _ _ _ _ _ _ Hs) as Hd. apply NoDup_cons in Hd as [Hd _].
  run Hx. cbn [n_gen mkd]. rewrite (proj2 (Z.eqb_neq _ _) Hg).
  destruct (set_gen_ok s K c l x g r 0 Hs) as (s1 & -> & Hs1 & Hk1 & Hsz1 & Hg1). cbn [obind].
  pose proof (node_at s1 K L c l x 0 r Hs1) as Hx1. do 2 run Hx1. cbn [n_left n_right mkd].
  apply rb_unplug in Hm as (b & n & Hb & HK).
  assert (Hb1 : rb b n (N c l x 0 r)) by exact Hb.
  assert (∃ s2, match rootp l, rootp r with
                | None, None => remove_leaf s1 x | Some _, Some _ => remove_two s1 x | _, _ => remove_one s1 x
                end = Ret s2 ∧ unlinked s1 K l r s2) as (s2 & E2 & W' & m' & Ht & Hi & Hm' & [Hk2 Hsz2 Hg2]).
  { destruct l as [|lc ll lp lg lr] eqn:El, r as [|rc rl rp rg rr] eqn:Er; cbn [rootp]; rewrite <- ?El, <- ?Er in *.
    - subst. by eapply remove_leaf_ok.
    - eapply (remove_one_ok s1 K c x 0 l r r); subst; [done..|by left|done].
    - eapply (remove_one_ok s1 K c x 0 l r l); subst; [done..|by right|done].
    - eapply remove_two_ok; subst; done. }
  assert (E2' : match rootp l with
                | Some _ => match rootp r with Some _ => remove_two s1 x | None => remove_one s1 x end
                | None => match rootp r with Some _ => remove_one s1 x | None => remove_leaf s1 x end
                end = Ret s2) by (destruct (rootp l), (rootp r); exact E2).
  rewrite E2'. cbn [obind]. eexists _, W', m'. split; [done|].
  split; [by eapply is_tree_ext|]. split; [done|]. split; [done|]. cbn [rb_nodes set_hgen set_size rb_size].
  split; [|split; [|by rewrite Hsz2, Hsz1]].
  - intros y Hy. rewrite Hk2, Hk1; [done|set_solver|set_solver].
  - rewrite Hk2 by set_solver. eauto.
Qed.
