(* ===== verification/RbTreeTheorems.v ===== *)
(** * What red-black trees guarantee

    With a comparison that is a total order, a tree holds its nodes in increasing order,
    and lookups, insertions, removals and walks (src/rbtree.c) do what their callers
    rely on, on every tree that these operations can build. *)
From stdpp Require Import base gmap list sorting.
From Stdlib Require Import ZArith Lia.
From S2P Require Import Prelude Machine RbTree RbTreeFacts RbTreeBalance RbTreeOps.

(** ** Comparisons *)

(** What a [cmpf] has to satisfy. *)
Class Comparison (cmpf : Z → Z → Z) : Prop := {
  cmp_values a b : cmpf a b = -1 ∨ cmpf a b = 0 ∨ cmpf a b = 1;
  cmp_refl a : cmpf a a = 0;
  cmp_anti a b : cmpf b a = - cmpf a b;
  cmp_trans a b c : cmpf a b = -1 → cmpf b c = -1 → cmpf a c = -1;
  cmp_equal a b c : cmpf a b = 0 → cmpf a c = cmpf b c;
}.

(** svc_xprt_fd_cmpf of src/svc_xprt.c, by the descriptor of the transport that contains
    the node. *)
Definition svc_xprt_fd_cmpf (xp_fd : Z → Z) (lhs rhs : Z) : Z :=
  if xp_fd lhs <? xp_fd rhs then -1 else if xp_fd lhs =? xp_fd rhs then 0 else 1.

#[global] Instance svc_xprt_fd_comparison xp_fd : Comparison (svc_xprt_fd_cmpf xp_fd).
Proof.
  unfold svc_xprt_fd_cmpf. constructor; intros;
    repeat match goal with
    | |- context [?a <? ?b] => destruct (Z.ltb_spec a b)
    | |- context [?a =? ?b] => destruct (Z.eqb_spec a b)
    | H : context [?a <? ?b] |- _ => destruct (Z.ltb_spec a b)
    | H : context [?a =? ?b] |- _ => destruct (Z.eqb_spec a b)
    end; lia.
Qed.

(** svc_rpc_gss_cmpf of src/authgss_hash.c, by mechanism and then by context. *)
Definition svc_rpc_gss_cmpf (mech_type internal_ctx_id : Z → Z) (lhs rhs : Z) : Z :=
  if mech_type lhs <? mech_type rhs then -1
  else if mech_type rhs <? mech_type lhs then 1
  else if internal_ctx_id lhs <? internal_ctx_id rhs then -1
  else if internal_ctx_id rhs <? internal_ctx_id lhs then 1
  else 0.

#[global] Instance svc_rpc_gss_comparison mech ctx : Comparison (svc_rpc_gss_cmpf mech ctx).
Proof.
  unfold svc_rpc_gss_cmpf. constructor; intros;
    repeat match goal with
    | |- context [?a <? ?b] => destruct (Z.ltb_spec a b)
    | H : context [?a <? ?b] |- _ => destruct (Z.ltb_spec a b)
    end; lia.
Qed.

Section Trees.
Context (cmpf : Z → Z → Z) `{!Comparison cmpf}.

Definition before_in (a b : Z) : Prop := cmpf a b = -1.

(** The tree [W] is what a sequence of operations leaves: balanced, in order, every node
    marked as being in a tree, and counted. *)
Record rb_valid (s : opr_rbtree) (W : tree) : Prop := {
  rv_tree : is_tree s W;
  rv_balance : ∃ m, rb false m W;
  rv_order : StronglySorted before_in (locs W);
  rv_gens : Forall (λ it, it.2 ≠ 0) (items W);
  rv_size : rb_size s = u64 (Zlen (locs W));
}.

(** ** Lists in order *)

Lemma before_sym a b : cmpf a b = 1 → before_in b a.
Proof. intros H. red. rewrite cmp_anti, H. done. Qed.

Lemma sorted_app (l1 l2 : list Z) :
  StronglySorted before_in (l1 ++ l2) ↔
  StronglySorted before_in l1 ∧ StronglySorted before_in l2 ∧ ∀ a b, a ∈ l1 → b ∈ l2 → before_in a b.
Proof.
  induction l1 as [|x l1 IH]; cbn.
  - split; [intros H; split; [constructor|split; [done|by intros ? ? ?%not_elem_of_nil]]|tauto].
  - split.
    + intros [H Hf]%StronglySorted_inv. apply IH in H as (H1 & H2 & H3). rewrite Forall_forall in Hf.
      split; [|split; [done|]].
      * constructor; [done|]. apply Forall_forall. intros y Hy. apply Hf. set_solver.
      * intros a b [->|Ha]%elem_of_cons Hb; [apply Hf; set_solver|by apply H3].
    + intros ([H1 Hf]%StronglySorted_inv & H2 & H3). rewrite Forall_forall in Hf. constructor.
      * apply IH. split; [done|]. split; [done|]. intros a b Ha Hb. apply H3; [by right|done].
      * apply Forall_forall. intros y [Hy|Hy]%elem_of_app; [by apply Hf|]. apply H3; [by left|done].
Qed.

Lemma sorted_insert (l1 l2 : list Z) x :
  StronglySorted before_in (l1 ++ l2) →
  (∀ y, y ∈ l1 → before_in y x) → (∀ y, y ∈ l2 → before_in x y) →
  StronglySorted before_in (l1 ++ x :: l2).
Proof.
  intros (H1 & H2 & H3)%sorted_app Hl Hr. apply sorted_app. split; [done|]. split.
  - constructor; [done|]. by apply Forall_forall.
  - intros a b Ha [->|Hb]%elem_of_cons; [by apply Hl|by apply H3].
Qed.

Lemma nodup_split (l1 l2 l1' l2' : list Z) x :
  l1 ++ x :: l2 = l1' ++ x :: l2' → NoDup (l1 ++ x :: l2) → l1' = l1 ∧ l2' = l2.
Proof.
  revert l1'. induction l1 as [|a l1 IH]; intros [|a' l1'] E Hd; cbn in *; simplify_eq; try done.
  - apply NoDup_cons in Hd as [Hd _]. exfalso. apply Hd. set_solver.
  - apply NoDup_cons in Hd as [Hd _]. exfalso. apply Hd. set_solver.
  - apply NoDup_cons in Hd as [_ Hd]. destruct (IH l1') as [-> ->]; done.
Qed.

Lemma sorted_delete (l1 l2 : list Z) x :
  StronglySorted before_in (l1 ++ x :: l2) → StronglySorted before_in (l1 ++ l2).
Proof.
  intros (H1 & [H2 _]%StronglySorted_inv & H3)%sorted_app. apply sorted_app.
  split; [done|]. split; [done|]. intros a b Ha Hb. apply H3; [done|by right].
Qed.

(** ** Searching *)

Fixpoint height (t : tree) : nat :=
  match t with E => 0 | N _ l _ _ r => S (height l `max` height r) end.

(** Everything before the place is below [x], and everything behind above. *)
Definition between (K : list frame) (x : Z) : Prop :=
  (∀ y, y ∈ (before K).*1 → before_in y x) ∧ (∀ y, y ∈ (behind K).*1 → before_in x y).

Lemma between_left K c p g r x :
  StronglySorted before_in (p :: locs r) → between K x → before_in x p → between (F L c p g r :: K) x.
Proof.
  intros [_ Hs]%StronglySorted_inv [H1 H2] Hx. split; [done|]. cbn. intros y.
  rewrite fmap_app, <- items_locs. rewrite Forall_forall in Hs.
  intros [->|[Hy|Hy]%elem_of_app]%elem_of_cons; [done| |by apply H2].
  eapply cmp_trans; [done|by apply Hs].
Qed.

Lemma between_right K c p g l x :
  StronglySorted before_in (locs l ++ [p]) → between K x → before_in p x → between (F R c p g l :: K) x.
Proof.
  intros (_ & _ & Hs)%sorted_app [H1 H2] Hx. split; [|done]. cbn. intros y.
  rewrite !fmap_app, <- items_locs. cbn.
  intros [Hy|[Hy| ->%list_elem_of_singleton]%elem_of_app]%elem_of_app; [by apply H1| |done].
  eapply cmp_trans; [apply (Hs y p); [done|set_solver]|done].
Qed.

Lemma sorted_node K c l p g r :
  StronglySorted before_in (locs (plug K (N c l p g r))) →
  StronglySorted before_in (p :: locs r) ∧ StronglySorted before_in (locs l ++ [p]).
Proof.
  rewrite items_locs, items_path. cbn. rewrite !fmap_app. cbn. rewrite <- !items_locs.
  intros (_ & (H1 & _ & _)%sorted_app & _)%sorted_app.
  rewrite cons_middle, app_assoc in H1. pose proof H1 as (H2 & _ & _)%sorted_app. split; [|done].
  rewrite <- app_assoc in H1. by apply sorted_app in H1 as (_ & H1 & _).
Qed.

(** The search finds an equal node of the subtree, or the place for a new one. *)
Lemma search_ok t : ∀ s K x fuel,
  is_tree s (plug K t) → StronglySorted before_in (locs (plug K t)) → between K x → (height t ≤ fuel)%nat →
  (∃ q sl, insert_search cmpf fuel s x (kpar K) (slot_of K) = Ret (Some q, Some q, sl) ∧ q ∈ locs t ∧ cmpf x q = 0) ∨
  (∃ K', insert_search cmpf fuel s x (kpar K) (slot_of K) = Ret (None, kpar K', slot_of K') ∧
     plug K t = plug K' E ∧ between K' x).
Proof.
  induction t as [|c l IHl p g r IHr]; intros s K x fuel Hs Ho Hb Hf.
  { right. exists K. split; [|done]. destruct fuel; cbn [insert_search]; by rewrite (slot_get_ok s K E Hs). }
  destruct fuel as [|fuel]; [cbn in Hf; lia|]. cbn [insert_search]. rewrite (slot_get_ok s K _ Hs). cbn [obind rootp].
  destruct (sorted_node _ _ _ _ _ _ Ho) as [Hr Hl]. destruct (cmp_values x p) as [Ec|[Ec|Ec]]; rewrite Ec; cbn [Z.eqb Pos.eqb Z.opp].
  - destruct (IHl s (F L c p g r :: K) x fuel) as [(q & sl & E & Hq & Hc)|(K' & E & HK & Hb')];
      [exact Hs|exact Ho|by apply between_left|cbn in Hf; lia| |].
    + left. exists q, sl. split; [exact E|]. cbn. split; [set_solver|done].
    + right. by exists K'.
  - left. exists p, (slot_of K). split; [done|]. cbn. split; [set_solver|done].
  - destruct (IHr s (F R c p g l :: K) x fuel) as [(q & sl & E & Hq & Hc)|(K' & E & HK & Hb')];
      [exact Hs|exact Ho|apply between_right; [done|done|by apply before_sym]|cbn in Hf; lia| |].
    + left. exists q, sl. split; [exact E|]. cbn. split; [set_solver|done].
    + right. by exists K'.
Qed.

Lemma lookup_search fuel : ∀ s K t x,
  is_tree s (plug K t) →
  lookup_loop cmpf fuel s x (rootp t) =
    let! (found, _, _) := insert_search cmpf fuel s x (kpar K) (slot_of K) in Ret found.
Proof.
  induction fuel as [|fuel IH]; intros s K t x Hs; cbn [insert_search]; rewrite (slot_get_ok s K t Hs); cbn [obind].
  - by destruct t.
  - destruct t as [|c l p g r]; [done|]. cbn [rootp lookup_loop].
    pose proof (node_at s K L c l p g r Hs) as Hp. destruct (cmpf x p =? -1); [|destruct (cmpf x p =? 1); [|done]].
    + run Hp. cbn [n_left mkd]. apply (IH s (F L c p g r :: K)). exact Hs.
    + run Hp. cbn [n_right mkd]. apply (IH s (F R c p g l :: K)). exact Hs.
Qed.

(** At an empty place between its neighbours, nothing compares equal. *)
Lemma between_none K x : between K x → ∀ y, y ∈ locs (plug K E) → cmpf x y ≠ 0.
Proof.
  intros [H1 H2] y. rewrite items_locs, items_path, fmap_app. cbn.
  intros [Hy|Hy]%elem_of_app; [apply H1 in Hy; red in Hy; rewrite cmp_anti in Hy; lia|].
  apply H2 in Hy. red in Hy. lia.
Qed.

Lemma height_locs t : (height t ≤ length (locs t))%nat.
Proof. induction t; cbn; [lia|]. rewrite length_app. cbn. lia. Qed.

(** ** The height *)

Lemma rb_height b n t : rb b n t → (height t ≤ 2 * n + (if red t then 1 else 0))%nat.
Proof.
  revert b n. induction t as [|[] l IHl p g r IHr]; intros b n; cbn; [lia| |].
  - intros (_ & Hl & Hr). apply rb_false_red in Hl as El, Hr as Er. apply IHl in Hl. apply IHr in Hr.
    rewrite El in Hl. rewrite Er in Hr. lia.
  - destruct n as [|n]; [done|]. intros [Hl Hr]. apply IHl in Hl. apply IHr in Hr. destruct (red l), (red r); lia.
Qed.

Lemma rb_size_bound b n t : rb b n t → (2 ^ n ≤ S (length (locs t)))%nat.
Proof.
  revert b n. induction t as [|[] l IHl p g r IHr]; intros b n; cbn [rb locs].
  - intros ->. done.
  - intros (_ & Hl & Hr). apply IHl in Hl. apply IHr in Hr. rewrite length_app. cbn. lia.
  - destruct n as [|n]; [done|]. intros [Hl Hr]. apply IHl in Hl. apply IHr in Hr.
    rewrite length_app. cbn. lia.
Qed.

Lemma height_bound m t : rb false m t → (height t ≤ 2 * Nat.log2 (S (length (locs t))))%nat.
Proof.
  intros Hm. pose proof (rb_height _ _ _ Hm) as Hh. rewrite (rb_false_red _ _ Hm) in Hh.
  apply rb_size_bound, Nat.log2_le_mono in Hm. rewrite Nat.log2_pow2 in Hm by lia. lia.
Qed.

(** ** Operations *)

Lemma tree_fuel s W : is_tree s W → (height W ≤ node_fuel s)%nat.
Proof.
  intros Hs. pose proof (height_locs W). pose proof (tree_size s W Hs). unfold node_fuel. lia.
Qed.

Lemma rv_nodup s W : rb_valid s W → NoDup (locs W).
Proof. intros [[_ _ Hd] _ _ _ _]. cbn in Hd. by rewrite app_nil_r in Hd. Qed.

Lemma insert_valid s W x n0 :
  rb_valid s W → rb_nodes s !! x = Some n0 → x ∉ locs W →
  (∃ q, opr_rbtree_insert cmpf s x = Ret (Some q, s) ∧ q ∈ locs W ∧ cmpf x q = 0) ∨
  (∃ s' W' l1 l2, opr_rbtree_insert cmpf s x = Ret (None, s') ∧ rb_valid s' W' ∧
     locs W = l1 ++ l2 ∧ locs W' = l1 ++ x :: l2 ∧
     (∀ y, y ∈ l1 → before_in y x) ∧ (∀ y, y ∈ l2 → before_in x y) ∧
     (∀ y, y ∉ locs W' → rb_nodes s' !! y = rb_nodes s !! y)).
Proof.
  intros [Hs [m Hm] Ho Hg Hsz] Hx Hnin. unfold opr_rbtree_insert.
  destruct (search_ok W s [] x (node_fuel s) Hs Ho) as [(q & sl & Ef & Hq & Hc)|(K & Ef & HK & Hb)];
    [by split; intros ? ?%not_elem_of_nil|by apply tree_fuel| |]; cbn [kpar slot_of] in Ef; rewrite Ef; cbn [obind];
    [left; by exists q|right]. cbn [plug] in HK. subst W.
  destruct (rb_unplug K E m Hm) as (b & n & Hn & Hbc). cbn in Hn. subst n.
  assert (HxK : x ∉ klocs K) by (intros H; apply Hnin; rewrite locs_plug; cbn; done).
  destruct (insert_at_ok s K x n0 b Hs HxK Hx Hbc) as (s' & W' & g & m' & E' & Hs' & Hi & Hg0 & Hm' & Hk & Hsz').
  rewrite E'. cbn [obind]. rewrite items_locs, items_path, fmap_app in Ho. cbn in Ho.
  assert (EW : locs (plug K E) = (before K).*1 ++ (behind K).*1) by (by rewrite items_locs, items_path, fmap_app).
  assert (EW' : locs W' = (before K).*1 ++ x :: (behind K).*1) by (by rewrite items_locs, Hi, fmap_app).
  eexists _, W', _, _. split; [done|]. split; [|split; [exact EW|split; [exact EW'|split; [apply Hb|split; [apply Hb|]]]]].
  - constructor; [by eapply is_tree_ext|by exists m'| | |].
    + rewrite EW'. apply sorted_insert; [done|apply Hb..].
    + rewrite Hi. rewrite items_path in Hg. apply Forall_app in Hg as [Hg1 Hg2]. apply Forall_app. by split; [|constructor].
    + cbn. rewrite Hsz', Hsz, EW, EW', !Zlen_app. cbn [length]. rewrite !Nat2Z.inj_succ. unfold wrapu.
      rewrite Zplus_mod_idemp_l. f_equal. lia.
  - intros y Hy. cbn. apply Hk. rewrite EW' in Hy. intros [->|Hy']%elem_of_cons; [set_solver|].
    assert (Hy2 : y ∈ locs (plug K E)) by (rewrite locs_plug; cbn; done). rewrite EW in Hy2. set_solver.
Qed.

Lemma remove_valid s W l1 x l2 :
  rb_valid s W → locs W = l1 ++ x :: l2 →
  ∃ s' W', opr_rbtree_remove s x = Ret s' ∧ rb_valid s' W' ∧ locs W' = l1 ++ l2 ∧
    (∃ n, rb_nodes s' !! x = Some n ∧ n_gen n = 0) ∧
    (∀ y, y ∉ locs W → rb_nodes s' !! y = rb_nodes s !! y).
Proof.
  intros Hv El. pose proof (rv_nodup _ _ Hv) as Hnd. destruct Hv as [Hs [m Hm] Ho Hg Hsz].
  destruct (locs_items x W) as [g Hx]; [rewrite El; set_solver|].
  destruct (item_path W x g Hx) as (K & c & l & r & ->).
  rewrite Forall_forall in Hg. pose proof (Hg _ Hx) as Hg0. cbn in Hg0.
  destruct (remove_ok s K c l x g r m Hs Hm Hg0) as (s' & W' & m' & E & Hs' & Hi & Hm' & Hk & Hgx & Hsz').
  assert (EW : locs (plug K (N c l x g r)) = ((before K).*1 ++ locs l) ++ x :: (locs r ++ (behind K).*1)).
  { rewrite items_locs, items_path. cbn. rewrite !fmap_app. cbn. rewrite <- !items_locs, <- !app_assoc. done. }
  assert (EW' : locs W' = ((before K).*1 ++ locs l) ++ (locs r ++ (behind K).*1)).
  { rewrite items_locs, Hi, !fmap_app, <- !items_locs, <- !app_assoc. done. }
  assert (l1 = (before K).*1 ++ locs l ∧ l2 = locs r ++ (behind K).*1) as [-> ->].
  { rewrite EW in El, Hnd. by apply nodup_split in El as [? ?]. }
  exists s', W'. split; [done|]. split; [|split; [exact EW'|split; [done|]]].
  - constructor; [done|by exists m'| | |].
    + rewrite EW'. rewrite EW in Ho. by eapply sorted_delete.
    + apply Forall_forall. intros it Hit. apply Hg. rewrite Hi in Hit. rewrite items_path. cbn. set_solver.
    + rewrite Hsz', Hsz, EW, EW', !Zlen_app. cbn [length]. rewrite !Nat2Z.inj_succ. unfold wrapu.
      rewrite Zminus_mod_idemp_l. rewrite Zlen_app. f_equal. lia.
  - intros y Hy. apply Hk. intros Hy'. apply Hy. rewrite locs_plug. cbn. set_solver.
Qed.

(** The result of a search does not depend on the fuel. *)
Fixpoint tfind (t : tree) (x : Z) : nptr :=
  match t with
  | E => None
  | N _ l p _ r => if cmpf x p =? -1 then tfind l x else if cmpf x p =? 1 then tfind r x else Some p
  end.

Lemma lookup_tfind t : ∀ s K x fuel,
  is_tree s (plug K t) → (height t ≤ fuel)%nat → lookup_loop cmpf fuel s x (rootp t) = Ret (tfind t x).
Proof.
  induction t as [|c l IHl p g r IHr]; intros s K x fuel Hs Hf; [by destruct fuel|].
  destruct fuel as [|fuel]; [cbn in Hf; lia|]. cbn [lookup_loop tfind rootp].
  pose proof (node_at s K L c l p g r Hs) as Hp. destruct (cmpf x p =? -1); [|destruct (cmpf x p =? 1); [|done]].
  - run Hp. cbn [n_left mkd]. apply (IHl s (F L c p g r :: K)); [exact Hs|cbn in Hf; lia].
  - run Hp. cbn [n_right mkd]. apply (IHr s (F R c p g l :: K)); [exact Hs|cbn in Hf; lia].
Qed.

Lemma lookup_valid s W x :
  rb_valid s W →
  opr_rbtree_lookup cmpf s x = Ret (tfind W x) ∧
  match tfind W x with Some q => q ∈ locs W ∧ cmpf x q = 0 | None => ∀ q, q ∈ locs W → cmpf x q ≠ 0 end.
Proof.
  intros [Hs _ Ho _ _]. pose proof (tree_fuel _ _ Hs) as Hf. unfold opr_rbtree_lookup.
  rewrite (ta_path _ _ _ Hs : rb_root s = rootp W). rewrite (lookup_tfind W s [] x _ Hs Hf). split; [done|].
  pose proof (lookup_tfind W s [] x _ Hs Hf) as El. rewrite (lookup_search _ s [] W x Hs) in El.
  destruct (search_ok W s [] x (node_fuel s) Hs Ho) as [(q & sl & Ef & Hq & Hc)|(K & Ef & HK & Hb)];
    [by split; intros ? ?%not_elem_of_nil|done| |]; rewrite Ef in El; cbn [obind] in El; injection El as <-; [done|].
  cbn [plug] in HK. rewrite HK. by apply between_none.
Qed.

Lemma walk_valid s W l1 x l2 :
  rb_valid s W → locs W = l1 ++ x :: l2 →
  opr_rbtree_next s x = Ret (head l2) ∧ opr_rbtree_prev s x = Ret (last l1).
Proof.
  intros Hv El. pose proof (rv_nodup _ _ Hv) as Hnd. destruct Hv as [Hs _ _ _ _].
  destruct (locs_items x W) as [g Hx]; [rewrite El; set_solver|].
  destruct (item_path W x g Hx) as (K & c & l & r & ->).
  assert (EW : locs (plug K (N c l x g r)) = (before K ++ items l).*1 ++ x :: (items r ++ behind K).*1).
  { rewrite items_locs, items_path. cbn. rewrite !fmap_app. cbn. rewrite <- !app_assoc. done. }
  rewrite EW in El, Hnd. apply nodup_split in El as [-> ->]; [|done].
  rewrite (next_ok _ _ _ _ _ _ _ Hs), (prev_ok _ _ _ _ _ _ _ Hs), fmap_last. split; [|done].
  by destruct (items r ++ behind K).
Qed.

(** ** The tree as an ordered list *)

(** What the operations promise, on the nodes in order. *)
Definition spec_lookup (l : list Z) (x : Z) : nptr := head (filter (λ q, cmpf x q = 0) l).
Definition spec_insert (l : list Z) (x : Z) : nptr * list Z :=
  match spec_lookup l x with
  | Some q => (Some q, l)
  | None => (None, filter (λ y, cmpf y x = -1) l ++ x :: filter (λ y, cmpf x y = -1) l)
  end.
Definition spec_remove (l : list Z) (x : Z) : list Z := filter (λ y, y ≠ x) l.

(** The pointers of [s] hold the nodes [l]. *)
Definition holds (s : opr_rbtree) (l : list Z) : Prop := ∃ W, rb_valid s W ∧ locs W = l.

Lemma filter_none {A} (P : A → Prop) `{!∀ x, Decision (P x)} l : (∀ x, x ∈ l → ¬ P x) → filter P l = [].
Proof.
  induction l as [|x l IH]; intros Hn; [done|]. rewrite filter_cons_False by (apply Hn; left).
  apply IH. intros y Hy. apply Hn. by right.
Qed.

Lemma filter_split (P : Z → Prop) `{!∀ x, Decision (P x)} l1 l2 :
  (∀ x, x ∈ l1 → P x) → (∀ x, x ∈ l2 → ¬ P x) → filter P (l1 ++ l2) = l1.
Proof.
  intros H1 H2. rewrite filter_app, (filter_none P l2) by done. rewrite app_nil_r. apply filter_all.
  by apply Forall_forall.
Qed.

(** In an ordered list at most one node compares equal. *)
Lemma spec_lookup_some l x q :
  StronglySorted before_in l → q ∈ l → cmpf x q = 0 → spec_lookup l x = Some q.
Proof.
  intros Ho (l1 & l2 & ->)%list_elem_of_split Hq. unfold spec_lookup.
  apply sorted_app in Ho as (_ & [_ H2]%StronglySorted_inv & H1). rewrite Forall_forall in H2.
  rewrite filter_app, (filter_none _ l1), filter_cons_True by done || (intros y Hy;
    specialize (H1 y q Hy ltac:(set_solver)); red in H1; rewrite (cmp_equal x q y Hq), cmp_anti; lia).
  done.
Qed.

Lemma spec_lookup_none l x : (∀ q, q ∈ l → cmpf x q ≠ 0) → spec_lookup l x = None.
Proof. intros H. unfold spec_lookup. by rewrite filter_none. Qed.

Lemma tfind_spec s W x : rb_valid s W → tfind W x = spec_lookup (locs W) x.
Proof.
  intros Hv. destruct (lookup_valid s W x Hv) as [_ H]. destruct (tfind W x) as [q|].
  - symmetry. apply spec_lookup_some; [apply (rv_order _ _ Hv)|apply H..].
  - symmetry. by apply spec_lookup_none.
Qed.

Lemma insert_spec s W x n0 :
  rb_valid s W → rb_nodes s !! x = Some n0 → x ∉ locs W →
  ∃ s' W', opr_rbtree_insert cmpf s x = Ret ((spec_insert (locs W) x).1, s') ∧ rb_valid s' W' ∧
    locs W' = (spec_insert (locs W) x).2 ∧
    (∀ y, y ∉ x :: locs W → rb_nodes s' !! y = rb_nodes s !! y).
Proof.
  intros Hv Hx Hnin. destruct (insert_valid s W x n0 Hv Hx Hnin) as
    [(q & E & Hq & Hc)|(s' & W' & l1 & l2 & E & Hv' & El & El' & H1 & H2 & Hk)]; unfold spec_insert.
  - rewrite (spec_lookup_some _ x q) by (done || apply (rv_order _ _ Hv)). by exists s, W.
  - assert (H1' : ∀ y, y ∈ l1 → cmpf x y ≠ -1 ∧ cmpf x y ≠ 0).
    { intros y Hy. apply H1 in Hy. red in Hy. rewrite (cmp_anti y x). lia. }
    assert (H2' : ∀ y, y ∈ l2 → cmpf y x ≠ -1 ∧ cmpf x y ≠ 0).
    { intros y Hy. apply H2 in Hy. red in Hy. rewrite (cmp_anti x y). lia. }
    rewrite spec_lookup_none by (rewrite El; intros q [Hq|Hq]%elem_of_app; [by apply H1'|by apply H2']).
    exists s', W'. split; [done|]. split; [done|]. split; [|intros y Hy; apply Hk; rewrite El'; rewrite El in Hy; set_solver].
    rewrite El', El. cbn [snd]. rewrite filter_split; [|done|intros y Hy; apply H2'; done].
    f_equal. f_equal. rewrite filter_app, (filter_none _ l1), filter_all; [done| |intros y Hy; by apply H1'].
    by apply Forall_forall.
Qed.

Lemma remove_spec s W x :
  rb_valid s W → x ∈ locs W →
  ∃ s' W', opr_rbtree_remove s x = Ret s' ∧ rb_valid s' W' ∧ locs W' = spec_remove (locs W) x ∧
    (∃ n, rb_nodes s' !! x = Some n ∧ n_gen n = 0) ∧
    (∀ y, y ∉ locs W → rb_nodes s' !! y = rb_nodes s !! y).
Proof.
  intros Hv (l1 & l2 & El)%list_elem_of_split. pose proof (rv_nodup _ _ Hv) as Hd. rewrite El in Hd.
  destruct (remove_valid s W l1 x l2 Hv El) as (s' & W' & E & Hv' & El' & Hg & Hk).
  exists s', W'. split; [done|]. split; [done|]. split; [|done]. rewrite El', El. unfold spec_remove.
  apply NoDup_app in Hd as (_ & H1 & [H2 _]%NoDup_cons).
  rewrite filter_app, filter_cons_False by (intros H; by apply H).
  rewrite !filter_all; [done|apply Forall_forall; intros y Hy ->; done|].
  apply Forall_forall. intros y Hy ->. apply (H1 x Hy). by left.
Qed.

(** C12. A tree is an ordered list of its nodes: on every state that holds a list, looking
    up, walking from either end, stepping to a neighbour, inserting and removing return,
    with the result the operation has on the list, and insertion and removal leave a
    state that holds the list changed accordingly -- a node that compares equal to the
    new one is given back instead, and the list kept. *)
Theorem rb_refines_list s l x n0 :
  holds s l → rb_nodes s !! x = Some n0 →
  opr_rbtree_lookup cmpf s x = Ret (spec_lookup l x) ∧
  opr_rbtree_first s = Ret (head l) ∧ opr_rbtree_last s = Ret (last l) ∧
  opr_rbtree_size s = u64 (Zlen l) ∧
  (∀ l1 l2, l = l1 ++ x :: l2 →
     opr_rbtree_next s x = Ret (head l2) ∧ opr_rbtree_prev s x = Ret (last l1)) ∧
  (x ∉ l → ∃ s', opr_rbtree_insert cmpf s x = Ret ((spec_insert l x).1, s') ∧ holds s' (spec_insert l x).2) ∧
  (x ∈ l → ∃ s', opr_rbtree_remove s x = Ret s' ∧ holds s' (spec_remove l x)).
Proof.
  intros (W & Hv & <-) Hx. destruct (first_last_ok s W (rv_tree _ _ Hv)) as [-> ->].
  split; [by rewrite <- (tfind_spec s) by done; apply lookup_valid|].
  rewrite items_locs, fmap_last. split; [by destruct (items W)|]. split; [done|]. rewrite <- items_locs.
  split; [apply Hv|]. split; [intros; by eapply walk_valid|]. split.
  - intros Hn. destruct (insert_spec s W x n0 Hv Hx Hn) as (s' & W' & E & Hv' & El & _).
    exists s'. split; [done|]. by exists W'.
  - intros Hi. destruct (remove_spec s W x Hv Hi) as (s' & W' & E & Hv' & El & _).
    exists s'. split; [done|]. by exists W'.
Qed.

(** Searching is logarithmic: in a tree of n nodes [opr_rbtree_lookup] ends after at most
    2 log2 (n + 1) comparisons, one per turn of its loop, with the node that compares
    equal or none. *)
Theorem rb_lookup_logarithmic s l x fuel :
  holds s l → (2 * Nat.log2 (S (length l)) ≤ fuel)%nat →
  lookup_loop cmpf fuel s x (rb_root s) = Ret (spec_lookup l x).
Proof.
  intros (W & Hv & <-) Hf. destruct (rv_balance _ _ Hv) as [m Hm]. apply height_bound in Hm.
  rewrite <- (tfind_spec s) by done. pose proof (rv_tree _ _ Hv) as Hs.
  rewrite (ta_path _ _ _ Hs : rb_root s = rootp W). eapply (lookup_tfind W s []); [exact Hs|lia].
Qed.

(** ** Every tree that can be built *)

(** What callers do: insert a node that is in no tree, and remove a node, which may have
    been removed before. *)
Inductive rb_step : opr_rbtree → opr_rbtree → Prop :=
| step_insert s x n r s' :
    rb_nodes s !! x = Some n → n_gen n = 0 → opr_rbtree_insert cmpf s x = Ret (r, s') → rb_step s s'
| step_remove s x n s' :
    rb_nodes s !! x = Some n → opr_rbtree_remove s x = Ret s' → rb_step s s'.

(** A generation other than zero is the mark of the nodes in the tree. *)
Definition marked (s : opr_rbtree) (W : tree) : Prop :=
  ∀ y n, rb_nodes s !! y = Some n → n_gen n ≠ 0 ↔ y ∈ locs W.

Lemma item_gen s W x g : is_tree s W → (x, g) ∈ items W → ∃ n, rb_nodes s !! x = Some n ∧ n_gen n = g.
Proof.
  intros Hs Hx. destruct (item_path W x g Hx) as (K & c & l & r & ->).
  eexists. split; [exact (node_at s K L c l x g r Hs)|done].
Qed.

(** The mark of the nodes of a valid tree; only those outside need an argument. *)
Lemma marked_intro s W :
  rb_valid s W → (∀ y n, y ∉ locs W → rb_nodes s !! y = Some n → n_gen n = 0) → marked s W.
Proof.
  intros Hv Ho y n Hy. split; [intros Hg; apply dec_stable; intros Hn; by eapply Hg, Ho|].
  intros [g Hi]%locs_items. destruct (item_gen s W y g (rv_tree _ _ Hv) Hi) as (n' & Hn & <-).
  pose proof (rv_gens _ _ Hv) as Hg. rewrite Forall_forall in Hg. specialize (Hg _ Hi). cbn in Hg. congruence.
Qed.

Lemma insert_marked s W x n :
  rb_valid s W → marked s W → rb_nodes s !! x = Some n → n_gen n = 0 →
  ∃ r s' W', opr_rbtree_insert cmpf s x = Ret (r, s') ∧ rb_valid s' W' ∧ marked s' W'.
Proof.
  intros Hv Hm Hx Hg. assert (Hn : x ∉ locs W) by (intros Hi; by apply (Hm x n Hx)).
  destruct (insert_valid s W x n Hv Hx Hn) as [(q & E & _)|(s' & W' & l1 & l2 & E & Hv' & El & El' & _ & _ & Hk)].
  - by exists (Some q), s, W.
  - exists None, s', W'. split; [done|]. split; [done|]. apply marked_intro; [done|]. intros y n' Hy Hn'.
    rewrite Hk in Hn' by done. apply dec_stable. intros Hg'. apply (Hm y n' Hn') in Hg'. apply Hy.
    rewrite El'. rewrite El in Hg'. set_solver.
Qed.

Lemma remove_marked s W x n :
  rb_valid s W → marked s W → rb_nodes s !! x = Some n →
  ∃ s' W', opr_rbtree_remove s x = Ret s' ∧ rb_valid s' W' ∧ marked s' W'.
Proof.
  intros Hv Hm Hx. destruct (decide (n_gen n = 0)) as [Hg|Hg].
  { exists s, W. split; [|done]. unfold opr_rbtree_remove. run Hx. by rewrite Hg. }
  apply (Hm x n Hx) in Hg. destruct (remove_spec s W x Hv Hg) as (s' & W' & E & Hv' & El & (n' & Hn' & Hg') & Hk).
  exists s', W'. split; [done|]. split; [done|]. apply marked_intro; [done|]. intros y ny Hy Hny.
  destruct (decide (y = x)) as [->|Hyx]; [congruence|]. rewrite El in Hy. unfold spec_remove in Hy.
  rewrite list_elem_of_filter in Hy. assert (HyW : y ∉ locs W) by tauto. rewrite Hk in Hny by done.
  apply dec_stable. intros Hgy. by apply (Hm y ny Hny) in Hgy.
Qed.

(** The invariant: starting from an empty tree over nodes that are in none, every state
    that insertions and removals lead to -- duplicates and repeated removals included --
    is a red-black tree: one whose paths all have the same number of black nodes, with
    no red node below a red one, its nodes in order and its size right; a node is in it
    exactly when its generation is not zero; and every further insertion of a node that
    is in no tree, and every removal, returns. *)
Theorem rb_reachable ns s :
  (∀ y n, ns !! y = Some n → n_gen n = 0) → rtc rb_step (opr_rbtree_init ns) s →
  ∃ W, rb_valid s W ∧ marked s W ∧
    (∀ x n, rb_nodes s !! x = Some n → n_gen n = 0 → ∃ r s', opr_rbtree_insert cmpf s x = Ret (r, s')) ∧
    (∀ x n, rb_nodes s !! x = Some n → ∃ s', opr_rbtree_remove s x = Ret s').
Proof.
  intros Hns Hr. assert (∃ W, rb_valid s W ∧ marked s W) as (W & Hv & Hm).
  { apply (rtc_ind_r (R := rb_step) (λ s, ∃ W, rb_valid s W ∧ marked s W) (opr_rbtree_init ns)); [|clear s Hr|exact Hr].
    - exists E. assert (Hv : rb_valid (opr_rbtree_init ns) E).
      { constructor; [constructor; [done|done|constructor]|by exists 0%nat|constructor|constructor|done]. }
      split; [done|]. apply marked_intro; [done|]. intros y n _. apply Hns.
    - intros s1 s2 _ Hs (W & Hv & Hm). destruct Hs as [s x n r s' Hx Hg Hi|s x n s' Hx Hi].
      + destruct (insert_marked s W x n Hv Hm Hx Hg) as (r' & s'' & W' & E' & ?). exists W'. congruence.
      + destruct (remove_marked s W x n Hv Hm Hx) as (s'' & W' & E' & ?). exists W'. congruence. }
  exists W. split; [done|]. split; [done|]. split.
  - intros x n Hx Hg. destruct (insert_marked s W x n Hv Hm Hx Hg) as (r & s' & _ & E' & _). eauto.
  - intros x n Hx. destruct (remove_marked s W x n Hv Hm Hx) as (s' & _ & E' & _). eauto.
Qed.
End Trees.

(** ** Examples *)

(** Four transports with the descriptors 3, 4, 5 and 6. *)
Definition some_fd (p : Z) : Z := p / 16 + 2.
Definition some_nodes : nodes := list_to_map ((λ p, (p, mk_node None None None false 0)) <$> [16; 32; 48; 64]).

Definition insert_all (l : list Z) (s : opr_rbtree) : out opr_rbtree :=
  foldl (λ s p, let! s := s in let! (_, s) := opr_rbtree_insert (svc_xprt_fd_cmpf some_fd) s p in Ret s) (Ret s) l.

(** The tree of three of them. *)
Definition built (l : list Z) : opr_rbtree :=
  match insert_all l (opr_rbtree_init some_nodes) with Ret s => s | _ => opr_rbtree_init ∅ end.
Definition three_xprts : opr_rbtree := built [32; 16; 64].
Definition three_shape : tree := N false (N true E 16 2 E) 32 1 (N true E 64 3 E).

Lemma three_xprts_holds : holds (svc_xprt_fd_cmpf some_fd) three_xprts [16; 32; 64].
Proof.
  exists three_shape. split; [|done]. constructor.
  - constructor; [done|by vm_compute|]. apply (bool_decide_unpack _). by vm_compute.
  - by exists 1%nat.
  - repeat constructor.
  - by repeat constructor.
  - done.
Qed.

Lemma rb_refines_list_witness :
  opr_rbtree_lookup (svc_xprt_fd_cmpf some_fd) three_xprts 48 = Ret None ∧
  opr_rbtree_first three_xprts = Ret (Some 16) ∧
  ∃ s', opr_rbtree_insert (svc_xprt_fd_cmpf some_fd) three_xprts 48 = Ret (None, s') ∧
    holds (svc_xprt_fd_cmpf some_fd) s' [16; 32; 48; 64].
Proof.
  destruct (rb_refines_list (svc_xprt_fd_cmpf some_fd) three_xprts [16; 32; 64] 48 (mk_node None None None false 0))
    as (H1 & H2 & _ & _ & _ & H3 & _); [exact three_xprts_holds|by vm_compute|].
  split; [exact H1|]. split; [exact H2|]. apply H3. apply (bool_decide_unpack _). by vm_compute.
Defined.

Lemma rb_lookup_logarithmic_witness :
  lookup_loop (svc_xprt_fd_cmpf some_fd) 4 three_xprts 64 (rb_root three_xprts) = Ret (Some 64).
Proof.
  apply (rb_lookup_logarithmic (svc_xprt_fd_cmpf some_fd) three_xprts [16; 32; 64] 64 4); [exact three_xprts_holds|].
  apply (bool_decide_unpack _). by vm_compute.
Defined.

Lemma rb_reachable_witness : ∃ W, rb_valid (svc_xprt_fd_cmpf some_fd) three_xprts W ∧ marked three_xprts W.
Proof.
  destruct (rb_reachable (svc_xprt_fd_cmpf some_fd) some_nodes three_xprts) as (W & Hv & Hm & _); [| |by exists W].
  - intros y n Hy. apply elem_of_list_to_map_2 in Hy. cbn in Hy.
    repeat (apply elem_of_cons in Hy as [[= -> ->]|Hy]; [done|]). by apply not_elem_of_nil in Hy.
  - apply (rtc_l _ _ (built [32])); [by eapply (step_insert _ _ 32); vm_compute|].
    apply (rtc_l _ _ (built [32; 16])); [by eapply (step_insert _ _ 16); vm_compute|].
    apply rtc_once. by eapply (step_insert _ _ 64); vm_compute.
Defined.

(** The trees are not left-leaning: after two insertions in increasing order the red node
    is the right child. *)
Theorem rb_not_left_leaning :
  ∃ s root child, insert_all [16; 32] (opr_rbtree_init some_nodes) = Ret s ∧
    rb_nodes s !! 16 = Some root ∧ n_left root = None ∧ n_right root = Some 32 ∧
    rb_nodes s !! 32 = Some child ∧ n_red child = true.
Proof. eexists _, _, _. split; [by vm_compute|]. by vm_compute. Qed.
