(* ===== verification/RbTreeX.v ===== *)
(** * Partitioned trees with a cache (ntirpc/misc/rbtree_x.h, src/rbtree_x.c)

    A key is hashed to one of several trees; each has an array of recently used nodes in
    front of it.  The nodes of all trees lie in one memory. *)
From stdpp Require Import base gmap list.
From Stdlib Require Import ZArith.
From S2P Require Import Prelude Machine RbTree.

Definition RBT_X_FLAG_ALLOC : Z := 1.
Definition RBT_X_FLAG_CACHE_RT : Z := 2.
Definition RBT_X_FLAG_CACHE_WT : Z := 4.

(** One tree: its head (the nodes are kept apart), the cache and what the owner attaches;
    the locks are left to the owner's model. *)
Record rbtree_x_part (U : Type) := mk_part { xp_t : opr_rbtree; xp_cache : list nptr; xp_u1 : U }.
Arguments mk_part {_}.
Arguments xp_t {_}.
Arguments xp_cache {_}.
Arguments xp_u1 {_}.

Record rbtree_x (U : Type) := mk_xt {
  npart : Z; xt_flags : Z; cachesz : Z; xt_tree : list (rbtree_x_part U) }.
Arguments mk_xt {_}.
Arguments npart {_}.
Arguments xt_flags {_}.
Arguments cachesz {_}.
Arguments xt_tree {_}.

Section Parts.
Context {U : Type}.
Implicit Types (xt : rbtree_x U) (p : rbtree_x_part U) (ns : gmap Z opr_rbtree_node).

Definition set_head (s : opr_rbtree) p : rbtree_x_part U := mk_part (set_nodes ∅ s) (xp_cache p) (xp_u1 p).
Definition set_cache (c : list nptr) p : rbtree_x_part U := mk_part (xp_t p) c (xp_u1 p).
Definition set_u1 (u : U) p : rbtree_x_part U := mk_part (xp_t p) (xp_cache p) u.
Definition set_part (t : nat) p xt : rbtree_x U :=
  mk_xt (npart xt) (xt_flags xt) (cachesz xt) (<[t := p]> (xt_tree xt)).

(** The tree of a partition over the memory [ns]. *)
Definition tree_in ns p : opr_rbtree := set_nodes ns (xp_t p).

Definition rbtx_idx_of_scalar xt (k : Z) : nat := Z.to_nat (k mod npart xt).

(** [u0] is what the owner finds in the partition before setting it; the flags and the
    number of partitions are taken as given, [cachesz] is the owner's. *)
Definition rbtx_init xt (np flags : Z) (u0 : U) : Z * rbtree_x U :=
  let tree := if has_flag flags RBT_X_FLAG_ALLOC
              then replicate (Z.to_nat np) (mk_part (opr_rbtree_init ∅) [] u0)
              else (λ p, mk_part (opr_rbtree_init ∅) (xp_cache p) (xp_u1 p)) <$> xt_tree xt in
  (0, mk_xt np flags (cachesz xt) tree).

Section Compare.
Variable cmpf : Z → Z → Z.

(** [t] is the partition when the caller has found it already. *)
Definition rbtree_x_cached_lookup xt ns (t : option nat) (nk hk : Z) : out (nptr * rbtree_x U) :=
  let t := default (rbtx_idx_of_scalar xt hk) t in
  let! p := access (xt_tree xt !! t) in
  let offset := Z.to_nat (hk mod cachesz xt) in
  let! nv_cached := access (xp_cache p !! offset) in
  match (match nv_cached with Some c => if cmpf c nk =? 0 then Some c else None | None => None end) with
  | Some c => Ret (Some c, xt)
  | None =>
      let! nv := opr_rbtree_lookup cmpf (tree_in ns p) nk in
      Ret (nv, if bool_decide (nv ≠ None) && has_flag (xt_flags xt) RBT_X_FLAG_CACHE_RT
               then set_part t (set_cache (<[offset := nv]> (xp_cache p)) p) xt else xt)
  end.

Definition rbtree_x_cached_insert xt ns (t : option nat) (nk hk : Z)
    : out (nptr * rbtree_x U * gmap Z opr_rbtree_node) :=
  let t := default (rbtx_idx_of_scalar xt hk) t in
  let! p := access (xt_tree xt !! t) in
  let offset := Z.to_nat (hk mod cachesz xt) in
  let! v_cached := access (xp_cache p !! offset) in
  let insert p :=
    let! (nv, s) := opr_rbtree_insert cmpf (tree_in ns p) nk in
    Ret (nv, set_part t (set_head s p) xt, rb_nodes s) in
  if has_flag (xt_flags xt) RBT_X_FLAG_CACHE_WT then
    match v_cached with
    | None => Ret (Some nk, set_part t (set_cache (<[offset := Some nk]> (xp_cache p)) p) xt, ns)
    | Some _ => let! (nv, xt, ns) := insert p in Ret (Some (default nk nv), xt, ns)
    end
  else
    let! (_, xt, ns) := insert (set_cache (<[offset := Some nk]> (xp_cache p)) p) in
    Ret (Some nk, xt, ns).

Definition rbtree_x_cached_remove xt ns (t : option nat) (nk hk : Z)
    : out (rbtree_x U * gmap Z opr_rbtree_node) :=
  let t := default (rbtx_idx_of_scalar xt hk) t in
  let! p := access (xt_tree xt !! t) in
  let offset := Z.to_nat (hk mod cachesz xt) in
  let! v_cached := access (xp_cache p !! offset) in
  let hit := match v_cached with Some c => cmpf nk c =? 0 | None => false end in
  let p := if hit then set_cache (<[offset := None]> (xp_cache p)) p else p in
  if has_flag (xt_flags xt) RBT_X_FLAG_CACHE_WT && hit then Ret (set_part t p xt, ns)
  else
    let! s := opr_rbtree_remove (tree_in ns p) nk in
    Ret (set_part t (set_head s p) xt, rb_nodes s).
End Compare.
End Parts.
