(* ===== verification/RbTreeXFacts.v ===== *)
(** * Partitioned trees with a read-through cache

    What the operations of ntirpc/misc/rbtree_x.h do to a partition, in terms of the set of
    its nodes: the cache only ever shows nodes of the tree, in the slot of their hash. *)
From stdpp Require Import base gmap list sorting.
From Stdlib Require Import ZArith Lia.
From S2P Require Import Prelude Machine RbTree RbTreeFacts RbTreeOps RbTreeTheorems RbTreeX.

(** A tree stays valid when its nodes and their order stay. *)
Lemma rb_valid_ext c c' s s' W :
  rb_valid c s W → rb_root s' = rb_root s → rb_size s' = rb_size s →
  (∀ y, y ∈ locs W → rb_nodes s' !! y = rb_nodes s !! y) →
  (∀ x y, x ∈ locs W → y ∈ locs W → c' x y = c x y) → rb_valid c' s' W.
Proof.
  intros [Hs Hm Ho Hg Hsz] Hr Hz Hn Hc. constructor; [by eapply is_tree_ext|done| |done|congruence].
  revert Ho Hc. generalize (locs W) as l. induction 1 as [|x l Hl IH Hf]; intros Hc; [constructor|].
  constructor; [apply IH; intros y z Hy Hz'; apply Hc; by right|].
  rewrite Forall_forall in *. intros y Hy. red. rewrite Hc; [by apply Hf|left|by right].
Qed.

(** One slot of a cache changed. *)
Lemma cache_insert_inv (c : list nptr) i o (v w : nptr) :
  <[i := v]> c !! o = Some w → (o = i ∧ w = v) ∨ (o ≠ i ∧ c !! o = Some w).
Proof.
  intros Hw. destruct (decide (o = i)) as [->|Hoi].
  - pose proof (lookup_lt_Some _ _ _ Hw) as Hlt. rewrite length_insert in Hlt.
    rewrite list_lookup_insert_eq in Hw by done. naive_solver.
  - rewrite list_lookup_insert_ne in Hw by done. naive_solver.
Qed.

Section Part.
Context {U : Type} (cmpf : Z → Z → Z) `{!Comparison cmpf} (csz : Z) (hk : Z → Z).
Implicit Types (xt : rbtree_x U) (p : rbtree_x_part U) (M : Z → Prop) (ns : nodes).

(** The partition [p] holds the nodes [M]. *)
Record part_holds ns p M : Prop := {
  ph_tree : ∃ W, rb_valid cmpf (tree_in ns p) W ∧ ∀ a, a ∈ locs W ↔ M a;
  ph_slots : length (xp_cache p) = Z.to_nat csz;
  ph_cache o v : xp_cache p !! o = Some (Some v) → M v ∧ o = Z.to_nat (hk v mod csz);
}.

Lemma part_holds_iff ns p M M' : (∀ a, M a ↔ M' a) → part_holds ns p M → part_holds ns p M'.
Proof.
  intros HM [(W & HW & HI) Hl Hc]. constructor; [exists W; split; [done|naive_solver]|done|].
  intros o v Hv. apply Hc in Hv. naive_solver.
Qed.

(** [xt] is a read-through cache with [p] as partition [t]. *)
Record reads_through xt (t : nat) p : Prop := {
  rt_part : xt_tree xt !! t = Some p;
  rt_flags : xt_flags xt = 3;
  rt_slots : cachesz xt = csz;
}.

Hypothesis Hcsz : 0 < csz.

Lemma slot_some ns p M k : part_holds ns p M → ∃ v, xp_cache p !! Z.to_nat (k mod csz) = Some v.
Proof.
  intros [_ Hl _]. apply lookup_lt_is_Some. rewrite Hl. pose proof (Z.mod_pos_bound k csz). lia.
Qed.

(** A node put in, or taken out of, its slot. *)
Lemma part_cache_put ns p M v :
  part_holds ns p M → M v → part_holds ns (set_cache (<[Z.to_nat (hk v mod csz) := Some v]> (xp_cache p)) p) M.
Proof.
  intros [Ht Hl Hc] Hv. constructor; [done|cbn; by rewrite length_insert|]. cbn. intros o w Hw.
  apply cache_insert_inv in Hw as [[-> ?]|[_ Hw]]; [naive_solver|by apply Hc].
Qed.

Lemma xlookup_ok xt t p ns M nk k :
  reads_through xt t p → part_holds ns p M → (∀ v, M v → cmpf nk v = 0 → hk v = k) →
  ∃ r p', rbtree_x_cached_lookup cmpf xt ns (Some t) nk k = Ret (r, set_part t p' xt) ∧
    part_holds ns p' M ∧ xp_u1 p' = xp_u1 p ∧
    match r with Some v => M v ∧ cmpf nk v = 0 | None => ∀ v, M v → cmpf nk v ≠ 0 end.
Proof.
  intros [Hp Hf Hz] Hh Hk. unfold rbtree_x_cached_lookup. cbn [from_option id]. rewrite Hp. cbn [access obind].
  destruct (slot_some _ _ _ k Hh) as [c Hc]. rewrite Hz, Hc. cbn [access obind].
  assert (Esame : set_part t p xt = xt).
  { destruct xt. unfold set_part. cbn in *. by rewrite list_insert_id. }
  destruct (match c with Some _ => _ | None => _ end) as [v|] eqn:Ev.
  { destruct c as [v'|]; [|done]. destruct (Z.eqb_spec (cmpf v' nk) 0) as [E0|]; simplify_eq.
    destruct (ph_cache _ _ _ Hh _ _ Hc) as [Hv _]. exists (Some v), p. rewrite Esame.
    split; [done|]. split; [done|]. split; [done|]. split; [done|]. rewrite cmp_anti, E0. done. }
  destruct (ph_tree _ _ _ Hh) as (W & HW & HI). destruct (lookup_valid cmpf _ W nk HW) as [El Hr].
  rewrite El. cbn [obind]. rewrite Hf. destruct (tfind cmpf W nk) as [v|]; cbn.
  - destruct Hr as [Hv Hcv]. apply HI in Hv. rewrite <- (Hk v Hv Hcv). eexists (Some v), _. split; [done|].
    split; [by apply part_cache_put|]. done.
  - exists None, p. rewrite Esame. split; [done|]. split; [done|]. split; [done|]. intros v Hv. apply Hr. by apply HI.
Qed.

Lemma tree_in_head s p : tree_in (rb_nodes s) (set_head s p) = s.
Proof. by destruct s. Qed.

Lemma xinsert_ok xt t p ns M nk n0 :
  reads_through xt t p → part_holds ns p M → ns !! nk = Some n0 → ¬ M nk → (∀ v, M v → cmpf nk v ≠ 0) →
  ∃ p' ns', rbtree_x_cached_insert cmpf xt ns (Some t) nk (hk nk) = Ret (Some nk, set_part t p' xt, ns') ∧
    part_holds ns' p' (λ a, a = nk ∨ M a) ∧ xp_u1 p' = xp_u1 p ∧
    (∀ y, y ≠ nk → ¬ M y → ns' !! y = ns !! y).
Proof.
  intros [Hp Hf Hz] Hh Hn Hnk Hne. unfold rbtree_x_cached_insert. cbn [from_option id]. rewrite Hp. cbn [access obind].
  destruct (slot_some _ _ _ (hk nk) Hh) as [c Hc]. rewrite Hz, Hc, Hf. cbn [access obind].
  destruct (ph_tree _ _ _ Hh) as (W & HW & HI).
  destruct (insert_valid cmpf _ W nk n0 HW Hn) as [(q & _ & Hq & Hcq)|(s' & W' & l1 & l2 & E' & HW' & El & El' & _ & _ & Hk)].
  { by rewrite HI. }
  { exfalso. apply (Hne q); [by apply HI|done]. }
  assert (HM : ∀ a, a ∈ locs W' ↔ a = nk ∨ M a) by (intros a; rewrite <- HI, El, El'; set_solver).
  change (has_flag 3 RBT_X_FLAG_CACHE_WT) with false. cbv iota. cbv zeta.
  change (tree_in ns (set_cache _ p)) with (tree_in ns p). rewrite E'. cbn [obind].
  eexists _, _. split; [done|]. split; [|split; [done|]].
  - constructor.
    + exists W'. rewrite tree_in_head. done.
    + cbn. rewrite length_insert. apply Hh.
    + cbn. intros o w [[-> ?]|[_ Hw]]%cache_insert_inv; [naive_solver|].
      apply (ph_cache _ _ _ Hh) in Hw. naive_solver.
  - intros y Hy HyM. rewrite Hk by (rewrite HM; tauto). done.
Qed.

Lemma xremove_ok xt t p ns M nk :
  reads_through xt t p → part_holds ns p M → M nk →
  ∃ p' ns', rbtree_x_cached_remove cmpf xt ns (Some t) nk (hk nk) = Ret (set_part t p' xt, ns') ∧
    part_holds ns' p' (λ a, a ≠ nk ∧ M a) ∧ xp_u1 p' = xp_u1 p ∧
    (∃ n, ns' !! nk = Some n ∧ n_gen n = 0) ∧ (∀ y, ¬ M y → ns' !! y = ns !! y).
Proof.
  intros [Hp Hf Hz] Hh Hnk. unfold rbtree_x_cached_remove. cbn [from_option id]. rewrite Hp. cbn [access obind].
  destruct (slot_some _ _ _ (hk nk) Hh) as [c Hc]. rewrite Hz, Hc, Hf. cbn [access obind].
  destruct (ph_tree _ _ _ Hh) as (W & HW & HI). apply HI in Hnk as HnkW.
  destruct (remove_spec cmpf _ W nk HW HnkW) as (s' & W' & E' & HW' & El & Hg & Hk).
  set (hit := match c with Some _ => _ | None => _ end). cbv zeta.
  set (p1 := if hit then _ else p). change (has_flag 3 RBT_X_FLAG_CACHE_WT) with false. cbn [andb].
  assert (Et : tree_in ns p1 = tree_in ns p) by (unfold p1; by destruct hit). rewrite Et, E'. cbn [obind].
  assert (HM : ∀ a, a ∈ locs W' ↔ a ≠ nk ∧ M a).
  { intros a. rewrite El, <- HI. unfold spec_remove. by rewrite list_elem_of_filter. }
  assert (Hc1 : ∀ o v, xp_cache p1 !! o = Some (Some v) → v ≠ nk ∧ xp_cache p !! o = Some (Some v)).
  { intros o v. unfold p1. destruct hit eqn:Eh; cbn.
    - intros [[-> ?]|[Ho Hv]]%cache_insert_inv; [done|]. split; [|done]. intros ->.
      apply Ho. apply (ph_cache _ _ _ Hh) in Hv as [_ ->]. done.
    - intros Hv. split; [|done]. intros ->. destruct (ph_cache _ _ _ Hh _ _ Hv) as [_ ->].
      rewrite Hc in Hv. unfold hit in Eh. simplify_eq. rewrite cmp_refl in Eh. done. }
  eexists _, _. split; [done|]. split; [|split; [by unfold p1; destruct hit|split; [done|]]].
  - constructor.
    + exists W'. by rewrite tree_in_head.
    + cbn. unfold p1. destruct hit; cbn; rewrite ?length_insert; apply Hh.
    + cbn. intros o v [Hv Ho]%Hc1. apply (ph_cache _ _ _ Hh) in Ho. naive_solver.
  - intros y Hy. apply Hk. by rewrite HI.
Qed.
End Part.

(** Only what is said of the nodes of a partition matters to it. *)
Lemma part_holds_ext {U} c c' csz hk hk' ns ns' (p p' : rbtree_x_part U) (M M' : Z → Prop) :
  part_holds c csz hk ns p M → (∀ a, M' a ↔ M a) → xp_t p' = xp_t p → xp_cache p' = xp_cache p →
  (∀ a, M a → ns' !! a = ns !! a ∧ hk' a = hk a) → (∀ a b, M a → M b → c' a b = c a b) →
  part_holds c' csz hk' ns' p' M'.
Proof.
  intros [(W & HW & HI) Hl Hc] HM Ht Hp Ha Hcmp. constructor.
  - exists W. split; [|naive_solver]. eapply rb_valid_ext; [exact HW|unfold tree_in; cbn; by rewrite Ht..| |].
    + intros y Hy%HI. cbn. by apply Ha.
    + intros x y Hx%HI Hy%HI. by apply Hcmp.
  - by rewrite Hp.
  - rewrite Hp. intros o v [Hv ->]%Hc. split; [by apply HM|]. by rewrite (proj2 (Ha v Hv)).
Qed.
