(* ===== verification/GssCache.v ===== *)
(** * The cache of RPCSEC_GSS contexts (src/authgss_hash.c)

    Contexts that clients have established are found again by the handle the client
    sends.  Each operation is split where it takes and releases the mutex of a partition;
    the sections are the steps of a system in which any number of requests run at once,
    together with the routine that disables RPCSEC_GSS and clears the cache
    (svcauth_gss_set_status in src/svc_auth_gss.c). *)
From stdpp Require Import base gmap list.
From Stdlib Require Import ZArith.
From S2P Require Import Prelude Machine RbTree RbTreeTheorems RbTreeX GssWindow.

(** ** Data *)

(** [gd_ctx] is what the context handle points to, [mech_type] and [internal_ctx_id];
    [gd_queued] is whether the links of [lru_q] are set.  The node [node_k] is the first
    member, so a context and its node have the same address. *)
Record svc_rpc_gss_data := mk_gd {
  gd_refcnt : Z; gd_gen : Z; gd_hk : Z; gd_ctx : option (Z * Z); gd_queued : bool;
  gd_established : bool; gd_svc : Z; gd_seq : gss_seq; gd_endtime : Z }.

Definition set_refcnt v g := mk_gd v (gd_gen g) (gd_hk g) (gd_ctx g) (gd_queued g) (gd_established g) (gd_svc g) (gd_seq g) (gd_endtime g).
Definition set_gd_gen v g := mk_gd (gd_refcnt g) v (gd_hk g) (gd_ctx g) (gd_queued g) (gd_established g) (gd_svc g) (gd_seq g) (gd_endtime g).
Definition set_hk v g := mk_gd (gd_refcnt g) (gd_gen g) v (gd_ctx g) (gd_queued g) (gd_established g) (gd_svc g) (gd_seq g) (gd_endtime g).
Definition set_ctx v g := mk_gd (gd_refcnt g) (gd_gen g) (gd_hk g) v (gd_queued g) (gd_established g) (gd_svc g) (gd_seq g) (gd_endtime g).
Definition set_queued v g := mk_gd (gd_refcnt g) (gd_gen g) (gd_hk g) (gd_ctx g) v (gd_established g) (gd_svc g) (gd_seq g) (gd_endtime g).
Definition set_established v g := mk_gd (gd_refcnt g) (gd_gen g) (gd_hk g) (gd_ctx g) (gd_queued g) v (gd_svc g) (gd_seq g) (gd_endtime g).
Definition set_svc v g := mk_gd (gd_refcnt g) (gd_gen g) (gd_hk g) (gd_ctx g) (gd_queued g) (gd_established g) v (gd_seq g) (gd_endtime g).
Definition set_seq v g := mk_gd (gd_refcnt g) (gd_gen g) (gd_hk g) (gd_ctx g) (gd_queued g) (gd_established g) (gd_svc g) v (gd_endtime g).
Definition set_endtime v g := mk_gd (gd_refcnt g) (gd_gen g) (gd_hk g) (gd_ctx g) (gd_queued g) (gd_established g) (gd_svc g) (gd_seq g) v.

Record authgss_x_part := mk_axp { axp_gen : Z; axp_size : Z; lru_q : list Z }.

Record authgss_hash_st := mk_hash {
  hash_xt : rbtree_x authgss_x_part; max_part : Z; hash_size : Z; initialized : bool }.

(** The fields of [__svc_params->gss] the cache uses. *)
Record gss_params := mk_gss_params { max_ctx : Z; ctx_hash_partitions : Z; max_gc : Z }.

(** The contexts and their nodes, the cache, [svcauth_gss_enabled] and [idle_next]. *)
Record gss_state := mk_gss {
  g_data : gmap Z svc_rpc_gss_data; g_nodes : gmap Z opr_rbtree_node;
  g_hash : authgss_hash_st; g_enabled : bool; g_idle_next : Z }.

Definition set_data v w := mk_gss v (g_nodes w) (g_hash w) (g_enabled w) (g_idle_next w).
Definition set_hash v w := mk_gss (g_data w) (g_nodes w) v (g_enabled w) (g_idle_next w).
Definition set_xt v n w :=
  mk_gss (g_data w) n (mk_hash v (max_part (g_hash w)) (hash_size (g_hash w)) (initialized (g_hash w)))
    (g_enabled w) (g_idle_next w).
Definition set_hash_size v w :=
  set_hash (mk_hash (hash_xt (g_hash w)) (max_part (g_hash w)) v (initialized (g_hash w))) w.
Definition set_enabled v w := mk_gss (g_data w) (g_nodes w) (g_hash w) v (g_idle_next w).
Definition set_idle_next v w := mk_gss (g_data w) (g_nodes w) (g_hash w) (g_enabled w) v.

Definition upd_gd (w : gss_state) (gd : Z) (f : svc_rpc_gss_data → svc_rpc_gss_data) : out gss_state :=
  let! g := access (g_data w !! gd) in Ret (set_data (<[gd := f g]> (g_data w)) w).

(** At program start. *)
Definition gss_state_start : gss_state :=
  mk_gss ∅ ∅ (mk_hash (mk_xt 0 0 255 []) 0 0 false) true 0.

(** ** Keys *)

Definition gss_ctx_hash (gss_ctx : Z * Z) : Z := u64 (gss_ctx.1 + gss_ctx.2).

(** The key on the stack of [authgss_ctx_hash_get]; no context is allocated there. *)
Definition gk_addr : Z := -1.

(** The context at an address.  A node of a tree is a context in memory with a key in every
    state the sections reach ([part_ok] of GssCacheFacts.v, kept by [core]), so that the default
    is not the key of any node a search compares. *)
Definition ctx_at (data : gmap Z svc_rpc_gss_data) (gk : Z * Z) (a : Z) : Z * Z :=
  if a =? gk_addr then gk else default (0, 0) (data !! a ≫= gd_ctx).

(** The [cmpf] of the trees, [svc_rpc_gss_cmpf], in a state. *)
Definition gss_cmpf (data : gmap Z svc_rpc_gss_data) (gk : Z * Z) : Z → Z → Z :=
  svc_rpc_gss_cmpf (λ a, (ctx_at data gk a).1) (λ a, (ctx_at data gk a).2).

(** ** Queues *)

Definition lru_remove (q : list Z) (gd : Z) : out (list Z) :=
  if decide (gd ∈ q) then Ret (filter (λ a, a ≠ gd) q) else Ub.
Definition lru_insert_tail (q : list Z) (gd : Z) : out (list Z) :=
  if decide (gd ∈ q) then Ub else Ret (q ++ [gd]).

(** Change what hangs off partition [t]. *)
Definition upd_axp (w : gss_state) (t : nat) (f : authgss_x_part → out authgss_x_part) : out gss_state :=
  let xt := hash_xt (g_hash w) in
  let! p := access (xt_tree xt !! t) in
  let! axp := f (xp_u1 p) in
  Ret (set_xt (set_part t (set_u1 axp p) xt) (g_nodes w) w).

(** ** References *)

(** svcauth_gss_destroy: the context and the object are released. *)
Definition gss_destroy (w : gss_state) (gd : Z) : gss_state :=
  mk_gss (delete gd (g_data w)) (delete gd (g_nodes w)) (g_hash w) (g_enabled w) (g_idle_next w).

(** [held] is the context whose lock the calling thread holds, if any; taking a lock of
    this kind twice is undefined. *)
Definition unref_svc_rpc_gss_data (w : gss_state) (held : nptr) (gd : Z) : out gss_state :=
  let! g := access (g_data w !! gd) in
  if decide (held = Some gd) then Ub else
  let n := u32 (gd_refcnt g - 1) in
  let w := set_data (<[gd := set_refcnt n g]> (g_data w)) w in
  if n =? 0 then Ret (gss_destroy w gd) else Ret w.

(** alloc_svc_rpc_gss_data, at the address the allocator gives. *)
Definition alloc_svc_rpc_gss_data (w : gss_state) (gd : Z) : gss_state :=
  mk_gss (<[gd := mk_gd 1 0 0 None false false 0 gss_seq_zero 0]> (g_data w))
    (<[gd := mk_node None None None false 0]> (g_nodes w)) (g_hash w) (g_enabled w) (g_idle_next w).

(** ** Operations *)

Definition authgss_hash_init (prm : gss_params) (w : gss_state) : out gss_state :=
  let h := g_hash w in
  if initialized h then
    if npart (hash_xt h) =? 0 then Ub else
    Ret (set_hash (mk_hash (hash_xt h) (u32 (max_ctx prm) / npart (hash_xt h)) (hash_size h) true) w)
  else
    let axp := mk_axp 0 0 [] in
    let '(_, xt) := rbtx_init (hash_xt h) (u32 (ctx_hash_partitions prm))
                      (Z.lor RBT_X_FLAG_ALLOC RBT_X_FLAG_CACHE_RT) axp in
    let parts := set_cache (replicate (Z.to_nat (cachesz xt)) None) <$> xt_tree xt in
    let xt := mk_xt (npart xt) (xt_flags xt) (cachesz xt) parts in
    if npart xt =? 0 then Ub else
    Ret (set_hash (mk_hash xt (u32 (max_ctx prm) / npart xt) 0 true) w).

Definition hash_of (gss_ctx : Z * Z) : Z := u32 (gss_ctx_hash gss_ctx).
Definition part_of (w : gss_state) (k : Z) : nat := rbtx_idx_of_scalar (hash_xt (g_hash w)) k.

(** [authgss_ctx_hash_get] from taking the mutex on; [gk] is what the handle in the
    credential points to. *)
Definition get_locked (w : gss_state) (gk : Z * Z) : out (nptr * gss_state) :=
  let k := hash_of gk in
  let t := part_of w k in
  if negb (g_enabled w) then Ret (None, w) else
  let! (ngd, xt) := rbtree_x_cached_lookup (gss_cmpf (g_data w) gk) (hash_xt (g_hash w)) (g_nodes w) (Some t) gk_addr k in
  let w := set_xt xt (g_nodes w) w in
  match ngd with
  | None => Ret (None, w)
  | Some gd =>
      let! w := upd_axp w t (λ axp,
        let! q := lru_remove (lru_q axp) gd in
        let! q := lru_insert_tail q gd in
        Ret (mk_axp (u32 (axp_gen axp + 1)) (axp_size axp) q)) in
      let! w := upd_gd w gd (λ g, set_gd_gen (u32 (gd_gen g + 1)) (set_refcnt (u32 (gd_refcnt g + 1)) g)) in
      Ret (Some gd, w)
  end.

Definition authgss_ctx_hash_get (prm : gss_params) (w : gss_state) (gk : Z * Z) : out (nptr * gss_state) :=
  if negb (g_enabled w) then Ret (None, w) else
  let! w := authgss_hash_init prm w in get_locked w gk.

(** [authgss_ctx_hash_set] up to the mutex, and from there on. *)
Definition set_begin (prm : gss_params) (w : gss_state) (gd : Z) : out gss_state :=
  let! w := authgss_hash_init prm w in
  let! g := access (g_data w !! gd) in
  let! gss_ctx := access (gd_ctx g) in
  upd_gd w gd (λ g, set_refcnt (u32 (gd_refcnt g + 1)) (set_hk (hash_of gss_ctx) g)).

Definition set_locked (w : gss_state) (gd : Z) : out (bool * gss_state) :=
  let! g := access (g_data w !! gd) in
  let t := part_of w (gd_hk g) in
  if negb (g_enabled w) then
    let! w := upd_gd w gd (λ g, set_refcnt (u32 (gd_refcnt g - 1)) g) in Ret (false, w)
  else
  let! (nv, xt, ns) := rbtree_x_cached_insert (gss_cmpf (g_data w) (0, 0)) (hash_xt (g_hash w)) (g_nodes w) (Some t) gd (gd_hk g) in
  let w := set_xt xt ns w in
  let! w := upd_axp w t (λ axp,
    let! q := lru_insert_tail (lru_q axp) gd in Ret (mk_axp (axp_gen axp) (u32 (axp_size axp + 1)) q)) in
  let! w := upd_gd w gd (set_queued true) in
  Ret (bool_decide (nv ≠ None), set_hash_size (u32 (hash_size (g_hash w) + 1)) w).

Definition authgss_ctx_hash_set (prm : gss_params) (w : gss_state) (gd : Z) : out (bool * gss_state) :=
  if negb (g_enabled w) then Ret (false, w) else
  let! w := set_begin prm w gd in set_locked w gd.

(** The lines that take an entry out of partition [t], in all three callers. *)
Definition cache_remove (w : gss_state) (t : nat) (gd : Z) : out gss_state :=
  let! g := access (g_data w !! gd) in
  let! (xt, ns) := rbtree_x_cached_remove (gss_cmpf (g_data w) (0, 0)) (hash_xt (g_hash w)) (g_nodes w) (Some t) gd (gd_hk g) in
  let w := set_xt xt ns w in
  let! w := upd_axp w t (λ axp,
    let! q := lru_remove (lru_q axp) gd in Ret (mk_axp (axp_gen axp) (u32 (axp_size axp - 1)) q)) in
  let! w := upd_gd w gd (set_queued false) in
  Ret (set_hash_size (u32 (hash_size (g_hash w) - 1)) w).

(** [authgss_ctx_hash_del] with the mutex held; the reference of the cache is left to the
    caller. *)
Definition del_locked (w : gss_state) (gd : Z) : out (bool * gss_state) :=
  let! g := access (g_data w !! gd) in
  if negb (gd_queued g) then Ret (false, w) else
  let! w := cache_remove w (part_of w (gd_hk g)) gd in Ret (true, w).

Definition authgss_ctx_hash_del (prm : gss_params) (w : gss_state) (held : nptr) (gd : Z) : out (bool * gss_state) :=
  let! w := authgss_hash_init prm w in
  let! (b, w) := del_locked w gd in
  if b : bool then let! w := unref_svc_rpc_gss_data w held gd in Ret (true, w) else Ret (false, w).

(** Collection of one partition, from [again]; [expired] is the answer of
    [authgss_ctx_expired]. *)
Fixpoint gc_part (fuel : nat) (prm : gss_params) (expired : Z → bool) (w : gss_state) (part : nat) (cnt : Z)
    : out (Z * gss_state) :=
  let! p := access (xt_tree (hash_xt (g_hash w)) !! part) in
  match lru_q (xp_u1 p) with
  | [] => Ret (cnt, w)
  | gd :: _ =>
      if (max_part (g_hash w) <? axp_size (xp_u1 p)) || expired gd then
        match fuel with
        | O => OutOfFuel
        | S fuel =>
            let! w := cache_remove w part gd in
            let! w := unref_svc_rpc_gss_data w None gd in
            let cnt := cnt + 1 in
            if cnt <? max_gc prm then gc_part fuel prm expired w part cnt else Ret (cnt, w)
        end
      else Ret (cnt, w)
  end.

Definition IDLE_NEXT (w : gss_state) : nat * gss_state :=
  let i := u32 (g_idle_next w + 1) in (part_of w i, set_idle_next i w).

Definition lru_at (w : gss_state) (t : nat) : list Z :=
  from_option (λ p, lru_q (xp_u1 p)) [] (xt_tree (hash_xt (g_hash w)) !! t).

Fixpoint gc_loop (n : nat) (prm : gss_params) (expired : Z → bool) (w : gss_state) (part : nat) (cnt : Z)
    : out (Z * gss_state) :=
  match n with
  | O => Ret (cnt, w)
  | S n =>
      if cnt <? max_gc prm then
        let! (cnt, w) := gc_part (length (lru_at w part)) prm expired w part cnt in
        let '(part, w) := IDLE_NEXT w in
        gc_loop n prm expired w part cnt
      else Ret (cnt, w)
  end.

Definition authgss_ctx_gc_idle (prm : gss_params) (expired : Z → bool) (w : gss_state) : out (Z * gss_state) :=
  let! w := authgss_hash_init prm w in
  let '(part, w) := IDLE_NEXT w in
  let! (cnt, w) := gc_loop (Z.to_nat (npart (hash_xt (g_hash w)))) prm expired w part 0 in
  let '(_, w) := IDLE_NEXT w in
  Ret (cnt, w).

(** [TAILQ_FOREACH_SAFE] over the entries present when the mutex was taken. *)
Fixpoint clear_entries (w : gss_state) (t : nat) (l : list Z) : out gss_state :=
  match l with
  | [] => Ret w
  | gd :: l =>
      let! w := cache_remove w t gd in
      let! w := unref_svc_rpc_gss_data w None gd in
      clear_entries w t l
  end.

Definition clear_part (w : gss_state) (ix : nat) : out gss_state := clear_entries w ix (lru_at w ix).

Fixpoint clear_parts (n ix : nat) (w : gss_state) : out gss_state :=
  match n with O => Ret w | S n => let! w := clear_part w ix in clear_parts n (S ix) w end.

Definition authgss_ctx_hash_clear (prm : gss_params) (w : gss_state) : out gss_state :=
  let! w := authgss_hash_init prm w in
  clear_parts (Z.to_nat (npart (hash_xt (g_hash w)))) 0 w.

(** svcauth_gss_set_status; the credentials and the name of the server, which it also
    drops, are not part of this state. *)
Definition svcauth_gss_set_status (prm : gss_params) (w : gss_state) (status_enabled : bool) : out gss_state :=
  if bool_decide (g_enabled w = status_enabled) then Ret w else
  let w := set_enabled status_enabled w in
  if status_enabled then Ret w else authgss_ctx_hash_clear prm w.

(** ** The system *)

(** Requests that run at once: the references they hold, the calls of
    [authgss_ctx_hash_set] and [authgss_ctx_hash_get] that wait for a mutex, and how far
    [svcauth_gss_set_status], which runs under a lock of its own, has come with clearing
    the partitions. *)
Record gss_sys := mk_gss_sys {
  y_gss : gss_state; y_refs : list Z; y_sets : list Z; y_gets : list (Z * Z); y_clearing : option nat }.

Definition sys_start : gss_sys := mk_gss_sys gss_state_start [] [] [] None.

(** Every partition is in use. *)
Definition params_ok (prm : gss_params) : Prop := 0 < ctx_hash_partitions prm < 2 ^ 31.

(** Fewer references are held than the counters can count. *)
Definition few_refs (refs : list Z) : Prop := Zlen refs < 2 ^ 32 - 2.

Inductive cache_step : gss_sys → gss_sys → Prop :=
| cs_alloc w refs sets gets clr gd :
    (* a request for a new context *)
    g_data w !! gd = None → 0 < gd →
    cache_step (mk_gss_sys w refs sets gets clr)
               (mk_gss_sys (alloc_svc_rpc_gss_data w gd) (gd :: refs) sets gets clr)
| cs_accept w refs sets gets clr gd g key :
    (* the GSS-API creates the context; a handle belongs to one live context only *)
    gd ∈ refs → g_data w !! gd = Some g → gd_ctx g = None →
    (∀ b gb, g_data w !! b = Some gb → gd_ctx gb ≠ Some key) →
    cache_step (mk_gss_sys w refs sets gets clr)
               (mk_gss_sys (set_data (<[gd := set_ctx (Some key) g]> (g_data w)) w) refs sets gets clr)
| cs_fields w refs sets gets clr gd g established svc endtime :
    (* a request writes what the cache does not look at *)
    gd ∈ refs → g_data w !! gd = Some g →
    cache_step (mk_gss_sys w refs sets gets clr)
               (mk_gss_sys (set_data (<[gd := set_established established (set_svc svc (set_endtime endtime g))]> (g_data w)) w)
                  refs sets gets clr)
| cs_seq w refs sets gets clr gd g seq_num b seq :
    gd ∈ refs → g_data w !! gd = Some g → is_u 32 seq_num →
    svcauth_gss_is_seq_num_valid (gd_seq g) seq_num = Ret (b, seq) →
    cache_step (mk_gss_sys w refs sets gets clr)
               (mk_gss_sys (set_data (<[gd := set_seq seq g]> (g_data w)) w) refs sets gets clr)
| cs_get_begin prm w w' refs sets gets clr key :
    params_ok prm → g_enabled w = true → authgss_hash_init prm w = Ret w' →
    cache_step (mk_gss_sys w refs sets gets clr) (mk_gss_sys w' refs sets (key :: gets) clr)
| cs_get w w' refs sets gets gets' clr key r :
    gets ≡ₚ key :: gets' → few_refs refs → get_locked w key = Ret (r, w') →
    cache_step (mk_gss_sys w refs sets gets clr)
               (mk_gss_sys w' (match r with Some gd => gd :: refs | None => refs end) sets gets' clr)
| cs_set_begin prm w w' refs sets gets clr gd g key :
    (* by a request that holds the context, once it has a handle *)
    params_ok prm → gd ∈ refs → gd ∉ sets → g_data w !! gd = Some g → gd_queued g = false → gd_ctx g = Some key →
    few_refs refs → g_enabled w = true → set_begin prm w gd = Ret w' →
    cache_step (mk_gss_sys w refs sets gets clr) (mk_gss_sys w' refs (gd :: sets) gets clr)
| cs_set w w' refs sets sets' gets clr gd b :
    sets ≡ₚ gd :: sets' → set_locked w gd = Ret (b, w') →
    cache_step (mk_gss_sys w refs sets gets clr) (mk_gss_sys w' refs sets' gets clr)
| cs_del prm w w1 w' refs sets gets clr gd b :
    params_ok prm → gd ∈ refs → authgss_hash_init prm w = Ret w1 → del_locked w1 gd = Ret (b, w') →
    cache_step (mk_gss_sys w refs sets gets clr)
               (mk_gss_sys w' (if b : bool then gd :: refs else refs) sets gets clr)
| cs_unref w w' refs refs' sets gets clr gd :
    (* the caller of [authgss_ctx_hash_set] keeps its reference during the call *)
    refs ≡ₚ gd :: refs' → (gd ∈ sets → gd ∈ refs') → unref_svc_rpc_gss_data w None gd = Ret w' →
    cache_step (mk_gss_sys w refs sets gets clr) (mk_gss_sys w' refs' sets gets clr)
| cs_gc prm expired w w1 w' refs sets gets clr part cnt cnt' :
    params_ok prm → authgss_hash_init prm w = Ret w1 → (Z.of_nat part < npart (hash_xt (g_hash w1))) →
    gc_part (length (lru_at w1 part)) prm expired w1 part cnt = Ret (cnt', w') →
    cache_step (mk_gss_sys w refs sets gets clr) (mk_gss_sys w' refs sets gets clr)
| cs_enable w refs sets gets :
    g_enabled w = false →
    cache_step (mk_gss_sys w refs sets gets None) (mk_gss_sys (set_enabled true w) refs sets gets None)
| cs_disable prm w w' refs sets gets :
    params_ok prm → g_enabled w = true → authgss_hash_init prm (set_enabled false w) = Ret w' →
    cache_step (mk_gss_sys w refs sets gets None) (mk_gss_sys w' refs sets gets (Some 0%nat))
| cs_clear w w' refs sets gets ix :
    clear_part w ix = Ret w' →
    cache_step (mk_gss_sys w refs sets gets (Some ix))
               (mk_gss_sys w' refs sets gets
                  (if Z.of_nat (S ix) <? npart (hash_xt (g_hash w)) then Some (S ix) else None)).
