(* ===== verification/GssCacheFacts.v ===== *)
(** * The context cache: what its sections do

    The invariant of the cache of src/authgss_hash.c, in two parts: [core] relates the trees,
    their caches, the queues and the contexts; [counted] relates the reference count of
    every context to the references there are. *)
From stdpp Require Import base gmap list sorting.
From Stdlib Require Import ZArith Lia.
From S2P Require Import Prelude Machine RbTree RbTreeTheorems RbTreeX RbTreeXFacts GssWindow GssCache.

(** ** The invariant *)

Definition seq_ok (s : gss_seq) : Prop := ∃ seen, seq_inv s seen.

Definition idx (np k : Z) : nat := Z.to_nat (k mod np).

(** The contexts of partition [t]. *)
Definition member (data : gmap Z svc_rpc_gss_data) (np : Z) (t : nat) (a : Z) : Prop :=
  ∃ g, data !! a = Some g ∧ gd_queued g = true ∧ idx np (gd_hk g) = t.
Definition hk_of (data : gmap Z svc_rpc_gss_data) (a : Z) : Z := default 0 (gd_hk <$> data !! a).

Abbreviation parts w := (xt_tree (hash_xt (g_hash w))).
Abbreviation nparts w := (npart (hash_xt (g_hash w))).
Definition lrus (w : gss_state) : list (list Z) := (λ p, lru_q (xp_u1 p)) <$> parts w.

Record part_ok (w : gss_state) (t : nat) (p : rbtree_x_part authgss_x_part) : Prop := {
  po_holds : part_holds (gss_cmpf (g_data w) (0, 0)) 255 (hk_of (g_data w)) (g_nodes w) p
               (member (g_data w) (nparts w) t);
  po_nodup : NoDup (lru_q (xp_u1 p));
  po_lru a : a ∈ lru_q (xp_u1 p) ↔ member (g_data w) (nparts w) t a;
  po_size : axp_size (xp_u1 p) = u32 (Zlen (lru_q (xp_u1 p)));
}.

(** A context; [sets] are those on their way into the cache. *)
Record gd_ok (w : gss_state) (sets : list Z) (a : Z) (g : svc_rpc_gss_data) : Prop := {
  go_addr : 0 < a;
  go_node : gd_queued g = false → ∃ n, g_nodes w !! a = Some n ∧ n_gen n = 0;
  go_key : gd_queued g = true ∨ a ∈ sets → ∃ key, gd_ctx g = Some key ∧ gd_hk g = hash_of key;
  go_once : a ∈ sets → gd_queued g = false;
  go_seq : seq_ok (gd_seq g);
}.

Record core (w : gss_state) (sets : list Z) : Prop := {
  co_gd a g : g_data w !! a = Some g → gd_ok w sets a g;
  co_keys a b ga gb k : g_data w !! a = Some ga → g_data w !! b = Some gb →
    gd_ctx ga = Some k → gd_ctx gb = Some k → a = b;
  co_slots : cachesz (hash_xt (g_hash w)) = 255;
  co_npart : nparts w = Zlen (parts w);
  co_init : if initialized (g_hash w) then 0 < nparts w ∧ xt_flags (hash_xt (g_hash w)) = 3
            else parts w = [] ∧ sets = [] ∧ ∀ a g, g_data w !! a = Some g → gd_queued g = false;
  co_part t p : parts w !! t = Some p → part_ok w t p;
  co_size : hash_size (g_hash w) = u32 (Zlen (concat (lrus w)));
}.

(** ** Keys and comparisons *)

#[export] Instance gss_comparison data gk : Comparison (gss_cmpf data gk).
Proof. apply svc_rpc_gss_comparison. Qed.

Lemma cmpf_equal m c a b : svc_rpc_gss_cmpf m c a b = 0 ↔ m a = m b ∧ c a = c b.
Proof.
  unfold svc_rpc_gss_cmpf. repeat match goal with |- context [?x <? ?y] => destruct (Z.ltb_spec x y) end; lia.
Qed.

Lemma gss_cmpf_equal data gk a b : gss_cmpf data gk a b = 0 ↔ ctx_at data gk a = ctx_at data gk b.
Proof.
  unfold gss_cmpf. rewrite cmpf_equal. destruct (ctx_at data gk a), (ctx_at data gk b); cbn. split; [intros [-> ->]|intros [= -> ->]]; done.
Qed.

Lemma gss_cmpf_ext data data' gk gk' a b :
  ctx_at data' gk' a = ctx_at data gk a → ctx_at data' gk' b = ctx_at data gk b →
  gss_cmpf data' gk' a b = gss_cmpf data gk a b.
Proof. intros Ha Hb. unfold gss_cmpf, svc_rpc_gss_cmpf. by rewrite Ha, Hb. Qed.

Lemma ctx_at_data data gk a g k : data !! a = Some g → gd_ctx g = Some k → 0 < a → ctx_at data gk a = k.
Proof. intros Ha Hk Hp. unfold ctx_at, gk_addr. destruct (Z.eqb_spec a (-1)); [lia|]. by rewrite Ha; cbn; rewrite Hk. Qed.

Lemma ctx_at_ext data data' gk gk' a :
  0 < a → gd_ctx <$> data' !! a = gd_ctx <$> data !! a → ctx_at data' gk' a = ctx_at data gk a.
Proof.
  intros Hp He. unfold ctx_at, gk_addr. destruct (Z.eqb_spec a (-1)); [lia|].
  destruct (data !! a), (data' !! a); cbn in *; simplify_eq; [by f_equal|done].
Qed.

(** ** Changes that do not concern the cache *)

(** What the cache depends on in a context. *)
Definition view (g : svc_rpc_gss_data) := (gd_ctx g, gd_hk g, gd_queued g).

Lemma part_ok_frame w w' t p :
  part_ok w t p → nparts w' = nparts w →
  (∀ a, member (g_data w') (nparts w) t a ↔ member (g_data w) (nparts w) t a) →
  (∀ a, member (g_data w) (nparts w) t a →
     0 < a ∧ view <$> g_data w' !! a = view <$> g_data w !! a ∧ g_nodes w' !! a = g_nodes w !! a) →
  part_ok w' t p.
Proof.
  intros [Hh Hn Hl Hs] Hnp Hm Hv. constructor; rewrite ?Hnp; [|done| |done].
  - eapply part_holds_ext; [exact Hh|exact Hm|done|done| |].
    + intros a Ha. destruct (Hv a Ha) as (_ & E & En). split; [done|]. unfold hk_of.
      destruct (g_data w !! a), (g_data w' !! a); unfold view in E; cbn in *; simplify_eq; done.
    + intros a b Ha Hb. destruct (Hv a Ha) as (Pa & Ea & _), (Hv b Hb) as (Pb & Eb & _).
      apply gss_cmpf_ext; (apply ctx_at_ext; [done|]);
        [destruct (g_data w !! a), (g_data w' !! a)|destruct (g_data w !! b), (g_data w' !! b)];
        unfold view in *; cbn in *; simplify_eq; done || (by f_equal).
  - intros a. by rewrite Hl.
Qed.

Lemma member_view data data' np t a :
  view <$> data' !! a = view <$> data !! a → member data' np t a ↔ member data np t a.
Proof.
  intros Hv. unfold member, view in *.
  destruct (data !! a) as [g|], (data' !! a) as [g'|]; cbn in *; simplify_eq; [|naive_solver].
  split; intros (x & [= <-] & ? & ?); eexists; (split; [done|]); split; congruence.
Qed.

(** Counters, and what else a context holds, may change freely. *)
Lemma core_view w w' sets :
  core w sets → g_hash w' = g_hash w → g_nodes w' = g_nodes w →
  (∀ a, view <$> g_data w' !! a = view <$> g_data w !! a) →
  (∀ a g g', g_data w !! a = Some g → g_data w' !! a = Some g' → seq_ok (gd_seq g) → seq_ok (gd_seq g')) → core w' sets.
Proof.
  intros [Hg Hk Hsl Hnp Hi Hp Hs] Hh Hn Hv Hsq.
  assert (Hback : ∀ a g', g_data w' !! a = Some g' → ∃ g, g_data w !! a = Some g ∧ view g' = view g).
  { intros a g' Ha. specialize (Hv a). rewrite Ha in Hv. destruct (g_data w !! a) as [g|]; cbn in Hv; [|done].
    exists g. split; [done|]. by apply (inj Some) in Hv. }
  constructor; rewrite ?Hh; [| |done|done| | |].
  - intros a g' Ha'. destruct (Hback a g' Ha') as (g & Ha & E). destruct (Hg a g Ha) as [H1 H2 H3 H4 H5]. unfold view in E. injection E as E1 E2 E3.
    constructor; rewrite ?E1, ?E2, ?E3, ?Hn; [done..|by eapply Hsq].
  - intros a b ga gb k (ga' & Ha & Ea)%Hback (gb' & Hb & Eb)%Hback Ca Cb.
    injection Ea as Ea _ _. injection Eb as Eb _ _. apply (Hk a b ga' gb' k); congruence.
  - destruct (initialized (g_hash w)); [done|]. destruct Hi as (H1 & H2 & H3). split; [done|]. split; [done|].
    intros a g' (g & Ha & E)%Hback. unfold view in E. injection E as _ _ ->. by eapply H3.
  - intros t p Ht. eapply part_ok_frame; [by apply Hp|by rewrite Hh| |].
    + intros a. by apply member_view.
    + intros a (g & Ha & _). split; [by eapply go_addr, Hg|]. by rewrite Hn.
  - rewrite Hs. unfold lrus. by rewrite Hh.
Qed.

Lemma core_upd w sets a g g' :
  core w sets → g_data w !! a = Some g → view g' = view g → (seq_ok (gd_seq g) → seq_ok (gd_seq g')) →
  core (set_data (<[a := g']> (g_data w)) w) sets.
Proof.
  intros Hc Ha Hv Hsq. eapply core_view; [exact Hc|done|done| |]; intros b; cbn; destruct (decide (b = a)) as [->|Hb].
  - rewrite lookup_insert_eq, Ha. cbn. by rewrite Hv.
  - by rewrite lookup_insert_ne.
  - rewrite lookup_insert_eq. intros g0 g1 ? [= <-]. by simplify_eq.
  - rewrite lookup_insert_ne by done. intros; by simplify_eq.
Qed.

(** A context outside the cache may be added, changed or dropped, with its node. *)
Lemma core_outside w w' sets sets' a :
  core w sets → g_hash w' = g_hash w →
  (∀ g, g_data w !! a = Some g → gd_queued g = false) →
  (∀ b, b ≠ a → g_data w' !! b = g_data w !! b ∧ g_nodes w' !! b = g_nodes w !! b ∧ (b ∈ sets' ↔ b ∈ sets)) →
  (initialized (g_hash w) = false → sets' = []) →
  (∀ g, g_data w' !! a = Some g → gd_queued g = false ∧ gd_ok w' sets' a g ∧
     ∀ b gb k, b ≠ a → g_data w !! b = Some gb → gd_ctx gb = Some k → gd_ctx g ≠ Some k) →
  core w' sets'.
Proof.
  intros [Hg Hk Hsl Hnp Hi Hp Hs] Hh Hq Ho Hsets Ha.
  assert (Hm : ∀ t b, member (g_data w') (nparts w) t b ↔ member (g_data w) (nparts w) t b).
  { intros t b. destruct (decide (b = a)) as [->|Hb]; [|by apply member_view; f_equal; apply Ho].
    split; intros (g & Hg' & Hq' & _); exfalso; [destruct (Ha g Hg') as [? _]|specialize (Hq g Hg')]; congruence. }
  constructor; rewrite ?Hh; [| |done|done| | |].
  - intros b g Hb. destruct (decide (b = a)) as [->|Hne]; [by apply Ha|].
    destruct (Ho b Hne) as (E1 & E2 & E3). rewrite E1 in Hb. destruct (Hg b g Hb) as [H1 H2 H3 H4 H5].
    constructor; [done|by rewrite E2|by rewrite E3|by rewrite E3|done].
  - intros b c gb gc k Hb Hc Cb Cc. destruct (decide (b = a)) as [->|Hba], (decide (c = a)) as [->|Hca]; [done|..].
    + destruct (Ha _ Hb) as (_ & _ & H). rewrite (proj1 (Ho c Hca)) in Hc. exfalso. by apply (H c gc k).
    + destruct (Ha _ Hc) as (_ & _ & H). rewrite (proj1 (Ho b Hba)) in Hb. exfalso. by apply (H b gb k).
    + rewrite (proj1 (Ho b Hba)) in Hb. rewrite (proj1 (Ho c Hca)) in Hc. by eapply Hk.
  - destruct (initialized (g_hash w)) eqn:Ei; [done|]. destruct Hi as (H1 & H2 & H3). split; [done|].
    split; [by apply Hsets|]. intros b g Hb.
    destruct (decide (b = a)) as [->|Hne]; [exact (proj1 (Ha g Hb))|]. rewrite (proj1 (Ho b Hne)) in Hb. by eapply H3.
  - intros t p Ht. eapply part_ok_frame; [by apply Hp|by rewrite Hh|by apply Hm|].
    intros b Hb. assert (Hne : b ≠ a).
    { intros ->. destruct Hb as (g & Hb & Hq' & _). rewrite (Hq g Hb) in Hq'. done. }
    destruct (Ho b Hne) as (E1 & E2 & _). rewrite E1, E2. destruct Hb as (g & Hb & _). split; [by eapply go_addr, Hg|done].
  - rewrite Hs. unfold lrus. by rewrite Hh.
Qed.

(** ** Changes of one partition *)

Lemma concat_insert_length (L : list (list Z)) t l l' :
  L !! t = Some l → Zlen (concat (<[t := l']> L)) = Zlen (concat L) - Zlen l + Zlen l'.
Proof.
  revert t. induction L as [|x L IH]; intros [|t] Ht; simplify_eq/=; rewrite !Zlen_app; [lia|].
  rewrite (IH t Ht). lia.
Qed.

Lemma lrus_lookup w t p : parts w !! t = Some p → lrus w !! t = Some (lru_q (xp_u1 p)).
Proof. intros Ht. unfold lrus. by rewrite list_lookup_fmap, Ht. Qed.

(** [C] are the contexts a section touches, all of partition [t]. *)
Lemma core_part w w' sets sets' t p p' (C : Z → Prop) :
  core w sets → parts w !! t = Some p → initialized (g_hash w) = true →
  hash_xt (g_hash w') = set_part t p' (hash_xt (g_hash w)) → initialized (g_hash w') = true →
  hash_size (g_hash w') = u32 (hash_size (g_hash w) - Zlen (lru_q (xp_u1 p)) + Zlen (lru_q (xp_u1 p'))) →
  part_ok w' t p' →
  (∀ b, C b ∨ (g_data w' !! b = g_data w !! b ∧ g_nodes w' !! b = g_nodes w !! b ∧ (b ∈ sets' ↔ b ∈ sets))) →
  (∀ b g, C b → g_data w !! b = Some g ∨ g_data w' !! b = Some g → gd_queued g = true → idx (nparts w) (gd_hk g) = t) →
  (∀ b g, C b → g_data w' !! b = Some g → gd_ok w' sets' b g) →
  (∀ b, gd_ctx <$> g_data w' !! b = gd_ctx <$> g_data w !! b) → core w' sets'.
Proof.
  intros [Hg Hk Hsl Hnp Hi Hp Hs] Ht Hin Hxt Hin' Hsz Hok Ho HC Hgd Hctx. rewrite Hin in Hi.
  assert (Hback : ∀ b g', g_data w' !! b = Some g' → ∃ g, g_data w !! b = Some g ∧ gd_ctx g' = gd_ctx g).
  { intros b g' Hb. specialize (Hctx b). rewrite Hb in Hctx. destruct (g_data w !! b) as [g|]; simplify_eq/=; eauto. }
  constructor; rewrite ?Hxt, ?Hin'; cbn [set_part npart cachesz xt_flags xt_tree]; [| |done| |done| |].
  - intros b g' Hb. destruct (Ho b) as [HCb|(E1 & E2 & E3)]; [by apply Hgd|]. rewrite E1 in Hb.
    destruct (Hg b g' Hb) as [H1 H2 H3 H4 H5]. constructor; [done|by rewrite E2|by rewrite E3|by rewrite E3|done].
  - intros b c gb gc k (gb' & Hb & Eb)%Hback (gc' & Hc & Ec)%Hback Cb Cc. apply (Hk b c gb' gc' k); congruence.
  - rewrite length_insert. done.
  - intros t' q Hq. destruct (decide (t' = t)) as [->|Htt].
    { pose proof (lookup_lt_Some _ _ _ Hq) as Hlt. rewrite length_insert in Hlt.
      rewrite list_lookup_insert_eq in Hq by done. by simplify_eq. }
    rewrite list_lookup_insert_ne in Hq by done.
    assert (Hm : ∀ b g, (g_data w !! b = Some g ∨ g_data w' !! b = Some g) → gd_queued g = true →
      idx (nparts w) (gd_hk g) = t' → g_data w' !! b = g_data w !! b ∧ g_nodes w' !! b = g_nodes w !! b).
    { intros b g Hb Hqd Hix. destruct (Ho b) as [HCb|(E1 & E2 & _)]; [|done].
      rewrite (HC b g HCb Hb Hqd) in Hix. done. }
    eapply part_ok_frame; [by apply Hp|by rewrite Hxt| |].
    + intros b. split; intros (g & Hb & Hqd & Hix); exists g; (split; [|done]).
      * destruct (Hm b g) as [E _]; [by right|done|done|]. by rewrite <- E.
      * destruct (Hm b g) as [E _]; [by left|done|done|]. by rewrite E.
    + intros b (g & Hb & Hqd & Hix). destruct (Hm b g) as [E1 E2]; [by left|done|done|]. rewrite E1.
      split; [by eapply go_addr, Hg|done].
  - unfold lrus. rewrite Hxt. cbn [set_part xt_tree]. rewrite list_fmap_insert.
    erewrite concat_insert_length by (apply lrus_lookup; exact Ht). rewrite Hsz, Hs. unfold wrapu.
    rewrite <- Zplus_mod_idemp_l, <- (Zplus_mod_idemp_l (Zlen (concat (lrus w)) - _)).
    rewrite Zminus_mod_idemp_l. done.
Qed.

Lemma part_some w sets k : core w sets → initialized (g_hash w) = true → ∃ p, parts w !! part_of w k = Some p.
Proof.
  intros Hc Hi. pose proof (co_init _ _ Hc) as H. rewrite Hi in H. apply lookup_lt_is_Some.
  unfold part_of, rbtx_idx_of_scalar. pose proof (co_npart _ _ Hc). pose proof (Z.mod_pos_bound k (nparts w)). lia.
Qed.

Lemma core_reads w sets t p :
  core w sets → initialized (g_hash w) = true → parts w !! t = Some p →
  reads_through 255 (hash_xt (g_hash w)) t p.
Proof.
  intros Hc Hi Ht. pose proof (co_init _ _ Hc) as H. rewrite Hi in H. destruct H. constructor; [done|done|apply Hc].
Qed.

Lemma member_pos w sets t a : core w sets → member (g_data w) (nparts w) t a → 0 < a.
Proof. intros Hc (g & Ha & _). by eapply go_addr, Hc. Qed.

(** The key of a cached context. *)
Lemma member_key w sets t a gk :
  core w sets → member (g_data w) (nparts w) t a →
  ∃ g, g_data w !! a = Some g ∧ gd_ctx g = Some (ctx_at (g_data w) gk a) ∧
       hk_of (g_data w) a = hash_of (ctx_at (g_data w) gk a).
Proof.
  intros Hc (g & Ha & Hq & _). destruct (co_gd _ _ Hc a g Ha) as [Hp _ Hk _].
  destruct Hk as (k & Ek & Eh); [by left|]. exists g. rewrite (ctx_at_data _ gk a g k) by done.
  unfold hk_of. rewrite Ha. done.
Qed.

Lemma holds_cmpf w sets t (p : rbtree_x_part authgss_x_part) gk gk' ns :
  core w sets →
  part_holds (gss_cmpf (g_data w) gk) 255 (hk_of (g_data w)) ns p (member (g_data w) (nparts w) t) →
  part_holds (gss_cmpf (g_data w) gk') 255 (hk_of (g_data w)) ns p (member (g_data w) (nparts w) t).
Proof.
  intros Hc Hh. eapply part_holds_ext; [exact Hh|done..|]. intros a b Ha Hb.
  apply gss_cmpf_ext; (apply ctx_at_ext; [by eapply member_pos|done]).
Qed.

(** A cached context with a key is in the partition of the key's hash. *)
Lemma cached_part w sets a g key :
  core w sets → g_data w !! a = Some g → gd_queued g = true → gd_ctx g = Some key →
  member (g_data w) (nparts w) (part_of w (hash_of key)) a.
Proof.
  intros Hc Ha Hq Hk. exists g. split; [done|]. split; [done|].
  destruct (go_key _ _ _ _ (co_gd _ _ Hc a g Ha)) as (k & Ek & ->); [by left|]. simplify_eq. done.
Qed.

(** The search, without the changes to the context found. *)
Lemma lookup_core w sets key :
  core w sets → initialized (g_hash w) = true →
  let t := part_of w (hash_of key) in
  ∃ p p' r, parts w !! t = Some p ∧
    rbtree_x_cached_lookup (gss_cmpf (g_data w) key) (hash_xt (g_hash w)) (g_nodes w) (Some t) gk_addr (hash_of key) =
      Ret (r, set_part t p' (hash_xt (g_hash w))) ∧
    xp_u1 p' = xp_u1 p ∧
    part_holds (gss_cmpf (g_data w) (0, 0)) 255 (hk_of (g_data w)) (g_nodes w) p' (member (g_data w) (nparts w) t) ∧
    match r with
    | Some a => ∃ g, g_data w !! a = Some g ∧ gd_queued g = true ∧ gd_ctx g = Some key
    | None => ∀ a g, g_data w !! a = Some g → gd_queued g = true → gd_ctx g ≠ Some key
    end.
Proof.
  intros Hc Hi t. destruct (part_some w sets (hash_of key) Hc Hi) as [p Hp]. fold t in Hp.
  pose proof (po_holds _ _ _ (co_part _ _ Hc t p Hp)) as Hh. apply (holds_cmpf w sets t p (0, 0) key _ Hc) in Hh.
  assert (Ek : ctx_at (g_data w) key gk_addr = key) by done.
  destruct (xlookup_ok (gss_cmpf (g_data w) key) 255 (hk_of (g_data w)) ltac:(lia) _ t p (g_nodes w) _ gk_addr (hash_of key)
              (core_reads _ _ _ _ Hc Hi Hp) Hh) as (r & p' & E & Hh' & Hu & Hr).
  { intros v Hv Hcv. apply gss_cmpf_equal in Hcv. destruct (member_key w sets t v key Hc Hv) as (_ & _ & _ & ->). congruence. }
  exists p, p', r. split; [done|]. split; [exact E|]. split; [done|]. split; [by eapply holds_cmpf|].
  destruct r as [v|].
  - destruct Hr as [Hv Hcv]. apply gss_cmpf_equal in Hcv. destruct (member_key w sets t v key Hc Hv) as (g & Hg & Hx & _).
    exists g. split; [done|]. split; [|congruence]. destruct Hv as (g' & Hg' & Hq & _). congruence.
  - intros a g Ha Hq Hx. pose proof (cached_part w sets a g key Hc Ha Hq Hx) as Hm. apply (Hr a Hm).
    apply gss_cmpf_equal. rewrite Ek. symmetry. apply (ctx_at_data _ _ a g); [done|done|by eapply member_pos].
Qed.

(** A partition with the same contexts, cached or ordered differently. *)
Lemma core_repart w sets t p p' :
  core w sets → initialized (g_hash w) = true → parts w !! t = Some p →
  part_holds (gss_cmpf (g_data w) (0, 0)) 255 (hk_of (g_data w)) (g_nodes w) p' (member (g_data w) (nparts w) t) →
  lru_q (xp_u1 p') ≡ₚ lru_q (xp_u1 p) → axp_size (xp_u1 p') = axp_size (xp_u1 p) →
  core (set_xt (set_part t p' (hash_xt (g_hash w))) (g_nodes w) w) sets.
Proof.
  intros Hc Hi Hp Hh Hl Hsz. destruct (co_part _ _ Hc t p Hp) as [_ Hn Hm Hz].
  eapply (core_part w _ sets sets t p p' (λ _, False)); [done|done|done|done|done| | |by right|done|done|done].
  - cbn. rewrite Hl. rewrite (co_size _ _ Hc). replace (_ - _ + _) with (u32 (Zlen (concat (lrus w)))) by lia.
    by rewrite wrapu_wrapu.
  - constructor; [exact Hh|by rewrite Hl| |].
    + intros a. rewrite Hl. apply Hm.
    + rewrite Hsz, Hl. done.
Qed.

Lemma lru_requeue (q : list Z) a :
  a ∈ q → NoDup q →
  (let! q := lru_remove q a in lru_insert_tail q a) = Ret (filter (λ b, b ≠ a) q ++ [a]) ∧
  filter (λ b, b ≠ a) q ++ [a] ≡ₚ q.
Proof.
  intros (l1 & l2 & ->)%list_elem_of_split Hn. apply NoDup_app in Hn as (_ & H1 & [H2 _]%NoDup_cons).
  assert (Ef : filter (λ b, b ≠ a) (l1 ++ a :: l2) = l1 ++ l2).
  { rewrite filter_app, filter_cons_False by (intros H; by apply H). f_equal; apply filter_all, Forall_forall; intros y Hy ->; [|done].
    apply (H1 a Hy). by left. }
  rewrite Ef. unfold lru_remove, lru_insert_tail. rewrite decide_True by set_solver. cbn [obind]. rewrite Ef.
  rewrite decide_False by (intros [Hy|Hy]%elem_of_app; [apply (H1 a Hy); by left|done]). split; [done|].
  rewrite <- app_assoc. apply Permutation_app_head. by rewrite Permutation_app_comm.
Qed.

(** What a section leaves alone. *)
Record same_setup (w w' : gss_state) : Prop := {
  ss_init : initialized (g_hash w') = initialized (g_hash w);
  ss_npart : nparts w' = nparts w;
  ss_enabled : g_enabled w' = g_enabled w;
}.

Lemma get_core w sets key :
  core w sets → initialized (g_hash w) = true → g_enabled w = true →
  ∃ r w', get_locked w key = Ret (r, w') ∧ core w' sets ∧ same_setup w w' ∧ g_nodes w' = g_nodes w ∧
    match r with
    | None => g_data w' = g_data w ∧ lrus w' = lrus w ∧
              ∀ a g, g_data w !! a = Some g → gd_queued g = true → gd_ctx g ≠ Some key
    | Some a => ∃ g l, g_data w !! a = Some g ∧ gd_queued g = true ∧ gd_ctx g = Some key ∧
        g_data w' = <[a := set_gd_gen (u32 (gd_gen g + 1)) (set_refcnt (u32 (gd_refcnt g + 1)) g)]> (g_data w) ∧
        lrus w !! part_of w (hash_of key) = Some l ∧ a ∈ l ∧
        lrus w' = <[part_of w (hash_of key) := filter (λ b, b ≠ a) l ++ [a]]> (lrus w)
    end.
Proof.
  intros Hc Hi He. destruct (lookup_core w sets key Hc Hi) as (p & p' & r & Hp & E & Hu & Hh & Hr).
  unfold get_locked. rewrite He. cbn [negb]. rewrite E. cbn [obind].
  set (t := part_of w (hash_of key)) in *.
  set (w1 := set_xt (set_part t p' (hash_xt (g_hash w))) (g_nodes w) w).
  assert (Hc1 : core w1 sets) by (apply (core_repart w sets t p); rewrite ?Hu; done).
  pose proof (lookup_lt_Some _ _ _ Hp) as Hlt.
  assert (Hp1 : parts w1 !! t = Some p') by (cbn; by rewrite list_lookup_insert_eq).
  assert (El : lrus w1 = lrus w).
  { unfold lrus, w1. cbn. rewrite list_fmap_insert, list_insert_id; [done|]. rewrite list_lookup_fmap, Hp, Hu. done. }
  destruct r as [a|]; [|by exists None, w1; rewrite El].
  destruct Hr as (g & Ha & Hq & Hk). pose proof (cached_part w sets a g key Hc Ha Hq Hk) as Hm.
  destruct (co_part _ _ Hc t p Hp) as [_ Hn Hmem _]. apply Hmem in Hm.
  destruct (lru_requeue _ a Hm Hn) as [Eq Hperm].
  unfold upd_axp. rewrite Hp1. cbn [access obind]. rewrite Hu.
  assert (Er : ∀ A (k : list Z → out A), (let! q := lru_remove (lru_q (xp_u1 p)) a in let! q := lru_insert_tail q a in k q) =
    k (filter (λ b, b ≠ a) (lru_q (xp_u1 p)) ++ [a])).
  { intros A k. destruct (lru_remove _ a); cbn [obind] in *; try done. by rewrite Eq. }
  rewrite Er. cbn [obind]. set (axp := mk_axp _ _ _).
  assert (Hc2 : core (set_xt (set_part t (set_u1 axp p') (hash_xt (g_hash w1))) (g_nodes w1) w1) sets).
  { apply (core_repart w1 sets t p'); [done|done|done| |by rewrite Hu|by rewrite Hu].
    eapply part_holds_ext; [exact Hh|done..]. }
  unfold upd_gd. cbn [g_data set_xt w1]. rewrite Ha. cbn [access obind].
  eexists (Some a), _. split; [done|]. split; [by refine (core_upd _ sets a g _ Hc2 Ha _ _)|].
  split; [done|]. split; [done|]. exists g, (lru_q (xp_u1 p)). do 4 (split; [done|]).
  split; [by apply lrus_lookup|]. split; [done|]. unfold lrus. cbn. rewrite list_insert_insert_eq, list_fmap_insert. done.
Qed.

(** ** A context enters or leaves its partition *)

#[export] Instance member_dec data np t a : Decision (member data np t a).
Proof.
  refine (match data !! a as o return data !! a = o → _ with
          | Some g => λ E, cast_if (decide (gd_queued g = true ∧ idx np (gd_hk g) = t))
          | None => λ E, right _ end eq_refl).
  - destruct a0. by exists g.
  - intros (g' & E' & H1 & H2). simplify_eq. by apply n.
  - intros (g' & E' & _). congruence.
Defined.

Lemma member_queued data np t a g q b :
  data !! a = Some g → idx np (gd_hk g) = t →
  member (<[a := set_queued q g]> data) np t b ↔ (if q then b = a ∨ member data np t b else b ≠ a ∧ member data np t b).
Proof.
  intros Ha Hi. unfold member. destruct (decide (b = a)) as [->|Hb].
  - rewrite lookup_insert_eq. destruct q; [|naive_solver]. split; [by left|]. intros _. by eexists.
  - rewrite lookup_insert_ne by done. destruct q; naive_solver.
Qed.

Lemma core_touch w sets sets' t p p1 ns' a g q axp hs :
  core w sets → initialized (g_hash w) = true → parts w !! t = Some p → g_data w !! a = Some g →
  idx (nparts w) (gd_hk g) = t → (∃ key, gd_ctx g = Some key ∧ gd_hk g = hash_of key) →
  let data' := <[a := set_queued q g]> (g_data w) in
  part_holds (gss_cmpf (g_data w) (0, 0)) 255 (hk_of (g_data w)) ns' p1 (member data' (nparts w) t) →
  (∀ b, b ≠ a → ¬ member (g_data w) (nparts w) t b → ns' !! b = g_nodes w !! b) →
  (q = false → ∃ n, ns' !! a = Some n ∧ n_gen n = 0) →
  a ∉ sets' → (∀ b, b ≠ a → b ∈ sets' ↔ b ∈ sets) →
  NoDup (lru_q axp) → (∀ b, b ∈ lru_q axp ↔ member data' (nparts w) t b) → axp_size axp = u32 (Zlen (lru_q axp)) →
  hs = u32 (hash_size (g_hash w) - Zlen (lru_q (xp_u1 p)) + Zlen (lru_q axp)) →
  core (set_hash_size hs (set_data data' (set_xt (set_part t (set_u1 axp p1) (hash_xt (g_hash w))) ns' w))) sets'.
Proof.
  intros Hc Hi Hp Ha Hix Hkey data' Hh Hns Hn Hnin Hsets Hnd Hlru Hsz Hhs.
  pose proof (go_addr _ _ _ _ (co_gd _ _ Hc a g Ha)) as Hpos.
  assert (Hctx : ∀ b, gd_ctx <$> data' !! b = gd_ctx <$> g_data w !! b).
  { intros b. unfold data'. destruct (decide (b = a)) as [->|Hb]; [by rewrite lookup_insert_eq, Ha|by rewrite lookup_insert_ne]. }
  assert (Hhk : ∀ b, hk_of data' b = hk_of (g_data w) b).
  { intros b. unfold hk_of, data'. destruct (decide (b = a)) as [->|Hb]; [by rewrite lookup_insert_eq, Ha|by rewrite lookup_insert_ne]. }
  eapply (core_part w _ sets sets' t p (set_u1 axp p1) (λ b, b = a ∨ member (g_data w) (nparts w) t b));
    [done|done|done|done|done|exact Hhs| | | | |exact Hctx].
  - constructor; [|done|exact Hlru|done]. cbn. eapply part_holds_ext; [exact Hh|done|done|done|by split|].
    intros b c Hb Hcc. assert (Hp' : ∀ y, member data' (nparts w) t y → 0 < y).
    { intros y Hy. unfold data' in Hy. rewrite member_queued in Hy by done. destruct q; [destruct Hy as [->|Hy]|destruct Hy as [_ Hy]];
        [done|by eapply member_pos..]. }
    apply gss_cmpf_ext; (apply ctx_at_ext; [by apply Hp'|done]).
  - intros b. destruct (decide (b = a)) as [->|Hb]; [by left; left|].
    destruct (decide (member (g_data w) (nparts w) t b)) as [|Hm]; [by left; right|right]. cbn. unfold data'.
    rewrite lookup_insert_ne by done. split; [done|]. split; [by apply Hns|by apply Hsets].
  - intros b g0 HC Hb Hq0. assert (Hd : b = a ∨ g_data w !! b = Some g0).
    { destruct (decide (b = a)); [by left|right]. destruct Hb as [Hb|Hb]; [done|]. cbn in Hb. unfold data' in Hb.
      by rewrite lookup_insert_ne in Hb. }
    destruct (decide (b = a)) as [->|Hba].
    + destruct Hb as [Hb|Hb]; [by simplify_eq|]. cbn in Hb. unfold data' in Hb. rewrite lookup_insert_eq in Hb. by simplify_eq.
    + destruct HC as [?|(g1 & Hb1 & _ & <-)]; [done|]. destruct Hd as [?|Hd]; [done|]. by simplify_eq.
  - intros b g0 HC Hb. cbn in Hb. unfold data' in Hb. destruct (decide (b = a)) as [->|Hba].
    + rewrite lookup_insert_eq in Hb. simplify_eq. constructor; cbn; [done|done|done|done|by apply (co_gd _ _ Hc a g Ha)].
    + rewrite lookup_insert_ne in Hb by done. destruct HC as [?|(g1 & Hb1 & Hq1 & _)]; [done|]. assert (g1 = g0) as -> by congruence.
      destruct (co_gd _ _ Hc b g0 Hb) as [H1 H2 H3 H4 H5]. constructor; cbn; [done|congruence|by rewrite Hsets|by rewrite Hsets|done].
Qed.

Lemma set_part_twice {U} t (p p' : rbtree_x_part U) xt : set_part t p' (set_part t p xt) = set_part t p' xt.
Proof. unfold set_part. cbn. by rewrite list_insert_insert_eq. Qed.

Lemma insert_core w sets sets' a g :
  core w sets → initialized (g_hash w) = true → g_enabled w = true → g_data w !! a = Some g →
  sets ≡ₚ a :: sets' → a ∉ sets' →
  ∃ w' l, set_locked w a = Ret (true, w') ∧ core w' sets' ∧ same_setup w w' ∧
    g_data w' = <[a := set_queued true g]> (g_data w) ∧
    lrus w !! part_of w (gd_hk g) = Some l ∧ lrus w' = <[part_of w (gd_hk g) := l ++ [a]]> (lrus w).
Proof.
  intros Hc Hi He Ha Hsets Hnin. set (t := part_of w (gd_hk g)).
  destruct (part_some w sets (gd_hk g) Hc Hi) as [p Hp]. fold t in Hp. pose proof (lookup_lt_Some _ _ _ Hp) as Hlt.
  destruct (co_gd _ _ Hc a g Ha) as [Hpos Hnode Hkey Honce].
  assert (Has : a ∈ sets) by (rewrite Hsets; by left). specialize (Honce Has) as Hq.
  destruct (Hnode Hq) as (n & Hn & _). destruct (Hkey (or_intror Has)) as (key & Ek & Eh).
  assert (Hix : idx (nparts w) (gd_hk g) = t) by done.
  assert (Hnm : ¬ member (g_data w) (nparts w) t a) by (intros (g' & Hg' & Hq' & _); congruence).
  destruct (co_part _ _ Hc t p Hp) as [Hh Hnd Hl Hz].
  destruct (xinsert_ok (gss_cmpf (g_data w) (0, 0)) 255 (hk_of (g_data w)) ltac:(lia) _ t p (g_nodes w) _ a n
              (core_reads _ _ _ _ Hc Hi Hp) Hh Hn Hnm) as (p' & ns' & E & Hh' & Hu & Hns).
  { intros v Hv Hcv. apply gss_cmpf_equal in Hcv. destruct (member_key w sets t v (0, 0) Hc Hv) as (gv & Hgv & Hx & _).
    rewrite <- Hcv, (ctx_at_data _ _ a g key) in Hx by done.
    apply Hnm. by rewrite (co_keys _ _ Hc a v g gv key Ha Hgv Ek Hx). }
  assert (Ehk : hk_of (g_data w) a = gd_hk g) by (unfold hk_of; by rewrite Ha). rewrite Ehk in E.
  unfold set_locked. rewrite Ha. cbn [access obind]. rewrite He. cbn [negb]. fold t. rewrite E. cbn [obind].
  unfold upd_axp. cbn [g_hash set_xt hash_xt g_nodes]. cbn [set_part xt_tree]. rewrite list_lookup_insert_eq by done.
  cbn [access obind]. rewrite Hu. unfold lru_insert_tail. rewrite decide_False by (by rewrite Hl). cbn [obind].
  change (mk_xt _ _ _ (<[t:=p']> _)) with (set_part t p' (hash_xt (g_hash w))). rewrite set_part_twice.
  unfold upd_gd. cbn [g_data set_xt]. rewrite Ha. cbn [access obind].
  eexists _, (lru_q (xp_u1 p)). split; [done|]. split; [|split; [done|split; [done|split; [by apply lrus_lookup|]]]].
  - refine (core_touch w sets sets' t p p' ns' a g true (mk_axp _ _ (lru_q (xp_u1 p) ++ [a])) _
              Hc Hi Hp Ha Hix (ex_intro _ key (conj Ek Eh)) _ _ _ Hnin _ _ _ _ _).
    + eapply part_holds_iff; [|exact Hh']. intros b. by rewrite member_queued.
    + done.
    + done.
    + intros b Hb. rewrite Hsets. set_solver.
    + cbn. apply NoDup_app. split; [done|]. split; [|by apply NoDup_singleton]. intros b Hb ->%list_elem_of_singleton. by apply Hnm, Hl.
    + intros b. cbn. rewrite member_queued, elem_of_app, Hl, list_elem_of_singleton by done. tauto.
    + cbn. rewrite Hz, Zlen_app. unfold wrapu. rewrite Zplus_mod_idemp_l. done.
    + cbn. f_equal. rewrite Zlen_app. change (Zlen [a]) with 1. lia.
  - unfold lrus. cbn. by rewrite list_fmap_insert.
Qed.

Lemma remove_core w sets a g :
  core w sets → initialized (g_hash w) = true → g_data w !! a = Some g → gd_queued g = true →
  ∃ w' l, cache_remove w (part_of w (gd_hk g)) a = Ret w' ∧ core w' sets ∧ same_setup w w' ∧ max_part (g_hash w') = max_part (g_hash w) ∧
    g_data w' = <[a := set_queued false g]> (g_data w) ∧
    lrus w !! part_of w (gd_hk g) = Some l ∧ a ∈ l ∧ lrus w' = <[part_of w (gd_hk g) := filter (λ b, b ≠ a) l]> (lrus w).
Proof.
  intros Hc Hi Ha Hq. set (t := part_of w (gd_hk g)).
  destruct (part_some w sets (gd_hk g) Hc Hi) as [p Hp]. fold t in Hp. pose proof (lookup_lt_Some _ _ _ Hp) as Hlt.
  destruct (co_gd _ _ Hc a g Ha) as [Hpos _ Hkey Honce].
  assert (Has : a ∉ sets) by (intros Has; specialize (Honce Has); congruence). specialize (Hkey (or_introl Hq)).
  assert (Hix : idx (nparts w) (gd_hk g) = t) by done.
  assert (Hm : member (g_data w) (nparts w) t a) by (by exists g).
  destruct (co_part _ _ Hc t p Hp) as [Hh Hnd Hl Hz].
  destruct (xremove_ok (gss_cmpf (g_data w) (0, 0)) 255 (hk_of (g_data w)) ltac:(lia) _ t p (g_nodes w) _ a
              (core_reads _ _ _ _ Hc Hi Hp) Hh Hm) as (p' & ns' & E & Hh' & Hu & Hn & Hns).
  assert (Ehk : hk_of (g_data w) a = gd_hk g) by (unfold hk_of; by rewrite Ha). rewrite Ehk in E.
  apply Hl in Hm as Hal. destruct (lru_requeue _ a Hal Hnd) as [_ Hperm].
  unfold cache_remove. rewrite Ha. cbn [access obind]. fold t. rewrite E. cbn [obind].
  unfold upd_axp. cbn [g_hash set_xt hash_xt g_nodes]. cbn [set_part xt_tree]. rewrite list_lookup_insert_eq by done.
  cbn [access obind]. rewrite Hu. unfold lru_remove. rewrite decide_True by done. cbn [obind].
  change (mk_xt _ _ _ (<[t:=p']> _)) with (set_part t p' (hash_xt (g_hash w))). rewrite set_part_twice.
  unfold upd_gd. cbn [g_data set_xt]. rewrite Ha. cbn [access obind].
  assert (Hlen : Zlen (lru_q (xp_u1 p)) = Zlen (filter (λ b, b ≠ a) (lru_q (xp_u1 p))) + 1).
  { rewrite <- Hperm at 1. by rewrite Zlen_app. }
  eexists _, (lru_q (xp_u1 p)). split; [done|].
  split; [|split; [done|split; [done|split; [done|split; [by apply lrus_lookup|split; [done|]]]]]].
  - refine (core_touch w sets sets t p p' ns' a g false (mk_axp _ _ (filter (λ b, b ≠ a) (lru_q (xp_u1 p)))) _
              Hc Hi Hp Ha Hix Hkey _ _ _ Has _ _ _ _ _).
    + eapply part_holds_iff; [|exact Hh']. intros b. by rewrite member_queued.
    + intros b _ Hb. by apply Hns.
    + done.
    + done.
    + by apply NoDup_filter.
    + intros b. cbn. rewrite member_queued, list_elem_of_filter, Hl by done. done.
    + cbn. rewrite Hz, Hlen. unfold wrapu. rewrite Zminus_mod_idemp_l. f_equal. lia.
    + cbn. f_equal. lia.
  - unfold lrus. cbn. by rewrite list_fmap_insert.
Qed.

(** ** References *)

Definition occ (a : Z) (l : list Z) : Z := Zlen (filter (λ b, b = a) l).
Definition ones (b : bool) : Z := if b then 1 else 0.

#[export] Instance occ_perm a : Proper ((≡ₚ) ==> (=)) (occ a).
Proof. intros l l' Hl. unfold occ. by rewrite Hl. Qed.

Lemma occ_cons a b l : occ a (b :: l) = ones (bool_decide (b = a)) + occ a l.
Proof. unfold occ. rewrite filter_cons. case_bool_decide; [rewrite decide_True by done|rewrite decide_False by done]; cbn [ones length]; lia. Qed.

Lemma occ_pos a l : 0 < occ a l ↔ a ∈ l.
Proof.
  unfold occ. split.
  - intros Hf. destruct (filter (λ b, b = a) l) as [|x f] eqn:E; [done|].
    assert (Hx : x ∈ filter (λ b, b = a) l) by (rewrite E; by left). apply list_elem_of_filter in Hx as [-> Hx]. done.
  - intros Ha. assert (Hx : a ∈ filter (λ b, b = a) l) by (by apply list_elem_of_filter).
    destruct (filter (λ b, b = a) l); [by apply not_elem_of_nil in Hx|cbn; lia].
Qed.

Lemma occ_bounds a l : 0 ≤ occ a l ≤ Zlen l.
Proof. unfold occ. pose proof (length_filter (λ b, b = a) l). lia. Qed.

(** The count of a context is one for the cache, one for a call on its way to put it
    there, and one for each reference a request holds. *)
Definition counted (w : gss_state) (sets refs : list Z) : Prop :=
  ∀ a, match g_data w !! a with
       | Some g => gd_refcnt g = ones (gd_queued g) + ones (bool_decide (a ∈ sets)) + occ a refs ∧
                   0 < gd_refcnt g < 2 ^ 32
       | None => (a ∉ sets) ∧ a ∉ refs
       end.

Lemma counted_ref w sets refs a : counted w sets refs → a ∈ refs → ∃ g, g_data w !! a = Some g.
Proof. intros Hw Ha. specialize (Hw a). destruct (g_data w !! a); [eauto|naive_solver]. Qed.

Lemma counted_set w sets refs a : counted w sets refs → a ∈ sets → ∃ g, g_data w !! a = Some g.
Proof. intros Hw Ha. specialize (Hw a). destruct (g_data w !! a); [eauto|naive_solver]. Qed.

Lemma counted_ext w w' sets refs refs' :
  counted w sets refs → refs' ≡ₚ refs → g_data w' = g_data w → counted w' sets refs'.
Proof.
  intros Hw Hr Hd a. rewrite Hd. specialize (Hw a). destruct (g_data w !! a); [by rewrite Hr|].
  split; [apply Hw|]. rewrite Hr. apply Hw.
Qed.

(** One context changed, with the references to it. *)
Lemma counted_at w w' sets sets' refs refs' a g' :
  counted w sets refs → g_data w' = <[a := g']> (g_data w) →
  (∀ b, b ≠ a → (b ∈ sets' ↔ b ∈ sets) ∧ occ b refs' = occ b refs) →
  gd_refcnt g' = ones (gd_queued g') + ones (bool_decide (a ∈ sets')) + occ a refs' → 0 < gd_refcnt g' < 2 ^ 32 →
  counted w' sets' refs'.
Proof.
  intros Hw Hd Ho Hr Hb b. rewrite Hd. destruct (decide (b = a)) as [->|Hne]; [by rewrite lookup_insert_eq|].
  rewrite lookup_insert_ne by done. destruct (Ho b Hne) as [Es Er]. specialize (Hw b).
  destruct (g_data w !! b); [rewrite Er; by rewrite (bool_decide_ext _ _ Es)|].
  destruct Hw as [Hw1 Hw2]. split; [by rewrite Es|]. by rewrite <- occ_pos, Er, occ_pos.
Qed.

Lemma occ_other a b l : b ≠ a → occ b (a :: l) = occ b l.
Proof. intros Hb. rewrite occ_cons, bool_decide_false by done. done. Qed.

Lemma occ_same a l : occ a (a :: l) = 1 + occ a l.
Proof. rewrite occ_cons, bool_decide_true by done. done. Qed.

Lemma unref_core w sets refs a R held :
  core w sets → counted w sets refs → refs ≡ₚ a :: R → held ≠ Some a →
  ∃ w', unref_svc_rpc_gss_data w held a = Ret w' ∧ core w' sets ∧ counted w' sets R ∧ g_hash w' = g_hash w ∧
    g_enabled w' = g_enabled w ∧
    ∀ b g', g_data w' !! b = Some g' → ∃ g, g_data w !! b = Some g ∧ view g' = view g.
Proof.
  intros Hc Hw HR Hh. destruct (counted_ref w sets refs a Hw) as [g Ha]; [rewrite HR; by left|].
  pose proof (Hw a) as Hg. rewrite Ha, HR, occ_same in Hg. destruct Hg as [Hr Hb].
  unfold unref_svc_rpc_gss_data. rewrite Ha. cbn [access obind]. rewrite decide_False by done.
  rewrite wrapu_id by (red; lia). pose proof (occ_bounds a R) as Ho. destruct (Z.eqb_spec (gd_refcnt g - 1) 0) as [E0|E0].
  - eexists. split; [done|]. split; [|split; [|split; [done|split; [done|]]]].
    + assert (gd_queued g = false ∧ a ∉ sets) as [Hq Hs].
      { destruct (gd_queued g), (decide (a ∈ sets)); rewrite ?bool_decide_true, ?bool_decide_false in Hr by done; cbn in Hr; lia || done. }
      eapply (core_outside w _ sets sets a Hc); [done| | | |].
      * intros g' Hg'. congruence.
      * intros b Hb'. cbn. by rewrite !lookup_delete_ne, lookup_insert_ne.
      * pose proof (co_init _ _ Hc) as Hi. intros Ei. rewrite Ei in Hi. apply Hi.
      * intros g' Hg'. cbn in Hg'. by rewrite lookup_delete_eq in Hg'.
    + intros b. cbn. destruct (decide (b = a)) as [->|Hb'].
      * rewrite lookup_delete_eq. destruct (gd_queued g); cbn in Hr; case_bool_decide; cbn in Hr; [lia..|].
        split; [done|]. intros Hin%occ_pos. lia.
      * rewrite lookup_delete_ne, lookup_insert_ne by done. specialize (Hw b).
        destruct (g_data w !! b); [by rewrite HR, occ_other in Hw|]. rewrite HR in Hw. set_solver.
    + cbn. intros b g'. destruct (decide (b = a)) as [->|Hb']; [by rewrite lookup_delete_eq|].
      rewrite lookup_delete_ne, lookup_insert_ne by done. eauto.
  - eexists. split; [done|]. split; [by refine (core_upd w sets a g _ Hc Ha _ _)|]. split; [|split; [done|split; [done|]]].
    + eapply (counted_at w _ sets sets refs R a); [done|done| |cbn; lia|cbn; lia].
      intros b Hb'. split; [done|]. by rewrite HR, occ_other.
    + cbn. intros b g'. destruct (decide (b = a)) as [->|Hb']; [|by rewrite lookup_insert_ne by done; eauto].
      rewrite lookup_insert_eq. intros [= <-]. eauto.
Qed.

(** ** Eviction *)

Lemma same_setup_refl w : same_setup w w.
Proof. done. Qed.

Lemma same_setup_trans w1 w2 w3 : same_setup w1 w2 → same_setup w2 w3 → same_setup w1 w3.
Proof. intros [? ? ?] [? ? ?]. constructor; congruence. Qed.

Lemma lru_at_lrus w t : lru_at w t = default [] (lrus w !! t).
Proof. unfold lru_at, lrus. rewrite list_lookup_fmap. by destruct (parts w !! t). Qed.

Lemma lrus_member w sets t l :
  core w sets → lrus w !! t = Some l →
  ∃ p, parts w !! t = Some p ∧ lru_q (xp_u1 p) = l ∧ axp_size (xp_u1 p) = u32 (Zlen l) ∧ NoDup l ∧
    ∀ a, a ∈ l ↔ member (g_data w) (nparts w) t a.
Proof.
  intros Hc Hl. unfold lrus in Hl. rewrite list_lookup_fmap in Hl. destruct (parts w !! t) as [p|] eqn:Hp; simplify_eq/=.
  destruct (co_part _ _ Hc t p Hp). by exists p.
Qed.

(** The reference of the cache passes to whoever took the context out. *)
Lemma counted_remove w w' sets refs a g :
  counted w sets refs → g_data w !! a = Some g → gd_queued g = true →
  g_data w' = <[a := set_queued false g]> (g_data w) → counted w' sets (a :: refs).
Proof.
  intros Hw Ha Hq Hd. pose proof (Hw a) as Hg. rewrite Ha, Hq in Hg. destruct Hg as [Hr Hb]. cbn in Hr.
  eapply counted_at; [exact Hw|exact Hd| |cbn; rewrite occ_same; lia|done].
  intros b Hne. split; [done|]. by apply occ_other.
Qed.

Lemma evict_core w sets refs t l a :
  core w sets → counted w sets refs → initialized (g_hash w) = true → lrus w !! t = Some l → a ∈ l →
  ∃ w1 w2, cache_remove w t a = Ret w1 ∧ unref_svc_rpc_gss_data w1 None a = Ret w2 ∧
    core w2 sets ∧ counted w2 sets refs ∧ same_setup w w2 ∧ max_part (g_hash w2) = max_part (g_hash w) ∧
    lrus w2 = <[t := filter (λ b, b ≠ a) l]> (lrus w).
Proof.
  intros Hc Hw Hi Hl Ha. destruct (lrus_member w sets t l Hc Hl) as (p & Hp & _ & _ & _ & Hm).
  apply Hm in Ha as (g & Ha & Hq & Hix). change (part_of w (gd_hk g) = t) in Hix.
  destruct (remove_core w sets a g Hc Hi Ha Hq) as (w1 & l' & E1 & Hc1 & Hs1 & Hmp & Hd1 & Hl' & _ & Hlr).
  rewrite Hix in E1, Hl', Hlr. simplify_eq.
  pose proof (counted_remove w w1 sets refs a g Hw Ha Hq Hd1) as Hw1.
  destruct (unref_core w1 sets _ a refs None Hc1 Hw1) as (w2 & E2 & Hc2 & Hw2 & Hh & He & _); [done|done|].
  exists w1, w2. split; [done|]. split; [done|]. split; [done|]. split; [done|]. rewrite Hh. split; [|split; [done|]].
  - destruct Hs1. constructor; rewrite ?Hh; congruence.
  - rewrite <- Hlr. unfold lrus. by rewrite Hh.
Qed.

Lemma clear_entries_core l : ∀ w sets refs t,
  core w sets → counted w sets refs → initialized (g_hash w) = true → lrus w !! t = Some l →
  ∃ w', clear_entries w t l = Ret w' ∧ core w' sets ∧ counted w' sets refs ∧ same_setup w w' ∧
    lrus w' = <[t := []]> (lrus w).
Proof.
  induction l as [|a l IH]; intros w sets refs t Hc Hw Hi Hl.
  { exists w. split; [done|]. split; [done|]. split; [done|]. split; [done|]. by rewrite list_insert_id. }
  destruct (lrus_member w sets t _ Hc Hl) as (_ & _ & _ & _ & Hn & _).
  destruct (evict_core w sets refs t _ a Hc Hw Hi Hl) as (w1 & w2 & E1 & E2 & Hc2 & Hw2 & Hs & _ & Hlr); [by left|].
  rewrite (filter_head a l Hn) in Hlr. pose proof (lookup_lt_Some _ _ _ Hl) as Hlt.
  destruct (IH w2 sets refs t Hc2 Hw2) as (w' & E & Hc' & Hw' & Hs' & Hlr').
  { destruct Hs. congruence. }
  { rewrite Hlr. by apply list_lookup_insert_eq. }
  exists w'. cbn [clear_entries]. rewrite E1. cbn [obind]. rewrite E2. cbn [obind]. split; [done|]. split; [done|]. split; [done|].
  split; [by eapply same_setup_trans|]. by rewrite Hlr', Hlr, list_insert_insert_eq.
Qed.

(** Collection takes [n] entries from the front of the queue [l] of partition [t], each
    expired or over the limit, and stops at the limit of the run or at an entry that may
    stay. *)
Record collected (prm : gss_params) (expired : Z → bool) (w w' : gss_state) (t : nat) (l : list Z) (cnt : Z) (n : nat) : Prop := {
  cl_setup : same_setup w w';
  cl_limit : max_part (g_hash w') = max_part (g_hash w);
  cl_lrus : lrus w' = <[t := drop n l]> (lrus w);
  cl_some : (n ≤ length l)%nat;
  cl_count : cnt + Z.of_nat n ≤ Z.max (cnt + 1) (max_gc prm);
  cl_why k a : (k < n)%nat → l !! k = Some a → expired a = true ∨ max_part (g_hash w) < u32 (Zlen l - Z.of_nat k);
  cl_stop a : cnt + Z.of_nat n < max_gc prm → l !! n = Some a →
    expired a = false ∧ u32 (Zlen l - Z.of_nat n) ≤ max_part (g_hash w);
}.

Lemma collected_none prm expired w t l cnt :
  lrus w !! t = Some l →
  (∀ a, head l = Some a → expired a = false ∧ u32 (Zlen l) ≤ max_part (g_hash w)) →
  collected prm expired w w t l cnt 0.
Proof.
  intros Hl Hh. constructor; [done|done|by rewrite list_insert_id|lia|lia|lia|].
  intros a _ Ha. rewrite Z.sub_0_r. apply Hh. by destruct l.
Qed.

Lemma collected_next prm expired w w1 w' t a l cnt n :
  lrus w !! t = Some (a :: l) → same_setup w w1 → max_part (g_hash w1) = max_part (g_hash w) → lrus w1 = <[t := l]> (lrus w) →
  expired a = true ∨ max_part (g_hash w) < u32 (Zlen (a :: l)) →
  (n = 0%nat ∧ w' = w1 ∧ max_gc prm ≤ cnt + 1) ∨ (cnt + 1 < max_gc prm ∧ collected prm expired w1 w' t l (cnt + 1) n) →
  collected prm expired w w' t (a :: l) cnt (S n).
Proof.
  intros Hl Hs Hm Hlr Ha Hn. assert (El : Zlen (a :: l) = Zlen l + 1) by (cbn [length]; lia).
  assert (Hfst : expired a = true ∨ max_part (g_hash w) < u32 (Zlen (a :: l) - Z.of_nat 0)) by (by rewrite Z.sub_0_r).
  destruct Hn as [(-> & -> & Hcnt)|[Hcnt [Hs' Hm' Hlr' Hn Hc Hw Hst]]].
  - constructor; [done|done|done|cbn; lia|lia| |lia]. intros [|k] b Hk Hb; [by simplify_eq/=|lia].
  - rewrite Hm in Hw, Hst. constructor; [by eapply same_setup_trans|congruence|by rewrite Hlr', Hlr, list_insert_insert_eq|cbn; lia|lia| |].
    + intros [|k] b Hk Hb; [by simplify_eq/=|]. rewrite El. replace (_ - _) with (Zlen l - Z.of_nat k) by lia. apply Hw; [lia|done].
    + intros b Hlt Hb. rewrite El. replace (_ - _) with (Zlen l - Z.of_nat n) by lia. apply Hst; [lia|done].
Qed.

Lemma gc_part_core fuel : ∀ prm expired w sets refs t l cnt,
  core w sets → counted w sets refs → initialized (g_hash w) = true → lrus w !! t = Some l → (length l ≤ fuel)%nat →
  ∃ n w', gc_part fuel prm expired w t cnt = Ret (cnt + Z.of_nat n, w') ∧ core w' sets ∧ counted w' sets refs ∧
    collected prm expired w w' t l cnt n.
Proof.
  induction fuel as [|fuel IH]; intros prm expired w sets refs t l cnt Hc Hw Hi Hl Hf;
    destruct (lrus_member w sets t l Hc Hl) as (p & Hp & Eq & Esz & Hn & _); cbn [gc_part]; rewrite Hp; cbn [access obind];
    rewrite Eq, Esz; (destruct l as [|a l];
    [exists 0%nat, w; rewrite Z.add_0_r; split; [done|]; split; [done|]; split; [done|]; by apply collected_none|]); [cbn in Hf; lia|].
  destruct ((max_part (g_hash w) <? u32 (Zlen (a :: l))) || expired a) eqn:Ev.
  2: { apply orb_false_iff in Ev as [Ev1 Ev2]. apply Z.ltb_ge in Ev1. exists 0%nat, w. rewrite Z.add_0_r.
       split; [done|]. split; [done|]. split; [done|]. apply collected_none; [done|]. intros b [= <-]. done. }
  destruct (evict_core w sets refs t _ a Hc Hw Hi Hl) as (w1 & w2 & E1 & E2 & Hc2 & Hw2 & Hs & Hmp & Hlr); [by left|].
  rewrite (filter_head a l Hn) in Hlr. rewrite E1. cbn [obind]. rewrite E2. cbn [obind].
  assert (Hfst : expired a = true ∨ max_part (g_hash w) < u32 (Zlen (a :: l))).
  { apply orb_true_iff in Ev as [Ev%Z.ltb_lt|Ev]; [by right|by left]. }
  destruct (Z.ltb_spec (cnt + 1) (max_gc prm)) as [Hcnt|Hcnt].
  - destruct (IH prm expired w2 sets refs t l (cnt + 1) Hc2 Hw2) as (n & w' & E & Hc' & Hw' & Hcl).
    { destruct Hs. congruence. } { rewrite Hlr. apply list_lookup_insert_eq. by eapply lookup_lt_Some. } { cbn in Hf. lia. }
    exists (S n), w'. rewrite E. split; [do 2 f_equal; lia|]. split; [done|]. split; [done|].
    eapply collected_next; eauto.
  - exists 1%nat, w2. split; [done|]. split; [done|]. split; [done|]. eapply collected_next; eauto.
Qed.

(** ** Initialisation and contexts outside the cache *)

Lemma fresh_part data ns np t :
  (∀ a, ¬ member data np t a) →
  part_holds (gss_cmpf data (0, 0)) 255 (hk_of data) ns
    (mk_part (opr_rbtree_init ∅) (replicate 255 None) (mk_axp 0 0 [])) (member data np t).
Proof.
  intros Hm. constructor; [|done|].
  - exists RbTreeFacts.E. split; [|intros a; split; [by intros ?%not_elem_of_nil|by intros ?%Hm]].
    constructor; [|by exists 0%nat|constructor|constructor|done]. constructor; [done|done|constructor].
  - cbn [xp_cache]. intros o v Ho. apply lookup_replicate in Ho as [? _]. done.
Qed.

Lemma init_core prm w sets :
  params_ok prm → core w sets →
  ∃ w', authgss_hash_init prm w = Ret w' ∧ core w' sets ∧ initialized (g_hash w') = true ∧
    g_data w' = g_data w ∧ g_nodes w' = g_nodes w ∧ g_enabled w' = g_enabled w ∧
    (∀ t, lru_at w' t = lru_at w t) ∧
    (initialized (g_hash w) = true → nparts w' = nparts w ∧ lrus w' = lrus w).
Proof.
  intros Hprm Hc. unfold authgss_hash_init. destruct (initialized (g_hash w)) eqn:Ei.
  - pose proof (co_init _ _ Hc) as Hi. rewrite Ei in Hi. destruct (Z.eqb_spec (nparts w) 0); [lia|].
    eexists. split; [done|]. split; [|done]. destruct Hc as [H1 H2 H3 H4 H5 H6 H7]. rewrite Ei in H5.
    constructor; [|exact H2|exact H3|exact H4|done| |exact H7].
    + intros a g Ha. destruct (H1 a g Ha). by constructor.
    + intros t p Hp. destruct (H6 t p Hp). by constructor.
  - pose proof (co_init _ _ Hc) as Hi. rewrite Ei in Hi. destruct Hi as (Hparts & Hsets & Hq).
    assert (Enp : u32 (ctx_hash_partitions prm) = ctx_hash_partitions prm) by (apply wrapu_id; red; red in Hprm; lia).
    unfold rbtx_init. change (has_flag _ RBT_X_FLAG_ALLOC) with true. cbn [npart xt_flags cachesz xt_tree].
    rewrite Enp, (co_slots _ _ Hc). destruct (Z.eqb_spec (ctx_hash_partitions prm) 0) as [|_]; [red in Hprm; lia|].
    rewrite fmap_replicate. eexists. split; [done|].
    split; [|split; [done|split; [done|split; [done|split; [done|split; [|done]]]]]].
    + destruct Hc as [H1 H2 H3 H4 H5 H6 H7]. constructor; cbn [g_hash set_hash hash_xt npart xt_tree cachesz xt_flags g_data g_nodes initialized].
      * intros a g Ha. destruct (H1 a g Ha). by constructor.
      * exact H2.
      * done.
      * rewrite length_replicate. red in Hprm. lia.
      * red in Hprm. split; [lia|done].
      * intros t p [-> Ht]%lookup_replicate. constructor; cbn.
        -- apply fresh_part. intros a (g & Ha & Hqa & _). by rewrite (Hq a g Ha) in Hqa.
        -- constructor.
        -- intros a. split; [by intros ?%not_elem_of_nil|]. intros (g & Ha & Hqa & _). by rewrite (Hq a g Ha) in Hqa.
        -- done.
      * unfold lrus. cbn. rewrite fmap_replicate. cbn. assert (E : ∀ n, concat (replicate n ([] : list Z)) = []) by (by induction n). by rewrite E.
    + intros t. unfold lru_at. cbn. rewrite Hparts. destruct (replicate _ _ !! t) as [p|] eqn:Ep; [|done].
      apply lookup_replicate in Ep as [-> _]. done.
Qed.

Lemma alloc_core w sets refs a :
  core w sets → counted w sets refs → g_data w !! a = None → 0 < a →
  core (alloc_svc_rpc_gss_data w a) sets ∧ counted (alloc_svc_rpc_gss_data w a) sets (a :: refs).
Proof.
  intros Hc Hw Ha Hpos. pose proof (Hw a) as Hna. rewrite Ha in Hna. destruct Hna as [Hns Hnr]. split.
  - eapply (core_outside w _ sets sets a Hc); [done|congruence| | |].
    + intros b Hb. cbn. by rewrite !lookup_insert_ne.
    + pose proof (co_init _ _ Hc) as Hi. intros Ei. rewrite Ei in Hi. apply Hi.
    + cbn. rewrite lookup_insert_eq. intros g [= <-]. split; [done|]. split; [|done].
      constructor; cbn; [done| |intros [?|?]; done|done|by exists ∅; apply seq_inv_zero]. intros _. rewrite lookup_insert_eq. by eexists.
  - eapply counted_at; [exact Hw|done| | |cbn; lia].
    + intros b Hb. split; [done|]. by apply occ_other.
    + cbn. rewrite bool_decide_false, occ_same by done. pose proof (occ_pos a refs). pose proof (occ_bounds a refs).
      assert (occ a refs = 0) by (destruct (decide (0 < occ a refs)) as [?%occ_pos|]; [done|lia]). cbn. lia.
Qed.

(** The GSS-API gives a context a handle that no other live context has. *)
Lemma accept_core w sets refs a g key :
  core w sets → counted w sets refs → g_data w !! a = Some g → gd_ctx g = None →
  (∀ b gb, g_data w !! b = Some gb → gd_ctx gb ≠ Some key) →
  core (set_data (<[a := set_ctx (Some key) g]> (g_data w)) w) sets ∧
  counted (set_data (<[a := set_ctx (Some key) g]> (g_data w)) w) sets refs.
Proof.
  intros Hc Hw Ha Hx Hfresh. destruct (co_gd _ _ Hc a g Ha) as [H1 H2 H3 H4 H5].
  assert (gd_queued g = false ∧ a ∉ sets) as [Hq Hs].
  { split; [destruct (gd_queued g) eqn:Eq; [|done]|intros Hs].
    - destruct H3 as (k & Hk & _); [by left|congruence].
    - destruct H3 as (k & Hk & _); [by right|congruence]. }
  split.
  - eapply (core_outside w _ sets sets a Hc); [done|congruence| | |].
    + intros b Hb. cbn. by rewrite lookup_insert_ne.
    + pose proof (co_init _ _ Hc) as Hi. intros Ei. rewrite Ei in Hi. apply Hi.
    + cbn. rewrite lookup_insert_eq. intros g' [= <-]. split; [done|]. split; [|intros b gb k Hb Hgb Hk; cbn; naive_solver].
      constructor; cbn; [done|done|intros [?|?]; congruence|done|done].
  - pose proof (Hw a) as Hg. rewrite Ha in Hg. eapply counted_at; [exact Hw|done|done|apply Hg|apply Hg].
Qed.

Lemma set_begin_core prm w sets refs a g key :
  params_ok prm → core w sets → counted w sets refs → few_refs refs → a ∉ sets →
  g_data w !! a = Some g → gd_queued g = false → gd_ctx g = Some key →
  ∃ w', set_begin prm w a = Ret w' ∧ core w' (a :: sets) ∧ counted w' (a :: sets) refs ∧
    initialized (g_hash w') = true ∧ g_enabled w' = g_enabled w ∧ (∀ t, lru_at w' t = lru_at w t) ∧
    (initialized (g_hash w) = true → nparts w' = nparts w) ∧
    g_data w' = <[a := set_refcnt (u32 (gd_refcnt g + 1)) (set_hk (hash_of key) g)]> (g_data w).
Proof.
  intros Hprm Hc Hw Hfew Hs Ha Hq Hk. destruct (init_core prm w sets Hprm Hc) as (w1 & E1 & Hc1 & Hi & Hd & Hn & He & Hl & Hnp).
  unfold set_begin. rewrite E1. cbn [obind]. rewrite Hd, Ha. cbn [access obind]. rewrite Hk. cbn [access obind].
  unfold upd_gd. rewrite Hd, Ha. cbn [access obind]. eexists. split; [done|].
  pose proof (Hw a) as Hg. rewrite Ha, Hq in Hg. destruct Hg as [Hr Hb]. rewrite bool_decide_false in Hr by done. cbn in Hr.
  destruct (co_gd _ _ Hc a g Ha) as [H1 H2 H3 H4 H5].
  split; [|split; [|split; [done|split; [done|split; [exact Hl|split; [intros Hini; by apply Hnp|done]]]]]].
  - eapply (core_outside w1 _ sets (a :: sets) a Hc1); [done|rewrite Hd; congruence| |by rewrite Hi|].
    + intros b Hba. cbn. rewrite Hd, lookup_insert_ne by done. split; [done|]. split; [done|]. set_solver.
    + cbn. rewrite lookup_insert_eq. intros g' [= <-]. split; [done|]. split.
      * constructor; cbn; [done|by rewrite Hn|intros _; by exists key|done|done].
      * rewrite Hd. intros b gb k Hba Hgb Hkb. cbn. intros Hkk. apply Hba. by apply (co_keys _ _ Hc b a gb g k).
  - red in Hfew. pose proof (occ_bounds a refs). eapply counted_at; [exact Hw|done| |cbn|cbn].
    + intros b Hba. split; [set_solver|done].
    + rewrite Hq, bool_decide_true by (by left). rewrite wrapu_id by (red; lia). cbn. lia.
    + rewrite wrapu_id by (red; lia). lia.
Qed.

(** A call that finds RPCSEC_GSS disabled when it has the mutex gives its reference back. *)
Lemma set_disabled_core w sets sets' refs a g :
  core w sets → counted w sets refs → g_enabled w = false → g_data w !! a = Some g → sets ≡ₚ a :: sets' → a ∉ sets' → a ∈ refs →
  ∃ w', set_locked w a = Ret (false, w') ∧ core w' sets' ∧ counted w' sets' refs ∧ same_setup w w' ∧ lrus w' = lrus w.
Proof.
  intros Hc Hw He Ha Hs Hn Hr. unfold set_locked. rewrite Ha. cbn [access obind]. rewrite He. cbn [negb].
  unfold upd_gd. rewrite Ha. cbn [access obind]. eexists. split; [done|].
  assert (Has : a ∈ sets) by (rewrite Hs; by left). destruct (co_gd _ _ Hc a g Ha) as [H1 H2 H3 H4 H5].
  specialize (H4 Has). pose proof (Hw a) as Hg. rewrite Ha, H4, bool_decide_true in Hg by done. destruct Hg as [Hg Hb]. cbn in Hg.
  apply occ_pos in Hr. split; [|split; [|done]].
  - eapply (core_outside w _ sets sets' a Hc); [done|congruence| | |].
    + intros b Hba. cbn. rewrite lookup_insert_ne by done. split; [done|]. split; [done|]. rewrite Hs. set_solver.
    + pose proof (co_init _ _ Hc) as Hi. intros Ei. rewrite Ei in Hi. destruct Hi as (_ & -> & _). by apply not_elem_of_nil in Has.
    + cbn. rewrite lookup_insert_eq. intros g' [= <-]. split; [done|]. split.
      * constructor; cbn; [done|done|intros _; apply H3; by right|done|done].
      * intros b gb k Hba Hgb Hkb. cbn. intros Hkk. apply Hba. by apply (co_keys _ _ Hc b a gb g k).
  - eapply counted_at; [exact Hw|done| |cbn|cbn].
    + intros b Hba. split; [rewrite Hs; set_solver|done].
    + rewrite H4, bool_decide_false by done. rewrite wrapu_id by (red; lia). cbn. lia.
    + rewrite wrapu_id by (red; lia). lia.
Qed.

(** With the mutex and RPCSEC_GSS enabled, the call's reference becomes the cache's. *)
Lemma counted_cached w w' sets sets' refs a g :
  counted w sets refs → g_data w !! a = Some g → gd_queued g = false → sets ≡ₚ a :: sets' → a ∉ sets' →
  g_data w' = <[a := set_queued true g]> (g_data w) → counted w' sets' refs.
Proof.
  intros Hw Ha Hq Hs Hn Hd. pose proof (Hw a) as Hg. rewrite Ha, Hq, bool_decide_true in Hg by (rewrite Hs; by left).
  destruct Hg as [Hr Hb]. cbn in Hr. eapply counted_at; [exact Hw|exact Hd| | |done].
  - intros b Hba. split; [rewrite Hs; set_solver|done].
  - cbn. rewrite bool_decide_false by done. cbn. lia.
Qed.

Lemma del_core w sets refs a :
  core w sets → counted w sets refs → initialized (g_hash w) = true → a ∈ refs →
  ∃ b w', del_locked w a = Ret (b, w') ∧ core w' sets ∧ counted w' sets (if b then a :: refs else refs) ∧ same_setup w w' ∧
    ∃ g, g_data w !! a = Some g ∧ b = gd_queued g ∧
      if b then g_data w' = <[a := set_queued false g]> (g_data w) ∧
                ∃ l, lrus w !! part_of w (gd_hk g) = Some l ∧ a ∈ l ∧
                     lrus w' = <[part_of w (gd_hk g) := filter (λ b, b ≠ a) l]> (lrus w)
      else w' = w.
Proof.
  intros Hc Hw Hi Hr. destruct (counted_ref w sets refs a Hw Hr) as [g Ha]. unfold del_locked. rewrite Ha. cbn [access obind].
  destruct (gd_queued g) eqn:Hq; cbn [negb].
  - destruct (remove_core w sets a g Hc Hi Ha Hq) as (w' & l & E & Hc' & Hs & _ & Hd & Hl & Hal & Hlr).
    rewrite E. cbn [obind]. exists true, w'. split; [done|]. split; [done|].
    split; [by eapply counted_remove|]. split; [done|]. exists g. rewrite Hq. split; [done|]. split; [done|]. split; [done|]. by exists l.
  - exists false, w. split; [done|]. split; [done|]. split; [done|]. split; [done|]. exists g. by rewrite Hq.
Qed.
