(* ===== verification/GssCacheTheorems.v ===== *)
(** * What the context cache guarantees

    In every state that requests, collection and the switch of RPCSEC_GSS can lead to, in
    any interleaving of the sections of src/authgss_hash.c. *)
From stdpp Require Import base gmap list sorting.
From Stdlib Require Import ZArith Lia.
From S2P Require Import Prelude Machine RbTree RbTreeTheorems RbTreeX GssWindow GssCache GssCacheFacts.

(** ** The invariant of the system *)

(** The partitions that clearing has passed. *)
Definition passed (clr : option nat) (t : nat) : Prop := match clr with Some ix => (t < ix)%nat | None => True end.

Record sys_inv (s : gss_sys) : Prop := {
  si_core : core (y_gss s) (y_sets s);
  si_counted : counted (y_gss s) (y_sets s) (y_refs s);
  si_nodup : NoDup (y_sets s);
  si_held a : a ∈ y_sets s → a ∈ y_refs s;
  si_gets : y_gets s ≠ [] → initialized (g_hash (y_gss s)) = true;
  si_off t : g_enabled (y_gss s) = false → passed (y_clearing s) t → lru_at (y_gss s) t = [];
  si_clear ix : y_clearing s = Some ix →
    g_enabled (y_gss s) = false ∧ initialized (g_hash (y_gss s)) = true ∧ (ix < length (parts (y_gss s)))%nat;
}.

(** A section that only shortens queues leaves empty ones empty. *)
Lemma lru_at_shrink w w' t l l' u :
  lrus w !! t = Some l → lrus w' = <[t := l']> (lrus w) → (l = [] → l' = []) → lru_at w u = [] → lru_at w' u = [].
Proof.
  rewrite !lru_at_lrus. intros Hl -> Hs Hu. destruct (decide (u = t)) as [->|Hut].
  - rewrite list_lookup_insert_eq by (by eapply lookup_lt_Some). rewrite Hl in Hu. by apply Hs.
  - by rewrite list_lookup_insert_ne.
Qed.

Lemma lrus_length w w' t l' : lrus w' = <[t := l']> (lrus w) → length (parts w') = length (parts w).
Proof. intros H. apply (f_equal length) in H. unfold lrus in H. by rewrite length_insert, !length_fmap in H. Qed.

Lemma nparts_length w sets : core w sets → Z.to_nat (nparts w) = length (parts w).
Proof. intros Hc. rewrite (co_npart _ _ Hc). lia. Qed.

(** What a section has to keep: the flags, and empty queues. *)
Lemma inv_section w w' refs refs' sets sets' gets gets' clr :
  sys_inv (mk_gss_sys w refs sets gets clr) →
  core w' sets' → counted w' sets' refs' → NoDup sets' → (∀ a, a ∈ sets' → a ∈ refs') →
  (initialized (g_hash w) = true → initialized (g_hash w') = true ∧ length (parts w') = length (parts w)) →
  (gets' ≠ [] → initialized (g_hash w') = true) →
  g_enabled w' = g_enabled w → (g_enabled w = false → ∀ t, lru_at w t = [] → lru_at w' t = []) →
  sys_inv (mk_gss_sys w' refs' sets' gets' clr).
Proof.
  intros [H1 H2 H3 H4 H5 H6 H7] Hc Hw Hn Hh Hi Hg He Hl. cbn in *. constructor; cbn; [done|done|done|done|done| |].
  - rewrite He. intros t Hd Hp. apply Hl; [done|]. by apply H6.
  - rewrite He. intros ix Hix. destruct (H7 ix Hix) as (Hd & Hin & Hlt). destruct (Hi Hin) as [Hin' ->]. done.
Qed.

(** ** The sections keep it *)

Lemma inv_init prm w refs sets gets clr :
  params_ok prm → sys_inv (mk_gss_sys w refs sets gets clr) →
  ∃ w', authgss_hash_init prm w = Ret w' ∧ sys_inv (mk_gss_sys w' refs sets gets clr) ∧
    initialized (g_hash w') = true ∧ g_data w' = g_data w ∧ g_enabled w' = g_enabled w ∧ (∀ t, lru_at w' t = lru_at w t).
Proof.
  intros Hprm Hs. pose proof Hs as [Hc Hw Hn Hh Hg Ho Hcl]. cbn in *.
  destruct (init_core prm w sets Hprm Hc) as (w' & E & Hc' & Hi & Hd & _ & He & Hl & Hnp).
  exists w'. split; [done|]. split; [|done]. eapply inv_section; [exact Hs|done|by eapply counted_ext|done|done| |done|done|].
  - intros Hin. split; [done|]. rewrite <- (nparts_length w' sets), <- (nparts_length w sets) by done. by rewrite (proj1 (Hnp Hin)).
  - intros _ t. by rewrite Hl.
Qed.

(** A section under the mutex of partition [t] that turns the queue [l] into [l']. *)
Lemma inv_locked w w' refs refs' sets sets' gets gets' clr t l l' :
  sys_inv (mk_gss_sys w refs sets gets clr) → initialized (g_hash w) = true →
  core w' sets' → counted w' sets' refs' → NoDup sets' → (∀ a, a ∈ sets' → a ∈ refs') →
  same_setup w w' → lrus w !! t = Some l → lrus w' = <[t := l']> (lrus w) → (g_enabled w = false → l = [] → l' = []) →
  sys_inv (mk_gss_sys w' refs' sets' gets' clr).
Proof.
  intros Hs Hi Hc Hw Hn Hh [Hini Hnp He] Hl Hl' Hsh. eapply inv_section; [exact Hs|done|done|done|done| |congruence|done|].
  - intros _. split; [congruence|]. by eapply lrus_length.
  - intros Hd u Hu. eapply lru_at_shrink; eauto.
Qed.

Lemma inv_same w w' refs refs' sets sets' gets gets' clr :
  sys_inv (mk_gss_sys w refs sets gets clr) →
  core w' sets' → counted w' sets' refs' → NoDup sets' → (∀ a, a ∈ sets' → a ∈ refs') →
  same_setup w w' → lrus w' = lrus w → (gets' ≠ [] → initialized (g_hash w) = true) →
  sys_inv (mk_gss_sys w' refs' sets' gets' clr).
Proof.
  intros Hs Hc Hw Hn Hh [Hini Hnp He] Hl Hg. eapply inv_section; [exact Hs|done|done|done|done| |by rewrite Hini|done|].
  - intros Hi. split; [congruence|]. apply (f_equal length) in Hl. unfold lrus in Hl. by rewrite !length_fmap in Hl.
  - intros _ t. by rewrite !lru_at_lrus, Hl.
Qed.

Lemma counted_got w w' sets refs a g :
  counted w sets refs → few_refs refs → g_data w !! a = Some g → gd_queued g = true → core w sets →
  g_data w' = <[a := set_gd_gen (u32 (gd_gen g + 1)) (set_refcnt (u32 (gd_refcnt g + 1)) g)]> (g_data w) →
  counted w' sets (a :: refs).
Proof.
  intros Hw Hf Ha Hq Hc Hd. pose proof (Hw a) as Hg. rewrite Ha, Hq in Hg. destruct Hg as [Hr Hb]. red in Hf.
  assert (Hns : a ∉ sets) by (intros Hs; pose proof (go_once _ _ _ _ (co_gd _ _ Hc a g Ha) Hs); congruence).
  rewrite bool_decide_false in Hr by done. cbn in Hr. pose proof (occ_bounds a refs).
  eapply counted_at; [exact Hw|exact Hd| |cbn|cbn].
  - intros b Hba. split; [done|]. by apply occ_other.
  - rewrite Hq, bool_decide_false, occ_same by done. rewrite wrapu_id by (red; lia). cbn. lia.
  - rewrite wrapu_id by (red; lia). lia.
Qed.

Lemma inv_get w refs sets gets gets' clr key :
  sys_inv (mk_gss_sys w refs sets gets clr) → few_refs refs → initialized (g_hash w) = true →
  ∃ r w', get_locked w key = Ret (r, w') ∧
    sys_inv (mk_gss_sys w' (match r with Some gd => gd :: refs | None => refs end) sets gets' clr).
Proof.
  intros Hs Hf Hi. pose proof Hs as [Hc Hw Hn Hh Hg Ho Hcl]. cbn in *. destruct (g_enabled w) eqn:He.
  - destruct (get_core w sets key Hc Hi He) as (r & w' & E & Hc' & Hss & _ & Hr). exists r, w'. split; [done|].
    destruct r as [a|].
    + destruct Hr as (g & l & Ha & Hq & _ & Hd & Hl & Hal & Hlr). eapply inv_locked; eauto.
      * by eapply counted_got.
      * intros b Hb. right. by apply Hh.
      * congruence.
    + destruct Hr as (Hd & Hlr & _). eapply inv_same; eauto. by eapply counted_ext.
  - exists None, w. unfold get_locked. rewrite He. split; [done|]. eapply inv_same; eauto using same_setup_refl.
Qed.

Lemma inv_set w refs sets sets' gets clr a :
  sys_inv (mk_gss_sys w refs sets gets clr) → sets ≡ₚ a :: sets' →
  ∃ b w', set_locked w a = Ret (b, w') ∧ sys_inv (mk_gss_sys w' refs sets' gets clr).
Proof.
  intros Hs Hp. pose proof Hs as [Hc Hw Hn Hh Hg Ho Hcl]. cbn in *.
  assert (Has : a ∈ sets) by (rewrite Hp; by left). destruct (counted_set w sets refs a Hw Has) as [g Ha].
  rewrite Hp in Hn. apply NoDup_cons in Hn as [Hna Hn].
  assert (Hi : initialized (g_hash w) = true).
  { pose proof (co_init _ _ Hc) as Hi. destruct (initialized (g_hash w)); [done|]. destruct Hi as (_ & -> & _). by apply not_elem_of_nil in Has. }
  assert (Hh' : ∀ b, b ∈ sets' → b ∈ refs) by (intros b Hb; apply Hh; rewrite Hp; by right).
  destruct (g_enabled w) eqn:He.
  - destruct (insert_core w sets sets' a g Hc Hi He Ha Hp Hna) as (w' & l & E & Hc' & Hss & Hd & Hl & Hlr).
    exists true, w'. split; [done|]. eapply inv_locked; eauto; [|congruence].
    eapply counted_cached; eauto. by apply (go_once _ _ _ _ (co_gd _ _ Hc a g Ha)).
  - destruct (set_disabled_core w sets sets' refs a g Hc Hw He Ha Hp Hna (Hh a Has)) as (w' & E & Hc' & Hw' & Hss & Hlr).
    exists false, w'. split; [done|]. eapply inv_same; eauto.
Qed.

Lemma inv_del w refs sets gets clr a :
  sys_inv (mk_gss_sys w refs sets gets clr) → initialized (g_hash w) = true → a ∈ refs →
  ∃ b w', del_locked w a = Ret (b, w') ∧ sys_inv (mk_gss_sys w' (if b then a :: refs else refs) sets gets clr).
Proof.
  intros Hs Hi Ha. pose proof Hs as [Hc Hw Hn Hh Hg Ho Hcl]. cbn in *.
  destruct (del_core w sets refs a Hc Hw Hi Ha) as (b & w' & E & Hc' & Hw' & Hss & g & Hga & Hb & Hd).
  exists b, w'. split; [done|]. destruct b.
  - destruct Hd as (_ & l & Hl & Hal & Hlr). eapply inv_locked; eauto; [intros c Hcs; right; by apply Hh|].
    intros _ ->. done.
  - by rewrite Hd.
Qed.

Lemma inv_unref w refs refs' sets gets clr a :
  sys_inv (mk_gss_sys w refs sets gets clr) → refs ≡ₚ a :: refs' → (a ∈ sets → a ∈ refs') →
  ∃ w', unref_svc_rpc_gss_data w None a = Ret w' ∧ sys_inv (mk_gss_sys w' refs' sets gets clr).
Proof.
  intros Hs Hp Ha. pose proof Hs as [Hc Hw Hn Hh Hg Ho Hcl]. cbn in *.
  destruct (unref_core w sets refs a refs' None Hc Hw Hp) as (w' & E & Hc' & Hw' & Hha & He & _); [done|].
  exists w'. split; [done|]. eapply inv_same; eauto.
  - intros b Hb. specialize (Hh b Hb). rewrite Hp in Hh. apply elem_of_cons in Hh as [->|Hh]; [by apply Ha|done].
  - constructor; by rewrite ?Hha.
  - unfold lrus. by rewrite Hha.
Qed.

Lemma inv_gc prm expired w refs sets gets clr t cnt :
  sys_inv (mk_gss_sys w refs sets gets clr) → initialized (g_hash w) = true → (Z.of_nat t < nparts w) →
  ∃ n w', gc_part (length (lru_at w t)) prm expired w t cnt = Ret (cnt + Z.of_nat n, w') ∧
    sys_inv (mk_gss_sys w' refs sets gets clr) ∧ collected prm expired w w' t (lru_at w t) cnt n.
Proof.
  intros Hs Hi Ht. pose proof Hs as [Hc Hw Hn Hh Hg Ho Hcl]. cbn in *.
  assert (∃ l, lrus w !! t = Some l) as [l Hl].
  { apply lookup_lt_is_Some. unfold lrus. rewrite length_fmap. rewrite <- (nparts_length w sets) by done. lia. }
  assert (El : lru_at w t = l) by (by rewrite lru_at_lrus, Hl). rewrite El.
  destruct (gc_part_core (length l) prm expired w sets refs t l cnt Hc Hw Hi Hl) as (n & w' & E & Hc' & Hw' & Hcl'); [done|].
  exists n, w'. split; [done|]. split; [|done]. destruct Hcl' as [Hss _ Hlr _ _ _ _]. eapply inv_locked; eauto.
  intros _ ->. by rewrite drop_nil.
Qed.

Lemma inv_clear w refs sets gets ix :
  sys_inv (mk_gss_sys w refs sets gets (Some ix)) →
  ∃ w', clear_part w ix = Ret w' ∧
    sys_inv (mk_gss_sys w' refs sets gets (if Z.of_nat (S ix) <? nparts w then Some (S ix) else None)).
Proof.
  intros Hs. pose proof Hs as [Hc Hw Hn Hh Hg Ho Hcl]. cbn in *. destruct (Hcl ix eq_refl) as (He & Hi & Hlt).
  assert (∃ l, lrus w !! ix = Some l) as [l Hl] by (apply lookup_lt_is_Some; unfold lrus; by rewrite length_fmap).
  assert (El : lru_at w ix = l) by (by rewrite lru_at_lrus, Hl). unfold clear_part. rewrite El.
  destruct (clear_entries_core l w sets refs ix Hc Hw Hi Hl) as (w' & E & Hc' & Hw' & Hss & Hlr).
  exists w'. split; [done|]. pose proof (lrus_length _ _ _ _ Hlr) as Hlen.
  assert (Hs' : sys_inv (mk_gss_sys w' refs sets gets (Some ix))) by (eapply inv_locked; eauto).
  destruct Hss as [Hini Hnp Hen]. pose proof (co_npart _ _ Hc) as Enp.
  assert (Hoff : ∀ t, (t < S ix)%nat → lru_at w' t = []).
  { intros t Ht. destruct (decide (t = ix)) as [->|Hne].
    - rewrite lru_at_lrus, Hlr, list_lookup_insert_eq; [done|]. unfold lrus. by rewrite length_fmap.
    - apply (si_off _ Hs' t); [cbn; congruence|cbn; lia]. }
  destruct Hs' as [_ _ _ _ Hg' _ _]. cbn in Hg'. constructor; cbn; [done|done|done|done|done| |].
  - intros t _ Hp. destruct (Z.ltb_spec (Z.of_nat (S ix)) (nparts w)) as [Hlt'|Hge]; [by apply Hoff|].
    destruct (decide (t < S ix)%nat) as [Ht|Ht]; [by apply Hoff|]. unfold lru_at.
    rewrite lookup_ge_None_2; [done|]. lia.
  - intros ix' Hix. destruct (Z.ltb_spec (Z.of_nat (S ix)) (nparts w)) as [Hlt'|Hge]; [|done]. injection Hix as <-.
    split; [congruence|]. split; [congruence|]. lia.
Qed.

Lemma inv_status w refs sets gets clr e :
  sys_inv (mk_gss_sys w refs sets gets clr) → core (set_enabled e w) sets ∧ counted (set_enabled e w) sets refs.
Proof.
  intros [Hc Hw _ _ _ _ _]. cbn in *. split; [by eapply core_view; eauto; cbn; intros; simplify_eq|by eapply counted_ext].
Qed.

Lemma inv_enable w refs sets gets :
  sys_inv (mk_gss_sys w refs sets gets None) → sys_inv (mk_gss_sys (set_enabled true w) refs sets gets None).
Proof.
  intros Hs. destruct (inv_status _ _ _ _ _ true Hs) as [Hc Hw]. destruct Hs as [_ _ Hn Hh Hg _ _].
  by constructor.
Qed.

Lemma inv_disable prm w refs sets gets :
  params_ok prm → sys_inv (mk_gss_sys w refs sets gets None) →
  ∃ w', authgss_hash_init prm (set_enabled false w) = Ret w' ∧ sys_inv (mk_gss_sys w' refs sets gets (Some 0%nat)) ∧
    g_data w' = g_data w.
Proof.
  intros Hprm Hs. destruct (inv_status _ _ _ _ _ false Hs) as [Hc Hw]. destruct Hs as [_ _ Hn Hh Hg _ _]. cbn in *.
  destruct (init_core prm _ sets Hprm Hc) as (w' & E & Hc' & Hi & Hd & _ & He & _ & _). exists w'. split; [done|]. split; [|done].
  constructor; cbn; [done|by eapply counted_ext|done|done|done|lia|]. intros ix [= <-]. split; [done|]. split; [done|].
  rewrite <- (nparts_length w' sets) by done. pose proof (co_init _ _ Hc') as H. rewrite Hi in H. lia.
Qed.

Lemma inv_set_begin prm w refs sets gets clr a g key :
  params_ok prm → sys_inv (mk_gss_sys w refs sets gets clr) → few_refs refs → a ∉ sets → a ∈ refs →
  g_data w !! a = Some g → gd_queued g = false → gd_ctx g = Some key →
  ∃ w', set_begin prm w a = Ret w' ∧ sys_inv (mk_gss_sys w' refs (a :: sets) gets clr) ∧ g_enabled w' = g_enabled w ∧
    g_data w' = <[a := set_refcnt (u32 (gd_refcnt g + 1)) (set_hk (hash_of key) g)]> (g_data w).
Proof.
  intros Hprm Hs Hf Hns Hr Ha Hq Hk. pose proof Hs as [Hc Hw Hn Hh Hg Ho Hcl]. cbn in *.
  destruct (set_begin_core prm w sets refs a g key Hprm Hc Hw Hf Hns Ha Hq Hk) as (w' & E & Hc' & Hw' & Hi & He & Hl & Hnp & Hd).
  exists w'. split; [done|]. split; [|done]. eapply inv_section; [exact Hs|done|done|by constructor| | |done|done|].
  - intros b [->|Hb]%elem_of_cons; [done|by apply Hh].
  - intros Hin. split; [done|]. rewrite <- (nparts_length w' (a :: sets)), <- (nparts_length w sets) by done. by rewrite Hnp.
  - intros _ t. by rewrite Hl.
Qed.

(** A request writes fields of a context that the cache does not look at. *)
Lemma inv_write w refs sets gets clr a g g' :
  sys_inv (mk_gss_sys w refs sets gets clr) → g_data w !! a = Some g → view g' = view g → gd_refcnt g' = gd_refcnt g →
  (seq_ok (gd_seq g) → seq_ok (gd_seq g')) →
  sys_inv (mk_gss_sys (set_data (<[a := g']> (g_data w)) w) refs sets gets clr).
Proof.
  intros Hs Ha Hv Hr Hq. pose proof Hs as [Hc Hw Hn Hh Hg Ho Hcl]. cbn in *.
  eapply inv_same; [exact Hs|by eapply core_upd| |done|done|done|done|done].
  pose proof (Hw a) as Hwa. rewrite Ha in Hwa. eapply counted_at; [exact Hw|done| | |].
  - done.
  - injection Hv as _ _ ->. rewrite Hr. apply Hwa.
  - rewrite Hr. apply Hwa.
Qed.

Lemma cache_inv_step s s' : cache_step s s' → sys_inv s → sys_inv s'.
Proof.
  intros Hst Hs. destruct Hst as [w refs sets gets clr gd Ha Hp|w refs sets gets clr gd g key Hr Ha Hx Hf
    |w refs sets gets clr gd g est svc endt Hr Ha|w refs sets gets clr gd g n b seq Hr Ha Hn E
    |prm w w' refs sets gets clr key Hprm He E|w w' refs sets gets gets' clr key r Hp Hf E
    |prm w w' refs sets gets clr gd g key Hprm Hr Hns Ha Hq Hx Hf He E|w w' refs sets sets' gets clr gd b Hp E
    |prm w w1 w' refs sets gets clr gd b Hprm Hr E1 E|w w' refs refs' sets gets clr gd Hp Hk E
    |prm expired w w1 w' refs sets gets clr t cnt cnt' Hprm E1 Ht E|w refs sets gets He
    |prm w w' refs sets gets Hprm He E|w w' refs sets gets ix E].
  - pose proof Hs as [Hc Hw Hn Hh Hg Ho Hcl]. cbn in *. destruct (alloc_core w sets refs gd Hc Hw Ha Hp) as [Hc' Hw'].
    eapply inv_same; eauto; try done. intros b Hb. right. by apply Hh.
  - pose proof Hs as [Hc Hw Hn Hh Hg Ho Hcl]. cbn in *. destruct (accept_core w sets refs gd g key Hc Hw Ha Hx Hf) as [Hc' Hw'].
    by eapply inv_same; eauto.
  - eapply inv_write; [exact Hs|exact Ha|done|done|done].
  - eapply inv_write; [exact Hs|exact Ha|done|done|]. intros [seen Hq]. destruct (seq_step _ _ _ Hq Hn) as (b' & s' & E' & _ & _ & Hi).
    rewrite E in E'. simplify_eq. by eexists.
  - destruct (inv_init prm w refs sets gets clr Hprm Hs) as (w0 & E' & Hs' & Hi & _). rewrite E in E'. simplify_eq.
    pose proof Hs' as [Hc Hw Hn Hh Hg Ho Hcl]. cbn in *. eapply inv_same; eauto using same_setup_refl.
  - assert (Hi : initialized (g_hash w) = true) by (apply (si_gets _ Hs); cbn; intros ->; by apply Permutation_nil_cons in Hp).
    destruct (inv_get w refs sets gets gets' clr key Hs Hf Hi) as (r' & w0 & E' & Hs'). rewrite E in E'. by simplify_eq.
  - destruct (inv_set_begin prm w refs sets gets clr gd g key Hprm Hs Hf Hns Hr Ha Hq Hx) as (w0 & E' & Hs' & _). rewrite E in E'. by simplify_eq.
  - destruct (inv_set w refs sets sets' gets clr gd Hs Hp) as (b' & w0 & E' & Hs'). rewrite E in E'. by simplify_eq.
  - destruct (inv_init prm w refs sets gets clr Hprm Hs) as (w0 & E' & Hs' & Hi & _). rewrite E1 in E'. simplify_eq.
    destruct (inv_del w0 refs sets gets clr gd Hs' Hi Hr) as (b' & w2 & E2 & Hs''). rewrite E in E2. by simplify_eq.
  - destruct (inv_unref w refs refs' sets gets clr gd Hs Hp Hk) as (w0 & E' & Hs'). rewrite E in E'. by simplify_eq.
  - destruct (inv_init prm w refs sets gets clr Hprm Hs) as (w0 & E' & Hs' & Hi & _). rewrite E1 in E'. simplify_eq.
    destruct (inv_gc prm expired w0 refs sets gets clr t cnt Hs' Hi Ht) as (n & w2 & E2 & Hs'' & _). rewrite E in E2. by simplify_eq.
  - by apply inv_enable.
  - destruct (inv_disable prm w refs sets gets Hprm Hs) as (w0 & E' & Hs' & _). rewrite E in E'. by simplify_eq.
  - destruct (inv_clear w refs sets gets ix Hs) as (w0 & E' & Hs'). rewrite E in E'. by simplify_eq.
Qed.

Lemma inv_start : sys_inv sys_start.
Proof.
  assert (Hd : ∀ a, g_data gss_state_start !! a = None) by (intros a; apply lookup_empty).
  constructor; cbn [sys_start y_gss y_refs y_sets y_gets y_clearing]; [| |constructor|done|done|done|done].
  - constructor; [intros a g; by rewrite Hd|intros a b ga gb k; by rewrite Hd|done|done| |done|done].
    split; [done|]. split; [done|]. intros a g. by rewrite Hd.
  - intros a. rewrite Hd. split; apply not_elem_of_nil.
Qed.

Lemma reachable_inv s : rtc cache_step sys_start s → sys_inv s.
Proof.
  intros Hr. apply (rtc_ind_r (R := cache_step) sys_inv sys_start); [apply inv_start| |exact Hr].
  intros a b _ Hs Ha. by eapply cache_inv_step.
Qed.

(** ** The guarantees *)

Definition cached (w : gss_state) (a : Z) : Prop := ∃ t, a ∈ lru_at w t.

Lemma cached_queued w sets a g :
  core w sets → initialized (g_hash w) = true → g_data w !! a = Some g → cached w a ↔ gd_queued g = true.
Proof.
  intros Hc Hi Ha. split.
  - intros [t Ht]. rewrite lru_at_lrus in Ht. destruct (lrus w !! t) as [l|] eqn:Hl; [|by apply not_elem_of_nil in Ht].
    destruct (lrus_member w sets t l Hc Hl) as (_ & _ & _ & _ & _ & Hm). apply Hm in Ht as (g' & Hg' & Hq & _). congruence.
  - intros Hq. destruct (part_some w sets (gd_hk g) Hc Hi) as [p Hp]. exists (part_of w (gd_hk g)).
    rewrite lru_at_lrus, (lrus_lookup _ _ _ Hp). apply (po_lru _ _ _ (co_part _ _ Hc _ _ Hp)). by exists g.
Qed.

Lemma cached_live w sets a : core w sets → cached w a → ∃ g, g_data w !! a = Some g ∧ gd_queued g = true.
Proof.
  intros Hc [t Ht]. rewrite lru_at_lrus in Ht. destruct (lrus w !! t) as [l|] eqn:Hl; [|by apply not_elem_of_nil in Ht].
  destruct (lrus_member w sets t l Hc Hl) as (_ & _ & _ & _ & _ & Hm). apply Hm in Ht as (g & Hg & Hq & _). by exists g.
Qed.

Lemma queued_cached w sets a g : core w sets → g_data w !! a = Some g → gd_queued g = true → cached w a.
Proof.
  intros Hc Ha Hq. destruct (initialized (g_hash w)) eqn:Hi; [by eapply cached_queued|].
  pose proof (co_init _ _ Hc) as H. rewrite Hi in H. destruct H as (_ & _ & H). rewrite (H a g Ha) in Hq. done.
Qed.

Lemma elem_of_concat (L : list (list Z)) a : a ∈ concat L ↔ ∃ t l, L !! t = Some l ∧ a ∈ l.
Proof.
  induction L as [|x L IH]; cbn; [split; [by intros ?%not_elem_of_nil|by intros (t & l & ? & _)]|].
  rewrite elem_of_app, IH. split.
  - intros [Ha|(t & l & Hl & Ha)]; [by exists 0%nat, x|by exists (S t), l].
  - intros ([|t] & l & Hl & Ha); simplify_eq/=; eauto.
Qed.

Lemma concat_cached w a : a ∈ concat (lrus w) ↔ cached w a.
Proof.
  rewrite elem_of_concat. unfold cached. setoid_rewrite lru_at_lrus. split.
  - intros (t & l & Hl & Ha). exists t. by rewrite Hl.
  - intros [t Ha]. destruct (lrus w !! t) as [l|] eqn:El; [eauto|by apply not_elem_of_nil in Ha].
Qed.

(** What the counters say about being allocated. *)
Lemma counts_live w sets refs :
  core w sets → counted w sets refs → (∀ a, a ∈ sets → a ∈ refs) →
  (∀ a, (∃ g, g_data w !! a = Some g) ↔ a ∈ refs ∨ cached w a) ∧
  (∀ a g, g_data w !! a = Some g →
     gd_refcnt g = ones (bool_decide (a ∈ concat (lrus w))) + ones (bool_decide (a ∈ sets)) + occ a refs).
Proof.
  intros Hc Hw Hh. split.
  - intros a. split.
    + intros [g Ha]. destruct (gd_queued g) eqn:Hq; [right; by eapply queued_cached|left].
      specialize (Hw a). rewrite Ha, Hq in Hw. destruct Hw as [Hw Hb]. case_bool_decide; [by apply Hh|].
      cbn in Hw. apply occ_pos. lia.
    + intros [Ha|Ha]; [by eapply counted_ref|]. destruct (cached_live w sets a Hc Ha) as (g & Hg & _). eauto.
  - intros a g Ha. specialize (Hw a). rewrite Ha in Hw. destruct Hw as [-> _]. f_equal. f_equal. f_equal.
    destruct (gd_queued g) eqn:Hq; [rewrite bool_decide_true; [done|]|rewrite bool_decide_false; [done|]]; rewrite concat_cached.
    + by eapply queued_cached.
    + intros (g' & Hg' & Hq')%(cached_live w sets); [|done]. congruence.
Qed.

Lemma part_queue w sets t : core w sets → Z.of_nat t < nparts w → ∃ l, lrus w !! t = Some l.
Proof.
  intros Hc Ht. apply lookup_lt_is_Some. unfold lrus. rewrite length_fmap, <- (nparts_length w sets) by done. lia.
Qed.

(** C20. Contexts live exactly as long as they are needed, and no section of the cache touches
    one that is gone: in every state that requests, evictions and clearing can reach, in
    any order, a context is allocated just when a request holds it or the cache does; its
    counter is the number of these references; and each section -- finding, adding,
    removing, releasing, collecting, clearing -- returns, where using a released context,
    a stale entry of the array in front of a tree, or unlinking what is not linked would
    be undefined. *)
Theorem context_cache_safe s prm expired t cnt :
  rtc cache_step sys_start s → params_ok prm →
  let w := y_gss s in
  (∀ a, (∃ g, g_data w !! a = Some g) ↔ a ∈ y_refs s ∨ cached w a) ∧
  (∀ a g, g_data w !! a = Some g →
     gd_refcnt g = ones (bool_decide (a ∈ concat (lrus w))) + ones (bool_decide (a ∈ y_sets s)) + occ a (y_refs s)) ∧
  ∃ w1, authgss_hash_init prm w = Ret w1 ∧
    (few_refs (y_refs s) → ∀ key, ∃ r, get_locked w1 key = Ret r) ∧
    (∀ a, a ∈ y_sets s → ∃ r, set_locked w1 a = Ret r) ∧
    (∀ a, a ∈ y_refs s → ∃ r w2, del_locked w1 a = Ret (r, w2) ∧ ∃ w3, unref_svc_rpc_gss_data w2 None a = Ret w3) ∧
    (Z.of_nat t < nparts w1 → ∃ r, gc_part (length (lru_at w1 t)) prm expired w1 t cnt = Ret r) ∧
    (Z.of_nat t < nparts w1 → ∃ w2, clear_part w1 t = Ret w2).
Proof.
  intros Hr Hprm w. pose proof (reachable_inv s Hr) as Hs. destruct s as [w' refs sets gets clr]. cbn [y_gss y_refs y_sets] in *. subst w.
  pose proof Hs as [Hc Hw _ Hh _ _ _]. cbn in *. destruct (counts_live w' sets refs Hc Hw Hh) as [Hl1 Hl2].
  split; [done|]. split; [done|].
  destruct (inv_init prm w' refs sets gets clr Hprm Hs) as (w1 & E & Hs1 & Hi & _). exists w1. split; [done|].
  pose proof Hs1 as [Hc1 Hw1 _ _ _ _ _]. cbn in *. split; [|split; [|split; [|split]]].
  - intros Hf key. destruct (inv_get w1 refs sets gets gets clr key Hs1 Hf Hi) as (r & w2 & E' & _). eauto.
  - intros a (l1 & l2 & Ha)%list_elem_of_split. destruct (inv_set w1 refs sets (l1 ++ l2) gets clr a Hs1) as (b & w2 & E' & _); [|eauto].
    rewrite Ha. by rewrite Permutation_middle.
  - intros a Ha. destruct (del_core w1 sets refs a Hc1 Hw1 Hi Ha) as (b & w2 & E' & Hc2 & Hw2 & _).
    exists b, w2. split; [done|]. assert (Ha' : a ∈ (if b then a :: refs else refs)) by (destruct b; [by left|done]).
    apply list_elem_of_split in Ha' as (l1 & l2 & El). rewrite El in Hw2.
    destruct (unref_core w2 sets _ a (l1 ++ l2) None Hc2 Hw2) as (w3 & E3 & _); [by rewrite Permutation_middle|done|eauto].
  - intros Ht. destruct (inv_gc prm expired w1 refs sets gets clr t cnt Hs1 Hi Ht) as (n & w2 & E' & _). eauto.
  - intros Ht. unfold clear_part. destruct (part_queue w1 sets t Hc1 Ht) as [l Hl]. rewrite lru_at_lrus, Hl. cbn.
    destruct (clear_entries_core l w1 sets refs t Hc1 Hw1 Hi Hl) as (w2 & E' & _). eauto.
Qed.

Lemma cached_perm w w' t l l' :
  lrus w !! t = Some l → lrus w' = <[t := l']> (lrus w) → l' ≡ₚ l → ∀ a, cached w' a ↔ cached w a.
Proof.
  intros Hl Hl' Hp a. unfold cached. setoid_rewrite lru_at_lrus. rewrite Hl'.
  assert (Hu : ∀ u, a ∈ default [] (<[t:=l']> (lrus w) !! u) ↔ a ∈ default [] (lrus w !! u)); [|by setoid_rewrite Hu].
  intros u. destruct (decide (u = t)) as [->|Hne]; [|by rewrite list_lookup_insert_ne].
  rewrite list_lookup_insert_eq, Hl by (by eapply lookup_lt_Some). cbn. by rewrite Hp.
Qed.

(** The cache as a map from handles to contexts, from any good state. *)
Lemma find_spec w refs sets gets clr prm key :
  sys_inv (mk_gss_sys w refs sets gets clr) → params_ok prm → g_enabled w = true →
  ∃ r w', authgss_ctx_hash_get prm w key = Ret (r, w') ∧
    (∀ a, r = Some a ↔ cached w a ∧ ∃ g, g_data w !! a = Some g ∧ gd_ctx g = Some key) ∧
    (∀ a, cached w' a ↔ cached w a) ∧
    (∀ a, r = Some a → last (lru_at w' (part_of w' (hash_of key))) = Some a).
Proof.
  intros Hs Hprm He. unfold authgss_ctx_hash_get. rewrite He. cbn [negb].
  destruct (inv_init prm w refs sets gets clr Hprm Hs) as (w1 & E & Hs1 & Hi & Hd & He1 & Hl). rewrite E. cbn [obind].
  assert (Hca : ∀ a, cached w1 a ↔ cached w a) by (intros a; unfold cached; by setoid_rewrite Hl).
  pose proof (si_core _ Hs1) as Hc. cbn in Hc. rewrite He in He1.
  destruct (get_core w1 sets key Hc Hi He1) as (r & w' & E' & Hc' & [_ Hnp _] & _ & Hr). exists r, w'. split; [done|].
  destruct r as [b|].
  - destruct Hr as (g & l & Hb & Hq & Hk & Hd' & Hl1 & Hbl & Hlr).
    destruct (lrus_member w1 sets _ l Hc Hl1) as (_ & _ & _ & _ & Hn & _). destruct (lru_requeue l b Hbl Hn) as [_ Hp].
    split; [|split].
    + intros a. rewrite <- Hca, <- Hd. split.
      * intros [= ->]. split; [by eapply queued_cached|eauto].
      * intros (Ha & g' & Hg' & Hk'). f_equal. by apply (co_keys _ _ Hc b a g g' key).
    + intros a. rewrite <- Hca. by eapply cached_perm.
    + intros a [= ->]. unfold part_of, rbtx_idx_of_scalar in *. rewrite Hnp, lru_at_lrus, Hlr.
      rewrite list_lookup_insert_eq by (by eapply lookup_lt_Some). cbn. by rewrite last_snoc.
  - destruct Hr as (Hd' & Hlr & Hno). split; [|split; [|done]].
    + intros a. rewrite <- Hca, <- Hd. split; [done|]. intros (Ha & g & Hg & Hk). exfalso.
      destruct (cached_live w1 sets a Hc Ha) as (g' & Hg' & Hq). apply (Hno a g); congruence.
    + intros a. rewrite <- Hca. unfold cached. setoid_rewrite lru_at_lrus. by rewrite Hlr.
Qed.

(** A handle finds its context: while RPCSEC_GSS is enabled, [authgss_ctx_hash_get]
    returns the cached context with the handle's mechanism and identity if there is one
    and nothing otherwise, whether it comes from the array or from the tree; looking up
    changes nothing but the order in which contexts will be evicted, where the one found
    becomes the last. *)
Theorem context_cache_finds s prm key :
  rtc cache_step sys_start s → params_ok prm → g_enabled (y_gss s) = true →
  let w := y_gss s in
  ∃ r w', authgss_ctx_hash_get prm w key = Ret (r, w') ∧
    (∀ a, r = Some a ↔ cached w a ∧ ∃ g, g_data w !! a = Some g ∧ gd_ctx g = Some key) ∧
    (∀ a, cached w' a ↔ cached w a) ∧
    (∀ a, r = Some a → last (lru_at w' (part_of w' (hash_of key))) = Some a).
Proof.
  intros Hr Hprm He w. pose proof (reachable_inv s Hr) as Hs. destruct s as [w' refs sets gets clr]. by eapply find_spec.
Qed.

(** The second half of [authgss_ctx_hash_set]. *)
Lemma added_spec w refs sets gets clr a key :
  sys_inv (mk_gss_sys w refs (a :: sets) gets clr) → g_enabled w = true →
  (∃ g, g_data w !! a = Some g ∧ gd_ctx g = Some key) →
  ∃ w', set_locked w a = Ret (true, w') ∧ sys_inv (mk_gss_sys w' refs sets gets clr) ∧ g_enabled w' = true ∧
    ∃ g, g_data w' !! a = Some g ∧ gd_queued g = true ∧ gd_ctx g = Some key.
Proof.
  intros Hs He (g & Hg & Hk). pose proof Hs as [Hc _ Hn _ _ _ _]. cbn in *. apply NoDup_cons in Hn as [Hna _].
  assert (Hi : initialized (g_hash w) = true).
  { pose proof (co_init _ _ Hc) as Hi. destruct (initialized (g_hash w)); [done|]. by destruct Hi as (_ & ? & _). }
  destruct (insert_core w (a :: sets) sets a g Hc Hi He Hg) as (w' & l & E & _ & [_ _ He'] & Hd & _); [done|done|].
  destruct (inv_set w refs (a :: sets) sets gets clr a Hs) as (b & w1 & E1 & Hs'); [done|].
  rewrite E in E1. simplify_eq. exists w1. split; [done|]. split; [done|]. split; [congruence|].
  rewrite Hd, lookup_insert_eq. by eexists.
Qed.

Lemma removed_spec w refs sets gets clr prm a key :
  sys_inv (mk_gss_sys w refs sets gets clr) → params_ok prm → g_enabled w = true → a ∈ refs → a ∉ sets →
  (∃ g, g_data w !! a = Some g ∧ gd_queued g = true ∧ gd_ctx g = Some key) →
  ∃ w', authgss_ctx_hash_del prm w None a = Ret (true, w') ∧ ∃ w2, authgss_ctx_hash_get prm w' key = Ret (None, w2).
Proof.
  intros Hs Hprm He Ha Hns (g & Hg & Hq & Hk). unfold authgss_ctx_hash_del.
  destruct (inv_init prm w refs sets gets clr Hprm Hs) as (w1 & E & Hs1 & Hi & Hd & He1 & Hl). rewrite E. cbn [obind].
  rewrite <- Hd in Hg. pose proof Hs1 as [Hc1 Hw1 _ _ _ _ _]. cbn in *.
  destruct (del_core w1 sets refs a Hc1 Hw1 Hi Ha) as (b & w2 & E2 & Hc2 & _ & [_ _ He2] & g1 & Hg1 & Hb & Hrem).
  destruct (inv_del w1 refs sets gets clr a Hs1 Hi Ha) as (b' & w2' & E2' & Hs2). rewrite E2 in E2'. simplify_eq.
  rewrite Hq in Hs2, Hrem. rewrite E2, Hq. cbn [obind]. destruct Hrem as [Hd2 _].
  destruct (unref_core w2' sets (a :: refs) a refs None Hc2 (si_counted _ Hs2)) as (w3 & E3 & Hc3 & Hw3 & _ & He3 & Hv3); [done|done|].
  destruct (inv_unref w2' (a :: refs) refs sets gets clr a Hs2) as (w3' & E3' & Hs3); [done|done|]. rewrite E3 in E3'. simplify_eq.
  rewrite E3. cbn [obind]. exists w3'. split; [done|].
  destruct (find_spec w3' refs sets gets clr prm key Hs3 Hprm) as (r & w4 & E4 & Hr & _); [congruence|].
  assert (r = None) as ->; [|eauto]. destruct r as [b|]; [|done]. exfalso.
  destruct (proj1 (Hr b) eq_refl) as (Hcb & gb & Hgb & Hkb). destruct (counted_ref _ _ _ a Hw3 Ha) as [ga Hga].
  destruct (Hv3 a ga Hga) as (ga' & Hga' & Hva). rewrite Hd2, lookup_insert_eq in Hga'. injection Hga' as <-. injection Hva as Hva1 _ Hva2.
  assert (b = a) as ->. { apply (co_keys _ _ Hc3 b a gb ga key); [done|done|done|]. rewrite Hva1. cbn. congruence. }
  destruct (cached_live w3' sets a Hc3 Hcb) as (g3 & Hg3 & Hq3).
  cbn in Hva2. congruence.
Qed.

(** C22. What is put in is found: a request that has established a context adds it with
    [authgss_ctx_hash_set], which succeeds, and the next request with the context's handle
    gets that context; once [authgss_ctx_hash_del] has removed it, it gets none. *)
Theorem context_set_get_del s prm a g key :
  rtc cache_step sys_start s → params_ok prm → g_enabled (y_gss s) = true → few_refs (y_refs s) →
  a ∈ y_refs s → a ∉ y_sets s → g_data (y_gss s) !! a = Some g → gd_queued g = false → gd_ctx g = Some key →
  ∃ w1, authgss_ctx_hash_set prm (y_gss s) a = Ret (true, w1) ∧
    (∃ w2, authgss_ctx_hash_get prm w1 key = Ret (Some a, w2)) ∧
    ∃ w3, authgss_ctx_hash_del prm w1 None a = Ret (true, w3) ∧ ∃ w4, authgss_ctx_hash_get prm w3 key = Ret (None, w4).
Proof.
  intros Hr Hprm He Hf Ha Hns Hg Hq Hk. pose proof (reachable_inv s Hr) as Hs. destruct s as [w refs sets gets clr]. cbn in *.
  unfold authgss_ctx_hash_set. rewrite He. cbn [negb].
  destruct (inv_set_begin prm w refs sets gets clr a g key Hprm Hs Hf Hns Ha Hg Hq Hk) as (w0 & E0 & Hs0 & He0 & Hd0).
  rewrite E0. cbn [obind]. destruct (added_spec w0 refs sets gets clr a key Hs0) as (w1 & E1 & Hs1 & He1 & Hq1); [congruence| |].
  { rewrite Hd0, lookup_insert_eq. eexists. split; [done|exact Hk]. }
  exists w1. split; [done|]. split.
  - destruct (find_spec w1 refs sets gets clr prm key Hs1 Hprm He1) as (r & w2 & E2 & Hr2 & _).
    assert (Er : r = Some a) by (apply Hr2; destruct Hq1 as (g1 & Hg1 & Hq1 & Hk1); split; [exact (queued_cached _ _ _ _ (si_core _ Hs1) Hg1 Hq1)|eauto]).
    subst r. eauto.
  - by eapply removed_spec.
Qed.

(** Disabling RPCSEC_GSS forgets every context: once [svcauth_gss_set_status] has
    finished clearing, and until it is enabled again, every queue is empty, no handle
    finds a context, and a call of [authgss_ctx_hash_set] that had passed the first check
    before, and waited for the mutex, adds nothing. *)
Theorem disabled_cache_empty s :
  rtc cache_step sys_start s → g_enabled (y_gss s) = false → y_clearing s = None →
  let w := y_gss s in
  (∀ a, ¬ cached w a) ∧ hash_size (g_hash w) = 0 ∧
  (∀ prm key, authgss_ctx_hash_get prm w key = Ret (None, w) ∧ get_locked w key = Ret (None, w)) ∧
  (∀ prm a, authgss_ctx_hash_set prm w a = Ret (false, w)) ∧
  (∀ a, a ∈ y_sets s → ∃ w', set_locked w a = Ret (false, w') ∧ ∀ b, ¬ cached w' b).
Proof.
  intros Hr He Hcl w. pose proof (reachable_inv s Hr) as Hs. destruct s as [w' refs sets gets clr]. cbn in *. subst w clr.
  pose proof Hs as [Hc Hw Hn Hh _ Ho _]. cbn in *. assert (Hnone : ∀ a, ¬ cached w' a).
  { intros a [t Ht]. rewrite (Ho t He I) in Ht. by apply not_elem_of_nil in Ht. }
  split; [done|]. split; [|split; [|split]].
  - rewrite (co_size _ _ Hc). destruct (concat (lrus w')) as [|a l] eqn:El; [done|].
    exfalso. apply (Hnone a), concat_cached. rewrite El. by left.
  - intros prm key. unfold authgss_ctx_hash_get, get_locked. by rewrite He.
  - intros prm a. unfold authgss_ctx_hash_set. by rewrite He.
  - intros a Ha. destruct (counted_set w' sets refs a Hw Ha) as [g Hg]. pose proof Ha as (l1 & l2 & El)%list_elem_of_split.
    destruct (set_disabled_core w' sets (l1 ++ l2) refs a g Hc Hw He Hg) as (w2 & E & _ & _ & _ & Hlr).
    { rewrite El. by rewrite Permutation_middle. }
    { rewrite El in Hn. apply NoDup_app in Hn as (_ & H1 & [H2 _]%NoDup_cons). intros [Hin|Hin]%elem_of_app; [|done].
      apply (H1 a Hin). by left. }
    { by apply Hh. }
    exists w2. split; [done|]. intros b Hb. apply (Hnone b). rewrite <- concat_cached in *. by rewrite Hlr in Hb.
Qed.

(** ** Collection *)

(** From [l] to [l'] by taking entries from the front, each expired or over the limit. *)
Definition trimmed (expired : Z → bool) (limit : Z) (l l' : list Z) : Prop :=
  ∃ n, l' = drop n l ∧ (n ≤ length l)%nat ∧
    ∀ k a, (k < n)%nat → l !! k = Some a → expired a = true ∨ limit < u32 (Zlen l - Z.of_nat k).

Lemma trimmed_refl expired limit l : trimmed expired limit l l.
Proof. exists 0%nat. split; [done|]. split; [lia|lia]. Qed.

Lemma trimmed_trans expired limit l1 l2 l3 : trimmed expired limit l1 l2 → trimmed expired limit l2 l3 → trimmed expired limit l1 l3.
Proof.
  intros (n & -> & Hn & H1) (m & -> & Hm & H2). rewrite length_drop in Hm. exists (n + m)%nat. rewrite drop_drop.
  split; [done|]. split; [lia|]. intros k a Hk Ha. destruct (decide (k < n)%nat) as [Hkn|Hkn]; [by eapply H1|].
  replace k with (n + (k - n))%nat in Ha by lia. rewrite <- lookup_drop in Ha.
  destruct (H2 (k - n)%nat a) as [?|Hlt]; [lia|done|by left|right]. rewrite length_drop in Hlt.
  by replace (Zlen l1 - Z.of_nat k) with (Z.of_nat (length l1 - n) - Z.of_nat (k - n)) by lia.
Qed.

Lemma idle_next_inv w refs sets gets clr part w' :
  sys_inv (mk_gss_sys w refs sets gets clr) → IDLE_NEXT w = (part, w') → initialized (g_hash w) = true →
  sys_inv (mk_gss_sys w' refs sets gets clr) ∧ g_hash w' = g_hash w ∧ (Z.of_nat part < nparts w).
Proof.
  intros Hs [= <- <-] Hi. pose proof Hs as [Hc Hw Hn Hh Hg Ho Hcl]. cbn in *. split; [|split; [done|]].
  - eapply inv_same; [exact Hs|by eapply core_view; eauto; cbn; intros; simplify_eq|by eapply counted_ext|done|done|done|done|done].
  - pose proof (co_init _ _ Hc) as H. rewrite Hi in H. unfold part_of, rbtx_idx_of_scalar.
    pose proof (Z.mod_pos_bound (u32 (g_idle_next w + 1)) (nparts w)). lia.
Qed.

Lemma gc_loop_ok n : ∀ prm expired w refs sets gets clr part cnt,
  sys_inv (mk_gss_sys w refs sets gets clr) → initialized (g_hash w) = true → (Z.of_nat part < nparts w) →
  ∃ cnt' w', gc_loop n prm expired w part cnt = Ret (cnt', w') ∧ sys_inv (mk_gss_sys w' refs sets gets clr) ∧
    initialized (g_hash w') = true ∧ cnt' - cnt = Zlen (concat (lrus w)) - Zlen (concat (lrus w')) ∧
    cnt ≤ cnt' ≤ Z.max cnt (max_gc prm) ∧ max_part (g_hash w') = max_part (g_hash w) ∧
    ∀ t, trimmed expired (max_part (g_hash w)) (lru_at w t) (lru_at w' t).
Proof.
  induction n as [|n IH]; intros prm expired w refs sets gets clr part cnt Hs Hi Hp; cbn [gc_loop].
  { exists cnt, w. do 3 (split; [done|]). do 2 (split; [lia|]). split; [done|]. intros t. apply trimmed_refl. }
  destruct (Z.ltb_spec cnt (max_gc prm)) as [Hlt|Hge].
  2: { exists cnt, w. do 3 (split; [done|]). do 2 (split; [lia|]). split; [done|]. intros t. apply trimmed_refl. }
  destruct (inv_gc prm expired w refs sets gets clr part cnt Hs Hi Hp) as (k & w1 & E & Hs1 & [[Hi1 Hnp1 _] Hm1 Hl1 Hk Hc1 Hwhy _]).
  rewrite E. cbn [obind]. destruct (IDLE_NEXT w1) as [part' w2] eqn:En.
  destruct (idle_next_inv w1 refs sets gets clr part' w2 Hs1 En) as (Hs2 & Hh2 & Hp2); [congruence|].
  assert (El2 : lrus w2 = lrus w1) by (unfold lrus; by rewrite Hh2).
  destruct (IH prm expired w2 refs sets gets clr part' (cnt + Z.of_nat k) Hs2) as (cnt' & w' & E' & Hs' & Hi' & Hn' & Hb' & Hm' & Ht'); [congruence|congruence|].
  pose proof (si_core _ Hs) as Hc. destruct (part_queue w sets part Hc Hp) as [l Hl]. cbn in Hc.
  assert (El : lru_at w part = l) by (by rewrite lru_at_lrus, Hl). rewrite El in *.
  exists cnt', w'. split; [done|]. split; [done|]. split; [done|]. rewrite El2, Hl1 in Hn'.
  rewrite (concat_insert_length _ _ _ _ Hl), length_drop in Hn'. split; [lia|]. split; [lia|]. rewrite Hh2, Hm1 in *. split; [done|].
  intros t. eapply trimmed_trans; [|apply Ht']. rewrite !lru_at_lrus, El2, Hl1.
  destruct (decide (t = part)) as [->|Hne]; [|by rewrite list_lookup_insert_ne by done; apply trimmed_refl].
  rewrite list_lookup_insert_eq by (by eapply lookup_lt_Some). rewrite Hl. cbn. by exists k.
Qed.

(** Collection is bounded and fair to contexts in use: [authgss_ctx_gc_idle] returns after
    removing at most [max_gc] contexts, counts them, and takes them from each partition in
    the order of last use, only while the oldest has expired or the partition is over its
    limit. *)
Theorem gc_idle_bounded s prm expired :
  rtc cache_step sys_start s → params_ok prm →
  let w := y_gss s in
  ∃ cnt w', authgss_ctx_gc_idle prm expired w = Ret (cnt, w') ∧
    0 ≤ cnt ≤ Z.max 0 (max_gc prm) ∧ cnt = Zlen (concat (lrus w)) - Zlen (concat (lrus w')) ∧
    ∀ t, trimmed expired (max_part (g_hash w')) (lru_at w t) (lru_at w' t).
Proof.
  intros Hr Hprm w. pose proof (reachable_inv s Hr) as Hs. destruct s as [w0 refs sets gets clr]. cbn in *. subst w.
  destruct (inv_init prm w0 refs sets gets clr Hprm Hs) as (w1 & E & Hs1 & Hi & _ & _ & Hl). unfold authgss_ctx_gc_idle.
  rewrite E. cbn [obind]. destruct (IDLE_NEXT w1) as [part w2] eqn:En.
  destruct (idle_next_inv w1 refs sets gets clr part w2 Hs1 En Hi) as (Hs2 & Hh2 & Hp2).
  destruct (gc_loop_ok (Z.to_nat (nparts w2)) prm expired w2 refs sets gets clr part 0 Hs2) as
    (cnt & w3 & E3 & Hs3 & Hi3 & Hn & Hb & Hm & Ht); [congruence|congruence|].
  rewrite E3. cbn [obind]. destruct (IDLE_NEXT w3) as [part' w4] eqn:En4.
  destruct (idle_next_inv w3 refs sets gets clr part' w4 Hs3 En4 Hi3) as (_ & Hh4 & _).
  assert (Hlr4 : lrus w4 = lrus w3) by (unfold lrus; by rewrite Hh4). assert (Hlr2 : lrus w2 = lrus w1) by (unfold lrus; by rewrite Hh2).
  assert (Hcat : Zlen (concat (lrus w1)) = Zlen (concat (lrus w0))).
  { pose proof (si_core _ Hs) as Hc. cbn in Hc. destruct (init_core prm w0 sets Hprm Hc) as (w1' & E' & _ & _ & _ & _ & _ & Hl' & Hsame).
    rewrite E in E'. injection E' as <-. destruct (initialized (g_hash w0)) eqn:Hi0; [by rewrite (proj2 (Hsame eq_refl))|].
    pose proof (co_init _ _ Hc) as H. rewrite Hi0 in H. destruct H as (H & _ & _). unfold lrus at 2. rewrite H. cbn.
    destruct (concat (lrus w1)) as [|a l] eqn:El; [done|]. exfalso.
    assert (Ha : cached w1 a) by (apply concat_cached; rewrite El; by left). destruct Ha as [t Ha]. rewrite Hl' in Ha.
    unfold lru_at in Ha. rewrite H in Ha. by apply not_elem_of_nil in Ha. }
  exists cnt, w4. split; [done|]. split; [lia|]. split; [rewrite Hlr4, <- Hcat, <- Hlr2; lia|].
  intros t. rewrite Hh4, Hm. rewrite <- (Hl t). specialize (Ht t). by rewrite !lru_at_lrus, ?Hlr2, ?Hlr4 in *.
Qed.

(** ** A run *)

Definition demo_prm : gss_params := mk_gss_params 100 1 20.
Definition demo_key : Z * Z := (5, 7).
Definition demo1 : gss_sys := mk_gss_sys (alloc_svc_rpc_gss_data gss_state_start 16) [16] [] [] None.
Definition demo_gd : svc_rpc_gss_data := mk_gd 1 0 0 (Some demo_key) false false 0 GssWindow.gss_seq_zero 0.
Definition demo2 : gss_sys := mk_gss_sys (set_data (<[16 := demo_gd]> (g_data (y_gss demo1))) (y_gss demo1)) [16] [] [] None.
Definition demo_w3 : gss_state := match set_begin demo_prm (y_gss demo2) 16 with Ret w => w | _ => y_gss demo2 end.
Definition demo3 : gss_sys := mk_gss_sys demo_w3 [16] [16] [] None.
Definition demo_w4 : gss_state := match set_locked demo_w3 16 with Ret (_, w) => w | _ => demo_w3 end.
Definition demo4 : gss_sys := mk_gss_sys demo_w4 [16] [] [] None.
Definition demo_w5 : gss_state :=
  match authgss_hash_init demo_prm (set_enabled false demo_w4) with Ret w => w | _ => demo_w4 end.
Definition demo5 : gss_sys := mk_gss_sys demo_w5 [16] [] [] (Some 0%nat).
Definition demo_w6 : gss_state := match clear_part demo_w5 0 with Ret w => w | _ => demo_w5 end.
Definition demo6 : gss_sys :=
  mk_gss_sys demo_w6 [16] [] [] (if Z.of_nat 1 <? nparts demo_w5 then Some 1%nat else None).

Lemma demo_prm_ok : params_ok demo_prm.
Proof. by vm_compute. Qed.

Lemma demo2_reached : rtc cache_step sys_start demo2.
Proof.
  apply (rtc_l _ _ demo1); [by apply cs_alloc|]. apply rtc_once.
  refine (cs_accept (y_gss demo1) [16] [] [] None 16 (mk_gd 1 0 0 None false false 0 GssWindow.gss_seq_zero 0) demo_key _ _ _ _);
    [by left|done|done|].
  intros b gb Hb. change (g_data (y_gss demo1)) with (<[16 := mk_gd 1 0 0 None false false 0 GssWindow.gss_seq_zero 0]> (∅ : gmap Z svc_rpc_gss_data)) in Hb.
  apply lookup_insert_Some in Hb as [[_ <-]|[_ Hb]]; [done|by rewrite lookup_empty in Hb].
Qed.

Lemma demo4_reached : rtc cache_step sys_start demo4.
Proof.
  transitivity demo2; [apply demo2_reached|]. apply (rtc_l _ _ demo3).
  - refine (cs_set_begin demo_prm (y_gss demo2) demo_w3 [16] [] [] None 16 demo_gd demo_key demo_prm_ok _ _ _ _ _ _ _ _);
      [by left|by apply not_elem_of_nil|done|done|done|done|done|by vm_compute].
  - apply rtc_once. refine (cs_set demo_w3 demo_w4 [16] [16] [] [] None 16 true _ _); [done|by vm_compute].
Qed.

Lemma demo6_reached : rtc cache_step sys_start demo6.
Proof.
  transitivity demo4; [apply demo4_reached|]. apply (rtc_l _ _ demo5).
  - refine (cs_disable demo_prm demo_w4 demo_w5 [16] [] [] demo_prm_ok _ _); [done|by vm_compute].
  - apply rtc_once. refine (cs_clear demo_w5 demo_w6 [16] [] [] 0 _). by vm_compute.
Qed.

Lemma context_cache_safe_witness :
  rtc cache_step sys_start demo4 ∧ params_ok demo_prm ∧
  ((∃ g, g_data (y_gss demo4) !! 16 = Some g) ↔ 16 ∈ y_refs demo4 ∨ cached (y_gss demo4) 16).
Proof.
  split; [apply demo4_reached|]. split; [apply demo_prm_ok|].
  apply (context_cache_safe demo4 demo_prm (λ _, false) 0 0 demo4_reached demo_prm_ok).
Defined.

Lemma context_cache_finds_witness :
  rtc cache_step sys_start demo4 ∧ params_ok demo_prm ∧ g_enabled (y_gss demo4) = true ∧
  ∃ r w', authgss_ctx_hash_get demo_prm (y_gss demo4) demo_key = Ret (r, w') ∧ r = Some 16.
Proof.
  split; [apply demo4_reached|]. split; [apply demo_prm_ok|]. split; [done|].
  destruct (context_cache_finds demo4 demo_prm demo_key demo4_reached demo_prm_ok eq_refl) as (r & w' & E & H & _).
  exists r, w'. split; [exact E|]. apply H. split; [exists 0%nat; vm_compute; by left|]. exists (set_queued true (set_refcnt 2 (set_hk 12 demo_gd))).
  split; [vm_compute; reflexivity|reflexivity].
Defined.

Lemma context_set_get_del_witness :
  rtc cache_step sys_start demo2 ∧ params_ok demo_prm ∧ g_enabled (y_gss demo2) = true ∧
  ∃ w1, authgss_ctx_hash_set demo_prm (y_gss demo2) 16 = Ret (true, w1).
Proof.
  split; [apply demo2_reached|]. split; [apply demo_prm_ok|]. split; [done|].
  destruct (context_set_get_del demo2 demo_prm 16 demo_gd demo_key demo2_reached demo_prm_ok) as (w1 & E & _);
    [done|done|by left|by apply not_elem_of_nil|done|done|done|]. by exists w1.
Defined.

Lemma disabled_cache_empty_witness :
  rtc cache_step sys_start demo6 ∧ g_enabled (y_gss demo6) = false ∧ y_clearing demo6 = None ∧ ¬ cached (y_gss demo6) 16.
Proof.
  split; [apply demo6_reached|]. split; [by vm_compute|]. split; [by vm_compute|].
  apply (disabled_cache_empty demo6 demo6_reached); by vm_compute.
Defined.

Lemma gc_idle_bounded_witness :
  rtc cache_step sys_start demo4 ∧ params_ok demo_prm ∧
  ∃ cnt w', authgss_ctx_gc_idle demo_prm (λ _, true) (y_gss demo4) = Ret (cnt, w') ∧ 0 ≤ cnt ≤ Z.max 0 (max_gc demo_prm).
Proof.
  split; [apply demo4_reached|]. split; [apply demo_prm_ok|].
  destruct (gc_idle_bounded demo4 demo_prm (λ _, true) demo4_reached demo_prm_ok) as (cnt & w' & E & H & _).
  exists cnt, w'. split; [exact E|exact H].
Defined.
