(* ===== verification/SvcAuthGss.v ===== *)
(** * RPCSEC_GSS requests on the server ([_svcauth_gss] in src/svc_auth_gss.c)

    A request establishes a context, uses one or gives one up.  The handler finds the
    context in the cache (GssCache.v), checks the sequence number (GssWindow.v) and the
    signature of the header, and leaves a reference to the context with the request.  The
    GSS-API, the clock, the allocator and the transport are arguments: their answers
    during one call. *)
From stdpp Require Import base gmap list.
From Stdlib Require Import ZArith.
From S2P Require Import Prelude Machine XdrHandle XdrMem XdrInline XdrWire RpcMsg Protocols SvcAuthUnix SvcCallout SvcAuth RbTree RbTreeX GssWindow GssCache.

(** enum rpc_gss_proc and enum rpc_gss_service *)
Definition RPCSEC_GSS_DATA : Z := 0.
Definition RPCSEC_GSS_INIT : Z := 1.
Definition RPCSEC_GSS_CONTINUE_INIT : Z := 2.
Definition RPCSEC_GSS_DESTROY : Z := 3.
Definition RPCSEC_GSS_MAXPROC : Z := 3.
Definition RPCSEC_GSS_SVC_NONE : Z := 1.
Definition RPCSEC_GSS_SVC_INTEGRITY : Z := 2.
Definition RPCSEC_GSS_SVC_PRIVACY : Z := 3.
Definition RPCSEC_GSS_VERSION : Z := 1.
Definition RPCSEC_GSS_MAXSEQ : Z := 2147483648.

(** enum auth_stat *)
Definition AUTH_FAILED : Z := 7.
Definition RPCSEC_GSS_CREDPROBLEM : Z := 13.
Definition RPCSEC_GSS_CTXPROBLEM : Z := 14.

(** Of the GSS-API *)
Definition GSS_S_COMPLETE : Z := 0.
Definition GSS_S_CONTINUE_NEEDED : Z := 1.
Definition GSS_C_INDEFINITE : Z := 2 ^ 32 - 1.

Definition INDEF_EXPIRE : Z := 60 * 60 * 24.
Definition RPCHDR_LEN : Z := 10 * BYTES_PER_XDR_UNIT + MAX_AUTH_BYTES.

Record gss_answers := mk_answers {
  an_alloc : Z;                              (* the address of a new context *)
  an_now : Z;                                (* get_time_fast *)
  an_acquire : bool;                         (* svcauth_gss_acquire_cred *)
  an_unwrap : bool;                          (* the token could be decoded *)
  an_creds : bool;                           (* the server has credentials *)
  an_accept : Z * option (Z * Z) * Z;        (* gss_accept_sec_context: major, context, time *)
  an_display : bool;                         (* gss_display_name completed *)
  an_get_mic : option (Z * Z) → list Z → option (list Z);    (* gss_get_mic: context, text *)
  an_verify_mic : option (Z * Z) → list Z → list Z → bool;   (* gss_verify_mic: context, text, checksum *)
}.

(** The handle of a credential, read as the structure of two pointers it was made from. *)
Definition handle_key (value : ptr (list Z)) : out (Z * Z) :=
  match value with
  | Pobj bs =>
      if (length bs <? 16)%nat then Ub else
      Ret (be_dec (rev (take 8 bs)), be_dec (rev (take 8 (drop 8 bs))))
  | _ => Ub
  end.

Section Handler.
Context {R : Type}.
Implicit Types req : svc_req R.

(** The address of [cb_cred.oa_body]; the transport's reply routine; the results of a
    context-creation reply and of an empty one. *)
Variable addr : Z.
Variable SVC_REPLY : svc_req R → Z * svc_req R.
Variable init_results : Z → Z * Z → R.
Variable no_results : R.
Variable prm : gss_params.
Variable an : gss_answers.

Definition no_auth req : svc_req R :=
  mk_req (rq_msg req) None (area_aup req) (area_machname req) (area_gids req) (rq_tls req) (rq_ap1 req).
Definition set_ap1 v req : svc_req R :=
  mk_req (rq_msg req) (rq_auth req) (area_aup req) (area_machname req) (area_gids req) (rq_tls req) v.
Definition set_results v req : svc_req R :=
  set_msg (set_ack (set_ar_results v (RPCM_ack (rq_msg req))) (rq_msg req)) req.

(** The verifier of the reply becomes the checksum of [text]. *)
Definition sign_verf (ctx : option (Z * Z)) (text : list Z) req : out (bool * svc_req R) :=
  match an_get_mic an ctx text with
  | None => Ret (false, req)
  | Some checksum =>
      if MAX_AUTH_BYTES <? Zlen checksum then Ret (false, req) else
      let verf := set_length (Zlen checksum) (set_flavor RPCSEC_GSS (rq_verf req)) in
      let! body := overlay (oa_body verf) checksum in
      Ret (true, set_rq_verf (set_body body verf) req)
  end.

(** The callers pass the number in network order. *)
Definition svcauth_gss_nextverf (w : gss_state) req (gd num : Z) : out (bool * svc_req R) :=
  let! g := access (g_data w !! gd) in sign_verf (gd_ctx g) (be32 num) req.

Definition svcauth_gss_validate (w : gss_state) req (gd : Z) : out bool :=
  let! g := access (g_data w !! gd) in
  let m := rq_msg req in
  let oa := cb_cred m in
  if MAX_AUTH_BYTES <? oa_length oa then Ret false else
  let! body := access (if (Z.to_nat (oa_length oa) <=? length (oa_body oa))%nat
                       then Some (take (Z.to_nat (oa_length oa)) (oa_body oa)) else None) in
  let hdr := be32 (rm_xid m) ++ be32 (rm_direction m) ++ be32 (cb_rpcvers m) ++ be32 (cb_prog m) ++
             be32 (cb_vers m) ++ be32 (cb_proc m) ++ be32 (oa_flavor oa) ++ be32 (oa_length oa) ++ body in
  let! rpchdr := overlay (zeros RPCHDR_LEN) hdr in
  let rpcbuf := take (Z.to_nat (8 * BYTES_PER_XDR_UNIT + RNDUP (oa_length oa))) rpchdr in
  let! checksum := access (if (Z.to_nat (oa_length (cb_verf m)) <=? length (oa_body (cb_verf m)))%nat
                           then Some (take (Z.to_nat (oa_length (cb_verf m))) (oa_body (cb_verf m))) else None) in
  Ret (an_verify_mic an (gd_ctx g) rpcbuf checksum).

(** Returns the major status with the outcome. *)
Definition svcauth_gss_accept_sec_context (w : gss_state) req (gd : Z) (gc : rpc_gss_cred)
    : out (bool * Z * svc_req R * gss_state) :=
  if negb (an_unwrap an) then Ret (false, 0, req, w) else
  if negb (an_creds an) then Ret (false, 0, req, w) else
  let '(major, ctx, time_rec) := an_accept an in
  let! w := upd_gd w gd (set_ctx ctx) in
  if negb (major =? GSS_S_COMPLETE) && negb (major =? GSS_S_CONTINUE_NEEDED) then
    let! w := upd_gd w gd (set_ctx None) in Ret (false, major, req, w)
  else
  let! _ := access ctx in
  let time_rec := if time_rec =? GSS_C_INDEFINITE then INDEF_EXPIRE else time_rec in
  let time_rec := if 10 <? time_rec then time_rec - 5 else time_rec in
  let! w := upd_gd w gd (λ g, set_endtime (u32 (time_rec + an_now an)) (set_svc (gc_svc gc) g)) in
  if major =? GSS_S_COMPLETE then
    if negb (an_display an) then Ret (false, major, req, w) else
    let! (ok, req) := sign_verf ctx (be32 SVC_GSS_SEQ_WIN) req in
    Ret (ok, major, req, w)
  else Ret (true, major, req, w).

Definition send_reply_to_client req : bool * svc_req R :=
  let '(call_stat, req) := SVC_REPLY (set_msg (svc_sendreply (rq_msg req)) req) in
  (negb (XPRT_DIED <=? call_stat), req).

(** The result of the handler: status, request, whether to dispatch, contexts. *)
Abbreviation answer := (Z * svc_req R * bool * gss_state)%type.

Definition cred_free (gc : rpc_gss_cred) (rc : Z) req (no_dispatch : bool) (w : gss_state) : out answer :=
  let! _ := xdr_nfree MemPriv xdr_rpc_gss_cred gc in Ret (rc, req, no_dispatch, w).

(** From [gd_free]: the lock is released, and the reference unless the call succeeded. *)
Definition gd_free (gc : rpc_gss_cred) (gd rc : Z) req (no_dispatch : bool) (w : gss_state) : out answer :=
  if rc =? AUTH_OK then cred_free gc rc req no_dispatch w else
  let! w := unref_svc_rpc_gss_data w None gd in cred_free gc rc (no_auth req) no_dispatch w.

(** RPCSEC_GSS_INIT and RPCSEC_GSS_CONTINUE_INIT, with the lock of [gd] held. *)
Definition gss_init (gc : rpc_gss_cred) (gd : Z) req (no_dispatch : bool) (w : gss_state) : out answer :=
  let leave rc req no_dispatch w := gd_free gc gd rc req no_dispatch w in
  if negb (cb_proc (rq_msg req) =? NULLPROC) then leave AUTH_FAILED req no_dispatch w else
  if negb (g_enabled w) then leave AUTH_REJECTEDCRED req no_dispatch w else
  if negb (an_acquire an) then leave AUTH_FAILED req no_dispatch w else
  let! (res, major, req, w) := svcauth_gss_accept_sec_context w req gd gc in
  if negb res then leave AUTH_REJECTEDCRED req no_dispatch w else
  let! (ok, req) := svcauth_gss_nextverf w req gd SVC_GSS_SEQ_WIN in
  if negb ok then leave AUTH_FAILED req no_dispatch w else
  let! (_, w) := if major =? GSS_S_COMPLETE then authgss_ctx_hash_set prm w gd else Ret (false, w) in
  let! g := access (g_data w !! gd) in
  let! ctx := access (gd_ctx g) in
  let '(sent, req) := send_reply_to_client (set_results (init_results major ctx) req) in
  if negb sent then
    let! (_, w) := authgss_ctx_hash_del prm w (Some gd) gd in leave AUTH_FAILED req true w
  else
  let! w := if major =? GSS_S_COMPLETE then upd_gd w gd (set_established true) else Ret w in
  gd_free gc gd AUTH_OK req true w.

Definition gss_data (gc : rpc_gss_cred) (gd : Z) req (no_dispatch : bool) (w : gss_state) : out answer :=
  let! valid := svcauth_gss_validate w req gd in
  if negb valid then gd_free gc gd RPCSEC_GSS_CREDPROBLEM req no_dispatch w else
  let! (ok, req) := svcauth_gss_nextverf w req gd (gc_seq gc) in
  if negb ok then gd_free gc gd AUTH_FAILED req no_dispatch w else
  gd_free gc gd AUTH_OK req no_dispatch w.

Definition gss_destroy_proc (gc : rpc_gss_cred) (gd : Z) req (no_dispatch : bool) (w : gss_state) : out answer :=
  if negb (cb_proc (rq_msg req) =? NULLPROC) then gd_free gc gd AUTH_FAILED req no_dispatch w else
  let! valid := svcauth_gss_validate w req gd in
  if negb valid then gd_free gc gd RPCSEC_GSS_CREDPROBLEM req no_dispatch w else
  let! (ok, req) := svcauth_gss_nextverf w req gd (gc_seq gc) in
  if negb ok then gd_free gc gd AUTH_FAILED req no_dispatch w else
  let! (_, w) := authgss_ctx_hash_del prm w None gd in
  let '(_, req) := send_reply_to_client (set_results no_results req) in
  let! w := unref_svc_rpc_gss_data w None gd in
  cred_free gc AUTH_OK (set_auth svc_auth_none req) true w.

(** The control procedures, with the lock held. *)
Definition gss_proc (gc : rpc_gss_cred) (gd : Z) req (no_dispatch : bool) (w : gss_state) : out answer :=
  if (gc_proc gc =? RPCSEC_GSS_INIT) || (gc_proc gc =? RPCSEC_GSS_CONTINUE_INIT) then gss_init gc gd req no_dispatch w
  else if gc_proc gc =? RPCSEC_GSS_DATA then gss_data gc gd req no_dispatch w
  else if gc_proc gc =? RPCSEC_GSS_DESTROY then gss_destroy_proc gc gd req no_dispatch w
  else gd_free gc gd AUTH_REJECTEDCRED req no_dispatch w.

(** From taking the lock of [gd]. *)
Definition gss_dispatch (gc : rpc_gss_cred) (gd : Z) req (no_dispatch : bool) (w : gss_state) : out answer :=
  let! g := access (g_data w !! gd) in
  let req := set_auth (svc_auth_at gd) req in
  if gd_established g then
    if gd_endtime g <=? an_now an then gd_free gc gd RPCSEC_GSS_CREDPROBLEM req true w else
    let! (valid, seq) := svcauth_gss_is_seq_num_valid (gd_seq g) (gc_seq gc) in
    let! w := upd_gd w gd (set_seq seq) in
    if negb valid then gd_free gc gd AUTH_OK req true w
    else gss_proc gc gd (set_ap1 (gc_seq gc) req) false w
  else gss_proc gc gd req no_dispatch w.

(** The checks of a decoded credential, in the order of the code. *)
Definition cred_checks (gc : rpc_gss_cred) : Z :=
  if negb (gc_v gc =? RPCSEC_GSS_VERSION) then AUTH_BADCRED
  else if RPCSEC_GSS_MAXSEQ <? gc_seq gc then RPCSEC_GSS_CTXPROBLEM
  else if RPCSEC_GSS_MAXPROC <? u32 (gc_proc gc) then AUTH_BADCRED
  else if negb (gc_svc gc =? RPCSEC_GSS_SVC_NONE) && negb (gc_svc gc =? RPCSEC_GSS_SVC_INTEGRITY) &&
          negb (gc_svc gc =? RPCSEC_GSS_SVC_PRIVACY) then AUTH_BADCRED
  else AUTH_OK.

Definition _svcauth_gss (w : gss_state) req (no_dispatch : bool) : out answer :=
  let cred := cb_cred (rq_msg req) in
  if oa_length cred <=? 0 then Ret (AUTH_BADCRED, req, no_dispatch, w) else
  let! xdrs := xdrmem_ncreate (block addr (oa_body cred)) addr (oa_length cred) XDR_DECODE in
  let! (ok, gc, xdrs) := xdr_rpc_gss_cred xdrs (mk_rpc_gss_cred 0 0 0 0 (mk_gss_buffer Pnull 0)) in
  if negb ok then cred_free gc AUTH_BADCRED req no_dispatch w else
  let rc := cred_checks gc in
  if negb (rc =? AUTH_OK) then cred_free gc rc req no_dispatch w else
  if (gc_proc gc =? RPCSEC_GSS_DATA) || (gc_proc gc =? RPCSEC_GSS_DESTROY) then
    let! (gd, w) :=
      if g_enabled w then
        let! key := handle_key (gb_value (gc_ctx gc)) in authgss_ctx_hash_get prm w key
      else Ret (None, w) in
    match gd with
    | None => cred_free gc RPCSEC_GSS_CREDPROBLEM req no_dispatch w
    | Some gd =>
        let! w := upd_gd w gd (set_svc (gc_svc gc)) in
        gss_dispatch gc gd req no_dispatch w
    end
  else gss_dispatch gc (an_alloc an) req no_dispatch (alloc_svc_rpc_gss_data w (an_alloc an)).

(** [svcauth_gss_release], when a request is over. *)
Definition svcauth_gss_release (w : gss_state) req : out (svc_req R * gss_state) :=
  match rq_auth req with
  | Some (svc_auth_at gd) => let! w := unref_svc_rpc_gss_data w None gd in Ret (no_auth req, w)
  | Some svc_auth_none => Ret (no_auth req, w)
  | None => Ub
  end.
End Handler.
