(* ===== verification/SvcAuthGssFacts.v ===== *)
(** * The RPCSEC_GSS handler: what its parts do (src/svc_auth_gss.c)

    Credentials are read without fault; the text whose signature is checked is the call up
    to its verifier; and each control procedure returns, by steps of the system of
    GssCache.v, with the references it should leave. *)
From stdpp Require Import base gmap list sorting.
From Stdlib Require Import ZArith Lia.
From S2P Require Import Prelude Machine XdrHandle XdrStream XdrMem XdrInline XdrWire XdrCodecs XdrStruct RpcMsg Protocols ProtocolTheorems RpcMsgFacts SvcAuthUnix SvcCallout SvcAuth RbTree RbTreeX GssWindow GssCache GssCacheFacts GssCacheTheorems SvcAuthGss.

(** ** Credentials *)

Section Cred.
Context {P : Type} {O : XdrOps P} {I : XdrInput P} {W : XdrOutput P}.

Abbreviation unfreed gc := (gb_value (gc_ctx gc) ≠ Pfreed).

Lemma gss_buf_decoded m b0 :
  gb_value b0 = Pnull → decoded (xdr_rpc_gss_buf m) b0 (λ b _, gb_value b ≠ Pfreed) (λ b, gb_value b ≠ Pfreed).
Proof.
  intros H0 x l Hx. pose proof (cd_decoded (Codec := bytes_codec _ max_u32) (Pnull, 0) eq_refl x l Hx) as Hd.
  unfold xdr_rpc_gss_buf, xdr_rpc_gss_decode. unfold xdr_bytes in Hd. rewrite (in_at_decode _ _ _ Hx) in *. rewrite H0.
  destruct Hd as [([p n] & w & tl & x' & E & Hg & Er & Hx')|([p n] & x' & Hl & Er)]; rewrite Er; cbn.
  - left. eexists (mk_gss_buffer p n), w, tl, x'. split; [done|]. split; [|done]. cbn.
    by destruct Hg as [[[= -> _] _]|(bs & _ & [= -> _] & _)].
  - right. by eexists (mk_gss_buffer p (gb_length b0)), x'.
Qed.

(** A field of one word leaves the context handle alone. *)
Lemma cred_unit_decoded (f : xdrproc P Z) (dec : Z → Z) get set gc (S : rpc_gss_cred → list Z → Prop) :
  (∀ v0, decoded f v0 (λ v _, ∃ u, is_u 32 u ∧ v = dec u) (λ _, True)) →
  gc_ctx gc = mk_gss_buffer Pnull 0 → (∀ v r, gc_ctx (set v r) = gc_ctx r) →
  (∀ u w, is_u 32 u → S (set (dec u) gc) w) → decoded (xdr_field get set f) gc S (λ gc, unfreed gc).
Proof.
  intros Hf Hc Hs HS. eapply decoded_field; [apply Hf| |].
  - intros v w (u & Hu & ->). by apply HS.
  - intros v _. by rewrite Hs, Hc.
Qed.

Lemma cred_decoded :
  decoded (P := P) xdr_rpc_gss_cred gss_cred_zero (λ gc _, is_u 32 (gc_seq gc) ∧ unfreed gc) (λ gc, unfreed gc).
Proof.
  assert (Hu : ∀ v0, decoded (P := P) xdr_u_int32_t v0 (λ v _, ∃ u, is_u 32 u ∧ v = id u) (λ _, True)).
  { intros v0. eapply decoded_weaken; [by apply (cd_decoded (f := xdr_uint32_t) (S := uint32_spec))| |done].
    intros v w (u & Hu & _ & ->). by exists u. }
  assert (He : ∀ v0, decoded (P := P) xdr_enum v0 (λ v _, ∃ u, is_u 32 u ∧ v = s32 u) (λ _, True)).
  { intros v0. eapply decoded_weaken; [by apply (cd_decoded (f := xdr_enum) (S := int32_spec))| |done].
    intros v w (u & Hu' & _ & ->). by exists u. }
  unfold xdr_rpc_gss_cred. set (S1 := λ (gc : rpc_gss_cred) (_ : list Z), gc_ctx gc = mk_gss_buffer Pnull 0).
  set (S2 := λ (gc : rpc_gss_cred) (_ : list Z), is_u 32 (gc_seq gc) ∧ gc_ctx gc = mk_gss_buffer Pnull 0).
  eapply (decoded_and _ _ _ S1); [by eapply cred_unit_decoded; eauto|intros gc1 w1 H1].
  eapply (decoded_and _ _ _ S1); [by eapply cred_unit_decoded; eauto|intros gc2 w2 H2].
  eapply (decoded_and _ _ _ S2); [by eapply cred_unit_decoded; eauto|intros gc3 w3 [H3 H3']].
  eapply (decoded_and _ _ _ S2); [by eapply cred_unit_decoded; eauto|intros gc4 w4 [H4 H4']].
  eapply decoded_field; [apply gss_buf_decoded; by rewrite H4'|done|done].
Qed.

Lemma cred_freed (gc : rpc_gss_cred) (priv : P) : unfreed gc → ∃ r, xdr_nfree priv xdr_rpc_gss_cred gc = Ret r.
Proof.
  intros Hl. unfold xdr_nfree, xdr_rpc_gss_cred, xdr_and, xdr_field, xdr_u_int32_t, xdr_uint32_t, xdr_enum, xdr_rpc_gss_buf. cbn.
  destruct gc as [v p s sv [val n]], val; cbn in *; by eauto.
Qed.
End Cred.

(** The credential of a request, if it can be read. *)
Definition cred_of (addr : Z) (oa : opaque_auth) : option rpc_gss_cred :=
  match xdrmem_ncreate (block addr (oa_body oa)) addr (oa_length oa) XDR_DECODE with
  | Ret x => match xdr_rpc_gss_cred x gss_cred_zero with Ret (true, gc, _) => Some gc | _ => None end
  | _ => None
  end.

(** The areas of a message that has been received. *)
Definition area_ok (oa : opaque_auth) : Prop := auth_ok oa ∧ bytes (oa_body oa) ∧ 0 ≤ oa_length oa ≤ MAX_AUTH_BYTES.

Definition addr_ok (addr : Z) : Prop := addr mod 4 = 0 ∧ 0 < addr.

Lemma cred_read addr oa :
  addr_ok addr → area_ok oa →
  ∃ x b gc x', xdrmem_ncreate (block addr (oa_body oa)) addr (oa_length oa) XDR_DECODE = Ret x ∧
    xdr_rpc_gss_cred x gss_cred_zero = Ret (b, gc, x') ∧ gb_value (gc_ctx gc) ≠ Pfreed ∧
    cred_of addr oa = (if b : bool then Some gc else None) ∧ (b = true → is_u 32 (gc_seq gc)).
Proof.
  intros [Ha Hp] (Hok & Hb & Hl). red in Hok. unfold MAX_AUTH_BYTES in *. set (bs := take (Z.to_nat (oa_length oa)) (oa_body oa)).
  assert (El : length bs = Z.to_nat (oa_length oa)) by (unfold bs; rewrite length_take; lia).
  assert (Hld : load (block addr (oa_body oa)) addr (length bs) = Some bs).
  { pose proof (load_block addr (oa_body oa)) as Hld. rewrite <- (take_drop (Z.to_nat (oa_length oa)) (oa_body oa)) in Hld at 3.
    apply load_app_inv in Hld as [Hld _]; [done|]. rewrite <- length_app, take_drop. done. }
  destruct (xdrmem_ncreate_decode (block addr (oa_body oa)) addr bs) as (x & E & _ & Hx); [done|done|done|by apply Forall_take|].
  replace (Zlen bs) with (oa_length oa) in E by lia. unfold cred_of. rewrite E.
  assert (Hx' : in_at x 0 bs) by exact Hx.
  destruct (cred_decoded (P := mem_priv) x bs Hx') as [(gc & w & tl & x' & _ & [Hs Hf] & Er & _)|(gc & x' & Hf & Er)]; rewrite Er.
  - by exists x, true, gc, x'.
  - by exists x, false, gc, x'.
Qed.

(** ** The signature of the header *)

(** A call up to its verifier: what the client has signed. *)
Definition signed_header {R} (m : rpc_msg R) : list Z :=
  be32 (rm_xid m) ++ be32 (rm_direction m) ++ be32 (cb_rpcvers m) ++ be32 (cb_prog m) ++
  be32 (cb_vers m) ++ be32 (cb_proc m) ++ auth_wire (cb_cred m).

Lemma signed_header_wire {R} (m : rpc_msg R) : call_wire m = signed_header m ++ auth_wire (cb_verf m).
Proof. unfold call_wire, signed_header. by rewrite <- !app_assoc. Qed.

Definition verf_bytes {R} (m : rpc_msg R) : list Z := take (Z.to_nat (oa_length (cb_verf m))) (oa_body (cb_verf m)).

(** ** Steps of the system *)

(** The references there are once the handler has returned: one more if the request is
    left with the operations of a context. *)
Definition owned {R} (req : svc_req R) (refs : list Z) : list Z :=
  match rq_auth req with Some (svc_auth_at gd) => gd :: refs | _ => refs end.

Lemma upd_gd_ret w gd g f : g_data w !! gd = Some g → upd_gd w gd f = Ret (set_data (<[gd := f g]> (g_data w)) w).
Proof. intros Hg. unfold upd_gd. by rewrite Hg. Qed.

Lemma field_step w refs sets gets clr gd g g' :
  gd ∈ refs → g_data w !! gd = Some g →
  g' = set_established (gd_established g') (set_svc (gd_svc g') (set_endtime (gd_endtime g') g)) →
  cache_step (mk_gss_sys w refs sets gets clr) (mk_gss_sys (set_data (<[gd := g']> (g_data w)) w) refs sets gets clr).
Proof. intros Hr Hg ->. by apply cs_fields. Qed.

Lemma rtc_inv s s' : rtc cache_step s s' → sys_inv s → sys_inv s'.
Proof. induction 1 as [|? ? ? Hst _ IH]; [done|]. intros Hs. by eapply IH, cache_inv_step. Qed.

Lemma del_steps prm w refs sets gets clr gd :
  params_ok prm → sys_inv (mk_gss_sys w refs sets gets clr) → gd ∈ refs →
  ∃ b w', authgss_ctx_hash_del prm w None gd = Ret (b, w') ∧
    rtc cache_step (mk_gss_sys w refs sets gets clr) (mk_gss_sys w' refs sets gets clr).
Proof.
  intros Hprm Hs Hr. unfold authgss_ctx_hash_del.
  destruct (inv_init prm w refs sets gets clr Hprm Hs) as (w1 & E1 & Hs1 & Hi & _). rewrite E1. cbn [obind].
  destruct (inv_del w1 refs sets gets clr gd Hs1 Hi Hr) as (b & w2 & E2 & Hs2). rewrite E2. cbn [obind].
  assert (Hst : cache_step (mk_gss_sys w refs sets gets clr) (mk_gss_sys w2 (if b then gd :: refs else refs) sets gets clr))
    by (by eapply cs_del). destruct b; [|exists false, w2; split; [done|by apply rtc_once]].
  destruct (inv_unref w2 (gd :: refs) refs sets gets clr gd Hs2) as (w3 & E3 & _); [done|done|]. rewrite E3. cbn [obind].
  exists true, w3. split; [done|]. eapply rtc_l; [exact Hst|]. apply rtc_once. by eapply cs_unref.
Qed.

Lemma set_steps prm w refs sets gets clr gd g key :
  params_ok prm → sys_inv (mk_gss_sys w refs sets gets clr) → few_refs refs → gd ∉ sets → gd ∈ refs →
  g_data w !! gd = Some g → gd_queued g = false → gd_ctx g = Some key → g_enabled w = true →
  ∃ w', authgss_ctx_hash_set prm w gd = Ret (true, w') ∧ g_enabled w' = true ∧
    rtc cache_step (mk_gss_sys w refs sets gets clr) (mk_gss_sys w' refs sets gets clr) ∧
    ∃ g', g_data w' !! gd = Some g' ∧ gd_queued g' = true ∧ gd_ctx g' = Some key ∧ gd_endtime g' = gd_endtime g.
Proof.
  intros Hprm Hs Hf Hns Hr Hg Hq Hk He. unfold authgss_ctx_hash_set. rewrite He. cbn [negb].
  destruct (inv_set_begin prm w refs sets gets clr gd g key Hprm Hs Hf Hns Hr Hg Hq Hk) as (w0 & E0 & Hs0 & He0 & Hd0).
  rewrite E0. cbn [obind]. pose proof Hs0 as [Hc0 _ _ _ _ _ _]. cbn in Hc0.
  assert (Hi : initialized (g_hash w0) = true).
  { pose proof (co_init _ _ Hc0) as Hi. destruct (initialized (g_hash w0)); [done|]. by destruct Hi as (_ & ? & _). }
  destruct (insert_core w0 (gd :: sets) sets gd (set_refcnt (u32 (gd_refcnt g + 1)) (set_hk (hash_of key) g)) Hc0 Hi) as
    (w1 & l & E1 & _ & [_ _ He1] & Hd1 & _); [congruence|by rewrite Hd0, lookup_insert_eq|done|done|].
  exists w1. split; [done|]. split; [congruence|]. split.
  - eapply rtc_l; [by eapply cs_set_begin|]. apply rtc_once. by eapply cs_set.
  - rewrite Hd1, lookup_insert_eq. by eexists.
Qed.

(** The GSS-API gives a context a handle that no live context has. *)
Definition fresh_handle (an : gss_answers) (w : gss_state) : Prop :=
  let '(major, ctx, _) := an_accept an in
  major = GSS_S_COMPLETE ∨ major = GSS_S_CONTINUE_NEEDED →
  ∃ key, ctx = Some key ∧ ∀ b gb, g_data w !! b = Some gb → gd_ctx gb ≠ Some key.

Lemma fresh_alloc an w : fresh_handle an w → fresh_handle an (alloc_svc_rpc_gss_data w (an_alloc an)).
Proof.
  unfold fresh_handle. destruct (an_accept an) as [[major ctx] ti]. intros Hfr Hm. destruct (Hfr Hm) as (key & -> & Hkey).
  exists key. split; [done|]. intros b gb. cbn. destruct (decide (b = an_alloc an)) as [->|Hb].
  - rewrite lookup_insert_eq. by intros [= <-].
  - rewrite lookup_insert_ne by done. apply Hkey.
Qed.

(** When a context ends that the GSS-API grants for [t] seconds. *)
Definition expiry (an : gss_answers) (t : Z) : Z :=
  let t := if t =? GSS_C_INDEFINITE then INDEF_EXPIRE else t in
  u32 ((if 10 <? t then t - 5 else t) + an_now an).

(** The transport sends replies, and leaves the operations of the request alone. *)
Record replies {R} (SVC_REPLY : svc_req R → Z * svc_req R) : Prop := {
  re_auth r : rq_auth (SVC_REPLY r).2 = rq_auth r;
  re_sent r : (SVC_REPLY r).1 < XPRT_DIED;
}.

(** A context that serves requests until [endtime]. *)
Definition serving (w : gss_state) (gd : Z) (key : Z * Z) (endtime : Z) : Prop :=
  ∃ g, g_data w !! gd = Some g ∧ gd_queued g = true ∧ gd_ctx g = Some key ∧ gd_established g = true ∧ gd_endtime g = endtime.

(** A request as it has been received. *)
Record received {R} (req : svc_req R) : Prop := {
  rc_cred : area_ok (cb_cred (rq_msg req));
  rc_verf : area_ok (cb_verf (rq_msg req));
  rc_reply : auth_ok (rq_verf req);
}.

Lemma get_steps prm w refs sets gets clr key :
  params_ok prm → sys_inv (mk_gss_sys w refs sets gets clr) → few_refs refs → g_enabled w = true →
  ∃ r w', authgss_ctx_hash_get prm w key = Ret (r, w') ∧ g_enabled w' = true ∧
    rtc cache_step (mk_gss_sys w refs sets gets clr) (mk_gss_sys w' (match r with Some gd => gd :: refs | None => refs end) sets gets clr) ∧
    match r with
    | Some a => ∃ g, g_data w !! a = Some g ∧ gd_queued g = true ∧ gd_ctx g = Some key ∧
        g_data w' = <[a := set_gd_gen (u32 (gd_gen g + 1)) (set_refcnt (u32 (gd_refcnt g + 1)) g)]> (g_data w)
    | None => ∀ a g, g_data w !! a = Some g → gd_queued g = true → gd_ctx g ≠ Some key
    end.
Proof.
  intros Hprm Hs Hf He. unfold authgss_ctx_hash_get. rewrite He. cbn [negb].
  destruct (inv_init prm w refs sets gets clr Hprm Hs) as (w1 & E1 & Hs1 & Hi & Hd & He1 & _). rewrite E1. cbn [obind].
  pose proof Hs1 as [Hc1 _ _ _ _ _ _]. cbn in Hc1.
  destruct (get_core w1 sets key Hc1 Hi) as (r & w2 & E2 & _ & [_ _ He2] & _ & Hr); [congruence|]. exists r, w2. split; [done|].
  split; [congruence|]. split.
  - eapply rtc_l; [by apply (cs_get_begin prm w w1 refs sets gets clr key)|]. apply rtc_once. by eapply cs_get.
  - destruct r as [a|]; rewrite Hd in Hr.
    + destruct Hr as (g & l & Ha & Hq & Hk & Hd' & _). by exists g.
    + by destruct Hr as (_ & _ & Hr).
Qed.

Section Handler.
Context {R : Type} (SVC_REPLY : svc_req R → Z * svc_req R) (init_results : Z → Z * Z → R) (no_results : R).
Context (prm : gss_params) (an : gss_answers).
Implicit Types req : svc_req R.

Lemma validate_spec w req gd g :
  area_ok (cb_cred (rq_msg req)) → area_ok (cb_verf (rq_msg req)) → g_data w !! gd = Some g →
  svcauth_gss_validate an w req gd = Ret (an_verify_mic an (gd_ctx g) (signed_header (rq_msg req)) (verf_bytes (rq_msg req))).
Proof.
  intros (Hok & _ & Hl) (Hokv & _ & Hlv) Hg. unfold svcauth_gss_validate. rewrite Hg. cbn [access obind].
  red in Hok, Hokv. unfold MAX_AUTH_BYTES in *. set (m := rq_msg req) in *. set (oa := cb_cred m) in *.
  rewrite (proj2 (Z.ltb_ge _ _)) by lia. rewrite (proj2 (Nat.leb_le _ _)) by lia. cbn [access obind].
  set (body := take (Z.to_nat (oa_length oa)) (oa_body oa)). assert (Eb : length body = Z.to_nat (oa_length oa)) by (unfold body; rewrite length_take; lia).
  set (hdr := be32 (rm_xid m) ++ _). assert (Eh : length hdr = (32 + Z.to_nat (oa_length oa))%nat).
  { unfold hdr. rewrite !length_app, Eb, !be32_length. lia. }
  unfold overlay. unfold zeros at 1. rewrite length_replicate. change (Z.to_nat RPCHDR_LEN) with 440%nat.
  rewrite (proj2 (Nat.leb_le (length hdr) _)) by lia. cbn [obind]. rewrite (proj2 (Nat.leb_le _ _)) by lia. cbn [access obind].
  do 2 f_equal. unfold zeros. change (Z.to_nat RPCHDR_LEN) with 440%nat. rewrite drop_replicate, RNDUP_spec by lia.
  change (8 * BYTES_PER_XDR_UNIT) with 32. rewrite take_app_ge by lia. rewrite take_replicate, Eh.
  unfold signed_header, auth_wire, pad_wire. fold m oa body. unfold hdr. rewrite <- !app_assoc. do 8 f_equal.
  unfold zeros, padn. rewrite Eb. do 2 f_equal. lia.
Qed.

(** The reply carries a checksum that the GSS-API made for the context. *)
Definition signed (ctx : option (Z * Z)) (text : list Z) (oa : opaque_auth) : Prop :=
  ∃ sum, an_get_mic an ctx text = Some sum ∧ oa_flavor oa = RPCSEC_GSS ∧ oa_length oa = Zlen sum ∧
    Zlen sum ≤ MAX_AUTH_BYTES ∧ take (length sum) (oa_body oa) = sum.

(** There is a checksum and it fits the verifier. *)
Definition signs (ctx : option (Z * Z)) (text : list Z) : bool :=
  match an_get_mic an ctx text with Some sum => Zlen sum <=? MAX_AUTH_BYTES | None => false end.

Lemma sign_verf_spec ctx text req :
  auth_ok (rq_verf req) →
  ∃ req', sign_verf an ctx text req = Ret (signs ctx text, req') ∧
    (signs ctx text = false → req' = req) ∧
    (signs ctx text = true → ∃ v, req' = set_rq_verf v req ∧ auth_ok v ∧ signed ctx text v).
Proof.
  unfold sign_verf, signs, signed, auth_ok. intros Hok. destruct (an_get_mic an ctx text) as [sum|] eqn:E; [|by exists req].
  destruct (Z.ltb_spec MAX_AUTH_BYTES (Zlen sum)) as [Hlt|Hle].
  { exists req. rewrite (proj2 (Z.leb_gt _ _)) by done. done. }
  rewrite (proj2 (Z.leb_le _ _)) by done. unfold overlay. cbn [oa_body set_length set_flavor].
  rewrite (proj2 (Nat.leb_le _ _)) by lia. cbn [obind]. eexists. split; [done|]. split; [done|]. intros _.
  eexists. split; [done|]. cbn. rewrite length_app, length_drop. split; [lia|]. exists sum.
  do 4 (split; [done|]). by rewrite take_app_length.
Qed.

(** ** Leaving the handler *)

Lemma cred_free_eq gc rc req nd w :
  gb_value (gc_ctx gc) ≠ Pfreed → cred_free gc rc req nd w = Ret (rc, req, nd, w).
Proof. intros Hl. unfold cred_free. by destruct (cred_freed gc MemPriv Hl) as [r ->]. Qed.

(** The request keeps the reference if it is accepted and drops it if not. *)
Lemma gd_free_eq gc gd rc req nd w refs sets gets clr :
  gb_value (gc_ctx gc) ≠ Pfreed → sys_inv (mk_gss_sys w (gd :: refs) sets gets clr) → (gd ∈ sets → gd ∈ refs) →
  rq_auth req = Some (svc_auth_at gd) →
  ∃ w', gd_free gc gd rc req nd w = Ret (rc, (if rc =? AUTH_OK then req else no_auth req), nd, w') ∧
    rtc cache_step (mk_gss_sys w (gd :: refs) sets gets clr)
      (mk_gss_sys w' (owned (if rc =? AUTH_OK then req else no_auth req) refs) sets gets clr) ∧
    (rc = AUTH_OK → w' = w).
Proof.
  intros Hl Hs Hk Ha. unfold gd_free. destruct (Z.eqb_spec rc AUTH_OK) as [->|Hne].
  - exists w. rewrite cred_free_eq by done. unfold owned. rewrite Ha. split; [done|]. split; [apply rtc_refl|done].
  - destruct (inv_unref w (gd :: refs) refs sets gets clr gd Hs) as (w' & E & _); [done|done|]. rewrite E. cbn [obind].
    exists w'. rewrite cred_free_eq by done. split; [done|]. split; [|done]. apply rtc_once. by eapply cs_unref.
Qed.

(** [m] returns, by steps of the system, and leaves the references it should. *)
Definition leads (s : gss_sys) (refs : list Z) (m : out (Z * svc_req R * bool * gss_state)) : Prop :=
  ∃ rc req nd w, m = Ret (rc, req, nd, w) ∧
    rtc cache_step s (mk_gss_sys w (owned req refs) (y_sets s) (y_gets s) (y_clearing s)).

Lemma leads_steps w w' refs refs' base sets gets clr m :
  rtc cache_step (mk_gss_sys w refs sets gets clr) (mk_gss_sys w' refs' sets gets clr) →
  leads (mk_gss_sys w' refs' sets gets clr) base m → leads (mk_gss_sys w refs sets gets clr) base m.
Proof. intros Hst (rc & req & nd & w2 & E & Hst2). exists rc, req, nd, w2. split; [done|]. by etransitivity. Qed.

Lemma gd_free_leads gc gd rc req nd w refs sets gets clr :
  gb_value (gc_ctx gc) ≠ Pfreed → sys_inv (mk_gss_sys w (gd :: refs) sets gets clr) → (gd ∈ sets → gd ∈ refs) →
  rq_auth req = Some (svc_auth_at gd) → leads (mk_gss_sys w (gd :: refs) sets gets clr) refs (gd_free gc gd rc req nd w).
Proof.
  intros Hl Hs Hk Ha. destruct (gd_free_eq gc gd rc req nd w refs sets gets clr Hl Hs Hk Ha) as (w' & E & Hst & _).
  by eexists _, _, _, w'.
Qed.

(** ** Data *)

(** How a request for data under the context [g] is answered once its sequence number has
    been accepted. *)
Definition data_code (g : svc_rpc_gss_data) (gc : rpc_gss_cred) (m : rpc_msg R) : Z :=
  if negb (an_verify_mic an (gd_ctx g) (signed_header m) (verf_bytes m)) then RPCSEC_GSS_CREDPROBLEM
  else if negb (signs (gd_ctx g) (be32 (gc_seq gc))) then AUTH_FAILED else AUTH_OK.

Lemma data_eq gc gd req nd w g :
  area_ok (cb_cred (rq_msg req)) → area_ok (cb_verf (rq_msg req)) → auth_ok (rq_verf req) → g_data w !! gd = Some g →
  ∃ req', gss_data an gc gd req nd w = gd_free gc gd (data_code g gc (rq_msg req)) req' nd w ∧
    rq_auth req' = rq_auth req ∧
    (data_code g gc (rq_msg req) = AUTH_OK → ∃ v, req' = set_rq_verf v req ∧ signed (gd_ctx g) (be32 (gc_seq gc)) v).
Proof.
  intros Hc Hv Hr Hg. unfold gss_data. rewrite (validate_spec w req gd g) by done. cbn [obind]. unfold data_code.
  destruct (an_verify_mic an _ _ _); cbn [negb]; [|by exists req].
  unfold svcauth_gss_nextverf. rewrite Hg. cbn [access obind].
  destruct (sign_verf_spec (gd_ctx g) (be32 (gc_seq gc)) req Hr) as (req' & E & Hno & Hyes). rewrite E. cbn [obind].
  exists req'. destruct (signs _ _); cbn [negb].
  - destruct (Hyes eq_refl) as (v & -> & _ & Hs). split; [done|]. split; [done|]. intros _. by exists v.
  - rewrite Hno by done. done.
Qed.

(** ** Giving a context up *)

Lemma destroy_runs gc gd req nd w refs sets gets clr g :
  params_ok prm → gb_value (gc_ctx gc) ≠ Pfreed → sys_inv (mk_gss_sys w (gd :: refs) sets gets clr) → (gd ∈ sets → gd ∈ refs) →
  area_ok (cb_cred (rq_msg req)) → area_ok (cb_verf (rq_msg req)) → auth_ok (rq_verf req) → g_data w !! gd = Some g →
  rq_auth req = Some (svc_auth_at gd) →
  leads (mk_gss_sys w (gd :: refs) sets gets clr) refs (gss_destroy_proc SVC_REPLY no_results prm an gc gd req nd w).
Proof.
  intros Hprm Hl Hs Hk Hc Hv Hr Hg Ha. unfold gss_destroy_proc.
  destruct (cb_proc (rq_msg req) =? NULLPROC); cbn [negb]; [|by apply gd_free_leads].
  rewrite (validate_spec w req gd g) by done. cbn [obind]. destruct (an_verify_mic an _ _ _); cbn [negb]; [|by apply gd_free_leads].
  unfold svcauth_gss_nextverf. rewrite Hg. cbn [access obind].
  destruct (sign_verf_spec (gd_ctx g) (be32 (gc_seq gc)) req Hr) as (req' & E & Hno & Hyes). rewrite E. cbn [obind].
  destruct (signs _ _); cbn [negb]; [|rewrite Hno by done; by apply gd_free_leads].
  destruct (del_steps prm w (gd :: refs) sets gets clr gd Hprm Hs) as (b & w1 & E1 & Hst1); [by left|]. rewrite E1. cbn [obind].
  destruct (send_reply_to_client _ _) as [sent req1]. assert (Hs1 := rtc_inv _ _ Hst1 Hs).
  destruct (inv_unref w1 (gd :: refs) refs sets gets clr gd Hs1) as (w2 & E2 & _); [done|done|]. rewrite E2. cbn [obind].
  rewrite cred_free_eq by done. eexists _, _, _, w2. split; [done|]. cbn. etransitivity; [exact Hst1|]. apply rtc_once. by eapply cs_unref.
Qed.

(** ** Establishing a context *)

Definition accepts : bool :=
  let '(major, ctx, _) := an_accept an in
  an_unwrap an && an_creds an && ((major =? GSS_S_COMPLETE) || (major =? GSS_S_CONTINUE_NEEDED)) &&
  (negb (major =? GSS_S_COMPLETE) || an_display an && signs ctx (be32 SVC_GSS_SEQ_WIN)).

Lemma accept_spec w req gd gc g refs sets gets clr :
  fresh_handle an w → gd ∈ refs → g_data w !! gd = Some g → gd_ctx g = None → auth_ok (rq_verf req) →
  ∃ major req' w', svcauth_gss_accept_sec_context an w req gd gc = Ret (accepts, major, req', w') ∧
    rq_auth req' = rq_auth req ∧ auth_ok (rq_verf req') ∧ g_enabled w' = g_enabled w ∧
    rtc cache_step (mk_gss_sys w refs sets gets clr) (mk_gss_sys w' refs sets gets clr) ∧
    (accepts = true → ∃ key t, an_accept an = (major, Some key, t) ∧
       g_data w' = <[gd := set_endtime (expiry an t) (set_svc (gc_svc gc) (set_ctx (Some key) g))]> (g_data w)).
Proof.
  intros Hao Hr Hg Hx Hok. unfold svcauth_gss_accept_sec_context, accepts, fresh_handle in *.
  destruct (an_accept an) as [[major ctx] t] eqn:Ea.
  destruct (an_unwrap an); cbn [negb andb]; [|exists 0, req, w; do 4 (split; [done|]); split; [apply rtc_refl|done]].
  destruct (an_creds an); cbn [negb andb]; [|exists 0, req, w; do 4 (split; [done|]); split; [apply rtc_refl|done]].
  rewrite (upd_gd_ret w gd g) by done. cbn [obind]. rewrite <- negb_orb.
  destruct ((major =? GSS_S_COMPLETE) || (major =? GSS_S_CONTINUE_NEEDED)) eqn:Em; cbn [negb andb].
  2: { rewrite (upd_gd_ret _ gd (set_ctx ctx g)) by (cbn; by rewrite lookup_insert_eq). cbn [obind].
    exists major, req. eexists. split; [done|]. do 3 (split; [done|]). split; [|done]. cbn. rewrite insert_insert_eq, insert_id; [|by rewrite Hg, <- Hx; destruct g].
    destruct w. apply rtc_refl. }
  destruct Hao as (key & -> & Hkey). { apply orb_prop in Em as [?%Z.eqb_eq|?%Z.eqb_eq]; auto. }
  cbn [access obind]. set (g1 := set_ctx (Some key) g). rewrite (upd_gd_ret _ gd g1) by (cbn; by rewrite lookup_insert_eq). cbn [obind].
  fold (expiry an t). set (w1 := set_data (<[gd := g1]> (g_data w)) w). set (g2 := set_endtime (expiry an t) (set_svc (gc_svc gc) g1)).
  set (w2 := set_data (<[gd := g2]> (g_data w1)) w1).
  assert (Hst : rtc cache_step (mk_gss_sys w refs sets gets clr) (mk_gss_sys w2 refs sets gets clr)).
  { eapply rtc_l; [by apply (cs_accept w refs sets gets clr gd g key)|]. apply rtc_once.
    apply (field_step w1 refs sets gets clr gd g1 g2); [done|by apply lookup_insert_eq|done]. }
  assert (Hd : g_data w2 = <[gd := g2]> (g_data w)) by (cbn; by rewrite insert_insert_eq).
  destruct (major =? GSS_S_COMPLETE); cbn [negb orb]; [|exists major, req, w2; do 4 (split; [done|]); split; [done|]; intros _; by exists key, t].
  destruct (an_display an); cbn [negb andb]; [|exists major, req, w2; do 4 (split; [done|]); by split].
  destruct (sign_verf_spec (Some key) (be32 SVC_GSS_SEQ_WIN) req Hok) as (req' & E & Hno & Hyes). rewrite E. cbn [obind].
  exists major, req', w2. split; [done|]. destruct (signs _ _).
  - destruct (Hyes eq_refl) as (v & -> & Hv & _). split; [done|]. split; [exact Hv|]. split; [done|]. split; [done|]. intros _. by exists key, t.
  - rewrite Hno by done. do 3 (split; [done|]). by split.
Qed.

Lemma send_eq req : replies SVC_REPLY →
  ∃ req', send_reply_to_client SVC_REPLY req = (true, req') ∧ rq_auth req' = rq_auth req.
Proof.
  intros [Ha Hs]. unfold send_reply_to_client. specialize (Ha (set_msg (svc_sendreply (rq_msg req)) req)).
  specialize (Hs (set_msg (svc_sendreply (rq_msg req)) req)). destruct (SVC_REPLY _) as [st req']. cbn in *.
  rewrite (proj2 (Z.leb_gt _ _)) by done. by exists req'.
Qed.

(** With the reply sent, a context that the GSS-API completed is in the cache. *)
Lemma init_done gc gd req w refs sets gets clr g major key :
  params_ok prm → gb_value (gc_ctx gc) ≠ Pfreed → sys_inv (mk_gss_sys w (gd :: refs) sets gets clr) → few_refs (gd :: refs) →
  gd ∉ sets → g_data w !! gd = Some g → gd_queued g = false → gd_ctx g = Some key → g_enabled w = true →
  rq_auth req = Some (svc_auth_at gd) →
  ∃ w1 w2, (if major =? GSS_S_COMPLETE then authgss_ctx_hash_set prm w gd else Ret (false, w)) = Ret (major =? GSS_S_COMPLETE, w1) ∧
    (∃ g1, g_data w1 !! gd = Some g1 ∧ gd_ctx g1 = Some key) ∧
    (if major =? GSS_S_COMPLETE then upd_gd w1 gd (set_established true) else Ret w1) = Ret w2 ∧
    gd_free gc gd AUTH_OK req true w2 = Ret (AUTH_OK, req, true, w2) ∧
    rtc cache_step (mk_gss_sys w (gd :: refs) sets gets clr) (mk_gss_sys w2 (owned req refs) sets gets clr) ∧
    (major = GSS_S_COMPLETE → serving w2 gd key (gd_endtime g)) ∧ g_enabled w2 = true.
Proof.
  intros Hprm Hl Hs Hf Hns Hg Hq Hk He Ha.
  assert (Hout : ∀ w2, gd_free gc gd AUTH_OK req true w2 = Ret (AUTH_OK, req, true, w2)) by (intros w2; by apply cred_free_eq).
  unfold owned. rewrite Ha. destruct (Z.eqb_spec major GSS_S_COMPLETE) as [->|Hne].
  2: { exists w, w. do 4 (split; [by eauto|]). split; [apply rtc_refl|done]. }
  destruct (set_steps prm w (gd :: refs) sets gets clr gd g key Hprm Hs Hf Hns) as (w1 & E1 & He1 & Hst & g1 & Hg1 & Hq1 & Hk1 & Ht1);
    [by left|done..|]. rewrite E1. exists w1. eexists. split; [done|]. split; [by eauto|]. rewrite (upd_gd_ret w1 gd g1) by done.
  split; [done|]. split; [done|]. split.
  - etransitivity; [exact Hst|]. apply rtc_once. apply (field_step w1 (gd :: refs) sets gets clr gd g1); [by left|done|done].
  - split; [|done]. intros _. eexists. split; [by apply lookup_insert_eq|]. done.
Qed.

(** Up to the reply. *)
Lemma init_accepted gc gd req nd w refs sets gets clr g :
  fresh_handle an w → sys_inv (mk_gss_sys w (gd :: refs) sets gets clr) →
  g_data w !! gd = Some g → gd_ctx g = None → auth_ok (rq_verf req) → rq_auth req = Some (svc_auth_at gd) →
  cb_proc (rq_msg req) = NULLPROC → g_enabled w = true → an_acquire an = true → accepts = true →
  ∃ major key t req1 w1 g1, an_accept an = (major, Some key, t) ∧
    g_data w1 !! gd = Some g1 ∧ gd_ctx g1 = Some key ∧ gd_endtime g1 = expiry an t ∧ gd_queued g1 = gd_queued g ∧ g_enabled w1 = true ∧
    rq_auth req1 = Some (svc_auth_at gd) ∧
    rtc cache_step (mk_gss_sys w (gd :: refs) sets gets clr) (mk_gss_sys w1 (gd :: refs) sets gets clr) ∧
    gss_init SVC_REPLY init_results prm an gc gd req nd w =
     (if negb (signs (Some key) (be32 SVC_GSS_SEQ_WIN)) then gd_free gc gd AUTH_FAILED req1 nd w1 else
      let! (_, w) := if major =? GSS_S_COMPLETE then authgss_ctx_hash_set prm w1 gd else Ret (false, w1) in
      let! g := access (g_data w !! gd) in
      let! ctx := access (gd_ctx g) in
      let '(sent, req) := send_reply_to_client SVC_REPLY (set_results (init_results major ctx) req1) in
      if negb sent then
        let! (_, w) := authgss_ctx_hash_del prm w (Some gd) gd in gd_free gc gd AUTH_FAILED req true w
      else
      let! w := if major =? GSS_S_COMPLETE then upd_gd w gd (set_established true) else Ret w in
      gd_free gc gd AUTH_OK req true w).
Proof.
  intros Hfr Hs Hg Hx Hok Ha Hp He Hac Hacc. unfold gss_init. rewrite Hp, He, Hac. cbn [negb Z.eqb NULLPROC].
  destruct (accept_spec w req gd gc g (gd :: refs) sets gets clr Hfr) as (major & req1 & w1 & E & Ha1 & Hok1 & He1 & Hst & Hd);
    [by left|done..|]. rewrite E, Hacc. cbn [obind negb]. destruct (Hd Hacc) as (key & t & Ea & Hd1).
  unfold svcauth_gss_nextverf. rewrite Hd1, lookup_insert_eq. cbn [access obind gd_ctx set_endtime set_svc set_ctx].
  destruct (sign_verf_spec (Some key) (be32 SVC_GSS_SEQ_WIN) req1 Hok1) as (req2 & E2 & Hno & Hyes). rewrite E2. cbn [obind].
  exists major, key, t, req2, w1. eexists. split; [done|]. rewrite Hd1, lookup_insert_eq. split; [done|]. do 3 (split; [done|]).
  split; [congruence|]. split; [|by split].
  destruct (signs _ _); [|rewrite Hno by done; congruence]. destruct (Hyes eq_refl) as (v & -> & _). cbn. congruence.
Qed.

Lemma init_runs gc gd req nd w refs sets gets clr g :
  params_ok prm → gb_value (gc_ctx gc) ≠ Pfreed → sys_inv (mk_gss_sys w (gd :: refs) sets gets clr) → few_refs (gd :: refs) →
  gd ∉ sets → g_data w !! gd = Some g → gd_queued g = false → gd_ctx g = None → fresh_handle an w →
  auth_ok (rq_verf req) → rq_auth req = Some (svc_auth_at gd) → replies SVC_REPLY →
  leads (mk_gss_sys w (gd :: refs) sets gets clr) refs (gss_init SVC_REPLY init_results prm an gc gd req nd w).
Proof.
  intros Hprm Hl Hs Hf Hns Hg Hq Hx Hfr Hok Ha Hre.
  assert (Hk : gd ∈ sets → gd ∈ refs) by done.
  destruct (Z.eqb_spec (cb_proc (rq_msg req)) NULLPROC) as [Hp|Hp].
  2: { unfold gss_init. rewrite (proj2 (Z.eqb_neq _ _)) by done. by apply gd_free_leads. }
  destruct (g_enabled w) eqn:He; [|unfold gss_init; rewrite Hp, He; by apply gd_free_leads].
  destruct (an_acquire an) eqn:Hac; [|unfold gss_init; rewrite Hp, He, Hac; by apply gd_free_leads].
  destruct accepts eqn:Hacc.
  2: { unfold gss_init. rewrite Hp, He, Hac. cbn [negb Z.eqb NULLPROC].
    destruct (accept_spec w req gd gc g (gd :: refs) sets gets clr Hfr) as (major & req1 & w1 & E & Ha1 & _ & _ & Hst & _);
      [by left|done..|]. rewrite E, Hacc. cbn [obind negb]. eapply leads_steps; [exact Hst|]. apply gd_free_leads; [done|by eapply rtc_inv|done|congruence]. }
  destruct (init_accepted gc gd req nd w refs sets gets clr g Hfr Hs Hg Hx Hok Ha Hp He Hac Hacc)
    as (major & key & t & req1 & w1 & g1 & Ea & Hg1 & Hk1 & Ht1 & Hq1 & He1 & Ha1 & Hst & E). rewrite E. clear E.
  destruct (signs _ _); cbn [negb]; (eapply leads_steps; [exact Hst|]); [|by apply gd_free_leads; eauto using rtc_inv]. assert (Hs1 := rtc_inv _ _ Hst Hs). rewrite Hq in Hq1.
  destruct (send_eq (set_results (init_results major key) req1) Hre) as (req2 & Er & Ha2).
  destruct (init_done gc gd req2 w1 refs sets gets clr g1 major key Hprm Hl Hs1 Hf Hns Hg1 Hq1 Hk1 He1) as
    (w2 & w3 & E1 & (g2 & Hg2 & Hk2) & E2 & E3 & Hst3 & _); [by rewrite Ha2|].
  rewrite E1. cbn [obind]. rewrite Hg2. cbn [access obind]. rewrite Hk2. cbn [access obind]. rewrite Er. cbn [negb].
  rewrite E2. cbn [obind]. rewrite E3. by eexists _, _, _, w3.
Qed.

(** ** The handler *)

(** The only conditions on a context for a control procedure are on a new one. *)
Definition new_context (w : gss_state) (sets : list Z) (gd : Z) (g : svc_rpc_gss_data) : Prop :=
  (gd ∉ sets) ∧ gd_queued g = false ∧ gd_ctx g = None ∧ gd_established g = false ∧ fresh_handle an w.

Lemma proc_runs gc gd req nd w refs sets gets clr g :
  params_ok prm → gb_value (gc_ctx gc) ≠ Pfreed →
  sys_inv (mk_gss_sys w (gd :: refs) sets gets clr) → few_refs (gd :: refs) → (gd ∈ sets → gd ∈ refs) →
  g_data w !! gd = Some g → (gc_proc gc = RPCSEC_GSS_INIT ∨ gc_proc gc = RPCSEC_GSS_CONTINUE_INIT → new_context w sets gd g) →
  received req → rq_auth req = Some (svc_auth_at gd) → replies SVC_REPLY →
  leads (mk_gss_sys w (gd :: refs) sets gets clr) refs (gss_proc SVC_REPLY init_results no_results prm an gc gd req nd w).
Proof.
  intros Hprm Hl Hs Hf Hk Hg Hnew [Hrc Hrv Hrr] Ha Hre. unfold gss_proc.
  destruct ((gc_proc gc =? RPCSEC_GSS_INIT) || (gc_proc gc =? RPCSEC_GSS_CONTINUE_INIT)) eqn:Ei.
  { destruct Hnew as (Hns & Hq & Hx & _ & Hfr); [by rewrite orb_true_iff, !Z.eqb_eq in Ei|]. by eapply init_runs. }
  destruct (gc_proc gc =? RPCSEC_GSS_DATA).
  { destruct (data_eq gc gd req nd w g Hrc Hrv Hrr Hg) as (req' & -> & Ha' & _). apply gd_free_leads; [done..|congruence]. }
  destruct (gc_proc gc =? RPCSEC_GSS_DESTROY); [by eapply destroy_runs|by apply gd_free_leads].
Qed.

Lemma dispatch_runs gc gd req nd w refs sets gets clr g :
  params_ok prm → gb_value (gc_ctx gc) ≠ Pfreed → is_u 32 (gc_seq gc) →
  sys_inv (mk_gss_sys w (gd :: refs) sets gets clr) → few_refs (gd :: refs) → (gd ∈ sets → gd ∈ refs) →
  g_data w !! gd = Some g → (gc_proc gc = RPCSEC_GSS_INIT ∨ gc_proc gc = RPCSEC_GSS_CONTINUE_INIT → new_context w sets gd g) →
  received req → replies SVC_REPLY →
  leads (mk_gss_sys w (gd :: refs) sets gets clr) refs (gss_dispatch SVC_REPLY init_results no_results prm an gc gd req nd w).
Proof.
  intros Hprm Hl Hseq Hs Hf Hk Hg Hnew Hreq Hre. unfold gss_dispatch. rewrite Hg. cbn [access obind].
  assert (Hreq1 : received (set_auth (svc_auth_at gd) req)) by (by destruct Hreq).
  destruct (gd_established g) eqn:Hes; [|by eapply proc_runs].
  destruct (gd_endtime g <=? an_now an); [by apply gd_free_leads|]. pose proof Hs as [Hc _ _ _ _ _ _]. cbn in Hc.
  destruct (go_seq _ _ _ _ (co_gd _ _ Hc gd g Hg)) as [seen Hsq].
  destruct (seq_step _ _ _ Hsq Hseq) as (b & seq & E & _ & _ & _). rewrite E. cbn [obind]. rewrite (upd_gd_ret w gd g) by done. cbn [obind].
  assert (Hst := cs_seq w (gd :: refs) sets gets clr gd g (gc_seq gc) b seq ltac:(by left) Hg Hseq E). assert (Hs' := cache_inv_step _ _ Hst Hs).
  eapply leads_steps; [by apply rtc_once|]. destruct b; cbn [negb]; [|by apply gd_free_leads].
  eapply proc_runs; [done..|by apply lookup_insert_eq| |by destruct Hreq|done|done].
  intros Hi. destruct (Hnew Hi) as (_ & _ & _ & ? & _). congruence.
Qed.

(** ** Verdicts *)

(** The answer to a request for data under [g], and whether it stays from being served;
    [fresh] is the answer of the sequence window. *)
Definition data_verdict (g : svc_rpc_gss_data) (gc : rpc_gss_cred) (m : rpc_msg R) (fresh no_dispatch : bool) : Z * bool :=
  if gd_established g then
    if gd_endtime g <=? an_now an then (RPCSEC_GSS_CREDPROBLEM, true)
    else if negb fresh then (AUTH_OK, true) else (data_code g gc m, false)
  else (data_code g gc m, no_dispatch).

Lemma gss_data_eq gc gd req nd w refs sets gets clr g :
  gb_value (gc_ctx gc) ≠ Pfreed → sys_inv (mk_gss_sys w (gd :: refs) sets gets clr) → (gd ∈ sets → gd ∈ refs) →
  received req → g_data w !! gd = Some g → rq_auth req = Some (svc_auth_at gd) →
  ∃ req' w', gss_data an gc gd req nd w = Ret (data_code g gc (rq_msg req), req', nd, w') ∧
    (data_code g gc (rq_msg req) = AUTH_OK →
       rq_auth req' = Some (svc_auth_at gd) ∧ rq_ap1 req' = rq_ap1 req ∧ signed (gd_ctx g) (be32 (gc_seq gc)) (rq_verf req')).
Proof.
  intros Hl Hs Hk [Hrc Hrv Hrr] Hg Ha. destruct (data_eq gc gd req nd w g Hrc Hrv Hrr Hg) as (req1 & -> & Ha1 & Hok).
  destruct (gd_free_eq gc gd (data_code g gc (rq_msg req)) req1 nd w refs sets gets clr Hl Hs Hk) as (w' & -> & _); [congruence|].
  eexists _, w'. split; [done|]. intros Ed. destruct (Hok Ed) as (v & -> & Hv). rewrite Ed. by cbn.
Qed.

Lemma dispatch_data gc gd req nd w refs sets gets clr g :
  gb_value (gc_ctx gc) ≠ Pfreed → is_u 32 (gc_seq gc) → sys_inv (mk_gss_sys w (gd :: refs) sets gets clr) → (gd ∈ sets → gd ∈ refs) →
  received req → g_data w !! gd = Some g → gc_proc gc = RPCSEC_GSS_DATA →
  ∃ fresh seq req' w', svcauth_gss_is_seq_num_valid (gd_seq g) (gc_seq gc) = Ret (fresh, seq) ∧
    let v := data_verdict g gc (rq_msg req) fresh nd in
    gss_dispatch SVC_REPLY init_results no_results prm an gc gd req nd w = Ret (v.1, req', v.2, w') ∧
    (v = (AUTH_OK, false) → rq_auth req' = Some (svc_auth_at gd) ∧ signed (gd_ctx g) (be32 (gc_seq gc)) (rq_verf req') ∧
       (gd_established g = true → rq_ap1 req' = gc_seq gc)).
Proof.
  intros Hl Hseq Hs Hk Hreq Hg Hp. pose proof Hs as [Hc _ _ _ _ _ _]. cbn in Hc.
  destruct (go_seq _ _ _ _ (co_gd _ _ Hc gd g Hg)) as [seen Hsq]. destruct (seq_step _ _ _ Hsq Hseq) as (b & seq & E & _ & _ & _).
  exists b, seq. unfold gss_dispatch, data_verdict, gss_proc. rewrite Hg, Hp. cbn [access obind].
  change (orb _ _) with false. change (RPCSEC_GSS_DATA =? RPCSEC_GSS_DATA) with true. cbn iota.
  destruct (gd_established g).
  2: { destruct (gss_data_eq gc gd (set_auth (svc_auth_at gd) req) nd w refs sets gets clr g) as (req' & w' & E' & Hok); [done|done|done|by destruct Hreq|done|done|].
    exists req', w'. split; [done|]. cbn zeta. split; [exact E'|]. intros [= Ed Hn]. by destruct (Hok Ed) as (? & _ & ?). }
  destruct (gd_endtime g <=? an_now an).
  { destruct (gd_free_eq gc gd RPCSEC_GSS_CREDPROBLEM (set_auth (svc_auth_at gd) req) true w refs sets gets clr) as (w' & E' & _); [done..|].
    eexists _, w'. split; [done|]. cbn zeta. by rewrite E'. }
  rewrite E. cbn [obind]. rewrite (upd_gd_ret w gd g) by done. cbn [obind].
  assert (Hst := cs_seq w (gd :: refs) sets gets clr gd g (gc_seq gc) b seq ltac:(by left) Hg Hseq E). assert (Hs' := cache_inv_step _ _ Hst Hs).
  destruct b; cbn [negb].
  - destruct (gss_data_eq gc gd (set_ap1 (gc_seq gc) (set_auth (svc_auth_at gd) req)) false (set_data (<[gd := set_seq seq g]> (g_data w)) w)
      refs sets gets clr (set_seq seq g)) as (req' & w' & E' & Hok); [done|done|done|by destruct Hreq|by apply lookup_insert_eq|done|].
    exists req', w'. split; [done|]. cbn zeta. split; [exact E'|]. intros [= Ed]. by destruct (Hok Ed) as (? & ? & ?).
  - destruct (gd_free_eq gc gd AUTH_OK (set_auth (svc_auth_at gd) req) true (set_data (<[gd := set_seq seq g]> (g_data w)) w) refs sets gets clr) as (w' & E' & _); [done..|].
    eexists _, w'. split; [done|]. cbn zeta. by rewrite E'.
Qed.

(** ** From the credential on *)

(** The address of the area with the credential. *)
Context (addr : Z).

(** The handle of a request that looks for a context is as long as the structure it is
    read as. *)
Definition long_handle (gc : rpc_gss_cred) : Prop :=
  gc_proc gc = RPCSEC_GSS_DATA ∨ gc_proc gc = RPCSEC_GSS_DESTROY → ∃ key, handle_key (gb_value (gc_ctx gc)) = Ret key.

Lemma handler_runs w req nd refs sets gets clr :
  params_ok prm → addr_ok addr → sys_inv (mk_gss_sys w refs sets gets clr) → few_refs (0 :: refs) →
  received req → rq_auth req = Some svc_auth_none → replies SVC_REPLY →
  g_data w !! an_alloc an = None → 0 < an_alloc an → fresh_handle an w →
  (∀ gc, cred_of addr (cb_cred (rq_msg req)) = Some gc → long_handle gc) →
  leads (mk_gss_sys w refs sets gets clr) refs (_svcauth_gss addr SVC_REPLY init_results no_results prm an w req nd).
Proof.
  intros Hprm Haddr Hs Hf Hreq Ha Hre Hal Hpos Hfr Hlong. unfold _svcauth_gss.
  assert (Hstay : ∀ rc req' nd', rq_auth req' = Some svc_auth_none → leads (mk_gss_sys w refs sets gets clr) refs (Ret (rc, req', nd', w))).
  { intros rc req' nd' Ha'. exists rc, req', nd', w. split; [done|]. unfold owned. rewrite Ha'. apply rtc_refl. }
  destruct (oa_length (cb_cred (rq_msg req)) <=? 0); [by apply Hstay|].
  destruct (cred_read addr (cb_cred (rq_msg req)) Haddr (rc_cred _ Hreq)) as (x & b & gc & x' & E1 & E2 & Hl & Ec & Hseq).
  rewrite E1. cbn [obind]. change (mk_rpc_gss_cred 0 0 0 0 (mk_gss_buffer Pnull 0)) with gss_cred_zero. rewrite E2. cbn [obind].
  destruct b; cbn [negb]; [|rewrite cred_free_eq by done; by apply Hstay].
  destruct (negb (cred_checks gc =? AUTH_OK)); [rewrite cred_free_eq by done; by apply Hstay|].
  destruct ((gc_proc gc =? RPCSEC_GSS_DATA) || (gc_proc gc =? RPCSEC_GSS_DESTROY)) eqn:Ep.
  - destruct (g_enabled w) eqn:He; [|cbn [obind]; rewrite cred_free_eq by done; by apply Hstay].
    destruct (Hlong gc Ec) as [key Ek]; [by rewrite orb_true_iff, !Z.eqb_eq in Ep|]. rewrite Ek. cbn [obind].
    assert (Hf' : few_refs refs) by (red in Hf |- *; cbn in Hf; lia).
    destruct (get_steps prm w refs sets gets clr key Hprm Hs Hf' He) as (r & w1 & E3 & _ & Hst & Hr). rewrite E3. cbn [obind].
    assert (Hs1 := rtc_inv _ _ Hst Hs). eapply leads_steps; [exact Hst|]. destruct r as [gd|].
    2: { rewrite cred_free_eq by done. exists RPCSEC_GSS_CREDPROBLEM, req, nd, w1. split; [done|]. unfold owned. rewrite Ha. apply rtc_refl. }
    destruct Hr as (g & _ & _ & _ & Hd). set (g1 := set_gd_gen _ _) in Hd.
    assert (Hg1 : g_data w1 !! gd = Some g1) by (by rewrite Hd, lookup_insert_eq). rewrite (upd_gd_ret w1 gd g1) by done. cbn [obind].
    assert (Hst2 : cache_step (mk_gss_sys w1 (gd :: refs) sets gets clr) (mk_gss_sys (set_data (<[gd := set_svc (gc_svc gc) g1]> (g_data w1)) w1) (gd :: refs) sets gets clr))
      by (by eapply field_step; [left|..]).
    assert (Hs2 := cache_inv_step _ _ Hst2 Hs1). eapply leads_steps; [by apply rtc_once|].
    eapply dispatch_runs; [done|done|by apply Hseq|done|by red in Hf |- *; cbn in Hf |- *| |by apply lookup_insert_eq| |done|done].
    + by apply (si_held _ Hs gd).
    + intros Hi. exfalso. rewrite orb_true_iff, !Z.eqb_eq in Ep. destruct Ep as [Ep|Ep], Hi as [Hi|Hi]; rewrite Ep in Hi; done.
  - assert (Hst := cs_alloc w refs sets gets clr (an_alloc an) Hal Hpos). assert (Hs1 := cache_inv_step _ _ Hst Hs).
    pose proof (si_counted _ Hs (an_alloc an)) as Hno. cbn in Hno. rewrite Hal in Hno. destruct Hno as [Hns _].
    eapply leads_steps; [by apply rtc_once|].
    eapply dispatch_runs; [done|done|by apply Hseq|done|by red in Hf |- *; cbn in Hf |- *|done|by apply lookup_insert_eq| |done|done].
    intros _. do 4 (split; [done|]). by apply fresh_alloc.
Qed.

(** The handler once the credential has been read and checked. *)
Lemma handler_eq w req nd gc :
  addr_ok addr → received req → 0 < oa_length (cb_cred (rq_msg req)) →
  cred_of addr (cb_cred (rq_msg req)) = Some gc → cred_checks gc = AUTH_OK →
  gb_value (gc_ctx gc) ≠ Pfreed ∧ is_u 32 (gc_seq gc) ∧
  _svcauth_gss addr SVC_REPLY init_results no_results prm an w req nd =
   (if (gc_proc gc =? RPCSEC_GSS_DATA) || (gc_proc gc =? RPCSEC_GSS_DESTROY) then
      let! (gd, w) :=
        if g_enabled w then
          let! key := handle_key (gb_value (gc_ctx gc)) in authgss_ctx_hash_get prm w key
        else Ret (None, w) in
      match gd with
      | None => cred_free gc RPCSEC_GSS_CREDPROBLEM req nd w
      | Some gd =>
          let! w := upd_gd w gd (set_svc (gc_svc gc)) in
          gss_dispatch SVC_REPLY init_results no_results prm an gc gd req nd w
      end
    else gss_dispatch SVC_REPLY init_results no_results prm an gc (an_alloc an) req nd (alloc_svc_rpc_gss_data w (an_alloc an))).
Proof.
  intros Haddr Hreq Hlen Hc Hok. unfold _svcauth_gss. rewrite (proj2 (Z.leb_gt _ _)) by done.
  destruct (cred_read addr (cb_cred (rq_msg req)) Haddr (rc_cred _ Hreq)) as (x & b & gc' & x' & E1 & E2 & Hl & Ec & Hseq).
  destruct b; [|congruence]. assert (gc' = gc) as -> by congruence. split; [done|]. split; [by apply Hseq|].
  rewrite E1. cbn [obind]. change (mk_rpc_gss_cred 0 0 0 0 (mk_gss_buffer Pnull 0)) with gss_cred_zero. rewrite E2. cbn [obind negb].
  rewrite Hok. done.
Qed.

(** A request for a new context. *)
Lemma handler_init w req nd gc :
  addr_ok addr → received req → 0 < oa_length (cb_cred (rq_msg req)) →
  cred_of addr (cb_cred (rq_msg req)) = Some gc → cred_checks gc = AUTH_OK → gc_proc gc = RPCSEC_GSS_INIT →
  gb_value (gc_ctx gc) ≠ Pfreed ∧
  _svcauth_gss addr SVC_REPLY init_results no_results prm an w req nd =
    gss_init SVC_REPLY init_results prm an gc (an_alloc an) (set_auth (svc_auth_at (an_alloc an)) req) nd
      (alloc_svc_rpc_gss_data w (an_alloc an)).
Proof.
  intros Haddr Hreq Hlen Hc Hok Hp. destruct (handler_eq w req nd gc Haddr Hreq Hlen Hc Hok) as (Hl & _ & ->).
  split; [done|]. unfold gss_dispatch, gss_proc. rewrite Hp. cbn [RPCSEC_GSS_INIT RPCSEC_GSS_DATA RPCSEC_GSS_DESTROY Z.eqb Pos.eqb orb].
  cbn [g_data alloc_svc_rpc_gss_data]. rewrite lookup_insert_eq. done.
Qed.

(** ... which the GSS-API completes: up to the reply, the context is in the cache. *)
Lemma handler_completed w req nd gc key ti refs sets gets clr :
  let gd := an_alloc an in
  params_ok prm → addr_ok addr → sys_inv (mk_gss_sys w refs sets gets clr) → few_refs (gd :: refs) → received req →
  g_data w !! gd = None → 0 < gd → fresh_handle an w → g_enabled w = true → 0 < oa_length (cb_cred (rq_msg req)) →
  cred_of addr (cb_cred (rq_msg req)) = Some gc → cred_checks gc = AUTH_OK → gc_proc gc = RPCSEC_GSS_INIT →
  cb_proc (rq_msg req) = NULLPROC → an_acquire an = true → an_accept an = (GSS_S_COMPLETE, Some key, ti) → accepts = true →
  gb_value (gc_ctx gc) ≠ Pfreed ∧
  ∃ req1 w1 g1, sys_inv (mk_gss_sys w1 (gd :: refs) sets gets clr) ∧ rq_auth req1 = Some (svc_auth_at gd) ∧
    g_data w1 !! gd = Some g1 ∧ gd_queued g1 = true ∧ gd_ctx g1 = Some key ∧ gd_endtime g1 = expiry an ti ∧ g_enabled w1 = true ∧
    _svcauth_gss addr SVC_REPLY init_results no_results prm an w req nd =
     (let '(sent, req) := send_reply_to_client SVC_REPLY req1 in
      if negb sent then
        let! (_, w) := authgss_ctx_hash_del prm w1 (Some gd) gd in gd_free gc gd AUTH_FAILED req true w
      else
      let! w := upd_gd w1 gd (set_established true) in gd_free gc gd AUTH_OK req true w).
Proof.
  intros gd Hprm Haddr Hi Hfew Hreq Hal Hpos Hfr He Hlen Hc Hok Hp Hnull Hacq Hacc Hyes.
  destruct (handler_init w req nd gc Haddr Hreq Hlen Hc Hok Hp) as [Hl ->]. split; [done|]. fold gd.
  assert (Hi1 := cache_inv_step _ _ (cs_alloc w refs sets gets clr gd Hal Hpos) Hi).
  pose proof (si_counted _ Hi gd) as Hno. cbn in Hno. rewrite Hal in Hno. destruct Hno as [Hns _].
  set (w0 := alloc_svc_rpc_gss_data w gd) in *. set (req0 := set_auth _ req).
  assert (Hg0 : g_data w0 !! gd = Some (mk_gd 1 0 0 None false false 0 gss_seq_zero 0)) by (by apply lookup_insert_eq).
  destruct (init_accepted gc gd req0 nd w0 refs sets gets clr _ (fresh_alloc an w Hfr) Hi1 Hg0)
    as (major & key' & ti' & req1 & w1 & g1 & Ea & Hg1 & Hk1 & Ht1 & Hq1 & He1 & Ha1 & Hst & ->); [done|by destruct Hreq|done..|].
  rewrite Hacc in Ea. injection Ea as <- <- <-. assert (Hi2 := rtc_inv _ _ Hst Hi1).
  assert (Hsign : signs (Some key) (be32 SVC_GSS_SEQ_WIN) = true).
  { unfold accepts in Hyes. rewrite Hacc in Hyes. cbn in Hyes. by apply andb_prop in Hyes as [_ [_ ?]%andb_prop]. }
  rewrite Hsign. cbn [negb]. change (GSS_S_COMPLETE =? GSS_S_COMPLETE) with true. cbn iota.
  destruct (set_steps prm w1 (gd :: refs) sets gets clr gd g1 key Hprm Hi2 Hfew Hns) as (w2 & E2 & He2 & Hst2 & g2 & Hg2 & Hq2 & Hk2 & Ht2);
    [by left|done..|]. rewrite E2. cbn [obind]. rewrite Hg2. cbn [access obind]. rewrite Hk2. cbn [access obind].
  eexists _, w2, g2. split; [exact (rtc_inv _ _ Hst2 Hi2)|]. split; [|by rewrite Ht2]. done.
Qed.
End Handler.
