(* ===== verification/SvcAuthGssTheorems.v ===== *)
(** * What the RPCSEC_GSS handler guarantees (src/svc_auth_gss.c)

    The handler is made of steps of the system of GssCache.v, so that what holds of the
    cache in every reachable state holds around it; a request for data is answered by the
    context its handle names; and an established context serves the requests that follow. *)
From stdpp Require Import base gmap list sorting.
From Stdlib Require Import ZArith Lia.
From S2P Require Import Prelude Machine XdrHandle XdrStream XdrMem XdrInline XdrWire XdrCodecs XdrStruct RpcMsg Protocols ProtocolTheorems RpcMsgFacts RpcMsgTheorems SvcAuthUnix SvcCallout SvcAuth RbTree RbTreeX GssWindow GssCache GssCacheFacts GssCacheTheorems SvcAuthGss SvcAuthGssFacts.

Section Guarantees.
Context {R : Type} (addr : Z) (SVC_REPLY : svc_req R → Z * svc_req R) (init_results : Z → Z * Z → R) (no_results : R).
Context (prm : gss_params) (an : gss_answers) (s : gss_sys) (req : svc_req R) (nd : bool).
Context (Haddr : addr_ok addr) (Hprm : params_ok prm) (Hs : rtc cache_step sys_start s) (Hfew : few_refs (0 :: y_refs s)).
Context (Hreq : received req) (Hnone : rq_auth req = Some svc_auth_none).

Abbreviation handler := (_svcauth_gss addr SVC_REPLY init_results no_results prm an (y_gss s) req nd).

(** C14. Whatever arrives, the handler returns, and takes part in the life of contexts as a
    request should: it is a sequence of steps of the system, so that everything shown of
    the cache holds afterwards; it leaves one reference with the request if the request is
    left with the operations of a context, and none otherwise; and when the request is
    over, [svcauth_gss_release] returns that reference.  Assumed are a new address from
    the allocator, a new handle from the GSS-API, a handle in the credential that is as
    long as the structure it is read as, and a transport that sends the reply. *)
Theorem gss_request_safe :
  replies SVC_REPLY → g_data (y_gss s) !! an_alloc an = None → 0 < an_alloc an → fresh_handle an (y_gss s) →
  (∀ gc, cred_of addr (cb_cred (rq_msg req)) = Some gc → long_handle gc) →
  ∃ rc req' nd' w', handler = Ret (rc, req', nd', w') ∧
    rtc cache_step s (mk_gss_sys w' (owned req' (y_refs s)) (y_sets s) (y_gets s) (y_clearing s)) ∧
    ∀ gd, rq_auth req' = Some (svc_auth_at gd) →
      ∃ req'' w'', svcauth_gss_release w' req' = Ret (req'', w'') ∧ rq_auth req'' = None ∧
        rtc cache_step s (mk_gss_sys w'' (y_refs s) (y_sets s) (y_gets s) (y_clearing s)).
Proof.
  intros Hre Hal Hpos Hfr Hlong. assert (Hi := reachable_inv _ Hs). destruct s as [w refs sets gets clr]. cbn in *.
  destruct (handler_runs SVC_REPLY init_results no_results prm an addr w req nd refs sets gets clr) as (rc & req' & nd' & w' & E & Hst);
    [done..|]. cbn in Hst. exists rc, req', nd', w'. split; [done|]. split; [done|]. intros gd Ha.
  unfold owned, svcauth_gss_release in *. rewrite Ha in *. assert (Hi' := rtc_inv _ _ Hst Hi).
  assert (Hk : gd ∈ sets → gd ∈ refs) by apply (si_held _ Hi).
  destruct (inv_unref w' (gd :: refs) refs sets gets clr gd Hi') as (w'' & E' & _); [done|done|]. rewrite E'. cbn [obind].
  eexists _, w''. split; [done|]. split; [done|]. etransitivity; [exact Hst|]. apply rtc_once. by eapply cs_unref.
Qed.


(** C21. A context that has been established serves: when the GSS-API completes a context for
    a client, signs the window and the reply is sent, the handler answers AUTH_OK without
    passing the request on, and from then on the handle finds the context, which is
    established and lasts as long as the GSS-API granted, less five seconds where that is
    more than ten. *)
Theorem gss_init_serves gc key ti :
  replies SVC_REPLY → g_data (y_gss s) !! an_alloc an = None → 0 < an_alloc an → fresh_handle an (y_gss s) →
  g_enabled (y_gss s) = true → 0 < oa_length (cb_cred (rq_msg req)) →
  cred_of addr (cb_cred (rq_msg req)) = Some gc → cred_checks gc = AUTH_OK → gc_proc gc = RPCSEC_GSS_INIT →
  cb_proc (rq_msg req) = NULLPROC → an_acquire an = true → an_accept an = (GSS_S_COMPLETE, Some key, ti) → accepts an = true →
  ∃ req' w', handler = Ret (AUTH_OK, req', true, w') ∧ rq_auth req' = Some (svc_auth_at (an_alloc an)) ∧
    serving w' (an_alloc an) key (expiry an ti) ∧
    ∃ w'', authgss_ctx_hash_get prm w' key = Ret (Some (an_alloc an), w'').
Proof.
  intros Hre Hal Hpos Hfr He Hlen Hc Hok Hp Hnull Hacq Hacc Hyes. assert (Hi := reachable_inv _ Hs). destruct s as [w refs sets gets clr]. cbn in *.
  assert (Hf : few_refs (an_alloc an :: refs)) by (red in Hfew |- *; by cbn in Hfew |- *).
  destruct (handler_completed SVC_REPLY init_results no_results prm an addr w req nd gc key ti refs sets gets clr) as
    (Hl & req1 & w1 & g1 & Hi1 & Ha1 & Hg1 & Hq1 & Hk1 & Ht1 & He1 & ->); [done..|].
  destruct (send_eq SVC_REPLY req1 Hre) as (req2 & -> & Ha2). cbn [negb]. rewrite (upd_gd_ret w1 (an_alloc an) g1) by done. cbn [obind].
  set (w2 := set_data _ w1). assert (Hg2 : g_data w2 !! an_alloc an = Some (set_established true g1)) by (by apply lookup_insert_eq).
  assert (Hi2 : sys_inv (mk_gss_sys w2 (an_alloc an :: refs) sets gets clr))
    by (eapply cache_inv_step; [|exact Hi1]; by eapply field_step; [left|..]).
  exists req2, w2. unfold gd_free. cbn [Z.eqb AUTH_OK]. split; [by apply cred_free_eq|]. split; [congruence|].
  split; [by eexists|]. destruct (find_spec w2 _ sets gets clr prm key Hi2 Hprm He1) as (r & w4 & E4 & Hr & _).
  assert (r = Some (an_alloc an)) as ->; [|eauto]. apply Hr. split; [|eauto]. exact (queued_cached w2 sets _ _ (si_core _ Hi2) Hg2 Hq1).
Qed.

(** A reply that is lost locks the server up: when the reply that carries a new context
    cannot be sent, the handler takes the context out of the cache again while it holds
    the context's lock; dropping the reference of the cache takes that lock a second
    time. *)
Theorem gss_init_reply_lost gc key ti :
  (∀ r, XPRT_DIED ≤ (SVC_REPLY r).1) → g_data (y_gss s) !! an_alloc an = None → 0 < an_alloc an → fresh_handle an (y_gss s) →
  g_enabled (y_gss s) = true → 0 < oa_length (cb_cred (rq_msg req)) →
  cred_of addr (cb_cred (rq_msg req)) = Some gc → cred_checks gc = AUTH_OK → gc_proc gc = RPCSEC_GSS_INIT →
  cb_proc (rq_msg req) = NULLPROC → an_acquire an = true → an_accept an = (GSS_S_COMPLETE, Some key, ti) → accepts an = true →
  handler = Ub.
Proof.
  intros Hre Hal Hpos Hfr He Hlen Hc Hok Hp Hnull Hacq Hacc Hyes. assert (Hi := reachable_inv _ Hs). destruct s as [w refs sets gets clr]. cbn in *.
  assert (Hf : few_refs (an_alloc an :: refs)) by (red in Hfew |- *; by cbn in Hfew |- *).
  destruct (handler_completed SVC_REPLY init_results no_results prm an addr w req nd gc key ti refs sets gets clr) as
    (Hl & req1 & w1 & g1 & Hi1 & Ha1 & Hg1 & Hq1 & Hk1 & Ht1 & He1 & ->); [done..|].
  unfold send_reply_to_client. specialize (Hre (set_msg (svc_sendreply (rq_msg req1)) req1)). destruct (SVC_REPLY _) as [st req2]. cbn in Hre.
  rewrite (proj2 (Z.leb_le _ _)) by done. cbn [negb]. unfold authgss_ctx_hash_del.
  destruct (inv_init prm w1 _ sets gets clr Hprm Hi1) as (w2 & -> & Hi2 & Hin & Hd & _). cbn [obind].
  pose proof Hi2 as [Hc2 Hw2 _ _ _ _ _]. cbn in *.
  destruct (del_core w2 sets (an_alloc an :: refs) (an_alloc an) Hc2 Hw2 Hin) as (b & w3 & -> & _ & _ & _ & g & Hg & -> & Hrem); [by left|].
  rewrite Hd in Hg. assert (g = g1) as -> by congruence. rewrite Hq1 in *. destruct Hrem as [Hd3 _]. cbn [obind].
  unfold unref_svc_rpc_gss_data. rewrite Hd3, lookup_insert_eq. cbn [access obind]. by rewrite decide_True.
Qed.

(** An empty or short handle crashes the server: a request for data whose context
    handle has fewer bytes than the structure the handler takes it for is read past its
    end, or through a null pointer, before anything about the client has been checked. *)
Theorem gss_short_handle gc :
  g_enabled (y_gss s) = true → 0 < oa_length (cb_cred (rq_msg req)) →
  cred_of addr (cb_cred (rq_msg req)) = Some gc → cred_checks gc = AUTH_OK → gc_proc gc = RPCSEC_GSS_DATA →
  (∀ bs, gb_value (gc_ctx gc) = Pobj bs → (length bs < 16)%nat) →
  handler = Ub.
Proof.
  intros He Hlen Hc Hok Hp Hshort. destruct (handler_eq SVC_REPLY init_results no_results prm an addr (y_gss s) req nd gc Haddr Hreq Hlen Hc Hok) as (_ & _ & ->).
  rewrite Hp, He. cbn [RPCSEC_GSS_DATA Z.eqb orb]. unfold handle_key. destruct (gb_value (gc_ctx gc)) as [|bs|]; [done| |done].
  by rewrite (proj2 (Nat.ltb_lt _ _)) by (by apply Hshort).
Qed.
End Guarantees.

(** ** Examples *)

Definition demo_cred (proc seq : Z) (handle : list Z) : opaque_auth :=
  let bs := be32 RPCSEC_GSS_VERSION ++ be32 proc ++ be32 seq ++ be32 RPCSEC_GSS_SVC_NONE ++ be32 (Zlen handle) ++ handle in
  mk_auth RPCSEC_GSS (Zlen bs) (bs ++ zeros (MAX_AUTH_BYTES - Zlen bs)).

Definition demo_request (proc seq : Z) (handle : list Z) : svc_req unit :=
  let m := msg_zero in
  mk_req (mk_msg 77 CALL RPC_MSG_VERSION (rm_reply m) 100003 3 NULLPROC (demo_cred proc seq handle) (cb_verf m))
    (Some svc_auth_none) aup_zero (replicate 256 0) (replicate 16 0) (mk_tls false false false) 0.

Definition demo_answers : gss_answers :=
  mk_answers 16 1000 true true true (GSS_S_COMPLETE, Some demo_key, 3600) true (λ _ text, Some text) (λ _ _ _, true).

Definition demo_handle : list Z := [5; 0; 0; 0; 0; 0; 0; 0; 7; 0; 0; 0; 0; 0; 0; 0].
Definition demo_gc (proc seq : Z) (value : ptr (list Z)) (n : Z) : rpc_gss_cred :=
  mk_rpc_gss_cred 1 proc seq RPCSEC_GSS_SVC_NONE (mk_gss_buffer value n).

Definition demo_sent (st : Z) (r : svc_req unit) : Z * svc_req unit := (st, r).

Lemma demo_addr : addr_ok 4096.
Proof. done. Qed.
Lemma demo_few : few_refs (0 :: []).
Proof. done. Qed.

Lemma demo_bytes (l : list Z) : forallb (λ b, (0 <=? b) && (b <? 256)) l = true → bytes l.
Proof. induction l as [|b l IH]; cbn; [constructor|]. intros [Hb Hl]%andb_prop. constructor; [red; lia|by apply IH]. Qed.

Lemma demo_init_received : received (demo_request RPCSEC_GSS_INIT 0 []).
Proof. by constructor; [split; [vm_compute|split; [apply demo_bytes; vm_compute|vm_compute]]..|vm_compute]. Qed.
Lemma demo_data_received h : h = demo_handle ∨ h = [] → received (demo_request RPCSEC_GSS_DATA 9 h).
Proof. intros [-> | ->]; by constructor; [split; [vm_compute|split; [apply demo_bytes; vm_compute|vm_compute]]..|vm_compute]. Qed.

Lemma demo_fresh : fresh_handle demo_answers gss_state_start.
Proof. intros _. exists demo_key. split; [done|]. intros b gb. cbn. by rewrite lookup_empty. Qed.

Lemma demo_init_cred : cred_of 4096 (demo_cred RPCSEC_GSS_INIT 0 []) = Some (demo_gc RPCSEC_GSS_INIT 0 Pnull 0).
Proof. vm_compute. reflexivity. Qed.
Lemma demo_data_cred : cred_of 4096 (demo_cred RPCSEC_GSS_DATA 9 demo_handle) = Some (demo_gc RPCSEC_GSS_DATA 9 (Pobj demo_handle) 16).
Proof. vm_compute. reflexivity. Qed.
Lemma demo_empty_cred : cred_of 4096 (demo_cred RPCSEC_GSS_DATA 9 []) = Some (demo_gc RPCSEC_GSS_DATA 9 Pnull 0).
Proof. vm_compute. reflexivity. Qed.

Lemma demo_replies : replies (demo_sent 0).
Proof. by constructor. Qed.

Lemma gss_request_safe_witness :
  ∃ rc req' nd' w', _svcauth_gss 4096 (demo_sent 0) (λ _ _, tt) tt demo_prm demo_answers gss_state_start (demo_request RPCSEC_GSS_INIT 0 []) false
    = Ret (rc, req', nd', w').
Proof.
  destruct (gss_request_safe 4096 (demo_sent 0) (λ _ _, tt) tt demo_prm demo_answers sys_start (demo_request RPCSEC_GSS_INIT 0 []) false
    demo_addr demo_prm_ok (rtc_refl _ _) demo_few demo_init_received eq_refl demo_replies) as (rc & req' & nd' & w' & E & _).
  - apply lookup_empty.
  - reflexivity.
  - apply demo_fresh.
  - intros gc Hgc. assert (gc = demo_gc RPCSEC_GSS_INIT 0 Pnull 0) as -> by (apply (inj Some); by rewrite <- demo_init_cred).
    intros [H|H]; discriminate H.
  - exists rc, req', nd', w'. exact E.
Defined.


Lemma gss_init_serves_witness :
  ∃ req' w', _svcauth_gss 4096 (demo_sent 0) (λ _ _, tt) tt demo_prm demo_answers gss_state_start (demo_request RPCSEC_GSS_INIT 0 []) false
      = Ret (AUTH_OK, req', true, w') ∧ serving w' 16 demo_key 4595.
Proof.
  destruct (gss_init_serves 4096 (demo_sent 0) (λ _ _, tt) tt demo_prm demo_answers sys_start (demo_request RPCSEC_GSS_INIT 0 []) false
    demo_addr demo_prm_ok (rtc_refl _ _) demo_few demo_init_received (demo_gc RPCSEC_GSS_INIT 0 Pnull 0) demo_key 3600 demo_replies
    (lookup_empty _) eq_refl demo_fresh eq_refl eq_refl demo_init_cred eq_refl eq_refl eq_refl eq_refl eq_refl eq_refl)
    as (req' & w' & E & _ & Hs & _).
  exists req', w'. split; [exact E|exact Hs].
Defined.

Lemma demo_lost r : XPRT_DIED ≤ (demo_sent 3 r).1.
Proof. done. Qed.

Lemma gss_init_reply_lost_witness :
  _svcauth_gss 4096 (demo_sent 3) (λ _ _, tt) tt demo_prm demo_answers gss_state_start (demo_request RPCSEC_GSS_INIT 0 []) false = Ub.
Proof.
  exact (gss_init_reply_lost 4096 (demo_sent 3) (λ _ _, tt) tt demo_prm demo_answers sys_start (demo_request RPCSEC_GSS_INIT 0 []) false
    demo_addr demo_prm_ok (rtc_refl _ _) demo_few demo_init_received (demo_gc RPCSEC_GSS_INIT 0 Pnull 0) demo_key 3600 demo_lost
    (lookup_empty _) eq_refl demo_fresh eq_refl eq_refl demo_init_cred eq_refl eq_refl eq_refl eq_refl eq_refl eq_refl).
Defined.

Lemma demo_no_bytes bs : gb_value (gc_ctx (demo_gc RPCSEC_GSS_DATA 9 Pnull 0)) = Pobj bs → (length bs < 16)%nat.
Proof. done. Qed.

Lemma gss_short_handle_witness :
  _svcauth_gss 4096 (demo_sent 0) (λ _ _, tt) tt demo_prm demo_answers gss_state_start (demo_request RPCSEC_GSS_DATA 9 []) false = Ub.
Proof.
  exact (gss_short_handle 4096 (demo_sent 0) (λ _ _, tt) tt demo_prm demo_answers sys_start (demo_request RPCSEC_GSS_DATA 9 []) false
    demo_addr (demo_data_received [] (or_intror eq_refl)) (demo_gc RPCSEC_GSS_DATA 9 Pnull 0) eq_refl eq_refl demo_empty_cred eq_refl eq_refl demo_no_bytes).
Defined.
