(* ===== verification/SvcIoqZc.v ===== *)
(** * Zero-copy completion tracking (src/svc_ioq.c, src/rpc_dplx_internal.h)

    Replies sent with MSG_ZEROCOPY stay pinned by the kernel until it reports, through
    the socket's error queue, the cookies of the sends that are complete.  The
    connection keeps a watermark below which every cookie is confirmed, a bit map of
    the confirmed cookies just above it, and the queue of replies that wait.  Cookies
    are 32-bit counters that wrap, compared modulo 2^32. *)
From stdpp Require Import base gmap list.
From Stdlib Require Import ZArith Lia.
From S2P Require Import Prelude Machine.

Definition SVC_ZC_ACK_WINDOW : Z := 256.
Definition SVC_ZC_ACK_WORDS : Z := SVC_ZC_ACK_WINDOW / 64.

(** The zero-copy fields of [struct xdr_ioq]; [zx_id] tells replies apart. *)
Record zc_xioq := mk_zx { zx_id : Z; zc_cookie_lo : Z; zc_outstanding : Z }.

(** The zero-copy fields of [struct rpc_dplx_rec]. *)
Record zc_rec := mk_zc {
  zcq : list zc_xioq;
  zc_inflight : Z;
  zc_next_cookie : Z;
  zc_acked : Z;
  zc_ooo_bits : list Z;
  zc_window_drops : Z;
  zc_sock_ok : bool;
}.

Definition set_zcq (q : list zc_xioq) (n : Z) (r : zc_rec) : zc_rec :=
  mk_zc q n (zc_next_cookie r) (zc_acked r) (zc_ooo_bits r) (zc_window_drops r) (zc_sock_ok r).
Definition set_next_cookie (n : Z) (r : zc_rec) : zc_rec :=
  mk_zc (zcq r) (zc_inflight r) n (zc_acked r) (zc_ooo_bits r) (zc_window_drops r) (zc_sock_ok r).
Definition set_window (acked : Z) (bits : list Z) (r : zc_rec) : zc_rec :=
  mk_zc (zcq r) (zc_inflight r) (zc_next_cookie r) acked bits (zc_window_drops r) (zc_sock_ok r).
Definition set_drops (n : Z) (r : zc_rec) : zc_rec :=
  mk_zc (zcq r) (zc_inflight r) (zc_next_cookie r) (zc_acked r) (zc_ooo_bits r) n (zc_sock_ok r).
Definition set_sock_ok (b : bool) (r : zc_rec) : zc_rec :=
  mk_zc (zcq r) (zc_inflight r) (zc_next_cookie r) (zc_acked r) (zc_ooo_bits r) (zc_window_drops r) b.
Definition set_outstanding (n : Z) (x : zc_xioq) : zc_xioq := mk_zx (zx_id x) (zc_cookie_lo x) n.

Definition ZC_COOKIE_LT (a b : Z) : bool := s32 (u32 (a - b)) <? 0.
Definition ZC_COOKIE_GE (a b : Z) : bool := 0 <=? s32 (u32 (a - b)).

Definition svc_ioq_zc_note_send (rec : zc_rec) (xioq : zc_xioq) : zc_rec * zc_xioq :=
  let lo := if zc_outstanding xioq =? 0 then zc_next_cookie rec else zc_cookie_lo xioq in
  (set_next_cookie (u32 (zc_next_cookie rec + 1)) rec,
   mk_zx (zx_id xioq) lo (u32 (zc_outstanding xioq + 1))).

Definition svc_ioq_zc_xioq_done (rec : zc_rec) (xioq : zc_xioq) : bool :=
  if zc_outstanding xioq =? 0 then true else
  let last := u32 (zc_cookie_lo xioq + zc_outstanding xioq) in
  ZC_COOKIE_GE (zc_acked rec) last.

(** The walk over [zcq]: the entries harvested, those left, and [zc_inflight]. *)
Fixpoint harvest_loop (rec : zc_rec) (q : list zc_xioq) (inflight : Z)
    : list zc_xioq * list zc_xioq * Z :=
  match q with
  | [] => ([], [], inflight)
  | x :: q =>
      if svc_ioq_zc_xioq_done rec x
      then let '(hs, q, inflight) := harvest_loop rec q (u32 (inflight - 1)) in
           (set_outstanding 0 x :: hs, q, inflight)
      else let '(hs, q, inflight) := harvest_loop rec q inflight in (hs, x :: q, inflight)
  end.

(** The caller's list is extended; the count is what this call added. *)
Definition svc_ioq_zc_harvest_locked (rec : zc_rec) (harvest_list : list zc_xioq)
    : Z * list zc_xioq * zc_rec :=
  let '(hs, q, inflight) := harvest_loop rec (zcq rec) (zc_inflight rec) in
  (Zlen hs, harvest_list ++ hs, set_zcq q inflight rec).

(** ** The completion window *)

Definition svc_ioq_zc_bit_test (bits : list Z) (off : Z) : out bool :=
  let! w := access (bits !! Z.to_nat (Z.shiftr off 6)) in
  Ret (negb (Z.land w (Z.shiftl 1 (Z.land off 63)) =? 0)).

Definition svc_ioq_zc_bit_set (bits : list Z) (off : Z) : out (list Z) :=
  let! w := access (bits !! Z.to_nat (Z.shiftr off 6)) in
  Ret (<[Z.to_nat (Z.shiftr off 6) := Z.lor w (Z.shiftl 1 (Z.land off 63))]> bits).

(** The forward pass, in place. *)
Fixpoint slide_loop (n : nat) (i words bits : Z) (a : list Z) : out (list Z) :=
  match n with
  | O => Ret a
  | S n =>
      let! v := if i + words <? SVC_ZC_ACK_WORDS then access (a !! Z.to_nat (i + words)) else Ret 0 in
      let! v :=
        if bits =? 0 then Ret v else
        let v := Z.shiftr v bits in
        if i + words + 1 <? SVC_ZC_ACK_WORDS then
          let! w := access (a !! Z.to_nat (i + words + 1)) in
          Ret (Z.lor v (u64 (Z.shiftl w (64 - bits))))
        else Ret v in
      slide_loop n (i + 1) words bits (<[Z.to_nat i := v]> a)
  end.

Definition svc_ioq_zc_window_slide (a : list Z) (n : Z) : out (list Z) :=
  let words := Z.shiftr n 6 in
  let bits := Z.land n 63 in
  if SVC_ZC_ACK_WORDS <=? words then Ret (replicate (length a) 0) else
  slide_loop (Z.to_nat SVC_ZC_ACK_WORDS) 0 words bits a.

(** [while (advance <= SVC_ZC_ACK_WINDOW - 64 && bits[advance >> 6] == ~0) advance += 64;] *)
Fixpoint absorb_words (fuel : nat) (bits : list Z) (advance : Z) : out Z :=
  if negb (advance <=? SVC_ZC_ACK_WINDOW - 64) then Ret advance else
  let! w := access (bits !! Z.to_nat (Z.shiftr advance 6)) in
  if negb (w =? 2 ^ 64 - 1) then Ret advance else
  match fuel with O => OutOfFuel | S fuel => absorb_words fuel bits (advance + 64) end.

(** [while (advance < SVC_ZC_ACK_WINDOW && bit_test(advance)) advance++;] *)
Fixpoint absorb_bits (fuel : nat) (bits : list Z) (advance : Z) : out Z :=
  if negb (advance <? SVC_ZC_ACK_WINDOW) then Ret advance else
  let! b := svc_ioq_zc_bit_test bits advance in
  if negb b then Ret advance else
  match fuel with O => OutOfFuel | S fuel => absorb_bits fuel bits (advance + 1) end.

Definition svc_ioq_zc_absorb_ooo (rec : zc_rec) : out zc_rec :=
  let! advance := absorb_words (Z.to_nat SVC_ZC_ACK_WORDS) (zc_ooo_bits rec) 0 in
  let! advance := absorb_bits (Z.to_nat SVC_ZC_ACK_WINDOW) (zc_ooo_bits rec) advance in
  if advance =? 0 then Ret rec else
  let! bits := svc_ioq_zc_window_slide (zc_ooo_bits rec) advance in
  Ret (set_window (u32 (zc_acked rec + advance)) bits rec).

(** [for (c = lo; ; c++)]: each cookie up to [hi] is recorded, and the first one past
    the window is dropped with the rest of the range. *)
Fixpoint record_loop (fuel : nat) (rec : zc_rec) (c hi : Z) : out zc_rec :=
  let off := u32 (c - zc_acked rec) in
  if SVC_ZC_ACK_WINDOW <=? off then Ret (set_drops (u32 (zc_window_drops rec + 1)) rec) else
  let! bits := svc_ioq_zc_bit_set (zc_ooo_bits rec) off in
  let rec := set_window (zc_acked rec) bits rec in
  if c =? hi then Ret rec else
  match fuel with O => OutOfFuel | S fuel => record_loop fuel rec (u32 (c + 1)) hi end.

Definition svc_ioq_zc_complete_locked (rec : zc_rec) (lo hi : Z) (harvest_list : list zc_xioq)
    : out (Z * list zc_xioq * zc_rec) :=
  if ZC_COOKIE_LT hi lo then Ret (0, harvest_list, rec) else
  if ZC_COOKIE_LT hi (zc_acked rec) then Ret (0, harvest_list, rec) else
  let lo := if ZC_COOKIE_LT lo (zc_acked rec) then zc_acked rec else lo in
  let! rec :=
    if lo =? zc_acked rec then
      let span := u32 (hi - lo + 1) in
      let! bits := svc_ioq_zc_window_slide (zc_ooo_bits rec) span in
      Ret (set_window (u32 (zc_acked rec + span)) bits rec)
    else record_loop (Z.to_nat SVC_ZC_ACK_WINDOW) rec lo hi in
  let! rec := svc_ioq_zc_absorb_ooo rec in
  Ret (svc_ioq_zc_harvest_locked rec harvest_list).

(** ** The error queue *)

(** A control message, with the fields of [struct sock_extended_err] it carries. *)
Record cmsghdr := mk_cmsg {
  cmsg_level : Z; cmsg_type : Z; cmsg_len : Z;
  ee_origin : Z; ee_code : Z; ee_info : Z; ee_data : Z;
}.

Definition SOL_IP : Z := 0.
Definition IP_RECVERR : Z := 11.
Definition SOL_IPV6 : Z := 41.
Definition IPV6_RECVERR : Z := 25.
Definition SO_EE_ORIGIN_ZEROCOPY : Z := 5.
Definition SO_EE_CODE_ZEROCOPY_COPIED : Z := 1.
(** [CMSG_LEN(sizeof(struct sock_extended_err))]: both structures take 16 bytes. *)
Definition CMSG_LEN_serr : Z := 32.

Definition svc_ioq_zc_parse_serr (cmsg : cmsghdr) : option (Z * Z * bool) :=
  let known :=
    if cmsg_level cmsg =? SOL_IP then cmsg_type cmsg =? IP_RECVERR
    else if cmsg_level cmsg =? SOL_IPV6 then cmsg_type cmsg =? IPV6_RECVERR
    else false in
  if negb known then None else
  if cmsg_len cmsg <? CMSG_LEN_serr then None else
  if negb (ee_origin cmsg =? SO_EE_ORIGIN_ZEROCOPY) then None else
  Some (ee_info cmsg, ee_data cmsg, has_flag (ee_code cmsg) SO_EE_CODE_ZEROCOPY_COPIED).

(** The control messages of one [recvmsg]. *)
Fixpoint drain_cmsgs (rec : zc_rec) (cmsgs : list cmsghdr) (harvest_list : list zc_xioq) (n : Z)
    : out (Z * list zc_xioq * zc_rec) :=
  match cmsgs with
  | [] => Ret (n, harvest_list, rec)
  | cmsg :: cmsgs =>
      match svc_ioq_zc_parse_serr cmsg with
      | None => drain_cmsgs rec cmsgs harvest_list n
      | Some (lo, hi, copied) =>
          let! (k, harvest_list, rec) := svc_ioq_zc_complete_locked rec lo hi harvest_list in
          let rec := if copied && zc_sock_ok rec then set_sock_ok false rec else rec in
          drain_cmsgs rec cmsgs harvest_list (n + k)
      end
  end.

(** [msgs]: what the successive calls of [recvmsg] return, up to the one that fails. *)
Fixpoint drain_loop (rec : zc_rec) (msgs : list (list cmsghdr)) (harvest_list : list zc_xioq) (total : Z)
    : out (Z * list zc_xioq * zc_rec) :=
  match msgs with
  | [] => Ret (total, harvest_list, rec)
  | cmsgs :: msgs =>
      let! (n, harvest_list, rec) := drain_cmsgs rec cmsgs harvest_list 0 in
      drain_loop rec msgs harvest_list (total + n)
  end.

Definition svc_ioq_zc_drain_collect (enabled : bool) (rec : zc_rec) (msgs : list (list cmsghdr))
    (harvest_list : list zc_xioq) : out (Z * list zc_xioq * zc_rec) :=
  if negb enabled then Ret (0, harvest_list, rec) else
  if negb (zc_sock_ok rec) && (zc_inflight rec =? 0) then Ret (0, harvest_list, rec) else
  drain_loop rec msgs harvest_list 0.

(** What is destroyed and how many references are released. *)
Definition svc_ioq_zc_drain (enabled : bool) (rec : zc_rec) (msgs : list (list cmsghdr))
    : out (list zc_xioq * Z * zc_rec) :=
  let! (release_count, harvest_list, rec) := svc_ioq_zc_drain_collect enabled rec msgs [] in
  if 0 <? release_count then Ret (harvest_list, release_count, rec) else Ret ([], 0, rec).

(** ** Teardown *)

Definition SVC_ZC_TEARDOWN_TRIES : nat := 20.

(** The grace period; [tries] are the error queue's contents at each attempt. *)
Fixpoint teardown_loop (n : nat) (rec : zc_rec) (tries : list (list (list cmsghdr)))
    (freed : list zc_xioq) (released : Z) : out (list zc_xioq * Z * zc_rec) :=
  match n with
  | O => Ret (freed, released, rec)
  | S n =>
      let! (hs, k, rec) := svc_ioq_zc_drain true rec (default [] (head tries)) in
      let freed := freed ++ hs in
      let released := released + k in
      if zc_inflight rec =? 0 then Ret (freed, released, rec) else
      teardown_loop n rec (tail tries) freed released
  end.

(** [fd_open]: [xp_fd != RPC_ANYFD].  All that is destroyed, the references released. *)
Definition svc_ioq_zc_release_all (enabled fd_open : bool) (rec : zc_rec)
    (tries : list (list (list cmsghdr))) : out (list zc_xioq * Z * zc_rec) :=
  let! (freed, released, rec) :=
    if enabled && (0 <? zc_inflight rec) && fd_open
    then teardown_loop SVC_ZC_TEARDOWN_TRIES rec tries [] 0
    else Ret ([], 0, rec) in
  let rest := zcq rec in
  let rec := set_zcq [] (u32 (zc_inflight rec - Zlen rest)) rec in
  let rec := set_window (zc_acked rec) (replicate (length (zc_ooo_bits rec)) 0) rec in
  Ret (freed ++ rest, released + Zlen rest, rec).

(** The end of a reply in svc_ioq_write: it is destroyed, or waits in [zcq]. *)
Definition svc_ioq_write_retire (rec : zc_rec) (xioq : zc_xioq) : option zc_xioq * zc_rec :=
  if (0 <? zc_outstanding xioq) && negb (svc_ioq_zc_xioq_done rec xioq)
  then (None, set_zcq (zcq rec ++ [xioq]) (u32 (zc_inflight rec + 1)) rec)
  else (Some (set_outstanding 0 xioq), rec).
