(* ===== verification/SvcIoqZcFacts.v ===== *)
(** * The completion window represents the set of recorded cookies

    Cookies without the wrap-around are integers counted from the start of the
    connection.  The window of a connection represents the set of the cookies recorded
    so far: the watermark is the first one missing, the bit map is the set above it. *)
From stdpp Require Import base gmap list.
From Stdlib Require Import ZArith Lia.
From S2P Require Import Prelude Machine SvcIoqZc.

(** ** Cookies modulo 2^32 *)

Lemma u32_sub a b : u32 (u32 a - u32 b) = u32 (a - b).
Proof. unfold wrapu. by rewrite <- Zminus_mod. Qed.

Lemma u32_add_l a b : u32 (u32 a + b) = u32 (a + b).
Proof. unfold wrapu. by rewrite Zplus_mod_idemp_l. Qed.

Lemma s32_diff a b : - 2 ^ 31 ≤ a - b < 2 ^ 31 → s32 (u32 (u32 a - u32 b)) = a - b.
Proof. intros. rewrite u32_sub. apply wraps_wrapu_id; [done|]. unfold is_s. lia. Qed.

Lemma cookie_lt a b : - 2 ^ 31 ≤ a - b < 2 ^ 31 → ZC_COOKIE_LT (u32 a) (u32 b) = (a <? b).
Proof.
  intros. unfold ZC_COOKIE_LT. rewrite s32_diff by done.
  destruct (Z.ltb_spec (a - b) 0), (Z.ltb_spec a b); lia || done.
Qed.

Lemma cookie_ge a b : - 2 ^ 31 ≤ a - b < 2 ^ 31 → ZC_COOKIE_GE (u32 a) (u32 b) = (b <=? a).
Proof.
  intros. unfold ZC_COOKIE_GE. rewrite s32_diff by done.
  destruct (Z.leb_spec 0 (a - b)), (Z.leb_spec b a); lia || done.
Qed.

Lemma cookie_eq a b : - 2 ^ 31 ≤ a - b < 2 ^ 31 → (u32 a =? u32 b) = (a =? b).
Proof.
  intros. destruct (Z.eqb_spec a b) as [->|Hne]; [apply Z.eqb_refl|].
  apply Z.eqb_neq. intros E. pose proof (s32_diff a b) as H1. rewrite E, Z.sub_diag in H1.
  change (s32 (u32 0)) with 0 in H1. lia.
Qed.

(** ** The bit map *)

Definition wbit (a : list Z) (k : Z) : bool :=
  Z.testbit (nth (Z.to_nat (k / 64)) a 0) (k mod 64).

Definition words_ok (a : list Z) : Prop := Zlen a = SVC_ZC_ACK_WORDS ∧ Forall (is_u 64) a.

Definition in_window (k : Z) : Prop := 0 ≤ k < SVC_ZC_ACK_WINDOW.

Lemma window_index off : Z.shiftr off 6 = off / 64 ∧ Z.land off 63 = off mod 64.
Proof.
  rewrite Z.shiftr_div_pow2 by done. change 63 with (Z.ones 6).
  by rewrite Z.land_ones.
Qed.

Lemma word_at a k :
  words_ok a → in_window k →
  ∃ w, a !! Z.to_nat (k / 64) = Some w ∧ is_u 64 w ∧ nth (Z.to_nat (k / 64)) a 0 = w.
Proof.
  intros [Hl Hb] Hk. unfold in_window, SVC_ZC_ACK_WORDS, SVC_ZC_ACK_WINDOW in *.
  destruct (lookup_lt_is_Some_2 a (Z.to_nat (k / 64))) as [w E].
  { change (256 / 64) with 4 in Hl. lia. }
  exists w. split_and!; [done|by apply (Forall_lookup_1 _ _ _ _ Hb E)|by apply nth_lookup_Some].
Qed.

Lemma word_nth a i : Forall (is_u 64) a → is_u 64 (nth i a 0).
Proof.
  intros HF. rewrite nth_lookup. destruct (a !! i) eqn:E; cbn; [|by vm_compute].
  by apply (Forall_lookup_1 _ _ _ _ HF E).
Qed.

Lemma land_pow2 w k : 0 ≤ k → negb (Z.land w (2 ^ k) =? 0) = Z.testbit w k.
Proof.
  intros Hk. destruct (Z.testbit w k) eqn:Eb.
  - apply negb_true_iff, Z.eqb_neq. intros H0.
    assert (Z.testbit (Z.land w (2 ^ k)) k = true)
      by (by rewrite Z.land_spec, Eb, Z.pow2_bits_true).
    by rewrite H0, Z.bits_0 in *.
  - apply negb_false_iff, Z.eqb_eq. apply Z.bits_inj'. intros j Hj.
    rewrite Z.land_spec, Z.pow2_bits_eqb, Z.bits_0 by done.
    destruct (Z.eqb_spec k j); [subst j; by rewrite Eb|by rewrite andb_false_r].
Qed.

Lemma bit_test_spec a k : words_ok a → in_window k → svc_ioq_zc_bit_test a k = Ret (wbit a k).
Proof.
  intros Ha Hk. destruct (word_at a k Ha Hk) as (w & E & _ & En).
  unfold svc_ioq_zc_bit_test, wbit. destruct (window_index k) as [-> ->].
  rewrite E, En. cbn [access obind]. by rewrite Z.shiftl_1_l, land_pow2 by lia.
Qed.

Lemma is_u_lor w a b : 0 ≤ w → is_u w a → is_u w b → is_u w (Z.lor a b).
Proof.
  intros Hw Ha Hb. rewrite is_u_bits in * by done.
  intros. by rewrite Z.lor_spec, Ha, Hb.
Qed.

Lemma bit_set_spec a k :
  words_ok a → in_window k →
  ∃ a', svc_ioq_zc_bit_set a k = Ret a' ∧ words_ok a' ∧
        ∀ j, in_window j → wbit a' j = if j =? k then true else wbit a j.
Proof.
  intros Ha Hk. destruct (word_at a k Ha Hk) as (w & E & Hw & En).
  unfold svc_ioq_zc_bit_set. destruct (window_index k) as [-> ->]. rewrite E. cbn [access obind].
  eexists. split; [done|]. destruct Ha as [Hl Hb]. split.
  { split; [len|]. apply Forall_insert; [done|]. apply is_u_lor; [done..|].
    rewrite Z.shiftl_1_l. split; [lia|]. apply Z.pow_lt_mono_r; lia. }
  intros j Hj. unfold wbit, in_window, SVC_ZC_ACK_WINDOW in *. rewrite !nth_lookup.
  destruct (decide (Z.to_nat (k / 64) = Z.to_nat (j / 64))) as [Eq|Ne].
  - rewrite <- Eq, list_lookup_insert_eq, E by (by eapply lookup_lt_Some). cbn.
    rewrite Z.lor_spec, Z.shiftl_1_l, Z.pow2_bits_eqb, orb_comm by lia.
    destruct (Z.eqb_spec (k mod 64) (j mod 64)), (Z.eqb_spec j k); lia || done.
  - rewrite list_lookup_insert_ne by done. destruct (Z.eqb_spec j k); [subst j; done|done].
Qed.

Lemma wbit_zero n k : wbit (replicate n 0) k = false.
Proof.
  unfold wbit. rewrite nth_lookup.
  destruct (replicate n 0 !! Z.to_nat (k / 64)) as [v|] eqn:E; cbn; [|apply Z.bits_0].
  apply lookup_replicate in E as [-> _]. apply Z.bits_0.
Qed.

Lemma words_zero a : words_ok a → words_ok (replicate (length a) 0).
Proof. intros [Hl _]. split; [len|]. by apply Forall_replicate. Qed.

(** ** Sliding *)

(** One word of the result: [w] shifted down by [b] with the low bits of [w'] above. *)
Definition joined (b w w' : Z) : Z :=
  if b =? 0 then w else Z.lor (Z.shiftr w b) (u64 (Z.shiftl w' (64 - b))).

Lemma joined_bit b w w' k :
  0 ≤ b < 64 → is_u 64 w → 0 ≤ k < 64 →
  Z.testbit (joined b w w') k = if k + b <? 64 then Z.testbit w (k + b) else Z.testbit w' (k + b - 64).
Proof.
  intros Hb Hw Hk. rewrite is_u_bits in Hw by done. unfold joined.
  destruct (Z.eqb_spec b 0) as [->|]; [by rewrite Z.add_0_r, (proj2 (Z.ltb_lt _ _)) by lia|].
  rewrite Z.lor_spec, Z.shiftr_spec by lia. unfold wrapu.
  rewrite Z.mod_pow2_bits_low, Z.shiftl_spec by lia. destruct (Z.ltb_spec (k + b) 64).
  - by rewrite (Z.testbit_neg_r w'), orb_false_r by lia.
  - rewrite Hw by lia. cbn. f_equal. lia.
Qed.

Lemma joined_word b w w' : 0 ≤ b < 64 → is_u 64 w → is_u 64 (joined b w w').
Proof.
  intros Hb Hw. unfold joined. destruct (b =? 0); [done|].
  apply is_u_lor; [done| |by apply wrapu_range]. unfold is_u in *.
  rewrite Z.shiftr_div_pow2 by lia. split; [apply Z.div_pos; lia|].
  apply Z.div_lt_upper_bound; nia.
Qed.

(** The words the pass leaves, [words] positions down. *)
Definition slid (words b : Z) (a : list Z) : list Z :=
  (λ i, joined b (nth (Z.to_nat (i + words)) a 0) (nth (Z.to_nat (i + words + 1)) a 0)) <$> [0; 1; 2; 3].

Lemma slide_loop_eq words b a :
  0 ≤ b → 0 ≤ words < 4 → Zlen a = 4 → slide_loop 4 0 words b a = Ret (slid words b a).
Proof.
  intros Hb Hw Hl. destruct a as [|w0 [|w1 [|w2 [|w3 [|]]]]]; try (cbn in Hl; lia). clear Hl.
  assert (words = 0 ∨ words = 1 ∨ words = 2 ∨ words = 3) as [-> | [-> | [-> | ->]]] by lia;
    unfold slid, joined; cbn [slide_loop]; destruct (b =? 0); generalize (64 - b);
    intros ?; cbv -[Z.shiftr Z.shiftl wrapu Z.lor];
    rewrite ?Z.shiftl_0_l; change (u64 0) with 0; by rewrite ?Z.lor_0_r.
Qed.

Lemma slid_bit words b a k :
  words_ok a → 0 ≤ b < 64 → 0 ≤ words < 4 → in_window k →
  wbit (slid words b a) k = if k + (64 * words + b) <? SVC_ZC_ACK_WINDOW then wbit a (k + (64 * words + b)) else false.
Proof.
  intros Ha Hb Hw Hk. pose proof Ha as [Hl HF]. unfold in_window, SVC_ZC_ACK_WORDS, SVC_ZC_ACK_WINDOW in *.
  change (256 / 64) with 4 in Hl.
  assert (Hz : ∀ i, 4 ≤ i → nth (Z.to_nat i) a 0 = 0) by (intros; apply nth_overflow; lia).
  assert (Hu : ∀ i, is_u 64 (nth (Z.to_nat i) a 0)).
  { intros i. by apply word_nth. }
  assert (E : wbit (slid words b a) k =
    Z.testbit (joined b (nth (Z.to_nat (k / 64 + words)) a 0) (nth (Z.to_nat (k / 64 + words + 1)) a 0)) (k mod 64)).
  { unfold wbit. f_equal. assert (k / 64 = 0 ∨ k / 64 = 1 ∨ k / 64 = 2 ∨ k / 64 = 3) as [-> | [-> | [-> | ->]]] by lia; done. }
  rewrite E, joined_bit by (done || lia). unfold wbit.
  set (n := k + (64 * words + b)). destruct (Z.ltb_spec (k mod 64 + b) 64).
  - assert (n / 64 = k / 64 + words ∧ n mod 64 = k mod 64 + b) as [-> ->] by lia.
    destruct (Z.ltb_spec n 256); [done|]. rewrite Hz by lia. apply Z.bits_0.
  - assert (n / 64 = k / 64 + words + 1 ∧ n mod 64 = k mod 64 + b - 64) as [-> ->] by lia.
    destruct (Z.ltb_spec n 256); [done|]. rewrite Hz by lia. apply Z.bits_0.
Qed.

Lemma window_slide_spec a n :
  words_ok a → 0 ≤ n →
  ∃ a', svc_ioq_zc_window_slide a n = Ret a' ∧ words_ok a' ∧
    ∀ k, in_window k → wbit a' k = if k + n <? SVC_ZC_ACK_WINDOW then wbit a (k + n) else false.
Proof.
  intros Ha Hn. unfold svc_ioq_zc_window_slide. destruct (window_index n) as [-> ->].
  change SVC_ZC_ACK_WORDS with 4 in *. destruct (Z.leb_spec 4 (n / 64)).
  - eexists. split; [done|]. split; [by apply words_zero|]. intros k Hk.
    unfold in_window, SVC_ZC_ACK_WINDOW in *. rewrite wbit_zero, (proj2 (Z.ltb_ge _ _)) by lia. done.
  - pose proof Ha as [Hl HF]. change (Z.to_nat 4) with 4%nat. rewrite slide_loop_eq by (done || lia).
    eexists. split; [done|]. split.
    + split; [done|]. unfold slid. apply Forall_fmap, Forall_forall. intros i _. cbn.
      apply joined_word; [lia|]. by apply word_nth.
    + intros k Hk. rewrite slid_bit by (done || lia).
      by replace (64 * (n / 64) + n mod 64) with n by lia.
Qed.

(** ** The represented set *)

(** [rec] records the cookies [R]: all those below [A], and above it the bit map. *)
Record holds (rec : zc_rec) (A : Z) (R : Z → Prop) : Prop := {
  hd_acked : zc_acked rec = u32 A;
  hd_pos : 0 ≤ A;
  hd_words : words_ok (zc_ooo_bits rec);
  hd_below : ∀ c, 0 ≤ c < A → R c;
  hd_bits : ∀ k, in_window k → wbit (zc_ooo_bits rec) k = true ↔ R (A + k);
  hd_range : ∀ c, R c → 0 ≤ c < A + SVC_ZC_ACK_WINDOW;
}.

(** Between operations the watermark is the first cookie missing. *)
Definition window_is (rec : zc_rec) (A : Z) (R : Z → Prop) : Prop := holds rec A R ∧ ¬ R A.

(** A run of confirmed cookies at the base of the window. *)
Definition run_of (a : list Z) (n : Z) : Prop := ∀ k, 0 ≤ k < n → wbit a k = true.

Lemma absorb_words_spec a fuel : ∀ adv,
  words_ok a → adv mod 64 = 0 → 0 ≤ adv ≤ SVC_ZC_ACK_WINDOW → SVC_ZC_ACK_WINDOW - adv ≤ 64 * Z.of_nat fuel →
  run_of a adv →
  ∃ adv', absorb_words fuel a adv = Ret adv' ∧ 0 ≤ adv' ≤ SVC_ZC_ACK_WINDOW ∧ run_of a adv'.
Proof.
  induction fuel as [|fuel IH]; intros adv Ha Hm Hr Hf Hrun; cbn [absorb_words];
    destruct (Z.leb_spec adv (SVC_ZC_ACK_WINDOW - 64)); cbn [negb]; try (eexists; split; [done|done]).
  { unfold SVC_ZC_ACK_WINDOW in *. lia. }
  assert (Hk : in_window adv) by (unfold in_window, SVC_ZC_ACK_WINDOW in *; lia).
  destruct (word_at a adv Ha Hk) as (w & E & Hw & En). destruct (window_index adv) as [-> _].
  rewrite E. cbn [access obind]. destruct (Z.eqb_spec w (2 ^ 64 - 1)) as [Ew|]; cbn [negb];
    [|eexists; split; [done|done]].
  apply IH; [done|unfold SVC_ZC_ACK_WINDOW in *; lia..|].
  intros k Hk2. destruct (Z_lt_le_dec k adv); [apply Hrun; lia|]. unfold wbit.
  replace (k / 64) with (adv / 64) by lia. rewrite En, Ew.
  change (2 ^ 64 - 1) with (Z.ones 64). apply Z.ones_spec_low. lia.
Qed.

Lemma absorb_bits_spec a fuel : ∀ adv,
  words_ok a → 0 ≤ adv ≤ SVC_ZC_ACK_WINDOW → SVC_ZC_ACK_WINDOW - adv ≤ Z.of_nat fuel → run_of a adv →
  ∃ adv', absorb_bits fuel a adv = Ret adv' ∧ 0 ≤ adv' ≤ SVC_ZC_ACK_WINDOW ∧ run_of a adv' ∧
    (adv' < SVC_ZC_ACK_WINDOW → wbit a adv' = false).
Proof.
  induction fuel as [|fuel IH]; intros adv Ha Hr Hf Hrun; cbn [absorb_bits];
    (destruct (Z.ltb_spec adv SVC_ZC_ACK_WINDOW); cbn [negb];
      [|exists adv; split_and!; [done|lia|lia|done|lia]]); [lia|].
  rewrite bit_test_spec by (done || (red; lia)). cbn [obind].
  destruct (wbit a adv) eqn:E; cbn [negb]; [|exists adv; split_and!; [done|lia|lia|done|done]].
  apply IH; [done|lia|lia|]. intros k Hk. destruct (decide (k = adv)) as [->|]; [done|]. apply Hrun. lia.
Qed.

(** Absorbing moves the watermark to the first cookie missing and records nothing. *)
Lemma absorb_spec rec A R :
  holds rec A R →
  ∃ A' bits', svc_ioq_zc_absorb_ooo rec = Ret (set_window (u32 A') bits' rec) ∧ A ≤ A' ∧
    window_is (set_window (u32 A') bits' rec) A' R.
Proof.
  intros H. pose proof H as []. unfold svc_ioq_zc_absorb_ooo.
  destruct (absorb_words_spec (zc_ooo_bits rec) (Z.to_nat SVC_ZC_ACK_WORDS) 0) as (n0 & E0 & Hn0 & Hr0);
    [done|done|done|done|intros ??; lia|].
  destruct (absorb_bits_spec (zc_ooo_bits rec) (Z.to_nat SVC_ZC_ACK_WINDOW) n0)
    as (n & E & Hn & Hrun & Hstop); [done|done|unfold SVC_ZC_ACK_WINDOW; lia|done|].
  rewrite E0. cbn [obind]. rewrite E. cbn [obind].
  destruct (window_slide_spec (zc_ooo_bits rec) n) as (a' & Es & Ha' & Hb); [done|lia|].
  assert (Hstop' : ¬ R (A + n)).
  { intros HR. destruct (Z_lt_le_dec n SVC_ZC_ACK_WINDOW) as [Hlt|].
    - apply hd_bits0 in HR; [|red; lia]. rewrite Hstop in HR; done.
    - apply hd_range0 in HR. lia. }
  destruct (Z.eqb_spec n 0) as [->|Hn0'].
  { exists A, (zc_ooo_bits rec). rewrite Z.add_0_r in Hstop'. rewrite <- hd_acked0.
    destruct rec; cbn. split_and!; [done|lia|split; done]. }
  exists (A + n), a'. rewrite Es. cbn [obind]. rewrite hd_acked0, u32_add_l.
  split_and!; [done|lia|]. split; [|done]. constructor; cbn; [done|lia|done|..].
  - intros c Hc. destruct (Z_lt_le_dec c A); [apply hd_below0; lia|].
    replace c with (A + (c - A)) by lia. apply hd_bits0; [red; lia|]. apply Hrun. lia.
  - intros k Hk. rewrite Hb by done. red in Hk. destruct (Z.ltb_spec (k + n) SVC_ZC_ACK_WINDOW).
    + rewrite hd_bits0 by (red; lia). by replace (A + (k + n)) with (A + n + k) by lia.
    + split; [done|]. intros HR. apply hd_range0 in HR. lia.
  - intros c HR. apply hd_range0 in HR. lia.
Qed.

(** ** Recording a range *)

Definition with_range (R : Z → Prop) (l h : Z) : Z → Prop := λ c, R c ∨ l ≤ c ≤ h.

Lemma holds_ext rec A R R' : (∀ c, R c ↔ R' c) → holds rec A R → holds rec A R'.
Proof.
  intros HR []. constructor; try done.
  - intros. apply HR. auto.
  - intros. rewrite hd_bits0 by done. apply HR.
  - intros c ?%HR. auto.
Qed.

(** The counter of lost completions is the only other field that changes. *)
Definition noting_drop (lost : bool) (rec : zc_rec) : zc_rec :=
  if lost then set_drops (u32 (zc_window_drops rec + 1)) rec else rec.

Lemma record_one rec A R c :
  holds rec A R → A < c < A + SVC_ZC_ACK_WINDOW →
  ∃ bits', svc_ioq_zc_bit_set (zc_ooo_bits rec) (c - A) = Ret bits' ∧
    holds (set_window (zc_acked rec) bits' rec) A (with_range R c c).
Proof.
  intros [] Hc. destruct (bit_set_spec (zc_ooo_bits rec) (c - A)) as (b' & E & Hb' & Hj);
    [done|red; lia|].
  exists b'. split; [done|]. unfold with_range. constructor; cbn; try done.
  - intros. left. auto.
  - intros k Hk. rewrite Hj by done. destruct (Z.eqb_spec k (c - A)) as [->|].
    + split; [right; lia|done].
    + rewrite hd_bits0 by done. split; [by left|]. intros [?|?]; [done|lia].
  - intros c' [?%hd_range0|?]; lia.
Qed.

Lemma record_loop_spec A h fuel : ∀ rec R c,
  holds rec A R → A < c ≤ h → h - A < 2 ^ 31 → A + SVC_ZC_ACK_WINDOW - c ≤ Z.of_nat fuel →
  ∃ bits', record_loop fuel rec (u32 c) (u32 h) =
      Ret (set_window (zc_acked rec) bits' (noting_drop (A + SVC_ZC_ACK_WINDOW <=? h) rec)) ∧
    holds (set_window (zc_acked rec) bits' rec) A (with_range R c (h `min` (A + SVC_ZC_ACK_WINDOW - 1))).
Proof.
  induction fuel as [|fuel IH]; intros rec R c H Hc Hh Hf; cbn [record_loop];
    rewrite (hd_acked _ _ _ H), u32_sub, (wrapu_id 32 (c - A)) by (red; lia).
  all: destruct (Z.leb_spec SVC_ZC_ACK_WINDOW (c - A)) as [Hout|Hin].
  1,3: exists (zc_ooo_bits rec); rewrite (proj2 (Z.leb_le _ h)) by lia; split;
    [destruct rec; cbn; f_equal; f_equal; by rewrite <- (hd_acked _ _ _ H)
    |destruct rec; cbn in *; rewrite <- (hd_acked _ _ _ H); cbn; eapply holds_ext; [|done]; intros x; unfold with_range; split; [by left|intros [?|?]; [done|lia]]].
  { unfold SVC_ZC_ACK_WINDOW in *. lia. }
  destruct (record_one rec A R c H) as (b1 & E1 & H1); [lia|]. rewrite E1. cbn [obind].
  rewrite cookie_eq by lia. rewrite <- (hd_acked _ _ _ H). destruct (Z.eqb_spec c h) as [->|Hne].
  - exists b1. rewrite (proj2 (Z.leb_gt _ _)) by lia. split; [done|]. eapply holds_ext; [|done].
    intros x. unfold with_range. by rewrite Z.min_l by lia.
  - replace (u32 (u32 c + 1)) with (u32 (c + 1)) by (by rewrite u32_add_l).
    destruct (IH _ _ (c + 1) H1) as (b' & E & H'); [lia..|]. cbn [zc_acked set_window] in *.
    exists b'. rewrite E. split; [by destruct (_ <=? h)|]. eapply holds_ext; [|exact H'].
    intros x. unfold with_range. split; [intros [[?|?]|?]|intros [?|?]]; [by left|right; lia..|by left; left|].
    destruct (decide (x = c)); [left; right; lia|right; lia].
Qed.
