(* ===== verification/SvcIoqZcTheorems.v ===== *)
(** * Zero-copy replies are destroyed when, and only when, the kernel is done with them

    The effect of one report of the kernel on the window, then a connection as a
    transition system: replies are started, sent in pieces, retired and harvested,
    while the kernel confirms the sends in any order.  A ghost log of the sends says
    which reply each cookie belongs to. *)
From stdpp Require Import base gmap list relations.
From Stdlib Require Import ZArith Lia.
From S2P Require Import Prelude Machine SvcIoqZc SvcIoqZcFacts.

(** ** One report *)

(** The cookies recorded after a report: what lies past the window is lost, unless the
    range reaches down to the watermark. *)
Definition recorded (A : Z) (R : Z → Prop) (l h : Z) : Z → Prop :=
  with_range R l (if l <=? A then h else h `min` (A + SVC_ZC_ACK_WINDOW - 1)).

Definition report_lost (A l h : Z) : bool := negb (l <=? A) && (A + SVC_ZC_ACK_WINDOW <=? h).

Lemma holds_drop b rec A R : holds (noting_drop b rec) A R ↔ holds rec A R.
Proof. destruct b; [|done]. split; intros []; by constructor. Qed.

Lemma window_fields acked bits b rec :
  set_window acked bits (noting_drop b rec) = noting_drop b (set_window acked bits rec).
Proof. by destruct b. Qed.

(** A report that reaches down to the watermark moves it past the range. *)
Lemma in_order_spec rec A R l h :
  holds rec A R → 0 ≤ l ≤ A → A ≤ h → h - A < 2 ^ 31 →
  ∃ bits', svc_ioq_zc_window_slide (zc_ooo_bits rec) (u32 (u32 h - u32 A + 1)) = Ret bits' ∧
    u32 (u32 A + u32 (u32 h - u32 A + 1)) = u32 (h + 1) ∧
    holds (set_window (u32 (h + 1)) bits' rec) (h + 1) (with_range R l h).
Proof.
  intros [] Hl Hh Hd.
  assert (Es : u32 (u32 h - u32 A + 1) = h - A + 1).
  { rewrite <- u32_add_l, u32_sub, u32_add_l. apply wrapu_id. red; lia. }
  rewrite Es, u32_add_l.
  destruct (window_slide_spec (zc_ooo_bits rec) (h - A + 1)) as (a' & E & Ha' & Hb); [done|lia|].
  exists a'. split_and!; [done|f_equal; lia|]. unfold with_range. constructor; cbn; [done|lia|done|..].
  - intros c Hc. destruct (Z_lt_le_dec c A); [left; apply hd_below; lia|right; lia].
  - intros k Hk. rewrite Hb by done. red in Hk. destruct (Z.ltb_spec (k + (h - A + 1)) SVC_ZC_ACK_WINDOW).
    + rewrite hd_bits by (red; lia). replace (A + (k + (h - A + 1))) with (h + 1 + k) by lia.
      split; [by left|intros [?|?]; [done|lia]].
    + split; [done|]. intros [HR|?]; [apply hd_range in HR; lia|lia].
  - intros c [HR|?]; [apply hd_range in HR; lia|unfold SVC_ZC_ACK_WINDOW; lia].
Qed.

(** Replies whose sends are not all below the watermark are left in the queue. *)
Definition waiting (rec : zc_rec) : Prop := Forall (λ x, svc_ioq_zc_xioq_done rec x = false) (zcq rec).

Lemma harvest_none rec hl : waiting rec → svc_ioq_zc_harvest_locked rec hl = (0, hl, rec).
Proof.
  unfold waiting, svc_ioq_zc_harvest_locked. intros Hw.
  assert (∀ q n, Forall (λ x, svc_ioq_zc_xioq_done rec x = false) q → harvest_loop rec q n = ([], q, n)) as E.
  { intros q n. induction 1 as [|x q Hx _ IH]; cbn; [done|]. by rewrite Hx, IH. }
  rewrite E by done. cbn. rewrite app_nil_r. by destruct rec.
Qed.

Lemma complete_spec rec A R l h hl :
  window_is rec A R → waiting rec → 0 ≤ l ≤ h → A - 2 ^ 31 ≤ l → h - l < 2 ^ 31 → h - A < 2 ^ 31 →
  ∃ A' bits', let rec' := set_window (u32 A') bits' (noting_drop (report_lost A l h) rec) in
    svc_ioq_zc_complete_locked rec (u32 l) (u32 h) hl = Ret (svc_ioq_zc_harvest_locked rec' hl) ∧
    A ≤ A' ∧ window_is rec' A' (recorded A R l h).
Proof.
  intros [H HA] Hw Hlh Hl Hs Hh. unfold svc_ioq_zc_complete_locked.
  rewrite cookie_lt, (proj2 (Z.ltb_ge h l)) by lia. rewrite (hd_acked _ _ _ H), !cookie_lt by lia.
  destruct (Z.ltb_spec h A) as [Hold|Hnew].
  { exists A, (zc_ooo_bits rec). unfold report_lost, recorded. rewrite (proj2 (Z.leb_le l A)) by lia.
    cbn [noting_drop negb andb]. rewrite <- (hd_acked _ _ _ H). rewrite harvest_none by (by destruct rec).
    assert (Hx : ∀ c, R c ↔ with_range R l h c).
    { intros c. split; [by left|]. intros [?|?]; [done|]. apply (hd_below _ _ _ H). lia. }
    split_and!; [by destruct rec|lia|]. split; [eapply holds_ext; [exact Hx|by destruct rec]|].
    by rewrite <- Hx. }
  assert (E : ∃ A1 rec1,
    (if (if l <? A then u32 A else u32 l) =? u32 A then
      let span := u32 (u32 h - (if l <? A then u32 A else u32 l) + 1) in
      let! bits := svc_ioq_zc_window_slide (zc_ooo_bits rec) span in
      Ret (set_window (u32 (u32 A + span)) bits rec)
     else record_loop (Z.to_nat SVC_ZC_ACK_WINDOW) rec (if l <? A then u32 A else u32 l) (u32 h)) =
    Ret (noting_drop (report_lost A l h) rec1) ∧ A ≤ A1 ∧
    holds rec1 A1 (recorded A R l h) ∧ ∃ a b, rec1 = set_window a b rec).
  { unfold recorded, report_lost. destruct (Z.leb_spec l A) as [Hin|Hooo]; cbn [negb andb noting_drop].
    - assert ((if l <? A then u32 A else u32 l) = u32 A) as ->.
      { destruct (Z.ltb_spec l A); [done|]. f_equal. lia. }
      rewrite Z.eqb_refl. destruct (in_order_spec rec A R l h) as (b' & Eb & Ea & Hb); [done|lia..|].
      exists (h + 1), (set_window (u32 (h + 1)) b' rec). cbv zeta. rewrite Eb. cbn [obind]. rewrite Ea.
      split_and!; [done|lia|done|eauto].
    - rewrite (proj2 (Z.ltb_ge l A)) by lia. rewrite cookie_eq, (proj2 (Z.eqb_neq l A)) by lia.
      destruct (record_loop_spec A h (Z.to_nat SVC_ZC_ACK_WINDOW) rec R l) as (b' & Eb & Hb);
        [done|lia|lia|unfold SVC_ZC_ACK_WINDOW; lia|].
      exists A, (set_window (zc_acked rec) b' rec). rewrite Eb, window_fields.
      split_and!; [done|lia|done|eauto]. }
  destruct E as (A1 & rec1 & E & HA1 & H1 & a & b & ->). cbv zeta in E |- *. rewrite E. cbn [obind].
  apply holds_drop with (b := report_lost A l h) in H1.
  destruct (absorb_spec _ _ _ H1) as (A' & bits' & Ea & HA' & Hwin). rewrite Ea. cbn [obind].
  exists A', bits'. rewrite !window_fields in *. cbn [set_window] in *. split_and!; [done|lia|done].
Qed.

(** ** A connection *)

(** [zs_writing] is the reply being transmitted; [zs_log] has, for every cookie the
    kernel assigned, the reply it was assigned for; [zs_conf] are the cookies the kernel
    has confirmed, [zs_freed] the replies destroyed; [zs_lost] says that a completion
    was dropped. *)
Record zc_sys := mk_zs {
  zs_rec : zc_rec;
  zs_writing : option zc_xioq;
  zs_log : list Z;
  zs_conf : Z → Prop;
  zs_freed : list Z;
  zs_lost : bool;
}.

(** As created with the transport. *)
Definition zc_rec_zero (ok : bool) : zc_rec :=
  mk_zc [] 0 0 0 (replicate (Z.to_nat SVC_ZC_ACK_WORDS) 0) 0 ok.
Definition zc_sys_init (ok : bool) : zc_sys := mk_zs (zc_rec_zero ok) None [] (λ _, False) [] false.

Definition ids (q : list zc_xioq) : list Z := zx_id <$> q.

(** One transmitting thread at a time, any thread draining.  The kernel confirms a send
    once, after it was made.  A reply of less than 2^32 bytes takes less than 2^32 sends
    (each carries at least one byte), and less than 2^31 sends are above the watermark. *)
Inductive zc_step : zc_sys → zc_sys → Prop :=
| zs_start s id :
    zs_writing s = None →
    id ∉ zs_log s → id ∉ zs_freed s → id ∉ ids (zcq (zs_rec s)) →
    zc_step s (mk_zs (zs_rec s) (Some (mk_zx id 0 0)) (zs_log s) (zs_conf s) (zs_freed s) (zs_lost s))
| zs_send s x :
    zs_writing s = Some x → zc_outstanding x + 1 < 2 ^ 32 →
    u32 (zc_next_cookie (zs_rec s) - zc_acked (zs_rec s)) + 1 < 2 ^ 31 →
    let r := svc_ioq_zc_note_send (zs_rec s) x in
    zc_step s (mk_zs r.1 (Some r.2) (zs_log s ++ [zx_id x]) (zs_conf s) (zs_freed s) (zs_lost s))
| zs_retire s x :
    zs_writing s = Some x →
    let r := svc_ioq_write_retire (zs_rec s) x in
    zc_step s (mk_zs r.2 None (zs_log s) (zs_conf s) (zs_freed s ++ ids (option_list r.1)) (zs_lost s))
| zs_report s l h n hs rec' :
    0 ≤ l ≤ h → h < Zlen (zs_log s) → (∀ c, l ≤ c ≤ h → ¬ zs_conf s c) →
    svc_ioq_zc_complete_locked (zs_rec s) (u32 l) (u32 h) [] = Ret (n, hs, rec') →
    zc_step s (mk_zs rec' (zs_writing s) (zs_log s) (with_range (zs_conf s) l h) (zs_freed s ++ ids hs)
      (zs_lost s || negb (zc_window_drops rec' =? zc_window_drops (zs_rec s))))
| zs_copied s :
    zc_step s (mk_zs (set_sock_ok false (zs_rec s)) (zs_writing s) (zs_log s) (zs_conf s) (zs_freed s) (zs_lost s)).

(** The cookies of [x] are those from [L] up. *)
Record owns (log : list Z) (x : zc_xioq) (L : Z) : Prop := {
  ow_lo : zc_cookie_lo x = u32 L;
  ow_pos : 0 ≤ L;
  ow_out : 0 < zc_outstanding x < 2 ^ 32;
  ow_log : ∀ i, log !! i = Some (zx_id x) ↔ L ≤ Z.of_nat i < L + zc_outstanding x;
}.

Record zinv (s : zc_sys) (A : Z) (R : Z → Prop) : Prop := {
  zi_window : window_is (zs_rec s) A R;
  zi_sent : ∀ c, zs_conf s c → 0 ≤ c < Zlen (zs_log s);
  zi_rec : ∀ c, R c → zs_conf s c;
  zi_all : zs_lost s = false → ∀ c, zs_conf s c → R c;
  zi_next : zc_next_cookie (zs_rec s) = u32 (Zlen (zs_log s));
  zi_room : Zlen (zs_log s) - A < 2 ^ 31;
  zi_zcq : Forall (λ x, ∃ L, owns (zs_log s) x L ∧
             A < L + zc_outstanding x ≤ Zlen (zs_log s)) (zcq (zs_rec s));
  zi_writing : ∀ x, zs_writing s = Some x →
     (zx_id x ∉ zs_freed s) ∧ (zx_id x ∉ ids (zcq (zs_rec s))) ∧
     ((zc_outstanding x = 0 ∧ zx_id x ∉ zs_log s) ∨
      ∃ L, owns (zs_log s) x L ∧ L + zc_outstanding x = Zlen (zs_log s));
  zi_freed : ∀ i id, zs_log s !! i = Some id → id ∈ zs_freed s → Z.of_nat i < A;
  zi_log : ∀ i id, zs_log s !! i = Some id →
     id ∈ zs_freed s ∨ id ∈ ids (zcq (zs_rec s)) ∨ ∃ x, zs_writing s = Some x ∧ zx_id x = id;
}.

(** The watermark is no further than the recorded cookies reach. *)
Lemma mark_bound rec A R N : holds rec A R → 0 ≤ N → (∀ c, R c → c < N) → 0 ≤ A ≤ N.
Proof.
  intros H HN HR. pose proof (hd_pos _ _ _ H). split; [done|].
  destruct (Z_lt_le_dec N A) as [Hlt|]; [|done]. enough (R N) as ?%HR by lia.
  apply (hd_below _ _ _ H). lia.
Qed.

Lemma zinv_mark s A R : zinv s A R → 0 ≤ A ≤ Zlen (zs_log s).
Proof.
  intros []. apply (mark_bound (zs_rec s) A R); [apply zi_window0|lia|].
  intros c Hc%zi_rec0%zi_sent0. lia.
Qed.

Lemma done_iff rec A log x L :
  zc_acked rec = u32 A → owns log x L → - 2 ^ 31 ≤ A - (L + zc_outstanding x) < 2 ^ 31 →
  svc_ioq_zc_xioq_done rec x = (L + zc_outstanding x <=? A).
Proof.
  intros Ha [] Hd. unfold svc_ioq_zc_xioq_done. rewrite (proj2 (Z.eqb_neq _ _)) by lia.
  rewrite Ha, ow_lo0, u32_add_l. by apply cookie_ge.
Qed.

Lemma zinv_waiting s A R : zinv s A R → waiting (zs_rec s).
Proof.
  intros H. pose proof (zinv_mark _ _ _ H). destruct H. destruct zi_window0 as [Hw _].
  eapply Forall_impl; [done|]. intros x (L & Ho & Hr). cbn.
  rewrite (done_iff _ A _ _ L (hd_acked _ _ _ Hw) Ho) by lia. apply Z.leb_gt. lia.
Qed.

Lemma harvest_loop_eq rec q : ∀ n,
  ∃ n', harvest_loop rec q n =
    (set_outstanding 0 <$> filter (λ x, svc_ioq_zc_xioq_done rec x = true) q,
     filter (λ x, svc_ioq_zc_xioq_done rec x = false) q, n').
Proof.
  induction q as [|x q IH]; intros n; cbn [harvest_loop]; [by eexists|].
  rewrite !filter_cons. destruct (svc_ioq_zc_xioq_done rec x).
  - destruct (IH (u32 (n - 1))) as [n' ->]. rewrite decide_True, decide_False by done. by eexists.
  - destruct (IH n) as [n' ->]. rewrite decide_False, decide_True by done. by eexists.
Qed.

Lemma harvested_ids rec q id :
  id ∈ ids (set_outstanding 0 <$> filter (λ x, svc_ioq_zc_xioq_done rec x = true) q) ↔
  ∃ x, x ∈ q ∧ zx_id x = id ∧ svc_ioq_zc_xioq_done rec x = true.
Proof.
  unfold ids. rewrite <- list_fmap_compose, list_elem_of_fmap.
  setoid_rewrite list_elem_of_filter. naive_solver.
Qed.

Lemma drops_flag b rec : negb (zc_window_drops (noting_drop b rec) =? zc_window_drops rec) = b.
Proof.
  destruct b; cbn; [|by rewrite Z.eqb_refl].
  apply negb_true_iff, Z.eqb_neq. unfold wrapu. lia.
Qed.

(** ** The invariant is kept *)

Lemma zinv_init ok : zinv (zc_sys_init ok) 0 (λ _, False).
Proof.
  constructor; cbn; try done; try lia.
  split; [|intros []]. constructor; cbn; try done; try lia.
  - split; [done|]. by repeat constructor.
  - intros k _. change [0; 0; 0; 0] with (replicate 4 0). by rewrite wbit_zero.
Qed.

Lemma zinv_start s A R id :
  zinv s A R → zs_writing s = None → id ∉ zs_log s → id ∉ zs_freed s → id ∉ ids (zcq (zs_rec s)) →
  zinv (mk_zs (zs_rec s) (Some (mk_zx id 0 0)) (zs_log s) (zs_conf s) (zs_freed s) (zs_lost s)) A R.
Proof.
  intros [] Hn H1 H2 H3. constructor; cbn; try done.
  - intros x [= <-]. cbn. auto.
  - intros i id' Hi. destruct (zi_log0 i id' Hi) as [?|[?|(x & Hx & _)]]; [by left|by right; left|congruence].
Qed.

Lemma snoc_lookup {B} (l : list B) b i c :
  (l ++ [b]) !! i = Some c ↔ l !! i = Some c ∨ (i = length l ∧ c = b).
Proof.
  rewrite lookup_app_Some. split; (intros [?|[Hi Hc]]; [by left|]).
  - apply list_lookup_singleton_Some in Hc as [? <-]. right. split; [lia|done].
  - right. subst. split; [lia|]. by rewrite Nat.sub_diag.
Qed.

(** A send of another reply does not change what a reply owns. *)
Lemma owns_snoc log x L id : zx_id x ≠ id → owns log x L → owns (log ++ [id]) x L.
Proof.
  intros Hne []. constructor; try done. intros i. rewrite <- ow_log0, snoc_lookup. naive_solver.
Qed.

Lemma owns_sent log x L :
  owns log x L → L + zc_outstanding x = Zlen log → zc_outstanding x + 1 < 2 ^ 32 →
  owns (log ++ [zx_id x]) (mk_zx (zx_id x) (zc_cookie_lo x) (u32 (zc_outstanding x + 1))) L.
Proof.
  intros [] HL Ho. constructor; cbn; rewrite ?wrapu_id by (red; lia); [done|done|lia|].
  intros i. rewrite snoc_lookup, ow_log0. split; [intros [?|[-> _]]; lia|].
  intros Hi. destruct (decide (i = length log)) as [->|]; [by right|left; lia].
Qed.

Lemma owns_first log x :
  zx_id x ∉ log → owns (log ++ [zx_id x]) (mk_zx (zx_id x) (u32 (Zlen log)) (u32 1)) (Zlen log).
Proof.
  intros Hx. constructor; cbn; [done|lia|done|]. intros i. rewrite snoc_lookup. change (u32 1) with 1. split.
  - intros [Hi|[-> _]]; [|lia]. by apply list_elem_of_lookup_2 in Hi.
  - intros ?. right. split; [lia|done].
Qed.

Lemma zinv_send s A R x :
  zinv s A R → zs_writing s = Some x → zc_outstanding x + 1 < 2 ^ 32 →
  u32 (zc_next_cookie (zs_rec s) - zc_acked (zs_rec s)) + 1 < 2 ^ 31 →
  let r := svc_ioq_zc_note_send (zs_rec s) x in
  zinv (mk_zs r.1 (Some r.2) (zs_log s ++ [zx_id x]) (zs_conf s) (zs_freed s) (zs_lost s)) A R.
Proof.
  intros H Hx Ho Hroom. cbn. pose proof (zinv_mark _ _ _ H). destruct H.
  destruct (zi_writing0 x Hx) as (Hf & Hq & Hw). destruct zi_window0 as [Hh HA].
  rewrite zi_next0, (hd_acked _ _ _ Hh), u32_sub, wrapu_id in Hroom by (red; lia).
  constructor; cbn; rewrite ?Zlen_app; try done.
  - split; [|done]. by destruct Hh.
  - intros c Hc%zi_sent0. cbn. lia.
  - rewrite zi_next0, u32_add_l. done.
  - cbn. lia.
  - apply Forall_forall. intros y Hy. rewrite Forall_forall in zi_zcq0.
    destruct (zi_zcq0 y Hy) as (L & HL & Hr). exists L. cbn. split; [|lia].
    apply owns_snoc; [|done]. intros E. apply Hq. rewrite <- E. by apply list_elem_of_fmap_2.
  - intros y [= <-]. cbn. split_and!; [done|done|]. right. destruct Hw as [[E Hn]|(L & HL & Hr)].
    + exists (Zlen (zs_log s)). rewrite E, zi_next0. cbn. split; [by apply owns_first|done].
    + exists L. rewrite (proj2 (Z.eqb_neq _ _)) by (destruct HL; lia). split; [by apply owns_sent|].
      rewrite wrapu_id by (destruct HL; red; lia). lia.
  - intros i id [Hi|[-> ->]]%snoc_lookup Hid; [by eapply zi_freed0|done].
  - intros i id [Hi|[-> ->]]%snoc_lookup; [|right; right; by eexists].
    destruct (zi_log0 i id Hi) as [?|[?|(y & Hy & Ey)]]; [by left|by right; left|].
    right; right. eexists. split; [done|]. cbn. congruence.
Qed.

Lemma zinv_retire s A R x :
  zinv s A R → zs_writing s = Some x →
  let r := svc_ioq_write_retire (zs_rec s) x in
  zinv (mk_zs r.2 None (zs_log s) (zs_conf s) (zs_freed s ++ ids (option_list r.1)) (zs_lost s)) A R.
Proof.
  intros H Hx. cbn. pose proof (zinv_mark _ _ _ H). destruct H.
  destruct (zi_writing0 x Hx) as (Hf & Hq & Hw). destruct zi_window0 as [Hh HA].
  assert (Hlog : ∀ i id, zs_log s !! i = Some id →
    id ∈ zs_freed s ∨ id ∈ ids (zcq (zs_rec s)) ∨ id = zx_id x).
  { intros i id Hi. destruct (zi_log0 i id Hi) as [?|[?|(y & Hy & Ey)]]; [auto..|]. right; right. congruence. }
  unfold svc_ioq_write_retire. destruct Hw as [[E Hn]|(L & HL & Hr)].
  { rewrite E. cbn. constructor; cbn; try done.
    - intros i id Hi Hin. apply elem_of_app in Hin as [?|Hin]; [by eapply zi_freed0|].
    apply list_elem_of_singleton in Hin as ->.
      by apply list_elem_of_lookup_2 in Hi.
    - intros i id Hi. destruct (Hlog i id Hi) as [?|[?| ->]]; [left; apply elem_of_app; auto|auto|].
      left. apply elem_of_app. right. left. }
  pose proof (ow_out _ _ _ HL). rewrite (proj2 (Z.ltb_lt _ _)) by lia.
  rewrite (done_iff _ A _ _ L (hd_acked _ _ _ Hh) HL) by lia.
  destruct (Z.leb_spec (L + zc_outstanding x) A); cbn; constructor; cbn; try done.
  - intros i id Hi Hin. apply elem_of_app in Hin as [?|Hin]; [by eapply zi_freed0|].
    apply list_elem_of_singleton in Hin as ->.
    apply (ow_log _ _ _ HL) in Hi. lia.
  - intros i id Hi. destruct (Hlog i id Hi) as [?|[?| ->]]; [left; apply elem_of_app; auto|auto|].
    left. apply elem_of_app. right. left.
  - split; [|done]. by destruct Hh.
  - apply Forall_app. split; [done|]. constructor; [|done]. exists L. split; [done|lia].
  - intros i id Hi. rewrite app_nil_r. by apply zi_freed0.
  - intros i id Hi. rewrite app_nil_r. unfold ids. rewrite fmap_app, elem_of_app.
    destruct (Hlog i id Hi) as [?|[?| ->]]; [auto..|]. right; left; right. left.
Qed.

(** A range reported for the first time is above the watermark. *)
Lemma zinv_new s A R l :
  zinv s A R → ∀ h, 0 ≤ l ≤ h → (∀ c, l ≤ c ≤ h → ¬ zs_conf s c) → A ≤ l.
Proof.
  intros H h Hlh Hnew. destruct (Z_lt_le_dec l A); [|done]. exfalso. apply (Hnew l); [lia|].
  apply (zi_rec _ _ _ H), (hd_below _ _ _ (proj1 (zi_window _ _ _ H))). lia.
Qed.

(** The state after a report, harvested replies included. *)
Lemma zinv_report s A R l h n hs rec' :
  zinv s A R → 0 ≤ l ≤ h → h < Zlen (zs_log s) → (∀ c, l ≤ c ≤ h → ¬ zs_conf s c) →
  svc_ioq_zc_complete_locked (zs_rec s) (u32 l) (u32 h) [] = Ret (n, hs, rec') →
  ∃ A', zinv (mk_zs rec' (zs_writing s) (zs_log s) (with_range (zs_conf s) l h) (zs_freed s ++ ids hs)
      (zs_lost s || negb (zc_window_drops rec' =? zc_window_drops (zs_rec s)))) A' (recorded A R l h).
Proof.
  intros H Hlh Hh Hnew E. pose proof (zinv_mark _ _ _ H) as Hm. pose proof (zinv_waiting _ _ _ H) as Hwait.
  pose proof (zinv_new _ _ _ _ H _ Hlh Hnew) as HlA. destruct H.
  destruct (complete_spec (zs_rec s) A R l h [] zi_window0 Hwait) as (A' & bits' & E' & HA' & Hw'); [lia..|].
  cbv zeta in E', Hw'. rewrite E' in E. clear E'. unfold svc_ioq_zc_harvest_locked in E.
  set (rec0 := set_window _ _ _) in *.
  assert (Hq : zcq rec0 = zcq (zs_rec s)) by (by unfold rec0; destruct (report_lost A l h)).
  assert (Hn : zc_next_cookie rec0 = zc_next_cookie (zs_rec s)) by (by unfold rec0; destruct (report_lost A l h)).
  pose proof (drops_flag (report_lost A l h) (zs_rec s) : negb (zc_window_drops rec0 =? _) = _) as Hd.
  clearbody rec0. destruct (harvest_loop_eq rec0 (zcq rec0) (zc_inflight rec0)) as [n' Eh].
  rewrite Eh in E. injection E as <- <- <-. cbn [app].
  assert (Hsent : ∀ c, with_range (zs_conf s) l h c → 0 ≤ c < Zlen (zs_log s)).
  { intros c [?|?]; [auto|lia]. }
  assert (Hrec : ∀ c, recorded A R l h c → with_range (zs_conf s) l h c).
  { intros c [?|Hc]; [left; auto|right]. destruct (l <=? A); lia. }
  assert (HA'N : 0 ≤ A' ≤ Zlen (zs_log s)).
  { apply (mark_bound rec0 A' (recorded A R l h)); [apply Hw'|lia|]. intros c Hc%Hrec%Hsent. lia. }
  assert (Hdone : ∀ x, x ∈ zcq rec0 → ∃ L, owns (zs_log s) x L ∧ L + zc_outstanding x ≤ Zlen (zs_log s) ∧
    svc_ioq_zc_xioq_done rec0 x = (L + zc_outstanding x <=? A')).
  { intros x Hx. rewrite Hq in Hx. rewrite Forall_forall in zi_zcq0. destruct (zi_zcq0 x Hx) as (L & HL & Hr).
    exists L. split_and!; [done|lia|]. apply (done_iff _ A' _ _ L (hd_acked _ _ _ (proj1 Hw')) HL). lia. }
  exists A'. constructor; cbn; try done.
  - split; [|apply Hw']. by destruct (proj1 Hw').
  - intros [Hl1 Hl2]%orb_false_iff c. rewrite Hd in Hl2.
    intros [Hc|Hc]; [left; auto|]. right. unfold report_lost in Hl2. destruct (l <=? A); [lia|].
    cbn in Hl2. apply Z.leb_gt in Hl2. lia.
  - congruence.
  - lia.
  - apply Forall_forall. intros x [Hx' Hx]%list_elem_of_filter. destruct (Hdone x Hx) as (L & HL & Hr & Ed).
    exists L. split; [done|]. rewrite Hx' in Ed. symmetry in Ed. apply Z.leb_gt in Ed. lia.
  - intros x Hx. destruct (zi_writing0 x Hx) as (Hf & Hqx & Hwx). split_and!; [..|done].
    + intros [?|(y & Hy & Ey & _)%harvested_ids]%elem_of_app; [done|]. apply Hqx. rewrite <- Ey, <- Hq. by apply list_elem_of_fmap_2.
    + intros (y & Ey & [_ Hy]%list_elem_of_filter)%list_elem_of_fmap. apply Hqx. rewrite Ey, <- Hq. by apply list_elem_of_fmap_2.
  - intros i id Hi [Hf|(y & Hy & <- & Hy')%harvested_ids]%elem_of_app; [pose proof (zi_freed0 i id Hi Hf); lia|].
    destruct (Hdone y Hy) as (L & HL & Hr & Ed). rewrite Hy' in Ed. symmetry in Ed. apply Z.leb_le in Ed.
    apply (ow_log _ _ _ HL) in Hi. lia.
  - intros i id Hi. rewrite elem_of_app, harvested_ids. destruct (zi_log0 i id Hi) as [?|[Hz|?]]; [auto| |auto].
    apply list_elem_of_fmap in Hz as (x & -> & Hx). rewrite <- Hq in Hx.
    destruct (svc_ioq_zc_xioq_done rec0 x) eqn:Ed; [left; right; eauto|]. right; left.
    apply list_elem_of_fmap_2, list_elem_of_filter. done.
Qed.

(** A dropped report leaves its last cookie unrecorded. *)
Lemma zinv_report_lost s A R l h n hs rec' :
  zinv s A R → 0 ≤ l ≤ h → h < Zlen (zs_log s) → (∀ c, l ≤ c ≤ h → ¬ zs_conf s c) →
  svc_ioq_zc_complete_locked (zs_rec s) (u32 l) (u32 h) [] = Ret (n, hs, rec') →
  zc_window_drops rec' ≠ zc_window_drops (zs_rec s) → ¬ recorded A R l h h.
Proof.
  intros H Hlh Hh Hnew E Hd. pose proof (zinv_mark _ _ _ H).
  pose proof (zinv_new _ _ _ _ H _ Hlh Hnew) as HlA.
  destruct (complete_spec (zs_rec s) A R l h [] (zi_window _ _ _ H) (zinv_waiting _ _ _ H))
    as (A' & bits' & E' & _ & _); [pose proof (zi_room _ _ _ H); lia..|].
  rewrite E' in E. clear E'. unfold svc_ioq_zc_harvest_locked in E.
  destruct (harvest_loop _ _ _) as [[hs0 q0] n0]. injection E as _ _ <-. cbn in Hd.
  pose proof (drops_flag (report_lost A l h) (zs_rec s)) as Hf.
  rewrite (proj2 (negb_true_iff _)) in Hf by (by apply Z.eqb_neq).
  unfold report_lost, recorded in *. intros [HR|Hr].
  - apply (Hnew h); [lia|]. by apply (zi_rec _ _ _ H).
  - destruct (l <=? A); [done|]. cbn in Hf. symmetry in Hf. apply Z.leb_le in Hf. lia.
Qed.

(** A step keeps the invariant; a cookie that was confirmed but not recorded stays so. *)
Lemma zinv_step s s' A R :
  zinv s A R → zc_step s s' →
  ∃ A' R', zinv s' A' R' ∧ ∀ d, zs_conf s d → ¬ R d → zs_conf s' d ∧ ¬ R' d.
Proof.
  intros H Hs. destruct Hs as [s id ????|s x ???|s x ?|s l h n hs rec' Hlh Hh Hnew E|s].
  - exists A, R. split; [by apply zinv_start|done].
  - exists A, R. split; [by apply zinv_send|done].
  - exists A, R. split; [by apply zinv_retire|done].
  - destruct (zinv_report _ _ _ _ _ _ _ _ H Hlh Hh Hnew E) as [A' H']. exists A', (recorded A R l h).
    split; [done|]. intros d Hd HR. split; [by left|]. intros [?|Hc]; [done|].
    apply (Hnew d); [|done]. destruct (l <=? A); lia.
  - exists A, R. split; [|done]. destruct H. constructor; try done. cbn. split; [|apply zi_window0].
    by destruct (proj1 zi_window0).
Qed.

Lemma zinv_steps s s' A R :
  zinv s A R → rtc zc_step s s' →
  ∃ A' R', zinv s' A' R' ∧ ∀ d, zs_conf s d → ¬ R d → zs_conf s' d ∧ ¬ R' d.
Proof.
  intros H Hs. revert A R H. induction Hs as [s|s s1 s2 H1 H2 IH]; intros A R H; [by exists A, R|].
  destruct (zinv_step _ _ _ _ H H1) as (A1 & R1 & H1' & Hk1).
  destruct (IH _ _ H1') as (A2 & R2 & H2' & Hk2). exists A2, R2. split; [done|].
  intros d Hd HR. destruct (Hk1 d Hd HR). auto.
Qed.

Lemma zinv_reachable ok s : rtc zc_step (zc_sys_init ok) s → ∃ A R, zinv s A R.
Proof.
  intros Hs. destruct (zinv_steps _ _ _ _ (zinv_init ok) Hs) as (A & R & H & _). eauto.
Qed.

(** C9. No reply is destroyed while the kernel holds its pages: on a connection that
    starts, sends, retires and harvests replies in any interleaving with the kernel's
    reports, which come in any order and may overtake the window or the wrap-around of
    the cookies, every send made for a destroyed reply has been confirmed. *)
Theorem zc_pinned_kept ok s i id :
  rtc zc_step (zc_sys_init ok) s →
  zs_log s !! i = Some id → id ∈ zs_freed s → zs_conf s (Z.of_nat i).
Proof.
  intros (A & R & H)%zinv_reachable Hi Hf. pose proof (zi_freed _ _ _ H i id Hi Hf).
  apply (zi_rec _ _ _ H), (hd_below _ _ _ (proj1 (zi_window _ _ _ H))). lia.
Qed.

(** C10. Nothing is kept for longer than needed: while no completion fell outside the
    window, once the kernel has confirmed every send and no reply is being written, the
    queue of waiting replies is empty and every reply that was sent has been destroyed. *)
Theorem zc_confirmed_freed ok s :
  rtc zc_step (zc_sys_init ok) s →
  zs_lost s = false → zs_writing s = None → (∀ c, 0 ≤ c < Zlen (zs_log s) → zs_conf s c) →
  zcq (zs_rec s) = [] ∧ ∀ id, id ∈ zs_log s → id ∈ zs_freed s.
Proof.
  intros (A & R & H)%zinv_reachable Hl Hw Hall. pose proof (zinv_mark _ _ _ H). destruct H.
  assert (Zlen (zs_log s) ≤ A).
  { destruct (Z_lt_le_dec A (Zlen (zs_log s))) as [Hlt|]; [|done]. exfalso.
    apply (proj2 zi_window0), zi_all0; [done|]. apply Hall. lia. }
  assert (Hq : zcq (zs_rec s) = []).
  { destruct (zcq (zs_rec s)) as [|x q]; [done|]. apply Forall_cons in zi_zcq0 as [(L & HL & Hr) _]. lia. }
  split; [done|]. intros id (i & Hi)%list_elem_of_lookup_1.
  destruct (zi_log0 i id Hi) as [?|[Hz|(x & Hx & _)]]; [done| |congruence].
  rewrite Hq in Hz. by apply not_elem_of_nil in Hz.
Qed.

(** A completion that falls outside the window strands more than its own reply: once
    a report has been dropped, no reply with a send at or after the range's last cookie
    is destroyed by any later completion, whatever the kernel confirms. *)
Theorem zc_lost_completion_strands ok s l h n hs rec' s' i id :
  rtc zc_step (zc_sys_init ok) s →
  0 ≤ l ≤ h → h < Zlen (zs_log s) → (∀ c, l ≤ c ≤ h → ¬ zs_conf s c) →
  svc_ioq_zc_complete_locked (zs_rec s) (u32 l) (u32 h) [] = Ret (n, hs, rec') →
  zc_window_drops rec' ≠ zc_window_drops (zs_rec s) →
  rtc zc_step (mk_zs rec' (zs_writing s) (zs_log s) (with_range (zs_conf s) l h) (zs_freed s ++ ids hs) true) s' →
  zs_log s' !! i = Some id → h ≤ Z.of_nat i → id ∉ zs_freed s'.
Proof.
  intros (A & R & H)%zinv_reachable Hlh Hh Hnew E Hd Hs Hi Hle Hf.
  pose proof (zinv_report _ _ _ _ _ _ _ _ H Hlh Hh Hnew E) as [A' H'].
  pose proof (zinv_report_lost _ _ _ _ _ _ _ _ H Hlh Hh Hnew E Hd) as Hlost.
  rewrite (proj2 (negb_true_iff _)), orb_true_r in H' by (by apply Z.eqb_neq).
  destruct (zinv_steps _ _ _ _ H' Hs) as (A2 & R2 & H2 & Hk). destruct (Hk h) as [_ HR2]; [right; lia|done|].
  pose proof (zi_freed _ _ _ H2 i id Hi Hf). apply HR2.
  apply (hd_below _ _ _ (proj1 (zi_window _ _ _ H2))). lia.
Qed.

(** ** Teardown, whatever the error queue holds *)

(** Replies move from [zcq] to the caller's list, each counted once. *)
Definition moved (rec : zc_rec) (hl : list zc_xioq) (o : out (Z * list zc_xioq * zc_rec)) (k : Z) : Prop :=
  ∃ hs rec', o = Ret (k + Zlen hs, hl ++ hs, rec') ∧ words_ok (zc_ooo_bits rec') ∧
    ids hs ++ ids (zcq rec') ≡ₚ ids (zcq rec) ∧ zc_inflight rec' = u32 (Zlen (zcq rec')).

Definition counted_zcq (rec : zc_rec) : Prop :=
  words_ok (zc_ooo_bits rec) ∧ zc_inflight rec = u32 (Zlen (zcq rec)).

Lemma moved_none rec hl k : counted_zcq rec → moved rec hl (Ret (k, hl, rec)) k.
Proof.
  intros [? ?]. exists [], rec. rewrite Z.add_0_r, app_nil_r. split_and!; done.
Qed.

Lemma harvest_moved rec hl : counted_zcq rec → moved rec hl (Ret (svc_ioq_zc_harvest_locked rec hl)) 0.
Proof.
  intros [Hw Hn]. unfold svc_ioq_zc_harvest_locked.
  assert (E : ∀ q m, 0 ≤ m → ∃ hs q', harvest_loop rec q (u32 (Zlen q + m)) = (hs, q', u32 (Zlen q' + m)) ∧
    ids hs ++ ids q' ≡ₚ ids q).
  { induction q as [|x q IH]; intros m Hm; [by exists [], []|]. cbn [harvest_loop].
    destruct (svc_ioq_zc_xioq_done rec x).
    - replace (u32 (u32 (Zlen (x :: q) + m) - 1)) with (u32 (Zlen q + m)).
      2:{ change (u32 (?a - 1)) with (u32 (a + -1)). rewrite u32_add_l. f_equal. cbn. lia. }
      destruct (IH m Hm) as (hs & q' & -> & Hp). exists (set_outstanding 0 x :: hs), q'. cbn. by rewrite Hp.
    - replace (Zlen (x :: q) + m) with (Zlen q + (m + 1)) by (cbn; lia).
      destruct (IH (m + 1)) as (hs & q' & -> & Hp); [lia|]. exists hs, (x :: q').
      split; [f_equal; f_equal; cbn; lia|]. cbn. rewrite <- Permutation_middle. by rewrite Hp. }
  destruct (E (zcq rec) 0) as (hs & q' & Eq & Hp); [done|]. rewrite Z.add_0_r in Eq. rewrite Hn, Eq.
  exists hs. eexists. split; [done|]. cbn. rewrite Z.add_0_r. done.
Qed.

Lemma record_loop_total fuel : ∀ rec c hi,
  words_ok (zc_ooo_bits rec) → SVC_ZC_ACK_WINDOW - u32 (c - zc_acked rec) ≤ Z.of_nat fuel →
  ∃ bits' b, record_loop fuel rec c hi = Ret (set_window (zc_acked rec) bits' (noting_drop b rec)) ∧ words_ok bits'.
Proof.
  induction fuel as [|fuel IH]; intros rec c hi Hw Hf; cbn [record_loop].
  all: destruct (Z.leb_spec SVC_ZC_ACK_WINDOW (u32 (c - zc_acked rec)));
    [exists (zc_ooo_bits rec), true; by destruct rec|].
  { lia. }
  pose proof (wrapu_range 32 (c - zc_acked rec)) as Hr. destruct Hr as [Hr0 Hr1]; [done|].
  destruct (bit_set_spec (zc_ooo_bits rec) (u32 (c - zc_acked rec))) as (b' & -> & Hb' & _); [done|red; lia|].
  cbn [obind]. destruct (c =? hi); [by exists b', false|].
  destruct (IH (set_window (zc_acked rec) b' rec) (u32 (c + 1)) hi) as (b2 & d & -> & H2); [done| |].
  - cbn. change (u32 (u32 (c + 1) - zc_acked rec)) with (u32 (u32 (c + 1) + - zc_acked rec)).
    rewrite u32_add_l. replace (c + 1 + - zc_acked rec) with ((c - zc_acked rec) + 1) by lia.
    rewrite <- u32_add_l, wrapu_id by (red; unfold SVC_ZC_ACK_WINDOW in *; lia). lia.
  - exists b2, d. split; [by destruct d|done].
Qed.

Lemma absorb_total rec :
  words_ok (zc_ooo_bits rec) →
  ∃ a bits', svc_ioq_zc_absorb_ooo rec = Ret (set_window a bits' rec) ∧ words_ok bits'.
Proof.
  intros Hw. unfold svc_ioq_zc_absorb_ooo.
  destruct (absorb_words_spec (zc_ooo_bits rec) (Z.to_nat SVC_ZC_ACK_WORDS) 0) as (n0 & -> & Hn0 & Hr0);
    [done|done|done|done|intros ??; lia|]. cbn [obind].
  destruct (absorb_bits_spec (zc_ooo_bits rec) (Z.to_nat SVC_ZC_ACK_WINDOW) n0)
    as (n & -> & Hn & _ & _); [done|done|unfold SVC_ZC_ACK_WINDOW; lia|done|]. cbn [obind].
  destruct (n =? 0); [exists (zc_acked rec), (zc_ooo_bits rec); by destruct rec|].
  destruct (window_slide_spec (zc_ooo_bits rec) n) as (a' & -> & Ha' & _); [done|lia|]. cbn [obind]. eauto.
Qed.

Lemma complete_moved rec lo hi hl :
  counted_zcq rec → moved rec hl (svc_ioq_zc_complete_locked rec lo hi hl) 0.
Proof.
  intros Hc. pose proof Hc as [Hw Hn]. unfold svc_ioq_zc_complete_locked.
  destruct (ZC_COOKIE_LT hi lo); [by apply moved_none|].
  destruct (ZC_COOKIE_LT hi (zc_acked rec)); [by apply moved_none|].
  cbv zeta. set (lo' := if ZC_COOKIE_LT lo _ then _ else _). clearbody lo'.
  assert (E : ∃ a bits' b, (if lo' =? zc_acked rec then
      let! bits := svc_ioq_zc_window_slide (zc_ooo_bits rec) (u32 (hi - lo' + 1)) in
      Ret (set_window (u32 (zc_acked rec + u32 (hi - lo' + 1))) bits rec)
    else record_loop (Z.to_nat SVC_ZC_ACK_WINDOW) rec lo' hi) =
    Ret (set_window a bits' (noting_drop b rec)) ∧ words_ok bits').
  { destruct (lo' =? zc_acked rec).
    - destruct (window_slide_spec (zc_ooo_bits rec) (u32 (hi - lo' + 1))) as (a' & Es & Ha' & _);
        [done|by apply wrapu_range|]. rewrite Es. by eexists _, _, false.
    - destruct (record_loop_total (Z.to_nat SVC_ZC_ACK_WINDOW) rec lo' hi) as (b' & d & -> & Hb);
        [done| |by eexists _, _, _].
      destruct (wrapu_range 32 (lo' - zc_acked rec)); [done|unfold SVC_ZC_ACK_WINDOW; lia]. }
  destruct E as (a & bits' & b & -> & Hb). cbn [obind].
  destruct (absorb_total (set_window a bits' (noting_drop b rec)) Hb) as (a2 & b2 & -> & Hb2). cbn [obind].
  destruct (harvest_moved (set_window a2 b2 (set_window a bits' (noting_drop b rec))) hl) as (hs & rec' & ?).
  { split; [done|]. by destruct b. }
  exists hs, rec'. by destruct b.
Qed.

Lemma drain_cmsgs_moved cmsgs : ∀ rec hl n,
  counted_zcq rec → moved rec hl (drain_cmsgs rec cmsgs hl n) n.
Proof.
  induction cmsgs as [|c cmsgs IH]; intros rec hl n Hc; cbn [drain_cmsgs]; [by apply moved_none|].
  destruct (svc_ioq_zc_parse_serr c) as [[[lo hi] copied]|]; [|by apply IH].
  destruct (complete_moved rec lo hi hl Hc) as (hs & rec1 & -> & Hw & Hp & Hn). cbn [obind].
  set (rec2 := if copied && zc_sock_ok rec1 then _ else _).
  assert (H2 : counted_zcq rec2 ∧ zcq rec2 = zcq rec1) by (unfold rec2; by destruct (_ && _)).
  destruct H2 as [H2 Hq]. destruct (IH rec2 (hl ++ hs) (n + (0 + Zlen hs)) H2) as (hs2 & rec3 & -> & Hw3 & Hp3 & Hn3).
  exists (hs ++ hs2), rec3. rewrite Zlen_app, <- app_assoc. split_and!; [do 3 f_equal; lia|done| |done].
  unfold ids in *. by rewrite fmap_app, <- app_assoc, Hp3, Hq.
Qed.

Lemma drain_loop_moved msgs : ∀ rec hl n,
  counted_zcq rec → moved rec hl (drain_loop rec msgs hl n) n.
Proof.
  induction msgs as [|c msgs IH]; intros rec hl n Hc; cbn [drain_loop]; [by apply moved_none|].
  destruct (drain_cmsgs_moved c rec hl 0 Hc) as (hs & rec1 & -> & Hw & Hp & Hn). cbn [obind].
  destruct (IH rec1 (hl ++ hs) (n + (0 + Zlen hs))) as (hs2 & rec3 & -> & Hw3 & Hp3 & Hn3); [done|].
  exists (hs ++ hs2), rec3. rewrite Zlen_app, <- app_assoc. split_and!; [do 3 f_equal; lia|done| |done].
  unfold ids in *. by rewrite fmap_app, <- app_assoc, Hp3.
Qed.

(** One drain destroys what it harvests and releases as many references. *)
Definition released (rec : zc_rec) (o : out (list zc_xioq * Z * zc_rec)) (done0 : list zc_xioq) : Prop :=
  ∃ hs rec', o = Ret (done0 ++ hs, Zlen (done0 ++ hs), rec') ∧ counted_zcq rec' ∧
    ids hs ++ ids (zcq rec') ≡ₚ ids (zcq rec).

Lemma drain_released enabled rec msgs : counted_zcq rec → released rec (svc_ioq_zc_drain enabled rec msgs) [].
Proof.
  intros Hc. unfold svc_ioq_zc_drain, svc_ioq_zc_drain_collect.
  assert (H : moved rec [] (if negb enabled then Ret (0, [], rec) else
    if negb (zc_sock_ok rec) && (zc_inflight rec =? 0) then Ret (0, [], rec) else drain_loop rec msgs [] 0) 0).
  { destruct enabled; [|by apply moved_none]. destruct (_ && _); [by apply moved_none|].
    by apply drain_loop_moved. }
  destruct H as (hs & rec' & -> & Hw & Hp & Hn). cbn [obind app].
  exists hs, rec'. rewrite Z.add_0_l. destruct (Z.ltb_spec 0 (Zlen hs)); [done|].
  destruct hs; [done|cbn in *; lia].
Qed.

Lemma teardown_released n : ∀ rec tries freed,
  counted_zcq rec → released rec (teardown_loop n rec tries freed (Zlen freed)) freed.
Proof.
  induction n as [|n IH]; intros rec tries freed Hc; cbn [teardown_loop].
  { exists [], rec. by rewrite app_nil_r. }
  destruct (drain_released true rec (default [] (head tries)) Hc) as (hs & rec1 & -> & Hc1 & Hp).
  cbn [obind app]. rewrite <- Zlen_app. destruct (zc_inflight rec1 =? 0); [by exists hs, rec1|].
  destruct (IH rec1 (tail tries) (freed ++ hs) Hc1) as (hs2 & rec2 & -> & Hc2 & Hp2).
  exists (hs ++ hs2), rec2. rewrite app_assoc. split_and!; [done|done|].
  unfold ids in *. by rewrite fmap_app, <- app_assoc, Hp2.
Qed.

(** Teardown is exact whatever the error queue holds, including malformed and
    unexpected completions: it ends, every waiting reply is destroyed exactly once, one
    transport reference is released for each, and nothing is left in flight. *)
Theorem zc_teardown_exact enabled fd_open rec tries :
  words_ok (zc_ooo_bits rec) → zc_inflight rec = u32 (Zlen (zcq rec)) →
  ∃ freed rec', svc_ioq_zc_release_all enabled fd_open rec tries = Ret (freed, Zlen freed, rec') ∧
    ids freed ≡ₚ ids (zcq rec) ∧ zcq rec' = [] ∧ zc_inflight rec' = 0.
Proof.
  intros Hw Hn. unfold svc_ioq_zc_release_all.
  assert (H : released rec (if enabled && (0 <? zc_inflight rec) && fd_open
    then teardown_loop SVC_ZC_TEARDOWN_TRIES rec tries [] 0 else Ret ([], 0, rec)) []).
  { destruct (_ && fd_open); [by apply (teardown_released _ rec tries [])|]. by exists [], rec. }
  destruct H as (hs & rec1 & -> & [Hw1 Hn1] & Hp). cbn [obind app].
  eexists _, _. split; [by rewrite <- Zlen_app|]. split_and!; [|done|].
  - unfold ids in *. by rewrite fmap_app.
  - cbn. rewrite Hn1. change (u32 (?a - ?b)) with (u32 (a + - b)). rewrite u32_add_l, Z.add_opp_diag_r. done.
Qed.

(** ** Runs *)

Fixpoint try_sends (n : nat) (s : zc_sys) : option zc_sys :=
  match n, zs_writing s with
  | O, _ => Some s
  | S n, Some x =>
      if (zc_outstanding x + 1 <? 2 ^ 32) &&
         (u32 (zc_next_cookie (zs_rec s) - zc_acked (zs_rec s)) + 1 <? 2 ^ 31)
      then let r := svc_ioq_zc_note_send (zs_rec s) x in
           try_sends n (mk_zs r.1 (Some r.2) (zs_log s ++ [zx_id x]) (zs_conf s) (zs_freed s) (zs_lost s))
      else None
  | _, None => None
  end.

Lemma try_sends_steps n : ∀ s s', try_sends n s = Some s' → rtc zc_step s s'.
Proof.
  induction n as [|n IH]; intros s s' H; cbn in H.
  { destruct (zs_writing s); simplify_eq; done. }
  destruct (zs_writing s) as [x|] eqn:Ex; [|done].
  destruct (Z.ltb_spec (zc_outstanding x + 1) (2 ^ 32)); [|done]. cbn [andb] in H.
  destruct (Z.ltb_spec (u32 (zc_next_cookie (zs_rec s) - zc_acked (zs_rec s)) + 1) (2 ^ 31)); [|done].
  eapply rtc_l; [by apply (zs_send s x)|]. by apply IH.
Qed.

Definition first_reply : zc_sys := mk_zs (zc_rec_zero true) (Some (mk_zx 7 0 0)) [] (λ _, False) [] false.

Lemma first_reply_reached : rtc zc_step (zc_sys_init true) first_reply.
Proof. apply rtc_once, (zs_start (zc_sys_init true) 7); [done|by apply not_elem_of_nil..]. Qed.

(** Two sends, retired, then confirmed in one report. *)
Definition two_sent : zc_sys :=
  mk_zs (mk_zc [mk_zx 7 0 2] 1 2 0 [0; 0; 0; 0] 0 true) None [7; 7] (λ _, False) [] false.
Definition two_confirmed : zc_sys :=
  mk_zs (mk_zc [] 0 2 2 [0; 0; 0; 0] 0 true) None [7; 7] (with_range (λ _, False) 0 1) [7] false.

Lemma two_confirmed_reached : rtc zc_step (zc_sys_init true) two_confirmed.
Proof.
  etrans; [apply first_reply_reached|].
  etrans; [by apply (try_sends_steps 2)|]. cbn.
  eapply rtc_l; [by apply (zs_retire _ (mk_zx 7 0 2))|].
  apply rtc_once. change (zc_step two_sent two_confirmed).
  apply (zs_report two_sent 0 1 1 [mk_zx 7 0 0] (mk_zc [] 0 2 2 [0; 0; 0; 0] 0 true));
    [lia|by vm_compute|by intros ?? []|by vm_compute].
Qed.

Lemma zc_pinned_kept_witness : zs_conf two_confirmed 1.
Proof. apply (zc_pinned_kept true two_confirmed 1 7 two_confirmed_reached eq_refl). left. Defined.

Lemma zc_confirmed_freed_witness :
  zcq (zs_rec two_confirmed) = [] ∧ ∀ id, id ∈ zs_log two_confirmed → id ∈ zs_freed two_confirmed.
Proof.
  apply (zc_confirmed_freed true two_confirmed two_confirmed_reached eq_refl eq_refl).
  intros c Hc. right. cbn in Hc. lia.
Defined.

(** One reply in 258 sends, of which the kernel confirms the last first. *)
Definition many_sent : zc_sys :=
  mk_zs (mk_zc [] 0 258 0 [0; 0; 0; 0] 0 true) (Some (mk_zx 7 0 258)) (replicate 258 7) (λ _, False) [] false.

Lemma many_sent_reached : rtc zc_step (zc_sys_init true) many_sent.
Proof.
  etrans; [apply first_reply_reached|]. apply (try_sends_steps 258). by vm_compute.
Qed.

Lemma zc_lost_completion_strands_witness :
  7 ∉ zs_freed (mk_zs (mk_zc [] 0 258 0 [0; 0; 0; 0] 1 true) (Some (mk_zx 7 0 258)) (replicate 258 7)
                  (with_range (λ _, False) 257 257) [] true).
Proof.
  eapply (zc_lost_completion_strands true many_sent 257 257 0 [] (mk_zc [] 0 258 0 [0; 0; 0; 0] 1 true) _ 257 7
    many_sent_reached); [lia|by vm_compute|by intros ?? []|by vm_compute|done|apply rtc_refl|done|lia].
Defined.

Lemma zc_teardown_exact_witness :
  ∃ freed rec', svc_ioq_zc_release_all true true (zs_rec two_sent) [[[mk_cmsg 0 11 32 5 0 9 3]]] =
      Ret (freed, Zlen freed, rec') ∧
    ids freed ≡ₚ [7] ∧ zcq rec' = [] ∧ zc_inflight rec' = 0.
Proof.
  apply (zc_teardown_exact true true (zs_rec two_sent)); [|done].
  split; [done|]. by repeat constructor.
Defined.
