(* ===== verification/SvcIoq.v ===== *)
(** * Writing replies on a stream (src/svc_ioq.c)

    A reply is a buffer queue; [svc_ioq_flushv] sends it as a record of fragments, each
    behind a four-byte header, in as many calls of [sendmsg] as the socket takes, and
    remembers in the reply how far it came.  [svc_ioq_write] sends the replies of a
    connection in the order they were queued.  The socket is a list of answers: how
    many bytes each call takes, or its error; past the end of the list it takes nothing
    more for now. *)
From stdpp Require Import base gmap list.
From Stdlib Require Import ZArith Lia.
From S2P Require Import Prelude Machine XdrHandle XdrMem XdrIoq SvcIoqZc.

Definition LAST_FRAG : Z := 2 ^ 31.
Definition LAST_FRAG_XDR_UNITS : Z := Z.land (LAST_FRAG - 1) (Z.lnot (BYTES_PER_XDR_UNIT - 1)).
Definition PRESUMED_UIO_MAXIOV : Z := 1024.
Definition EAGAIN : Z := 11.
Definition EWOULDBLOCK : Z := EAGAIN.
Definition ENOBUFS : Z := 105.

(** A queued reply: its buffers and the transmission state of [struct xdr_ioq]. *)
Record out_xioq := mk_ox {
  ox_xdrs : XDRQ;
  write_start : Z;
  frag_hdr_bytes_sent : Z;
  has_blocked : bool;
  ox_zc : zc_xioq;
}.

Definition set_frag_hdr_bytes_sent (n : Z) (x : out_xioq) : out_xioq :=
  mk_ox (ox_xdrs x) (write_start x) n (has_blocked x) (ox_zc x).
Definition set_has_blocked (x : out_xioq) : out_xioq :=
  mk_ox (ox_xdrs x) (write_start x) (frag_hdr_bytes_sent x) true (ox_zc x).
Definition set_progress (start hdr : Z) (x : out_xioq) : out_xioq :=
  mk_ox (ox_xdrs x) start hdr (has_blocked x) (ox_zc x).
Definition set_ox_zc (z : zc_xioq) (x : out_xioq) : out_xioq :=
  mk_ox (ox_xdrs x) (write_start x) (frag_hdr_bytes_sent x) (has_blocked x) z.
Definition set_ox_xdrs (q : XDRQ) (x : out_xioq) : out_xioq :=
  mk_ox q (write_start x) (frag_hdr_bytes_sent x) (has_blocked x) (ox_zc x).

(** As created with its buffers. *)
Definition fresh_reply (id : Z) (q : XDRQ) : out_xioq := mk_ox q 0 0 false (mk_zx id 0 0).

(** ** The socket *)

Inductive send_answer := Sent (n : Z) | SendErr (errno : Z).

(** The bytes the peer gets, the answers to come, and the zero-copy state. *)
Record out_sock := mk_os {
  os_wire : list Z;
  os_answers : list send_answer;
  os_zc : zc_rec;
}.

(** The number of bytes taken from the vector, or [errno]. *)
Definition sendmsg (os : out_sock) (iov : list (list Z)) : (Z + Z) * out_sock :=
  match os_answers os with
  | [] => (inr EAGAIN, os)
  | Sent n :: ans =>
      let bs := take (Z.to_nat n) (concat iov) in
      (inl (Zlen bs), mk_os (os_wire os ++ bs) ans (os_zc os))
  | SendErr e :: ans => (inr e, mk_os (os_wire os) ans (os_zc os))
  end.

(** [tcp_zerocopy_enabled] and [tcp_zerocopy_min_bytes] of [__svc_params]. *)
Record zc_params := mk_zp { tcp_zerocopy_enabled : bool; tcp_zerocopy_min_bytes : Z }.

(** ** Sending one reply *)

(** The first [n] entries of the vector, as the bytes they designate. *)
Definition iov_entry (h : heap) (v : xdr_vio) : out (list Z) :=
  access (load h (vio_head v) (Z.to_nat (vio_length v))).

Fixpoint iov_of (h : heap) (vs : list xdr_vio) (n : nat) : out (list (list Z)) :=
  match n, vs with
  | O, _ => Ret []
  | S n, [] => Ub
  | S n, v :: vs => let! e := iov_entry h v in let! es := iov_of h vs n in Ret (e :: es)
  end.

(** [sendmsg], once more without MSG_ZEROCOPY when that is refused. *)
Definition send_vector (os : out_sock) (iov : list (list Z)) (use_zc : bool)
    : (Z + Z) * bool * out_sock :=
  let '(result, os) := sendmsg os iov in
  match result with
  | inr e => if use_zc && (e =? ENOBUFS)
             then let '(result, os) := sendmsg os iov in (result, false, os)
             else (result, use_zc, os)
  | inl _ => (result, use_zc, os)
  end.

(** From [again] to the end of the fragment header: the error (0 when there is none) and
    the number of data bytes sent. *)
Fixpoint flush_again (fuel : nat) (os : out_sock) (x : out_xioq) (hdr : list Z)
    (data : list (list Z)) (use_zc : bool) : out (Z * Z * out_sock * out_xioq) :=
  let '(result, use_zc, os) := send_vector os (hdr :: data) use_zc in
  match result with
  | inr e => if e =? EAGAIN then Ret (EWOULDBLOCK, 0, os, set_has_blocked x) else Ret (-1, 0, os, x)
  | inl n =>
      let '(os, x) :=
        if use_zc && (0 <? n)
        then let '(rec, z) := svc_ioq_zc_note_send (os_zc os) (ox_zc x) in
             (mk_os (os_wire os) (os_answers os) rec, set_ox_zc z x)
        else (os, x) in
      if n <? Zlen hdr then
        match fuel with
        | O => OutOfFuel
        | S fuel =>
            flush_again fuel os (set_frag_hdr_bytes_sent (frag_hdr_bytes_sent x + n) x)
              (drop (Z.to_nat n) hdr) data use_zc
        end
      else Ret (0, n - Zlen hdr, os, set_frag_hdr_bytes_sent 4 x)
  end.

Definition at_fragment (start : Z) : bool :=
  (start =? 0) || (start =? LAST_FRAG_XDR_UNITS) || (start =? 2 * LAST_FRAG_XDR_UNITS).

(** One round of the loop up to the result of [sendmsg].  [room] is the number of entries
    the vectors were allocated for; a header is announced by [frag_needed] and placed in
    the first entry. *)
Definition flush_once (zp : zc_params) (room last_frag : Z) (os : out_sock) (x : out_xioq)
    (fbytes remaining : Z) (frag_needed : bool) : out (Z * Z * out_sock * out_xioq) :=
  let '(iov_count, q) := xdr_ioq_iovcount (ox_xdrs x) (write_start x) fbytes in
  let iov_count := u32 iov_count in
  let boundary := at_fragment (write_start x) in
  let hdr := if boundary
             then drop (Z.to_nat (frag_hdr_bytes_sent x)) (be32 (Z.lor fbytes last_frag)) else [] in
  if frag_needed && negb boundary then Ub else
  let needed := if boundary then 1 else 0 in
  let '(vio, ok, q) := xdr_ioq_fillbufs q (write_start x) fbytes in
  let x := set_ox_xdrs q x in
  if room <? Zlen vio then Ub else
  if negb ok then Ret (-1, 0, os, x) else
  let iov_count := if PRESUMED_UIO_MAXIOV <? iov_count + needed
                   then PRESUMED_UIO_MAXIOV - needed else iov_count in
  let! data := iov_of (x_mem q) vio (Z.to_nat iov_count) in
  let use_zc := tcp_zerocopy_enabled zp && zc_sock_ok (os_zc os) && (tcp_zerocopy_min_bytes zp <=? remaining) in
  flush_again (length (os_answers os)) os x hdr data use_zc.

(** [while (remaining > 0)]. *)
Fixpoint flush_loop (fuel : nat) (zp : zc_params) (room last_frag : Z) (os : out_sock) (x : out_xioq)
    (fbytes remaining : Z) (frag_needed : bool) : out (Z * out_sock * out_xioq) :=
  if remaining <=? 0 then Ret (0, os, x) else
  match fuel with
  | O => OutOfFuel
  | S fuel =>
      let! (error, result, os, x) := flush_once zp room last_frag os x fbytes remaining frag_needed in
      if negb (error =? 0) then Ret (error, os, x) else
      let remaining := u32 (remaining - result) in
      let fbytes := u32 (fbytes - result) in
      let start := u32 (write_start x + result) in
      if fbytes =? 0 then
        flush_loop fuel zp room last_frag os (set_progress start 0 x)
          (if LAST_FRAG_XDR_UNITS <? remaining then LAST_FRAG_XDR_UNITS else remaining) remaining true
      else
        flush_loop fuel zp room last_frag os (set_progress start (frag_hdr_bytes_sent x) x) fbytes remaining false
  end.

(** The fragment [write_start] lies in, of the two or three the data needs: how much of
    it is left, and the flag of its header. *)
Definition fragment_at (end_ start : Z) : Z * Z :=
  if 2 * LAST_FRAG_XDR_UNITS <? end_ then
    if start <? LAST_FRAG_XDR_UNITS then (LAST_FRAG_XDR_UNITS - start, 0)
    else if start <? 2 * LAST_FRAG_XDR_UNITS then (2 * LAST_FRAG_XDR_UNITS - start, 0)
    else (u32 (end_ - start), LAST_FRAG)
  else if LAST_FRAG_XDR_UNITS <? end_ then
    if start <? LAST_FRAG_XDR_UNITS then (LAST_FRAG_XDR_UNITS - start, 0)
    else (u32 (end_ - start), LAST_FRAG)
  else (u32 (end_ - start), LAST_FRAG).

(** 0 when all was sent, [EWOULDBLOCK], or a negative number on errors. *)
Definition svc_ioq_flushv (zp : zc_params) (os : out_sock) (x : out_xioq) : out (Z * out_sock * out_xioq) :=
  let q := ioq_tail_update (ox_xdrs x) in
  let '(end_, q) := xdr_ioq_getpos q in
  let remaining := u32 (end_ - write_start x) in
  let '(room, q) := xdr_ioq_iovcount q (write_start x) remaining in
  let '(fbytes, last_frag) := fragment_at end_ (write_start x) in
  flush_loop (S (length (os_answers os))) zp (u32 room) last_frag os (set_ox_xdrs q x) fbytes remaining false.

(** ** The write queue *)

(** [writeq], the zero-copy fields and the rest of the transport: [oc_destroyed] is
    SVC_XPRT_FLAG_DESTROYED, [oc_refs] the references held for queued replies and
    [oc_armed] that the event loop waits for the socket to take more. *)
Record out_chan := mk_ch {
  oc_queue : list out_xioq;
  oc_sock : out_sock;
  oc_destroyed : bool;
  oc_refs : Z;
  oc_armed : bool;
}.

Definition set_oc_zc (rec : zc_rec) (refs : Z) (ch : out_chan) : out_chan :=
  mk_ch (oc_queue ch) (mk_os (os_wire (oc_sock ch)) (os_answers (oc_sock ch)) rec) (oc_destroyed ch) refs (oc_armed ch).

(** [while (have != NULL)]: the replies destroyed, [destroy_xprt] and [local_counter].
    [active] says that the thread pool has not been shut down, [arm] whether
    [svc_rqst_evchan_write] succeeds. *)
Fixpoint write_loop (zp : zc_params) (active arm : bool) (q : list out_xioq) (os : out_sock)
    (destroyed : bool) (refs : Z) (armed : bool) (freed : list zc_xioq) (local_counter : Z)
    : out (list zc_xioq * bool * Z * out_chan) :=
  match q with
  | [] => Ret (freed, false, local_counter, mk_ch [] os destroyed refs armed)
  | x :: q =>
      let! (rc, os, x) := if active && negb destroyed then svc_ioq_flushv zp os x else Ret (0, os, x) in
      if (rc <? 0) || destroyed then Ret (freed, true, local_counter, mk_ch (x :: q) os destroyed refs armed) else
      if rc =? EWOULDBLOCK then Ret (freed, false, local_counter, mk_ch (x :: q) os destroyed refs arm) else
      let armed := if has_blocked x then false else armed in
      let local_counter := if 0 <? zc_outstanding (ox_zc x) then u32 (local_counter + 1) else local_counter in
      let '(done, rec) := svc_ioq_write_retire (os_zc os) (ox_zc x) in
      let os := mk_os (os_wire os) (os_answers os) rec in
      match done with
      | None => write_loop zp active arm q os destroyed refs armed freed local_counter
      | Some z => write_loop zp active arm q os destroyed (refs - 1) armed (freed ++ [z]) local_counter
      end
  end.

(** The error queue [errq] is looked at when there is reason to. *)
Definition write_drain (zp : zc_params) (errq : list (list cmsghdr)) (freed : list zc_xioq)
    (local_counter : Z) (ch : out_chan) : out (list zc_xioq * Z * out_chan) :=
  let rec := os_zc (oc_sock ch) in
  if tcp_zerocopy_enabled zp && ((local_counter <? zc_inflight rec) || (8 <? local_counter)) then
    let! (hs, k, rec) := svc_ioq_zc_drain true rec errq in
    Ret (freed ++ hs, 0, set_oc_zc rec (oc_refs ch - k) ch)
  else Ret (freed, local_counter, ch).

(** Whether the caller is to run the writer; a reply for a destroyed transport is
    destroyed at once. *)
Definition add_ioq_to_write_queue (ch : out_chan) (x : out_xioq) : bool * list zc_xioq * out_chan :=
  if oc_destroyed ch then (false, [ox_zc x], ch) else
  (match oc_queue ch with [] => true | _ => false end, [],
   mk_ch (oc_queue ch ++ [x]) (oc_sock ch) (oc_destroyed ch) (oc_refs ch + 1) (oc_armed ch)).

(** Replies that other threads add, with the number of those threads that are to run the
    writer. *)
Fixpoint add_all (ch : out_chan) (xs : list out_xioq) : nat * list zc_xioq * out_chan :=
  match xs with
  | [] => (0%nat, [], ch)
  | x :: xs =>
      let '(need, fs, ch) := add_ioq_to_write_queue ch x in
      let '(n, fs', ch) := add_all ch xs in
      (((if need : bool then 1 else 0) + n)%nat, fs ++ fs', ch)
  end.

(** The loop, the drain, and the jump back to the loop when there is something new to
    send.  [errqs] is the error queue at each drain, [late] what other threads queue
    during the first. *)
Fixpoint write_rounds (fuel : nat) (zp : zc_params) (active arm : bool) (errqs : list (list (list cmsghdr)))
    (late : list out_xioq) (freed : list zc_xioq) (local_counter : Z) (ch : out_chan)
    : out (list zc_xioq * nat * bool * out_chan) :=
  let! (freed, destroy_xprt, local_counter, ch) :=
    write_loop zp active arm (oc_queue ch) (oc_sock ch) (oc_destroyed ch) (oc_refs ch) (oc_armed ch) freed local_counter in
  let! (freed, local_counter, ch) := write_drain zp (default [] (head errqs)) freed local_counter ch in
  let '(n, fs, ch) := add_all ch late in
  let freed := freed ++ fs in
  if tcp_zerocopy_enabled zp && negb destroy_xprt && negb (oc_destroyed ch) &&
     match oc_queue ch with x :: _ => negb (has_blocked x) | [] => false end
  then
    match fuel with
    | O => OutOfFuel
    | S fuel =>
        let! (freed, n', destroy_xprt, ch) :=
          write_rounds fuel zp active arm (tail errqs) [] freed local_counter ch in
        Ret (freed, (n + n')%nat, destroy_xprt, ch)
    end
  else Ret (freed, n, destroy_xprt, ch).

(** One run of the thread that set SVC_XPRT_FLAG_IOQ_WRITING: the replies destroyed and
    the threads that are to run next. *)
Definition svc_ioq_write (zp : zc_params) (active arm : bool) (errqs : list (list (list cmsghdr)))
    (late : list out_xioq) (ch : out_chan) : out (list zc_xioq * nat * out_chan) :=
  let! (freed, n, destroy_xprt, ch) := write_rounds 1 zp active arm errqs late [] 0 ch in
  Ret (freed, n, if destroy_xprt : bool
                 then mk_ch (oc_queue ch) (oc_sock ch) true (oc_refs ch) (oc_armed ch) else ch).

Definition svc_ioq_write_now (zp : zc_params) (active arm : bool) (errqs : list (list (list cmsghdr)))
    (late : list out_xioq) (ch : out_chan) (x : out_xioq) : out (list zc_xioq * nat * out_chan) :=
  let '(need_processing, fs, ch) := add_ioq_to_write_queue ch x in
  if need_processing : bool
  then let! (freed, n, ch) := svc_ioq_write zp active arm errqs late ch in Ret (fs ++ freed, n, ch)
  else Ret (fs, 0%nat, ch).

(** The run of the writer is left to a worker. *)
Definition svc_ioq_write_submit (ch : out_chan) (x : out_xioq) : list zc_xioq * nat * out_chan :=
  let '(need_processing, fs, ch) := add_ioq_to_write_queue ch x in
  (fs, if need_processing : bool then 1%nat else 0%nat, ch).
