(* ===== verification/SvcIoqFacts.v ===== *)
(** * Facts about sending one reply

    The vectors of a reply never outgrow what was allocated for them, and each call of
    [sendmsg] moves a prefix of what is left of the framed reply to the wire. *)
From stdpp Require Import base gmap list.
From Stdlib Require Import ZArith Lia.
From S2P Require Import Prelude Machine XdrHandle XdrMem XdrIoq XdrIoqFacts XdrIoqTheorems SvcIoqZc SvcIoq.

Lemma LAST_FRAG_XDR_UNITS_eq : LAST_FRAG_XDR_UNITS = 2147483644.
Proof. done. Qed.

#[global] Opaque LAST_FRAG_XDR_UNITS.

(** ** Vectors *)

Lemma ordered_length h uv w :
  seg h uv = Some w → ordered uv → Zlen w < 2 ^ 32 → ioquv_length uv = Zlen w ∧ u32 (ioquv_length uv) = Zlen w.
Proof.
  intros Hs Ho Hw. pose proof (load_length _ _ _ _ Hs) as Hl. red in Ho.
  assert (E : ioquv_length uv = Zlen w).
  { unfold ioquv_length. rewrite wrapu_id by (unfold is_u; lia). lia. }
  rewrite E. split; [done|]. apply wrapu_id. unfold is_u. lia.
Qed.

(** The number of entries up to the end of the data, from a position in the first buffer. *)
Lemma fillbufs_here h uv q (w1 w2 : list Z) f s :
  seg h uv = Some w1 → ordered uv → Zlen w1 + Zlen w2 < 2 ^ 32 → f = true ∨ s < Zlen w1 → 0 ≤ s ≤ Zlen w1 →
  length (fillbufs_loop (uv :: q) f s (Zlen w1 + Zlen w2 - s)).1 =
    if Zlen w2 =? 0 then 1%nat else S (length (fillbufs_loop q true 0 (Zlen w2)).1).
Proof.
  intros H1 Ho Hw Hf Hs. destruct (ordered_length h uv w1 H1 Ho) as [_ El]; [lia|].
  cbn [fillbufs_loop]. rewrite El.
  assert (Ef : (if f then (true, s) else if s <? Zlen w1 then (true, s) else (false, u32 (s - Zlen w1))) = (true, s)).
  { destruct f; [done|]. destruct Hf; [done|]. by rewrite (proj2 (Z.ltb_lt _ _)). }
  rewrite Ef. set (v := set_vio_type VIO_DATA (uv_v uv)).
  assert (∃ v', (if 0 <? s then (u32 (Zlen w1 - s), set_vio_head (vio_head v + s) v) else (Zlen w1, v)) = (Zlen w1 - s, v'))
    as [v' ->].
  { destruct (Z.ltb_spec 0 s); [rewrite wrapu_id by (red; lia); eauto|].
    replace (Zlen w1 - s) with (Zlen w1) by lia. eauto. }
  rewrite (proj2 (Z.ltb_ge _ _)) by lia. replace (Zlen w1 + Zlen w2 - s - (Zlen w1 - s)) with (Zlen w2) by lia.
  rewrite wrapu_id by (red; lia).
  destruct (Z.eqb_spec (Zlen w1 + Zlen w2 - s) (Zlen w1 - s)), (Z.eqb_spec (Zlen w2) 0); try lia; [done|].
  by destruct (fillbufs_loop q true 0 (Zlen w2)).
Qed.

(** The vector from a later position has no more entries. *)
Lemma fillbufs_mono h q : ∀ w f s s',
  segs h q = Some w → Forall ordered q → Zlen w < 2 ^ 32 → (f = true → s = 0) → 0 ≤ s ≤ s' → s' < Zlen w →
  (length (fillbufs_loop q false s' (Zlen w - s')).1 ≤ length (fillbufs_loop q f s (Zlen w - s)).1)%nat.
Proof.
  induction q as [|uv q IH]; intros w f s s' Hs Ho Hw Hf Hss Hs'.
  { injection Hs as <-. cbn in Hs'. lia. }
  apply segs_cons in Hs as (w1 & w2 & H1 & H2 & ->). apply Forall_cons in Ho as [Ho1 Ho2].
  rewrite Zlen_app in *. destruct (ordered_length h uv w1 H1 Ho1) as [_ El]; [lia|].
  assert (Hskip : ∀ t, Zlen w1 ≤ t → t < Zlen w1 + Zlen w2 →
    fillbufs_loop (uv :: q) false t (Zlen w1 + Zlen w2 - t) =
    fillbufs_loop q false (t - Zlen w1) (Zlen w2 - (t - Zlen w1))).
  { intros t Ht Ht'. cbn [fillbufs_loop]. rewrite El, (proj2 (Z.ltb_ge t _)), wrapu_id by (done || red; lia).
    f_equal. lia. }
  destruct (Z_lt_le_dec s' (Zlen w1)); [|rewrite (Hskip s') by lia].
  - rewrite !(fillbufs_here h) by (done || lia || (right; lia)). done.
  - destruct (decide (f = true ∨ s < Zlen w1)) as [Hfound|Hnot].
    + assert (s ≤ Zlen w1) by (destruct Hfound as [->|]; [rewrite Hf by done|]; lia).
      rewrite (fillbufs_here h) by (done || lia).
      rewrite (proj2 (Z.eqb_neq _ _)) by lia.
      pose proof (IH w2 true 0 (s' - Zlen w1) H2 Ho2) as IH'. rewrite Z.sub_0_r in IH'.
      apply le_S, IH'; lia || done.
    + destruct f; [naive_solver|]. rewrite (Hskip s) by lia. apply IH; done || lia.
Qed.

(** ** Sending *)

Lemma take_length_take {B} n (l : list B) : take (length (take n l)) l = take n l.
Proof. rewrite length_take. destruct (Nat.min_spec n (length l)) as [[? ->]|[? ->]]; [done|]. by rewrite !take_ge by lia. Qed.

Lemma sendmsg_spec os iov :
  match sendmsg os iov with
  | (inl n, os') => os_wire os' = os_wire os ++ take (Z.to_nat n) (concat iov) ∧
      0 ≤ n ≤ Zlen (concat iov) ∧ (length (os_answers os') < length (os_answers os))%nat
  | (inr _, os') => os_wire os' = os_wire os ∧ (length (os_answers os') ≤ length (os_answers os))%nat
  end.
Proof.
  unfold sendmsg. destruct (os_answers os) as [|[n|e] ans] eqn:E; cbn.
  - rewrite E. done.
  - rewrite Nat2Z.id, take_length_take, length_take. split_and!; [done|lia..].
  - split; [done|lia].
Qed.

Lemma send_vector_spec os iov zc :
  match send_vector os iov zc with
  | (inl n, _, os') => os_wire os' = os_wire os ++ take (Z.to_nat n) (concat iov) ∧
      0 ≤ n ≤ Zlen (concat iov) ∧ (length (os_answers os') < length (os_answers os))%nat
  | (inr _, _, os') => os_wire os' = os_wire os ∧ (length (os_answers os') ≤ length (os_answers os))%nat
  end.
Proof.
  unfold send_vector. pose proof (sendmsg_spec os iov) as H1. destruct (sendmsg os iov) as [[n|e] os1]; [done|].
  destruct (zc && (e =? ENOBUFS)); [|done]. destruct H1 as [Hw Hl].
  pose proof (sendmsg_spec os1 iov) as H2. destruct (sendmsg os1 iov) as [[n|e'] os2]; cbn.
  - destruct H2 as (-> & ? & ?). rewrite Hw. split_and!; [done|lia..].
  - destruct H2 as (-> & ?). rewrite Hw. split; [done|lia].
Qed.

(** A reply whose buffers and position are those of [x]. *)
Definition same_place (x x' : out_xioq) : Prop :=
  ox_xdrs x' = ox_xdrs x ∧ write_start x' = write_start x.

(** What one pass through [again] does with the rest [hdr] of the header and the data [D]. *)
Definition pass (os : out_sock) (x : out_xioq) (hdr D : list Z) (r : Z * Z * out_sock * out_xioq) : Prop :=
  let '(e, n, os', x') := r in
  same_place x x' ∧
  ((e = 0 ∧ 0 ≤ n ≤ Zlen D ∧ os_wire os' = os_wire os ++ hdr ++ take (Z.to_nat n) D ∧
    frag_hdr_bytes_sent x' = 4 ∧ (length (os_answers os') < length (os_answers os))%nat) ∨
   ((e = EWOULDBLOCK ∧ has_blocked x' = true ∨ e = -1) ∧
    ∃ k, (k = 0 ∨ 0 ≤ k < Zlen hdr) ∧ os_wire os' = os_wire os ++ take (Z.to_nat k) hdr ∧
      frag_hdr_bytes_sent x' = frag_hdr_bytes_sent x + k)).

Lemma flush_again_spec fuel : ∀ os x hdr data zc,
  (length (os_answers os) ≤ fuel)%nat →
  ∃ r, flush_again fuel os x hdr data zc = Ret r ∧ pass os x hdr (concat data) r.
Proof.
  induction fuel as [|fuel IH]; intros os x hdr data zc Hf; cbn [flush_again];
    pose proof (send_vector_spec os (hdr :: data) zc) as Hs;
    destruct (send_vector os (hdr :: data) zc) as [[[n|e] zc'] os1].
  2,4: destruct Hs as [Hw _]; destruct (Z.eqb_spec e EAGAIN); (eexists; split; [done|]);
    (split; [done|]); right; (split; [auto|]); exists 0; rewrite app_nil_r, Z.add_0_r; auto.
  { lia. }
  destruct Hs as (Hw & Hn & Hl). cbn [concat] in *. rewrite Zlen_app in Hn.
  set (st := if zc' && (0 <? n) then _ else _).
  assert (Hst : ∃ os2 x2, st = (os2, x2) ∧ os_wire os2 = os_wire os1 ∧ os_answers os2 = os_answers os1 ∧
    same_place x x2 ∧ frag_hdr_bytes_sent x2 = frag_hdr_bytes_sent x).
  { unfold st. destruct (_ && _); [by eexists _, _|by eexists _, _]. }
  destruct Hst as (os2 & x2 & -> & Hw2 & Ha2 & [Hx Hy] & Hh2).
  destruct (Z.ltb_spec n (Zlen hdr)).
  - destruct (IH os2 (set_frag_hdr_bytes_sent (frag_hdr_bytes_sent x2 + n) x2) (drop (Z.to_nat n) hdr) data zc')
      as ([[[e m] os3] x3] & -> & [Hx3 Hy3] & Hr); [rewrite Ha2; lia|].
    eexists. split; [done|]. cbn in Hx3, Hy3, Hr. split; [split; congruence|]. rewrite Hw2, Hw in Hr.
    rewrite take_app_le in Hr by lia. destruct Hr as [(-> & Hm & Hw3 & Hh3 & Hl3)|(He & k & Hk & Hw3 & Hh3)].
    + left. rewrite <- app_assoc, (app_assoc (take _ hdr)), take_drop in Hw3. rewrite Ha2 in Hl3.
      split_and!; [done|lia..|done|done|lia].
    + right. split; [done|]. exists (n + k). rewrite length_drop in Hk. split_and!; [lia| |lia].
      by rewrite Hw3, <- app_assoc, take_take_drop, Z2Nat.inj_add by lia.
  - eexists. split; [done|]. split; [done|]. left. cbn. rewrite Hw2, Hw, Ha2, take_app_ge by lia.
    replace (Z.to_nat n - length hdr)%nat with (Z.to_nat (n - Zlen hdr)) by lia. split_and!; try done; lia.
Qed.

(** ** A reply that fits one fragment *)

(** The record on the wire: the length with the mark of the last fragment, then the data. *)
Definition frame (w : list Z) : list Z := be32 (Z.lor (Zlen w) LAST_FRAG) ++ w.

(** [x] holds the encoded reply [w] and is somewhere in sending it. *)
Record sending (x : out_xioq) (w : list Z) : Prop := {
  sd_segs : segs (x_mem (ox_xdrs x)) (uvq (x_private (ioq_tail_update (ox_xdrs x)))) = Some w;
  sd_ordered : Forall ordered (uvq (x_private (ioq_tail_update (ox_xdrs x))));
  sd_count : Zlen (uvq (x_private (ioq_tail_update (ox_xdrs x)))) < 2 ^ 32;
  sd_pos : (xdr_ioq_getpos (ox_xdrs x)).1 = u32 (Zlen w);
  sd_size : 0 < Zlen w ≤ LAST_FRAG_XDR_UNITS;
  sd_start : 0 ≤ write_start x ≤ Zlen w;
  sd_hdr : 0 ≤ frag_hdr_bytes_sent x ≤ 4;
}.

(** What is left of the record. *)
Definition unsent (x : out_xioq) (w : list Z) : list Z :=
  if write_start x =? 0 then drop (Z.to_nat (frag_hdr_bytes_sent x)) (frame w)
  else drop (Z.to_nat (write_start x)) w.

Lemma tail_update_idem (x : XDRQ) : ioq_tail_update (ioq_tail_update x) = ioq_tail_update x.
Proof.
  unfold ioq_tail_update at 2 3. destruct (Z.ltb_spec (vio_tail (x_v x)) (x_data x)) as [Hlt|Hge].
  - unfold ioq_tail_update. cbn. by rewrite Z.ltb_irrefl.
  - unfold ioq_tail_update. by rewrite (proj2 (Z.ltb_ge _ _)).
Qed.

Lemma tail_update_mem (x : XDRQ) : x_mem (ioq_tail_update x) = x_mem x.
Proof. unfold ioq_tail_update. by destruct (_ <? _). Qed.

Lemma getpos_tail (x : XDRQ) : (xdr_ioq_getpos (ioq_tail_update x)).1 = (xdr_ioq_getpos x).1.
Proof. unfold xdr_ioq_getpos. cbn. by rewrite tail_update_idem. Qed.

Lemma fillbufs_count q : ∀ f s d, (length (fillbufs_loop q f s d).1 ≤ length q)%nat.
Proof.
  induction q as [|uv q IH]; intros f s d; [cbn; lia|]. cbn [fillbufs_loop length].
  destruct (if f then _ else _) as [[|] s']; [|specialize (IH false s' d); lia].
  destruct (if 0 <? s' then _ else _) as [len v]. destruct (d <? len); [cbn; lia|].
  destruct (d =? len); [cbn; lia|]. specialize (IH true 0 (u32 (d - len))).
  destruct (fillbufs_loop q true 0 _). cbn in *. lia.
Qed.

Lemma iov_of_prefix h vs : ∀ D n,
  vector_bytes h vs = Some D → (n ≤ length vs)%nat →
  ∃ data E, iov_of h vs n = Ret data ∧ D = concat data ++ E.
Proof.
  induction vs as [|v vs IH]; intros D [|n] Hv Hn; cbn [iov_of]; try (cbn in Hn; lia).
  - by exists [], D.
  - by exists [], D.
  - cbn in Hv. destruct (vio_bytes h v) as [b|] eqn:Eb; [|done].
    destruct (vector_bytes h vs) as [D'|] eqn:ED; [|done]. injection Hv as <-.
    destruct (IH D' n eq_refl) as (data & E & Ei & ->); [cbn in Hn; lia|].
    unfold vio_bytes in Eb. destruct (vio_tail v =? _); [|done]. unfold iov_entry. rewrite Eb. cbn [access obind].
    rewrite Ei. cbn [obind]. exists (b :: data), E. cbn. by rewrite app_assoc.
Qed.

Lemma at_fragment_one s n : 0 ≤ s < n → n ≤ LAST_FRAG_XDR_UNITS → at_fragment s = (s =? 0).
Proof.
  intros Hs Hn. unfold at_fragment. rewrite LAST_FRAG_XDR_UNITS_eq in *.
  by rewrite (proj2 (Z.eqb_neq s 2147483644)), (proj2 (Z.eqb_neq s (2 * 2147483644))), !orb_false_r by lia.
Qed.

(** The vector of what is left of the data. *)
Lemma sending_vector x w :
  sending x w → write_start x < Zlen w →
  let q := uvq (x_private (ioq_tail_update (ox_xdrs x))) in
  let d := Zlen w - write_start x in
  ∃ vs, fillbufs_loop q false (write_start x) d = (vs, true) ∧
    u32 (iovcount_loop q (write_start x) d (-1)) = Zlen vs ∧
    vector_bytes (x_mem (ox_xdrs x)) vs = Some (drop (Z.to_nat (write_start x)) w).
Proof.
  intros [] Hs q d. rewrite LAST_FRAG_XDR_UNITS_eq in *.
  destruct (vector_range (x_mem (ox_xdrs x)) q w (write_start x) d) as [H _]; [done|done|lia..|].
  destruct H as (vs & E & Hv & En); [rewrite length_drop; lia|].
  exists vs. split; [done|]. split.
  - rewrite En, Z.add_0_l. apply wrapu_id. pose proof (fillbufs_count q false (write_start x) d) as Hc.
    rewrite E in Hc. cbn in Hc. fold q in sd_count0. red. lia.
  - rewrite Hv, take_ge; [done|]. rewrite length_drop. lia.
Qed.

(** The rest of the header that precedes the data. *)
Definition hdr_left (x : out_xioq) (w : list Z) : list Z :=
  if write_start x =? 0
  then drop (Z.to_nat (frag_hdr_bytes_sent x)) (be32 (Z.lor (Zlen w) LAST_FRAG)) else [].

Lemma unsent_eq x w :
  0 ≤ frag_hdr_bytes_sent x ≤ 4 → unsent x w = hdr_left x w ++ drop (Z.to_nat (write_start x)) w.
Proof.
  intros Hh. unfold unsent, hdr_left, frame. destruct (Z.eqb_spec (write_start x) 0) as [->|]; [|done].
  by rewrite drop_app_le by (rewrite be32_length; lia).
Qed.

Lemma unsent_at t h x w :
  0 ≤ t → (t = 0 → h = 4) → unsent (set_progress t h x) w = drop (Z.to_nat t) w.
Proof.
  intros Ht Hh. unfold unsent, frame. cbn. destruct (Z.eqb_spec t 0) as [->|]; [|done].
  rewrite (Hh eq_refl). by rewrite drop_app_ge by (rewrite be32_length; lia).
Qed.

(** How a run of the sender ends. *)
Definition flush_result (os : out_sock) (x : out_xioq) (w : list Z) (r : Z * out_sock * out_xioq) : Prop :=
  let '(e, os', x') := r in
  sending x' w ∧ os_wire os' ++ unsent x' w = os_wire os ++ unsent x w ∧
  (e = 0 ∧ unsent x' w = [] ∨ e = EWOULDBLOCK ∧ has_blocked x' = true ∨ e = -1).

Lemma sending_tail x w : sending x w → sending (set_ox_xdrs (ioq_tail_update (ox_xdrs x)) x) w.
Proof.
  intros []. constructor; cbn; rewrite ?tail_update_idem, ?tail_update_mem, ?getpos_tail; done.
Qed.

Lemma sending_moved x x' w t h :
  sending x w → ox_xdrs x' = ox_xdrs x → 0 ≤ t ≤ Zlen w → 0 ≤ h ≤ 4 → sending (set_progress t h x') w.
Proof. intros [] E Ht Hh. by constructor; cbn; rewrite ?E. Qed.

Lemma flush_result_error os x w os' x' e k :
  sending x w → same_place x x' →
  (e = EWOULDBLOCK ∧ has_blocked x' = true ∨ e = -1) →
  (k = 0 ∨ 0 ≤ k < Zlen (hdr_left x w)) → os_wire os' = os_wire os ++ take (Z.to_nat k) (hdr_left x w) →
  frag_hdr_bytes_sent x' = frag_hdr_bytes_sent x + k → flush_result os x w (e, os', x').
Proof.
  intros Hx [Eq Es] He Hk Hw Hf. pose proof (sd_hdr _ _ Hx) as Hh.
  assert (Hk4 : 0 ≤ frag_hdr_bytes_sent x' ≤ 4).
  { rewrite Hf. unfold hdr_left in Hk. destruct (write_start x =? 0); [|cbn in Hk; lia].
    rewrite length_drop, be32_length in Hk. lia. }
  assert (Hx' : sending x' w) by (destruct Hx; constructor; rewrite ?Eq, ?Es; done).
  split; [done|]. split; [|by right]. rewrite Hw, !unsent_eq, Es, <- app_assoc by done. f_equal.
  rewrite app_assoc. f_equal. unfold hdr_left in *. rewrite Es, Hf.
  destruct (write_start x =? 0); [|cbn in Hk; by replace k with 0 by lia].
  rewrite Z2Nat.inj_add, <- drop_drop by lia. apply take_drop.
Qed.

Lemma take_then_drop {B} (s n : Z) (w D E : list B) :
  drop (Z.to_nat s) w = D ++ E → 0 ≤ s → 0 ≤ n ≤ Zlen D →
  take (Z.to_nat n) D ++ drop (Z.to_nat (s + n)) w = drop (Z.to_nat s) w.
Proof.
  intros HD Hs Hn. rewrite Z2Nat.inj_add, <- drop_drop, HD, drop_app_le, app_assoc by lia.
  by rewrite take_drop.
Qed.

(** One round, with [D] the part of the data that fits the vector of one call. *)
Lemma flush_once_spec zp w room os x :
  sending x w → write_start x < Zlen w →
  Zlen (fillbufs_loop (uvq (x_private (ioq_tail_update (ox_xdrs x)))) false (write_start x)
          (Zlen w - write_start x)).1 ≤ room →
  let x1 := set_ox_xdrs (ioq_tail_update (ox_xdrs x)) x in
  let d := Zlen w - write_start x in
  ∃ D E r, drop (Z.to_nat (write_start x)) w = D ++ E ∧
    flush_once zp room LAST_FRAG os x d d false = Ret r ∧ pass os x1 (hdr_left x1 w) D r.
Proof.
  intros Hx Hlt Hroom x1 d. subst d. pose proof (sd_size _ _ Hx) as Hz. pose proof (sd_start _ _ Hx) as Hs.
  destruct (sending_vector x w Hx Hlt) as (vs & Ev & Ec & Hv). rewrite Ev in Hroom. cbn [fst] in Hroom.
  unfold flush_once, xdr_ioq_iovcount, xdr_ioq_fillbufs. rewrite tail_update_idem, Ec, Ev.
  rewrite (at_fragment_one _ (Zlen w)) by lia. cbn [andb]. rewrite (proj2 (Z.ltb_ge room _)) by lia. cbn [negb].
  set (cnt := if PRESUMED_UIO_MAXIOV <? _ then _ else _).
  assert (Hcnt : 0 ≤ cnt ≤ Zlen vs).
  { unfold cnt, PRESUMED_UIO_MAXIOV. destruct (write_start x =? 0); case_match eqn:E; try apply Z.ltb_lt in E; lia. }
  destruct (iov_of_prefix (x_mem (ox_xdrs x)) vs _ (Z.to_nat cnt) Hv) as (data & E & Ei & HD); [lia|].
  rewrite tail_update_mem, Ei. cbn [obind].
  assert (Ehdr : (if write_start x =? 0 then drop (Z.to_nat (frag_hdr_bytes_sent x))
      (be32 (Z.lor (Zlen w - write_start x) LAST_FRAG)) else []) = hdr_left x1 w).
  { unfold hdr_left. cbn. destruct (Z.eqb_spec (write_start x) 0) as [->|]; [by rewrite Z.sub_0_r|done]. }
  rewrite Ehdr. destruct (flush_again_spec (length (os_answers os)) os x1 (hdr_left x1 w) data
    (tcp_zerocopy_enabled zp && zc_sock_ok (os_zc os) && (tcp_zerocopy_min_bytes zp <=? Zlen w - write_start x))) as (r & Er & Hr); [lia|].
  exists (concat data), E, r. done.
Qed.

Lemma flush_loop_spec zp w room fuel : ∀ os x,
  sending x w → (length (os_answers os) < fuel)%nat →
  (write_start x < Zlen w →
   Zlen (fillbufs_loop (uvq (x_private (ioq_tail_update (ox_xdrs x)))) false (write_start x)
          (Zlen w - write_start x)).1 ≤ room) →
  ∃ r, flush_loop fuel zp room LAST_FRAG os x (Zlen w - write_start x) (Zlen w - write_start x) false = Ret r ∧
    flush_result os x w r.
Proof.
  induction fuel as [|fuel IH]; intros os x Hx Hf Hroom; [lia|]. cbn [flush_loop].
  pose proof (sd_size _ _ Hx) as Hz. pose proof (sd_start _ _ Hx) as Hs. pose proof (sd_hdr _ _ Hx) as Hh.
  pose proof LAST_FRAG_XDR_UNITS_eq as EL. destruct (Z.leb_spec (Zlen w - write_start x) 0) as [Hdone|Hleft].
  { eexists. split; [done|]. split; [done|]. split; [done|]. left. split; [done|].
    unfold unsent. rewrite (proj2 (Z.eqb_neq _ _)) by lia. apply drop_ge. lia. }
  specialize (Hroom ltac:(lia)).
  destruct (flush_once_spec zp w room os x Hx) as (D & E & [[[e n] os2] x2] & HD & -> & [Hq2 Hs2] & Hr); [lia|done|].
  cbn [obind]. set (x1 := set_ox_xdrs _ x) in *. assert (Hx1 : sending x1 w) by (by apply sending_tail).
  destruct Hr as [(-> & Hn & Hw2 & Hh2 & Hl2)|(He & k & Hk & Hw2 & Hh2)].
  2:{ assert (negb (e =? 0) = true) as -> by (destruct He as [[-> _]| ->]; done). eexists. split; [done|].
      by apply (flush_result_error os x1 w os2 x2 e k). }
  cbn [Z.eqb negb]. apply (f_equal length) in HD as HDl. rewrite length_drop, length_app in HDl.
  rewrite !(wrapu_id 32 (_ - n)), wrapu_id by (red; rewrite ?Hs2; cbn; lia). rewrite Hs2. cbn [x1 set_ox_xdrs write_start].
  assert (Hwire : os_wire os2 ++ drop (Z.to_nat (write_start x + n)) w = os_wire os ++ unsent x w).
  { rewrite Hw2, (unsent_eq x), <- !app_assoc by done. do 2 f_equal.
    apply (take_then_drop _ _ _ _ E); [done|lia|lia]. }
  replace (Zlen w - write_start x - n) with (Zlen w - (write_start x + n)) by lia.
  destruct (Z.eqb_spec (Zlen w - (write_start x + n)) 0) as [Hend|Hmore].
  - rewrite (proj2 (Z.ltb_ge _ _)) by lia. assert (Et : write_start x + n = Zlen w) by lia. rewrite Et, Z.sub_diag in *.
    destruct fuel as [|fuel]; [lia|]. cbn [flush_loop Z.leb Z.compare]. eexists. split; [done|].
    split; [by apply (sending_moved x1); [done|done|lia..]|].
    rewrite unsent_at by lia. split; [done|]. left. split; [done|]. apply drop_ge. lia.
  - rewrite Hh2. destruct (IH os2 (set_progress (write_start x + n) 4 x2)) as (r & Er & Hr); [|lia| |].
    + apply (sending_moved x1); [done|done|lia..].
    + cbn. intros _. rewrite Hq2. cbn. rewrite tail_update_idem. etrans; [|exact Hroom].
      apply Nat2Z.inj_le. eapply fillbufs_mono; [apply Hx|apply Hx|lia|done|lia|lia].
    + exists r. split; [exact Er|]. destruct r as [[e3 os3] x3]. destruct Hr as (H3 & Hw3 & He3).
      split; [done|]. split; [|done]. by rewrite Hw3, unsent_at by lia.
Qed.

(** One call of [svc_ioq_flushv], wherever the previous one stopped. *)
Lemma flushv_spec zp os x w :
  sending x w → ∃ r, svc_ioq_flushv zp os x = Ret r ∧ flush_result os x w r.
Proof.
  intros Hx. pose proof (sd_size _ _ Hx) as Hz. pose proof (sd_start _ _ Hx) as Hs.
  pose proof LAST_FRAG_XDR_UNITS_eq as EL. unfold svc_ioq_flushv.
  destruct (xdr_ioq_getpos (ioq_tail_update (ox_xdrs x))) as [pos q] eqn:Ep.
  assert (pos = Zlen w ∧ q = ioq_tail_update (ox_xdrs x)) as [-> ->].
  { pose proof (getpos_tail (ox_xdrs x)) as Hg. rewrite (sd_pos _ _ Hx), Ep, wrapu_id in Hg by (red; lia).
    split; [done|]. unfold xdr_ioq_getpos in Ep. injection Ep as _ <-. apply tail_update_idem. }
  unfold xdr_ioq_iovcount, fragment_at. rewrite tail_update_idem.
  rewrite (proj2 (Z.ltb_ge (2 * _) _)), (proj2 (Z.ltb_ge LAST_FRAG_XDR_UNITS _)) by lia.
  rewrite (wrapu_id 32 (Zlen w - write_start x)) by (red; lia).
  destruct (flush_loop_spec zp w (u32 (iovcount_loop (uvq (x_private (ioq_tail_update (ox_xdrs x)))) (write_start x)
      (Zlen w - write_start x) (-1))) (S (length (os_answers os))) os
      (set_ox_xdrs (ioq_tail_update (ox_xdrs x)) x)) as (r & Er & Hr); [by apply sending_tail|lia| |].
  - cbn. intros Hlt. rewrite tail_update_idem. destruct (sending_vector x w Hx Hlt) as (vs & -> & -> & _). done.
  - exists r. done.
Qed.

(** ** What sending does not touch *)

(** The zero-copy state but for the cookies. *)
Definition zc_same (r r' : zc_rec) : Prop :=
  zcq r' = zcq r ∧ zc_inflight r' = zc_inflight r ∧ zc_ooo_bits r' = zc_ooo_bits r.

Definition kept (os : out_sock) (x : out_xioq) (os' : out_sock) (x' : out_xioq) : Prop :=
  zc_same (os_zc os) (os_zc os') ∧ zx_id (ox_zc x') = zx_id (ox_zc x).

Lemma kept_trans os x os1 x1 os2 x2 : kept os x os1 x1 → kept os1 x1 os2 x2 → kept os x os2 x2.
Proof. unfold kept, zc_same. intros [(? & ? & ?) ?] [(? & ? & ?) ?]. split_and!; congruence. Qed.

Lemma sendmsg_zc os iov : os_zc (sendmsg os iov).2 = os_zc os.
Proof. unfold sendmsg. by destruct (os_answers os) as [|[]]. Qed.

Lemma send_vector_zc os iov zc : os_zc (send_vector os iov zc).2 = os_zc os.
Proof.
  unfold send_vector. pose proof (sendmsg_zc os iov) as H1. destruct (sendmsg os iov) as [[n|e] os1]; [done|].
  destruct (zc && _); [|done]. pose proof (sendmsg_zc os1 iov) as H2. destruct (sendmsg os1 iov). cbn in *. congruence.
Qed.

Lemma flush_again_kept fuel : ∀ os x hdr data zc e n os' x',
  flush_again fuel os x hdr data zc = Ret (e, n, os', x') → kept os x os' x'.
Proof.
  induction fuel as [|fuel IH]; intros os x hdr data zc e n os' x' E; cbn [flush_again] in E;
    pose proof (send_vector_zc os (hdr :: data) zc) as Hz;
    destruct (send_vector os (hdr :: data) zc) as [[[m|er] zc'] os1]; cbn in Hz.
  2,4: destruct (er =? EAGAIN); injection E as <- <- <- <-; split; by rewrite ?Hz.
  all: set (st := if zc' && (0 <? m) then _ else _) in E;
    assert (Hst : ∃ os2 x2, st = (os2, x2) ∧ kept os x os2 x2)
      by (unfold st; destruct (_ && _); eexists _, _; (split; [done|]); split; by rewrite <- ?Hz);
    destruct Hst as (os2 & x2 & Est & Hk); rewrite Est in E; destruct (m <? Zlen hdr).
  - done.
  - by injection E as <- <- <- <-.
  - eapply kept_trans; [exact Hk|]. apply IH in E. done.
  - by injection E as <- <- <- <-.
Qed.

Lemma flush_once_kept zp room lf os x d rem fn e n os' x' :
  flush_once zp room lf os x d rem fn = Ret (e, n, os', x') → kept os x os' x'.
Proof.
  unfold flush_once. destruct (xdr_ioq_iovcount _ _ _) as [cnt q], (_ && negb _); [done|].
  destruct (xdr_ioq_fillbufs _ _ _) as [[vio ok] q'], (room <? _); [done|]. destruct ok; cbn [negb].
  - destruct (iov_of _ _ _); cbn [obind]; [|done..]. intros E. by apply flush_again_kept in E.
  - by intros [= <- <- <- <-].
Qed.

Lemma flush_loop_kept fuel zp room lf : ∀ os x d rem fn e os' x',
  flush_loop fuel zp room lf os x d rem fn = Ret (e, os', x') → kept os x os' x'.
Proof.
  induction fuel as [|fuel IH]; intros os x d rem fn e os' x' E; cbn [flush_loop] in E;
    (destruct (rem <=? 0); [by injection E as <- <- <-|]); [done|].
  destruct (flush_once zp room lf os x d rem fn) as [[[[e1 n] os1] x1]| | |] eqn:E1; cbn [obind] in E; [|done..].
  apply flush_once_kept in E1. destruct (negb (e1 =? 0)); [by injection E as <- <- <-|].
  eapply kept_trans; [exact E1|]. destruct (u32 _ =? 0); apply IH in E; done.
Qed.

Lemma flushv_kept zp os x e os' x' : svc_ioq_flushv zp os x = Ret (e, os', x') → kept os x os' x'.
Proof.
  unfold svc_ioq_flushv. destruct (xdr_ioq_getpos _) as [end_ q], (xdr_ioq_iovcount _ _ _) as [room q'].
  destruct (fragment_at _ _) as [fb lf]. intros E. by apply flush_loop_kept in E.
Qed.
