(* ===== verification/SvcIoqTheorems.v ===== *)
(** * Replies reach the wire whole, framed and in order

    Any interleaving of threads that queue replies, of workers and of writability events
    that run the writer, with the socket taking the bytes in pieces of any size,
    blocking and failing at any point. *)
From stdpp Require Import base gmap list.
From Stdlib Require Import ZArith Lia.
From S2P Require Import Prelude Machine XdrHandle XdrMem XdrIoq XdrIoqFacts XdrIoqTheorems SvcIoqZc SvcIoqZcFacts SvcIoqZcTheorems SvcIoq SvcIoqFacts.

(** ** The state between runs *)

(** What is left of the queued replies [ws], in order. *)
Definition backlog (q : list out_xioq) (ws : list (list Z)) : list Z := concat (zip_with unsent q ws).

(** While the transport lives, wire and queue together are the framed replies [dn]; the
    wire of a failed one is a beginning of that. *)
Definition in_order (ch : out_chan) (dn : list (list Z)) : Prop :=
  if oc_destroyed ch then ∃ rest, os_wire (oc_sock ch) ++ rest = concat (frame <$> dn)
  else ∃ ws, Forall2 sending (oc_queue ch) ws ∧
         os_wire (oc_sock ch) ++ backlog (oc_queue ch) ws = concat (frame <$> dn).

Definition oid (x : out_xioq) : Z := zx_id (ox_zc x).
Definition oc_zcq (ch : out_chan) : list zc_xioq := zcq (os_zc (oc_sock ch)).

(** The replies [all] are queued, wait for the kernel or were destroyed, and each of the
    first two kinds holds a reference. *)
Record chan_ok (ch : out_chan) (freed : list zc_xioq) (dn : list (list Z)) (all : list Z) : Prop := {
  co_order : in_order ch dn;
  co_zc : counted_zcq (os_zc (oc_sock ch));
  co_refs : oc_refs ch = Zlen (oc_queue ch) + Zlen (oc_zcq ch);
  co_ids : (oid <$> oc_queue ch) ++ ids (oc_zcq ch) ++ ids freed ≡ₚ all;
}.

(** The writer ended because there is nothing to send, or waits for the socket. *)
Definition settled (arm : bool) (ch : out_chan) : Prop :=
  oc_queue ch = [] ∨ oc_armed ch = arm ∧ match oc_queue ch with x :: _ => has_blocked x = true | [] => True end.

Lemma backlog_app q1 q2 ws1 ws2 :
  length q1 = length ws1 → backlog (q1 ++ q2) (ws1 ++ ws2) = backlog q1 ws1 ++ backlog q2 ws2.
Proof. intros. unfold backlog. by rewrite zip_with_app, concat_app. Qed.

Lemma kept_counted os x os' x' : kept os x os' x' → counted_zcq (os_zc os) → counted_zcq (os_zc os').
Proof. intros [(Hq & Hi & Hb) _]. unfold counted_zcq. by rewrite Hq, Hi, Hb. Qed.

(** ** The loop *)

(** The first reply of the queue made progress. *)
Lemma flush_head zp os x q refs armed freed dn all :
  chan_ok (mk_ch (x :: q) os false refs armed) freed dn all →
  ∃ e os' x', svc_ioq_flushv zp os x = Ret (e, os', x') ∧
    (∀ armed', chan_ok (mk_ch (x' :: q) os' false refs armed') freed dn all) ∧
    (e = 0 ∧ (∃ w, unsent x' w = [] ∧ sending x' w ∧ ∃ ws, Forall2 sending q ws ∧
       os_wire os' ++ backlog q ws = concat (frame <$> dn)) ∨ e = EWOULDBLOCK ∧ has_blocked x' = true ∨ e = -1).
Proof.
  intros [(ws & Hq & Hw) Hz Hr Hi]. cbn in *. apply Forall2_cons_inv_l in Hq as (w & ws' & Hx & Hq & ->).
  destruct (flushv_spec zp os x w Hx) as ([[e os1] x1] & E & Hx1 & Hw1 & He).
  pose proof (flushv_kept _ _ _ _ _ _ E) as Hk. pose proof Hk as [(Ezq & _ & _) Eid].
  assert (Hwire : os_wire os1 ++ unsent x1 w ++ backlog q ws' = concat (frame <$> dn)).
  { rewrite <- Hw. unfold backlog. cbn. by rewrite !app_assoc, Hw1. }
  exists e, os1, x1. split; [done|]. split.
  - intros armed'. constructor; cbn; unfold oc_zcq in *; cbn in *; rewrite ?Ezq; [|by eapply kept_counted|done|].
    + exists (w :: ws'). split; [by constructor|]. done.
    + unfold oid in *. by rewrite Eid.
  - destruct He as [[-> Hu]|He]; [left|by right]. rewrite Hu in Hwire. split; [done|]. exists w.
    split; [done|]. split; [done|]. by exists ws'.
Qed.

(** A reply that was sent is destroyed or waits for the kernel. *)
Lemma retire_ok x q os refs armed freed dn all done rec :
  chan_ok (mk_ch (x :: q) os false refs armed) freed dn all →
  (∃ ws, Forall2 sending q ws ∧ os_wire os ++ backlog q ws = concat (frame <$> dn)) →
  svc_ioq_write_retire (os_zc os) (ox_zc x) = (done, rec) →
  ∀ armed', chan_ok (mk_ch q (mk_os (os_wire os) (os_answers os) rec) false
              (match done with Some _ => refs - 1 | None => refs end) armed') (freed ++ option_list done) dn all.
Proof.
  intros [_ [Hb Hn] Hr Hi] Hq E armed'. unfold svc_ioq_write_retire in E. unfold oc_zcq in *. cbn in *.
  destruct (_ && _); injection E as <- <-; constructor; unfold oc_zcq, counted_zcq, set_zcq in *; cbn in *; try done.
  - split; [done|]. rewrite Hn, u32_add_l. f_equal. rewrite Zlen_app. cbn. lia.
  - rewrite Zlen_app. cbn. lia.
  - rewrite <- Hi. unfold ids, oid. rewrite app_nil_r, fmap_app, <- !app_assoc. cbn.
    by rewrite <- !Permutation_middle.
  - rewrite Hr. lia.
  - rewrite <- Hi. unfold ids, oid. rewrite fmap_app. cbn. rewrite !app_assoc, <- Permutation_cons_append. done.
Qed.

Lemma write_loop_ok zp arm q : ∀ os refs armed freed n dn all,
  chan_ok (mk_ch q os false refs armed) freed dn all →
  ∃ freed' destroy n' ch', write_loop zp true arm q os false refs armed freed n = Ret (freed', destroy, n', ch') ∧
    chan_ok ch' freed' dn all ∧ oc_destroyed ch' = false ∧ (destroy = false → settled arm ch').
Proof.
  induction q as [|x q IH]; intros os refs armed freed n dn all Hch; cbn [write_loop andb negb].
  { eexists _, _, _, _. split; [done|]. split; [done|]. split; [done|]. by left. }
  destruct (flush_head zp os x q refs armed freed dn all Hch) as (e & os1 & x1 & -> & Hok & He). cbn [obind].
  destruct He as [(-> & w & Hu & Hx & Hq)|[[-> Hb]| ->]]; cbn [orb Z.ltb Z.compare Z.eqb EWOULDBLOCK EAGAIN Pos.eqb].
  - destruct (svc_ioq_write_retire (os_zc os1) (ox_zc x1)) as [dd rec] eqn:Er.
    pose proof (retire_ok x1 q os1 refs armed freed dn all dd rec (Hok armed) Hq Er) as Hch'.
    destruct dd as [z|]; cbn in Hch'; rewrite ?app_nil_r in Hch'; by apply IH.
  - eexists _, _, _, _. split; [done|]. split; [apply Hok|]. split; [done|]. by right.
  - eexists _, _, _, _. split; [done|]. split; [apply Hok|]. done.
Qed.

Lemma write_loop_dead zp arm q os refs armed freed n :
  ∃ destroy, write_loop zp true arm q os true refs armed freed n = Ret (freed, destroy, n, mk_ch q os true refs armed).
Proof. destruct q as [|x q]; cbn; by eexists. Qed.

(** ** A run *)

Lemma drain_ok zp errq freed n ch dn all :
  chan_ok ch freed dn all →
  ∃ freed' n' ch', write_drain zp errq freed n ch = Ret (freed', n', ch') ∧ chan_ok ch' freed' dn all ∧
    oc_queue ch' = oc_queue ch ∧ oc_destroyed ch' = oc_destroyed ch ∧ oc_armed ch' = oc_armed ch.
Proof.
  intros Hch. unfold write_drain. destruct (_ && _); [|by eexists _, _, _].
  destruct Hch as [Ho Hz Hr Hi]. destruct (drain_released true _ errq Hz) as (hs & rec & -> & Hz' & Hp).
  cbn [obind app]. eexists _, _, _. split; [done|]. split; [|done].
  pose proof (Permutation_length Hp) as Hl. unfold ids in Hl. rewrite length_app, !length_fmap in Hl.
  constructor; unfold oc_zcq in *; cbn; [|done|rewrite Hr; lia|].
  - unfold in_order in *. cbn. by destruct (oc_destroyed ch).
  - rewrite <- Hi, <- Hp. unfold ids. rewrite !fmap_app, <- !app_assoc. apply Permutation_app_head.
    rewrite !(Permutation_app_comm (zx_id <$> hs)), <- !app_assoc. done.
Qed.

Lemma add_ok ch freed dn all x w :
  chan_ok ch freed dn all → sending x w → unsent x w = frame w →
  ∃ need fs ch', add_ioq_to_write_queue ch x = (need, fs, ch') ∧
    chan_ok ch' (freed ++ fs) (dn ++ [w]) (all ++ [oid x]) ∧ oc_destroyed ch' = oc_destroyed ch ∧
    (oc_destroyed ch = false → oc_armed ch' = oc_armed ch ∧ oc_queue ch' = oc_queue ch ++ [x] ∧
       (need = false → oc_queue ch ≠ [])).
Proof.
  intros [Ho Hz Hr Hi] Hx Hu. unfold add_ioq_to_write_queue. unfold in_order in Ho.
  destruct (oc_destroyed ch) eqn:Ed; eexists _, _, _; (split; [done|]); (split; [|split; [done|]]).
  - constructor; [|done|done|].
    + unfold in_order. rewrite Ed. destruct Ho as [rest Ho]. exists (rest ++ frame w).
      rewrite fmap_app, concat_app. cbn. by rewrite app_nil_r, <- Ho, app_assoc.
    + rewrite <- Hi. unfold ids. rewrite fmap_app. cbn. by rewrite !app_assoc.
  - done.
  - constructor; unfold oc_zcq in *; cbn [oc_queue oc_sock oc_refs]; [|done|rewrite Hr, Zlen_app; cbn; lia|].
    + unfold in_order. cbn [oc_destroyed oc_queue oc_sock].
      destruct Ho as (ws & Hq & Hw). exists (ws ++ [w]).
      split; [apply Forall2_app; [done|constructor; [done|constructor]]|].
      rewrite backlog_app by (by eapply Forall2_length). rewrite fmap_app, concat_app, <- Hw.
      unfold backlog at 2. cbn. by rewrite Hu, !app_nil_r, app_assoc.
    + rewrite <- Hi, app_nil_r, fmap_app, <- !app_assoc. cbn.
      rewrite !app_assoc, <- (Permutation_cons_append _ (oid x)), <- !app_assoc. by rewrite <- Permutation_middle.
  - intros _. cbn. split; [done|]. split; [done|]. by destruct (oc_queue ch).
Qed.

(** [xs] are replies not yet started, holding [ws]. *)
Definition fresh_replies : list out_xioq → list (list Z) → Prop :=
  Forall2 (λ x w, sending x w ∧ unsent x w = frame w).

Lemma add_all_ok xs : ∀ ws ch freed dn all,
  chan_ok ch freed dn all → fresh_replies xs ws →
  ∃ n fs ch', add_all ch xs = (n, fs, ch') ∧
    chan_ok ch' (freed ++ fs) (dn ++ ws) (all ++ (oid <$> xs)) ∧ oc_destroyed ch' = oc_destroyed ch ∧
    (oc_destroyed ch = false → oc_armed ch' = oc_armed ch ∧ oc_queue ch' = oc_queue ch ++ xs ∧
       (n = 0%nat → oc_queue ch = [] → xs = [])).
Proof.
  induction xs as [|x xs IH]; intros ws ch freed dn all Hch Hf; cbn [add_all].
  { apply Forall2_nil_inv_l in Hf as ->. eexists _, _, _. split; [done|]. rewrite !app_nil_r. done. }
  apply Forall2_cons_inv_l in Hf as (w & ws' & [Hx Hu] & Hf & ->).
  destruct (add_ok ch freed dn all x w Hch Hx Hu) as (need & fs & ch1 & -> & Hch1 & Hd1 & Ha1).
  destruct (IH ws' ch1 _ _ _ Hch1 Hf) as (n & fs' & ch2 & -> & Hch2 & Hd2 & Ha2).
  eexists _, _, _. split; [done|]. rewrite <- !app_assoc in Hch2. split; [done|]. split; [congruence|].
  intros Hd. destruct (Ha1 Hd) as (Earm & Eq & Hneed). rewrite Hd1 in Ha2.
  destruct (Ha2 Hd) as (Earm2 & Eq2 & _). split; [congruence|]. split; [by rewrite Eq2, Eq, <- app_assoc|].
  intros Hn Hq. destruct need; [lia|]. by apply Hneed in Hq.
Qed.

(** The state after a run with the replies [late] added on the way, [n] of whose threads
    will run the writer. *)
Definition after_run (arm : bool) (n : nat) (ch : out_chan) : Prop :=
  oc_destroyed ch = true ∨ oc_queue ch = [] ∨ oc_armed ch = arm ∨ (0 < n)%nat.

Lemma write_round_ok zp arm errq freed n ch dn all :
  chan_ok ch freed dn all →
  ∃ freed1 destroy n1 ch1 freed' n' ch',
    write_loop zp true arm (oc_queue ch) (oc_sock ch) (oc_destroyed ch) (oc_refs ch) (oc_armed ch) freed n =
      Ret (freed1, destroy, n1, ch1) ∧
    write_drain zp errq freed1 n1 ch1 = Ret (freed', n', ch') ∧ chan_ok ch' freed' dn all ∧
    oc_destroyed ch' = oc_destroyed ch ∧ (destroy = false → oc_destroyed ch = false → settled arm ch').
Proof.
  intros Hch. assert (H1 : ∃ freed1 destroy n1 ch1,
    write_loop zp true arm (oc_queue ch) (oc_sock ch) (oc_destroyed ch) (oc_refs ch) (oc_armed ch) freed n =
      Ret (freed1, destroy, n1, ch1) ∧ chan_ok ch1 freed1 dn all ∧ oc_destroyed ch1 = oc_destroyed ch ∧
    (destroy = false → oc_destroyed ch = false → settled arm ch1)).
  { destruct (oc_destroyed ch) eqn:Ed.
    - destruct (write_loop_dead zp arm (oc_queue ch) (oc_sock ch) (oc_refs ch) (oc_armed ch) freed n) as [d ->].
      eexists _, _, _, _. split; [done|]. split; [rewrite <- Ed; by destruct ch|]. done.
    - destruct (write_loop_ok zp arm (oc_queue ch) (oc_sock ch) (oc_refs ch) (oc_armed ch) freed n dn all)
        as (f & d & n1 & ch1 & E & H1 & Hd & Hs); [rewrite <- Ed; by destruct ch|].
      eexists _, _, _, _. split; [done|]. split; [done|]. split; [done|]. auto. }
  destruct H1 as (freed1 & destroy & n1 & ch1 & E1 & Hch1 & Hd1 & Hs1).
  destruct (drain_ok zp errq freed1 n1 ch1 dn all Hch1) as (freed' & n' & ch' & E2 & Hch' & Eq & Ed & Ea).
  eexists _, _, _, _, _, _, _. split; [done|]. split; [done|]. split; [done|]. split; [congruence|].
  intros Hd Ha. unfold settled. rewrite Eq, Ea. by apply Hs1.
Qed.

(** The second round ends the run: its queue is empty or waits for the socket. *)
Lemma last_round_ok zp arm errqs freed n ch dn all :
  chan_ok ch freed dn all →
  ∃ freed' destroy ch', write_rounds 0 zp true arm errqs [] freed n ch = Ret (freed', 0%nat, destroy, ch') ∧
    chan_ok ch' freed' dn all ∧ oc_destroyed ch' = oc_destroyed ch ∧
    (destroy = false → oc_destroyed ch = false → settled arm ch').
Proof.
  intros Hch. cbn [write_rounds].
  destruct (write_round_ok zp arm (default [] (head errqs)) freed n ch dn all Hch)
    as (f1 & destroy & n1 & ch1 & f2 & n2 & ch2 & -> & E2 & Hch2 & Hd & Hs). cbn [obind]. rewrite E2. cbn [obind add_all].
  rewrite app_nil_r. eexists _, _, _. split; [|done].
  destruct (tcp_zerocopy_enabled zp), destroy, (oc_destroyed ch2) eqn:Ed; try done. cbn [andb negb].
  destruct (Hs eq_refl) as [Eq|[_ Hb]]; [congruence|by rewrite Eq|]. destruct (oc_queue ch2); [done|by rewrite Hb].
Qed.

Lemma write_rounds_ok zp arm errqs late ws ch dn all freed :
  chan_ok ch freed dn all → fresh_replies late ws →
  ∃ freed' n destroy ch', write_rounds 1 zp true arm errqs late freed 0 ch = Ret (freed', n, destroy, ch') ∧
    chan_ok ch' freed' (dn ++ ws) (all ++ (oid <$> late)) ∧ (destroy = false → after_run arm n ch').
Proof.
  intros Hch Hf. remember 0%nat as O eqn:HO. cbn [write_rounds].
  destruct (write_round_ok zp arm (default [] (head errqs)) freed 0 ch dn all Hch)
    as (f1 & destroy & n1 & ch1 & f2 & n2 & ch2 & -> & E2 & Hch2 & Hd & Hs). cbn [obind]. rewrite E2. cbn [obind].
  destruct (add_all_ok late ws ch2 f2 dn all Hch2 Hf) as (n & fs & ch3 & -> & Hch3 & Hd3 & Ha3).
  destruct (_ && match oc_queue ch3 with [] => false | _ => _ end) eqn:Eagain.
  - rewrite HO. destruct (last_round_ok zp arm (tail errqs) (f2 ++ fs) n2 ch3 _ _ Hch3)
      as (f4 & d4 & ch4 & -> & Hch4 & Hd4 & Hs4). cbn [obind].
    eexists _, _, _, _. split; [done|]. split; [done|]. intros ->.
    destruct (oc_destroyed ch3); [by left|]. destruct Hs4 as [?|[? _]]; [done|done|by right; left|by right; right; left].
  - eexists _, _, _, _. split; [done|]. split; [done|]. intros ->. unfold after_run. rewrite Hd3, Hd.
    destruct (oc_destroyed ch) eqn:Ed; [by left|]. destruct (Ha3 ltac:(congruence)) as (Earm & Eq & Hn). right.
    destruct (Hs eq_refl eq_refl) as [Hq|[Harm _]]; [|right; left; congruence].
    destruct n; [left; rewrite Eq, Hq; by apply Hn|right; right; lia].
Qed.

(** Replies destroyed before. *)
Lemma chan_ok_frame ch fs F dn all all' :
  chan_ok ch fs dn all → all ++ ids F ≡ₚ all' → chan_ok ch (F ++ fs) dn all'.
Proof.
  intros [] Hp. constructor; try done. rewrite <- Hp, <- co_ids0. unfold ids. rewrite fmap_app, <- !app_assoc.
  do 2 apply Permutation_app_head. apply Permutation_app_comm.
Qed.

Lemma chan_ok_now ch F dn all :
  chan_ok ch F dn all → ∃ all0, chan_ok ch [] dn all0 ∧ all0 ++ ids F ≡ₚ all.
Proof.
  intros []. exists ((oid <$> oc_queue ch) ++ ids (oc_zcq ch)). split; [|by rewrite <- co_ids0, <- app_assoc].
  constructor; try done. by rewrite app_nil_r.
Qed.

Lemma dying_ok ch freed dn all :
  chan_ok ch freed dn all →
  chan_ok (mk_ch (oc_queue ch) (oc_sock ch) true (oc_refs ch) (oc_armed ch)) freed dn all.
Proof.
  intros []. constructor; try done. unfold in_order in *. cbn. destruct (oc_destroyed ch); [done|].
  destruct co_order0 as (ws & _ & E). eauto.
Qed.

Lemma write_ok zp arm errqs late ws ch dn all freed :
  chan_ok ch freed dn all → fresh_replies late ws →
  ∃ fs n ch', svc_ioq_write zp true arm errqs late ch = Ret (fs, n, ch') ∧
    chan_ok ch' (freed ++ fs) (dn ++ ws) (all ++ (oid <$> late)) ∧ after_run arm n ch'.
Proof.
  intros Hch Hf. unfold svc_ioq_write. destruct (chan_ok_now _ _ _ _ Hch) as (all0 & Hch0 & Hp).
  destruct (write_rounds_ok zp arm errqs late ws ch dn all0 [] Hch0 Hf) as (fs & n & destroy & ch' & -> & Hch' & Ha).
  cbn [obind]. eexists _, _, _. split; [done|].
  assert (Hch2 : chan_ok ch' (freed ++ fs) (dn ++ ws) (all ++ (oid <$> late))).
  { eapply chan_ok_frame; [exact Hch'|]. rewrite <- Hp, <- !app_assoc. apply Permutation_app_head, Permutation_app_comm. }
  destruct destroy; [split; [by apply dying_ok|by left]|]. auto.
Qed.

(** ** Events *)

(** A thread queues a reply and runs the writer when that is up to it, or leaves that to
    a worker; a run of the writer by a worker or by the event loop, during which other
    threads queue [late]. *)
Inductive out_event :=
| ReplyNow (x : out_xioq) (answers : list send_answer) (errqs : list (list (list cmsghdr)))
| ReplySubmit (x : out_xioq)
| Run (worker : bool) (answers : list send_answer) (errqs : list (list (list cmsghdr))) (late : list out_xioq).

Definition with_answers (answers : list send_answer) (ch : out_chan) : out_chan :=
  mk_ch (oc_queue ch) (mk_os (os_wire (oc_sock ch)) answers (os_zc (oc_sock ch)))
    (oc_destroyed ch) (oc_refs ch) (oc_armed ch).

(** The channel, the runs of the writer that are still to come, and the replies destroyed
    so far. *)
Record out_state := mk_ost { ost_chan : out_chan; ost_pending : nat; ost_freed : list zc_xioq }.

Definition out_step (zp : zc_params) (arm : bool) (s : out_state) (ev : out_event) : out out_state :=
  let! (fs, pending, ch) :=
    match ev with
    | ReplyNow x answers errqs =>
        let! (fs, n, ch) := svc_ioq_write_now zp true arm errqs [] (with_answers answers (ost_chan s)) x in
        Ret (fs, (ost_pending s + n)%nat, ch)
    | ReplySubmit x =>
        let '(fs, n, ch) := svc_ioq_write_submit (ost_chan s) x in Ret (fs, (ost_pending s + n)%nat, ch)
    | Run worker answers errqs late =>
        let! (fs, n, ch) := svc_ioq_write zp true arm errqs late (with_answers answers (ost_chan s)) in
        Ret (fs, ((if worker : bool then pred (ost_pending s) else ost_pending s) + n)%nat, ch)
    end in
  Ret (mk_ost ch pending (ost_freed s ++ fs)).

Fixpoint out_run (zp : zc_params) (arm : bool) (s : out_state) (evs : list out_event) : out out_state :=
  match evs with
  | [] => Ret s
  | ev :: evs => let! s := out_step zp arm s ev in out_run zp arm s evs
  end.

(** The replies an event queues. *)
Definition ev_replies (ev : out_event) : list out_xioq :=
  match ev with ReplyNow x _ _ => [x] | ReplySubmit x => [x] | Run _ _ _ late => late end.

(** Fresh replies, holding [ws]. *)
Definition replies (evs : list out_event) (ws : list (list Z)) : Prop :=
  fresh_replies (concat (ev_replies <$> evs)) ws.

(** A reply that is still queued has the event loop wait for the socket, or a thread
    about to run the writer. *)
Definition out_ok (arm : bool) (s : out_state) (dn : list (list Z)) (all : list Z) : Prop :=
  chan_ok (ost_chan s) (ost_freed s) dn all ∧ after_run arm (ost_pending s) (ost_chan s).

Lemma with_answers_ok answers ch freed dn all : chan_ok ch freed dn all → chan_ok (with_answers answers ch) freed dn all.
Proof. intros []. by constructor. Qed.

Lemma after_run_more arm n m ch : after_run arm n ch → (n ≤ m)%nat → after_run arm m ch.
Proof. unfold after_run. intros [?|[?|[?|?]]] Hle; [auto..|]. right; right; right. lia. Qed.

(** Queueing leaves a queue attended. *)
Lemma add_attended arm n ch x need fs ch' :
  after_run arm n ch → add_ioq_to_write_queue ch x = (need, fs, ch') →
  after_run arm (n + (if need then 1 else 0)) ch'.
Proof.
  unfold after_run, add_ioq_to_write_queue. intros Ha E. destruct (oc_destroyed ch) eqn:Ed; simplify_eq; [by left|].
  cbn. destruct Ha as [?|[->|[?|?]]]; [done|right; right; right; lia|auto|right; right; right; lia].
Qed.

Lemma step_ok zp arm s ev ws dn all :
  out_ok arm s dn all → fresh_replies (ev_replies ev) ws →
  ∃ s', out_step zp arm s ev = Ret s' ∧ out_ok arm s' (dn ++ ws) (all ++ (oid <$> ev_replies ev)).
Proof.
  intros [Hch Ha] Hf. unfold out_step. destruct ev as [x answers errqs|x|worker answers errqs late]; cbn [ev_replies] in Hf.
  - apply Forall2_cons_inv_l in Hf as (w & ws' & [Hx Hu] & Hf & ->). apply Forall2_nil_inv_l in Hf as ->.
    destruct (add_ok _ _ _ _ x w (with_answers_ok answers _ _ _ _ Hch) Hx Hu) as (need & fs & ch1 & E & Hch1 & _).
    unfold svc_ioq_write_now. rewrite E. destruct need.
    + destruct (write_ok zp arm errqs [] [] ch1 _ _ _ Hch1) as (fs2 & n & ch2 & -> & Hch2 & Ha2); [constructor|].
      cbn [obind]. eexists. split; [done|]. rewrite !app_nil_r, <- !app_assoc in Hch2. split; [done|].
      cbn. eapply after_run_more; [exact Ha2|lia].
    + cbn [obind]. eexists. split; [done|]. split; [done|]. cbn. by eapply (add_attended _ _ _ _ false) in E.
  - apply Forall2_cons_inv_l in Hf as (w & ws' & [Hx Hu] & Hf & ->). apply Forall2_nil_inv_l in Hf as ->.
    destruct (add_ok _ _ _ _ x w Hch Hx Hu) as (need & fs & ch1 & E & Hch1 & _).
    unfold svc_ioq_write_submit. rewrite E. cbn [obind]. eexists. split; [done|]. split; [done|].
    cbn. by eapply add_attended in E.
  - destruct (write_ok zp arm errqs late ws _ _ _ _ (with_answers_ok answers _ _ _ _ Hch) Hf) as (fs & n & ch & -> & Hch2 & Ha2).
    cbn [obind]. eexists. split; [done|]. split; [done|]. cbn. eapply after_run_more; [exact Ha2|lia].
Qed.

Lemma run_ok zp arm evs : ∀ s ws dn all,
  out_ok arm s dn all → replies evs ws →
  ∃ s', out_run zp arm s evs = Ret s' ∧ out_ok arm s' (dn ++ ws) (all ++ (oid <$> concat (ev_replies <$> evs))).
Proof.
  induction evs as [|ev evs IH]; intros s ws dn all Hs Hr; cbn [out_run].
  { apply Forall2_nil_inv_l in Hr as ->. cbn. rewrite !app_nil_r. eauto. }
  apply Forall2_app_inv_l in Hr as (ws1 & ws2 & H1 & H2 & ->).
  destruct (step_ok zp arm s ev ws1 dn all Hs H1) as (s1 & -> & Hs1). cbn [obind].
  destruct (IH s1 ws2 _ _ Hs1 H2) as (s2 & E & Hs2). exists s2. split; [done|].
  cbn. by rewrite fmap_app, !app_assoc.
Qed.

(** A transport just created. *)
Definition new_chan (ok : bool) : out_state := mk_ost (mk_ch [] (mk_os [] [] (zc_rec_zero ok)) false 0 false) 0 [].

Lemma new_chan_ok arm ok : out_ok arm (new_chan ok) [] [].
Proof.
  split; [|by right; left]. constructor; [by exists []| |done|done].
  split; [|done]. split; [done|]. by apply Forall_replicate.
Qed.

Lemma run_from_new zp arm ok evs ws :
  replies evs ws → ∃ s, out_run zp arm (new_chan ok) evs = Ret s ∧ out_ok arm s ws (oid <$> concat (ev_replies <$> evs)).
Proof. intros Hr. apply (run_ok zp arm evs (new_chan ok) ws [] [] (new_chan_ok arm ok) Hr). Qed.

(** C6. Replies reach the wire whole and in order: however the socket takes the bytes
    (any pieces, down to parts of a fragment header; blocking, refusing zero-copy or
    failing at any call) and however threads that queue replies, workers, writability
    events and completions of the kernel interleave, the writer returns and never reads
    or writes outside its vectors; what is on the wire is at every moment a beginning of
    the framed replies in the order they were queued, and all of them once the queue of a
    living transport is empty; and while it is not empty, the event loop was asked to
    wait for the socket or a thread is about to run the writer.

    This is for replies of one fragment: [replies] asks that each is encoded in its
    buffers, not yet sent, not empty, and LAST_FRAG_XDR_UNITS = 2 ^ 31 - 4 bytes long at
    most, in fewer than 2 ^ 32 buffers. *)
Theorem replies_in_order zp arm ok evs ws :
  replies evs ws →
  ∃ s, out_run zp arm (new_chan ok) evs = Ret s ∧
    let ch := ost_chan s in
    (∃ rest, os_wire (oc_sock ch) ++ rest = concat (frame <$> ws)) ∧
    (oc_destroyed ch = false →
       (oc_queue ch = [] → os_wire (oc_sock ch) = concat (frame <$> ws)) ∧
       (oc_queue ch ≠ [] → oc_armed ch = arm ∨ (0 < ost_pending s)%nat)).
Proof.
  intros Hr. destruct (run_from_new zp arm ok evs ws Hr) as (s & E & [Ho _ _ _] & Ha).
  exists s. split; [done|]. cbv zeta. unfold in_order in Ho. unfold after_run in Ha.
  destruct (oc_destroyed (ost_chan s)); [done|]. destruct Ho as (ws' & Hq & Hw). split; [eauto|]. intros _. split.
  - intros Eq. rewrite Eq in *. by rewrite app_nil_r in Hw.
  - intros Hne. by destruct Ha as [?|[?|[?|?]]]; [..|left|right].
Qed.

(** C11. No reply is lost or released twice: in the same runs, every reply queued is, at
    every moment and exactly once, in the queue, waiting for the kernel to confirm its
    zero-copy sends, or destroyed; and the references the transport holds are one for
    each of the first two, so that it can be freed when, and only when, none is left.  The
    replies are of one fragment, as [replies] asks. *)
Theorem replies_conserved zp arm ok evs ws :
  replies evs ws →
  ∃ s, out_run zp arm (new_chan ok) evs = Ret s ∧
    (oid <$> oc_queue (ost_chan s)) ++ ids (oc_zcq (ost_chan s)) ++ ids (ost_freed s) ≡ₚ
      oid <$> concat (ev_replies <$> evs) ∧
    oc_refs (ost_chan s) = Zlen (oc_queue (ost_chan s)) + Zlen (oc_zcq (ost_chan s)) ∧
    zc_inflight (os_zc (oc_sock (ost_chan s))) = u32 (Zlen (oc_zcq (ost_chan s))).
Proof.
  intros Hr. destruct (run_from_new zp arm ok evs ws Hr) as (s & E & [_ [_ Hi] Hrefs Hids] & _). eauto 10.
Qed.

(** ** Replies as encoded *)

Lemma fresh_sending id (q : XDRQ) w c :
  ioq_out q w c → 0 < Zlen w ≤ LAST_FRAG_XDR_UNITS →
  sending (fresh_reply id q) w ∧ unsent (fresh_reply id q) w = frame w.
Proof.
  intros Hq Hw. pose proof (ioq_out_count _ _ _ Hq) as Hc. pose proof LAST_FRAG_XDR_UNITS_eq as EL.
  split; [|done]. constructor; cbn; try done; try lia.
  - by eapply ioq_out_segs.
  - destruct Hq as (_ & pre & uv & w1 & w2 & _ & Hx).
    destruct (writes_tail _ _ _ _ _ Hx) as (uv' & Hx' & _ & _ & _ & _). rewrite (wr_uvq _ _ _ _ _ Hx').
    apply Forall_app. split; [by apply nonempty_ordered, (wr_nonempty _ _ _ _ _ Hx')|]. constructor; [|done]. red. apply (wr_tail _ _ _ _ _ Hx').
  - by eapply ioq_out_getpos.
Qed.

(** ** Replies of more than one fragment *)

Lemma one_buffer_vector h uv w s d :
  seg h uv = Some w → ordered uv → Zlen w < 2 ^ 32 → 0 ≤ s → 0 < d → s + d ≤ Zlen w →
  ∃ v, fillbufs_loop [uv] false s d = ([v], true) ∧ iovcount_loop [uv] s d (-1) = 1 ∧
    vio_bytes h v = Some (take (Z.to_nat d) (drop (Z.to_nat s) w)).
Proof.
  intros Hs Ho Hw Hss Hd Hle.
  destruct (vector_range h [uv] w s d) as [H _];
    [apply segs_cons; exists w, []; by rewrite app_nil_r|by constructor|lia..|].
  destruct H as (vs & E & Hv & En); [rewrite length_drop; lia|].
  pose proof (fillbufs_count [uv] false s d) as Hc. rewrite E in Hc. cbn in Hc.
  destruct vs as [|v [|v2 vs]]; [|clear Hc|cbn in Hc; lia].
  - injection Hv as Hv. apply (f_equal length) in Hv. rewrite length_take, length_drop in Hv. cbn in Hv. lia.
  - exists v. split_and!; [done|by rewrite En|]. cbn in Hv. destruct (vio_bytes h v); [|done].
    injection Hv as <-. by rewrite app_nil_r.
Qed.

(** A socket that takes everything it is given. *)
Lemma flush_again_all fuel os x hdr data zc m ans :
  os_answers os = Sent m :: ans → Zlen hdr + Zlen (concat data) ≤ m →
  ∃ os' x', flush_again fuel os x hdr data zc = Ret (0, Zlen (concat data), os', x') ∧
    os_wire os' = os_wire os ++ hdr ++ concat data ∧ os_answers os' = ans ∧ same_place x x'.
Proof.
  intros Ea Hm. destruct fuel; cbn [flush_again]; unfold send_vector, sendmsg; rewrite Ea; cbn [concat];
    rewrite take_ge by (rewrite length_app; lia); rewrite (proj2 (Z.ltb_ge (Zlen (hdr ++ _)) _)) by (rewrite Zlen_app; lia);
    replace (Zlen (hdr ++ concat data) - Zlen hdr) with (Zlen (concat data)) by (rewrite Zlen_app; lia);
    destruct (zc && _); by eexists _, _.
Qed.

(** One round of the loop at the start of a fragment, all of it taken. *)
Lemma flush_once_fragment zp room last_frag os x uv w d rem fn ans m :
  let q := ox_xdrs x in
  uvq (x_private (ioq_tail_update q)) = [uv] → seg (x_mem q) uv = Some w → ordered uv → Zlen w < 2 ^ 32 →
  0 ≤ write_start x → 0 < d → write_start x + d ≤ Zlen w → at_fragment (write_start x) = true →
  frag_hdr_bytes_sent x = 0 → 1 ≤ room → os_answers os = Sent m :: ans → 4 + d ≤ m →
  ∃ os' x', flush_once zp room last_frag os x d rem fn = Ret (0, d, os', x') ∧
    os_wire os' = os_wire os ++ be32 (Z.lor d last_frag) ++ take (Z.to_nat d) (drop (Z.to_nat (write_start x)) w) ∧
    os_answers os' = ans ∧ ox_xdrs x' = ioq_tail_update q ∧ write_start x' = write_start x.
Proof.
  intros q Eq Hs Ho Hw Hst Hd Hle Hb Hh Hroom Ea Hm.
  destruct (one_buffer_vector (x_mem q) uv w (write_start x) d) as (v & Ev & Ec & Hv); [done..|].
  unfold flush_once, xdr_ioq_iovcount, xdr_ioq_fillbufs. fold q. rewrite tail_update_idem, Eq, Ev, Ec, Hb, Hh.
  rewrite andb_false_r. change (Zlen [v]) with 1. rewrite (proj2 (Z.ltb_ge room 1)) by lia. cbn [negb].
  change (Z.to_nat (if PRESUMED_UIO_MAXIOV <? u32 1 + 1 then PRESUMED_UIO_MAXIOV - 1 else u32 1)) with 1%nat.
  unfold vio_bytes in Hv. destruct (vio_tail v =? _); [|done]. cbn [iov_of]. unfold iov_entry.
  rewrite tail_update_mem. fold q. rewrite Hv. cbn [access obind]. change (drop (Z.to_nat 0) ?l) with l.
  destruct (flush_again_all (length (os_answers os)) os (set_ox_xdrs (ioq_tail_update q) x) (be32 (Z.lor d last_frag))
    [take (Z.to_nat d) (drop (Z.to_nat (write_start x)) w)]
    (tcp_zerocopy_enabled zp && zc_sock_ok (os_zc os) && (tcp_zerocopy_min_bytes zp <=? rem)) m ans Ea)
    as (os' & x' & E & Hw' & Ha' & Hq' & Hs').
  { cbn. rewrite app_nil_r, length_take, length_drop, be32_length. lia. }
  exists os', x'. cbn in E, Hw'. rewrite app_nil_r in E, Hw'. rewrite length_take, length_drop in E.
  replace (Z.of_nat _) with d in E by lia. done.
Qed.

Lemma loop_fragment zp room last_frag os x uv w d fn ans m fuel :
  let q := ox_xdrs x in
  let rem := Zlen w - write_start x in
  uvq (x_private (ioq_tail_update q)) = [uv] → seg (x_mem q) uv = Some w → ordered uv → Zlen w < 2 ^ 32 →
  0 ≤ write_start x → 0 < d → write_start x + d ≤ Zlen w → at_fragment (write_start x) = true →
  frag_hdr_bytes_sent x = 0 → 1 ≤ room → os_answers os = Sent m :: ans → 4 + d ≤ m →
  ∃ os' x', flush_loop (S fuel) zp room last_frag os x d rem fn =
      flush_loop fuel zp room last_frag os' x'
        (if LAST_FRAG_XDR_UNITS <? rem - d then LAST_FRAG_XDR_UNITS else rem - d) (rem - d) true ∧
    os_wire os' = os_wire os ++ be32 (Z.lor d last_frag) ++ take (Z.to_nat d) (drop (Z.to_nat (write_start x)) w) ∧
    os_answers os' = ans ∧ ox_xdrs x' = ioq_tail_update q ∧ write_start x' = write_start x + d ∧
    frag_hdr_bytes_sent x' = 0.
Proof.
  intros q rem Eq Hs Ho Hw Hst Hd Hle Hb Hh Hroom Ea Hm. subst rem. cbn [flush_loop].
  rewrite (proj2 (Z.leb_gt _ _)) by lia.
  destruct (flush_once_fragment zp room last_frag os x uv w d (Zlen w - write_start x) fn ans m)
    as (os' & x' & -> & Hw' & Ha' & Hq' & Hs'); [done..|].
  cbn [obind Z.eqb negb]. rewrite Z.sub_diag, Hs'. change (u32 0) with 0. cbn [Z.eqb].
  rewrite (wrapu_id 32 (_ - d)), (wrapu_id 32 (_ + d)) by (red; lia).
  eexists _, _. split; [done|]. cbn. done.
Qed.

(** Only the fragment a call of the sender starts in can carry the mark of the last
    one: a reply longer than one fragment that the socket takes at once leaves with the
    mark on neither header, so that the record never ends for its receiver. *)
Theorem second_fragment_not_last zp os x uv w m1 m2 ans :
  uvq (x_private (ioq_tail_update (ox_xdrs x))) = [uv] → seg (x_mem (ox_xdrs x)) uv = Some w → ordered uv →
  (xdr_ioq_getpos (ox_xdrs x)).1 = u32 (Zlen w) →
  LAST_FRAG_XDR_UNITS < Zlen w ≤ 2 * LAST_FRAG_XDR_UNITS →
  write_start x = 0 → frag_hdr_bytes_sent x = 0 →
  os_answers os = Sent m1 :: Sent m2 :: ans → 4 + LAST_FRAG_XDR_UNITS ≤ m1 → 4 + LAST_FRAG_XDR_UNITS ≤ m2 →
  let L := LAST_FRAG_XDR_UNITS in
  ∃ os' x', svc_ioq_flushv zp os x = Ret (0, os', x') ∧
    os_wire os' = os_wire os ++ be32 L ++ take (Z.to_nat L) w ++ be32 (Zlen w - L) ++ drop (Z.to_nat L) w ∧
    Z.land L LAST_FRAG = 0 ∧ Z.land (Zlen w - L) LAST_FRAG = 0.
Proof.
  intros Eq Hs Ho Hpos Hn Hst Hh Ea Hm1 Hm2 L. pose proof LAST_FRAG_XDR_UNITS_eq as EL. fold L in EL, Hn, Hm1, Hm2.
  set (q := ox_xdrs x) in *. unfold svc_ioq_flushv. fold q.
  destruct (xdr_ioq_getpos (ioq_tail_update q)) as [pos q'] eqn:Ep.
  assert (pos = Zlen w ∧ q' = ioq_tail_update q) as [-> ->].
  { pose proof (getpos_tail q) as Hg. rewrite Hpos, Ep, wrapu_id in Hg by (red; lia).
    split; [done|]. unfold xdr_ioq_getpos in Ep. injection Ep as _ <-. apply tail_update_idem. }
  unfold xdr_ioq_iovcount, fragment_at. fold L. rewrite tail_update_idem, Hst, Z.sub_0_r.
  rewrite (proj2 (Z.ltb_ge (2 * L) _)), (proj2 (Z.ltb_lt L _)), (proj2 (Z.ltb_lt 0 L)) by lia.
  rewrite !Z.sub_0_r, (wrapu_id 32 (Zlen w)) by (red; lia).
  destruct (one_buffer_vector (x_mem q) uv w 0 (Zlen w)) as (v & _ & Ec & _); [done|done|lia..|].
  rewrite Eq, Ec, Ea. change (u32 1) with 1. set (x0 := set_ox_xdrs (ioq_tail_update q) x).
  destruct (loop_fragment zp 1 0 os x0 uv w L false (Sent m2 :: ans) m1 (S (S (length ans))))
    as (os1 & x1 & E1 & Hw1 & Ha1 & Hq1 & Hs1 & Hh1);
    try (cbn; rewrite ?tail_update_idem, ?tail_update_mem, ?Hst; done || lia).
  cbn [x0 set_ox_xdrs ox_xdrs write_start] in E1, Hq1, Hs1, Hw1. rewrite Hst, Z.sub_0_r in E1. rewrite tail_update_idem in Hq1. rewrite Hst in Hs1, Hw1.
  assert (Hr : (if L <? Zlen w - L then L else Zlen w - L) = Zlen w - L)
    by (destruct (Z.ltb_spec L (Zlen w - L)); lia).
  fold L in E1. rewrite Hr in E1. destruct (loop_fragment zp 1 0 os1 x1 uv w (Zlen w - L) true ans m2 (S (length ans)))
    as (os2 & x2 & E2 & Hw2 & Ha2 & Hq2 & Hs2 & Hh2);
    try (rewrite ?Hq1, ?tail_update_idem, ?tail_update_mem, ?Hs1; done || lia).
  rewrite Hs1 in E2, Hw2. rewrite Z.add_0_l, Z.sub_diag in E2. cbn [flush_loop] in E2.
  eexists os2, x2. split; [etrans; [exact E1|exact E2]|].
  rewrite Hw2, Hw1, !Z.lor_0_r, Z.add_0_l, <- !app_assoc. change (drop (Z.to_nat 0) w) with w.
  rewrite (take_ge (drop (Z.to_nat L) w)) by (rewrite length_drop; lia). split; [done|].
  assert (Hbit : ∀ v, 0 ≤ v < 2 ^ 31 → Z.land v LAST_FRAG = 0).
  { intros u Hu. unfold LAST_FRAG. change (2 ^ 31) with (Z.shiftl 1 31). apply Z.bits_inj'. intros i Hi.
    rewrite Z.land_spec, Z.bits_0, Z.shiftl_1_l, Z.pow2_bits_eqb by done.
    destruct (Z.eqb_spec 31 i) as [<-|]; [|apply andb_false_r]. rewrite <- (Z.mod_small u (2 ^ 31)) by done.
    by rewrite Z.mod_pow2_bits_high. }
  split; apply Hbit; lia.
Qed.

(** ** Examples *)

(** A reply in one buffer. *)
Definition buffer_of (w : list Z) : xdr_ioq_uv :=
  mk_uv UIO_FLAG_FREE 1 false None (mk_vio 4096 4096 (4096 + Zlen w) (4096 + Zlen w) 0 VIO_HEADER).
Definition reply_of (id : Z) (w : list Z) : out_xioq :=
  fresh_reply id (mk_xdr XDR_ENCODE (4096 + Zlen w) (uv_v (buffer_of w))
                   (mk_ioq [buffer_of w] 1 0 8192 65536 0 0) (block 4096 w)).

Lemma reply_of_tail id w : ioq_tail_update (ox_xdrs (reply_of id w)) = ox_xdrs (reply_of id w).
Proof. unfold ioq_tail_update. cbn. by rewrite Z.ltb_irrefl. Qed.

Lemma reply_of_uvq id w : uvq (x_private (ioq_tail_update (ox_xdrs (reply_of id w)))) = [buffer_of w].
Proof. by rewrite reply_of_tail. Qed.

Lemma reply_of_seg id w : seg (x_mem (ox_xdrs (reply_of id w))) (buffer_of w) = Some w.
Proof. unfold seg. cbn. replace (4096 + Zlen w - 4096) with (Zlen w) by lia. rewrite Nat2Z.id. apply load_block. Qed.

Lemma reply_of_ordered w : ordered (buffer_of w).
Proof. red. cbn. lia. Qed.

Lemma reply_of_pos id w : Zlen w < 2 ^ 64 → (xdr_ioq_getpos (ox_xdrs (reply_of id w))).1 = u32 (Zlen w).
Proof.
  intros Hw. unfold xdr_ioq_getpos. rewrite reply_of_tail. cbn.
  replace (4096 + Zlen w - 4096) with (Zlen w) by lia. by rewrite (wrapu_id 64) by (red; lia).
Qed.

Lemma reply_of_sending id w :
  0 < Zlen w ≤ LAST_FRAG_XDR_UNITS → sending (reply_of id w) w ∧ unsent (reply_of id w) w = frame w.
Proof.
  intros Hw. pose proof LAST_FRAG_XDR_UNITS_eq. split; [|done]. constructor; rewrite ?reply_of_uvq; try done; try lia.
  - apply segs_cons. exists w, []. rewrite app_nil_r. split; [apply reply_of_seg|done].
  - constructor; [apply reply_of_ordered|done].
  - apply reply_of_pos. lia.
  - cbn. lia.
Qed.

Definition three_bytes : list Z := [1; 2; 3].
Definition some_events : list out_event :=
  [ReplyNow (reply_of 7 three_bytes) [Sent 2] []; ReplySubmit (reply_of 8 three_bytes);
   Run false [Sent 4; SendErr EAGAIN] []  [reply_of 9 three_bytes]; Run false [Sent 10; Sent 1; Sent 12; Sent 9] [] []].

Lemma some_events_replies : replies some_events [three_bytes; three_bytes; three_bytes].
Proof.
  assert (H : ∀ id, sending (reply_of id three_bytes) three_bytes ∧
    unsent (reply_of id three_bytes) three_bytes = frame three_bytes).
  { intros id. apply reply_of_sending. rewrite LAST_FRAG_XDR_UNITS_eq. by vm_compute. }
  repeat (constructor; [apply H|]). constructor.
Qed.

Lemma replies_in_order_witness :
  ∃ s, out_run (mk_zp true 1) true (new_chan true) some_events = Ret s ∧
    let ch := ost_chan s in
    (∃ rest, os_wire (oc_sock ch) ++ rest = concat (frame <$> [three_bytes; three_bytes; three_bytes])) ∧
    (oc_destroyed ch = false →
       (oc_queue ch = [] → os_wire (oc_sock ch) = concat (frame <$> [three_bytes; three_bytes; three_bytes])) ∧
       (oc_queue ch ≠ [] → oc_armed ch = true ∨ (0 < ost_pending s)%nat)).
Proof. apply replies_in_order, some_events_replies. Defined.

Lemma replies_conserved_witness :
  ∃ s, out_run (mk_zp true 1) true (new_chan true) some_events = Ret s ∧
    (oid <$> oc_queue (ost_chan s)) ++ ids (oc_zcq (ost_chan s)) ++ ids (ost_freed s) ≡ₚ
      oid <$> concat (ev_replies <$> some_events) ∧
    oc_refs (ost_chan s) = Zlen (oc_queue (ost_chan s)) + Zlen (oc_zcq (ost_chan s)) ∧
    zc_inflight (os_zc (oc_sock (ost_chan s))) = u32 (Zlen (oc_zcq (ost_chan s))).
Proof. apply (replies_conserved _ _ _ _ [three_bytes; three_bytes; three_bytes]), some_events_replies. Defined.

(** Two GiB of data. *)
Definition long_data : list Z := replicate (Z.to_nat (2 ^ 31)) 0.

Lemma long_data_size : Zlen long_data = 2 ^ 31.
Proof. unfold long_data. rewrite length_replicate. apply Z2Nat.id. done. Qed.

#[global] Opaque long_data.

Definition idle_sock : out_sock :=
  mk_os [] [Sent (2 ^ 32); Sent (2 ^ 32)] (mk_zc [] 0 0 0 [0; 0; 0; 0] 0 false).

Lemma second_fragment_not_last_witness :
  let L := LAST_FRAG_XDR_UNITS in
  ∃ os' x', svc_ioq_flushv (mk_zp false 0) idle_sock (reply_of 7 long_data) = Ret (0, os', x') ∧
    os_wire os' = os_wire idle_sock ++
      be32 L ++ take (Z.to_nat L) long_data ++ be32 (Zlen long_data - L) ++ drop (Z.to_nat L) long_data ∧
    Z.land L LAST_FRAG = 0 ∧ Z.land (Zlen long_data - L) LAST_FRAG = 0.
Proof.
  pose proof LAST_FRAG_XDR_UNITS_eq as EL. pose proof long_data_size as ES.
  apply (second_fragment_not_last (mk_zp false 0) idle_sock (reply_of 7 long_data)
    (buffer_of long_data) long_data (2 ^ 32) (2 ^ 32) []
    (reply_of_uvq 7 long_data) (reply_of_seg 7 long_data) (reply_of_ordered long_data)).
  - apply (reply_of_pos 7 long_data). rewrite ES. reflexivity.
  - rewrite ES, EL. split; [reflexivity|discriminate].
  - reflexivity.
  - reflexivity.
  - reflexivity.
  - rewrite EL. discriminate.
  - rewrite EL. discriminate.
Defined.
