(* ===== verification/SvcVc.v ===== *)
(** * Receiving records on a stream (src/svc_vc.c, ntirpc/rpc/haproxy.h)

    The receive side of a stream transport: [svc_vc_recv] runs each time the event loop
    finds the socket readable, reads a fragment header or as much of a fragment as there
    is, and hands over the record when its last fragment is complete.  A connection may
    start with a proxy-protocol header that replaces the peer's address.  The socket is
    the list of the bytes the peer will ever send, with an answer for every call of
    [recv]; a read with MSG_WAITALL gets all it asks for unless the answer says
    otherwise.  The build without TLS and without parsing of network identifiers. *)
From stdpp Require Import base gmap list.
From Stdlib Require Import ZArith Lia.
From S2P Require Import Prelude Machine XdrHandle XdrMem XdrIoq SvcIoqZc SvcIoq.

Definition UIO_FLAG_MORE : Z := 8.

Definition PP2_SIG_UINT32 : Z := 0x0d0a0d0a.
Definition PP2_SIG_UINT32_2 : Z := 0x000d0a51.
Definition PP2_SIG_UINT32_3 : Z := 0x5549540a.
Definition PP2_VERSION2_CMD_LOCAL : Z := 0x20.
Definition PP2_VERSION2_CMD_PROXY : Z := 0x21.
Definition PP2_TRANS_STREAM_FAM_INET : Z := 0x11.
Definition PP2_TRANS_STREAM_FAM_INET6 : Z := 0x21.
Definition PP2_ADDR_LEN_INET : Z := 12.
Definition PP2_ADDR_LEN_INET6 : Z := 36.
Definition TEMP_BUFFER_SIZE : Z := 200.
Definition AF_INET : Z := 2.
Definition AF_INET6 : Z := 10.

(** ** The socket *)

(** What a call of [recv] gets: all it asks for (as far as there is anything left), at
    most [n] bytes, or an error. *)
Inductive rd := RdAll | RdShort (n : Z) | RdErr (errno : Z).

(** The bytes to come and the answers to the successive reads with MSG_WAITALL; past the
    end of the list they are complete. *)
Record in_sock := mk_is { is_wire : list Z; is_wait : list rd }.

Definition recv (wire : list Z) (len : Z) (r : rd) : (list Z + Z) * list Z :=
  match r with
  | RdAll => (inl (take (Z.to_nat len) wire), drop (Z.to_nat len) wire)
  | RdShort n => (inl (take (Z.to_nat (n `min` len)) wire), drop (Z.to_nat (n `min` len)) wire)
  | RdErr e => (inr e, wire)
  end.

Definition recv_wait (s : in_sock) (len : Z) : (list Z + Z) * in_sock :=
  let '(r, wire) := recv (is_wire s) len (default RdAll (head (is_wait s))) in
  (r, mk_is wire (tail (is_wait s))).

(** With MSG_PEEK the bytes stay. *)
Definition recv_peek (s : in_sock) (len : Z) : (list Z + Z) * in_sock :=
  let '(r, _) := recv (is_wire s) len (default RdAll (head (is_wait s))) in
  (r, mk_is (is_wire s) (tail (is_wait s))).

(** The bytes of a read of exactly [len] bytes, or none. *)
Definition exactly (r : list Z + Z) (len : Z) : option (list Z) :=
  match r with inl bs => if Zlen bs =? len then Some bs else None | inr _ => None end.

(** ** The transport *)

Record sockaddr := mk_sa { sa_family : Z; sa_port : list Z; sa_addr : list Z }.

(** [struct svc_vc_xprt] with what [svc_vc_recv] uses of the transport it wraps:
    [vx_pending] is the record being received (the one entry of [rec->ioq]),
    [vx_addr_set] is SVC_XPRT_FLAG_REMOTE_ADDR_SET, [tlvs] the type and value of the
    proxy header's extensions. *)
Record vc_xprt := mk_vx {
  vx_mem : heap;
  vx_pending : option XDRQ;
  sx_fbtbc : Z;
  vx_addr_set : bool;
  xp_remote : sockaddr;
  xp_proxy : sockaddr;
  tlvs : list (Z * list Z);
  vx_sock : in_sock;
  vx_destroyed : bool;
}.

Definition set_sock (s : in_sock) (x : vc_xprt) : vc_xprt :=
  mk_vx (vx_mem x) (vx_pending x) (sx_fbtbc x) (vx_addr_set x) (xp_remote x) (xp_proxy x) (tlvs x) s (vx_destroyed x).
Definition set_addresses (r p : sockaddr) (x : vc_xprt) : vc_xprt :=
  mk_vx (vx_mem x) (vx_pending x) (sx_fbtbc x) (vx_addr_set x) r p (tlvs x) (vx_sock x) (vx_destroyed x).
Definition set_tlvs (l : list (Z * list Z)) (x : vc_xprt) : vc_xprt :=
  mk_vx (vx_mem x) (vx_pending x) (sx_fbtbc x) (vx_addr_set x) (xp_remote x) (xp_proxy x) l (vx_sock x) (vx_destroyed x).
Definition set_fbtbc (n : Z) (x : vc_xprt) : vc_xprt :=
  mk_vx (vx_mem x) (vx_pending x) n (vx_addr_set x) (xp_remote x) (xp_proxy x) (tlvs x) (vx_sock x) (vx_destroyed x).
Definition set_addr_set (x : vc_xprt) : vc_xprt :=
  mk_vx (vx_mem x) (vx_pending x) (sx_fbtbc x) true (xp_remote x) (xp_proxy x) (tlvs x) (vx_sock x) (vx_destroyed x).
Definition set_pending (h : heap) (p : option XDRQ) (x : vc_xprt) : vc_xprt :=
  mk_vx h p (sx_fbtbc x) (vx_addr_set x) (xp_remote x) (xp_proxy x) (tlvs x) (vx_sock x) (vx_destroyed x).
Definition SVC_DESTROY (x : vc_xprt) : vc_xprt :=
  mk_vx (vx_mem x) (vx_pending x) (sx_fbtbc x) (vx_addr_set x) (xp_remote x) (xp_proxy x) (tlvs x) (vx_sock x) true.

(** The rest of the world at one call of [svc_vc_recv]: the answers to the reads with
    MSG_WAITALL, to the header read after a proxy header, and to the read of data;
    whether re-arming the event and the callback on the peer's address succeed. *)
Record recv_env := mk_env {
  en_wait : list rd;
  en_again : rd;
  en_data : rd;
  en_rearm : bool;
  en_addr_cb : bool;
}.

(** ** The proxy-protocol header *)

Inductive haproxy_ret_code :=
| HAPROXY_RET_CODE__SUCCESS
| HAPROXY_RET_CODE__FAILURE
| HAPROXY_RET_CODE__IGNORE_LOCAL
| HAPROXY_RET_CODE__NOT_HAPROXY.

(** The bytes and the remaining length, or failure. *)
Definition safe_read_and_update (s : in_sock) (length_to_read remaining : Z)
    : option (list Z * Z) * in_sock :=
  if remaining <? length_to_read then (None, s) else
  let '(r, s) := recv_wait s length_to_read in
  match exactly r length_to_read with
  | None => (None, s)
  | Some bs => (Some (bs, remaining - length_to_read), s)
  end.

Fixpoint ignore_remaining_proxy_protocol (fuel : nat) (s : in_sock) (remaining : Z) : out (bool * in_sock) :=
  if remaining <=? 0 then Ret (true, s) else
  match fuel with
  | O => OutOfFuel
  | S fuel =>
      match safe_read_and_update s (remaining `min` TEMP_BUFFER_SIZE) remaining with
      | (None, s) => Ret (false, s)
      | (Some (_, remaining), s) => ignore_remaining_proxy_protocol fuel s remaining
      end
  end.

Fixpoint handle_haproxy_tlv (fuel : nat) (s : in_sock) (l : list (Z * list Z)) (remaining : Z)
    : out (bool * list (Z * list Z) * in_sock) :=
  if remaining <=? 0 then
    if negb (remaining =? 0) then Abort else Ret (true, l, s)
  else
  match fuel with
  | O => OutOfFuel
  | S fuel =>
      match safe_read_and_update s 1 remaining with
      | (None, s) => Ret (false, l, s)
      | (Some (type, remaining), s) =>
          match safe_read_and_update s 2 remaining with
          | (None, s) => Ret (false, l, s)
          | (Some (length, remaining), s) =>
              match safe_read_and_update s (be_dec length) remaining with
              | (None, s) => Ret (false, l, s)
              | (Some (value, remaining), s) =>
                  handle_haproxy_tlv fuel s (l ++ [(be_dec type, value)]) remaining
              end
          end
      end
  end.

(** The peer's address from the header: [None] is failure. *)
Definition handle_haproxy_header_cmd_v2_parse_address (x : vc_xprt) (family remaining : Z)
    : option Z * vc_xprt :=
  if family =? PP2_TRANS_STREAM_FAM_INET then
    match safe_read_and_update (vx_sock x) PP2_ADDR_LEN_INET remaining with
    | (None, s) => (None, set_sock s x)
    | (Some (bs, remaining), s) =>
        (Some remaining,
         set_addresses (mk_sa AF_INET (take 2 (drop 8 bs)) (take 4 bs)) (xp_remote x) (set_sock s x))
    end
  else if family =? PP2_TRANS_STREAM_FAM_INET6 then
    match safe_read_and_update (vx_sock x) PP2_ADDR_LEN_INET6 remaining with
    | (None, s) => (None, set_sock s x)
    | (Some (bs, remaining), s) =>
        (Some remaining,
         set_addresses (mk_sa AF_INET6 (take 2 (drop 32 bs)) (take 16 bs)) (xp_remote x) (set_sock s x))
    end
  else (None, x).

Definition handle_haproxy_header_cmd_v2_proxy (x : vc_xprt) (fam len : Z) : out (haproxy_ret_code * vc_xprt) :=
  if vx_addr_set x then Ret (HAPROXY_RET_CODE__FAILURE, x) else
  match handle_haproxy_header_cmd_v2_parse_address x fam len with
  | (None, x) => Ret (HAPROXY_RET_CODE__FAILURE, x)
  | (Some remaining, x) =>
      let! (ok, l, s) := handle_haproxy_tlv (Z.to_nat remaining) (vx_sock x) (tlvs x) remaining in
      Ret (if ok : bool then HAPROXY_RET_CODE__SUCCESS else HAPROXY_RET_CODE__FAILURE,
           set_tlvs l (set_sock s x))
  end.

Definition handle_haproxy_header_local_cmd (env : recv_env) (x : vc_xprt) (len : Z)
    : out (haproxy_ret_code * vc_xprt) :=
  let! (ok, s) := ignore_remaining_proxy_protocol (Z.to_nat len) (vx_sock x) len in
  let x := set_sock s x in
  if negb ok then Ret (HAPROXY_RET_CODE__FAILURE, x) else
  if negb (en_rearm env) then Ret (HAPROXY_RET_CODE__FAILURE, x) else
  Ret (HAPROXY_RET_CODE__IGNORE_LOCAL, x).

Definition handle_haproxy_header (env : recv_env) (x : vc_xprt) : out (haproxy_ret_code * vc_xprt) :=
  let '(r, s) := recv_peek (vx_sock x) 8 in
  let x := set_sock s x in
  match exactly r 8 with
  | None => Ret (HAPROXY_RET_CODE__FAILURE, x)
  | Some rest =>
      if negb (be_dec (take 4 rest) =? PP2_SIG_UINT32_2) || negb (be_dec (drop 4 rest) =? PP2_SIG_UINT32_3)
      then Ret (HAPROXY_RET_CODE__NOT_HAPROXY, x) else
      let '(r, s) := recv_wait (vx_sock x) 8 in
      let x := set_sock s x in
      match exactly r 8 with
      | None => Ret (HAPROXY_RET_CODE__FAILURE, x)
      | Some _ =>
          let '(r, s) := recv_wait (vx_sock x) 4 in
          let x := set_sock s x in
          match exactly r 4 with
          | Some [ver_cmd; fam; l1; l0] =>
              let len := be_dec [l1; l0] in
              if negb (ver_cmd =? PP2_VERSION2_CMD_PROXY) then
                if ver_cmd =? PP2_VERSION2_CMD_LOCAL then handle_haproxy_header_local_cmd env x len
                else Ret (HAPROXY_RET_CODE__FAILURE, x)
              else handle_haproxy_header_cmd_v2_proxy x fam len
          | _ => Ret (HAPROXY_RET_CODE__FAILURE, x)
          end
      end
  end.

(** ** Records *)

(** The address may be announced only once. *)
Definition update_and_notify_remote_address_set (env : recv_env) (x : vc_xprt) : out (bool * vc_xprt) :=
  if vx_addr_set x then Abort else Ret (en_addr_cb env, set_addr_set x).

(** How a call ends: the event is re-armed, or the transport is destroyed (with the
    records that were taken off it and neither delivered nor released), or a record goes
    to [svc_request]. *)
Inductive vc_result := Waiting | Died (unreleased : list XDRQ) | Deliver (xdrs : XDRQ).

(** [svc_rqst_rearm_events], or destruction when it fails. *)
Definition rearm (env : recv_env) (x : vc_xprt) : vc_result * vc_xprt :=
  if en_rearm env then (Waiting, x) else (Died [], SVC_DESTROY x).

Section Receive.
Context `{!Allocator}.
Variables pagesz maxrec : Z.

(** [TAILQ_LAST] of the buffers. *)
Definition last_uv (p : xdr_ioq) : option (nat * xdr_ioq_uv) :=
  let i := pred (length (uvq p)) in (λ uv, (i, uv)) <$> uvq p !! i.

(** The header read: the flag of the last fragment is taken off, and a buffer of the
    fragment's size appended. *)
Definition new_fragment (xioq : XDRQ) (fbtbc : Z) (x : vc_xprt) : out ((vc_result + XDRQ * Z) * vc_xprt) :=
  let last := negb (Z.land (u32 fbtbc) LAST_FRAG =? 0) in
  let fbtbc := if last then s32 (Z.land (u32 fbtbc) (LAST_FRAG - 1)) else fbtbc in
  let flags := if last then UIO_FLAG_FREE else Z.lor UIO_FLAG_FREE UIO_FLAG_MORE in
  let x := set_fbtbc fbtbc x in
  if fbtbc =? 0 then Ret (inl (Died []), SVC_DESTROY x) else
  let! (uv, h) := xdr_ioq_uv_create (x_mem xioq) fbtbc flags in
  Ret (inr (on_ioq (ioq_insert_tail uv) (set_mem h xioq), flags), x).

(** From [again] on: a result, or the flags of the new buffer.  [goto_again] is the jump
    back after a proxy header. *)
Definition recv_header_from (goto_again : vc_xprt → out ((vc_result + XDRQ * Z) * vc_xprt))
    (env : recv_env) (hap_again : bool) (xioq : XDRQ) (x : vc_xprt)
    : out ((vc_result + XDRQ * Z) * vc_xprt) :=
  let '(r, s) := if hap_again
                 then let '(r, wire) := recv (is_wire (vx_sock x)) BYTES_PER_XDR_UNIT (en_again env) in
                      (r, mk_is wire (is_wait (vx_sock x)))
                 else recv_wait (vx_sock x) BYTES_PER_XDR_UNIT in
  let x := set_sock s x in
  match r with
  | inr e =>
      if e =? EAGAIN then let '(res, x) := rearm env x in Ret (inl res, x)
      else Ret (inl (Died []), SVC_DESTROY x)
  | inl [] => Ret (inl (Died []), SVC_DESTROY x)
  | inl bs =>
      (* the bytes read overwrite the beginning of the zero in [sx_fbtbc] *)
      let fbtbc := s32 (be_dec (bs ++ drop (length bs) [0; 0; 0; 0])) in
      if fbtbc =? PP2_SIG_UINT32 then
        let x := set_fbtbc 0 x in
        let! (ret, x) := handle_haproxy_header env x in
        match ret with
        | HAPROXY_RET_CODE__SUCCESS =>
            let! (ok, x) := update_and_notify_remote_address_set env x in
            if negb ok then Ret (inl (Died []), SVC_DESTROY x) else goto_again x
        | HAPROXY_RET_CODE__FAILURE => Ret (inl (Died []), SVC_DESTROY x)
        | HAPROXY_RET_CODE__IGNORE_LOCAL => Ret (inl Waiting, x)
        | HAPROXY_RET_CODE__NOT_HAPROXY => new_fragment xioq PP2_SIG_UINT32 x
        end
      else new_fragment xioq fbtbc x
  end.

(** One proxy header is accepted, so that the second round does not jump. *)
Definition recv_header (env : recv_env) (xioq : XDRQ) (x : vc_xprt) : out ((vc_result + XDRQ * Z) * vc_xprt) :=
  recv_header_from (recv_header_from (λ _, OutOfFuel) env true xioq) env false xioq x.

(** The end of a record. *)
Definition finish_record (env : recv_env) (xioq : XDRQ) (x : vc_xprt) : out (vc_result * vc_xprt) :=
  let x := set_pending (x_mem xioq) None x in
  let! xioq := xdr_ioq_reset xioq 0 in
  let! (ok, x) := if negb (vx_addr_set x) then update_and_notify_remote_address_set env x else Ret (true, x) in
  if negb ok then Ret (Died [xioq], SVC_DESTROY x) else
  if negb (en_rearm env) then
    let! (_, h) := xdr_ioq_destroy xioq in
    Ret (Died [], SVC_DESTROY (set_pending h None x))
  else Ret (Deliver xioq, x).

(** The read of data into the last buffer. *)
Definition recv_data (env : recv_env) (xioq : XDRQ) (flags : Z) (x : vc_xprt) : out (vc_result * vc_xprt) :=
  let! (i, uv) := access (last_uv (x_private xioq)) in
  let '(r, wire) := recv (is_wire (vx_sock x)) (sx_fbtbc x) (en_data env) in
  let x := set_sock (mk_is wire (is_wait (vx_sock x))) x in
  match r with
  | inr e =>
      let x := set_pending (x_mem xioq) (Some xioq) x in
      if e =? EAGAIN then Ret (rearm env x) else Ret (Died [], SVC_DESTROY x)
  | inl [] => Ret (Died [], SVC_DESTROY (set_pending (x_mem xioq) (Some xioq) x))
  | inl bs =>
      let! h := access (store (x_mem xioq) (vio_tail (uv_v uv)) bs) in
      let v := set_vio_tail (vio_tail (uv_v uv) + Zlen bs) (uv_v uv) in
      let xioq := on_ioq (set_v_at i v) (set_mem h xioq) in
      let x := set_fbtbc (sx_fbtbc x - Zlen bs) (set_pending h (Some xioq) x) in
      if negb (sx_fbtbc x =? 0) || has_flag flags UIO_FLAG_MORE then Ret (rearm env x)
      else finish_record env xioq x
  end.

Definition svc_vc_recv (env : recv_env) (x : vc_xprt) : out (vc_result * vc_xprt) :=
  let x := set_sock (mk_is (is_wire (vx_sock x)) (en_wait env)) x in
  let! xioq := match vx_pending x with
               | Some xioq => Ret (set_mem (vx_mem x) xioq)
               | None => xdr_ioq_create (vx_mem x) pagesz maxrec UIO_FLAG_BUFQ
               end in
  let x := set_pending (x_mem xioq) (Some xioq) x in
  if sx_fbtbc x =? 0 then
    let! (res, x) := recv_header env xioq x in
    match res with
    | inl res => Ret (res, x)
    | inr (xioq, flags) => recv_data env xioq flags x
    end
  else
    let! (_, uv) := access (last_uv (x_private xioq)) in
    recv_data env xioq (uv_flags uv) x.

(** The event loop: calls as long as the transport lives, with the records delivered. *)
Fixpoint vc_run (envs : list recv_env) (x : vc_xprt) : out (list XDRQ * vc_xprt) :=
  match envs with
  | [] => Ret ([], x)
  | env :: envs =>
      if vx_destroyed x then Ret ([], x) else
      let! (res, x) := svc_vc_recv env x in
      let! (ds, x) := vc_run envs x in
      Ret (match res with Deliver d => d :: ds | _ => ds end, x)
  end.
End Receive.

(** An accepted connection from [remote]. *)
Definition vc_accepted (h : heap) (remote : sockaddr) (wire : list Z) : vc_xprt :=
  mk_vx h None 0 false remote remote [] (mk_is wire []) false.
