(* ===== verification/SvcVcFacts.v ===== *)
(** * Buffers of a record being received

    The buffers hold the bytes received so far in blocks of their own; only the last one
    has room, exactly for what is missing of its fragment. *)
From stdpp Require Import base gmap list.
From Stdlib Require Import ZArith Lia.
From S2P Require Import Prelude Machine XdrHandle XdrMem XdrIoq XdrIoqFacts XdrIoqTheorems SvcIoqZc SvcIoq SvcIoqFacts SvcVc.

(** ** Blocks *)

Definition block_addrs (uv : xdr_ioq_uv) : list Z :=
  seqZ (vio_base (uv_v uv)) (vio_wrap (uv_v uv) - vio_base (uv_v uv)).

(** A buffer as [xdr_ioq_uv_create] makes it, filled up to its tail. *)
Record shape (uv : xdr_ioq_uv) : Prop := {
  sh_head : vio_head (uv_v uv) = vio_base (uv_v uv);
  sh_tail : vio_base (uv_v uv) ≤ vio_tail (uv_v uv) ≤ vio_wrap (uv_v uv);
  sh_size : vio_wrap (uv_v uv) - vio_base (uv_v uv) < 2 ^ 31;
  sh_free : uv_references uv = 1 ∧ uv_release uv = false ∧
            has_flag (uv_flags uv) UIO_FLAG_REFER = false ∧ has_flag (uv_flags uv) UIO_FLAG_FREE = true;
}.

Definition full (uv : xdr_ioq_uv) : Prop := vio_tail (uv_v uv) = vio_wrap (uv_v uv).

(** [q] holds [l], and [left] bytes are missing in its last buffer. *)
Record filling (h : heap) (q : list xdr_ioq_uv) (left : Z) (l : list Z) : Prop := {
  fi_segs : segs h q = Some l;
  fi_bytes : bytes l;
  fi_shape : Forall shape q;
  fi_alloc : ∀ i, i ∈ concat (block_addrs <$> q) → is_Some (h !! i);
  fi_apart : NoDup (concat (block_addrs <$> q));
  fi_left : match reverse q with
            | [] => left = 0
            | uv :: pre => vio_tail (uv_v uv) + left = vio_wrap (uv_v uv) ∧ Forall full pre
            end;
}.

Lemma filling_nil h : filling h [] 0 [].
Proof. constructor; cbn; try done; [constructor..| |constructor]. intros i Hi. by apply not_elem_of_nil in Hi. Qed.

Lemma filling_left h q left l : filling h q left l → 0 ≤ left < 2 ^ 31.
Proof.
  intros []. destruct (reverse q) as [|uv pre] eqn:E; [lia|]. destruct fi_left0 as [Hl _].
  assert (uv ∈ q) as Huv by (rewrite <- elem_of_reverse, E; left).
  rewrite Forall_forall in fi_shape0. destruct (fi_shape0 uv Huv). lia.
Qed.

Lemma elem_of_blocks i q :
  i ∈ concat (block_addrs <$> q) ↔ ∃ uv, uv ∈ q ∧ vio_base (uv_v uv) ≤ i < vio_wrap (uv_v uv).
Proof.
  induction q as [|uv q IH]; cbn.
  - split; [by intros ?%not_elem_of_nil|]. intros (? & ?%not_elem_of_nil & _). done.
  - rewrite elem_of_app, IH. unfold block_addrs. rewrite elem_of_seqZ. split.
    + intros [?|(uv' & ? & ?)]; [exists uv; split; [left|lia]|exists uv'; split; [by right|done]].
    + intros (uv' & [->|?]%elem_of_cons & ?); [left; lia|right; eauto].
Qed.

(** All buffers full: the bytes in use are the blocks. *)
Lemma full_segs q : Forall shape q → Forall full q → seg_addrs <$> q = block_addrs <$> q.
Proof.
  induction 1 as [|uv q [Hh _ _ _] _ IH]; intros Hf; [done|]. apply Forall_cons in Hf as [Hf1 Hf2].
  cbn. rewrite IH by done. f_equal. unfold seg_addrs, block_addrs. red in Hf1. by rewrite Hh, Hf1.
Qed.

Lemma filling_full h q l : filling h q 0 l → Forall full q.
Proof.
  intros []. destruct (reverse q) as [|uv pre] eqn:E.
  - apply (f_equal reverse) in E. rewrite reverse_involutive in E. by subst q.
  - apply (f_equal reverse) in E. rewrite reverse_involutive in E. subst q. apply Forall_reverse. destruct fi_left0 as [Hl Hp].
    constructor; [red; lia|done].
Qed.

(** ** A new fragment *)

Lemma filling_new `{!Allocator} h q l n flags :
  filling h q 0 l → 0 < n < 2 ^ 31 →
  has_flag flags UIO_FLAG_REFER = false → has_flag flags UIO_FLAG_FREE = true →
  ∃ uv h', xdr_ioq_uv_create h n flags = Ret (uv, h') ∧ filling h' (q ++ [uv]) n l ∧ uv_flags uv = flags.
Proof.
  intros Hq Hn Hr Hf. pose proof (filling_full _ _ _ Hq) as Hfull. destruct Hq. rewrite uv_create_eq by lia.
  set (a := (malloc h n).1). set (h' := (malloc h n).2).
  set (uv := mk_uv flags 1 false None (mk_vio a a a (a + n) 0 VIO_HEADER)).
  exists uv, h'. split; [done|]. split; [|done].
  assert (Hfresh : ∀ i, i ∈ concat (block_addrs <$> q) → ¬ (a ≤ i < a + n)).
  { intros i Hi Ha. destruct (fi_alloc0 i Hi) as [b Hb]. by rewrite (malloc_fresh _ _ _ Ha) in Hb. }
  assert (Hcat : concat (block_addrs <$> (q ++ [uv])) = concat (block_addrs <$> q) ++ seqZ a n).
  { rewrite fmap_app, concat_app. cbn. rewrite app_nil_r. unfold block_addrs. cbn.
    by replace (a + n - a) with n by lia. }
  constructor.
  - apply segs_app. exists l, []. rewrite app_nil_r. split_and!; [|cbn; unfold seg; cbn; by rewrite Z.sub_diag|done].
    rewrite <- fi_segs0. apply segs_ext. intros uv' i Hin Hi. apply malloc_frame. apply Hfresh, elem_of_blocks.
    exists uv'. split; [done|]. rewrite Forall_forall in fi_shape0. destruct (fi_shape0 uv' Hin). lia.
  - done.
  - apply Forall_app. split; [done|]. constructor; [|done]. constructor; cbn; [done|lia|lia|done].
  - intros i. rewrite Hcat, elem_of_app, elem_of_seqZ. intros [Hi|Hi].
    + destruct (fi_alloc0 i Hi) as [b Hb]. exists b. unfold h'. rewrite malloc_frame; [done|]. by apply Hfresh.
    + apply malloc_allocd. lia.
  - rewrite Hcat. apply NoDup_app. split_and!; [done| |apply NoDup_seqZ].
    intros i Hi. rewrite elem_of_seqZ. specialize (Hfresh i Hi). fold a in Hfresh. lia.
  - rewrite reverse_snoc. cbn. split; [lia|]. by apply Forall_reverse.
Qed.

(** ** Data *)

Lemma segs_snoc h q uv l :
  segs h (q ++ [uv]) = Some l ↔ ∃ w1 w2, segs h q = Some w1 ∧ seg h uv = Some w2 ∧ l = w1 ++ w2.
Proof.
  rewrite segs_app. setoid_rewrite segs_cons. split.
  - intros (w1 & ? & ? & (w2 & ? & ? & [= <-] & ->) & ->). exists w1, w2. by rewrite app_nil_r.
  - intros (w1 & w2 & ? & ? & ->). exists w1, w2. split_and!; [done| |done]. exists w2, []. by rewrite app_nil_r.
Qed.

Definition with_tail (n : Z) (uv : xdr_ioq_uv) : xdr_ioq_uv :=
  set_uv_v (set_vio_tail (vio_tail (uv_v uv) + n) (uv_v uv)) uv.

Lemma blocks_tail pre uv n :
  concat (block_addrs <$> (pre ++ [with_tail n uv])) = concat (block_addrs <$> (pre ++ [uv])).
Proof. by rewrite !fmap_app. Qed.

Lemma filling_store h pre uv left l bs :
  filling h (pre ++ [uv]) left l → Zlen bs ≤ left → bytes bs →
  ∃ h', store h (vio_tail (uv_v uv)) bs = Some h' ∧
    filling h' (pre ++ [with_tail (Zlen bs) uv]) (left - Zlen bs) (l ++ bs).
Proof.
  intros [] Hle Hb. rewrite reverse_snoc in fi_left0. cbn in fi_left0. destruct fi_left0 as [Hl Hp].
  apply Forall_app in fi_shape0 as [Hs1 Hs2]. apply Forall_cons in Hs2 as [[Hh Ht Hsz Hfr] _].
  assert (Hin : ∀ i, vio_base (uv_v uv) ≤ i < vio_wrap (uv_v uv) → i ∈ concat (block_addrs <$> (pre ++ [uv]))).
  { intros i Hi. apply elem_of_blocks. exists uv. split; [apply elem_of_app; right; left|done]. }
  destruct (store_allocd h (vio_tail (uv_v uv)) bs) as [h' Hst].
  { intros i Hi. apply fi_alloc0, Hin. lia. }
  exists h'. split; [done|]. pose proof (store_dom _ _ _ _ Hst) as Hd.
  apply segs_snoc in fi_segs0 as (w1 & w2 & H1 & H2 & ->). pose proof (load_length _ _ _ _ H2) as Hl2.
  constructor.
  - apply segs_snoc. exists w1, (w2 ++ bs). rewrite app_assoc. split_and!; [|..|done].
    + rewrite <- H1. apply segs_ext. intros uv' i Hin' Hi. apply (store_outside _ _ _ _ _ Hst). intros Hbad.
      assert (Hi1 : i ∈ concat (block_addrs <$> pre)).
      { apply elem_of_blocks. exists uv'. split; [done|]. rewrite Forall_forall in Hs1. destruct (Hs1 uv' Hin'). lia. }
      rewrite fmap_app, concat_app in fi_apart0. apply NoDup_app in fi_apart0 as (_ & Hdis & _). apply (Hdis i Hi1).
      cbn. rewrite app_nil_r. unfold block_addrs. apply elem_of_seqZ. lia.
    + unfold seg in *. cbn. replace (Z.to_nat _) with (length w2 + length bs)%nat by lia.
      apply load_concat.
      * rewrite (load_store_disj _ _ _ _ _ _ Hst) by lia. by rewrite Hl2.
      * rewrite Hl2. replace (_ + Z.of_nat _) with (vio_tail (uv_v uv)) by lia. by eapply load_store.
  - by apply bytes_app.
  - apply Forall_app. split; [done|]. constructor; [|done]. constructor; cbn; [done|lia|lia|done].
  - intros i. rewrite blocks_tail. intros Hi. apply elem_of_dom. rewrite Hd. apply elem_of_dom. auto.
  - by rewrite blocks_tail.
  - rewrite reverse_snoc. cbn. split; [lia|done].
Qed.

(** ** The end of a record *)

Lemma filling_reset h q l (x : XDRQ) :
  filling h q 0 l → q ≠ [] → x_mem x = h → uvq (x_private x) = q →
  ∃ x', xdr_ioq_reset x 0 = Ret x' ∧ x_mem x' = h ∧ uvq (x_private x') = q ∧
    qcount (x_private x') = qcount (x_private x) ∧
    (qcount (x_private x) = Zlen q → Zlen q < 2 ^ 31 → unit_segs q → ioq_in (set_op XDR_DECODE x') 0 l).
Proof.
  intros Hq Hne Hm Hu. pose proof (filling_full _ _ _ Hq) as Hfull. destruct q as [|uv q]; [done|].
  destruct x as [op d v [q' qc b mn mx pl pc] h']. cbn in Hm, Hu. subst h' q'.
  unfold xdr_ioq_reset. cbn [x_private uvq head access obind].
  pose proof (fi_shape _ _ _ _ Hq) as Hs. apply Forall_cons in Hs as [[Hh _ _ _] _].
  assert (E : (if ioquv_size uv <=? 0
     then on_ioq (λ p, set_plength 0 (set_pcount 0 p)) (mk_xdr op d v (mk_ioq (uv :: q) qc b mn mx pl pc) h)
     else on_ioq (set_v_at 0 (set_vio_head (vio_base (uv_v uv) + 0) (uv_v uv)))
            (on_ioq (λ p, set_plength 0 (set_pcount 0 p)) (mk_xdr op d v (mk_ioq (uv :: q) qc b mn mx pl pc) h))) =
     mk_xdr op d v (mk_ioq (uv :: q) qc b mn mx 0 0) h).
  { destruct (_ <=? 0); [done|]. destruct uv as [? ? ? ? [base hd ? ? ? ?]]. cbn in Hh. subst hd.
    unfold set_vio_head. cbn [uv_v vio_base]. by rewrite Z.add_0_r. }
  rewrite E. unfold xdr_ioq_reset, xdr_ioq_uv_reset. cbn. eexists. split; [done|]. split_and!; try done.
  intros -> Hc Hun. destruct (received_reset h (uv :: q) l mn mx pl pc b v d) as (x' & E' & Hin).
  { constructor; try done; try apply Hq.
    - rewrite full_segs; [apply Hq|apply Hq|done].
    - exists uv. done. }
  unfold xdr_ioq_reset in E'. cbn [x_private uvq head access obind] in E'.
  assert (E2 : x' = set_v (uv_v uv) (set_data (vio_head (uv_v uv))
    (mk_xdr XDR_DECODE d v (mk_ioq (uv :: q) (Zlen (uv :: q)) 0 mn mx 0 0) h))).
  { destruct (_ <=? 0) in E'; cbn in E'; [by simplify_eq|].
    destruct uv as [? ? ? ? [base hd ? ? ? ?]]. cbn in Hh, E'. subst hd. rewrite Z.add_0_r in E'. by simplify_eq. }
  subst x'. exact Hin.
Qed.

(** Releasing disjoint allocated blocks. *)
Lemma release_ok q : ∀ h n,
  Forall shape q → (∀ i, i ∈ concat (block_addrs <$> q) → is_Some (h !! i)) →
  NoDup (concat (block_addrs <$> q)) →
  ∃ fs h', ioq_release_loop h q n = Ret (fs, n - Zlen q, h').
Proof.
  induction q as [|uv q IH]; intros h n Hs Ha Hd; cbn [ioq_release_loop].
  { exists [], h. by rewrite Z.sub_0_r. }
  apply Forall_cons in Hs as [[Hh Ht Hsz (Hr & Hrel & Href & Hfree)] Hs]. cbn in Hd, Ha.
  apply NoDup_app in Hd as (Hd1 & Hdis & Hd2).
  unfold xdr_ioq_uv_release. rewrite Hr, Hrel, Href, Hfree. change (1 - 1 =? 0) with true. cbn [negb].
  assert (Es : ioquv_size uv = vio_wrap (uv_v uv) - vio_base (uv_v uv)).
  { unfold ioquv_size. apply wrapu_id. red. lia. }
  destruct (free_block_ok (Z.to_nat (ioquv_size uv)) h (vio_base (uv_v uv))) as (h' & Ef & Hout).
  { rewrite Es. intros i Hi. apply Ha, elem_of_app. left. unfold block_addrs. apply elem_of_seqZ. lia. }
  rewrite Ef. cbn [access obind].
  destruct (IH h' (n - 1) Hs) as (fs & h2 & E2); [|done|].
  - intros i Hi. rewrite Hout; [apply Ha, elem_of_app; by right|]. intros Hbad. apply (Hdis i); [|done].
    unfold block_addrs. apply elem_of_seqZ. lia.
  - rewrite E2. cbn [obind]. exists (Freed :: fs), h2. do 3 f_equal. cbn. lia.
Qed.

Lemma filling_destroy h q l (x : XDRQ) :
  filling h q 0 l → x_mem x = h → uvq (x_private x) = q → qcount (x_private x) = Zlen q →
  ∃ fs h', xdr_ioq_destroy x = Ret (fs, h').
Proof.
  intros [] Hm Hu Hc. unfold xdr_ioq_destroy, xdr_ioq_release. rewrite Hm, Hu, Hc.
  destruct (release_ok q h (Zlen q)) as (fs & h' & ->); [done..|]. cbn [obind].
  rewrite Z.sub_diag. cbn. eauto.
Qed.

(** ** Reading *)

Lemma recv_spec wire len r :
  0 ≤ len → bytes wire →
  match recv wire len r with
  | (inl bs, wire') => wire = bs ++ wire' ∧ Zlen bs ≤ len ∧ bytes bs ∧ bytes wire'
  | (inr _, wire') => wire' = wire
  end.
Proof.
  intros Hl Hb. assert (∀ n, wire = take n wire ++ drop n wire ∧ bytes (take n wire) ∧ bytes (drop n wire)) as Hs.
  { intros n. split; [by rewrite take_drop|]. split; [by apply Forall_take|by apply Forall_drop]. }
  destruct r as [|n|e]; cbn; [..|done]; rewrite length_take; (split_and!; [apply Hs|lia|apply Hs..]).
Qed.

Definition wire_ok (s : in_sock) : Prop := bytes (is_wire s).

Lemma recv_wait_spec s len :
  0 ≤ len → wire_ok s →
  match recv_wait s len with
  | (inl bs, s') => Zlen bs ≤ len ∧ bytes bs ∧ wire_ok s'
  | (inr _, s') => wire_ok s'
  end.
Proof.
  intros Hl Hs. unfold recv_wait. pose proof (recv_spec (is_wire s) len (default RdAll (head (is_wait s))) Hl Hs) as H.
  destruct (recv _ _ _) as [[bs|e] w']; [by destruct H as (_ & ? & ? & ?)|]. subst w'. exact Hs.
Qed.

Lemma exactly_spec s len :
  0 ≤ len → wire_ok s →
  let '(r, s') := recv_wait s len in
  wire_ok s' ∧ ∀ bs, exactly r len = Some bs → Zlen bs = len ∧ bytes bs.
Proof.
  intros Hl Hs. pose proof (recv_wait_spec s len Hl Hs) as H. destruct (recv_wait s len) as [[bs|e] s'].
  - destruct H as (? & ? & ?). split; [done|]. cbn. intros bs'. destruct (Z.eqb_spec (Zlen bs) len); naive_solver.
  - done.
Qed.

Lemma safe_read_spec s n rem :
  0 ≤ n → wire_ok s →
  match safe_read_and_update s n rem with
  | (None, s') => wire_ok s'
  | (Some (bs, rem'), s') => wire_ok s' ∧ Zlen bs = n ∧ bytes bs ∧ rem' = rem - n ∧ n ≤ rem
  end.
Proof.
  intros Hn Hs. unfold safe_read_and_update. destruct (Z.ltb_spec rem n); [done|].
  pose proof (exactly_spec s n Hn Hs) as Hx. destruct (recv_wait s n) as [r s']. destruct Hx as [Hs' Hex].
  destruct (exactly r n) as [bs|]; [|done]. destruct (Hex bs eq_refl). split_and!; done.
Qed.

Lemma be_dec_nonneg l : bytes l → 0 ≤ be_dec l.
Proof.
  unfold be_dec. intros Hb. assert (∀ acc, 0 ≤ acc → 0 ≤ fold_left (λ a b, a * 256 + b) l acc) as H; [|by apply H].
  induction Hb as [|b l Hb _ IH]; intros acc Ha; cbn; [done|]. apply IH. red in Hb. lia.
Qed.

(** ** The proxy header *)

Lemma ignore_total fuel : ∀ s rem,
  wire_ok s → rem ≤ Z.of_nat fuel →
  ∃ ok s', ignore_remaining_proxy_protocol fuel s rem = Ret (ok, s') ∧ wire_ok s'.
Proof.
  induction fuel as [|fuel IH]; intros s rem Hs Hf; cbn [ignore_remaining_proxy_protocol];
    (destruct (Z.leb_spec rem 0); [by eexists _, _|]); [lia|].
  pose proof (safe_read_spec s (rem `min` TEMP_BUFFER_SIZE) rem) as Hr. unfold TEMP_BUFFER_SIZE in *.
  specialize (Hr ltac:(lia) Hs). destruct (safe_read_and_update _ _ _) as [[[bs rem']|] s']; [|by eexists _, _].
  destruct Hr as (? & ? & ? & -> & ?). apply IH; [done|lia].
Qed.

Lemma tlv_total fuel : ∀ s l rem,
  wire_ok s → 0 ≤ rem ≤ Z.of_nat fuel →
  ∃ ok l' s', handle_haproxy_tlv fuel s l rem = Ret (ok, l', s') ∧ wire_ok s'.
Proof.
  induction fuel as [|fuel IH]; intros s l rem Hs Hf; cbn [handle_haproxy_tlv];
    (destruct (Z.leb_spec rem 0); [rewrite (proj2 (Z.eqb_eq rem 0)) by lia; by eexists _, _, _|]); [lia|].
  pose proof (safe_read_spec s 1 rem ltac:(lia) Hs) as H1.
  destruct (safe_read_and_update s 1 rem) as [[[ty rem1]|] s1]; [|by eexists _, _, _].
  destruct H1 as (Hs1 & _ & _ & -> & ?). pose proof (safe_read_spec s1 2 (rem - 1) ltac:(lia) Hs1) as H2.
  destruct (safe_read_and_update s1 2 (rem - 1)) as [[[len rem2]|] s2]; [|by eexists _, _, _].
  destruct H2 as (Hs2 & _ & Hb2 & -> & ?). pose proof (be_dec_nonneg len Hb2) as Hn.
  pose proof (safe_read_spec s2 (be_dec len) (rem - 1 - 2) Hn Hs2) as H3.
  destruct (safe_read_and_update s2 _ _) as [[[val rem3]|] s3]; [|by eexists _, _, _].
  destruct H3 as (Hs3 & _ & _ & -> & ?). apply IH; [done|lia].
Qed.

(** What the handling of a proxy header may change. *)
Record hap_frame (x x' : vc_xprt) : Prop := {
  hf_mem : vx_mem x' = vx_mem x;
  hf_pending : vx_pending x' = vx_pending x;
  hf_fbtbc : sx_fbtbc x' = sx_fbtbc x;
  hf_set : vx_addr_set x' = vx_addr_set x;
  hf_alive : vx_destroyed x' = vx_destroyed x;
  hf_wire : wire_ok (vx_sock x');
  hf_addr : vx_addr_set x = true → xp_remote x' = xp_remote x ∧ xp_proxy x' = xp_proxy x;
}.

Lemma hap_sock x s : wire_ok s → hap_frame x (set_sock s x).
Proof. by constructor. Qed.

Lemma hap_trans x y z : hap_frame x y → hap_frame y z → hap_frame x z.
Proof.
  intros [] []. constructor; [congruence..|done|].
  intros Ha. rewrite hf_set0 in hf_addr1. destruct (hf_addr0 Ha), (hf_addr1 Ha). split; congruence.
Qed.

Lemma parse_address_spec x fam rem :
  wire_ok (vx_sock x) → vx_addr_set x = false → 0 ≤ rem →
  let '(r, x') := handle_haproxy_header_cmd_v2_parse_address x fam rem in
  hap_frame x x' ∧ (∀ rem', r = Some rem' → 0 ≤ rem').
Proof.
  intros Hs Ha Hr. unfold handle_haproxy_header_cmd_v2_parse_address.
  assert (H : ∀ n f g, 0 ≤ n → let '(r, x') := match safe_read_and_update (vx_sock x) n rem with
      | (None, s) => (None, set_sock s x)
      | (Some (bs, remaining), s) => (Some remaining, set_addresses (f bs) (g x) (set_sock s x)) end in
    hap_frame x x' ∧ (∀ rem', r = Some rem' → 0 ≤ rem')).
  { intros n f g Hn. pose proof (safe_read_spec (vx_sock x) n rem Hn Hs) as H.
    destruct (safe_read_and_update _ _ _) as [[[bs rem']|] s'].
    - destruct H as (? & _ & _ & -> & ?). split; [constructor; cbn; done || congruence|]. intros ? [= <-]. lia.
    - split; [by apply hap_sock|done]. }
  destruct (fam =? _); [by apply (H PP2_ADDR_LEN_INET)|]. destruct (fam =? _); [by apply (H PP2_ADDR_LEN_INET6)|].
  split; [by constructor|done].
Qed.

(** A header is handled whatever the peer sends; success means the address was not set. *)
Definition hap_done (x : vc_xprt) (o : out (haproxy_ret_code * vc_xprt)) : Prop :=
  ∃ ret x', o = Ret (ret, x') ∧ hap_frame x x' ∧ (ret = HAPROXY_RET_CODE__SUCCESS → vx_addr_set x = false).

Lemma hap_done_frame x y o : hap_frame x y → hap_done y o → hap_done x o.
Proof.
  intros Hf (ret & x' & -> & Hf' & Hs). exists ret, x'. split; [done|]. split; [by eapply hap_trans|].
  rewrite <- (hf_set _ _ Hf). done.
Qed.

Lemma hap_failure x y ret : hap_frame x y → ret ≠ HAPROXY_RET_CODE__SUCCESS → hap_done x (Ret (ret, y)).
Proof. intros ??. exists ret, y. done. Qed.

Lemma proxy_total x fam len :
  wire_ok (vx_sock x) → 0 ≤ len → hap_done x (handle_haproxy_header_cmd_v2_proxy x fam len).
Proof.
  intros Hs Hl. unfold handle_haproxy_header_cmd_v2_proxy.
  destruct (vx_addr_set x) eqn:Ea; [by apply hap_failure; [constructor|]|].
  pose proof (parse_address_spec x fam len Hs Ea Hl) as H.
  destruct (handle_haproxy_header_cmd_v2_parse_address x fam len) as [[rem|] x1]; destruct H as [Hf Hrem];
    [|by apply hap_failure].
  specialize (Hrem rem eq_refl). destruct (tlv_total (Z.to_nat rem) (vx_sock x1) (tlvs x1) rem) as (ok & l & s & -> & Hs');
    [apply Hf|lia|]. cbn [obind]. eexists _, _. split; [done|]. split; [|done].
  eapply hap_trans; [exact Hf|]. by constructor.
Qed.

Lemma local_total env x len :
  wire_ok (vx_sock x) → hap_done x (handle_haproxy_header_local_cmd env x len).
Proof.
  intros Hs. unfold handle_haproxy_header_local_cmd.
  destruct (ignore_total (Z.to_nat len) (vx_sock x) len Hs) as (ok & s & -> & Hs'); [lia|]. cbn [obind].
  destruct (negb ok); [by apply hap_failure; [apply hap_sock|]|].
  destruct (negb _); by apply hap_failure; [apply hap_sock|].
Qed.

Lemma header_total env x : wire_ok (vx_sock x) → hap_done x (handle_haproxy_header env x).
Proof.
  intros Hs. unfold handle_haproxy_header, recv_peek.
  destruct (recv (is_wire (vx_sock x)) 8 _) as [r w0].
  set (x1 := set_sock (mk_is (is_wire (vx_sock x)) (tail (is_wait (vx_sock x)))) x).
  assert (H1 : hap_frame x x1) by (by apply hap_sock). eapply hap_done_frame; [exact H1|].
  assert (Hr : hap_frame x1 x1) by (by constructor).
  destruct (exactly r 8) as [rest|]; [|by apply hap_failure]. destruct (_ || _); [by apply hap_failure|].
  pose proof (exactly_spec (vx_sock x1) 8 ltac:(lia) (hf_wire _ _ H1)) as H2.
  destruct (recv_wait (vx_sock x1) 8) as [r2 s2]. destruct H2 as [Hs2 _].
  eapply hap_done_frame; [by apply (hap_sock x1 s2)|]. set (x2 := set_sock s2 x1).
  assert (Hr2 : hap_frame x2 x2) by (by constructor).
  destruct (exactly r2 8); [|by apply hap_failure].
  pose proof (exactly_spec (vx_sock x2) 4 ltac:(lia) Hs2) as H3.
  destruct (recv_wait (vx_sock x2) 4) as [r3 s3]. destruct H3 as [Hs3 Hex].
  eapply hap_done_frame; [by apply (hap_sock x2 s3)|]. set (x3 := set_sock s3 x2).
  assert (Hr3 : hap_frame x3 x3) by (by constructor).
  destruct (exactly r3 4) as [bs|]; [|by apply hap_failure]. destruct (Hex bs eq_refl) as [Hl4 Hb4].
  destruct bs as [|b0 [|b1 [|b2 [|b3 [|]]]]]; try (cbn in Hl4; lia).
  destruct (negb _); [destruct (_ =? _); [by apply local_total|by apply hap_failure]|].
  apply proxy_total; [done|]. apply be_dec_nonneg. do 2 (apply Forall_cons in Hb4 as [_ Hb4]). done.
Qed.
