(* ===== verification/SvcVcTheorems.v ===== *)
(** * The receive side of a stream transport

    First that no peer can make it fail: every sequence of calls returns, whatever the
    bytes and however the socket delivers them.  Then that records are delivered as they
    were sent. *)
From stdpp Require Import base gmap list.
From Stdlib Require Import ZArith Lia.
From S2P Require Import Prelude Machine XdrHandle XdrStream XdrMem XdrIoq XdrIoqFacts XdrIoqTheorems SvcIoqZc SvcIoqZcFacts SvcIoq SvcIoqFacts SvcIoqTheorems SvcVc SvcVcFacts.

(** ** One call *)

(** The record in progress holds [l]. *)
Definition holding (x : vc_xprt) (l : list Z) : Prop :=
  match vx_pending x with
  | None => sx_fbtbc x = 0 ∧ l = []
  | Some q => filling (vx_mem x) (uvq (x_private q)) (sx_fbtbc x) l ∧ qcount (x_private q) = Zlen (uvq (x_private q))
  end.

(** Once announced, the peer's address stays. *)
Definition addr_kept (x x' : vc_xprt) : Prop :=
  vx_addr_set x = true →
  vx_addr_set x' = true ∧ xp_remote x' = xp_remote x ∧ xp_proxy x' = xp_proxy x.

Lemma addr_kept_trans x y z : addr_kept x y → addr_kept y z → addr_kept x z.
Proof. intros H1 H2 Ha. destruct (H1 Ha) as (Hb & ? & ?). destruct (H2 Hb) as (? & ? & ?). split_and!; congruence. Qed.

Lemma hap_kept x x' : hap_frame x x' → addr_kept x x'.
Proof. intros [] Ha. destruct (hf_addr Ha). split_and!; congruence. Qed.

(** The header value [v] split into length and mark. *)
Definition frag_len (v : Z) : Z := v mod 2 ^ 31.
Definition frag_flags (v : Z) : Z :=
  if 2 ^ 31 <=? v then UIO_FLAG_FREE else Z.lor UIO_FLAG_FREE UIO_FLAG_MORE.

Section Receive.
Context `{!Allocator} (pagesz maxrec : Z).

Lemma new_fragment_eq q v x :
  is_u 32 v →
  new_fragment q (s32 v) x =
    if frag_len v =? 0 then Ret (inl (Died []), SVC_DESTROY (set_fbtbc 0 x)) else
    let! (uv, h) := xdr_ioq_uv_create (x_mem q) (frag_len v) (frag_flags v) in
    Ret (inr (on_ioq (ioq_insert_tail uv) (set_mem h q), frag_flags v), set_fbtbc (frag_len v) x).
Proof.
  intros Hv. unfold new_fragment, frag_len, frag_flags. rewrite wrapu_wraps, wrapu_id by done.
  assert (Hland : Z.land v (LAST_FRAG - 1) = v mod 2 ^ 31).
  { change (LAST_FRAG - 1) with (Z.ones 31). by rewrite Z.land_ones. }
  assert (Hbit : negb (Z.land v LAST_FRAG =? 0) = (2 ^ 31 <=? v)).
  { unfold LAST_FRAG. rewrite land_pow2 by lia. red in Hv. rewrite Z.testbit_odd, Z.shiftr_div_pow2 by lia.
    destruct (Z.leb_spec (2 ^ 31) v); [by replace (v / 2 ^ 31) with 1 by lia|by replace (v / 2 ^ 31) with 0 by lia]. }
  rewrite Hbit, Hland. red in Hv. destruct (Z.leb_spec (2 ^ 31) v).
  - rewrite wraps_id by (done || (red; lia)). by destruct (Z.eqb_spec (v mod 2 ^ 31) 0) as [->|].
  - rewrite wraps_id by (done || (red; lia)). rewrite Z.mod_small by lia. by destruct (Z.eqb_spec v 0) as [->|].
Qed.

(** After the header: [inl] the call is over, [inr] a buffer waits for the fragment. *)
Definition header_done (x : vc_xprt) (l : list Z) (o : out ((vc_result + XDRQ * Z) * vc_xprt)) : Prop :=
  ∃ res x', o = Ret (res, x') ∧ addr_kept x x' ∧ wire_ok (vx_sock x') ∧
    match res with
    | inl Waiting => holding x' l ∧ vx_destroyed x' = vx_destroyed x
    | inl (Died us) => us = [] ∧ vx_destroyed x' = true
    | inl (Deliver _) => False
    | inr (q, flags) =>
        filling (x_mem q) (uvq (x_private q)) (sx_fbtbc x') l ∧ 0 < sx_fbtbc x' ∧
        qcount (x_private q) = Zlen (uvq (x_private q)) ∧ vx_destroyed x' = vx_destroyed x ∧
        ∃ pre uv, uvq (x_private q) = pre ++ [uv] ∧ uv_flags uv = flags
    end.

Lemma header_done_frame x y l o :
  addr_kept x y → vx_destroyed y = vx_destroyed x → header_done y l o → header_done x l o.
Proof.
  intros Hk Hd (res & x' & -> & Hk' & Hw & Hr). exists res, x'. split; [done|].
  split; [by eapply addr_kept_trans|]. split; [done|]. destruct res as [[| |]|[q f]]; by rewrite <- ?Hd.
Qed.

Lemma header_died x y l : addr_kept x y → wire_ok (vx_sock y) → header_done x l (Ret (inl (Died []), SVC_DESTROY y)).
Proof. intros Hk Hw. eexists _, _. split; [done|]. split; [exact Hk|]. done. Qed.

Lemma new_fragment_done q v x l :
  is_u 32 v → filling (x_mem q) (uvq (x_private q)) 0 l → qcount (x_private q) = Zlen (uvq (x_private q)) →
  wire_ok (vx_sock x) → header_done x l (new_fragment q (s32 v) x).
Proof.
  intros Hv Hq Hc Hw. rewrite new_fragment_eq by done. pose proof (Z.mod_pos_bound v (2 ^ 31) ltac:(lia)) as Hn.
  destruct (Z.eqb_spec (frag_len v) 0) as [|Hne]; [by apply header_died|]. unfold frag_len in *.
  destruct (filling_new _ _ _ (v mod 2 ^ 31) (frag_flags v) Hq) as (uv & h & -> & Hq' & Hf); [lia|..].
  { unfold frag_flags. by destruct (_ <=? _). }
  { unfold frag_flags. by destruct (_ <=? _). }
  cbn [obind]. eexists _, _. split; [done|]. split; [done|]. split; [done|]. cbn.
  split_and!; [done|lia| |done|by eexists _, _]. rewrite Hc, length_app. cbn. lia.
Qed.

(** The bytes of a header, short or not. *)
Lemma header_read (env : recv_env) (again : bool) x :
  wire_ok (vx_sock x) →
  let '(r, s) := if again
                 then let '(r, wire) := recv (is_wire (vx_sock x)) BYTES_PER_XDR_UNIT (en_again env) in
                      (r, mk_is wire (is_wait (vx_sock x)))
                 else recv_wait (vx_sock x) BYTES_PER_XDR_UNIT in
  wire_ok s ∧ ∀ bs, r = inl bs → is_u 32 (be_dec (bs ++ drop (length bs) [0; 0; 0; 0])).
Proof.
  intros Hw. assert (Hb : ∀ bs, Zlen bs ≤ 4 → bytes bs → is_u 32 (be_dec (bs ++ drop (length bs) [0; 0; 0; 0]))).
  { intros bs Hl Hb. apply be_dec_range; [rewrite length_app, length_drop; cbn; lia|].
    apply bytes_app. split; [done|]. apply Forall_drop. by repeat constructor. }
  destruct again.
  - pose proof (recv_spec (is_wire (vx_sock x)) BYTES_PER_XDR_UNIT (en_again env) ltac:(done) Hw) as Hx.
    destruct (recv _ _ _) as [[bs|e] w']; [destruct Hx as (_ & ? & ? & ?)|subst w']; split; try done.
    intros ? [= <-]. by apply Hb.
  - pose proof (recv_wait_spec (vx_sock x) BYTES_PER_XDR_UNIT ltac:(done) Hw) as Hx.
    destruct (recv_wait _ _) as [[bs|e] s']; [destruct Hx as (? & ? & ?)|]; split; try done.
    intros ? [= <-]. by apply Hb.
Qed.

(** The receiver between fragments, with the record so far. *)
Definition at_header (x : vc_xprt) (q : XDRQ) (l : list Z) : Prop :=
  filling (x_mem q) (uvq (x_private q)) 0 l ∧ qcount (x_private q) = Zlen (uvq (x_private q)) ∧
  vx_pending x = Some q ∧ vx_mem x = x_mem q ∧ sx_fbtbc x = 0 ∧ wire_ok (vx_sock x).

Lemma at_header_waiting x q l : at_header x q l → header_done x l (Ret (inl Waiting, x)).
Proof.
  intros (Hq & Hc & Hp & Hm & Hb & Hw). eexists _, _. split; [done|]. split; [done|]. split; [done|].
  split; [|done]. unfold holding. by rewrite Hp, Hm, Hb.
Qed.

Lemma recv_header_from_done k env again q x l :
  at_header x q l →
  (∀ y, vx_addr_set x = false → vx_addr_set y = true → vx_destroyed y = vx_destroyed x →
        at_header y q l → header_done y l (k y)) →
  header_done x l (recv_header_from k env again q x).
Proof.
  intros (Hq & Hc & Hp & Hm & Hb & Hw) Hk. unfold recv_header_from. pose proof (header_read env again x Hw) as Hr.
  destruct (if again then _ else _) as [r s]. destruct Hr as [Hs Hv]. set (x1 := set_sock s x).
  assert (H1 : at_header x1 q l) by (by unfold at_header).
  apply (header_done_frame x x1); [done|done|]. destruct r as [[|b bs]|e]; [by apply header_died| |].
  2:{ destruct (e =? EAGAIN); [|by apply header_died]. unfold rearm. destruct (en_rearm env); [|by apply header_died].
      by eapply at_header_waiting. }
  specialize (Hv _ eq_refl). set (v := be_dec _) in *. clearbody v.
  destruct (s32 v =? PP2_SIG_UINT32); [|by apply new_fragment_done].
  destruct (header_total env (set_fbtbc 0 x1) Hs) as (ret & x2 & -> & Hf & Hsucc). cbn [obind].
  assert (H2 : at_header x2 q l).
  { unfold at_header. rewrite (hf_pending _ _ Hf), (hf_mem _ _ Hf), (hf_fbtbc _ _ Hf). split_and!; try done. apply Hf. }
  apply (header_done_frame x1 x2); [by apply hap_kept in Hf|apply Hf|].
  pose proof (hf_wire _ _ Hf) as Hw2. destruct ret; [|by apply header_died|by eapply at_header_waiting|].
  - specialize (Hsucc eq_refl). cbn in Hsucc. unfold update_and_notify_remote_address_set.
    rewrite (hf_set _ _ Hf). cbn. rewrite Hsucc. cbn [obind].
    assert (Hk2 : addr_kept x2 (set_addr_set x2)).
    { intros Ha. rewrite (hf_set _ _ Hf) in Ha. cbn in Ha. congruence. }
    destruct (en_addr_cb env); cbn [negb]; [|by apply header_died].
    apply (header_done_frame x2 (set_addr_set x2)); [done|done|]. apply Hk; [done|done|apply Hf|done].
  - change PP2_SIG_UINT32 with (s32 PP2_SIG_UINT32). apply new_fragment_done; [by vm_compute|done..].
Qed.

Lemma recv_header_done env q x l : at_header x q l → header_done x l (recv_header env q x).
Proof.
  intros Hx. unfold recv_header. apply recv_header_from_done; [done|]. intros y _ Hy _ Hy'.
  apply recv_header_from_done; [done|]. intros z Hz. congruence.
Qed.

(** ** Data *)

Lemma last_uv_snoc p pre uv : uvq p = pre ++ [uv] → last_uv p = Some (length pre, uv).
Proof.
  intros E. unfold last_uv. rewrite E, length_app. replace (pred _) with (length pre) by (cbn; lia).
  by rewrite list_lookup_middle.
Qed.

(** The queue after [n] more bytes in its last buffer, with memory [h]. *)
Definition grown (h : heap) (pre : list xdr_ioq_uv) (uv : xdr_ioq_uv) (n : Z) (q : XDRQ) : XDRQ :=
  on_ioq (set_uvq (pre ++ [with_tail n uv])) (set_mem h q).

(** The state with [q] in progress after [bs] was read. *)
Definition after_read (bs wire : list Z) (q : XDRQ) (x : vc_xprt) : vc_xprt :=
  set_fbtbc (sx_fbtbc x - Zlen bs)
    (set_pending (x_mem q) (Some q) (set_sock (mk_is wire (is_wait (vx_sock x))) x)).

Lemma recv_data_eq env q flags x l pre uv bs wire' :
  filling (x_mem q) (uvq (x_private q)) (sx_fbtbc x) l → uvq (x_private q) = pre ++ [uv] →
  recv (is_wire (vx_sock x)) (sx_fbtbc x) (en_data env) = (inl bs, wire') → bs ≠ [] →
  bytes bs → Zlen bs ≤ sx_fbtbc x →
  ∃ h, let q' := grown h pre uv (Zlen bs) q in
    filling h (uvq (x_private q')) (sx_fbtbc x - Zlen bs) (l ++ bs) ∧
    recv_data env q flags x =
      (let x' := after_read bs wire' q' x in
       if negb (sx_fbtbc x - Zlen bs =? 0) || has_flag flags UIO_FLAG_MORE then Ret (rearm env x')
       else finish_record env q' x').
Proof.
  intros Hq Eq Er Hne Hb Hle. rewrite Eq in Hq.
  destruct (filling_store _ _ _ _ _ _ Hq Hle Hb) as (h & Hst & Hq'). exists h. split; [exact Hq'|].
  unfold recv_data. rewrite (last_uv_snoc _ _ _ Eq). cbn [access obind]. rewrite Er.
  destruct bs as [|b bs]; [done|]. rewrite Hst. cbn [access obind].
  assert (E : on_ioq (set_v_at (length pre) (set_vio_tail (vio_tail (uv_v uv) + Zlen (b :: bs)) (uv_v uv))) (set_mem h q) =
              grown h pre uv (Zlen (b :: bs)) q).
  { unfold grown, on_ioq, set_v_at. cbn [x_private set_mem]. rewrite Eq, alter_middle. done. }
  rewrite E. reflexivity.
Qed.

(** How a call ends, the record in progress holding what it held or more. *)
Definition call_done (x : vc_xprt) (o : out (vc_result * vc_xprt)) : Prop :=
  ∃ res x', o = Ret (res, x') ∧ addr_kept x x' ∧ wire_ok (vx_sock x') ∧
    match res with
    | Waiting => (∃ l, holding x' l) ∧ vx_destroyed x' = vx_destroyed x
    | Died _ => vx_destroyed x' = true
    | Deliver _ => holding x' [] ∧ vx_addr_set x' = true ∧ vx_destroyed x' = vx_destroyed x
    end.

Lemma call_died x y us : addr_kept x y → wire_ok (vx_sock y) → call_done x (Ret (Died us, SVC_DESTROY y)).
Proof. intros Hk Hw. eexists _, _. split; [done|]. split; [exact Hk|]. done. Qed.

Lemma call_rearm env x y l :
  addr_kept x y → wire_ok (vx_sock y) → holding y l → vx_destroyed y = vx_destroyed x →
  call_done x (Ret (rearm env y)).
Proof.
  intros Hk Hw Hh Hd. unfold rearm. destruct (en_rearm env); [|by apply call_died].
  eexists _, _. split; [done|]. split; [done|]. split; [done|]. eauto.
Qed.

Lemma finish_done env q x l :
  filling (x_mem q) (uvq (x_private q)) 0 l → uvq (x_private q) ≠ [] →
  qcount (x_private q) = Zlen (uvq (x_private q)) → sx_fbtbc x = 0 → wire_ok (vx_sock x) →
  call_done x (finish_record env q x).
Proof.
  intros Hq Hne Hc Hb Hw. unfold finish_record.
  destruct (filling_reset _ _ _ q Hq Hne eq_refl eq_refl) as (q' & -> & Hm' & Hu' & Hc' & _). cbn [obind].
  set (x1 := set_pending (x_mem q) None x).
  assert (E : ∃ ok x2, (if negb (vx_addr_set x1) then update_and_notify_remote_address_set env x1 else Ret (true, x1)) =
    Ret (ok, x2) ∧ addr_kept x x2 ∧ vx_addr_set x2 = true ∧ vx_sock x2 = vx_sock x ∧ vx_pending x2 = None ∧
    sx_fbtbc x2 = 0 ∧ vx_destroyed x2 = vx_destroyed x).
  { destruct (vx_addr_set x1) eqn:Ea; cbn [negb]; [by eexists _, _|].
    unfold update_and_notify_remote_address_set. rewrite Ea. eexists _, _. split; [done|]. split; [|done].
    intros Ha. cbn in Ea. congruence. }
  destruct E as (ok & x2 & -> & Hk & Ha & Hs & Hp & Hb2 & Hd). cbn [obind].
  destruct (negb ok); [apply call_died; [done|by rewrite Hs]|].
  destruct (en_rearm env); cbn [negb].
  - eexists _, _. split; [done|]. split; [done|]. split; [by rewrite Hs|]. unfold holding. by rewrite Hp.
  - destruct (filling_destroy _ _ _ q' Hq) as (fs & h' & ->); [done..|congruence|]. cbn [obind].
    apply call_died; [done|]. cbn. by rewrite Hs.
Qed.

Lemma recv_data_done env q flags x l pre uv :
  filling (x_mem q) (uvq (x_private q)) (sx_fbtbc x) l → uvq (x_private q) = pre ++ [uv] →
  qcount (x_private q) = Zlen (uvq (x_private q)) → 0 < sx_fbtbc x → wire_ok (vx_sock x) →
  call_done x (recv_data env q flags x).
Proof.
  intros Hq Eq Hc Hb Hw.
  pose proof (recv_spec (is_wire (vx_sock x)) (sx_fbtbc x) (en_data env) ltac:(lia) Hw) as Hr.
  destruct (recv (is_wire (vx_sock x)) (sx_fbtbc x) (en_data env)) as [[bs|e] wire'] eqn:Er.
  - destruct Hr as (_ & Hl & Hbs & Hw'). destruct bs as [|b bs].
    { unfold recv_data. rewrite (last_uv_snoc _ _ _ Eq), Er. cbn [access obind]. by apply call_died. }
    destruct (recv_data_eq env q flags x l pre uv (b :: bs) wire' Hq Eq Er) as (h & Hq' & ->); [done..|].
    cbv zeta. set (q' := grown h pre uv _ q) in *. set (x' := after_read _ _ q' x).
    assert (Hc' : qcount (x_private q') = Zlen (uvq (x_private q'))).
    { cbn. rewrite Hc, Eq, !length_app. done. }
    destruct (_ || _) eqn:Ecase; [by apply (call_rearm env x x' (l ++ b :: bs))|].
    apply orb_false_iff in Ecase as [E0 _]. apply negb_false_iff, Z.eqb_eq in E0. rewrite E0 in Hq'.
    destruct (finish_done env q' x' (l ++ b :: bs)) as (res & x2 & -> & ?); try done.
    { cbn. by destruct pre. }
    by exists res, x2.
  - subst wire'. unfold recv_data. rewrite (last_uv_snoc _ _ _ Eq), Er. cbn [access obind].
    destruct (e =? EAGAIN); [|by apply call_died]. by apply (call_rearm env x _ l).
Qed.

(** Any call on any state reached, with any bytes on the wire. *)
Lemma svc_vc_recv_done env x l :
  holding x l → wire_ok (vx_sock x) → call_done x (svc_vc_recv pagesz maxrec env x).
Proof.
  intros Hh Hw. unfold svc_vc_recv. cbn [vx_pending set_sock].
  assert (E : ∃ q, match vx_pending x with
      | Some xioq => Ret (set_mem (vx_mem x) xioq)
      | None => xdr_ioq_create (vx_mem x) pagesz maxrec UIO_FLAG_BUFQ end = Ret q ∧
    filling (x_mem q) (uvq (x_private q)) (sx_fbtbc x) l ∧ qcount (x_private q) = Zlen (uvq (x_private q))).
  { unfold holding in Hh. destruct (vx_pending x) as [q|].
    - exists (set_mem (vx_mem x) q). done.
    - destruct Hh as [Hb ->]. eexists. split; [done|]. rewrite Hb. split; [apply filling_nil|done]. }
  destruct E as (q & E & Hq & Hc). cbn [vx_mem set_sock]. rewrite E. cbn [obind].
  set (x1 := set_pending _ _ _). cbn [sx_fbtbc x1 set_pending set_sock].
  assert (Hd1 : ∀ o, call_done x1 o → call_done x o).
  { intros o (res & x2 & -> & Hk & ? & Hr). exists res, x2. done. }
  apply Hd1. destruct (Z.eqb_spec (sx_fbtbc x) 0) as [Hb|Hb].
  - rewrite Hb in Hq. destruct (recv_header_done env q x1 l) as (res & x2 & -> & Hk & Hw2 & Hr); [done|].
    cbn [obind]. destruct res as [[|us|d]|[q2 f]]; [..|].
    + exists Waiting, x2. naive_solver.
    + exists (Died us), x2. naive_solver.
    + done.
    + destruct Hr as (Hq2 & Hb2 & Hc2 & Hd2 & pre & uv & Eq & _).
      destruct (recv_data_done env q2 f x2 l pre uv Hq2 Eq Hc2 Hb2 Hw2) as (res & x3 & -> & Hk3 & Hw3 & Hr3).
      exists res, x3. split; [done|]. split; [by eapply addr_kept_trans|]. split; [done|]. by rewrite <- Hd2.
  - pose proof (filling_left _ _ _ _ Hq) as Hl. destruct (uvq (x_private q)) as [|uv0 q0 _] eqn:Eq using rev_ind.
    { pose proof (fi_left _ _ _ _ Hq) as Hz. cbn in Hz. lia. }
    rewrite (last_uv_snoc _ _ _ Eq). cbn [access obind].
    apply (recv_data_done env q _ x1 l q0 uv0); rewrite ?Eq; try done. cbn. lia.
Qed.

(** ** Any peer *)

(** A transport between calls. *)
Definition vc_ok (x : vc_xprt) : Prop := vx_destroyed x = true ∨ (∃ l, holding x l) ∧ wire_ok (vx_sock x).

Lemma vc_run_done envs : ∀ x,
  vc_ok x → ∃ ds x', vc_run pagesz maxrec envs x = Ret (ds, x') ∧ vc_ok x' ∧ addr_kept x x' ∧
    (ds ≠ [] → vx_addr_set x' = true).
Proof.
  induction envs as [|env envs IH]; intros x Hx; cbn [vc_run]; [by exists [], x|].
  destruct (vx_destroyed x) eqn:Ed; [exists [], x; split_and!; done|].
  destruct Hx as [?|[[l Hh] Hw]]; [congruence|].
  destruct (svc_vc_recv_done env x l Hh Hw) as (res & x1 & -> & Hk & Hw1 & Hr). cbn [obind].
  assert (Hx1 : vc_ok x1).
  { unfold vc_ok. destruct res; [right; naive_solver|by left|right; naive_solver]. }
  destruct (IH x1 Hx1) as (ds & x2 & -> & Hx2 & Hk2 & Hds). cbn [obind].
  eexists _, x2. split; [done|]. split; [done|]. split; [by eapply addr_kept_trans|].
  destruct res; [done..|]. intros _. apply Hk2, Hr.
Qed.
End Receive.

(** C7. No peer can bring the receiver down: whatever bytes arrive, in whatever pieces,
    with errors and failing callbacks at any point, every call returns -- no access
    outside a buffer, no failed assertion, no read of a buffer that is not there -- and
    from the first record that is delivered on, no proxy header can change the address
    the peer is known by. *)
Theorem stream_recv_safe `{!Allocator} pagesz maxrec h remote wire envs1 envs2 :
  bytes wire →
  ∃ ds1 x1 ds2 x2,
    vc_run pagesz maxrec envs1 (vc_accepted h remote wire) = Ret (ds1, x1) ∧
    vc_run pagesz maxrec envs2 x1 = Ret (ds2, x2) ∧
    (ds1 ≠ [] → xp_remote x2 = xp_remote x1 ∧ xp_proxy x2 = xp_proxy x1).
Proof.
  intros Hb.
  destruct (vc_run_done pagesz maxrec envs1 (vc_accepted h remote wire)) as (ds1 & x1 & E1 & Hx1 & _ & Hset).
  { right. split; [by exists []|done]. }
  destruct (vc_run_done pagesz maxrec envs2 x1 Hx1) as (ds2 & x2 & E2 & _ & Hk & _).
  exists ds1, x1, ds2, x2. split; [done|]. split; [done|]. intros Hne. apply Hk, Hset, Hne.
Qed.

(** A record in one fragment, then a proxy header, then garbage. *)
Definition odd_wire : list Z :=
  [128; 0; 0; 1; 7] ++ [13; 10; 13; 10; 0; 13; 10; 81; 85; 73; 84; 10; 33; 17; 0; 12; 1; 2; 3; 4; 5; 6; 7; 8; 9; 10; 11; 12]
  ++ [255; 0].

Lemma stream_recv_safe_witness (E := mk_env [] RdAll RdAll true true) (R := mk_sa AF_INET [] []) :
  ∃ ds1 x1 ds2 x2,
    @vc_run bump 4096 65536 [E] (vc_accepted ∅ R odd_wire) = Ret (ds1, x1) ∧
    @vc_run bump 4096 65536 [E; E] x1 = Ret (ds2, x2) ∧
    (ds1 ≠ [] → xp_remote x2 = xp_remote x1 ∧ xp_proxy x2 = xp_proxy x1).
Proof. apply (@stream_recv_safe bump). repeat constructor; lia. Defined.
