(* ===== verification/SvcVcRecords.v ===== *)
(** * Records arrive as they were sent

    A peer that sends records, each cut into fragments of its choice.  However the socket
    delivers the bytes, the receiver hands over those records in order, and a stream
    positioned to decode each. *)
From stdpp Require Import base gmap list.
From Stdlib Require Import ZArith Lia.
From S2P Require Import Prelude Machine XdrHandle XdrStream XdrMem XdrIoq XdrIoqFacts XdrIoqTheorems SvcIoqZc SvcIoqZcFacts SvcIoq SvcIoqFacts SvcIoqTheorems SvcVc SvcVcFacts SvcVcTheorems.

(** ** The wire *)

Definition frag_header (last : bool) (f : list Z) : Z :=
  if last then Z.lor (Zlen f) LAST_FRAG else Zlen f.

(** The fragments of a record that are still to come. *)
Fixpoint record_wire (r : list (list Z)) : list Z :=
  match r with
  | [] => []
  | f :: r => be32 (frag_header (match r with [] => true | _ => false end) f) ++ f ++ record_wire r
  end.

Definition wire_of (recs : list (list (list Z))) : list Z := concat (record_wire <$> recs).

(** The header of a fragment that is not the last and has 0x0d0a0d0a bytes is the first word
    of a proxy header; the bytes that follow must not be the rest of its signature. *)
Definition pp2_rest : list Z := be32 PP2_SIG_UINT32_2 ++ be32 PP2_SIG_UINT32_3.
Definition frag_ok (last : bool) (f : list Z) : Prop :=
  0 < Zlen f < 2 ^ 31 ∧ (last = false → Zlen f = PP2_SIG_UINT32 → take 8 f ≠ pp2_rest) ∧ bytes f.
Fixpoint frags_ok (r : list (list Z)) : Prop :=
  match r with
  | [] => True
  | f :: r => frag_ok (match r with [] => true | _ => false end) f ∧ frags_ok r
  end.
Definition rec_ok (r : list (list Z)) : Prop := r ≠ [] ∧ frags_ok r.

Lemma frag_header_spec last f :
  0 < Zlen f < 2 ^ 31 →
  is_u 32 (frag_header last f) ∧ frag_len (frag_header last f) = Zlen f ∧
  frag_flags (frag_header last f) = (if last then UIO_FLAG_FREE else Z.lor UIO_FLAG_FREE UIO_FLAG_MORE).
Proof.
  intros Hf. assert (E : Z.lor (Zlen f) LAST_FRAG = Zlen f + 2 ^ 31).
  { rewrite Z.lor_comm. change LAST_FRAG with (Z.shiftl 1 31). rewrite lor_shiftl by lia. lia. }
  unfold frag_header, frag_len, frag_flags, is_u. destruct last; rewrite ?E; split_and!; try lia.
  - by rewrite (proj2 (Z.leb_le _ _)) by lia.
  - by rewrite (proj2 (Z.leb_gt _ _)) by lia.
Qed.

Lemma record_wire_bytes r : frags_ok r → bytes (record_wire r).
Proof.
  induction r as [|f r IH]; [constructor|]. intros [(_ & _ & Hb) Hr]. cbn. apply bytes_app.
  split; [apply be32_bytes|]. apply bytes_app. auto.
Qed.

Lemma wire_of_bytes recs : Forall rec_ok recs → bytes (wire_of recs).
Proof.
  induction 1 as [|r recs [_ Hr] _ IH]; [constructor|]. unfold wire_of. cbn. apply bytes_app.
  split; [by apply record_wire_bytes|exact IH].
Qed.

(** ** States *)

Definition block_size (uv : xdr_ioq_uv) : Z := vio_wrap (uv_v uv) - vio_base (uv_v uv).

(** [q] receives a record: the fragments [started] have a buffer, the bytes [cur] of the
    last one are missing, the fragments [r] are to come. *)
Record receiving (q : XDRQ) (started r : list (list Z)) (cur : list Z) : Prop := {
  re_fill : ∃ l, filling (x_mem q) (uvq (x_private q)) (Zlen cur) l ∧ l ++ cur = concat started;
  re_count : qcount (x_private q) = Zlen (uvq (x_private q));
  re_sizes : block_size <$> uvq (x_private q) = (λ f, Zlen f) <$> started;
  re_flags : ∀ pre uv, uvq (x_private q) = pre ++ [uv] →
    has_flag (uv_flags uv) UIO_FLAG_MORE = match r with [] => false | _ => true end;
}.

(** A transport between calls, with the rest [r] of the record and the records [recs] on
    the wire. *)
Record expecting (x : vc_xprt) (started r : list (list Z)) (cur : list Z) (recs : list (list (list Z))) : Prop := {
  ex_alive : vx_destroyed x = false;
  ex_pending : match vx_pending x with
               | None => started = [] ∧ cur = []
               | Some q => receiving (set_mem (vx_mem x) q) started r cur
               end;
  ex_cur : sx_fbtbc x = Zlen cur;
  ex_wire : is_wire (vx_sock x) = cur ++ record_wire r ++ wire_of recs;
  ex_bytes : bytes cur;
  ex_frags : frags_ok r;
  ex_recs : Forall rec_ok recs;
  ex_end : cur = [] → r = [] → started = [] ∧ recs = [];
}.

(** What is delivered: the buffers hold the record, and where its fragments but the last
    are whole units, the stream stands at its start, ready to decode. *)
Definition carries (d : XDRQ) (r : list (list Z)) : Prop :=
  segs (x_mem d) (uvq (x_private d)) = Some (concat r) ∧
  (Forall (λ f, Zlen f mod 4 = 0) (removelast r) → Zlen r < 2 ^ 31 →
   ioq_in (set_op XDR_DECODE d) 0 (concat r)).

(** The socket as documented: reads that wait are complete, reads of data get something;
    both may find that there is nothing for now. *)
Definition patient (env : recv_env) : Prop :=
  en_rearm env = true ∧ en_addr_cb env = true ∧
  match en_wait env with
  | [] => True
  | r :: rs => r = RdErr EAGAIN ∨ r = RdAll ∧ default RdAll (head rs) = RdAll
  end ∧
  match en_data env with RdAll => True | RdShort n => 0 < n | RdErr e => e = EAGAIN end.

(** There may be nothing for the call. *)
Definition is_again (r : rd) : bool := match r with RdErr e => e =? EAGAIN | _ => false end.
Definition blocked (env : recv_env) : bool := is_again (default RdAll (head (en_wait env))) || is_again (en_data env).

Lemma sizes_units q (r : list (list Z)) :
  Forall shape q → Forall full q → block_size <$> q = (λ f, Zlen f) <$> r →
  Forall (λ f, Zlen f mod 4 = 0) (removelast r) → unit_segs q.
Proof.
  intros Hs. revert r. induction Hs as [|uv q [Hh Ht Hz _] _ IH]; intros r Hf Hsz Hu; [done|].
  apply Forall_cons in Hf as [Hf1 Hf2]. destruct r as [|f r]; [done|]. injection Hsz as E1 E2. red in Hf1.
  unfold block_size in E1. cbn [unit_segs]. split; [lia|]. destruct r as [|f' r].
  { destruct q; [|done]. split; [by left|done]. }
  cbn [removelast] in Hu. apply Forall_cons in Hu as [Hu1 Hu2]. split; [right|by apply (IH (f' :: r))].
  rewrite Hh, Hf1. by rewrite E1.
Qed.

Lemma receiving_reset q started :
  receiving q started [] [] → started ≠ [] →
  ∃ d, xdr_ioq_reset q 0 = Ret d ∧ x_mem d = x_mem q ∧ carries d started.
Proof.
  intros [(l & Hq & Hl) Hc Hsz _] Hne. rewrite app_nil_r in Hl. subst l.
  assert (Hq0 : uvq (x_private q) ≠ []).
  { intros E. rewrite E in Hsz. by destruct started. }
  destruct (filling_reset _ _ _ q Hq Hq0 eq_refl eq_refl) as (d & Ed & Hm & Hu & _ & Hin).
  exists d. split; [done|]. split; [done|]. split; [rewrite Hm, Hu; apply Hq|].
  intros Hunits Hn. apply Hin; [done| |].
  - apply (f_equal length) in Hsz. rewrite !length_fmap in Hsz. lia.
  - eapply sizes_units; [apply Hq|by eapply filling_full|done|done].
Qed.

(** ** Steps *)

Lemma set_mem_id (q : XDRQ) : set_mem (x_mem q) q = q.
Proof. by destruct q. Qed.

(** Between records. *)
Definition between (x : vc_xprt) (recs : list (list (list Z))) : Prop :=
  match recs with [] => expecting x [] [] [] [] | r :: recs => r ≠ [] ∧ expecting x [] r [] recs end.

Lemma between_intro x recs :
  vx_destroyed x = false → vx_pending x = None → sx_fbtbc x = 0 → is_wire (vx_sock x) = wire_of recs →
  Forall rec_ok recs → between x recs.
Proof.
  intros Hd Hp Hb Hw Hr. destruct recs as [|r recs]; [|apply Forall_cons in Hr as [[Hne Hr1] Hr2]; split; [done|]];
    constructor; rewrite ?Hp; try done; try constructor.
Qed.

(** The outcome of a call: the record goes on, or is handed over. *)
Definition stepped (x' : vc_xprt) (res : vc_result) (whole : list (list Z)) (recs : list (list (list Z))) : Prop :=
  (res = Waiting ∧ ∃ started r cur, expecting x' started r cur recs ∧ started ++ r = whole) ∨
  (∃ d, res = Deliver d ∧ carries d whole ∧ between x' recs).

Lemma receiving_grown h pre uv q started r cur bs l :
  receiving q started r cur → uvq (x_private q) = pre ++ [uv] →
  filling h (uvq (x_private (grown h pre uv (Zlen bs) q))) (Zlen cur - Zlen bs) l →
  (∃ l0, filling (x_mem q) (uvq (x_private q)) (Zlen cur) l0 ∧ l = l0 ++ bs ∧ l0 ++ cur = concat started) →
  Zlen bs ≤ Zlen cur → bs = take (length bs) cur →
  receiving (grown h pre uv (Zlen bs) q) started r (drop (length bs) cur).
Proof.
  intros [_ Hc Hsz Hfl] Eq Hf (l0 & _ & -> & Hl0) Hle Hbs. constructor.
  - exists (l0 ++ bs). rewrite length_drop. replace (Z.of_nat (length cur - length bs)) with (Zlen cur - Zlen bs) by lia.
    split; [exact Hf|]. rewrite <- app_assoc. rewrite Hbs at 1. by rewrite take_drop.
  - cbn. rewrite Hc, Eq, !length_app. done.
  - rewrite <- Hsz, Eq. cbn. by rewrite !fmap_app.
  - cbn. intros pre' uv' E. apply app_inj_2 in E as [_ E]; [|done]. injection E as <-. by apply (Hfl pre uv).
Qed.

(** The read of data gets a beginning of what is missing. *)
Lemma patient_read env x cur tl :
  patient env → cur ≠ [] → sx_fbtbc x = Zlen cur → is_wire (vx_sock x) = cur ++ tl →
  (en_data env = RdErr EAGAIN) ∨
  ∃ n, (0 < n ≤ length cur)%nat ∧
    recv (is_wire (vx_sock x)) (sx_fbtbc x) (en_data env) = (inl (take n cur), drop n cur ++ tl).
Proof.
  intros (_ & _ & _ & Hd) Hne Hb Hw. assert (0 < length cur)%nat by (by destruct cur; [|cbn; lia]).
  rewrite Hw, Hb. destruct (en_data env) as [|n|e]; [right|right|left; congruence]; cbn.
  - exists (length cur). split; [lia|]. rewrite Nat2Z.id. by rewrite take_app_length, drop_app_length, firstn_all, drop_all.
  - exists (Z.to_nat (n `min` Zlen cur)). split; [lia|]. by rewrite take_app_le, drop_app_le by lia.
Qed.

Lemma finish_stepped env q x started recs :
  patient env → receiving q started [] [] → started ≠ [] → vx_destroyed x = false → sx_fbtbc x = 0 →
  is_wire (vx_sock x) = wire_of recs → Forall rec_ok recs →
  ∃ res x', finish_record env q x = Ret (res, x') ∧ stepped x' res started recs ∧ vx_sock x' = vx_sock x.
Proof.
  intros (Hre & Hcb & _) Hq Hne Hd Hb Hw Hr. unfold finish_record.
  destruct (receiving_reset q started Hq Hne) as (d & -> & Hm & Hcar). cbn [obind].
  set (x1 := set_pending (x_mem q) None x).
  assert (E : ∃ x2, (if negb (vx_addr_set x1) then update_and_notify_remote_address_set env x1 else Ret (true, x1)) =
    Ret (true, x2) ∧ vx_sock x2 = vx_sock x ∧ vx_pending x2 = None ∧ sx_fbtbc x2 = 0 ∧ vx_destroyed x2 = false).
  { destruct (vx_addr_set x1) eqn:Ea; cbn [negb]; [by exists x1|].
    unfold update_and_notify_remote_address_set. rewrite Ea, Hcb. by eexists. }
  destruct E as (x2 & -> & Hs & Hp & Hb2 & Hd2). cbn [obind negb]. rewrite Hre. cbn [negb].
  eexists _, _. split; [done|]. split; [|done]. right. exists d. split; [done|]. split; [done|].
  apply between_intro; [done|done|done|by rewrite Hs|done].
Qed.

Lemma data_stepped env q flags x started r cur recs pre uv :
  patient env → receiving q started r cur → cur ≠ [] → uvq (x_private q) = pre ++ [uv] → uv_flags uv = flags →
  vx_destroyed x = false → sx_fbtbc x = Zlen cur →
  is_wire (vx_sock x) = cur ++ record_wire r ++ wire_of recs →
  bytes cur → frags_ok r → Forall rec_ok recs →
  ∃ res x', recv_data env q flags x = Ret (res, x') ∧ stepped x' res (started ++ r) recs ∧
    (length (is_wire (vx_sock x')) + (if blocked env then 0 else 1) ≤ length (is_wire (vx_sock x)))%nat.
Proof.
  intros Hpat Hq Hne Eq Hfl Hd Hb Hw Hbc Hf Hr. pose proof Hq as [(l & Hfill & Hl) _ _ Hmore].
  destruct (patient_read env x cur _ Hpat Hne Hb Hw) as [Hag|(n & Hn & Er)].
  { unfold recv_data. rewrite (last_uv_snoc _ _ _ Eq), Hag. cbn. unfold rearm. rewrite (proj1 Hpat).
    eexists _, _. split; [done|]. split; [|unfold blocked; rewrite Hag, orb_true_r, Hw; cbn; lia].
    left. split; [done|]. exists started, r, cur.
    split; [|done]. constructor; cbn; try done. by rewrite set_mem_id. }
  assert (Hln : length (take n cur) = n) by (rewrite length_take; lia).
  rewrite <- Hb in Hfill.
  destruct (recv_data_eq env q flags x l pre uv (take n cur) _ Hfill Eq Er) as (h & Hq' & ->).
  { intros E. rewrite E in Hln. cbn in Hln. lia. }
  { by apply Forall_take. }
  { rewrite Hln. lia. }
  cbv zeta. set (q' := grown h pre uv _ q) in *. set (x' := after_read _ _ q' x).
  assert (Hrec : receiving q' started r (drop n cur)).
  { replace (drop n cur) with (drop (length (take n cur)) cur) by (by rewrite Hln). apply (receiving_grown h pre uv q started r cur (take n cur) (l ++ take n cur));
      [done|done|by rewrite <- Hb|exists l; by rewrite <- Hb|lia|by rewrite Hln]. }
  assert (Hshort : ∀ y, vx_sock y = vx_sock x' → (length (is_wire (vx_sock y)) + (if blocked env then 0 else 1) ≤ length (is_wire (vx_sock x)))%nat).
  { intros y ->. rewrite Hw. cbn. rewrite !length_app, length_drop. destruct (blocked env); lia. }
  assert (Hcur : sx_fbtbc x' = Zlen (drop n cur)) by (cbn; rewrite Hln, Hb, length_drop; lia).
  destruct (_ || _) eqn:Ecase.
  - unfold rearm. rewrite (proj1 Hpat). eexists _, _. split; [done|]. split; [|by apply Hshort].
    left. split; [done|]. exists started, r, (drop n cur). split; [|done]. constructor; try done.
    + by apply Forall_drop.
    + intros E0 ->. exfalso. rewrite <- Hfl, (Hmore _ _ Eq), orb_false_r in Ecase.
      apply negb_true_iff, Z.eqb_neq in Ecase. cbn in Hcur. rewrite E0 in Hcur. by rewrite Hcur in Ecase.
  - apply orb_false_iff in Ecase as [E0 E1]. apply negb_false_iff, Z.eqb_eq in E0.
    assert (r = []) as -> by (rewrite <- Hfl, (Hmore _ _ Eq) in E1; by destruct r).
    assert (E0' : drop n cur = []).
    { apply length_zero_iff_nil. rewrite length_drop. rewrite Hln, Hb in E0. lia. }
    rewrite E0' in Hrec. destruct (finish_stepped env q' x' started recs Hpat Hrec) as (res & x2 & -> & Hst & Hs2).
    + intros ->. pose proof (re_sizes _ _ _ _ Hrec) as Hsz. cbn in Hsz. rewrite fmap_app in Hsz.
      by destruct (block_size <$> pre).
    + done.
    + by rewrite Hcur, E0'.
    + cbn. by rewrite E0'.
    + done.
    + exists res, x2. rewrite app_nil_r. split; [done|]. split; [done|]. by apply Hshort.
Qed.

Section Receive.
Context `{!Allocator} (pagesz maxrec : Z).

(** A buffer for the next fragment. *)
Lemma receiving_new q started f r (x : vc_xprt) :
  receiving q started (f :: r) [] → frag_ok (match r with [] => true | _ => false end) f →
  let hv := frag_header (match r with [] => true | _ => false end) f in
  ∃ q' pre uv, new_fragment q (s32 hv) x = Ret (inr (q', frag_flags hv), set_fbtbc (Zlen f) x) ∧
    receiving q' (started ++ [f]) r f ∧ uvq (x_private q') = pre ++ [uv] ∧ uv_flags uv = frag_flags hv.
Proof.
  intros [(l & Hq & Hl) Hc Hsz _] (Hf & _ & _) hv. rewrite app_nil_r in Hl. subst l.
  destruct (frag_header_spec (match r with [] => true | _ => false end) f Hf) as (Hu & Hlen & Hfl). fold hv in Hu, Hlen, Hfl.
  rewrite new_fragment_eq by done. rewrite Hlen, (proj2 (Z.eqb_neq _ _)) by lia.
  destruct (filling_new _ _ _ (Zlen f) (frag_flags hv) Hq) as (uv & h & E & Hq' & Huf); [lia|..].
  { rewrite Hfl. by destruct r. }
  { rewrite Hfl. by destruct r. }
  rewrite E. cbn [obind]. eexists _, (uvq (x_private q)), uv. split; [done|]. split; [|done].
  rewrite uv_create_eq in E by lia. injection E as Euv _. constructor; cbn.
  - exists (concat started). split; [done|]. rewrite concat_app. cbn. by rewrite app_nil_r.
  - rewrite Hc, length_app. cbn. lia.
  - rewrite !fmap_app, Hsz. cbn. rewrite <- Euv. unfold block_size. cbn. do 2 f_equal. lia.
  - intros pre' uv' E'. apply app_inj_2 in E' as [_ E']; [|done]. injection E' as <-. rewrite Huf, Hfl. by destruct r.
Qed.

Lemma header_word hv tl :
  is_u 32 hv → take (Z.to_nat BYTES_PER_XDR_UNIT) (be32 hv ++ tl) = be32 hv ∧
  drop (Z.to_nat BYTES_PER_XDR_UNIT) (be32 hv ++ tl) = tl ∧
  be_dec (be32 hv ++ drop (length (be32 hv)) [0; 0; 0; 0]) = hv.
Proof.
  intros Hv. change (Z.to_nat BYTES_PER_XDR_UNIT) with (length (be32 hv)).
  rewrite take_app_length, drop_app_length. split_and!; [done|done|].
  rewrite be32_length. cbn [drop]. rewrite app_nil_r, be_dec_be32. by apply wrapu_id.
Qed.

Lemma maybe_proxy last f : frag_ok last f → s32 (frag_header last f) = PP2_SIG_UINT32 →
  Zlen f = PP2_SIG_UINT32 ∧ take 8 f ≠ pp2_rest.
Proof.
  intros (Hf & Hne & _). unfold frag_header. destruct last.
  - assert (E : Z.lor (Zlen f) LAST_FRAG = Zlen f + 2 ^ 31).
    { rewrite Z.lor_comm. change LAST_FRAG with (Z.shiftl 1 31). rewrite lor_shiftl by lia. lia. }
    rewrite E. unfold wraps. rewrite Z.mod_small by lia. rewrite (proj2 (Z.ltb_ge _ _)) by lia.
    unfold PP2_SIG_UINT32. lia.
  - rewrite wraps_id by (done || (red; lia)). auto.
Qed.

(** What follows the first word of a proxy header is looked at and left where it is. *)
Lemma peek_not_proxy env x f tl :
  default RdAll (head (is_wait (vx_sock x))) = RdAll → is_wire (vx_sock x) = f ++ tl → 8 ≤ Zlen f → bytes f → take 8 f ≠ pp2_rest →
  handle_haproxy_header env x =
    Ret (HAPROXY_RET_CODE__NOT_HAPROXY, set_sock (mk_is (f ++ tl) (tail (is_wait (vx_sock x)))) x).
Proof.
  intros Ha Hw Hl Hb Hne. unfold handle_haproxy_header, recv_peek. rewrite Ha, Hw. cbn [recv]. change (Z.to_nat 8) with 8%nat.
  rewrite take_app_le by lia. assert (Hl8 : length (take 8 f) = 8%nat) by (rewrite length_take; lia).
  unfold exactly. rewrite (proj2 (Z.eqb_eq _ _)) by lia.
  destruct (Z.eqb_spec (be_dec (take 4 (take 8 f))) PP2_SIG_UINT32_2) as [E1|]; [|done].
  destruct (Z.eqb_spec (be_dec (drop 4 (take 8 f))) PP2_SIG_UINT32_3) as [E2|]; [|done].
  exfalso. apply Hne. unfold pp2_rest. rewrite <- E1, <- E2, !be32_be_dec, take_drop; try done.
  all: rewrite ?length_drop, ?length_take; try lia. all: by repeat (apply Forall_drop || apply Forall_take).
Qed.

(** The receiver reads the header of the fragment [f]. *)
Lemma header_stepped env q x started f r recs :
  patient env → receiving q started (f :: r) [] → frag_ok (match r with [] => true | _ => false end) f → is_wait (vx_sock x) = en_wait env →
  is_wire (vx_sock x) = record_wire (f :: r) ++ wire_of recs →
  (head (en_wait env) = Some (RdErr EAGAIN) ∧
   ∃ x1, recv_header env q x = Ret (inl Waiting, x1) ∧ x1 = set_sock (vx_sock x1) x ∧
     is_wire (vx_sock x1) = is_wire (vx_sock x)) ∨
  ∃ q' flags x1 pre uv, recv_header env q x = Ret (inr (q', flags), set_fbtbc (Zlen f) x1) ∧
    receiving q' (started ++ [f]) r f ∧ uvq (x_private q') = pre ++ [uv] ∧ uv_flags uv = flags ∧
    x1 = set_sock (vx_sock x1) x ∧ is_wire (vx_sock x1) = f ++ record_wire r ++ wire_of recs.
Proof.
  intros (Hre & _ & Hwait & _) Hq Hf Hew Hw. cbn [record_wire] in Hw. rewrite <- !app_assoc in Hw.
  set (hv := frag_header _ f) in Hw. destruct (frag_header_spec (match r with [] => true | _ => false end) f (proj1 Hf)) as (Hu & _).
  fold hv in Hu. destruct (header_word hv (f ++ record_wire r ++ wire_of recs) Hu) as (Et & Ed & Ev).
  assert (Hcase : default RdAll (head (en_wait env)) = RdAll ∧ default RdAll (head (tail (en_wait env))) = RdAll ∨
    head (en_wait env) = Some (RdErr EAGAIN) ∧ default RdAll (head (en_wait env)) = RdErr EAGAIN).
  { destruct (en_wait env) as [|w ws]; [by left|]. destruct Hwait as [-> | [-> ?]]; [by right|by left]. }
  destruct Hcase as [[Hc Hc2]|[Hh Hc]].
  - right. unfold recv_header. unfold recv_header_from at 1. unfold recv_wait. rewrite Hew, Hc.
    cbn [recv]. rewrite Hw, Et, Ed. destruct (be32 hv) as [|b bs] eqn:Eb.
    { apply (f_equal length) in Eb. by rewrite be32_length in Eb. }
    rewrite Ev. destruct (Z.eqb_spec (s32 hv) PP2_SIG_UINT32) as [Hs|_].
    + destruct (maybe_proxy _ f Hf Hs) as [Hl8 Hne]. cbv zeta.
      rewrite (peek_not_proxy env _ f (record_wire r ++ wire_of recs)); [|exact Hc2|done|rewrite Hl8; done|apply Hf|done].
      cbn [obind]. rewrite <- Hs. set (x2 := set_sock _ (set_fbtbc 0 _)).
      destruct (receiving_new q started f r x2 Hq Hf) as (q' & pre & uv & E & Hq' & Eq & Hfl). fold hv in E, Hfl.
      eexists q', (frag_flags hv), (set_sock (vx_sock x2) x), pre, uv. rewrite E. split; [done|]. done.
    + set (x1 := set_sock _ x). destruct (receiving_new q started f r x1 Hq Hf) as (q' & pre & uv & E & Hq' & Eq & Hfl).
      exists q', (frag_flags hv), x1, pre, uv. split; [exact E|]. done.
  - left. split; [done|]. unfold recv_header. unfold recv_header_from at 1. unfold recv_wait. rewrite Hew, Hc.
    cbn [recv]. change (EAGAIN =? EAGAIN) with true. unfold rearm. rewrite Hre. by eexists.
Qed.

(** One call of the receiver. *)
Lemma recv_stepped env x started r cur recs :
  patient env → expecting x started r cur recs → cur ≠ [] ∨ r ≠ [] →
  ∃ res x', svc_vc_recv pagesz maxrec env x = Ret (res, x') ∧ stepped x' res (started ++ r) recs ∧
    (length (is_wire (vx_sock x')) + (if blocked env then 0 else 1) ≤ length (is_wire (vx_sock x)))%nat.
Proof.
  intros Hpat [Hd Hp Hb Hw Hbc Hf Hr Hend] Hmore. unfold svc_vc_recv. cbn [vx_pending set_sock vx_mem].
  assert (E : ∃ q, match vx_pending x with
      | Some xioq => Ret (set_mem (vx_mem x) xioq)
      | None => xdr_ioq_create (vx_mem x) pagesz maxrec UIO_FLAG_BUFQ end = Ret q ∧ receiving q started r cur).
  { destruct (vx_pending x) as [q|]; [eauto|]. destruct Hp as [-> ->]. eexists. split; [done|].
    constructor; cbn; [exists []; split; [apply filling_nil|done]|done|done|]. intros pre uv Ebad. by destruct pre. }
  destruct E as (q & E & Hq). rewrite E. cbn [obind]. set (x1 := set_pending _ _ _). cbn [sx_fbtbc x1 set_pending set_sock].
  destruct cur as [|b cur].
  - destruct r as [|f r]; [naive_solver|]. pose proof Hf as [Hf1 Hf2]. rewrite Hb. cbn [length Z.of_nat Z.eqb].
    destruct (header_stepped env q x1 started f r recs Hpat Hq Hf1 eq_refl Hw)
      as [(Hbl & x2 & -> & Ex2 & Hw2)|(q' & flags & x2 & pre & uv & -> & Hq' & Eq & Hfl & Ex2 & Hw2)]; cbn [obind].
    + eexists _, _. split; [done|]. split; [|unfold blocked; rewrite Hbl; cbn; rewrite Hw2; cbn; lia].
      left. split; [done|]. exists started, (f :: r), [].
      split; [|done]. rewrite Ex2. constructor; cbn; try done; [by rewrite set_mem_id|by rewrite Hw2].
    + destruct (data_stepped env q' flags (set_fbtbc (Zlen f) x2) (started ++ [f]) r f recs pre uv)
        as (res & x3 & -> & Hst & Hlen); try done.
      * intros ->. destruct Hf1 as [? _]. cbn in *. lia.
      * by rewrite Ex2.
      * apply Hf1.
      * exists res, x3. rewrite <- app_assoc in Hst. split; [done|]. split; [done|].
        cbn in Hlen. rewrite Hw2 in Hlen. rewrite Hw. cbn. rewrite !length_app in *. lia.
  - assert (Hne : b :: cur ≠ []) by done. rewrite Hb, (proj2 (Z.eqb_neq _ _)) by (cbn; lia).
    destruct (uvq (x_private q)) as [|uv0 q0 _] eqn:Eq using rev_ind.
    { destruct (re_fill _ _ _ _ Hq) as (l & Hfl & _). rewrite Eq in Hfl. pose proof (fi_left _ _ _ _ Hfl) as Hz.
      cbn in Hz. lia. }
    rewrite (last_uv_snoc _ _ _ Eq). cbn [access obind].
    destruct (data_stepped env q (uv_flags uv0) x1 started r (b :: cur) recs q0 uv0) as (res & x3 & -> & Hst & Hlen); try done.
    by exists res, x3.
Qed.

(** ** Runs *)

(** At the end of the stream. *)
Lemma recv_at_end env x :
  patient env → expecting x [] [] [] [] →
  ∃ res x', svc_vc_recv pagesz maxrec env x = Ret (res, x') ∧
    (res = Waiting ∧ expecting x' [] [] [] [] ∨ (∃ us, res = Died us) ∧ vx_destroyed x' = true).
Proof.
  intros (Hre & _ & Hwait & _) [Hd Hp Hb Hw _ _ _ _]. unfold svc_vc_recv. cbn [vx_pending set_sock vx_mem].
  assert (E : ∃ q, match vx_pending x with
      | Some xioq => Ret (set_mem (vx_mem x) xioq)
      | None => xdr_ioq_create (vx_mem x) pagesz maxrec UIO_FLAG_BUFQ end = Ret q ∧ receiving q [] [] []).
  { destruct (vx_pending x) as [q|]; [eauto|]. eexists. split; [done|].
    constructor; cbn; [exists []; split; [apply filling_nil|done]|done|done|]. intros pre uv Ebad. by destruct pre. }
  destruct E as (q & E & Hq). rewrite E. cbn [obind sx_fbtbc set_pending set_sock]. rewrite Hb. cbn [length Z.of_nat Z.eqb].
  unfold recv_header. unfold recv_header_from at 1. unfold recv_wait. cbn [vx_sock set_pending set_sock is_wire is_wait].
  rewrite Hw. destruct (en_wait env) as [|w ws]; [|destruct Hwait as [-> | [-> _]]]; cbn -[rearm].
  - eexists _, _. split; [done|]. right. eauto.
  - unfold rearm. rewrite Hre. cbn. eexists _, _. split; [done|]. left. split; [done|].
    constructor; cbn; try done; [by rewrite set_mem_id|constructor..].
  - eexists _, _. split; [done|]. right. eauto.
Qed.

Lemma vc_run_dead envs x : vx_destroyed x = true → vc_run pagesz maxrec envs x = Ret ([], x).
Proof. intros Hd. destruct envs; cbn; [done|]. by rewrite Hd. Qed.

(** The records to be delivered. *)
Definition to_come (started r : list (list Z)) (recs : list (list (list Z))) : list (list (list Z)) :=
  match started ++ r with [] => [] | whole => whole :: recs end.

Lemma run_end_of_wire x started r cur recs :
  expecting x started r cur recs → is_wire (vx_sock x) = [] → to_come started r recs = [].
Proof.
  intros [] Hw. rewrite ex_wire0 in Hw. apply app_nil in Hw as [-> Hw]. apply app_nil in Hw as [Hw _].
  destruct r as [|f r]; [by destruct ex_end0 as [-> ->]|]. cbn in Hw. apply (f_equal length) in Hw.
  rewrite !length_app, be32_length in Hw. cbn in Hw. lia.
Qed.

Lemma between_to_come x recs :
  between x recs → ∃ r recs', expecting x [] r [] recs' ∧ to_come [] r recs' = recs.
Proof.
  unfold between. destruct recs as [|r recs]; intros H1; [by exists [], []|]. destruct H1 as [Hne H1].
  exists r, recs. split; [done|]. unfold to_come. cbn. by destruct r.
Qed.

Lemma run_records envs : ∀ x started r cur recs,
  Forall patient envs → expecting x started r cur recs →
  ∃ ds x' k, vc_run pagesz maxrec envs x = Ret (ds, x') ∧
    Forall2 carries ds (take k (to_come started r recs)) ∧
    ((length (is_wire (vx_sock x)) ≤ length (filter (λ e, blocked e = false) envs))%nat →
     (length (to_come started r recs) ≤ k)%nat).
Proof.
  induction envs as [|env envs IH]; intros x started r cur recs Hpat Hx; cbn [vc_run].
  { exists [], x, 0%nat. split_and!; [done|constructor|]. cbn. intros Hl.
    rewrite (run_end_of_wire _ _ _ _ _ Hx); [done|]. destruct (is_wire (vx_sock x)); [done|cbn in Hl; lia]. }
  apply Forall_cons in Hpat as [Hp1 Hp2]. rewrite (ex_alive _ _ _ _ _ Hx).
  destruct (decide (cur = [] ∧ r = [])) as [[-> ->]|Hmore].
  { destruct (ex_end _ _ _ _ _ Hx eq_refl eq_refl) as [-> ->].
    destruct (recv_at_end env x Hp1 Hx) as (res & x1 & -> & [[-> Hx1]|[[us ->] Hd]]); cbn [obind].
    - destruct (IH x1 [] [] [] [] Hp2 Hx1) as (ds & x2 & k & -> & Hds & _). cbn [obind].
      exists ds, x2, k. split_and!; [done|done|cbn; lia].
    - rewrite vc_run_dead by done. cbn [obind]. exists [], x1, 0%nat. split_and!; [done|constructor|cbn; lia]. }
  assert (Hmore' : cur ≠ [] ∨ r ≠ []) by (destruct cur, r; auto).
  destruct (recv_stepped env x started r cur recs Hp1 Hx Hmore') as (res & x1 & -> & Hst & Hlen). cbn [obind].
  assert (Hcount : (length (is_wire (vx_sock x)) ≤ length (filter (λ e, blocked e = false) (env :: envs)))%nat →
    (length (is_wire (vx_sock x1)) ≤ length (filter (λ e, blocked e = false) envs))%nat).
  { intros Hl. rewrite filter_cons in Hl. destruct (blocked env);
      [rewrite decide_False in Hl by done|rewrite decide_True in Hl by done; cbn in Hl]; lia. }
  assert (Hall : ∀ l, started ++ r = l → to_come started r recs = l :: recs).
  { intros l <-. unfold to_come. destruct (started ++ r) eqn:E; [|done]. apply app_nil in E as [-> ->].
    exfalso. destruct Hmore' as [Hc|]; [|done]. apply Hc.
    destruct (vx_pending x) eqn:Ep; pose proof (ex_pending _ _ _ _ _ Hx) as Hpe; rewrite Ep in Hpe; [|by destruct Hpe].
    destruct (re_fill _ _ _ _ Hpe) as (l0 & _ & El). by apply app_nil in El as [_ ->]. }
  rewrite (Hall _ eq_refl). destruct Hst as [(-> & started' & r' & cur' & Hx1 & Ewhole)|(d & -> & Hcar & Hb)].
  - destruct (IH x1 started' r' cur' recs Hp2 Hx1) as (ds & x2 & k & -> & Hds & Hk). cbn [obind].
    assert (E : to_come started' r' recs = (started ++ r) :: recs).
    { unfold to_come. rewrite Ewhole. specialize (Hall _ eq_refl). unfold to_come in Hall. by destruct (started ++ r). }
    rewrite E in Hds, Hk. exists ds, x2, k. split_and!; [done|done|]. intros Hl. by apply Hk, Hcount.
  - destruct (between_to_come _ _ Hb) as (r' & recs' & Hx1 & <-).
    destruct (IH x1 [] r' [] recs' Hp2 Hx1) as (ds & x2 & k & -> & Hds & Hk). cbn [obind].
    exists (d :: ds), x2, (S k). split_and!; [done|by constructor|]. intros Hl. cbn. apply le_n_S, Hk, Hcount, Hl.
Qed.

Lemma accepted_records h remote recs envs :
  Forall rec_ok recs → Forall patient envs →
  ∃ ds x' k, vc_run pagesz maxrec envs (vc_accepted h remote (wire_of recs)) = Ret (ds, x') ∧
    Forall2 carries ds (take k recs) ∧
    ((length (wire_of recs) ≤ length (filter (λ e, blocked e = false) envs))%nat → Forall2 carries ds recs).
Proof.
  intros Hr Hp. destruct (between_to_come (vc_accepted h remote (wire_of recs)) recs) as (r & recs' & Hx & E).
  { by apply between_intro. }
  destruct (run_records envs _ _ _ _ _ Hp Hx) as (ds & x' & k & -> & Hds & Hk). rewrite E in Hds, Hk.
  exists ds, x', k. split; [done|]. split; [done|]. intros Hl. by rewrite take_ge in Hds by (by apply Hk).
Qed.
End Receive.


(** ** Examples *)

Definition two_records : list (list (list Z)) := [[[1; 2; 3; 4]; [5; 6; 7]]; [[8]]].
Definition eager : recv_env := mk_env [] RdAll (RdShort 2) true true.
Definition sleepy : recv_env := mk_env [RdErr EAGAIN] RdAll RdAll true true.

