(* ===== verification/StreamTheorems.v ===== *)
(** * From one end of a stream to the other

    The writer of one transport composed with the receiver of another, for values of any
    type with a wire format; and what the receiver makes of a fragment header that
    arrives in parts. *)
From stdpp Require Import base gmap list.
From Stdlib Require Import ZArith Lia.
From S2P Require Import Prelude Machine XdrHandle XdrStream XdrWire XdrMem XdrIoq XdrIoqFacts XdrIoqTheorems XdrInline XdrCodecs SvcIoqZc SvcIoq SvcIoqFacts SvcIoqTheorems SvcVc SvcVcFacts SvcVcTheorems SvcVcRecords.

(** ** Values *)

Section Values.
Context `{!Allocator} {T : Type} (f : xdrproc xdr_ioq T) (S : spec T).

(** The queue [x] holds the value [v], encoded on a new stream. *)
Inductive encoded : out_xioq → T → Prop :=
| encoded_intro id v h min max x x' :
    wf S v → 4 ≤ min → xdr_ioq_create h min max UIO_FLAG_FREE = Ret x → f x v = Ret (true, v, x') →
    0 < Zlen (wire S v) ≤ LAST_FRAG_XDR_UNITS → encoded (fresh_reply id x') v.

(** The events queue the values [vs]. *)
Definition sends (evs : list out_event) (vs : list T) : Prop := Forall2 encoded (concat (ev_replies <$> evs)) vs.

Context {C : Codec f S}.

Lemma encoded_reply x v :
  encoded x v → (sending x (wire S v) ∧ unsent x (wire S v) = frame (wire S v)) ∧
    wf S v ∧ 0 < Zlen (wire S v) ≤ LAST_FRAG_XDR_UNITS.
Proof.
  intros [id v' h min max y y' Hv Hmin Ex Ef Hw]. split; [|done].
  destruct (ioq_create_out h min max UIO_FLAG_FREE) as (z & Ez & Hz); [done..|].
  rewrite Ex in Ez. injection Ez as <-.
  assert (He : encodes f v' (wire S v')) by (by apply cd_encodes).
  destruct (proj1 (He y [] None Hz) I) as (y2 & Ef' & Hy'). rewrite Ef in Ef'. injection Ef' as <-.
  by apply (fresh_sending id y' (wire S v') None).
Qed.

Lemma sends_replies evs vs : sends evs vs → replies evs (wire S <$> vs).
Proof.
  intros Hs. apply Forall2_fmap_r. eapply Forall2_impl; [exact Hs|]. intros x v Hx. by apply encoded_reply.
Qed.

Lemma sends_wf evs vs : sends evs vs → Forall (λ v, wf S v ∧ 0 < Zlen (wire S v) ≤ LAST_FRAG_XDR_UNITS) vs.
Proof.
  intros Hs. eapply Forall2_Forall_r; [exact Hs|]. apply Forall_true. intros x v Hx. by apply (encoded_reply x).
Qed.
End Values.

(** A reply in one fragment is a record of one fragment. *)
Lemma frames_wire ws : concat (frame <$> ws) = wire_of ((λ w, [w]) <$> ws).
Proof.
  induction ws as [|w ws IH]; [done|]. unfold wire_of in *. cbn. rewrite IH. unfold frame, frag_header.
  by rewrite app_nil_r.
Qed.

Lemma frames_ok ws :
  Forall (λ w, bytes w ∧ 0 < Zlen w ≤ LAST_FRAG_XDR_UNITS) ws → Forall rec_ok ((λ w, [w]) <$> ws).
Proof.
  pose proof LAST_FRAG_XDR_UNITS_eq. intros Hw. apply Forall_fmap. eapply Forall_impl; [exact Hw|].
  intros w [Hb Hl]. split; [done|]. split; [|done]. split_and!; [lia..|done|done].
Qed.

(** What the writer sent, received. *)
Lemma frames_received `{!Allocator} pagesz maxrec h remote ch ws envs :
  in_order ch ws → oc_destroyed ch = false → oc_queue ch = [] →
  Forall (λ w, bytes w ∧ 0 < Zlen w ≤ LAST_FRAG_XDR_UNITS) ws → Forall patient envs →
  (length (os_wire (oc_sock ch)) ≤ length (filter (λ e, blocked e = false) envs))%nat →
  ∃ ds x', vc_run pagesz maxrec envs (vc_accepted h remote (os_wire (oc_sock ch))) = Ret (ds, x') ∧
    Forall2 (λ d w, ioq_in (set_op XDR_DECODE d) 0 w) ds ws.
Proof.
  intros Ho Hd Hq Hok Hp Hl. unfold in_order in Ho. rewrite Hd, Hq in Ho. destruct Ho as (ws' & _ & Hw).
  change (backlog [] ws') with (@nil Z) in Hw. rewrite app_nil_r, frames_wire in Hw.
  destruct (accepted_records pagesz maxrec h remote ((λ w, [w]) <$> ws) envs (frames_ok ws Hok) Hp)
    as (ds & x' & k & Er & _ & Hds).
  rewrite <- Hw in Er, Hds. exists ds, x'. split; [done|]. specialize (Hds Hl).
  rewrite Forall2_fmap_r in Hds.
  eapply Forall2_impl; [exact Hds|]. intros d w [_ Hin]. cbn in Hin. rewrite app_nil_r in Hin.
  by apply Hin.
Qed.

(** From one end of a stream to the other: values encoded by any filter that
    implements a wire format, each on a stream of its own, are queued on a transport
    whose socket takes the bytes in any pieces; once its queue is empty, a receiver that
    is given those bytes in any other pieces delivers one stream for each value, in
    order, from which the same filter decodes that value. *)
Theorem values_end_to_end `{!Allocator} {T} (f : xdrproc xdr_ioq T) (S : spec T) {C : Codec f S}
    evs vs v0 zp arm ok pagesz maxrec h remote envs :
  sends f S evs vs → fresh S v0 → Forall patient envs →
  ∃ s, out_run zp arm (new_chan ok) evs = Ret s ∧ let ch := ost_chan s in
    (oc_destroyed ch = false → oc_queue ch = [] →
     (length (os_wire (oc_sock ch)) ≤ length (filter (λ e, blocked e = false) envs))%nat →
     ∃ ds x', vc_run pagesz maxrec envs (vc_accepted h remote (os_wire (oc_sock ch))) = Ret (ds, x') ∧
       Forall2 (λ d v, ∃ y, f (set_op XDR_DECODE d) v0 = Ret (true, v, y)) ds vs).
Proof.
  intros Hs Hv0 Hp. pose proof (sends_wf f S _ _ Hs) as Hwf.
  destruct (run_from_new zp arm ok evs (wire S <$> vs) (sends_replies f S _ _ Hs)) as (s & E & [Ho _ _ _] & _).
  exists s. split; [done|]. cbv zeta. intros Hd Hq Hl.
  destruct (frames_received pagesz maxrec h remote _ _ envs Ho Hd Hq) as (ds & x' & Er & Hds); [|done|done|].
  { apply Forall_fmap. eapply Forall_impl; [exact Hwf|]. intros v [? ?]. split; [by apply cd_bytes|done]. }
  exists ds, x'. split; [done|]. rewrite Forall2_fmap_r in Hds.
  eapply Forall2_weaken_r; [exact Hds|exact Hwf|]. intros d v Hin [Hv _].
  destruct (codec_roundtrip f S v v0 Hv Hv0) as [_ Hdec]. cbn in Hin. rewrite <- (app_nil_r (wire S v)) in Hin.
  destruct (Hdec (set_op XDR_DECODE d) [] Hin) as (y & Ey & _). eauto.
Qed.

(** ** A fragment header in parts *)

(** A proxy header for a peer on IPv4 with the addresses and ports [addrs]. *)
Definition proxy_header (addrs : list Z) : list Z :=
  be32 PP2_SIG_UINT32 ++ be32 PP2_SIG_UINT32_2 ++ be32 PP2_SIG_UINT32_3 ++
  [PP2_VERSION2_CMD_PROXY; PP2_TRANS_STREAM_FAM_INET; 0; PP2_ADDR_LEN_INET] ++ addrs.

Lemma proxy_header_bytes addrs :
  proxy_header addrs = [13; 10; 13; 10; 0; 13; 10; 81; 85; 73; 84; 10; 33; 17; 0; 12] ++ addrs.
Proof.
  unfold proxy_header. change PP2_SIG_UINT32 with (be_dec [13; 10; 13; 10]).
  change PP2_SIG_UINT32_2 with (be_dec [0; 13; 10; 81]). change PP2_SIG_UINT32_3 with (be_dec [85; 73; 84; 10]).
  by rewrite !be32_be_dec by (done || (repeat constructor; lia)).
Qed.

Lemma short_frame w : 0 < Zlen w < 2 ^ 8 → frame w = 128 :: [0; 0; Zlen w] ++ w.
Proof.
  intros Hw. unfold frame. assert (E : Z.lor (Zlen w) LAST_FRAG = be_dec [128; 0; 0; Zlen w]).
  { rewrite Z.lor_comm. change LAST_FRAG with (Z.shiftl 1 31). rewrite lor_shiftl by lia. unfold be_dec. cbn. lia. }
  rewrite E, be32_be_dec by (done || (repeat constructor; lia)). done.
Qed.

(** A fragment header has to arrive in one piece after a proxy header: the read of
    the header does not wait there, and what it gets, one to three of the four bytes, is
    taken for all of it.  With the first bytes of the header of a short record the
    transport is destroyed, although the peer sent a proxy header and a record as the
    protocols ask. *)
Theorem split_header_kills `{!Allocator} pagesz maxrec h remote addrs w n :
  Zlen addrs = 12 → 0 < Zlen w < 2 ^ 8 → 0 < n < 4 →
  ∃ x', svc_vc_recv pagesz maxrec (mk_env [] (RdShort n) RdAll true true)
          (vc_accepted h remote (proxy_header addrs ++ frame w)) = Ret (Died [], x') ∧
    vx_destroyed x' = true.
Proof.
  intros Ha Hw Hn. rewrite proxy_header_bytes, short_frame by done.
  do 12 (destruct addrs as [|? addrs]; [cbn in Ha; lia|]). destruct addrs; [|cbn in Ha; lia].
  assert (n = 1 ∨ n = 2 ∨ n = 3) as [->|[->| ->]] by lia; eexists; (split; [vm_compute; reflexivity|reflexivity]).
Qed.

Lemma split_header_kills_witness :
  ∃ x', @svc_vc_recv bump 4096 65536 (mk_env [] (RdShort 2) RdAll true true)
          (vc_accepted ∅ (mk_sa AF_INET [] []) (proxy_header [10; 0; 0; 7; 10; 0; 0; 1; 3; 9; 8; 1] ++ frame [0; 0; 0; 1]))
        = Ret (Died [], x') ∧ vx_destroyed x' = true.
Proof. apply (@split_header_kills bump); cbn; lia. Defined.

(** A name, encoded in buffers of eight bytes. *)
Definition no_stream : XDRQ := ox_xdrs (reply_of 0 []).
Definition new_stream : XDRQ :=
  match @xdr_ioq_create bump ∅ 8 64 UIO_FLAG_FREE with Ret x => x | _ => no_stream end.
Definition encoded_name (O := @ioq_ops bump) : XDRQ :=
  match xdr_string 32 new_stream some_name with Ret (_, _, x) => x | _ => no_stream end.

Lemma name_encoded (O := @ioq_ops bump) id :
  @encoded bump _ (xdr_string 32) (string_spec 32) (fresh_reply id encoded_name) some_name.
Proof.
  apply (@encoded_intro bump _ (xdr_string 32) (string_spec 32) id some_name ∅ 8 64 new_stream encoded_name).
  - exists [103; 97; 110; 101; 115; 104; 97]. split_and!; try done; repeat constructor; lia.
  - lia.
  - by vm_compute.
  - by vm_compute.
  - rewrite LAST_FRAG_XDR_UNITS_eq. by vm_compute.
Qed.

Definition names_sent : list out_event :=
  [ReplyNow (fresh_reply 7 encoded_name) [Sent 3] []; ReplySubmit (fresh_reply 8 encoded_name);
   Run false [Sent 6; Sent 100; Sent 100] [] []].

Lemma values_end_to_end_witness (O := @ioq_ops bump) :
  ∃ s, out_run (mk_zp false 0) true (new_chan false) names_sent = Ret s ∧ let ch := ost_chan s in
    (oc_destroyed ch = false → oc_queue ch = [] →
     (length (os_wire (oc_sock ch)) ≤ length (filter (λ e, blocked e = false) (replicate 40 eager)))%nat →
     ∃ ds x', @vc_run bump 4096 65536 (replicate 40 eager)
         (vc_accepted ∅ (mk_sa AF_INET [] []) (os_wire (oc_sock ch))) = Ret (ds, x') ∧
       Forall2 (λ d v, ∃ y, xdr_string 32 (set_op XDR_DECODE d) Pnull = Ret (true, v, y)) ds [some_name; some_name]).
Proof.
  apply (@values_end_to_end bump _ (xdr_string 32) (string_spec 32) (string_codec 32 ltac:(done) ltac:(done))).
  - constructor; [apply name_encoded|]. constructor; [apply name_encoded|]. constructor.
  - done.
  - apply Forall_replicate. by split_and!; cbn; auto.
Defined.

(** The names arrive: nothing is left in the queue, and the receiver delivers both. *)
Example names_arrive (O := @ioq_ops bump) :
  match out_run (mk_zp false 0) true (new_chan false) names_sent with
  | Ret s => let ch := ost_chan s in
      oc_destroyed ch = false ∧ oc_queue ch = [] ∧ length (os_wire (oc_sock ch)) = 32%nat ∧
      match @vc_run bump 4096 65536 (replicate 40 eager)
              (vc_accepted ∅ (mk_sa AF_INET [] []) (os_wire (oc_sock ch))) with
      | Ret (ds, _) =>
          (λ d, match xdr_string 32 (set_op XDR_DECODE d) Pnull with Ret (b, v, _) => Some (b, v) | _ => None end) <$> ds
          = [Some (true, some_name); Some (true, some_name)]
      | _ => False
      end
  | _ => False
  end.
Proof. by vm_compute. Qed.
