(* ===== verification/SvcVcReply.v ===== *)
(** * Requests and replies on a stream (src/svc_vc.c, src/svc_auth_none.c)

    The two ends of a request: [svc_vc_decode] makes a message of a record that was
    received, [svc_vc_reply] encodes a reply and gives it to the writer. *)
From stdpp Require Import base gmap list.
From Stdlib Require Import ZArith Lia.
From S2P Require Import Prelude Machine XdrHandle XdrStream XdrMem XdrIoq XdrInline XdrWire RpcMsg SvcAuth SvcIoqZc SvcIoq SvcVc.

Definition RPC_MAXDATA_DEFAULT : Z := 8192.
Definition XPRT_IDLE : Z := 0.

Section Transport.
Context `{!Allocator} {R : Type}.

(** What becomes of a record: a call goes to [process_cb] and a reply to
    [clnt_req_process_reply], each with the stream behind the header. *)
Inductive vc_decoded :=
| Undecoded
| Process (rq_msg : rpc_msg R) (rq_xdrs : XDRQ)
| ProcessReply (rq_msg : rpc_msg R) (rq_xdrs : XDRQ).

(** [where_] is the null pointer for results. *)
Definition svc_vc_decode (where_ : R) (rq_msg : rpc_msg R) (rq_xdrs : XDRQ) (xprt : vc_xprt)
    : out (vc_decoded * vc_xprt) :=
  let! (ok, rq_msg, rq_xdrs) := xdr_dplx_decode (set_op XDR_DECODE rq_xdrs) (rpc_msg_init where_ rq_msg) in
  if negb ok then Ret (Undecoded, SVC_DESTROY xprt) else
  if rm_direction rq_msg =? CALL then Ret (Process rq_msg rq_xdrs, xprt) else
  if rm_direction rq_msg =? REPLY then Ret (ProcessReply rq_msg rq_xdrs, xprt) else
  Ret (Undecoded, SVC_DESTROY xprt).

(** The results as they are. *)
Definition svcauth_none_wrap (ar_proc : xdrproc xdr_ioq R) (rq_msg : rpc_msg R) (xdrs : XDRQ) : out (bool * XDRQ) :=
  let! (ok, _, xdrs) := ar_proc xdrs (ar_results (RPCM_ack rq_msg)) in Ret (ok, xdrs).

(** The status, the streams that are neither queued nor released, and what the writer
    did.  [svc_ah_wrap] is that of [rq_auth], if there is one; [id] names the new reply. *)
Definition svc_vc_reply (zp : zc_params) (active arm : bool) (send_max : Z) (ar_proc : xdrproc xdr_ioq R)
    (svc_ah_wrap : option (rpc_msg R → XDRQ → out (bool * XDRQ))) (h : heap) (id : Z) (rq_msg : rpc_msg R)
    (errqs : list (list (list cmsghdr))) (late : list out_xioq) (ch : out_chan)
    : out (Z * list XDRQ * (list zc_xioq * nat * out_chan)) :=
  let! xioq := xdr_ioq_create h RPC_MAXDATA_DEFAULT (send_max + RPC_MAXDATA_DEFAULT) UIO_FLAG_FREE in
  let! (ok, xioq) := xdr_reply_encode ar_proc xioq rq_msg in
  if negb ok then Ret (XPRT_DIED, [xioq], ([], 0%nat, ch)) else
  let xioq := ioq_tail_update xioq in
  let! (ok, xioq) :=
    if (rp_stat (rm_reply rq_msg) =? MSG_ACCEPTED) && (ar_stat (RPCM_ack rq_msg) =? SUCCESS)
    then match svc_ah_wrap with Some wrap => wrap rq_msg xioq | None => Ret (true, xioq) end
    else Ret (true, xioq) in
  if negb ok then Ret (XPRT_DIED, [xioq], ([], 0%nat, ch)) else
  let xioq := ioq_tail_update xioq in
  let! w := svc_ioq_write_now zp active arm errqs late ch (fresh_reply id xioq) in
  Ret (XPRT_IDLE, [], w).
End Transport.
