(* ===== verification/SvcVcReplyTheorems.v ===== *)
(** * Replies told from one end of a stream to the other

    A server that answers requests on a stream, whatever its socket does, and a client
    that receives what was sent: for every answer the client gets a reply with its
    transaction id that says the same, and behind it the results. *)
From stdpp Require Import base gmap list.
From Stdlib Require Import ZArith Lia.
From S2P Require Import Prelude Machine XdrHandle XdrStream XdrMem XdrIoq XdrIoqFacts XdrInline XdrWire XdrCodecs XdrIoqTheorems RpcMsg RpcMsgFacts RpcMsgTheorems SvcAuth SvcIoqZc SvcIoqZcTheorems SvcIoq SvcIoqFacts SvcIoqTheorems SvcVc SvcVcFacts SvcVcTheorems SvcVcRecords StreamTheorems SvcVcReply.

(** ** Encoding on a new stream *)

Section Answers.
Context `{!Allocator} {T : Type} (f : xdrproc xdr_ioq T) (S : spec T) {C : Codec f S}.

(** The filter for results is not used where the header fits the first buffer. *)
Definition no_results : xdrproc xdr_ioq T := λ x r, Ret (true, r, x).

Lemma no_results_encodes v : encodes no_results v [].
Proof.
  intros x w c Hx. pose proof Hx as [-> _]. split; [|intros Hf; by destruct Hf]. intros _. exists x.
  split; [done|]. by rewrite app_nil_r.
Qed.

Lemma reply_encode_inline p q (x : XDRQ) (m : rpc_msg T) :
  x_data x + RPC_MAXDATA_DEFAULT = vio_wrap (x_v x) → reply_wf q m →
  xdr_reply_encode p x m = xdr_reply_encode q x m.
Proof.
  intros Hr (_ & _ & Hm). unfold xdr_reply_encode. destruct (Z.eqb_spec (rp_stat (rm_reply m)) MSG_ACCEPTED) as [E|]; [|done].
  destruct Hm as [[(_ & (_ & _ & Hl) & _) _]|[E2 _]]; [|rewrite E in E2; done].
  unfold xdr_reply_encode_accepted. rewrite (proj2 (Z.ltb_ge _ _)) by lia.
  unfold xdr_inline_encode. rewrite (proj2 (Z.leb_le _ _)); [done|].
  unfold RPC_MAXDATA_DEFAULT, MAX_AUTH_BYTES, BYTES_PER_XDR_UNIT in *. rewrite RNDUP_spec by lia. lia.
Qed.

Definition success (m : rpc_msg T) : bool :=
  (rp_stat (rm_reply m) =? MSG_ACCEPTED) && (ar_stat (RPCM_ack m) =? SUCCESS).
Definition results_wire (m : rpc_msg T) : list Z := if success m then wire S (ar_results (RPCM_ack m)) else [].

(** An answer the server may give: any error, or results the filter encodes; a verifier
    of whole units, and one fragment in all. *)
Record answer_wf (m : rpc_msg T) : Prop := {
  an_reply : reply_wf no_results m;
  an_verf : rp_stat (rm_reply m) = MSG_ACCEPTED → oa_length (ar_verf (RPCM_ack m)) mod 4 = 0;
  an_results : success m = true → wf S (ar_results (RPCM_ack m));
  an_size : reply_len m + Zlen (results_wire m) ≤ LAST_FRAG_XDR_UNITS;
}.

(** The bytes [w] tell the answer [m] to whoever decodes them. *)
Definition tells (m : rpc_msg T) (w : list Z) : Prop :=
  (bytes w ∧ 0 < Zlen w ≤ LAST_FRAG_XDR_UNITS) ∧
  ∀ (y : XDRQ) (m0 : rpc_msg T) e, msg_ok m0 → ioq_in y 0 w →
    ∃ m' y', xdr_dplx_decode y m0 = Ret (true, m', y') ∧ rm_direction m' = REPLY ∧
      rm_xid m' = rm_xid m ∧ _seterr_reply m' e = _seterr_reply m e ∧
      (success m = true → ∀ v0, fresh S v0 → ∃ z, f y' v0 = Ret (true, ar_results (RPCM_ack m), z)).

Lemma reply_len_pos (m : rpc_msg T) : reply_wf no_results m → 0 < reply_len m.
Proof.
  intros (_ & _ & Hm). unfold reply_len. case_match.
  - unfold accepted_len. destruct Hm as [[(_ & Ha & _) _]|[E _]]; [|rewrite E in *; done].
    pose proof (auth_bytes_len _ _ Ha (auth_wire_bytes _)). lia.
  - unfold denied_wire. rewrite Zlen_app. unfold reply_head. rewrite !Zlen_app, !be32_length. lia.
Qed.

Lemma bytes_tell m bs :
  answer_wf m → reply_bytes m bs → Zlen bs = reply_len m → tells m (bs ++ results_wire m).
Proof.
  intros [Hr Hv Hs Hz] Hb Hl. pose proof (reply_len_pos m Hr) as Hp. split.
  - split; [|rewrite Zlen_app; lia]. apply bytes_app. split; [apply (reply_bytes_bytes no_results m bs Hr Hb Hv)|].
    unfold results_wire. destruct (success m); [by apply cd_bytes, Hs|constructor].
  - intros y m0 e Hok Hy. destruct (reply_bytes_got no_results m m0 bs e Hr Hb) as (m' & Hg & Hd & Hx & Hdir & He).
    assert (Hdm : decodes (xdr_dplx_decode : xdrproc xdr_ioq (rpc_msg T)) m0 bs m') by (by apply msg_decodes).
    destruct (Hdm y (results_wire m) Hy) as (y' & -> & Hy').
    exists m', y'. split_and!; try done. intros Hsu v0 Hv0. unfold results_wire in Hy'. rewrite Hsu in Hy'.
    destruct (codec_roundtrip f S _ v0 (Hs Hsu) Hv0) as [_ Hdec].
    rewrite <- (app_nil_r (wire S _)) in Hy'. destruct (Hdec y' [] Hy') as (z & -> & _). eauto.
Qed.

(** What [svc_vc_reply] gives to the writer. *)
Lemma vc_reply_encoded m h send_max :
  answer_wf m →
  ∃ w x, tells m w ∧ ioq_out x w None ∧ ∀ zp active arm id errqs late ch,
    svc_vc_reply zp active arm send_max f (Some (svcauth_none_wrap f)) h id m errqs late ch =
    let! wr := svc_ioq_write_now zp active arm errqs late ch (fresh_reply id x) in Ret (XPRT_IDLE, [], wr).
Proof.
  intros Hm. pose proof Hm as [Hr _ Hs _].
  destruct (ioq_create_room h RPC_MAXDATA_DEFAULT (send_max + RPC_MAXDATA_DEFAULT) UIO_FLAG_FREE)
    as (x0 & E0 & Hx0 & Hroom); [done..|].
  destruct (proj1 (reply_encode_spec no_results m Hr x0 [] None Hx0) I) as (bs & x1 & E1 & Hb & Hl & Hx1).
  cbn [app] in Hx1. apply ioq_out_tail in Hx1.
  assert (E2 : ∃ x2, (if success m then svcauth_none_wrap f m (ioq_tail_update x1) else Ret (true, ioq_tail_update x1)) =
    Ret (true, x2) ∧ ioq_out x2 (bs ++ results_wire m) None).
  { unfold results_wire. destruct (success m) eqn:Esu; [|exists (ioq_tail_update x1); by rewrite app_nil_r].
    assert (He : encodes f (ar_results (RPCM_ack m)) (wire S (ar_results (RPCM_ack m)))) by (by apply cd_encodes, Hs).
    destruct (proj1 (He _ _ None Hx1) I) as (x2 & E2 & Hx2). unfold svcauth_none_wrap. rewrite E2. cbn [obind]. eauto. }
  destruct E2 as (x2 & E2 & Hx2). exists (bs ++ results_wire m), (ioq_tail_update x2).
  split; [by apply bytes_tell|]. split; [by apply ioq_out_tail|]. intros. unfold svc_vc_reply. rewrite E0. cbn [obind].
  rewrite (reply_encode_inline f no_results x0 m Hroom Hr), E1. cbn [obind negb]. fold (success m).
  destruct (success m); rewrite E2; done.
Qed.

(** ** A server *)

(** A request is answered, or the writer runs again. *)
Inductive srv_event :=
| Answer (m : rpc_msg T) (h : heap) (id : Z) (answers : list send_answer) (errqs : list (list (list cmsghdr)))
| Again (worker : bool) (answers : list send_answer) (errqs : list (list (list cmsghdr))).

Definition srv_step (zp : zc_params) (arm : bool) (send_max : Z) (s : out_state) (ev : srv_event) : out out_state :=
  match ev with
  | Answer m h id answers errqs =>
      let! (_, _, (fs, n, ch)) :=
        svc_vc_reply zp true arm send_max f (Some (svcauth_none_wrap f)) h id m errqs [] (with_answers answers (ost_chan s)) in
      Ret (mk_ost ch (ost_pending s + n)%nat (ost_freed s ++ fs))
  | Again worker answers errqs => out_step zp arm s (Run worker answers errqs [])
  end.

Fixpoint srv_run (zp : zc_params) (arm : bool) (send_max : Z) (s : out_state) (evs : list srv_event) : out out_state :=
  match evs with
  | [] => Ret s
  | ev :: evs => let! s := srv_step zp arm send_max s ev in srv_run zp arm send_max s evs
  end.

Definition answers_of (evs : list srv_event) : list (rpc_msg T) :=
  evs ≫= λ ev, match ev with Answer m _ _ _ _ => [m] | Again _ _ _ => [] end.

(** A run of the server is a run of the writer. *)
Lemma srv_run_out zp arm send_max evs :
  Forall answer_wf (answers_of evs) →
  ∃ evs' ws, replies evs' ws ∧ Forall2 tells (answers_of evs) ws ∧
    ∀ s, srv_run zp arm send_max s evs = out_run zp arm s evs'.
Proof.
  induction evs as [|[m h id answers errqs|worker answers errqs] evs IH]; cbn; intros Hm.
  - exists [], []. split_and!; [constructor|constructor|done].
  - apply Forall_cons in Hm as [Hm1 Hm2]. destruct (IH Hm2) as (evs' & ws & Hr & Ht & E).
    destruct (vc_reply_encoded m h send_max Hm1) as (w & x & Hw & Hx & Er).
    exists (ReplyNow (fresh_reply id x) answers errqs :: evs'), (w :: ws). split_and!; [|by constructor|].
    + constructor; [|done]. apply (fresh_sending id x w None Hx), Hw.
    + intros s. rewrite Er. unfold out_step. cbn [out_run]. unfold out_step.
      destruct (svc_ioq_write_now _ _ _ _ _ _ _) as [[[fs n] ch]| | |]; cbn [obind]; [apply E|done..].
  - destruct (IH Hm) as (evs' & ws & Hr & Ht & E).
    exists (Run worker answers errqs [] :: evs'), ws. split_and!; [done|done|].
    intros s. cbn [out_run]. destruct (out_step _ _ _ _); cbn [obind]; [apply E|done..].
Qed.
End Answers.

Lemma init_ok {T} (where_ : T) m : msg_ok m → msg_ok (rpc_msg_init where_ m).
Proof. by intros (? & ? & _). Qed.

(** C5. Answers reach the client: a server that answers requests on a stream -- with
    results of any type that has a wire format, or with any error the protocol knows --
    never fails to encode an answer or leaves one behind, however its socket behaves and
    the runs of its writer interleave; and once its queue is empty, a client that is
    given the bytes in any other pieces receives, for each answer in order, a record
    that [svc_vc_decode] recognises as a reply, with the answer's transaction id and
    status as [_seterr_reply] reports it, and for a success the results decode behind
    it to what the server encoded.

    The conditions: an answer is well-formed -- a 32-bit transaction id, a status the
    protocol knows, results the filter can encode, and for an accepted reply a verifier
    whose length is a multiple of 4 -- and of one fragment, LAST_FRAG_XDR_UNITS =
    2 ^ 31 - 4 bytes at most; the server's transport is not destroyed before its queue is
    empty; and the client's receiver is [patient] -- a read of a fragment header, which
    asks for all of it, gets all of it or has to wait, a read of data brings some bytes or
    has to wait, and neither the event loop nor the callback for the address fails -- and
    is run once for every byte at least, the runs that have to wait not counted. *)
Theorem answers_end_to_end `{!Allocator} {T} (f : xdrproc xdr_ioq T) (S : spec T) {C : Codec f S}
    zp arm ok send_max evs (where_ : T) m0 e pagesz maxrec h remote envs :
  Forall (answer_wf S) (answers_of evs) → msg_ok m0 → Forall patient envs →
  ∃ s, srv_run f zp arm send_max (new_chan ok) evs = Ret s ∧ let ch := ost_chan s in
    (oc_destroyed ch = false → oc_queue ch = [] →
     (length (os_wire (oc_sock ch)) ≤ length (filter (λ e, blocked e = false) envs))%nat →
     ∃ ds x', vc_run pagesz maxrec envs (vc_accepted h remote (os_wire (oc_sock ch))) = Ret (ds, x') ∧
       Forall2 (λ d m, ∃ m' y, svc_vc_decode where_ m0 d x' = Ret (ProcessReply m' y, x') ∧
         rm_xid m' = rm_xid m ∧ _seterr_reply m' e = _seterr_reply m e ∧
         (success m = true → ∀ v0, fresh S v0 → ∃ z, f y v0 = Ret (true, ar_results (RPCM_ack m), z)))
         ds (answers_of evs)).
Proof.
  intros Hm Hok Hp. destruct (srv_run_out f S zp arm send_max evs Hm) as (evs' & ws & Hr & Ht & E).
  destruct (run_from_new zp arm ok evs' ws Hr) as (s & Es & [Ho _ _ _] & _).
  exists s. split; [by rewrite E|]. cbv zeta. intros Hd Hq Hl.
  destruct (frames_received pagesz maxrec h remote _ ws envs Ho Hd Hq) as (ds & x' & Er & Hds); [|done|done|].
  { eapply Forall2_Forall_r; [exact Ht|]. apply Forall_true. intros m w Hw. apply Hw. }
  exists ds, x'. split; [done|]. eapply Forall2_meet; [exact Hds|exact Ht|].
  intros d w m Hin [_ Hw]. destruct (Hw _ (rpc_msg_init where_ m0) e (init_ok _ _ Hok) Hin) as (m' & y & Edec & Hdir & Hrest).
  exists m', y. split; [|done]. unfold svc_vc_decode. rewrite Edec. cbn [obind negb]. by rewrite Hdir.
Qed.

(** ** Examples *)

Definition empty_msg : rpc_msg (ptr (list Z)) :=
  let none := mk_auth 0 0 (replicate 400 0) in
  mk_msg 0 0 0 (mk_reply 0 (mk_accepted 0 (mk_versions 0 0) Pnull none)
    (mk_rejected 0 (mk_versions 0 0) 0)) 0 0 0 none none.

(** The name of the service, then a refusal of the version. *)
Definition a_name : rpc_msg (ptr (list Z)) :=
  set_ack (set_ar_results some_name (RPCM_ack empty_msg)) (set_direction REPLY (set_xid 77 empty_msg)).
Definition a_refusal : rpc_msg (ptr (list Z)) :=
  set_ack (set_ar_vers (mk_versions 2 4) (set_ar_stat PROG_MISMATCH (RPCM_ack empty_msg)))
    (set_direction REPLY (set_xid 78 empty_msg)).

Definition two_answers : list (@srv_event (ptr (list Z))) :=
  [Answer a_name ∅ 1 [Sent 3] []; Answer a_refusal ∅ 2 [] []; Again false [Sent 10; Sent 1000; Sent 2; Sent 1000] []].

Lemma empty_msg_ok : msg_ok empty_msg.
Proof. by repeat split. Qed.

Lemma accepted_answer m :
  rm_direction m = REPLY → is_u 32 (rm_xid m) → rp_stat (rm_reply m) = MSG_ACCEPTED →
  ar_verf (RPCM_ack m) = mk_auth 0 0 (replicate 400 0) → is_s 32 (ar_stat (RPCM_ack m)) →
  is_u 32 (low (ar_vers (RPCM_ack m))) → is_u 32 (high (ar_vers (RPCM_ack m))) →
  (success m = true → wf (string_spec 32) (ar_results (RPCM_ack m))) →
  reply_len m + Zlen (results_wire (string_spec 32) m) ≤ LAST_FRAG_XDR_UNITS →
  @answer_wf bump _ (string_spec 32) m.
Proof.
  intros Hd Hx Ha Hv Hs Hl Hh Hr Hz. constructor; [|by rewrite Hv|done|done].
  split; [done|]. split; [done|]. left. rewrite Hv. split; [|by repeat constructor].
  split; [done|]. rewrite Hv. split_and!; try done. intros _. apply (@no_results_encodes bump).
Qed.

Lemma answers_wf : Forall (@answer_wf bump _ (string_spec 32)) (answers_of two_answers).
Proof.
  constructor; [|constructor; [|constructor]]; apply accepted_answer; try done; try (by vm_compute);
    try (rewrite LAST_FRAG_XDR_UNITS_eq; by vm_compute).
  intros _. exists [103; 97; 110; 101; 115; 104; 97]. split_and!; try done; repeat constructor; lia.
Qed.

Lemma answers_end_to_end_witness (O := @ioq_ops bump) (E := mk_err 0 0 (mk_versions 0 0) 0 0) :
  ∃ s, @srv_run bump _ (xdr_string 32) (mk_zp false 0) true 65536 (new_chan false) two_answers = Ret s ∧
    let ch := ost_chan s in
    (oc_destroyed ch = false → oc_queue ch = [] →
     (length (os_wire (oc_sock ch)) ≤ length (filter (λ e, blocked e = false) (replicate 90 eager)))%nat →
     ∃ ds x', @vc_run bump 4096 65536 (replicate 90 eager)
         (vc_accepted ∅ (mk_sa AF_INET [] []) (os_wire (oc_sock ch))) = Ret (ds, x') ∧
       Forall2 (λ d m, ∃ m' y, @svc_vc_decode bump _ Pnull empty_msg d x' = Ret (ProcessReply m' y, x') ∧
         rm_xid m' = rm_xid m ∧ _seterr_reply m' E = _seterr_reply m E ∧
         (success m = true → ∀ v0, fresh (string_spec 32) v0 →
            ∃ z, xdr_string 32 y v0 = Ret (true, ar_results (RPCM_ack m), z)))
         ds (answers_of two_answers)).
Proof.
  apply (@answers_end_to_end bump _ (xdr_string 32) (string_spec 32) (string_codec 32 ltac:(done) ltac:(done))).
  - apply answers_wf.
  - apply empty_msg_ok.
  - apply Forall_replicate. by split_and!; cbn; auto.
Defined.

(** The server's queue ends up empty, and the wire holds both records. *)
Example two_answers_sent (O := @ioq_ops bump) :
  match @srv_run bump _ (xdr_string 32) (mk_zp false 0) true 65536 (new_chan false) two_answers with
  | Ret s => oc_destroyed (ost_chan s) = false ∧ oc_queue (ost_chan s) = [] ∧
             length (os_wire (oc_sock (ost_chan s))) = 76%nat
  | _ => False
  end.
Proof. by vm_compute. Qed.
