(* ===== verification/WorkPool.v ===== *)
(** * The thread pool (src/work_pool.c, ntirpc/rpc/work_pool.h)

    Worker threads, submitters and shutdown as steps on a shared state.  What a thread
    does while it holds the pool's mutex is one step, as is each stretch without it; a
    step of one thread can follow any step of another.  A wait on the condition variable
    can return at any time, with any result, as POSIX permits. *)
From stdpp Require Import base gmap list.
From Stdlib Require Import ZArith Lia.
From S2P Require Import Prelude Machine.

Record work_pool_params := mk_params { thrd_max : Z; thrd_min : Z; thr_stack_size : Z }.

(** [pqh.qh] and [pqh.qcount], [wptqh] and the parameters; work entries are named by their
    addresses and threads by a number. *)
Record work_pool := mk_pool {
  p_queue : list Z; p_qcount : Z; p_waiters : list nat;
  p_params : work_pool_params; p_timeout_ms : Z; p_n_threads : Z; p_worker_index : Z;
}.

(** Where a thread stands: created, about to create another one, running its work, or in
    [pthread_cond_timedwait]. *)
Inductive wpt_pc := Starting | Spawning | Running | Waiting.

Record work_pool_thread := mk_wpt {
  t_pc : wpt_pc; t_work : option Z; t_wakeup : bool; t_index : Z;
}.

(** The pool, its threads, and who is inside [work_pool_submit] past the test of
    [thrd_max].  [g_submitted] and [g_done] record the work put on the queue and the
    work whose function has returned. *)
Record sys := mk_sys {
  s_pool : work_pool; s_threads : gmap nat work_pool_thread; s_calls : list Z;
  g_submitted : list Z; g_done : list Z;
}.

Definition set_queue v p := mk_pool v (p_qcount p) (p_waiters p) (p_params p) (p_timeout_ms p) (p_n_threads p) (p_worker_index p).
Definition set_waiters v q p := mk_pool (p_queue p) q v (p_params p) (p_timeout_ms p) (p_n_threads p) (p_worker_index p).
Definition set_params v t p := mk_pool (p_queue p) (p_qcount p) (p_waiters p) v t (p_n_threads p) (p_worker_index p).
Definition set_n_threads v p := mk_pool (p_queue p) (p_qcount p) (p_waiters p) (p_params p) (p_timeout_ms p) v (p_worker_index p).
Definition set_worker_index v p := mk_pool (p_queue p) (p_qcount p) (p_waiters p) (p_params p) (p_timeout_ms p) (p_n_threads p) v.

Definition set_pc v t := mk_wpt v (t_work t) (t_wakeup t) (t_index t).
Definition set_work v t := mk_wpt (t_pc t) v (t_wakeup t) (t_index t).
Definition set_wakeup v t := mk_wpt (t_pc t) (t_work t) v (t_index t).

Definition ETIMEDOUT : Z := 110.
Definition WORK_POOL_TIMEOUT_MS : Z := 31 * 1000.

(** ** Worker threads *)

(** The loop entered with work: leave the mutex to run it, counting another thread first
    if too few are waiting. *)
Definition run_work (p : work_pool) (w : work_pool_thread) : work_pool * work_pool_thread :=
  let spawn := (p_qcount p <? thrd_min (p_params p)) && (p_n_threads p <? u32 (thrd_max (p_params p))) in
  (if spawn then set_n_threads (u32 (p_n_threads p + 1)) p else p,
   set_pc (if spawn then Spawning else Running) w).

(** From the top of the loop to where the mutex is released. *)
Definition loop_top (t : nat) (p : work_pool) (w : work_pool_thread) : work_pool * work_pool_thread :=
  match t_work w with
  | Some _ => run_work p w
  | None =>
      match p_queue p with
      | e :: q => run_work (set_queue q p) (set_work (Some e) w)
      | [] => (set_waiters (p_waiters p ++ [t]) (p_qcount p + 1) p, set_pc Waiting (set_wakeup false w))
      end
  end.

(** [work_pool_thread] up to its first release of the mutex. *)
Definition thread_start (t : nat) (p : work_pool) (w : work_pool_thread) : work_pool * work_pool_thread :=
  let i := u32 (p_worker_index p + 1) in
  loop_top t (set_worker_index i p) (mk_wpt (t_pc w) (t_work w) (t_wakeup w) i).

(** After the work's function has returned. *)
Definition work_done (t : nat) (p : work_pool) (w : work_pool_thread) : work_pool * work_pool_thread :=
  loop_top t p (set_work None w).

(** The wait returns with [rc]; no thread is left when the loop ends. *)
Definition wait_return (t : nat) (p : work_pool) (w : work_pool_thread) (rc : Z)
    : work_pool * option work_pool_thread :=
  let again p := let '(p, w) := loop_top t p w in (p, Some w) in
  let leave p := (set_n_threads (u32 (p_n_threads p - 1)) p, None) in
  if t_wakeup w then again p else
  let p := set_waiters (filter (λ t', t' ≠ t) (p_waiters p)) (p_qcount p - 1) p in
  if negb (rc =? 0) && negb (rc =? ETIMEDOUT) then leave p else
  if p_qcount p <? thrd_min (p_params p) then again p else leave p.

(** [work_pool_spawn] with the result of [pthread_create]. *)
Definition work_pool_spawn (s : sys) (rc : Z) : Z * sys :=
  if negb (rc =? 0) then (rc, s) else
  let t := fresh (dom (s_threads s)) in
  (0, mk_sys (s_pool s) (<[t := mk_wpt Starting None false 0]> (s_threads s)) (s_calls s)
        (g_submitted s) (g_done s)).

(** ** Callers *)

(** [rcs] are the results of the four pthread_attr calls; that of the stack size is
    ignored.  [rc] is the result of pthread_create. *)
Definition work_pool_init (params : work_pool_params) (rc_init rc_scope rc_detach rc_stack rc : Z) : Z * sys :=
  let lo := if thrd_min params <? 1 then 1 else thrd_min params in
  let hi := if thrd_max params <? lo then lo else thrd_max params in
  let params := mk_params hi lo (thr_stack_size params) in
  let s n := mk_sys (mk_pool [] 0 [] params WORK_POOL_TIMEOUT_MS n 0) ∅ [] [] [] in
  if negb (rc_init =? 0) then (rc_init, s 0) else
  if negb (rc_scope =? 0) then (rc_scope, s 0) else
  if negb (rc_detach =? 0) then (rc_detach, s 0) else
  work_pool_spawn (s 1) rc.

Definition work_pool_update (p : work_pool) (params : work_pool_params) : bool * work_pool :=
  if negb (thr_stack_size params =? thr_stack_size (p_params p)) then (false, p)
  else (true, set_params (mk_params (thrd_max params) (thrd_min params) (thr_stack_size (p_params p)))
                (p_timeout_ms p) p).

(** [work_pool_submit] with the mutex held. *)
Definition submit_locked (s : sys) (work : Z) : out sys :=
  let p := set_queue (p_queue (s_pool s) ++ [work]) (s_pool s) in
  match last (p_waiters p) with
  | Some t =>
      let p := set_waiters (filter (λ t', t' ≠ t) (p_waiters p)) (p_qcount p - 1) p in
      let! w := access (s_threads s !! t) in
      if t_wakeup w then Abort else
      Ret (mk_sys p (<[t := set_wakeup true w]> (s_threads s)) (s_calls s) (g_submitted s ++ [work]) (g_done s))
  | None =>
      if negb (p_qcount p =? 0) then Abort else
      Ret (mk_sys p (s_threads s) (s_calls s) (g_submitted s ++ [work]) (g_done s))
  end.

(** [work_pool_shutdown] up to the loop that waits for [n_threads] to be 0; the signals
    let waits return, which they may do anyway. *)
Definition shutdown_begin (p : work_pool) : work_pool :=
  set_params (mk_params 0 0 (thr_stack_size (p_params p))) 1 p.

(** ** Steps *)

(** A thread with the mutex goes from [w] to what is left of it. *)
Definition locked (s : sys) (t : nat) (r : work_pool * work_pool_thread) (done : list Z) : sys :=
  mk_sys r.1 (<[t := r.2]> (s_threads s)) (s_calls s) (g_submitted s) (g_done s ++ done).

Definition with_pool (p : work_pool) (s : sys) : sys :=
  mk_sys p (s_threads s) (s_calls s) (g_submitted s) (g_done s).
Definition with_threads (T : gmap nat work_pool_thread) (s : sys) : sys :=
  mk_sys (s_pool s) T (s_calls s) (g_submitted s) (g_done s).
Definition with_calls (l : list Z) (s : sys) : sys :=
  mk_sys (s_pool s) (s_threads s) l (g_submitted s) (g_done s).

(** Threads that have something to do. *)
Inductive worker_step (s : sys) : sys → Prop :=
| step_start t w :
    s_threads s !! t = Some w → t_pc w = Starting →
    worker_step s (locked s t (thread_start t (s_pool s) w) [])
| step_spawn t w :
    s_threads s !! t = Some w → t_pc w = Spawning →
    worker_step s (work_pool_spawn (with_threads (<[t := set_pc Running w]> (s_threads s)) s) 0).2
| step_work t w e :
    s_threads s !! t = Some w → t_pc w = Running → t_work w = Some e →
    worker_step s (locked s t (work_done t (s_pool s) w) [e])
| step_woken t w rc p w' :
    s_threads s !! t = Some w → t_pc w = Waiting → t_wakeup w = true →
    wait_return t (s_pool s) w rc = (p, Some w') →
    worker_step s (locked s t (p, w') []).

(** A wait that ends without having been woken, by the time limit or spuriously. *)
Inductive timeout_step (s : sys) : sys → Prop :=
| step_again t w rc p w' :
    s_threads s !! t = Some w → t_pc w = Waiting → t_wakeup w = false → rc = 0 ∨ rc = ETIMEDOUT →
    wait_return t (s_pool s) w rc = (p, Some w') →
    timeout_step s (locked s t (p, w') [])
| step_leave t w rc p :
    s_threads s !! t = Some w → t_pc w = Waiting → t_wakeup w = false → rc = 0 ∨ rc = ETIMEDOUT →
    wait_return t (s_pool s) w rc = (p, None) →
    timeout_step s (with_pool p (with_threads (delete t (s_threads s)) s)).

(** [work_pool_submit], the test without the mutex and then the rest with it;
    [work_pool_update] with limits that [svc_init] would pass; [work_pool_shutdown]. *)
Inductive caller_step (s : sys) : sys → Prop :=
| step_submit_test e :
    thrd_max (p_params (s_pool s)) ≠ 0 → caller_step s (with_calls (e :: s_calls s) s)
| step_submit l1 e l2 s' :
    s_calls s = l1 ++ e :: l2 → submit_locked (with_calls (l1 ++ l2) s) e = Ret s' → caller_step s s'
| step_update params :
    thrd_max (p_params (s_pool s)) ≠ 0 → 1 ≤ thrd_min params ≤ thrd_max params → thrd_max params < 2 ^ 31 →
    caller_step s (with_pool (work_pool_update (s_pool s) params).2 s)
| step_shutdown : caller_step s (with_pool (shutdown_begin (s_pool s)) s).

Definition pool_step (s s' : sys) : Prop := worker_step s s' ∨ timeout_step s s' ∨ caller_step s s'.

(** What the system calls may do besides: no thread is created, or a wait fails. *)
Inductive fault_step (s : sys) : sys → Prop :=
| step_spawn_fails t w rc :
    s_threads s !! t = Some w → t_pc w = Spawning → rc ≠ 0 →
    fault_step s (work_pool_spawn (with_threads (<[t := set_pc Running w]> (s_threads s)) s) rc).2
| step_wait_fails t w rc p :
    s_threads s !! t = Some w → t_pc w = Waiting → t_wakeup w = false → rc ≠ 0 → rc ≠ ETIMEDOUT →
    wait_return t (s_pool s) w rc = (p, None) →
    fault_step s (with_pool p (with_threads (delete t (s_threads s)) s)).
