(* ===== verification/WorkPoolTheorems.v ===== *)
(** * What the thread pool guarantees

    The state of the pool in every run, that no work is lost or done twice, that queued
    work is done as long as the threads run, and that shutdown ends. *)
From stdpp Require Import base gmap list sorting.
From Stdlib Require Import ZArith Lia.
From S2P Require Import Prelude Machine WorkPool.

(** ** Threads *)

Definition thr (T : gmap nat work_pool_thread) : list work_pool_thread := (map_to_list T).*2.

Lemma thr_insert T t w : T !! t = None → thr (<[t := w]> T) ≡ₚ w :: thr T.
Proof. intros H. unfold thr. by rewrite map_to_list_insert. Qed.

Lemma thr_split T t w : T !! t = Some w → thr T ≡ₚ w :: thr (delete t T).
Proof.
  intros H. rewrite <- (insert_delete_id T t w H) at 1. apply thr_insert. apply lookup_delete_eq.
Qed.

Lemma thr_lookup T w : w ∈ thr T ↔ ∃ t, T !! t = Some w.
Proof.
  unfold thr. rewrite list_elem_of_fmap. split.
  - intros ([t w'] & -> & H). exists t. by apply elem_of_map_to_list.
  - intros [t H]. exists (t, w). split; [done|]. by apply elem_of_map_to_list.
Qed.

Definition idle (w : work_pool_thread) : Prop := t_pc w = Waiting ∧ t_wakeup w = false.

#[global] Instance wpt_pc_eq_dec : EqDecision wpt_pc.
Proof. solve_decision. Defined.
#[global] Instance idle_dec w : Decision (idle w).
Proof. unfold idle. apply _. Defined.

(** The work a thread holds fits where it stands. *)
Definition work_ok (w : work_pool_thread) : Prop :=
  match t_pc w with Starting | Waiting => t_work w = None | Spawning | Running => is_Some (t_work w) end.

(** The work held by threads, and how many are about to create another. *)
Definition held (T : gmap nat work_pool_thread) : list Z := omap t_work (thr T).
Definition spawning (T : gmap nat work_pool_thread) : nat := length (filter (λ w, t_pc w = Spawning) (thr T)).

#[global] Instance omap_perm {A B} (f : A → option B) : Proper ((≡ₚ) ==> (≡ₚ)) (omap f).
Proof.
  induction 1 as [|x l1 l2 _ IH|x y l|l1 l2 l3 _ IH1 _ IH2]; cbn; [done| | |by etrans].
  - destruct (f x); by rewrite IH.
  - destruct (f x), (f y); [apply Permutation_swap|done..].
Qed.

Lemma held_split T t w : T !! t = Some w → held T ≡ₚ option_list (t_work w) ++ held (delete t T).
Proof. intros H. unfold held. rewrite (thr_split T t w H). cbn. by destruct (t_work w). Qed.

Lemma held_insert T t w : T !! t = None → held (<[t := w]> T) ≡ₚ option_list (t_work w) ++ held T.
Proof. intros H. unfold held. rewrite (thr_insert T t w H). cbn. by destruct (t_work w). Qed.

Definition is_spawning (w : work_pool_thread) : nat := if decide (t_pc w = Spawning) then 1 else 0.

Lemma spawning_split T t w : T !! t = Some w → spawning T = (is_spawning w + spawning (delete t T))%nat.
Proof.
  intros H. unfold spawning, is_spawning. rewrite (thr_split T t w H), filter_cons. by destruct (decide _).
Qed.

Lemma spawning_insert T t w : T !! t = None → spawning (<[t := w]> T) = (is_spawning w + spawning T)%nat.
Proof.
  intros H. unfold spawning, is_spawning. rewrite (thr_insert T t w H), filter_cons. by destruct (decide _).
Qed.

(** The threads that wait, counted. *)
Lemma filter_snd_length (l : list (nat * work_pool_thread)) :
  length (filter idle l.*2) = length (filter (λ kv, idle kv.2) l).
Proof.
  induction l as [|[t w] l IH]; [done|]. cbn [fmap list_fmap snd]. rewrite !filter_cons. cbn [snd].
  destruct (decide (idle w)); cbn; by rewrite IH.
Qed.

Lemma idle_count (T : gmap nat work_pool_thread) ws :
  NoDup ws → (∀ t, t ∈ ws ↔ ∃ w, T !! t = Some w ∧ idle w) → length (filter idle (thr T)) = length ws.
Proof.
  intros Hd Hw. unfold thr. rewrite filter_snd_length.
  rewrite <- (length_fmap fst). apply Permutation_length, NoDup_Permutation; [|done|].
  - pose proof (NoDup_fst_map_to_list T) as Hn. induction (map_to_list T) as [|[t w] l IH]; [done|].
    cbn in Hn. apply NoDup_cons in Hn as [Hn1 Hn2]. rewrite filter_cons. destruct (decide _); [|by apply IH].
    cbn. constructor; [|by apply IH]. intros (kv & -> & [_ H]%list_elem_of_filter)%list_elem_of_fmap.
    apply Hn1, list_elem_of_fmap. eauto.
  - intros t. rewrite Hw, list_elem_of_fmap. split.
    + intros ([t' w] & -> & [Hi H]%list_elem_of_filter). exists w. by rewrite <- elem_of_map_to_list.
    + intros (w & H & Hi). exists (t, w). split; [done|]. apply list_elem_of_filter.
      by rewrite elem_of_map_to_list.
Qed.

(** ** The invariant *)

(** The part that holds whatever the system calls return. *)
Record pool_inv (s : sys) : Prop := {
  pi_count : p_qcount (s_pool s) = Zlen (p_waiters (s_pool s));
  pi_nodup : NoDup (p_waiters (s_pool s));
  pi_waiters t : t ∈ p_waiters (s_pool s) ↔ ∃ w, s_threads s !! t = Some w ∧ idle w;
  pi_work t w : s_threads s !! t = Some w → work_ok w;
  pi_ledger : g_submitted s ≡ₚ p_queue (s_pool s) ++ held (s_threads s) ++ g_done s;
  pi_active : p_queue (s_pool s) ≠ [] → s_threads s ≠ ∅ → ∃ t w, s_threads s !! t = Some w ∧ ¬ idle w;
}.

(** The state while thread [t], apart from the threads [O], has the mutex and no work. *)
Record inv_rest (t : nat) (p : work_pool) (O : gmap nat work_pool_thread) (sub don : list Z) : Prop := {
  ir_none : O !! t = None;
  ir_count : p_qcount p = Zlen (p_waiters p);
  ir_nodup : NoDup (p_waiters p);
  ir_waiters t' : t' ∈ p_waiters p ↔ ∃ w, O !! t' = Some w ∧ idle w;
  ir_work t' w : O !! t' = Some w → work_ok w;
  ir_ledger : sub ≡ₚ p_queue p ++ held O ++ don;
}.

Lemma inv_rest_active s t w :
  pool_inv s → s_threads s !! t = Some w → ¬ idle w →
  inv_rest t (s_pool s) (delete t (s_threads s)) (g_submitted s) (g_done s ++ option_list (t_work w)).
Proof.
  intros [Hc Hn Hw Hk Hl _] Ht Hi. constructor; [apply lookup_delete_eq|done|done| | |].
  - intros t'. rewrite Hw. destruct (decide (t' = t)) as [->|Hne].
    + rewrite lookup_delete_eq, Ht. naive_solver.
    + by rewrite lookup_delete_ne by done.
  - intros t' w' [_ H]%lookup_delete_Some. by eapply Hk.
  - rewrite Hl, (held_split _ t w Ht). solve_Permutation.
Qed.

(** A thread that was waiting takes itself off the list. *)
Lemma inv_rest_idle s t w :
  pool_inv s → s_threads s !! t = Some w → idle w →
  inv_rest t (set_waiters (filter (λ t', t' ≠ t) (p_waiters (s_pool s))) (p_qcount (s_pool s) - 1) (s_pool s))
    (delete t (s_threads s)) (g_submitted s) (g_done s).
Proof.
  intros [Hc Hn Hw Hk Hl _] Ht Hi. constructor; [apply lookup_delete_eq| | | | |]; cbn.
  - assert (Hin : t ∈ p_waiters (s_pool s)) by (apply Hw; eauto).
    apply list_elem_of_split in Hin as (l1 & l2 & El). rewrite Hc, El. rewrite El in Hn.
    apply NoDup_app in Hn as (_ & H1 & [H2 _]%NoDup_cons). rewrite filter_app, filter_cons_False by naive_solver.
    rewrite !filter_all; [rewrite !Zlen_app; cbn [length]; lia|apply Forall_forall; by intros x Hx ->|].
    apply Forall_forall. intros x Hx ->. apply (H1 t Hx). by left.
  - by apply NoDup_filter.
  - intros t'. rewrite list_elem_of_filter, Hw. destruct (decide (t' = t)) as [->|Hne].
    + rewrite lookup_delete_eq. naive_solver.
    + rewrite lookup_delete_ne by done. naive_solver.
  - intros t' w' [_ H]%lookup_delete_Some. by eapply Hk.
  - rewrite Hl, (held_split _ t w Ht). apply Hk in Ht. destruct Hi as [Hp _]. red in Ht. rewrite Hp in Ht. by rewrite Ht.
Qed.

(** With the rest in order, a thread leaves the mutex with everything in order. *)
Lemma inv_running t p O sub don calls w e :
  inv_rest t p O sub (e :: don) → t_work w = Some e →
  let r := run_work p w in pool_inv (mk_sys r.1 (<[t := r.2]> O) calls sub don).
Proof.
  intros [Ho Hc Hn Hw Hk Hl] He r.
  assert (Ep : p_queue r.1 = p_queue p ∧ p_qcount r.1 = p_qcount p ∧ p_waiters r.1 = p_waiters p).
  { unfold r, run_work. by destruct (_ && _). }
  assert (Hr : t_work r.2 = Some e ∧ (t_pc r.2 = Running ∨ t_pc r.2 = Spawning)).
  { unfold r, run_work. cbn. rewrite He. destruct (_ && _); auto. }
  destruct Ep as (Eq & Ec & Ew), Hr as [Hr Hp]. constructor; cbn [s_pool s_threads g_submitted g_done]; rewrite ?Eq, ?Ec, ?Ew; try done.
  - intros t'. rewrite Hw. destruct (decide (t' = t)) as [->|Hne].
    + rewrite lookup_insert_eq, Ho. unfold idle. destruct Hp as [E|E]; naive_solver congruence.
    + by rewrite lookup_insert_ne by done.
  - intros t' w' [[<- <-]|[_ H]]%lookup_insert_Some; [|by eapply Hk]. red. destruct Hp as [->| ->]; by rewrite Hr.
  - rewrite (held_insert _ _ _ Ho), Hr, Hl. cbn. solve_Permutation.
  - intros _ _. exists t, r.2. rewrite lookup_insert_eq. split; [done|]. intros [E _]. destruct Hp; congruence.
Qed.

Lemma inv_loop_top t p O sub don calls w :
  inv_rest t p O sub don → t_work w = None →
  let r := loop_top t p w in pool_inv (mk_sys r.1 (<[t := r.2]> O) calls sub don).
Proof.
  intros Hi Hw. unfold loop_top. rewrite Hw. destruct (p_queue p) as [|e q] eqn:Eq.
  - destruct Hi as [Ho Hc Hn Hws Hk Hl]. rewrite Eq in Hl. cbn. constructor; cbn; rewrite ?Eq; try done.
    + rewrite Hc, Zlen_app. done.
    + apply NoDup_app. split; [done|]. split; [|apply NoDup_singleton]. intros t' Ht ->%list_elem_of_singleton.
      apply Hws in Ht as (w' & H & _). congruence.
    + intros t'. rewrite elem_of_app, Hws, list_elem_of_singleton. destruct (decide (t' = t)) as [->|Hne].
      * rewrite lookup_insert_eq. split; [intros _|naive_solver]. eexists. split; [done|done].
      * rewrite lookup_insert_ne by done. naive_solver.
    + intros t' w' [[<- <-]|[_ H]]%lookup_insert_Some; [done|by eapply Hk].
    + rewrite (held_insert _ _ _ Ho). cbn. rewrite Hw. done.
  - apply (inv_running t (set_queue q p) O sub don calls (set_work (Some e) w) e); [|done].
    destruct Hi as [Ho Hc Hn Hws Hk Hl]. constructor; cbn; try done. rewrite Hl, Eq. cbn. solve_Permutation.
Qed.

Lemma not_idle_pc w : t_pc w ≠ Waiting → ¬ idle w.
Proof. by intros H [? _]. Qed.

Lemma locked_eq s t r done :
  locked s t r done =
  mk_sys r.1 (<[t := r.2]> (delete t (s_threads s))) (s_calls s) (g_submitted s) (g_done s ++ done).
Proof. unfold locked. by rewrite insert_delete_eq. Qed.

(** Creating a thread, or failing to, once the creator is back in line. *)
Lemma inv_spawned s t w rc :
  pool_inv s → s_threads s !! t = Some w → t_pc w = Spawning →
  pool_inv (work_pool_spawn (with_threads (<[t := set_pc Running w]> (s_threads s)) s) rc).2.
Proof.
  intros Hi Ht Hp. pose proof (pi_work _ Hi _ _ Ht) as Hwk. red in Hwk. rewrite Hp in Hwk. destruct Hwk as [e He].
  set (s1 := with_threads (<[t := set_pc Running w]> (s_threads s)) s).
  assert (Hi1 : pool_inv s1).
  { destruct Hi as [Hc Hn Hw Hk Hl Ha]. constructor; cbn; try done.
    - intros t'. rewrite Hw. destruct (decide (t' = t)) as [->|Hne].
      + rewrite lookup_insert_eq, Ht. unfold idle. naive_solver congruence.
      + by rewrite lookup_insert_ne by done.
    - intros t' w' [[<- <-]|[_ H]]%lookup_insert_Some; [by exists e|by eapply Hk].
    - rewrite Hl, (held_split _ t w Ht), <- insert_delete_eq, (held_insert _ t _ (lookup_delete_eq _ _)). done.
    - intros _ _. exists t, (set_pc Running w). rewrite lookup_insert_eq. split; [done|]. by intros [? _]. }
  unfold work_pool_spawn. fold s1. destruct (negb (rc =? 0)); [done|]. cbn [snd].
  assert (Hf : s_threads s1 !! fresh (dom (s_threads s1)) = None) by (apply not_elem_of_dom, is_fresh).
  set (f := fresh _) in *. destruct Hi1 as [Hc Hn Hw Hk Hl Ha]. constructor; cbn [s_pool s_threads g_submitted g_done]; try done.
  - intros t'. rewrite Hw. destruct (decide (t' = f)) as [->|Hne].
    + rewrite lookup_insert_eq, Hf. unfold idle. naive_solver.
    + by rewrite lookup_insert_ne by done.
  - intros t' w' [[<- <-]|[_ H]]%lookup_insert_Some; [done|by eapply Hk].
  - rewrite (held_insert _ f _ Hf). done.
  - intros _ _. eexists f, _. rewrite lookup_insert_eq. split; [done|]. by intros [? _].
Qed.

(** A thread that leaves was not needed: the queue is empty or another one is active. *)
Lemma inv_left s t w n :
  pool_inv s → s_threads s !! t = Some w → idle w →
  pool_inv (with_pool (set_n_threads n (set_waiters (filter (λ t', t' ≠ t) (p_waiters (s_pool s)))
      (p_qcount (s_pool s) - 1) (s_pool s))) (with_threads (delete t (s_threads s)) s)).
Proof.
  intros Hi Ht Hw. destruct (inv_rest_idle s t w Hi Ht Hw) as [Ho Hc Hn Hws Hk Hl].
  constructor; cbn in *; try done. intros Hq _.
  destruct (pi_active _ Hi Hq) as (t' & w' & Ht' & Hw'); [by intros E; rewrite E in Ht|].
  exists t', w'. split; [|done]. rewrite lookup_delete_ne; [done|]. intros <-. congruence.
Qed.

(** The end of a wait, for a thread that stays and for one that leaves. *)
Lemma inv_wait_return s t w rc p r :
  pool_inv s → s_threads s !! t = Some w → t_pc w = Waiting → wait_return t (s_pool s) w rc = (p, r) →
  match r with
  | Some w' => pool_inv (locked s t (p, w') [])
  | None => pool_inv (with_pool p (with_threads (delete t (s_threads s)) s))
  end.
Proof.
  intros Hi Ht Hp E. pose proof (pi_work _ Hi _ _ Ht) as Hwk. red in Hwk. rewrite Hp in Hwk.
  unfold wait_return in E. destruct (t_wakeup w) eqn:Ew.
  - destruct (loop_top _ _ _) as [p' w'] eqn:El. injection E as <- <-. rewrite locked_eq.
    pose proof (inv_loop_top t _ _ _ _ (s_calls s) w (inv_rest_active s t w Hi Ht ltac:(intros [_ ?]; congruence)) Hwk) as H.
    by rewrite El, Hwk in H.
  - assert (Hid : idle w) by done. destruct (_ && _).
    { injection E as <- <-. by eapply inv_left. }
    destruct (_ <? _); [|injection E as <- <-; by eapply inv_left].
    destruct (loop_top _ _ _) as [p' w'] eqn:El. injection E as <- <-. rewrite locked_eq, app_nil_r.
    pose proof (inv_loop_top t _ _ _ _ (s_calls s) w (inv_rest_idle s t w Hi Ht Hid) Hwk) as H. by rewrite El in H.
Qed.

(** Submitting: both assertions hold. *)
Lemma inv_submit s e : pool_inv s → ∃ s', submit_locked s e = Ret s' ∧ pool_inv s'.
Proof.
  intros Hi. unfold submit_locked. cbn [p_waiters set_queue p_qcount].
  destruct (last (p_waiters (s_pool s))) as [t|] eqn:El.
  - assert (Hin : t ∈ p_waiters (s_pool s)) by (apply last_Some in El as [l ->]; set_solver).
    apply (pi_waiters _ Hi) in Hin as (w & Ht & Hid). rewrite Ht. cbn [access obind].
    destruct Hid as [Hp Hwk]. rewrite Hwk. eexists. split; [done|].
    destruct (inv_rest_idle s t w Hi Ht (conj Hp Hwk)) as [Ho Hc Hn Hws Hk Hl].
    rewrite <- insert_delete_eq. constructor; cbn in *; try done.
    + intros t'. rewrite Hws. destruct (decide (t' = t)) as [->|Hne].
      * rewrite lookup_insert_eq, Ho. unfold idle. naive_solver.
      * by rewrite lookup_insert_ne by done.
    + intros t' w' [[<- <-]|[_ H]]%lookup_insert_Some; [apply (pi_work _ Hi _ _ Ht)|by eapply Hk].
    + rewrite (held_insert _ _ _ Ho), Hl. pose proof (pi_work _ Hi _ _ Ht) as Hw. red in Hw. rewrite Hp in Hw.
      cbn. rewrite Hw. cbn. solve_Permutation.
    + intros _ _. exists t, (set_wakeup true w). rewrite lookup_insert_eq. split; [done|]. by intros [_ ?].
  - assert (Hnil : p_waiters (s_pool s) = []) by (by apply last_None). rewrite (pi_count _ Hi), Hnil. cbn [length Z.of_nat Z.eqb negb].
    eexists. split; [done|]. pose proof Hi as [Hc Hn Hws Hk Hl Ha]. constructor; cbn in *; try done.
    + rewrite Hl. solve_Permutation.
    + intros _ Hne. apply map_choose in Hne as (t & w & Ht). exists t, w. split; [done|]. intros Hid.
      assert (Hin : t ∈ p_waiters (s_pool s)) by (apply Hws; eauto). rewrite Hnil in Hin. by apply not_elem_of_nil in Hin.
Qed.

Lemma inv_worker s s' : pool_inv s → worker_step s s' → pool_inv s'.
Proof.
  intros Hi Hs. destruct Hs as [t w Ht Hp|t w Ht Hp|t w e Ht Hp He|t w rc p w' Ht Hp Hw E].
  - pose proof (pi_work _ Hi _ _ Ht) as Hwk. red in Hwk. rewrite Hp in Hwk. rewrite locked_eq.
    apply inv_loop_top; [|done]. pose proof (inv_rest_active s t w Hi Ht) as H. rewrite Hwk in H. cbn in H.
    destruct H as [? ? ? ? ? ?]; [apply not_idle_pc; congruence|]. by constructor.
  - by apply inv_spawned.
  - rewrite locked_eq. apply inv_loop_top; [|done]. pose proof (inv_rest_active s t w Hi Ht) as H. rewrite He in H.
    apply H, not_idle_pc. congruence.
  - exact (inv_wait_return s t w rc p (Some w') Hi Ht Hp E).
Qed.

Lemma inv_timeout s s' : pool_inv s → timeout_step s s' → pool_inv s'.
Proof.
  intros Hi Hs. destruct Hs as [t w rc p w' Ht Hp _ _ E|t w rc p Ht Hp _ _ E].
  - exact (inv_wait_return s t w rc p (Some w') Hi Ht Hp E).
  - exact (inv_wait_return s t w rc p None Hi Ht Hp E).
Qed.

Lemma inv_params s v ms : pool_inv s → pool_inv (with_pool (set_params v ms (s_pool s)) s).
Proof. intros []. by constructor. Qed.

Lemma inv_caller s s' : pool_inv s → caller_step s s' → pool_inv s'.
Proof.
  intros Hi Hs. destruct Hs as [e _|l1 e l2 s' _ E|params _ _ _|].
  - destruct Hi. by constructor.
  - destruct (inv_submit (with_calls (l1 ++ l2) s) e) as (s2 & E2 & H2); [destruct Hi; by constructor|]. congruence.
  - unfold work_pool_update. destruct (negb _); [destruct Hi; by constructor|]. by apply inv_params.
  - by apply inv_params.
Qed.

Lemma inv_fault s s' : pool_inv s → fault_step s s' → pool_inv s'.
Proof.
  intros Hi Hs. destruct Hs as [t w rc Ht Hp _|t w rc p Ht Hp _ _ _ E].
  - by apply inv_spawned.
  - exact (inv_wait_return s t w rc p None Hi Ht Hp E).
Qed.

Lemma inv_step s s' : pool_inv s → pool_step s s' ∨ fault_step s s' → pool_inv s'.
Proof.
  intros Hi [[?|[?|?]]|?];
    [by eapply inv_worker|by eapply inv_timeout|by eapply inv_caller|by eapply inv_fault].
Qed.

(** A pool whose creation succeeded. *)
Definition started (params : work_pool_params) (s : sys) : Prop :=
  ∃ rc_stack, work_pool_init params 0 0 0 rc_stack 0 = (0, s).

Lemma started_eq params s :
  started params s → ∃ lo hi t, 1 ≤ lo ≤ hi ∧ hi ≤ Z.max 1 (Z.max (thrd_max params) (thrd_min params)) ∧
    s = mk_sys (mk_pool [] 0 [] (mk_params hi lo (thr_stack_size params)) WORK_POOL_TIMEOUT_MS 1 0)
          (<[t := mk_wpt Starting None false 0]> ∅) [] [] [].
Proof.
  intros [rc E]. unfold work_pool_init in E. cbn [Z.eqb negb work_pool_spawn fst snd] in E. injection E as <-.
  eexists _, _, _. split; [|split; [|done]].
  - repeat match goal with |- context [?a <? ?b] => destruct (Z.ltb_spec a b) end; lia.
  - repeat match goal with |- context [?a <? ?b] => destruct (Z.ltb_spec a b) end; lia.
Qed.

Lemma started_inv params s : started params s → pool_inv s.
Proof.
  intros (lo & hi & t & _ & _ & ->)%started_eq. constructor; cbn; try done.
  - constructor.
  - intros t'. split; [by intros ?%not_elem_of_nil|]. intros (w & [[<- <-]|[_ H]]%lookup_insert_Some & [? _]); [done|].
    by rewrite lookup_empty in H.
  - intros t' w [[<- <-]|[_ H]]%lookup_insert_Some; [done|]. by rewrite lookup_empty in H.
  - by rewrite (held_insert ∅ t _ (lookup_empty t)).
Qed.

(** C13. Nothing is lost and nothing is done twice: in every run of a pool -- any
    interleaving of workers, submitters, time limits, changes of the limits, shutdown,
    threads that cannot be created and waits that fail -- the work submitted so far is
    exactly the work on the queue, in the hands of a thread, or done, each once; the
    count of waiting threads is the number of threads that wait; and the assertions of
    [work_pool_submit] hold. *)
Theorem pool_nothing_lost params s0 s :
  started params s0 → rtc (λ a b, pool_step a b ∨ fault_step a b) s0 s →
  g_submitted s ≡ₚ p_queue (s_pool s) ++ held (s_threads s) ++ g_done s ∧
  p_qcount (s_pool s) = Zlen (filter idle (thr (s_threads s))) ∧
  ∀ e, ∃ s', submit_locked s e = Ret s'.
Proof.
  intros H0 Hr. assert (Hi : pool_inv s).
  { apply (rtc_ind_r (R := λ a b, pool_step a b ∨ fault_step a b) pool_inv s0); [by eapply started_inv| |exact Hr].
    intros a b _ Hs Ha. by eapply inv_step. }
  split; [apply Hi|]. split; [|intros e; destruct (inv_submit s e Hi) as (s' & E & _); eauto].
  rewrite (pi_count _ Hi). f_equal. symmetry. apply idle_count; [apply Hi|apply (pi_waiters _ Hi)].
Qed.

(** ** The number of threads *)

(** [n_threads] counts the threads, those about to be created, and [k] more that never
    will be. *)
Definition counted (k : nat) (p : work_pool) (T : gmap nat work_pool_thread) : Prop :=
  p_n_threads p = Z.of_nat (size T + spawning T + k) ∧ p_n_threads p < 2 ^ 32.

(** The same for the other threads while one has the mutex. *)
Definition counted_rest (k : nat) (p : work_pool) (O : gmap nat work_pool_thread) : Prop :=
  p_n_threads p = Z.of_nat (S (size O + spawning O + k)) ∧ p_n_threads p < 2 ^ 32.

Lemma counted_split k p T t w :
  T !! t = Some w → t_pc w ≠ Spawning → counted k p T → counted_rest k p (delete t T).
Proof.
  intros Ht Hp [E H]. split; [|done]. rewrite E, (spawning_split T t w Ht). unfold is_spawning.
  rewrite decide_False by done. rewrite <- (insert_delete_id T t w Ht) at 1.
  rewrite map_size_insert_None by apply lookup_delete_eq. lia.
Qed.

Lemma counted_insert k p O t w :
  O !! t = None → is_spawning w = 0%nat → counted_rest k p O → counted k p (<[t := w]> O).
Proof.
  intros Ho Hw [E H]. split; [|done]. rewrite E, map_size_insert_None, spawning_insert, Hw by done. lia.
Qed.

Lemma counted_run_work k p O t w :
  O !! t = None → counted_rest k p O →
  let r := run_work p w in counted k r.1 (<[t := r.2]> O).
Proof.
  intros Ho [E H] r. unfold r, run_work. destruct (_ <? _), (p_n_threads p <? _) eqn:El; cbn [andb fst snd];
    try (by apply counted_insert). apply Z.ltb_lt in El.
  pose proof (wrapu_range 32 (thrd_max (p_params p)) ltac:(lia)) as Hm. red in Hm.
  split; cbn; rewrite wrapu_id by (unfold is_u; lia); [|lia].
  rewrite map_size_insert_None, spawning_insert by done. rewrite E.
  change (is_spawning (set_pc Spawning w)) with 1%nat. lia.
Qed.

Lemma counted_loop_top k p O t w :
  O !! t = None → counted_rest k p O → let r := loop_top t p w in counted k r.1 (<[t := r.2]> O).
Proof.
  intros Ho Hc. unfold loop_top. destruct (t_work w); [by apply counted_run_work|].
  destruct (p_queue p); [|by apply counted_run_work]. by apply counted_insert.
Qed.

Lemma counted_wait_return k s t w rc p r :
  counted k (s_pool s) (s_threads s) → s_threads s !! t = Some w → t_pc w = Waiting →
  wait_return t (s_pool s) w rc = (p, r) →
  match r with
  | Some w' => counted k p (<[t := w']> (s_threads s))
  | None => counted k p (delete t (s_threads s))
  end.
Proof.
  intros Hc Ht Hp E. apply (counted_split k _ _ t w Ht) in Hc; [|congruence].
  unfold wait_return in E. destruct (t_wakeup w).
  { destruct (loop_top _ _ _) as [p' w'] eqn:El. injection E as <- <-. rewrite <- insert_delete_eq.
    pose proof (counted_loop_top k _ _ t w (lookup_delete_eq _ _) Hc) as H. by rewrite El in H. }
  set (p1 := set_waiters _ _ _) in E.
  assert (Hl : counted k (set_n_threads (u32 (p_n_threads p1 - 1)) p1) (delete t (s_threads s))).
  { destruct Hc as [E1 H1]. split; cbn; rewrite wrapu_id by (unfold is_u; lia); lia. }
  destruct (_ && _); [by injection E as <- <-|]. destruct (_ <? _); [|by injection E as <- <-].
  destruct (loop_top _ _ _) as [p' w'] eqn:El. injection E as <- <-. rewrite <- insert_delete_eq.
  pose proof (counted_loop_top k p1 _ t w (lookup_delete_eq _ _) Hc) as H. by rewrite El in H.
Qed.

Lemma counted_spawned k s t w rc :
  counted k (s_pool s) (s_threads s) → s_threads s !! t = Some w → t_pc w = Spawning →
  let s' := (work_pool_spawn (with_threads (<[t := set_pc Running w]> (s_threads s)) s) rc).2 in
  counted (if decide (rc = 0) then k else S k) (s_pool s') (s_threads s').
Proof.
  intros [E H] Ht Hp. rewrite (spawning_split _ t w Ht) in E. unfold is_spawning in E. rewrite decide_True in E by done.
  rewrite <- (insert_delete_id _ t w Ht) in E at 1. rewrite map_size_insert_None in E by apply lookup_delete_eq.
  unfold work_pool_spawn. destruct (Z.eqb_spec rc 0) as [Er|Er]; cbn [negb snd].
  - rewrite decide_True by done. split; [|done]. cbn.
    assert (Hf : <[t := set_pc Running w]> (s_threads s) !! fresh (dom (<[t := set_pc Running w]> (s_threads s))) = None)
      by (apply not_elem_of_dom, is_fresh).
    rewrite map_size_insert_None, spawning_insert by done.
    rewrite <- insert_delete_eq, map_size_insert_None, spawning_insert by apply lookup_delete_eq.
    change (is_spawning (set_pc Running w)) with 0%nat. change (is_spawning (mk_wpt Starting None false 0)) with 0%nat. lia.
  - rewrite decide_False by done. split; [|done]. cbn.
    rewrite <- insert_delete_eq, map_size_insert_None, spawning_insert by apply lookup_delete_eq.
    change (is_spawning (set_pc Running w)) with 0%nat. lia.
Qed.

Lemma counted_caller k s s' :
  counted k (s_pool s) (s_threads s) → caller_step s s' → counted k (s_pool s') (s_threads s').
Proof.
  intros Hc Hs. destruct Hs as [e _|l1 e l2 s' _ E|params _ _ _|]; try done.
  - unfold submit_locked in E. cbn in E. destruct (last _) as [t|].
    + destruct (s_threads s !! t) as [w|] eqn:Ht; [|done]. cbn in E. destruct (t_wakeup w); [done|]. injection E as <-.
      destruct Hc as [E H]. split; [|done]. cbn. rewrite E, map_size_insert_Some by eauto.
      rewrite <- insert_delete_eq, spawning_insert by apply lookup_delete_eq. rewrite (spawning_split _ t w Ht).
      unfold is_spawning. done.
    + destruct (negb _); [done|]. by injection E as <-.
  - unfold work_pool_update. by destruct (negb _).
Qed.

Lemma counted_step k s s' :
  counted k (s_pool s) (s_threads s) → pool_step s s' → counted k (s_pool s') (s_threads s').
Proof.
  intros Hc [Hs|[Hs|Hs]]; [| |by eapply counted_caller].
  - destruct Hs as [t w Ht Hp|t w Ht Hp|t w e Ht Hp He|t w rc p w' Ht Hp Hw E].
    + rewrite locked_eq. apply counted_loop_top; [apply lookup_delete_eq|].
      apply (counted_split k _ _ t w Ht) in Hc; [exact Hc|congruence].
    + exact (counted_spawned k s t w 0 Hc Ht Hp).
    + rewrite locked_eq. apply counted_loop_top; [apply lookup_delete_eq|].
      apply (counted_split k _ _ t w Ht) in Hc; [exact Hc|congruence].
    + exact (counted_wait_return k s t w rc p (Some w') Hc Ht Hp E).
  - destruct Hs as [t w rc p w' Ht Hp _ _ E|t w rc p Ht Hp _ _ E].
    + exact (counted_wait_return k s t w rc p (Some w') Hc Ht Hp E).
    + exact (counted_wait_return k s t w rc p None Hc Ht Hp E).
Qed.

(** ** Progress *)

Lemma loop_top_params t p w : p_params (loop_top t p w).1 = p_params p.
Proof.
  unfold loop_top, run_work. destruct (t_work w); [cbn; by destruct (_ && _)|].
  destruct (p_queue p); [done|]. cbn. by destruct (_ && _).
Qed.

(** As long as the pool is not shut down there is a thread, and one is wanted. *)
Definition alive (s : sys) : Prop :=
  thrd_max (p_params (s_pool s)) ≠ 0 → 1 ≤ thrd_min (p_params (s_pool s)) ∧ s_threads s ≠ ∅.

Lemma alive_insert s p t w (T : gmap nat work_pool_thread) calls sub don :
  alive s → p_params p = p_params (s_pool s) → alive (mk_sys p (<[t := w]> T) calls sub don).
Proof. intros Ha Hp Hm. cbn in *. rewrite Hp in *. split; [by apply Ha|apply insert_non_empty]. Qed.

Lemma wait_return_some_params t p w rc p' w' :
  wait_return t p w rc = (p', Some w') → p_params p' = p_params p.
Proof.
  unfold wait_return. destruct (t_wakeup w).
  - pose proof (loop_top_params t p w) as H. destruct (loop_top _ _ _). by intros [= <- <-].
  - destruct (_ && _); [done|]. destruct (_ <? _); [|done].
    pose proof (loop_top_params t (set_waiters (filter (λ t', t' ≠ t) (p_waiters p)) (p_qcount p - 1) p) w) as H.
    destruct (loop_top _ _ _). by intros [= <- <-].
Qed.

Lemma alive_worker s s' : alive s → worker_step s s' → alive s'.
Proof.
  intros Ha Hs. destruct Hs as [t w Ht Hp|t w Ht Hp|t w e Ht Hp He|t w rc p w' Ht Hp Hw E].
  - apply (alive_insert s); [done|]. unfold thread_start. by rewrite loop_top_params.
  - by apply (alive_insert s).
  - apply (alive_insert s); [done|]. unfold work_done. by rewrite loop_top_params.
  - apply (alive_insert s); [done|]. by eapply wait_return_some_params.
Qed.

(** The last thread does not leave. *)
Lemma alive_timeout s s' : pool_inv s → alive s → timeout_step s s' → alive s'.
Proof.
  intros Hi Ha Hs. destruct Hs as [t w rc p w' Ht Hp Hw _ E|t w rc p Ht Hp Hw Hrc E].
  { apply (alive_insert s); [done|]. by eapply wait_return_some_params. }
  unfold wait_return in E. rewrite Hw in E. destruct (_ && _) eqn:Eb.
  { unfold ETIMEDOUT in *. destruct Hrc as [-> | ->]; done. }
  destruct (_ <? _) eqn:El; [by destruct (loop_top _ _ _)|]. apply Z.ltb_ge in El. injection E as <-. cbn in El.
  intros Hm. cbn in Hm. destruct (Ha Hm) as [H1 _]. split; [exact H1|]. cbn.
  destruct (inv_rest_idle s t w Hi Ht (conj Hp Hw)) as [_ Hc _ Hws _ _]. cbn in Hc, Hws.
  destruct (filter _ _) as [|t' l]; [cbn in Hc; lia|].
  destruct (proj1 (Hws t')) as (w' & Ht' & _); [set_solver|]. intros E. by rewrite E in Ht'.
Qed.

Lemma alive_caller s s' : alive s → caller_step s s' → alive s'.
Proof.
  intros Ha Hs. destruct Hs as [e _|l1 e l2 s' _ E|params Hm Hp _|]; [done| | |by intros ?].
  - unfold submit_locked in E. cbn in E. destruct (last _) as [t|].
    + destruct (s_threads s !! t) as [w|]; [|done]. cbn in E. destruct (t_wakeup w); [done|]. injection E as <-.
      by apply (alive_insert s).
    + destruct (negb _); [done|]. by injection E as <-.
  - intros Hm'. destruct (Ha Hm) as [H1 H2]. unfold work_pool_update in *. destruct (negb _); cbn in *; [done|]. split; [lia|done].
Qed.

#[global] Instance sum_list_perm : Proper ((≡ₚ) ==> (=)) sum_list.
Proof. induction 1; cbn; lia. Qed.

(** Weights: [wi] for a thread that waits, [wa] for one with something to do, [ws] for one
    about to create another, [wq] for work on the queue. *)
Section Measure.
Context (wi wa ws wq : nat) (Hia : (wi < wa)%nat) (Has : (2 * wa < ws)%nat) (Hsq : (ws < wa + wq)%nat).

Definition weigh (w : work_pool_thread) : nat :=
  match t_pc w with
  | Starting | Running => wa
  | Spawning => ws
  | Waiting => if t_wakeup w then wa else wi
  end.
Definition weight (T : gmap nat work_pool_thread) : nat := sum_list (weigh <$> thr T).
Definition measure (s : sys) : nat := wq * length (p_queue (s_pool s)) + weight (s_threads s).

Lemma weight_split T t w : T !! t = Some w → weight T = (weigh w + weight (delete t T))%nat.
Proof. intros H. unfold weight. by rewrite (thr_split T t w H). Qed.

Lemma weight_insert T t w : T !! t = None → weight (<[t := w]> T) = (weigh w + weight T)%nat.
Proof. intros H. unfold weight. by rewrite (thr_insert T t w H). Qed.

(** A thread that comes out of the mutex weighs less, with the queue, than one with
    something to do. *)
Lemma measure_loop_top t p w O calls sub don :
  O !! t = None → t_work w = None →
  let r := loop_top t p w in
  (measure (mk_sys r.1 (<[t := r.2]> O) calls sub don) < wq * length (p_queue p) + wa + weight O)%nat.
Proof.
  intros Ho Hw. unfold loop_top. rewrite Hw. unfold measure. destruct (p_queue p) as [|e q] eqn:Eq; cbn [fst snd s_pool s_threads].
  - cbn [p_queue set_waiters]. rewrite Eq, weight_insert by done. cbn. lia.
  - unfold run_work. destruct (_ && _); cbn [fst snd p_queue set_queue set_n_threads]; rewrite weight_insert by done; cbn; lia.
Qed.

Lemma measure_worker s s' : pool_inv s → worker_step s s' → (measure s' < measure s)%nat.
Proof.
  intros Hi Hs. destruct Hs as [t w Ht Hp|t w Ht Hp|t w e Ht Hp He|t w rc p w' Ht Hp Hw E];
    pose proof (pi_work _ Hi _ _ Ht) as Hwk; red in Hwk; rewrite Hp in Hwk;
    unfold measure at 2; rewrite (weight_split _ t w Ht); unfold weigh at 1; rewrite Hp, ?Hw.
  - rewrite locked_eq. unfold thread_start. eapply Nat.lt_le_trans; [apply measure_loop_top; [apply lookup_delete_eq|done]|].
    cbn. lia.
  - unfold work_pool_spawn, measure. cbn [negb Z.eqb snd s_pool s_threads with_threads].
    rewrite weight_insert by (apply not_elem_of_dom, is_fresh).
    rewrite <- insert_delete_eq, weight_insert by apply lookup_delete_eq. cbn. lia.
  - rewrite locked_eq. unfold work_done. eapply Nat.lt_le_trans; [apply measure_loop_top; [apply lookup_delete_eq|done]|].
    cbn. lia.
  - unfold wait_return in E. rewrite Hw in E. destruct (loop_top _ _ _) as [p' w''] eqn:El. injection E as <- <-.
    rewrite locked_eq. eapply Nat.lt_le_trans; [|rewrite Nat.add_assoc; reflexivity].
    pose proof (measure_loop_top t (s_pool s) w (delete t (s_threads s)) (s_calls s) (g_submitted s) (g_done s ++ [])
      (lookup_delete_eq _ _) Hwk) as H. by rewrite El in H.
Qed.
End Measure.

Lemma reach_inv params s0 s :
  started params s0 → rtc pool_step s0 s → pool_inv s ∧ alive s ∧ counted 0 (s_pool s) (s_threads s).
Proof.
  intros H0 Hr.
  apply (rtc_ind_r (R := pool_step) (λ s, pool_inv s ∧ alive s ∧ counted 0 (s_pool s) (s_threads s)) s0); [| |exact Hr].
  - split; [by eapply started_inv|]. apply started_eq in H0 as (lo & hi & t & Hlo & _ & ->). split.
    + intros _. cbn. split; [lia|]. apply insert_non_empty.
    + split; [|done]. cbn. by rewrite spawning_insert, map_size_insert_None by apply lookup_empty.
  - intros a b _ Hs (Hi & Ha & Hc). split; [eapply inv_step; eauto|]. split; [|by eapply counted_step].
    destruct Hs as [?|[?|?]]; [by eapply alive_worker|by eapply alive_timeout|by eapply alive_caller].
Qed.

(** A thread that is not idle has a step. *)
Lemma active_steps s t w :
  pool_inv s → s_threads s !! t = Some w → ¬ idle w → ∃ s', worker_step s s'.
Proof.
  intros Hi Ht Hn. pose proof (pi_work _ Hi _ _ Ht) as Hwk. red in Hwk. destruct (t_pc w) eqn:Hp.
  - eexists. by eapply step_start.
  - eexists. by eapply step_spawn.
  - destruct Hwk as [e He]. eexists. by eapply step_work.
  - destruct (t_wakeup w) eqn:Hw; [|by destruct Hn].
    destruct (loop_top t (s_pool s) w) as [p w'] eqn:El. eexists. eapply (step_woken s t w 0 p w'); try done.
    unfold wait_return. by rewrite Hw, El.
Qed.

(** Where no thread has anything to do, all work is done. *)
Lemma stuck_done s :
  pool_inv s → (p_queue (s_pool s) ≠ [] → s_threads s ≠ ∅) → (∀ s', ¬ worker_step s s') →
  p_queue (s_pool s) = [] ∧ g_done s ≡ₚ g_submitted s.
Proof.
  intros Hi Hne Hst. assert (Hid : ∀ t w, s_threads s !! t = Some w → idle w).
  { intros t w Ht. apply dec_stable. intros Hn. destruct (active_steps s t w Hi Ht Hn) as [s' H]. by eapply Hst. }
  assert (Hq : p_queue (s_pool s) = []).
  { apply dec_stable. intros Hq. destruct (pi_active _ Hi Hq (Hne Hq)) as (t & w & Ht & Hn). by apply Hn, (Hid t). }
  split; [done|]. rewrite (pi_ledger _ Hi), Hq. cbn. assert (held (s_threads s) = []) as ->; [|done].
  unfold held. assert (Hw : ∀ w, w ∈ thr (s_threads s) → t_work w = None).
  { intros w [t Ht]%thr_lookup. pose proof (pi_work _ Hi _ _ Ht) as H. red in H. destruct (Hid t w Ht) as [E _]. by rewrite E in H. }
  induction (thr (s_threads s)) as [|w l IH]; [done|]. cbn. rewrite Hw by (by left). apply IH.
  intros w' Hw'. apply Hw. by right.
Qed.

(** Runs along which a measure decreases are finite. *)
Lemma acc_measure (R : sys → sys → Prop) (I : sys → Prop) (m : sys → nat) :
  (∀ a b, I a → R a b → I b ∧ (m b < m a)%nat) → ∀ s, I s → Acc (λ b a, R a b) s.
Proof.
  intros Hd s. remember (m s) as n eqn:En. revert s En.
  induction n as [n IH] using lt_wf_ind. intros s -> Hs. constructor. intros b Hb.
  destruct (Hd s b Hs Hb) as [HI Hlt]. by eapply IH.
Qed.

Lemma worker_submitted s s' : worker_step s s' → g_submitted s' = g_submitted s.
Proof. by destruct 1. Qed.

Lemma worker_threads s s' : worker_step s s' → s_threads s' ≠ ∅.
Proof. destruct 1; apply insert_non_empty. Qed.

(** C32. Queued work gets done: from every state of a running pool, however the threads are
    scheduled, only finitely many steps are possible before no thread has anything left
    to do, and by then every work submitted so far has been done.  (New submissions
    start such a run anew; no help of time limits is needed, so no wake-up is missing.) *)
Theorem pool_work_gets_done params s0 s :
  started params s0 → rtc pool_step s0 s → thrd_max (p_params (s_pool s)) ≠ 0 →
  Acc (λ b a, worker_step a b) s ∧
  ∀ s', rtc worker_step s s' → (∀ s'', ¬ worker_step s' s'') → g_done s' ≡ₚ g_submitted s.
Proof.
  intros H0 Hr Hm. destruct (reach_inv params s0 s H0 Hr) as (Hi & Ha & _). split.
  - apply (acc_measure worker_step pool_inv (measure 0 1 3 3)); [|done]. intros a b Hia Hab.
    split; [by eapply inv_worker|]. apply measure_worker; [lia..|done|done].
  - intros s' Hrun Hst.
    assert (pool_inv s' ∧ s_threads s' ≠ ∅ ∧ g_submitted s' = g_submitted s) as (Hi' & Hne & Hsub).
    { apply (rtc_ind_r (R := worker_step) (λ c, pool_inv c ∧ s_threads c ≠ ∅ ∧ g_submitted c = g_submitted s) s);
        [split; [done|]; split; [by apply Ha|done]| |done].
      intros a b _ Hab (Hia & _ & Hs). split; [by eapply inv_worker|]. split; [by eapply worker_threads|].
      by rewrite (worker_submitted _ _ Hab). }
    rewrite <- Hsub. by apply stuck_done.
Qed.

(** ** Shutdown *)

(** What is kept while the threads of a pool that was shut down finish. *)
Record stopping (sub : list Z) (s : sys) : Prop := {
  so_inv : pool_inv s;
  so_count : counted 0 (s_pool s) (s_threads s);
  so_min : thrd_min (p_params (s_pool s)) = 0;
  so_served : p_queue (s_pool s) ≠ [] → s_threads s ≠ ∅;
  so_sub : g_submitted s = sub;
}.

Lemma worker_params s s' : worker_step s s' → p_params (s_pool s') = p_params (s_pool s).
Proof.
  destruct 1 as [t w Ht Hp|t w Ht Hp|t w e Ht Hp He|t w rc p w' Ht Hp Hw E]; [| done| |].
  - cbn. unfold thread_start. by rewrite loop_top_params.
  - apply loop_top_params.
  - by eapply wait_return_some_params.
Qed.

(** With no thread wanted, one that was not woken leaves. *)
Lemma stopping_leaves s t w rc :
  pool_inv s → thrd_min (p_params (s_pool s)) = 0 → s_threads s !! t = Some w → t_pc w = Waiting → t_wakeup w = false →
  ∃ p, wait_return t (s_pool s) w rc = (p, None) ∧ p_params p = p_params (s_pool s) ∧ p_queue p = p_queue (s_pool s).
Proof.
  intros Hi Hmin Ht Hp Hw. unfold wait_return. rewrite Hw. destruct (_ && _); [by eexists|].
  destruct (inv_rest_idle s t w Hi Ht (conj Hp Hw)) as [_ Hc _ _ _ _]. cbn in Hc. cbn [p_qcount set_waiters p_params].
  rewrite Hmin, (proj2 (Z.ltb_ge _ _)) by lia. by eexists.
Qed.

Lemma stopping_step sub s s' :
  stopping sub s → worker_step s s' ∨ timeout_step s s' →
  stopping sub s' ∧ (measure 1 2 5 4 s' < measure 1 2 5 4 s)%nat.
Proof.
  intros [Hi Hc Hm Hs Hsub] [Hst|Hst].
  - split; [|apply measure_worker; [lia..|done|done]]. constructor.
    + by eapply inv_worker.
    + eapply counted_step; [done|by left].
    + by rewrite (worker_params _ _ Hst).
    + intros _. by eapply worker_threads.
    + by rewrite (worker_submitted _ _ Hst).
  - pose proof (inv_timeout _ _ Hi Hst) as Hi'. assert (Hc' : counted 0 (s_pool s') (s_threads s')).
    { eapply counted_step; [done|]. right. by left. }
    destruct Hst as [t w rc p w' Ht Hp Hw Hrc E|t w rc p Ht Hp Hw Hrc E];
      destruct (stopping_leaves s t w rc Hi Hm Ht Hp Hw) as (p' & E' & Hpp & Hq); rewrite E in E'; [done|].
    injection E' as <-. split.
    + constructor; [done|done|cbn; by rewrite Hpp| |done]. cbn. rewrite Hq. intros Hne.
      destruct (pi_active _ Hi Hne (Hs Hne)) as (t' & w' & Ht' & Hn). intros E0.
      assert (Hl : delete t (s_threads s) !! t' = Some w').
      { rewrite lookup_delete_ne; [done|]. intros <-. rewrite Ht in Ht'. injection Ht' as <-. by apply Hn. }
      by rewrite E0 in Hl.
    + unfold measure. cbn. rewrite Hq, (weight_split _ _ _ _ t w Ht). unfold weigh at 1. rewrite Hp, Hw. lia.
Qed.

(** C33. Shutdown ends: once [work_pool_shutdown] has changed the limits of a running pool and
    nothing more is submitted, the threads take only finitely many steps, however they
    are scheduled and whichever waits end first; and when none is possible any more,
    [n_threads] is 0, for which shutdown waits, the queue is empty and all work submitted
    has been done.  This is for a pool in which no [pthread_create] and no wait has failed,
    before or after, and whose limits were changed to such as [svc_init] passes only: a
    thread that could not be created is counted for ever, and then shutdown does not end
    ([pool_spawn_failure_counted]). *)
Theorem pool_shutdown_ends params s0 s :
  started params s0 → rtc pool_step s0 s → thrd_max (p_params (s_pool s)) ≠ 0 →
  let R a b := worker_step a b ∨ timeout_step a b in
  let s1 := with_pool (shutdown_begin (s_pool s)) s in
  Acc (λ b a, R a b) s1 ∧
  ∀ s', rtc R s1 s' → (∀ s'', ¬ R s' s'') →
    p_n_threads (s_pool s') = 0 ∧ p_queue (s_pool s') = [] ∧ g_done s' ≡ₚ g_submitted s.
Proof.
  intros H0 Hr Hm R s1. destruct (reach_inv params s0 s H0 Hr) as (Hi & Ha & Hc).
  assert (H1 : stopping (g_submitted s) s1).
  { constructor; [by apply inv_params|done|done| |done]. intros _. by apply Ha. }
  split.
  { apply (acc_measure R (stopping (g_submitted s)) (measure 1 2 5 4)); [|done]. intros a b. apply stopping_step. }
  intros s' Hrun Hst. assert (Hs' : stopping (g_submitted s) s').
  { apply (rtc_ind_r (R := R) (stopping (g_submitted s)) s1); [done| |done]. intros a b _ Hab Hst'.
    by eapply stopping_step. }
  destruct Hs' as [Hi' Hc' Hm' Hsv Hsub].
  destruct (stuck_done s' Hi' Hsv) as [Hq Hd]; [intros s'' H; by eapply Hst; left|].
  assert (HT : s_threads s' = ∅).
  { apply map_empty. intros t. apply eq_None_not_Some. intros [w Ht]. destruct (decide (idle w)) as [[Hp Hw]|Hn].
    - destruct (stopping_leaves s' t w 0 Hi' Hm' Ht Hp Hw) as (p & E & _).
      eapply Hst. right. eapply (step_leave s' t w 0 p); [done..|by left|done].
    - destruct (active_steps s' t w Hi' Ht Hn) as [s'' H]. eapply Hst. by left. }
  split; [|split; [done|by rewrite <- Hsub]]. destruct Hc' as [E _]. by rewrite E, HT.
Qed.

(** A thread that cannot be created is counted all the same: after one failure of
    [pthread_create] in a worker, [n_threads] never becomes 0 again, so that
    [work_pool_shutdown] never returns. *)
Theorem pool_spawn_failure_counted params s0 s t w rc s2 :
  started params s0 → rtc pool_step s0 s →
  s_threads s !! t = Some w → t_pc w = Spawning → rc ≠ 0 →
  rtc pool_step (work_pool_spawn (with_threads (<[t := set_pc Running w]> (s_threads s)) s) rc).2 s2 →
  p_n_threads (s_pool s2) ≠ 0.
Proof.
  intros H0 Hr Ht Hp Hrc Hr2. destruct (reach_inv params s0 s H0 Hr) as (_ & _ & Hc).
  pose proof (counted_spawned 0 s t w rc Hc Ht Hp) as H1. cbv zeta in H1. rewrite decide_False in H1 by done.
  set (s1 := (work_pool_spawn _ rc).2) in *.
  assert (counted 1 (s_pool s2) (s_threads s2)) as [E _]; [|lia].
  apply (rtc_ind_r (R := pool_step) (λ c, counted 1 (s_pool c) (s_threads c)) s1); [done| |done].
  intros a b _ Hab Hca. by eapply counted_step.
Qed.

(** ** A run *)

(** A pool of two to four threads, with one work entry submitted and taken. *)
Definition demo_params : work_pool_params := mk_params 4 2 0.
Definition demo0 : sys := (work_pool_init demo_params 0 0 0 0 0).2.
Definition demo1 : sys := with_calls [7] demo0.
Definition demo2 : sys := match submit_locked (with_calls [] demo1) 7 with Ret s => s | _ => demo1 end.
Definition demo_wpt : work_pool_thread := mk_wpt Starting None false 0.
Definition demo3 : sys := locked demo2 0 (thread_start 0 (s_pool demo2) demo_wpt) [].

Lemma demo_started : started demo_params demo0.
Proof. by exists 0. Qed.

Lemma demo_run : rtc pool_step demo0 demo3.
Proof.
  apply (rtc_l _ _ demo1); [right; right; by apply (step_submit_test demo0 7)|].
  apply (rtc_l _ _ demo2); [right; right; by apply (step_submit demo1 [] 7 [])|].
  apply rtc_once. left. by apply step_start.
Qed.

Lemma pool_nothing_lost_witness :
  [7] ≡ₚ held (s_threads demo3) ∧ ∀ e, ∃ s', submit_locked demo3 e = Ret s'.
Proof.
  destruct (pool_nothing_lost demo_params demo0 demo3 demo_started) as (H1 & _ & H3).
  { eapply rtc_subrel; [|exact demo_run]. intros a b H. by left. }
  split; [|exact H3]. cbn in H1. by rewrite app_nil_r in H1.
Defined.

Lemma pool_work_gets_done_witness :
  Acc (λ b a, worker_step a b) demo3 ∧
  ∀ s', rtc worker_step demo3 s' → (∀ s'', ¬ worker_step s' s'') → g_done s' ≡ₚ [7].
Proof. apply (pool_work_gets_done demo_params demo0 demo3 demo_started demo_run). by vm_compute. Defined.

Lemma pool_shutdown_ends_witness :
  Acc (λ b a, worker_step a b ∨ timeout_step a b) (with_pool (shutdown_begin (s_pool demo3)) demo3).
Proof. apply (pool_shutdown_ends demo_params demo0 demo3 demo_started demo_run). by vm_compute. Defined.

Lemma pool_spawn_failure_counted_witness :
  p_n_threads (s_pool (work_pool_spawn (with_threads
    (<[0%nat := set_pc Running (mk_wpt Spawning (Some 7) false 1)]> (s_threads demo3)) demo3) 11).2) ≠ 0.
Proof.
  eapply (pool_spawn_failure_counted demo_params demo0 demo3 0 (mk_wpt Spawning (Some 7) false 1) 11);
    [exact demo_started|exact demo_run|by vm_compute|done|done|apply rtc_refl].
Defined.

(** A submitter that tested [thrd_max] before the shutdown and gets the mutex after the last
    thread has left puts its work on a queue that no one reads. *)
Theorem pool_late_submit_lost :
  ∃ s, rtc pool_step demo0 s ∧ p_queue (s_pool s) = [7] ∧ p_n_threads (s_pool s) = 0 ∧
    (∀ s', ¬ worker_step s s') ∧ (∀ s', ¬ timeout_step s s').
Proof.
  set (d2 := with_pool (shutdown_begin (s_pool demo1)) demo1).
  set (d3 := locked d2 0 (thread_start 0 (s_pool d2) demo_wpt) []).
  set (w3 := mk_wpt Waiting None false 1).
  set (p4 := (wait_return 0 (s_pool d3) w3 ETIMEDOUT).1).
  set (d4 := with_pool p4 (with_threads (delete 0%nat (s_threads d3)) d3)).
  set (d5 := match submit_locked (with_calls [] d4) 7 with Ret s => s | _ => d4 end).
  exists d5. split; [|split; [by vm_compute|split; [by vm_compute|]]].
  - apply (rtc_l _ _ demo1); [right; right; by apply (step_submit_test demo0 7)|].
    apply (rtc_l _ _ d2); [right; right; apply step_shutdown|].
    apply (rtc_l _ _ d3); [left; by apply step_start|].
    apply (rtc_l _ _ d4); [right; left; by apply (step_leave d3 0 w3 ETIMEDOUT p4); [..|right|]|].
    apply rtc_once. right. right. by apply (step_submit d4 [] 7 []).
  - assert (HT : s_threads d5 = ∅) by (by vm_compute).
    split; intros s'; destruct 1; rewrite HT, lookup_empty in *; done.
Qed.
