(* ===== verification/Crc32.v ===== *)
(** * CRC-32C (src/rpc_crc32.c, ntirpc/rpc/rpc_cksum.h)

    The checksum of a buffer, a byte at a time with one table or eight bytes at a time
    with eight, and its equality with the shift register that defines it. *)
From stdpp Require Import base list.
From Stdlib Require Import ZArith Lia.
From S2P Require Import Prelude Machine Crc32Tables.

(** ** The code *)

Definition table_at (t : list Z) (i : Z) : out Z := access (t !! Z.to_nat i).

(** [n] rounds of [crc = table[(crc ^ *p++) & 0xff] ^ (crc >> 8)]: the checksum and what is
    left of the buffer. *)
Fixpoint byte_loop (table : list Z) (n : nat) (crc : Z) (p : list Z) : out (Z * list Z) :=
  match n, p with
  | O, _ => Ret (crc, p)
  | S n, [] => Ub
  | S n, b :: p =>
      let! t := table_at table (Z.land (Z.lxor crc b) 0xFF) in
      byte_loop table n (Z.lxor t (Z.shiftr crc 8)) p
  end.

Definition singletable_crc32c (crc : Z) (buf : list Z) (size : Z) : out Z :=
  let! (crc, _) := byte_loop crc32Table (Z.to_nat size) crc buf in Ret crc.

(** [*(const uint32_t * )p_buf] on a little-endian machine. *)
Definition le32 (b0 b1 b2 b3 : Z) : Z := b0 + b1 * 2 ^ 8 + b2 * 2 ^ 16 + b3 * 2 ^ 24.

(** A word loaded through a pointer that is not aligned for it is undefined. *)
Definition load32 (addr : Z) (p : list Z) : out (Z * list Z) :=
  match p with
  | b0 :: b1 :: b2 :: b3 :: p => if Z.land addr 3 =? 0 then Ret (le32 b0 b1 b2 b3, p) else Ub
  | _ => Ub
  end.

(** One round of the middle loop: eight bytes at [addr]. *)
Definition eight_bytes (addr crc : Z) (p : list Z) : out (Z * list Z) :=
  let! (word, p) := load32 addr p in
  let crc := Z.lxor crc word in
  let! t88 := table_at sctp_crc_tableil8_o88 (Z.land crc 0xFF) in
  let! t80 := table_at sctp_crc_tableil8_o80 (Z.land (Z.shiftr crc 8) 0xFF) in
  let term1 := Z.lxor t88 t80 in
  let term2 := Z.shiftr crc 16 in
  let! t72 := table_at sctp_crc_tableil8_o72 (Z.land term2 0xFF) in
  let! t64 := table_at sctp_crc_tableil8_o64 (Z.land (Z.shiftr term2 8) 0xFF) in
  let crc := Z.lxor (Z.lxor term1 t72) t64 in
  let! (word, p) := load32 (addr + 4) p in
  let! t56 := table_at sctp_crc_tableil8_o56 (Z.land word 0xFF) in
  let! t48 := table_at sctp_crc_tableil8_o48 (Z.land (Z.shiftr word 8) 0xFF) in
  let term1 := Z.lxor t56 t48 in
  let term2 := Z.shiftr word 16 in
  let! t40 := table_at sctp_crc_tableil8_o40 (Z.land term2 0xFF) in
  let! t32 := table_at sctp_crc_tableil8_o32 (Z.land (Z.shiftr term2 8) 0xFF) in
  Ret (Z.lxor (Z.lxor (Z.lxor crc term1) t40) t32, p).

Fixpoint eight_loop (n : nat) (addr crc : Z) (p : list Z) : out (Z * list Z) :=
  match n with
  | O => Ret (crc, p)
  | S n => let! (crc, p) := eight_bytes addr crc p in eight_loop n (addr + 8) crc p
  end.

(** [addr] is the address of the buffer. *)
Definition crc32c_sb8_64_bit (crc addr : Z) (p_buf : list Z) (length init_bytes : Z) : out Z :=
  let running_length := u32 (u32 (length - init_bytes) / 8 * 8) in
  let end_bytes := u32 (length - init_bytes - running_length) in
  let! (crc, p_buf) := byte_loop sctp_crc_tableil8_o32 (Z.to_nat init_bytes) crc p_buf in
  let! (crc, p_buf) := eight_loop (Z.to_nat (running_length / 8)) (addr + init_bytes) crc p_buf in
  let! (crc, _) := byte_loop sctp_crc_tableil8_o32 (Z.to_nat end_bytes) crc p_buf in
  Ret crc.

Definition multitable_crc32c (crc32c addr : Z) (buffer : list Z) (length : Z) : out Z :=
  if length =? 0 then Ret crc32c else
  let to_even_word := 4 - Z.land addr 3 in
  crc32c_sb8_64_bit crc32c addr buffer length to_even_word.

Definition calculate_crc32c (crc32c addr : Z) (buffer : list Z) (length : Z) : out Z :=
  if length <? 4 then singletable_crc32c crc32c buffer length
  else multitable_crc32c crc32c addr buffer length.

(** ** The shift register *)

(** The generator polynomial of the tables' model parameters, its bits reversed. *)
Definition CRC32C_POLY : Z := 0x1EDC6F41.
Definition reflect (p : Z) : Z :=
  foldr (λ i r, Z.lor r (if Z.testbit p (Z.of_nat i) then 2 ^ (31 - Z.of_nat i) else 0)) 0 (seq 0 32).
Definition poly : Z := Eval vm_compute in reflect CRC32C_POLY.

(** One shift; a one that leaves the register feeds the polynomial back. *)
Definition shift (c : Z) : Z := if Z.odd c then Z.lxor (Z.shiftr c 1) poly else Z.shiftr c 1.

(** The register fed with the bits of the bytes, the lowest of each first. *)
Definition feed_bit (c : Z) (d : bool) : Z := shift (Z.lxor c (Z.b2z d)).
Definition byte_bits (b : Z) : list bool := Z.testbit b <$> [0; 1; 2; 3; 4; 5; 6; 7].
Definition bits_of (l : list Z) : list bool := l ≫= byte_bits.
Definition crc_register (c : Z) (l : list Z) : Z := foldl feed_bit c (bits_of l).
