(* ===== verification/Crc32Theorems.v ===== *)
(** * The checksum is the shift register's (src/rpc_crc32.c)

    A shift is linear in the register, so that feeding bits is shifting the register with the
    bits laid over it; a table holds that shift of each byte, and the eight tables together
    the shift of eight bytes. The shift loses nothing, so that a burst of errors no longer
    than the register always shows. *)
From stdpp Require Import base list.
From Stdlib Require Import ZArith Lia.
From S2P Require Import Prelude Machine Crc32Tables Crc32.

(** ** The shift is linear *)

Lemma odd_lxor a b : Z.odd (Z.lxor a b) = xorb (Z.odd a) (Z.odd b).
Proof. rewrite <- !Z.bit0_odd. apply Z.lxor_spec. Qed.

Lemma shift_lxor a b : shift (Z.lxor a b) = Z.lxor (shift a) (shift b).
Proof.
  unfold shift. rewrite odd_lxor, Z.shiftr_lxor. generalize poly. intros p.
  destruct (Z.odd a), (Z.odd b); cbn [xorb]; apply Z.bits_inj; intros i; rewrite !Z.lxor_spec;
    repeat destruct (Z.testbit _ _); done.
Qed.

Definition sh (n : nat) (c : Z) : Z := Nat.iter n shift c.

Lemma sh_S n c : sh (S n) c = shift (sh n c).
Proof. done. Qed.

Lemma sh_lxor n a b : sh n (Z.lxor a b) = Z.lxor (sh n a) (sh n b).
Proof. induction n as [|n IH]; [done|]. by rewrite !sh_S, IH, shift_lxor. Qed.

Lemma sh_add n m c : sh (n + m) c = sh n (sh m c).
Proof. unfold sh. apply Nat.iter_add. Qed.

(** Zeros that leave feed nothing back. *)
Lemma sh_shiftl n y : sh n (Z.shiftl y (Z.of_nat n)) = y.
Proof.
  induction n as [|n IH]; [apply Z.shiftl_0_r|]. replace (S n) with (n + 1)%nat by lia. rewrite sh_add.
  assert (E : sh 1 (Z.shiftl y (Z.of_nat (n + 1))) = Z.shiftl y (Z.of_nat n)).
  { unfold sh, shift. cbn. rewrite <- Z.bit0_odd, Z.shiftl_spec_low by lia.
    rewrite Z.shiftr_shiftl_l by lia. f_equal. lia. }
  rewrite E. apply IH.
Qed.

Lemma sh_shiftl_more n k y : sh (n + k) (Z.shiftl y (Z.of_nat k)) = sh n y.
Proof. by rewrite sh_add, sh_shiftl. Qed.

(** ** Bits laid over the register *)

Fixpoint val (t : list bool) : Z :=
  match t with [] => 0 | d :: t => Z.lxor (Z.b2z d) (Z.shiftl (val t) 1) end.

Lemma feed_bits t c : foldl feed_bit c t = sh (length t) (Z.lxor c (val t)).
Proof.
  revert c. induction t as [|d t IH]; intros c; [cbn; by rewrite Z.lxor_0_r|].
  cbn [foldl length val]. rewrite IH. replace (S (length t)) with (length t + 1)%nat by lia.
  rewrite <- Z.lxor_assoc, (sh_lxor _ (Z.lxor c _)), (sh_shiftl_more _ 1), (sh_add _ 1). apply sh_lxor.
Qed.

Lemma val_app t t' : val (t ++ t') = Z.lxor (val t) (Z.shiftl (val t') (Zlen t)).
Proof.
  induction t as [|d t IH]; [cbn [app val length]; by rewrite Z.shiftl_0_r|].
  cbn [app val length]. rewrite IH, Z.shiftl_lxor, Z.shiftl_shiftl, Z.lxor_assoc by lia.
  do 3 f_equal. lia.
Qed.

(** ** Widths *)

Lemma lxor_is_u w a b : 0 <= w → is_u w a → is_u w b → is_u w (Z.lxor a b).
Proof.
  intros Hw Ha Hb. rewrite is_u_bits in * by done. intros i Hi. by rewrite Z.lxor_spec, Ha, Hb.
Qed.

Lemma shift_is_u c : is_u 32 c → is_u 32 (shift c).
Proof.
  intros Hc. assert (is_u 32 (Z.shiftr c 1)).
  { rewrite is_u_bits in * by lia. intros i Hi. rewrite Z.shiftr_spec by lia. apply Hc. lia. }
  unfold shift. destruct (Z.odd c); [|done]. by apply lxor_is_u.
Qed.

Lemma sh_is_u n c : is_u 32 c → is_u 32 (sh n c).
Proof. intros. induction n as [|n IH]; [done|]. rewrite sh_S. by apply shift_is_u. Qed.

Lemma low_byte x : is_u 8 (Z.land x 0xFF).
Proof. change 0xFF with (Z.ones 8). rewrite Z.land_ones by lia. apply Z.mod_pos_bound. lia. Qed.

Lemma top_byte x : is_u 32 x → Z.land (Z.shiftr x 24) 0xFF = Z.shiftr x 24.
Proof.
  intros Hx. change 0xFF with (Z.ones 8). rewrite Z.land_ones by lia. apply Z.mod_small.
  rewrite Z.shiftr_div_pow2 by lia. destruct Hx.
  split; [apply Z.div_pos; lia|apply Z.div_lt_upper_bound; lia].
Qed.

(** ** The tables *)

Definition table_ok (n : nat) (t : list Z) : Prop := ∀ i, is_u 8 i → table_at t i = Ret (sh n i).

Lemma table_map n : table_ok n (sh n ∘ Z.of_nat <$> seq 0 256).
Proof.
  intros i [? ?]. unfold table_at. rewrite list_lookup_fmap, lookup_seq_lt by lia.
  cbn [fmap option_fmap option_map compose access]. by rewrite Nat.add_0_l, Z2Nat.id.
Qed.

Lemma tables_ok :
  table_ok 8 crc32Table ∧ table_ok 8 sctp_crc_tableil8_o32 ∧ table_ok 16 sctp_crc_tableil8_o40 ∧
  table_ok 24 sctp_crc_tableil8_o48 ∧ table_ok 32 sctp_crc_tableil8_o56 ∧ table_ok 40 sctp_crc_tableil8_o64 ∧
  table_ok 48 sctp_crc_tableil8_o72 ∧ table_ok 56 sctp_crc_tableil8_o80 ∧ table_ok 64 sctp_crc_tableil8_o88.
Proof. repeat split; apply table_map. Qed.

(** A shift of at least a byte is the shift of the lowest byte with that of the rest. *)
Lemma sh_split n x : sh (n + 8) x = Z.lxor (sh (n + 8) (Z.land x 0xFF)) (sh n (Z.shiftr x 8)).
Proof.
  rewrite <- (sh_shiftl_more n 8 (Z.shiftr x 8)), <- sh_lxor. f_equal. apply Z.bits_inj. intros i.
  change 0xFF with (Z.ones 8). rewrite Z.lxor_spec, Z.land_spec.
  destruct (Z_lt_le_dec i 0); [by rewrite !Z.testbit_neg_r|].
  destruct (Z_lt_le_dec i 8).
  - rewrite Z.ones_spec_low, Z.shiftl_spec_low by lia. by rewrite andb_true_r, xorb_false_r.
  - rewrite Z.ones_spec_high, Z.shiftl_spec, Z.shiftr_spec by lia.
    rewrite andb_false_r, xorb_false_l. f_equal. lia.
Qed.

Lemma sh_word n x : is_u 32 x → sh (n + 32) x =
  Z.lxor (Z.lxor (Z.lxor (sh (n + 32) (Z.land x 0xFF)) (sh (n + 24) (Z.land (Z.shiftr x 8) 0xFF)))
    (sh (n + 16) (Z.land (Z.shiftr x 16) 0xFF))) (sh (n + 8) (Z.land (Z.shiftr x 24) 0xFF)).
Proof.
  intros Hx. rewrite (top_byte x) by done.
  replace (n + 32)%nat with (n + 24 + 8)%nat by lia. rewrite (sh_split _ x).
  replace (n + 24)%nat with (n + 16 + 8)%nat by lia. rewrite (sh_split _ (Z.shiftr x 8)).
  replace (n + 16)%nat with (n + 8 + 8)%nat by lia. rewrite (sh_split _ (Z.shiftr (Z.shiftr x 8) 8)).
  rewrite !Z.shiftr_shiftr by lia. cbn [Z.add Pos.add Pos.succ Pos.add_carry]. by rewrite !Z.lxor_assoc.
Qed.

(** ** The loops *)

Lemma crc_register_app c l l' : crc_register c (l ++ l') = crc_register (crc_register c l) l'.
Proof. unfold crc_register, bits_of. by rewrite bind_app, foldl_app. Qed.

Lemma val_byte b : byte b → val (byte_bits b) = b.
Proof.
  intros [? ?]. assert (E : (val ∘ byte_bits ∘ Z.of_nat <$> seq 0 256) = (Z.of_nat <$> seq 0 256)) by done.
  assert (E' := f_equal (.!! Z.to_nat b) E). cbv beta in E'.
  rewrite !list_lookup_fmap, lookup_seq_lt in E' by lia.
  cbn [fmap option_fmap option_map compose] in E'. injection E' as E'.
  cbn [Nat.add] in E'. by rewrite Z2Nat.id in E'.
Qed.

Lemma register_byte c b : byte b → crc_register c [b] = sh 8 (Z.lxor c b).
Proof.
  intros. unfold crc_register, bits_of. cbn [mbind list_bind]. rewrite app_nil_r, feed_bits.
  by rewrite val_byte.
Qed.

Lemma feed_is_u t c : is_u 32 c → is_u 32 (foldl feed_bit c t).
Proof.
  revert c. induction t as [|d t IH]; intros c Hc; [done|].
  cbn [foldl]. apply IH, shift_is_u, lxor_is_u; [done..|]. by destruct d.
Qed.

Lemma register_is_u c l : is_u 32 c → is_u 32 (crc_register c l).
Proof. apply feed_is_u. Qed.

Lemma byte_step c b : byte b → crc_register c [b] = Z.lxor (sh 8 (Z.land (Z.lxor c b) 0xFF)) (Z.shiftr c 8).
Proof.
  intros [? ?]. rewrite register_byte by done. rewrite (sh_split 0). f_equal. cbn [sh Nat.iter nat_rect].
  rewrite Z.shiftr_lxor, (Z.shiftr_div_pow2 b) by lia. rewrite (Z.div_small b) by lia. apply Z.lxor_0_r.
Qed.

Lemma byte_loop_spec t n c p : table_ok 8 t → bytes p → (n <= length p)%nat →
  byte_loop t n c p = Ret (crc_register c (take n p), drop n p).
Proof.
  intros Ht. revert c p. induction n as [|n IH]; intros c p Hp Hn; [done|].
  destruct p as [|b p]; [cbn in Hn; lia|]. apply Forall_cons in Hp as [Hb Hp]. cbn [byte_loop length take drop] in *.
  rewrite (Ht _ (low_byte _)). cbn [obind]. rewrite IH by (done || lia).
  by rewrite <- byte_step, <- crc_register_app.
Qed.

Lemma le32_val b0 b1 b2 b3 : bytes [b0; b1; b2; b3] →
  le32 b0 b1 b2 b3 = val (bits_of [b0; b1; b2; b3]).
Proof.
  intros Hb. unfold bits_of. cbn [mbind list_bind]. rewrite !val_app. cbn [app val].
  repeat (apply Forall_cons in Hb as [? Hb]). rewrite !val_byte by done.
  cbn [byte_bits fmap list_fmap length Z.of_nat Pos.of_succ_nat Pos.succ].
  assert (A : ∀ b y, byte b → Z.lxor b (Z.shiftl y 8) = b + y * 256).
  { intros b y Hy. rewrite <- Z.add_nocarry_lxor; [by rewrite Z.shiftl_mul_pow2|].
    apply Z.bits_inj. intros i. rewrite Z.land_spec, Z.bits_0. destruct (Z_lt_le_dec i 8).
    - by rewrite Z.shiftl_spec_low, andb_false_r.
    - assert (Hy' : is_u 8 b) by done. rewrite is_u_bits in Hy' by lia. by rewrite Hy'. }
  rewrite Z.shiftl_0_l, Z.lxor_0_r. rewrite !A by done. unfold le32. lia.
Qed.

Lemma val_is_u t : is_u (Zlen t) (val t).
Proof.
  induction t as [|d t IH]; [done|]. cbn [val length]. apply lxor_is_u; [lia|..].
  - assert (2 ^ 1 <= 2 ^ Z.of_nat (S (length t))) by (apply Z.pow_le_mono_r; lia). destruct d; split; cbn in *; lia.
  - rewrite Z.shiftl_mul_pow2 by lia. unfold is_u in *. rewrite Nat2Z.inj_succ, Z.pow_succ_r by lia. lia.
Qed.

Lemma word_aligned x : Z.land x 3 = x mod 4.
Proof. change 3 with (Z.ones 2). by rewrite Z.land_ones. Qed.

Lemma load32_spec addr p : bytes p → (4 <= length p)%nat → addr mod 4 = 0 →
  load32 addr p = Ret (val (bits_of (take 4 p)), drop 4 p) ∧ is_u 32 (val (bits_of (take 4 p))).
Proof.
  intros Hp Hn Ha. unfold load32. rewrite word_aligned, Ha.
  destruct p as [|b0 [|b1 [|b2 [|b3 p]]]]; try (cbn in Hn; lia). cbn [take drop Z.eqb].
  split; [|apply (val_is_u (bits_of [b0; b1; b2; b3]))].
  rewrite le32_val; [done|]. exact (Forall_take _ 4 _ Hp).
Qed.

Lemma register_eight c l l' : length l = 4%nat → length l' = 4%nat →
  crc_register c (l ++ l') = Z.lxor (sh 64 (Z.lxor c (val (bits_of l)))) (sh 32 (val (bits_of l'))).
Proof.
  intros Hl Hl'. assert (L : ∀ l : list Z, length l = 4%nat → length (bits_of l) = 32%nat).
  { intros k Hk. by destruct k as [|? [|? [|? [|? [|]]]]]. }
  rewrite crc_register_app. unfold crc_register. rewrite !feed_bits, !L by done.
  by rewrite sh_lxor, (sh_add 32 32).
Qed.

Lemma eight_bytes_spec addr c p : bytes p → (8 <= length p)%nat → addr mod 4 = 0 → is_u 32 c →
  eight_bytes addr c p = Ret (crc_register c (take 8 p), drop 8 p).
Proof.
  intros Hp Hn Ha Hc. destruct tables_ok as (_ & T32 & T40 & T48 & T56 & T64 & T72 & T80 & T88).
  unfold eight_bytes. destruct (load32_spec addr p) as [-> U1]; [done|lia|done|]. cbn [obind].
  rewrite (T88 _ (low_byte _)), (T80 _ (low_byte _)), (T72 _ (low_byte _)), (T64 _ (low_byte _)). cbn [obind].
  destruct (load32_spec (addr + 4) (drop 4 p)) as [-> U2]; [by apply Forall_drop|len|lia|]. cbn [obind].
  rewrite (T56 _ (low_byte _)), (T48 _ (low_byte _)), (T40 _ (low_byte _)), (T32 _ (low_byte _)). cbn [obind].
  rewrite !Z.shiftr_shiftr by lia. cbn [Z.add Pos.add Pos.succ Pos.add_carry]. do 2 f_equal; [|by rewrite drop_drop].
  change 8%nat with (4 + 4)%nat. rewrite <- take_take_drop, register_eight by len.
  rewrite (sh_word 32 (Z.lxor c _)) by (by apply lxor_is_u). rewrite (sh_word 0 (val _)) by done.
  by rewrite !Z.lxor_assoc.
Qed.

Lemma eight_loop_spec n addr c p : bytes p → (8 * n <= length p)%nat → addr mod 4 = 0 → is_u 32 c →
  eight_loop n addr c p = Ret (crc_register c (take (8 * n) p), drop (8 * n) p).
Proof.
  revert addr c p. induction n as [|n IH]; intros addr c p Hp Hn Ha Hc; [done|].
  cbn [eight_loop]. rewrite eight_bytes_spec by (done || lia). cbn [obind].
  rewrite IH; [|by apply Forall_drop|len|lia|by apply register_is_u].
  rewrite <- crc_register_app, take_take_drop, drop_drop. by replace (8 * S n)%nat with (8 + 8 * n)%nat by lia.
Qed.

(** ** The checksum *)

Lemma calculate_spec c addr buffer length :
  is_u 32 c → bytes buffer → is_u 32 length → length <= Zlen buffer →
  calculate_crc32c c addr buffer length = Ret (crc_register c (take (Z.to_nat length) buffer)).
Proof.
  intros Hc Hb [L0 L1] Hl. destruct tables_ok as (T & T32 & _). unfold calculate_crc32c.
  destruct (Z.ltb_spec length 4).
  { unfold singletable_crc32c. rewrite byte_loop_spec by (done || lia). done. }
  unfold multitable_crc32c. destruct (Z.eqb_spec length 0) as [->|]; [lia|].
  unfold crc32c_sb8_64_bit. rewrite word_aligned. assert (Hm := Z.mod_pos_bound addr 4 eq_refl).
  set (i := 4 - addr mod 4). rewrite (wrapu_id 32 (length - i)) by (red; lia).
  set (r := (length - i) / 8). rewrite (wrapu_id 32 (r * 8)), (wrapu_id 32) by (red; lia).
  rewrite Z.div_mul by done. rewrite byte_loop_spec by (done || lia). cbn [obind].
  rewrite eight_loop_spec; [|by apply Forall_drop|len|lia|by apply register_is_u]. cbn [obind].
  rewrite byte_loop_spec; [|done|by apply Forall_drop, Forall_drop|len]. cbn [obind].
  rewrite <- !crc_register_app, take_take_drop, take_take_drop. do 3 f_equal. lia.
Qed.

(** C37. [calculate_crc32c] of any buffer, at any address and of any length up to the buffer's, is the
    shift register of the polynomial [0x1EDC6F41] run over the buffer's bits: the loop over single bytes
    and the loop over eight bytes with eight tables compute the same function, every table index is in
    range, no byte past [length] is read and every word is loaded aligned. *)
Theorem crc32c_correct c addr buffer length :
  is_u 32 c → bytes buffer → is_u 32 length → length <= Zlen buffer →
  calculate_crc32c c addr buffer length = Ret (crc_register c (take (Z.to_nat length) buffer)).
Proof. apply calculate_spec. Qed.

(** The check value of the polynomial, of the nine digits with the register complemented before and
    after, from an odd address. *)
Definition digits : list Z := [49; 50; 51; 52; 53; 54; 55; 56; 57].

Lemma crc32c_correct_witness :
  calculate_crc32c (2 ^ 32 - 1) 1001 digits 9 = Ret (crc_register (2 ^ 32 - 1) digits) ∧
  Z.lxor (crc_register (2 ^ 32 - 1) digits) (2 ^ 32 - 1) = 0xE3069283 ∧ poly = reflect CRC32C_POLY.
Proof.
  split; [|done]. apply (crc32c_correct (2 ^ 32 - 1) 1001 digits 9); [done| |done|cbn; lia].
  by repeat constructor.
Defined.

(** ** What the checksum tells apart *)

Lemma shift_zero x : is_u 32 x → shift x = 0 → x = 0.
Proof.
  intros Hx. unfold shift. destruct (Z.odd x) eqn:Ho; intros E.
  - apply Z.lxor_eq in E. assert (T : Z.testbit (Z.shiftr x 1) 31 = true) by (by rewrite E).
    rewrite Z.shiftr_spec in T by lia. rewrite is_u_bits in Hx by lia. by rewrite Hx in T.
  - rewrite Z.shiftr_div_pow2 in E by lia.
    pose proof (Z_div_mod_eq_full x 2) as Hd. rewrite Zmod_odd, Ho in Hd. change (2 ^ 1) with 2 in E. lia.
Qed.

Lemma sh_inj n a b : is_u 32 a → is_u 32 b → sh n a = sh n b → a = b.
Proof.
  intros Ha Hb. induction n as [|n IH]; [done|]. rewrite !sh_S. intros E. apply IH.
  apply Z.lxor_eq, shift_zero.
  - by apply lxor_is_u; [|apply sh_is_u..].
  - by rewrite shift_lxor, E, Z.lxor_nilpotent.
Qed.

Lemma val_inj t t' : length t = length t' → val t = val t' → t = t'.
Proof.
  revert t'. induction t as [|d t IH]; intros [|d' t'] Hl E; try done. cbn [val] in E.
  assert (B : ∀ (d : bool) y i, Z.testbit (Z.lxor (Z.b2z d) (Z.shiftl y 1)) i =
    if i =? 0 then d else Z.testbit y (i - 1)).
  { intros f y i. rewrite Z.lxor_spec. destruct (Z.eqb_spec i 0) as [->|].
    - rewrite Z.shiftl_spec_low, xorb_false_r by lia. by destruct f.
    - destruct (Z_lt_le_dec i 0); [by rewrite !Z.testbit_neg_r by lia|]. rewrite Z.shiftl_spec by lia.
      replace (Z.testbit (Z.b2z f) i) with false; [apply xorb_false_l|].
      symmetry. apply (proj1 (is_u_bits 1 _ ltac:(lia))); [by destruct f|lia]. }
  f_equal.
  - apply (f_equal (λ x, Z.testbit x 0)) in E. by rewrite !B in E.
  - apply IH; [cbn in Hl; lia|]. apply Z.bits_inj. intros i.
    destruct (Z_lt_le_dec i 0); [by rewrite !Z.testbit_neg_r by lia|].
    apply (f_equal (λ x, Z.testbit x (i + 1))) in E. rewrite !B in E.
    destruct (Z.eqb_spec (i + 1) 0); [lia|]. by replace (i + 1 - 1) with i in E by lia.
Qed.

Lemma feed_inj t a b : is_u 32 a → is_u 32 b → foldl feed_bit a t = foldl feed_bit b t → a = b.
Proof.
  intros Ha Hb. rewrite !feed_bits, !sh_lxor. intros E.
  apply (sh_inj (length t)); [done..|]. apply (f_equal (Z.lxor (sh (length t) (val t)))) in E.
  by rewrite !(Z.lxor_comm (sh _ (val t))), !Z.lxor_assoc, Z.lxor_nilpotent, !Z.lxor_0_r in E.
Qed.

Lemma register_burst c l l' u e e' v : is_u 32 c →
  bits_of l = u ++ e ++ v → bits_of l' = u ++ e' ++ v →
  length e = length e' → (length e <= 32)%nat → e ≠ e' → crc_register c l ≠ crc_register c l'.
Proof.
  intros Hc El El' Hn Hw Hd E. unfold crc_register in E. rewrite El, El', !foldl_app in E.
  revert E. generalize (foldl feed_bit c u), (feed_is_u u c Hc). intros s Hs E.
  apply feed_inj in E; [|by apply feed_is_u..].
  rewrite !feed_bits, <- Hn in E.
  assert (V : ∀ t, (length t <= 32)%nat → is_u 32 (val t)).
  { intros t Ht. destruct (val_is_u t). assert (2 ^ Zlen t <= 2 ^ 32) by (apply Z.pow_le_mono_r; lia). red. lia. }
  apply sh_inj in E; [|apply lxor_is_u; [done..|apply V; lia]..].
  apply Hd, val_inj; [done|]. apply (f_equal (Z.lxor s)) in E.
  by rewrite <- !Z.lxor_assoc, Z.lxor_nilpotent, !Z.lxor_0_l in E.
Qed.

(** Two buffers that differ only inside a window of at most 32 consecutive bits, wherever it
    lies across their bytes, have different checksums; the buffers may be at different addresses. *)
Theorem crc32c_detects_bursts c addr addr' l l' u e e' v :
  is_u 32 c → bytes l → bytes l' → Zlen l = Zlen l' → Zlen l < 2 ^ 32 →
  bits_of l = u ++ e ++ v → bits_of l' = u ++ e' ++ v →
  length e = length e' → (length e <= 32)%nat → e ≠ e' →
  ∃ r r', calculate_crc32c c addr l (Zlen l) = Ret r ∧ calculate_crc32c c addr' l' (Zlen l') = Ret r' ∧ r ≠ r'.
Proof.
  intros Hc Hl Hl' Hn H32 El El' He Hw Hd. do 2 eexists.
  split_and!; [apply calculate_spec; [done..|red; lia|lia]| |].
  { apply calculate_spec; [done..|red; lia|lia]. }
  rewrite !Nat2Z.id, !firstn_all. by eapply register_burst.
Qed.

(** Bit 3 of the second digit and bit 1 of the fifth. *)
Definition digits' : list Z := [49; 58; 51; 52; 55; 54; 55; 56; 57].

Lemma crc32c_detects_bursts_witness :
  ∃ r r', calculate_crc32c 0 64 digits 9 = Ret r ∧ calculate_crc32c 0 67 digits' 9 = Ret r' ∧ r ≠ r'.
Proof.
  apply (crc32c_detects_bursts 0 64 67 digits digits' (take 11 (bits_of digits))
    (take 23 (drop 11 (bits_of digits))) (take 23 (drop 11 (bits_of digits'))) (drop 34 (bits_of digits)));
    try done; try (by repeat constructor); cbn; lia.
Defined.
