(* ===== verification/StrL.v ===== *)
(** * Bounded string copies (src/strlcpy.c, src/strlcat.c)

    The destination is the list of bytes of its object, the source the bytes from its
    pointer to the end of its object; reading past the source or writing past the
    destination is [Ub]. *)
From stdpp Require Import base list.
From Stdlib Require Import ZArith Lia.
From S2P Require Import Prelude Machine.

(** ** The code *)

(** [*d = c]. *)
Definition poke (dst : list Z) (d : nat) (c : Z) : out (list Z) :=
  if decide (d < length dst)%nat then Ret (<[d := c]> dst) else Ub.

(** [while ( *s++);] *)
Fixpoint skip_string (s : list Z) : out (list Z) :=
  match s with [] => Ub | c :: s => if c =? 0 then Ret s else skip_string s end.

(** The loop [do ... while (--n != 0)], entered with [n] positive. *)
Fixpoint copy_loop (n : nat) (dst : list Z) (d : nat) (s : list Z) : out (nat * list Z * nat * list Z) :=
  match n, s with
  | O, _ => Ret (O, dst, d, s)
  | S _, [] => Ub
  | S n', c :: s =>
      let! dst := poke dst d c in
      if c =? 0 then Ret (n, dst, S d, s) else copy_loop n' dst (S d) s
  end.

Definition strlcpy (dst src : list Z) (siz : Z) : out (Z * list Z) :=
  let n := Z.to_nat siz in
  let! (n, dst, d, s) :=
    match n with
    | S (S n) => copy_loop (S n) dst 0 src
    | _ => Ret (O, dst, O, src)
    end in
  let! (dst, s) :=
    match n with
    | O =>
        let! dst := if siz =? 0 then Ret dst else poke dst d 0 in
        let! s := skip_string s in Ret (dst, s)
    | S _ => Ret (dst, s)
    end in
  Ret (Zlen src - Zlen s - 1, dst).

(** [while (n-- != 0 && *d != 0) d++;] gives the final [d]. *)
Fixpoint find_end (n : nat) (dst : list Z) (d : nat) : out nat :=
  match n with
  | O => Ret d
  | S n => let! c := access (dst !! d) in if c =? 0 then Ret d else find_end n dst (S d)
  end.

(** [strlen(s)]. *)
Definition strlen (s : list Z) : out Z := let! r := skip_string s in Ret (Zlen s - Zlen r - 1).

(** [while ( *s != 0) ...]; [s] ends at the terminator. *)
Fixpoint append_loop (n : Z) (dst : list Z) (d : nat) (s : list Z) : out (list Z * nat * list Z) :=
  match s with
  | [] => Ub
  | c :: s' =>
      if c =? 0 then Ret (dst, d, s) else
      if n =? 1 then append_loop n dst d s'
      else let! dst := poke dst d c in append_loop (n - 1) dst (S d) s'
  end.

Definition strlcat (dst src : list Z) (siz : Z) : out (Z * list Z) :=
  let! d := find_end (Z.to_nat siz) dst 0 in
  let dlen := Z.of_nat d in
  let n := siz - dlen in
  if n =? 0 then let! l := strlen src in Ret (dlen + l, dst) else
  let! (dst, d, s) := append_loop n dst d src in
  let! dst := poke dst d 0 in
  Ret (dlen + (Zlen src - Zlen s), dst).

(** ** The lemmas *)

(** A string: no terminator inside. *)
Definition text (s : list Z) : Prop := Forall (λ c, c ≠ 0) s.

(** [l] with the bytes from [d] on overwritten by [w]. *)
Definition overwrite (l : list Z) (d : nat) (w : list Z) : list Z := take d l ++ w ++ drop (d + length w) l.

Lemma poke_spec l d c : (d < length l)%nat → poke l d c = Ret (overwrite l d [c]).
Proof.
  intros Hd. unfold poke. rewrite decide_True by done. unfold overwrite. f_equal.
  rewrite insert_take_drop by done. cbn [length app]. by replace (d + 1)%nat with (S d) by lia.
Qed.

Lemma overwrite_app l d w w' : (d + length w <= length l)%nat →
  overwrite (overwrite l d w) (d + length w) w' = overwrite l d (w ++ w').
Proof.
  intros Hd. unfold overwrite. rewrite (app_assoc (take d l)).
  rewrite take_app_length' by len. rewrite drop_app_ge by len. rewrite drop_drop, <- !app_assoc.
  do 4 f_equal. len.
Qed.

Lemma overwrite_cons l d c w : (d < length l)%nat → overwrite (overwrite l d [c]) (S d) w = overwrite l d (c :: w).
Proof.
  intros. replace (S d) with (d + length [c])%nat by (cbn; lia). rewrite overwrite_app; [done|cbn; lia].
Qed.

Lemma overwrite_nil l d : overwrite l d [] = l.
Proof. unfold overwrite. cbn [length app]. rewrite Nat.add_0_r. apply take_drop. Qed.

Lemma overwrite_length l d w : (d + length w <= length l)%nat → length (overwrite l d w) = length l.
Proof. intros. unfold overwrite. len. Qed.

Lemma skip_string_spec s tl : text s → skip_string (s ++ 0 :: tl) = Ret tl.
Proof.
  intros Hs. induction s as [|c s IH]; [done|]. apply Forall_cons in Hs as [Hc Hs]. cbn.
  destruct (Z.eqb_spec c 0); [done|]. by apply IH.
Qed.

(** The room ends inside the string, or the terminator is copied with room left. *)
Lemma copy_loop_spec n dst d s tl : text s → (d + n <= length dst)%nat →
  copy_loop n dst d (s ++ 0 :: tl) =
  if decide (n <= length s)%nat
  then Ret (O, overwrite dst d (take n s), (d + n)%nat, drop n s ++ 0 :: tl)
  else Ret ((n - length s)%nat, overwrite dst d (s ++ [0]), (d + length s + 1)%nat, tl).
Proof.
  revert dst d s. induction n as [|n IH]; intros dst d s Hs Hd.
  - rewrite decide_True by lia. cbn [copy_loop take drop]. by rewrite overwrite_nil, Nat.add_0_r.
  - destruct s as [|c s]; cbn [copy_loop app].
    { rewrite poke_spec by lia. cbn. do 3 f_equal; lia. }
    apply Forall_cons in Hs as [Hc Hs]. rewrite poke_spec by lia. cbn [obind].
    destruct (Z.eqb_spec c 0); [done|]. rewrite IH by (done || rewrite overwrite_length; cbn; lia).
    rewrite !overwrite_cons by lia. cbn [length take drop app Nat.sub].
    repeat case_decide; try lia; do 3 f_equal; lia.
Qed.

Lemma find_end_spec n dst t tl : dst = t ++ 0 :: tl → text t → (length t < n)%nat →
  find_end n dst 0 = Ret (length t).
Proof.
  intros -> Ht Hn. cut (∀ n u v, text v → (length v < n)%nat →
    find_end n (u ++ v ++ 0 :: tl) (length u) = Ret (length u + length v)%nat); [intros C; by apply (C n [])|].
  clear. induction n as [|n IH]; intros u v Hv Hn; [lia|]. cbn [find_end].
  destruct v as [|c v]; rewrite lookup_app_r, Nat.sub_diag by lia; cbn [app lookup list_lookup access obind].
  - cbn. f_equal. lia.
  - apply Forall_cons in Hv as [Hc Hv]. destruct (Z.eqb_spec c 0); [done|].
    specialize (IH (u ++ [c]) v Hv). rewrite <- app_assoc, length_app in IH. cbn [app length] in *.
    replace (S (length u)) with (length u + 1)%nat by lia. rewrite IH by lia. f_equal. lia.
Qed.

Lemma find_end_none n dst : text (take n dst) → (n <= length dst)%nat → find_end n dst 0 = Ret n.
Proof.
  intros Ht Hn. cut (∀ k d, (d + k = n)%nat → find_end k dst d = Ret n); [intros C; by apply C|].
  induction k as [|k IH]; intros d Hd; [f_equal; lia|]. cbn [find_end].
  destruct (lookup_lt_is_Some_2 dst d) as [c Hc]; [lia|]. rewrite Hc. cbn [access obind].
  assert (c ≠ 0) by (refine (Forall_lookup_1 _ _ d c Ht _); by rewrite lookup_take_lt by lia).
  destruct (Z.eqb_spec c 0); [done|]. apply IH. lia.
Qed.

Lemma append_loop_spec n dst d s tl : text s → 1 <= n → Z.of_nat d + n <= Zlen dst →
  append_loop n dst d (s ++ 0 :: tl) =
  let w := take (Z.to_nat (n - 1)) s in Ret (overwrite dst d w, (d + length w)%nat, 0 :: tl).
Proof.
  revert n dst d. induction s as [|c s IH]; intros n dst d Hs Hn Hd.
  { cbn zeta. rewrite take_nil, overwrite_nil. cbn. by rewrite Nat.add_0_r. }
  apply Forall_cons in Hs as [Hc Hs]. cbn [append_loop app].
  destruct (Z.eqb_spec c 0); [done|]. destruct (Z.eqb_spec n 1) as [->|].
  { rewrite IH by (done || lia). cbn zeta. by rewrite !(take_0). }
  rewrite poke_spec by lia. cbn [obind]. rewrite IH; [|done|lia|rewrite overwrite_length; cbn; lia].
  cbn zeta. rewrite overwrite_cons by lia. replace (Z.to_nat (n - 1)) with (S (Z.to_nat (n - 1 - 1))) by lia.
  cbn [take length]. do 3 f_equal. lia.
Qed.

(** ** What the copies promise *)

(** [strlcpy] writes at most [siz] bytes, the beginning of the source that fits and its
    terminator, nothing when [siz] is 0, and returns the length of the source. *)
Theorem strlcpy_spec dst s tl siz : text s → 0 <= siz <= Zlen dst →
  strlcpy dst (s ++ 0 :: tl) siz =
  Ret (Zlen s, if siz =? 0 then dst else overwrite dst 0 (take (Z.to_nat (siz - 1)) s ++ [0])).
Proof.
  intros Hs Hz. unfold strlcpy. destruct (Z.eqb_spec siz 0) as [->|Hnz].
  { change (Z.to_nat 0) with O. cbn [obind Z.eqb]. rewrite skip_string_spec by done. cbn [obind]. do 2 f_equal. len. }
  destruct (Z.to_nat siz) as [|[|n]] eqn:E; [lia| |].
  { replace siz with 1 by lia. cbn [obind]. rewrite poke_spec, skip_string_spec by (done || lia).
    cbn [obind]. do 2 f_equal. len. }
  rewrite copy_loop_spec by (done || lia). replace (Z.to_nat (siz - 1)) with (S n) by lia.
  case_decide; cbn [obind].
  - rewrite poke_spec by (rewrite overwrite_length; len).
    rewrite skip_string_spec by (by apply Forall_drop). cbn [obind].
    assert (length (take (S n) s) = S n) as L by len.
    pose proof (overwrite_app dst 0 (take (S n) s) [0]) as A. rewrite L in A. rewrite A by lia.
    do 2 f_equal. len.
  - rewrite take_ge by lia. destruct (S n - length s)%nat eqn:E'; [lia|]. cbn [obind]. do 2 f_equal. len.
Qed.

(** [strlcat] appends what fits after the string in the destination, terminates it, and
    returns the length of the string it tried to build; a destination without a terminator
    in its first [siz] bytes is left alone. *)
Theorem strlcat_spec dst s tl siz : text s → siz <= Zlen dst →
  (∀ t tl', dst = t ++ 0 :: tl' → text t → Zlen t < siz →
     strlcat dst (s ++ 0 :: tl) siz =
     Ret (Zlen t + Zlen s, overwrite dst (length t) (take (Z.to_nat (siz - Zlen t - 1)) s ++ [0]))) ∧
  (0 <= siz → text (take (Z.to_nat siz) dst) → strlcat dst (s ++ 0 :: tl) siz = Ret (siz + Zlen s, dst)).
Proof.
  intros Hs Hz. unfold strlcat. split.
  - intros t tl' E Ht Hn. rewrite (find_end_spec _ dst t tl') by (done || lia). cbn [obind].
    destruct (Z.eqb_spec (siz - Zlen t) 0); [lia|]. rewrite append_loop_spec by (done || lia). cbn [obind].
    assert (length (take (Z.to_nat (siz - Zlen t - 1)) s) <= Z.to_nat (siz - Zlen t - 1))%nat by len.
    rewrite poke_spec by (rewrite overwrite_length; lia). cbn [obind].
    rewrite overwrite_app by lia. do 2 f_equal. len.
  - intros H0 Ht. rewrite find_end_none by (done || lia). cbn [obind].
    destruct (Z.eqb_spec (siz - Z.of_nat (Z.to_nat siz)) 0); [|lia].
    unfold strlen. rewrite skip_string_spec by done. cbn [obind]. do 2 f_equal. len.
Qed.
