(* ===== verification/RbTable.v ===== *)
(** * Tables: trees ordered by a number (src/rbtree.c as its users see it)

    A tree whose comparison reads one number from the structure around a node is a table
    of those structures.  The number may change while a node is in no tree, and structures
    come and go, so the statements are about the key function of the moment. *)
From stdpp Require Import base gmap list sorting.
From Stdlib Require Import ZArith Lia.
From S2P Require Import Prelude Machine RbTree RbTreeFacts RbTreeOps RbTreeTheorems.

(** The comparison of every such table in the library. *)
Definition cmp_by (key : Z → Z) (lhs rhs : Z) : Z :=
  if key lhs <? key rhs then -1 else if key lhs =? key rhs then 0 else 1.

#[global] Instance cmp_by_comparison key : Comparison (cmp_by key) := svc_xprt_fd_comparison key.

Lemma cmp_by_lt key a b : cmp_by key a b = -1 ↔ key a < key b.
Proof. unfold cmp_by. destruct (Z.ltb_spec (key a) (key b)), (Z.eqb_spec (key a) (key b)); lia. Qed.

Lemma cmp_by_eq key a b : cmp_by key a b = 0 ↔ key a = key b.
Proof. unfold cmp_by. destruct (Z.ltb_spec (key a) (key b)), (Z.eqb_spec (key a) (key b)); lia. Qed.

(** The nodes [l], in the order of their keys, and no other node is marked as being in
    the tree. *)
Definition table (key : Z → Z) (s : opr_rbtree) (l : list Z) : Prop :=
  ∃ W, rb_valid (cmp_by key) s W ∧ marked s W ∧ locs W = l.

Section Tables.
Context (key : Z → Z).
Implicit Types (s : opr_rbtree) (l : list Z) (x : Z).

Lemma table_sorted s l : table key s l → StronglySorted (λ a b, key a < key b) l.
Proof.
  intros (W & Hv & _ & <-). pose proof (rv_order _ _ _ Hv) as Ho. revert Ho. generalize (locs W).
  induction 1 as [|x k _ IH Hx]; constructor; [done|]. apply (Forall_impl _ _ _ Hx). intros y. apply cmp_by_lt.
Qed.

Lemma table_nodup s l : table key s l → NoDup l.
Proof. intros (W & Hv & _ & <-). by eapply rv_nodup. Qed.

Lemma table_gen s l x n : table key s l → rb_nodes s !! x = Some n → n_gen n ≠ 0 ↔ x ∈ l.
Proof. intros (W & _ & Hm & <-). apply Hm. Qed.

Lemma table_allocd s l x : table key s l → x ∈ l → is_Some (rb_nodes s !! x).
Proof.
  intros (W & Hv & _ & <-) Hx. destruct (rv_tree _ _ _ Hv) as [_ Hr _]. by eapply rep_allocd.
Qed.

Lemma table_size s l : table key s l → (length l ≤ size (rb_nodes s))%nat.
Proof. intros (W & Hv & _ & <-). by apply tree_size, Hv. Qed.

Lemma table_init ns : (∀ x n, ns !! x = Some n → n_gen n = 0) → table key (opr_rbtree_init ns) [].
Proof.
  intros Hns. exists E. assert (Hv : rb_valid (cmp_by key) (opr_rbtree_init ns) E).
  { constructor; [constructor; [done|done|constructor]|by exists 0%nat|constructor|constructor|done]. }
  split; [done|]. split; [|done]. apply (marked_intro (cmp_by key)); [done|]. intros y n _. apply Hns.
Qed.

Lemma table_first s l : table key s l → opr_rbtree_first s = Ret (head l).
Proof.
  intros (W & Hv & _ & <-). destruct (first_last_ok s W (rv_tree _ _ _ Hv)) as [-> _].
  rewrite items_locs. by destruct (items W).
Qed.

(** Two keys that agree on the nodes make the same table. *)
Lemma table_ext key' s l : (∀ x, x ∈ l → key' x = key x) → table key s l → table key' s l.
Proof.
  intros Hk (W & [Ht Hb Ho Hg Hs] & Hm & <-). exists W. split; [|done]. constructor; try done.
  clear - Hk Ho. induction Ho as [|x k _ IH Hx]; constructor; [apply IH; intros; apply Hk; by right|].
  rewrite Forall_forall in *. intros y Hy. specialize (Hx y Hy). unfold before_in in *.
  rewrite cmp_by_lt in *. rewrite !Hk by (by left || by right). done.
Qed.

(** The search reads the key of the node it is given, which may be in no tree, and those of
    the nodes of the table. *)
Lemma table_lookup key' s l x : (∀ q, q ∈ l → key' q = key q) → table key s l →
  ∃ r, opr_rbtree_lookup (cmp_by key') s x = Ret r ∧
    match r with Some q => q ∈ l ∧ key q = key' x | None => ∀ q, q ∈ l → key q ≠ key' x end.
Proof.
  intros Hk Ht. apply (table_ext key') in Ht as (W & Hv & _ & <-); [|done].
  destruct (lookup_valid (cmp_by key') s W x Hv) as [-> Hf]. exists (tfind (cmp_by key') W x). split; [done|].
  destruct (tfind _ W x) as [q|].
  - destruct Hf as [Hq Hc%cmp_by_eq]. split; [done|]. by rewrite <- Hk.
  - intros q Hq Hc. apply (Hf q Hq), cmp_by_eq. rewrite (Hk q Hq). done.
Qed.

Lemma table_insert s l x n : table key s l → rb_nodes s !! x = Some n → n_gen n = 0 →
  (∃ q, opr_rbtree_insert (cmp_by key) s x = Ret (Some q, s) ∧ q ∈ l ∧ key q = key x) ∨
  (∃ s' l', opr_rbtree_insert (cmp_by key) s x = Ret (None, s') ∧ table key s' l' ∧ l' ≡ₚ x :: l ∧
     (∀ q, q ∈ l → key q ≠ key x) ∧ dom (rb_nodes s') = dom (rb_nodes s)).
Proof.
  intros (W & Hv & Hm & <-) Hx Hg. assert (Hn : x ∉ locs W) by (intros Hi; by apply (Hm x n Hx)).
  destruct (insert_valid (cmp_by key) s W x n Hv Hx Hn)
    as [(q & Hi & Hq & Hc)|(s' & W' & l1 & l2 & Hi & Hv' & El & El' & H1 & H2 & Hk)].
  { left. exists q. split; [done|]. split; [done|]. apply cmp_by_eq in Hc. done. }
  right. assert (Hp : locs W' ≡ₚ x :: locs W) by (rewrite El, El'; by rewrite Permutation_middle).
  assert (Ht' : table key s' (locs W')).
  { exists W'. split; [done|]. split; [|done]. apply (marked_intro (cmp_by key)); [done|]. intros y ny Hy Hny.
    rewrite Hk in Hny by done. apply dec_stable. intros Hg'. apply (Hm y ny Hny) in Hg'.
    apply Hy. rewrite Hp. by right. }
  exists s', (locs W'). split; [done|]. split; [done|]. split; [done|]. split.
  - intros q Hq. rewrite El in Hq. apply elem_of_app in Hq as [Hq|Hq];
      [apply H1, cmp_by_lt in Hq|apply H2, cmp_by_lt in Hq]; lia.
  - apply set_eq. intros y. rewrite !elem_of_dom. destruct (decide (y ∈ locs W')) as [Hy|Hy]; [|by rewrite Hk].
    split; intros _; [|by eapply table_allocd]. rewrite Hp in Hy. apply elem_of_cons in Hy as [->|Hy]; [by exists n|].
    eapply (table_allocd s (locs W)); [|done]. by exists W.
Qed.

Lemma table_remove s l x n : table key s l → rb_nodes s !! x = Some n →
  ∃ s', opr_rbtree_remove s x = Ret s' ∧ table key s' (filter (λ y, y ≠ x) l) ∧
    dom (rb_nodes s') = dom (rb_nodes s).
Proof.
  intros (W & Hv & Hm & <-) Hx. destruct (decide (n_gen n = 0)) as [Hg|Hg].
  { exists s. unfold opr_rbtree_remove. rewrite (rd_ok s x n n_gen) by done. cbn [obind]. rewrite Hg. split; [done|].
    split; [|done]. exists W. split; [done|]. split; [done|]. rewrite filter_all; [done|].
    apply Forall_forall. intros y Hy ->. by apply (Hm x n Hx) in Hy. }
  apply (Hm x n Hx) in Hg. destruct (remove_spec (cmp_by key) s W x Hv Hg) as (s' & W' & Er & Hv' & El & (n' & Hn' & Hg') & Hk).
  unfold spec_remove in El.
  assert (Ht : table key s' (locs W')).
  { exists W'. split; [done|]. split; [|done]. apply (marked_intro (cmp_by key)); [done|]. intros y ny Hy Hny.
    destruct (decide (y = x)) as [->|Hyx]; [congruence|]. rewrite El, list_elem_of_filter in Hy.
    rewrite Hk in Hny by tauto. apply dec_stable. intros Hgy. apply (Hm y ny Hny) in Hgy. tauto. }
  exists s'. split; [done|]. rewrite <- El. split; [done|].
  apply set_eq. intros y. rewrite !elem_of_dom. destruct (decide (y ∈ locs W)) as [Hy|Hy]; [|by rewrite Hk].
  split; intros _; [eapply (table_allocd s (locs W)); [|done]; by exists W|].
  destruct (decide (y = x)) as [->|Hyx]; [by exists n'|]. eapply table_allocd; [done|]. rewrite El.
  by apply list_elem_of_filter.
Qed.

(** A structure is allocated around a node, or released while in no table. *)
Lemma table_nodes s l ns : table key s l → (∀ x, x ∈ l → ns !! x = rb_nodes s !! x) →
  (∀ x n, x ∉ l → ns !! x = Some n → n_gen n = 0) → table key (set_nodes ns s) l.
Proof.
  intros (W & Hv & Hm & <-) Hl Ho. exists W. assert (Hv' : rb_valid (cmp_by key) (set_nodes ns s) W).
  { destruct Hv as [Ht Hb Hs Hg Hz]. constructor; try done. apply (is_tree_ext s); [done|done|].
    intros x Hx. by apply Hl. }
  split; [done|]. split; [|done]. by apply (marked_intro (cmp_by key)).
Qed.

Lemma table_alloc s l x n : table key s l → rb_nodes s !! x = None → n_gen n = 0 →
  table key (set_nodes (<[x := n]> (rb_nodes s)) s) l.
Proof.
  intros Ht Hx Hg. apply table_nodes; [done|..].
  - intros y Hy. apply lookup_insert_ne. intros <-. apply (table_allocd s l) in Hy as [? ?]; congruence.
  - intros y ny Hy. destruct (decide (x = y)) as [<-|]; [rewrite lookup_insert_eq; congruence|].
    rewrite lookup_insert_ne by done. intros Hn. apply dec_stable. intros Hg'. by apply (table_gen s l y ny) in Hg'.
Qed.

Lemma table_free s l x : table key s l → x ∉ l → table key (set_nodes (delete x (rb_nodes s)) s) l.
Proof.
  intros Ht Hx. apply table_nodes; [done|..].
  - intros y Hy. apply lookup_delete_ne. by intros <-.
  - intros y ny Hy [? Hn]%lookup_delete_Some. apply dec_stable. intros Hg'. by apply (table_gen s l y ny) in Hg'.
Qed.
End Tables.
