(* ===== verification/ClntReq.v ===== *)
(** * Calls of a client (src/clnt_generic.c, ntirpc/rpc/clnt.h, src/svc_rqst.c)

    Requests wait for their replies in a tree ordered by transaction id, [call_replies], and
    those with a callback also in a tree of their event channel ordered by the time they
    expire, [call_expires].  The requests are objects in memory: using one that has been
    released is [Ub].

    A routine is cut where it takes or releases a lock and at its atomic operations, and
    composed of the pieces; the pieces are also what different threads interleave.  The model
    has one connection and its channel.  Branches for RDMA are left out, as are the mutex and
    the condition variable in a request; the callback of a request is reported by the piece
    that would run it. *)
From stdpp Require Import base gmap list.
From Stdlib Require Import ZArith Lia.
From S2P Require Import Prelude Machine XdrHandle RpcMsg RbTree RbTable.

Definition RPC_CANTENCODEARGS : Z := 1.
Definition RPC_CANTDECODERES : Z := 2.
Definition RPC_TIMEDOUT : Z := 5.
Definition RPC_TLIERROR : Z := 20.
Definition AUTH_INVALIDRESP : Z := 6.

Definition CLNT_REQ_FLAG_NONE : Z := 0x0000.
Definition CLNT_REQ_FLAG_EXPIRING : Z := 0x0001.
Definition CLNT_REQ_FLAG_BACKSYNC : Z := 0x0004.
Definition CLNT_REQ_FLAG_ACKSYNC : Z := 0x0008.

Definition SVC_RQST_TIMEOUT_MS : Z := 29 * 1000.
Definition INT_MAX : Z := 2 ^ 31 - 1.

(** ** Time *)

Record timespec := mk_ts { tv_sec : Z; tv_nsec : Z }.

(** Signed arithmetic in a type of [w] bits. *)
Definition signed (w z : Z) : out Z := if decide (is_s w z) then Ret z else Ub.

Definition timespecadd (t u : timespec) : out timespec :=
  let! sec := signed 64 (tv_sec t + tv_sec u) in
  let! nsec := signed 64 (tv_nsec t + tv_nsec u) in
  if 1000000000 <=? nsec then let! sec := signed 64 (sec + 1) in Ret (mk_ts sec (nsec - 1000000000))
  else Ret (mk_ts sec nsec).

Definition timespec_ms (t : timespec) : out Z :=
  let! ms := signed 64 (tv_sec t * 1000) in
  let! ns := signed 64 (tv_nsec t + 999999) in
  signed 64 (ms + Z.quot ns 1000000).

(** The result is returned as an [int]. *)
Definition svc_rqst_expire_ms (now to : timespec) : out Z :=
  let! ts := timespecadd now to in
  let! ms := timespec_ms ts in Ret (s32 ms).

Section Client.
Context {P R T : Type}.

(** ** Data *)

(** What the authenticator of a request answers. *)
Record AUTH := mk_AUTH {
  ah_validate : opaque_auth → bool;
  ah_refresh : bool;
  ah_unwrap : xdrproc P R → xdrproc P R;
}.

(** [cc_reply] is split into the procedure and the object it fills. *)
Record clnt_req := mk_req {
  cc_auth : AUTH;
  cc_reply_proc : option (xdrproc P R);
  cc_reply_where : R;
  cc_verf : opaque_auth;
  cc_timeout : timespec;
  cc_error : rpc_err;
  cc_expire_ms : Z;
  cc_refreshes : Z;
  cc_xid : Z;
  cc_refcnt : Z;
  cc_flags : Z;
}.

Definition set_where v c := mk_req (cc_auth c) (cc_reply_proc c) v (cc_verf c) (cc_timeout c) (cc_error c)
  (cc_expire_ms c) (cc_refreshes c) (cc_xid c) (cc_refcnt c) (cc_flags c).
Definition set_verf v c := mk_req (cc_auth c) (cc_reply_proc c) (cc_reply_where c) v (cc_timeout c) (cc_error c)
  (cc_expire_ms c) (cc_refreshes c) (cc_xid c) (cc_refcnt c) (cc_flags c).
Definition set_timeout v c := mk_req (cc_auth c) (cc_reply_proc c) (cc_reply_where c) (cc_verf c) v (cc_error c)
  (cc_expire_ms c) (cc_refreshes c) (cc_xid c) (cc_refcnt c) (cc_flags c).
Definition set_error v c := mk_req (cc_auth c) (cc_reply_proc c) (cc_reply_where c) (cc_verf c) (cc_timeout c) v
  (cc_expire_ms c) (cc_refreshes c) (cc_xid c) (cc_refcnt c) (cc_flags c).
Definition set_expire_ms v c := mk_req (cc_auth c) (cc_reply_proc c) (cc_reply_where c) (cc_verf c) (cc_timeout c) (cc_error c)
  v (cc_refreshes c) (cc_xid c) (cc_refcnt c) (cc_flags c).
Definition set_refreshes v c := mk_req (cc_auth c) (cc_reply_proc c) (cc_reply_where c) (cc_verf c) (cc_timeout c) (cc_error c)
  (cc_expire_ms c) v (cc_xid c) (cc_refcnt c) (cc_flags c).
Definition set_xid v c := mk_req (cc_auth c) (cc_reply_proc c) (cc_reply_where c) (cc_verf c) (cc_timeout c) (cc_error c)
  (cc_expire_ms c) (cc_refreshes c) v (cc_refcnt c) (cc_flags c).
Definition set_refcnt v c := mk_req (cc_auth c) (cc_reply_proc c) (cc_reply_where c) (cc_verf c) (cc_timeout c) (cc_error c)
  (cc_expire_ms c) (cc_refreshes c) (cc_xid c) v (cc_flags c).
Definition set_flags v c := mk_req (cc_auth c) (cc_reply_proc c) (cc_reply_where c) (cc_verf c) (cc_timeout c) (cc_error c)
  (cc_expire_ms c) (cc_refreshes c) (cc_xid c) (cc_refcnt c) v.
Definition set_status v c := set_error (set_re_status v (cc_error c)) c.

(** [cc_error.re_errno = v], the first word of a union. *)
Definition set_errno v c :=
  let e := cc_error c in set_error (mk_err (re_status e) v (mk_versions v (high (re_vers e))) v (re_lb_s2 e)) c.

(** The handle: its count of references and whether CLNT_FLAG_RELEASING is set. *)
Record CLIENT := mk_client { cl_refcnt : Z; cl_releasing : bool }.

(** The requests in memory, the handle (none once it is destroyed), the fields of the
    transport and the channel, which the transport may have lost. *)
Record conn := mk_conn {
  reqs : gmap Z clnt_req;
  client : option CLIENT;
  call_xid : Z;
  call_replies : opr_rbtree;
  ev_p : bool;
  call_expires : opr_rbtree;
}.

Definition set_reqs v s := mk_conn v (client s) (call_xid s) (call_replies s) (ev_p s) (call_expires s).
Definition set_client v s := mk_conn (reqs s) v (call_xid s) (call_replies s) (ev_p s) (call_expires s).
Definition set_call_xid v s := mk_conn (reqs s) (client s) v (call_replies s) (ev_p s) (call_expires s).
Definition set_replies v s := mk_conn (reqs s) (client s) (call_xid s) v (ev_p s) (call_expires s).
Definition set_expires v s := mk_conn (reqs s) (client s) (call_xid s) (call_replies s) (ev_p s) v.

(** [cc->f] and [cc->f = v]. *)
Definition req (s : conn) (cc : Z) : out clnt_req := access (reqs s !! cc).
Definition upd (s : conn) (cc : Z) (f : clnt_req → clnt_req) : out conn :=
  let! c := req s cc in Ret (set_reqs (<[cc := f c]> (reqs s)) s).

(** atomic_postset_uint16_t_bits and atomic_postclear_uint16_t_bits: the flags before. *)
Definition postset (s : conn) (cc bits : Z) : out (Z * conn) :=
  let! c := req s cc in
  let! s := upd s cc (set_flags (Z.lor (cc_flags c) bits)) in Ret (cc_flags c, s).
Definition postclear (s : conn) (cc bits : Z) : out (Z * conn) :=
  let! c := req s cc in
  let! s := upd s cc (set_flags (Z.land (cc_flags c) (Z.lnot bits))) in Ret (cc_flags c, s).

Definition any (flags bits : Z) : bool := negb (Z.land flags bits =? 0).

(** ** The order of the trees *)

Definition xid_of (m : gmap Z clnt_req) (p : Z) : Z := match m !! p with Some c => cc_xid c | None => 0 end.
Definition expire_of (m : gmap Z clnt_req) (p : Z) : Z :=
  match m !! p with Some c => cc_expire_ms c | None => 0 end.

Definition clnt_req_xid_cmpf (cc_xid : Z → Z) : Z → Z → Z := cmp_by cc_xid.
Definition svc_rqst_expire_cmpf (cc_expire_ms : Z → Z) : Z → Z → Z := cmp_by cc_expire_ms.

(** ** References to the handle *)

Definition clnt_ref_it (s : conn) : out conn :=
  let! cl := access (client s) in
  Ret (set_client (Some (mk_client (s32 (cl_refcnt cl + 1)) (cl_releasing cl))) s).

(** cl_destroy releases the handle. *)
Definition clnt_release_it (s : conn) : out conn :=
  let! cl := access (client s) in
  let refs := s32 (cl_refcnt cl - 1) in
  if 0 <? refs then Ret (set_client (Some (mk_client refs (cl_releasing cl))) s) else
  if cl_releasing cl then Ret (set_client (Some (mk_client refs true)) s) else
  Ret (set_client None s).

(** ** Making and arming a request *)

(** The memory at [cc] is as the allocator returned it, [c] around the nodes [dplx] and [rqst]. *)
Definition clnt_req_fill (s : conn) (cc : Z) (c : clnt_req) (dplx rqst : opr_rbtree_node) (auth : AUTH)
    (xresults : option (xdrproc P R)) (resultsp : R) : conn :=
  let c := mk_req auth xresults resultsp _null_auth (cc_timeout c) (cc_error c)
    (cc_expire_ms c) (cc_refreshes c) (cc_xid c) 1 (cc_flags c) in
  let s := set_reqs (<[cc := c]> (reqs s)) s in
  let s := set_replies (set_nodes (<[cc := dplx]> (rb_nodes (call_replies s))) (call_replies s)) s in
  set_expires (set_nodes (<[cc := rqst]> (rb_nodes (call_expires s))) (call_expires s)) s.

(** A new transaction id and the tree under it: [cc_xid = ++call_xid] and the insertion. *)
Definition new_xid (s : conn) (cc : Z) : out (nptr * conn) :=
  let s := set_call_xid (u32 (call_xid s + 1)) s in
  let! s := upd s cc (set_xid (call_xid s)) in
  let! (nv, tree) := opr_rbtree_insert (clnt_req_xid_cmpf (xid_of (reqs s))) (call_replies s) cc in
  Ret (nv, set_replies tree s).

Definition clnt_req_refresh (s : conn) (cc : Z) : out (Z * conn) :=
  let! _ := access (client s) in
  let! tree := opr_rbtree_remove (call_replies s) cc in
  let! (nv, s) := new_xid (set_replies tree s) cc in
  match nv with
  | Some _ => let! s := upd s cc (set_status RPC_TLIERROR) in Ret (RPC_TLIERROR, s)
  | None => let! s := upd s cc (set_status RPC_SUCCESS) in Ret (RPC_SUCCESS, s)
  end.

Definition setup_fields (timeout : timespec) (c : clnt_req) : clnt_req :=
  set_timeout timeout (set_refreshes 2 (set_flags CLNT_REQ_FLAG_NONE (set_status RPC_SUCCESS (set_errno 0 c)))).

Definition bad_timeout (t : timespec) : bool :=
  (tv_nsec t <? 0) || (999999999 <? tv_nsec t) || (tv_sec t <? 0).

Definition clnt_req_setup (s : conn) (cc : Z) (timeout : timespec) : out (Z * conn) :=
  let! _ := access (client s) in
  let! s := upd s cc (setup_fields timeout) in
  if bad_timeout timeout
  then let! s := upd s cc (set_status RPC_TLIERROR) in Ret (RPC_TLIERROR, s) else
  let! (nv, s) := new_xid s cc in
  match nv with
  | Some _ => let! s := upd s cc (set_status RPC_TLIERROR) in Ret (RPC_TLIERROR, s)
  | None => let! s := clnt_ref_it s in Ret (RPC_SUCCESS, s)
  end.

(** ** Expiry *)

(** [repeat: ... cc_expire_ms++; goto repeat]. *)
Fixpoint expire_insert_loop (fuel : nat) (s : conn) (cc : Z) : out conn :=
  let! (nv, tree) := opr_rbtree_insert (svc_rqst_expire_cmpf (expire_of (reqs s))) (call_expires s) cc in
  match nv with
  | None => Ret (set_expires tree s)
  | Some _ =>
      match fuel with
      | O => OutOfFuel
      | S fuel =>
          let! c := req s cc in
          let! ms := signed 32 (cc_expire_ms c + 1) in
          let! s := upd s cc (set_expire_ms ms) in expire_insert_loop fuel s cc
      end
  end.

Definition svc_rqst_expire_insert (now : timespec) (s : conn) (cc : Z) : out (bool * conn) :=
  let! _ := access (client s) in
  if negb (ev_p s) then Ret (false, s) else
  let! c := req s cc in
  let! ms := svc_rqst_expire_ms now (cc_timeout c) in
  let! s := upd s cc (set_expire_ms ms) in
  let! s := upd s cc (set_flags CLNT_REQ_FLAG_EXPIRING) in
  let! s := expire_insert_loop (size (rb_nodes (call_expires s))) s cc in
  Ret (true, s).

Definition svc_rqst_expire_remove (s : conn) (cc : Z) : out (bool * conn) :=
  let! _ := access (client s) in
  if negb (ev_p s) then Ret (false, s) else
  let! tree := opr_rbtree_remove (call_expires s) cc in
  Ret (true, set_expires tree s).

(** [svc_rqst_expire_remove(cc); cc->cc_expire_ms = 0;] *)
Definition unexpire (s : conn) (cc : Z) : out conn :=
  let! (_, s) := svc_rqst_expire_remove s cc in upd s cc (set_expire_ms 0).

(** [cl_call] is the transport's. *)
Definition clnt_req_callback (cl_call : conn → out (Z * conn)) (now : timespec) (s : conn) (cc : Z)
    : out (Z * conn) :=
  let! (ok, s) := svc_rqst_expire_insert now s cc in
  if negb ok then let! s := upd s cc (set_status RPC_TIMEDOUT) in Ret (RPC_TIMEDOUT, s) else
  cl_call s.

(** ** Giving a request up *)

Definition reset_replies (s : conn) (cc : Z) : out conn :=
  let! _ := access (client s) in
  let! tree := opr_rbtree_remove (call_replies s) cc in Ret (set_replies tree s).

Definition reset_flags (s : conn) (cc : Z) : out (bool * conn) :=
  let! (flags, s) := postclear s cc (Z.lor CLNT_REQ_FLAG_ACKSYNC CLNT_REQ_FLAG_EXPIRING) in
  Ret (any flags CLNT_REQ_FLAG_EXPIRING, s).

Definition clnt_req_reset (s : conn) (cc : Z) : out conn :=
  let! s := reset_replies s cc in
  let! (expiring, s) := reset_flags s cc in
  if expiring : bool then unexpire s cc else Ret s.

Definition release_dec (s : conn) (cc : Z) : out (Z * conn) :=
  let! c := req s cc in
  let refs := s32 (cc_refcnt c - 1) in
  let! s := upd s cc (set_refcnt refs) in Ret (refs, s).

(** [CLNT_RELEASE(cc->cc_clnt)], and then the memory goes. *)
Definition release_free (s : conn) (cc : Z) : out conn :=
  let! _ := req s cc in
  let! s := clnt_release_it s in
  let s := set_reqs (delete cc (reqs s)) s in
  let s := set_replies (set_nodes (delete cc (rb_nodes (call_replies s))) (call_replies s)) s in
  Ret (set_expires (set_nodes (delete cc (rb_nodes (call_expires s))) (call_expires s)) s).

Definition clnt_req_release (s : conn) (cc : Z) : out (Z * conn) :=
  let! (refs, s) := release_dec s cc in
  if 0 <? refs then Ret (refs, s) else
  let! s := clnt_req_reset s cc in
  let! s := release_free s cc in
  Ret (refs, s).

(** ** A reply *)

(** The key on the stack is at address 0, where no request is. *)
Definition reply_lookup (s : conn) (xid : Z) : out nptr :=
  opr_rbtree_lookup (clnt_req_xid_cmpf (λ p, if p =? 0 then xid else xid_of (reqs s) p)) (call_replies s) 0.

Definition reply_expiring (s : conn) (cc : Z) : out (bool * conn) :=
  let! (flags, s) := postclear s cc CLNT_REQ_FLAG_EXPIRING in
  Ret (any flags CLNT_REQ_FLAG_EXPIRING, s).

(** Whether this reply is the first news of the request. *)
Definition reply_ack (s : conn) (cc : Z) : out (bool * conn) :=
  let! (flags, s) := postset s cc CLNT_REQ_FLAG_ACKSYNC in
  if any flags (Z.lor CLNT_REQ_FLAG_ACKSYNC CLNT_REQ_FLAG_BACKSYNC)
  then let! s := upd s cc (set_refreshes 0) in Ret (false, s)
  else Ret (true, s).

(** What a reply makes of the request it answers. *)
Definition reply_result (m : rpc_msg T) (xdrs : XDR P) (c : clnt_req) : out clnt_req :=
  let c := set_error (_seterr_reply m (cc_error c)) c in
  if negb (re_status (cc_error c) =? RPC_SUCCESS) then Ret c else
  let c := set_verf (ar_verf (RPCM_ack m)) c in
  let! c :=
    if negb (ah_validate (cc_auth c) (cc_verf c))
    then Ret (set_error (set_re_why AUTH_INVALIDRESP (set_re_status RPC_AUTHERROR (cc_error c))) c)
    else
      match cc_reply_proc c with
      | None => Ret c
      | Some proc =>
          let! (ok, w, _) := ah_unwrap (cc_auth c) proc xdrs (cc_reply_where c) in
          let c := set_where w c in
          Ret (if ok : bool then c else set_status RPC_CANTDECODERES c)
      end in
  Ret (set_refreshes 0 c).

Definition reply_deliver (m : rpc_msg T) (xdrs : XDR P) (s : conn) (cc : Z) : out conn :=
  let! c := req s cc in
  let! c := reply_result m xdrs c in
  upd s cc (λ _, c).

(** The request whose callback runs, if one does. *)
Definition clnt_req_process_reply (s : conn) (rq_msg : rpc_msg T) (rq_xdrs : XDR P) : out (nptr * conn) :=
  let! nv := reply_lookup s (rm_xid rq_msg) in
  match nv with
  | None => Ret (None, s)
  | Some cc =>
      let! (expiring, s) := reply_expiring s cc in
      let! s := if expiring : bool then unexpire s cc else Ret s in
      let! (first, s) := reply_ack s cc in
      if negb first then Ret (None, s) else
      let! s := reply_deliver rq_msg rq_xdrs s cc in
      Ret (Some cc, s)
  end.

(** ** Expired calls *)

(** The first request to expire, if its time has come; the wait for the next one. *)
Definition sweep_pick (s : conn) (expire_ms : Z) : out (nptr * Z) :=
  let! n := opr_rbtree_first (call_expires s) in
  match n with
  | None => Ret (None, SVC_RQST_TIMEOUT_MS)
  | Some cc =>
      let! c := req s cc in
      if expire_ms <? cc_expire_ms c
      then let! ms := signed 32 (cc_expire_ms c - expire_ms) in Ret (None, ms)
      else Ret (Some cc, SVC_RQST_TIMEOUT_MS)
  end.

Definition sweep_clear (s : conn) (cc : Z) : out conn :=
  let! (_, s) := postclear s cc CLNT_REQ_FLAG_EXPIRING in Ret s.

Definition sweep_remove (s : conn) (cc : Z) : out conn :=
  let! tree := opr_rbtree_remove (call_expires s) cc in
  upd (set_expires tree s) cc (set_expire_ms 0).

(** The reference of the task that is submitted. *)
Definition sweep_submit (s : conn) (cc : Z) : out conn :=
  let! c := req s cc in upd s cc (set_refcnt (s32 (u32 (cc_refcnt c + 1)))).

(** The part of svc_rqst_epoll_loop under [ev_lock]: the time to wait, the requests whose
    task was submitted. *)
Fixpoint sweep_loop (fuel : nat) (s : conn) (expire_ms : Z) : out (Z * list Z * conn) :=
  let! (n, ms) := sweep_pick s expire_ms in
  match n with
  | None => Ret (ms, [], s)
  | Some cc =>
      match fuel with
      | O => OutOfFuel
      | S fuel =>
          let! s := sweep_clear s cc in
          let! s := sweep_remove s cc in
          let! s := sweep_submit s cc in
          let! (ms, tasks, s) := sweep_loop fuel s expire_ms in Ret (ms, cc :: tasks, s)
      end
  end.

Definition svc_rqst_sweep (s : conn) (now : timespec) : out (Z * list Z * conn) :=
  let! ms := timespec_ms now in sweep_loop (size (rb_nodes (call_expires s))) s (s32 ms).

(** The test of the count, and then of the flags; whether the callback is to run. *)
Definition expire_shared (s : conn) (cc : Z) : out bool :=
  let! c := req s cc in Ret (1 <? cc_refcnt c).

Definition expire_claim (s : conn) (cc : Z) : out (bool * conn) :=
  let! (flags, s) := postset s cc CLNT_REQ_FLAG_BACKSYNC in
  Ret (negb (any flags (Z.lor CLNT_REQ_FLAG_ACKSYNC CLNT_REQ_FLAG_BACKSYNC)), s).

Definition svc_rqst_expire_task (s : conn) (cc : Z) : out (bool * conn) :=
  let! shared := expire_shared s cc in
  let! (first, s) := if shared : bool then expire_claim s cc else Ret (false, s) in
  let! s := if first : bool then upd s cc (set_status RPC_TIMEDOUT) else Ret s in
  let! (_, s) := clnt_req_release s cc in
  Ret (first, s).

(** ** Waiting for the reply *)

(** What happens in one round: the call itself, the time after it, what other threads do while
    the caller waits, and whether the wait timed out and SVC_XPRT_FLAG_DESTROYED is set then. *)
Record round := mk_round {
  rd_call : conn → out (Z * conn);
  rd_now : timespec;
  rd_meanwhile : conn → out conn;
  rd_timedout : bool;
  rd_destroyed : bool;
}.

Definition wait_again (s : conn) (cc : Z) : out (option Z * conn) :=
  let! c := req s cc in
  let! (stat, s) :=
    if re_status (cc_error c) =? RPC_AUTHERROR then
      if negb (ah_refresh (cc_auth c)) then Ret (Some RPC_AUTHERROR, s) else
      let! (stat, s) := clnt_req_refresh s cc in
      let! c := req s cc in
      Ret (if negb (stat =? RPC_SUCCESS) then Some (re_status (cc_error c)) else None, s)
    else Ret (None, s) in
  match stat with
  | Some stat => Ret (Some stat, s)
  | None => let! (_, s) := postclear s cc CLNT_REQ_FLAG_ACKSYNC in Ret (None, s)
  end.

(** One turn from [call_again], a result or none when it goes back there. *)
Definition wait_once (r : round) (s : conn) (cc : Z) : out (option Z * conn) :=
  let! (stat, s) := rd_call r s in
  let! s := upd s cc (set_status stat) in
  if negb (stat =? RPC_SUCCESS) then Ret (Some stat, s) else
  let! c := req s cc in
  let! to := signed 64 (tv_sec (cc_timeout c) + tv_nsec (cc_timeout c)) in
  if to =? 0 then Ret (Some RPC_SUCCESS, s) else
  let! _ := timespecadd (rd_now r) (cc_timeout c) in
  let! s := rd_meanwhile r s in
  let! c := req s cc in
  if negb (any (cc_flags c) CLNT_REQ_FLAG_ACKSYNC) && rd_timedout r && rd_destroyed r
  then let! s := upd s cc (set_status RPC_TIMEDOUT) in Ret (Some RPC_TIMEDOUT, s) else
  let again := 0 <? cc_refreshes c in
  let! ms := signed 32 (cc_refreshes c - 1) in
  let! s := upd s cc (set_refreshes ms) in
  if again : bool then wait_again s cc else
  if rd_timedout r
  then let! s := upd s cc (set_status RPC_TIMEDOUT) in Ret (Some RPC_TIMEDOUT, s)
  else Ret (Some (re_status (cc_error c)), s).

(** The rounds that took place, and the result. *)
Fixpoint clnt_req_wait_reply (rounds : list round) (s : conn) (cc : Z) : out (nat * Z * conn) :=
  match rounds with
  | [] => OutOfFuel
  | r :: rounds =>
      let! (stat, s) := wait_once r s cc in
      match stat with
      | Some stat => Ret (1%nat, stat, s)
      | None => let! (n, stat, s) := clnt_req_wait_reply rounds s cc in Ret (S n, stat, s)
      end
  end.
End Client.
