(* ===== verification/ClntReqFacts.v ===== *)
(** * Facts on the calls of a client

    [conn_ok] relates a connection to the requests that wait for a reply and those that will
    expire; each piece of ClntReq.v is followed on it. *)
From stdpp Require Import base gmap list sorting.
From Stdlib Require Import ZArith Lia.
From S2P Require Import Prelude Machine XdrHandle RpcMsg RbTree RbTable ClntReq.

Section Facts.
Context {P R T : Type}.
Abbreviation connection := (@conn P R).
Abbreviation request := (@clnt_req P R).
Implicit Types (s : connection) (c : request) (cc : Z) (W X : list Z).

Definition expiring c : bool := any (cc_flags c) CLNT_REQ_FLAG_EXPIRING.

(** The requests [W] wait in [call_replies], the requests [X] in [call_expires] and have the
    flag that says so; both trees are made of nodes of requests in memory. *)
Record conn_ok s W X : Prop := {
  ok_replies : table (xid_of (reqs s)) (call_replies s) W;
  ok_expires : table (expire_of (reqs s)) (call_expires s) X;
  ok_dplx : dom (rb_nodes (call_replies s)) = dom (reqs s);
  ok_rqst : dom (rb_nodes (call_expires s)) = dom (reqs s);
  ok_null : reqs s !! 0 = None;
  ok_flags : ∀ cc c, reqs s !! cc = Some c → expiring c = true ↔ cc ∈ X;
  ok_channel : ev_p s = true;
  ok_client : is_Some (client s);
}.

Lemma node_of (s : opr_rbtree) (m : gmap Z request) cc c :
  dom (rb_nodes s) = dom m → m !! cc = Some c → ∃ n, rb_nodes s !! cc = Some n.
Proof.
  intros Hd Hc. apply (elem_of_dom (rb_nodes s)). rewrite Hd. apply elem_of_dom. by exists c.
Qed.

Lemma waiting_live s W X cc : conn_ok s W X → cc ∈ W → ∃ c, reqs s !! cc = Some c.
Proof.
  intros Hok Hcc. apply (elem_of_dom (reqs s)). rewrite <- (ok_dplx _ _ _ Hok). apply elem_of_dom.
  eapply table_allocd; [apply Hok|done].
Qed.

Lemma expiring_live s W X cc : conn_ok s W X → cc ∈ X → ∃ c, reqs s !! cc = Some c.
Proof.
  intros Hok Hcc. apply (elem_of_dom (reqs s)). rewrite <- (ok_rqst _ _ _ Hok). apply elem_of_dom.
  eapply table_allocd; [apply Hok|done].
Qed.

Lemma req_ok s cc c : reqs s !! cc = Some c → req s cc = Ret c.
Proof. unfold req. by intros ->. Qed.

(** [s] with the request at [cc] replaced. *)
Definition put s cc c : connection := set_reqs (<[cc := c]> (reqs s)) s.

Lemma upd_ok s cc c f : reqs s !! cc = Some c → upd s cc f = Ret (put s cc (f c)).
Proof. intros Hc. unfold upd. by rewrite (req_ok _ _ _ Hc). Qed.

Lemma put_same s cc c : reqs (put s cc c) !! cc = Some c.
Proof. apply lookup_insert_eq. Qed.

Lemma put_put s cc c c' : put (put s cc c) cc c' = put s cc c'.
Proof. unfold put. cbn. by rewrite insert_insert_eq. Qed.

Lemma key_insert {K} (f : request → K) (d : K) (m : gmap Z request) cc c c' x :
  m !! cc = Some c → f c' = f c ∨ x ≠ cc →
  match (<[cc := c']> m) !! x with Some c => f c | None => d end = match m !! x with Some c => f c | None => d end.
Proof.
  intros Hc Hx. destruct (decide (cc = x)) as [<-|Hn].
  - rewrite lookup_insert_eq, Hc. destruct Hx; done.
  - by rewrite lookup_insert_ne.
Qed.

(** A write to a request keeps the trees when it keeps the keys under which the request is
    in them and its flag. *)
Lemma put_ok s W X cc c c' : conn_ok s W X → reqs s !! cc = Some c →
  (cc ∈ W → cc_xid c' = cc_xid c) → (cc ∈ X → cc_expire_ms c' = cc_expire_ms c) → expiring c' = expiring c →
  conn_ok (put s cc c') W X.
Proof.
  intros [] Hc Hw Hx Hf. unfold put. constructor; cbn; try done.
  - eapply table_ext; [|done]. intros x Hx'. apply (key_insert cc_xid 0 _ cc c); [done|].
    destruct (decide (x = cc)) as [->|]; auto.
  - eapply table_ext; [|done]. intros x Hx'. apply (key_insert cc_expire_ms 0 _ cc c); [done|].
    destruct (decide (x = cc)) as [->|]; auto.
  - rewrite dom_insert_lookup_L; [done|by exists c].
  - rewrite dom_insert_lookup_L; [done|by exists c].
  - rewrite lookup_insert_ne; [done|]. by intros ->; congruence.
  - intros x cx. destruct (decide (cc = x)) as [<-|]; [rewrite lookup_insert_eq; intros [= <-]; rewrite Hf; eauto|].
    rewrite lookup_insert_ne by done. eauto.
Qed.

(** ** Leaving the trees *)

Lemma any_cleared flags bits bit : Z.land bit bits = bit → any (Z.land flags (Z.lnot bits)) bit = false.
Proof.
  intros Hb. unfold any. rewrite negb_false_iff, Z.eqb_eq, <- Z.land_assoc, <- Hb.
  rewrite (Z.land_comm bit bits), (Z.land_assoc (Z.lnot bits)), (Z.land_comm (Z.lnot bits)), Z.land_lnot_diag.
  by rewrite Z.land_0_l, Z.land_0_r.
Qed.

(** The flags [bits] cleared, and with them the time when the request was to expire. *)
Definition calm (bits : Z) c : request :=
  let c' := set_flags (Z.land (cc_flags c) (Z.lnot bits)) c in if expiring c then set_expire_ms 0 c' else c'.

Lemma not_in_filter cc X : cc ∉ filter (λ y, y ≠ cc) X.
Proof. rewrite list_elem_of_filter. tauto. Qed.

Lemma filter_absent cc X : cc ∉ X → filter (λ y, y ≠ cc) X = X.
Proof. intros Hn. apply filter_all, Forall_forall. by intros y Hy ->. Qed.

Lemma unexpire_ok s W X cc c bits : conn_ok s W X → reqs s !! cc = Some c →
  Z.land CLNT_REQ_FLAG_EXPIRING bits = CLNT_REQ_FLAG_EXPIRING →
  ∃ tree, (let! (flags, s) := postclear s cc bits in
           if any flags CLNT_REQ_FLAG_EXPIRING then unexpire s cc else Ret s) =
          Ret (set_expires tree (put s cc (calm bits c))) ∧
          conn_ok (set_expires tree (put s cc (calm bits c))) W (filter (λ y, y ≠ cc) X).
Proof.
  intros Hok Hc Hbits. pose proof Hok as []. unfold postclear. rewrite (req_ok _ _ _ Hc). cbn [obind].
  rewrite (upd_ok _ _ _ _ Hc). cbn [obind]. fold (expiring c). unfold calm.
  set (c1 := set_flags (Z.land (cc_flags c) (Z.lnot bits)) c).
  assert (Hq : expiring c1 = false) by (by apply any_cleared).
  destruct (expiring c) eqn:He.
  - unfold unexpire, svc_rqst_expire_remove. destruct (client s) as [cl|] eqn:Hcl; [|by destruct ok_client0].
    change (client (put s cc c1)) with (client s). change (ev_p (put s cc c1)) with (ev_p s).
    change (call_expires (put s cc c1)) with (call_expires s). rewrite Hcl, ok_channel0. cbn [access obind negb].
    destruct (node_of (call_expires s) (reqs s) cc c) as [n Hn]; [done..|].
    destruct (table_remove _ _ X cc n ok_expires0 Hn) as (tree & -> & Ht & Hd). cbn [obind].
    rewrite (upd_ok _ cc c1) by apply lookup_insert_eq. exists tree. unfold put. cbn.
    rewrite insert_insert_eq. split; [done|]. constructor; cbn; try done.
    + eapply table_ext; [|exact ok_replies0]. intros x _. apply (key_insert cc_xid 0 _ cc c); [done|by left].
    + eapply table_ext; [|exact Ht]. intros x Hx. apply (key_insert cc_expire_ms 0 _ cc c); [done|].
      right. intros ->. by apply not_in_filter in Hx.
    + rewrite dom_insert_lookup_L; [done|by exists c].
    + rewrite dom_insert_lookup_L; [congruence|by exists c].
    + rewrite lookup_insert_ne; [done|]. intros ->; congruence.
    + intros x cx. destruct (decide (cc = x)) as [<-|Hne].
      * rewrite lookup_insert_eq. intros [= <-]. change (expiring (set_expire_ms 0 c1)) with (expiring c1).
        rewrite Hq. split; [done|]. by intros ?%not_in_filter.
      * rewrite lookup_insert_ne by done. intros Hx. rewrite (ok_flags0 x cx Hx), list_elem_of_filter.
        split; [intros; split; [by intros ->|done]|tauto].
  - assert (Hn : cc ∉ X) by (intros H; apply (ok_flags0 cc c Hc) in H; congruence).
    exists (call_expires s). rewrite filter_absent by done. split; [by destruct s|].
    change (conn_ok (put s cc c1) W X). eapply put_ok; [done|done|done|done|congruence].
Qed.

Lemma reset_replies_ok s W X cc c : conn_ok s W X → reqs s !! cc = Some c →
  ∃ tree, reset_replies s cc = Ret (set_replies tree s) ∧ conn_ok (set_replies tree s) (filter (λ y, y ≠ cc) W) X.
Proof.
  intros [] Hc. unfold reset_replies. destruct (client s) as [cl|] eqn:Hcl; [|by destruct ok_client0]. cbn [access obind].
  destruct (node_of (call_replies s) (reqs s) cc c) as [n Hn]; [done..|].
  destruct (table_remove _ _ W cc n ok_replies0 Hn) as (tree & -> & Ht & Hd). exists tree. split; [done|].
  constructor; cbn; try done; congruence.
Qed.

Definition RESET_BITS : Z := Z.lor CLNT_REQ_FLAG_ACKSYNC CLNT_REQ_FLAG_EXPIRING.

Lemma clnt_req_reset_ok s W X cc c : conn_ok s W X → reqs s !! cc = Some c →
  ∃ t t', let s' := set_expires t' (put (set_replies t s) cc (calm RESET_BITS c)) in
    clnt_req_reset s cc = Ret s' ∧ conn_ok s' (filter (λ y, y ≠ cc) W) (filter (λ y, y ≠ cc) X).
Proof.
  intros Hok Hc. unfold clnt_req_reset. destruct (reset_replies_ok s W X cc c Hok Hc) as (t & -> & Hok1).
  cbn [obind]. destruct (unexpire_ok _ _ _ cc c RESET_BITS Hok1 Hc) as (t' & E & Hok2); [done|].
  exists t, t'. cbn zeta. split; [|done]. rewrite <- E. unfold reset_flags, RESET_BITS.
  by destruct (postclear _ _ _) as [[] | | |].
Qed.

(** ** Replies *)

Lemma reply_lookup_ok s W X xid : conn_ok s W X →
  ∃ r, reply_lookup s xid = Ret r ∧
    match r with
    | Some cc => cc ∈ W ∧ ∃ c, reqs s !! cc = Some c ∧ cc_xid c = xid
    | None => ∀ cc c, cc ∈ W → reqs s !! cc = Some c → cc_xid c ≠ xid
    end.
Proof.
  intros Hok. unfold reply_lookup, clnt_req_xid_cmpf.
  set (key := λ p, if p =? 0 then xid else xid_of (reqs s) p).
  destruct (table_lookup (xid_of (reqs s)) key (call_replies s) W 0) as (r & E & Hr); [|apply Hok|].
  { intros q Hq. destruct (waiting_live s W X q Hok Hq) as [c Hc]. unfold key.
    destruct (Z.eqb_spec q 0) as [->|]; [|done]. rewrite (ok_null _ _ _ Hok) in Hc. done. }
  exists r. split; [exact E|]. change (key 0) with xid in Hr. destruct r as [cc|].
  - destruct Hr as [Hcc Hx]. split; [done|]. destruct (waiting_live s W X cc Hok Hcc) as [c Hc].
    exists c. split; [done|]. unfold xid_of in Hx. by rewrite Hc in Hx.
  - intros cc c Hcc Hc Hx. apply (Hr cc Hcc). unfold xid_of. by rewrite Hc.
Qed.

(** Transaction ids tell waiting requests apart. *)
Lemma waiting_inj s W X cc cc' c c' : conn_ok s W X → cc ∈ W → cc' ∈ W →
  reqs s !! cc = Some c → reqs s !! cc' = Some c' → cc_xid c = cc_xid c' → cc = cc'.
Proof.
  intros Hok Hcc Hcc' Hc Hc' Hx. pose proof (table_sorted _ _ _ (ok_replies _ _ _ Hok)) as Hs.
  assert (Hk : xid_of (reqs s) cc = xid_of (reqs s) cc') by (unfold xid_of; by rewrite Hc, Hc').
  clear - Hs Hcc Hcc' Hk. induction Hs as [|x l _ IH Hx]; [by apply not_elem_of_nil in Hcc|].
  rewrite Forall_forall in Hx. apply elem_of_cons in Hcc as [->|Hcc], Hcc' as [->|Hcc'].
  - done.
  - specialize (Hx _ Hcc'). lia.
  - specialize (Hx _ Hcc). lia.
  - by apply IH.
Qed.

(** Whether news of the request have been claimed, by a reply or by the timer. *)
Definition claimed c : bool := any (cc_flags c) (Z.lor CLNT_REQ_FLAG_ACKSYNC CLNT_REQ_FLAG_BACKSYNC).

Definition acked c : request := set_flags (Z.lor (cc_flags c) CLNT_REQ_FLAG_ACKSYNC) c.

Lemma any_lor a b bit : any (Z.lor a b) bit = any a bit || any b bit.
Proof.
  unfold any. rewrite Z.land_lor_distr_l. destruct (Z.eqb_spec (Z.land a bit) 0) as [->|Ha]; [done|]. cbn.
  destruct (Z.eqb_spec (Z.lor (Z.land a bit) (Z.land b bit)) 0) as [E|]; [|done].
  by apply Z.lor_eq_0_iff in E as [? _].
Qed.

Lemma expiring_acked c : expiring (acked c) = expiring c.
Proof. unfold expiring, acked. cbn. rewrite any_lor. apply orb_false_r. Qed.

Lemma reply_ack_ok s cc c : reqs s !! cc = Some c →
  reply_ack s cc = Ret (negb (claimed c), put s cc (if claimed c then set_refreshes 0 (acked c) else acked c)).
Proof.
  intros Hc. unfold reply_ack, postset. rewrite (req_ok _ _ _ Hc). cbn [obind]. rewrite (upd_ok _ _ _ _ Hc). cbn [obind].
  fold (claimed c). destruct (claimed c); [|done]. rewrite (upd_ok _ cc (acked c)) by apply put_same. cbn [obind].
  by rewrite put_put.
Qed.

(** Delivery keeps what the trees depend on. *)
Lemma reply_result_keeps (m : rpc_msg T) xdrs c c' : reply_result m xdrs c = Ret c' →
  cc_xid c' = cc_xid c ∧ cc_expire_ms c' = cc_expire_ms c ∧ cc_flags c' = cc_flags c ∧ cc_refcnt c' = cc_refcnt c.
Proof.
  unfold reply_result. destruct (negb (re_status _ =? RPC_SUCCESS)); [by intros [= <-]|].
  destruct (negb (ah_validate _ _)); [by intros [= <-]|]. cbn.
  destruct (cc_reply_proc c) as [f|]; [|by intros [= <-]].
  destruct (ah_unwrap _ _ _ _) as [[[ok w] x]| | |]; try done. cbn. intros [= <-]. by destruct ok.
Qed.

Lemma expiring_calm bits c : Z.land CLNT_REQ_FLAG_EXPIRING bits = CLNT_REQ_FLAG_EXPIRING →
  expiring (calm bits c) = false.
Proof.
  intros Hb. unfold calm.
  destruct (expiring c); unfold expiring; cbn [cc_flags set_expire_ms set_flags]; by apply any_cleared.
Qed.

(** The request that a reply with its transaction id finds, before its results are decoded. *)
Definition answered c : request := acked (calm CLNT_REQ_FLAG_EXPIRING c).

Lemma process_reply_ok s W X (m : rpc_msg T) xdrs cc c :
  conn_ok s W X → cc ∈ W → reqs s !! cc = Some c → cc_xid c = rm_xid m →
  (claimed c = true ∧ ∃ tree, let s' := set_expires tree (put s cc (set_refreshes 0 (answered c))) in
     clnt_req_process_reply s m xdrs = Ret (None, s') ∧ conn_ok s' W (filter (λ y, y ≠ cc) X)) ∨
  (claimed c = false ∧ ∃ tree,
     clnt_req_process_reply s m xdrs =
       (let! c' := reply_result m xdrs (answered c) in Ret (Some cc, set_expires tree (put s cc c'))) ∧
     ∀ c', reply_result m xdrs (answered c) = Ret c' → conn_ok (set_expires tree (put s cc c')) W (filter (λ y, y ≠ cc) X)).
Proof.
  intros Hok Hcc Hc Hx. unfold clnt_req_process_reply.
  destruct (reply_lookup_ok s W X (rm_xid m) Hok) as (r & -> & Hr). cbn [obind].
  destruct r as [q|]; [|by destruct (Hr cc c)]. destruct Hr as (Hq & cq & Hcq & Hxq).
  assert (q = cc) as -> by (eapply (waiting_inj s W X q cc cq c); try done; congruence).
  destruct (unexpire_ok s W X cc c CLNT_REQ_FLAG_EXPIRING Hok Hc eq_refl) as (tree & E & Hok1).
  assert (Hcl : claimed (calm CLNT_REQ_FLAG_EXPIRING c) = claimed c).
  { unfold calm, claimed. destruct (expiring c); cbn [cc_flags set_expire_ms set_flags]; unfold any;
      by rewrite <- Z.land_assoc. }
  set (s1 := set_expires tree (put s cc (calm CLNT_REQ_FLAG_EXPIRING c))) in *.
  assert (H1 : reqs s1 !! cc = Some (calm CLNT_REQ_FLAG_EXPIRING c)) by apply put_same.
  unfold reply_expiring. destruct (postclear s cc CLNT_REQ_FLAG_EXPIRING) as [[flags s0]| | |]; try done.
  cbn [obind] in E |- *. rewrite E. cbn [obind]. rewrite (reply_ack_ok _ _ _ H1), Hcl. cbn [obind].
  fold (answered c). assert (Hp : ∀ c', put s1 cc c' = set_expires tree (put s cc c')).
  { intros c'. unfold s1, put. cbn. by rewrite insert_insert_eq. }
  assert (Hput : ∀ c', cc_xid c' = cc_xid (answered c) → cc_expire_ms c' = cc_expire_ms (answered c) →
    cc_flags c' = cc_flags (answered c) → conn_ok (put s1 cc c') W (filter (λ y, y ≠ cc) X)).
  { intros c' E1 E2 E3. eapply put_ok; [done|done|by intros|by intros|].
    unfold expiring at 1. rewrite E3. apply expiring_acked. }
  destruct (claimed c); [left|right]; (split; [done|]); exists tree; cbn [negb]; rewrite <- ?Hp.
  - cbn zeta. split; [done|]. by apply Hput.
  - unfold reply_deliver. rewrite (req_ok _ cc (answered c)) by apply put_same. cbn [obind].
    destruct (reply_result m xdrs (answered c)) as [c'| | |] eqn:Er; cbn [obind].
    + rewrite (upd_ok _ cc (answered c)) by apply put_same. cbn [obind]. rewrite put_put, Hp. split; [done|].
      intros ? [= <-]. apply reply_result_keeps in Er as (? & ? & ? & ?). rewrite <- Hp. by apply Hput.
    + done.
    + done.
    + done.
Qed.

(** ** Transaction ids *)

Definition next_xid s : Z := u32 (call_xid s + 1).

(** [s] with the next transaction id given to [cc]. *)
Definition with_xid s cc c : connection := put (set_call_xid (next_xid s) s) cc (set_xid (next_xid s) c).

Lemma new_xid_ok s W X cc c : conn_ok s W X → reqs s !! cc = Some c → cc ∉ W →
  (∃ q cq, new_xid s cc = Ret (Some q, with_xid s cc c) ∧ q ∈ W ∧ reqs s !! q = Some cq ∧
     cc_xid cq = next_xid s ∧ conn_ok (with_xid s cc c) W X) ∨
  (∃ tree W', new_xid s cc = Ret (None, set_replies tree (with_xid s cc c)) ∧ W' ≡ₚ cc :: W ∧
     (∀ q cq, q ∈ W → reqs s !! q = Some cq → cc_xid cq ≠ next_xid s) ∧
     conn_ok (set_replies tree (with_xid s cc c)) W' X).
Proof.
  intros Hok Hc Hn. pose proof Hok as [].
  assert (Hok' : conn_ok (set_call_xid (next_xid s) s) W X) by (by constructor).
  assert (Hw : conn_ok (with_xid s cc c) W X) by (by eapply put_ok).
  destruct (node_of (call_replies s) (reqs s) cc c) as [n Hcn]; [done..|].
  assert (Hg : n_gen n = 0).
  { apply dec_stable. intros Hg. by apply (table_gen _ _ W cc n ok_replies0 Hcn) in Hg. }
  assert (Hk : ∀ q cq, q ∈ W → reqs s !! q = Some cq → xid_of (reqs (with_xid s cc c)) q = cc_xid cq).
  { intros q cq Hq Hcq. unfold with_xid, put, xid_of. cbn. rewrite lookup_insert_ne by (by intros ->). by rewrite Hcq. }
  assert (Hself : xid_of (reqs (with_xid s cc c)) cc = next_xid s) by (unfold xid_of, with_xid; by rewrite put_same).
  unfold new_xid. rewrite (upd_ok _ cc c) by exact Hc. cbn [obind].
  change (put _ cc _) with (with_xid s cc c). unfold clnt_req_xid_cmpf.
  destruct (table_insert _ _ W cc n (ok_replies _ _ _ Hw) Hcn Hg) as
    [(q & E & Hq & Hx)|(tree & W' & E & Ht & Hp & Hx & Hd)]; rewrite E; cbn [obind]; [left|right].
  - destruct (waiting_live s W X q Hok Hq) as [cq Hcq]. exists q, cq. rewrite Hself, (Hk q cq Hq Hcq) in Hx. by split_and!.
  - exists tree, W'. split; [done|]. split; [done|]. split.
    { intros q cq Hq Hcq. specialize (Hx q Hq). by rewrite Hself, (Hk q cq Hq Hcq) in Hx. }
    destruct Hw. constructor; try done. cbn in *. congruence.
Qed.

(** The state of a request once it is set up. *)
Definition fresh_call (timeout : timespec) (xid : Z) c : request := set_xid xid (setup_fields timeout c).

Lemma clnt_req_setup_ok s W X cc c cl timeout :
  conn_ok s W X → reqs s !! cc = Some c → cc ∉ W → cc ∉ X → client s = Some cl →
  (∃ s' c', clnt_req_setup s cc timeout = Ret (RPC_TLIERROR, s') ∧ conn_ok s' W X ∧ client s' = Some cl ∧
     reqs s' = <[cc := c']> (reqs s) ∧ cc_refcnt c' = cc_refcnt c ∧
     (bad_timeout timeout = true ∨ ∃ q cq, q ∈ W ∧ reqs s !! q = Some cq ∧ cc_xid cq = next_xid s)) ∨
  (∃ s' W', clnt_req_setup s cc timeout = Ret (RPC_SUCCESS, s') ∧ conn_ok s' W' X ∧ W' ≡ₚ cc :: W ∧
     client s' = Some (mk_client (s32 (cl_refcnt cl + 1)) (cl_releasing cl)) ∧
     reqs s' = <[cc := fresh_call timeout (next_xid s) c]> (reqs s) ∧ bad_timeout timeout = false).
Proof.
  intros Hok Hc Hw Hx Hcl. unfold clnt_req_setup. rewrite Hcl. cbn [access obind].
  rewrite (upd_ok _ cc c) by done. cbn [obind]. set (c1 := setup_fields timeout c).
  assert (Hok1 : conn_ok (put s cc c1) W X).
  { eapply put_ok; [done|done|done|done|]. change (expiring c1) with false. symmetry.
    apply not_true_iff_false. intros He. by apply (ok_flags _ _ _ Hok cc c Hc) in He. }
  assert (Hput : ∀ s1 c0 c', conn_ok s1 W X → reqs s1 !! cc = Some c0 → cc_flags c' = cc_flags c0 → conn_ok (put s1 cc c') W X).
  { intros s1 c0 c' H1 H2 E. eapply put_ok; [done|done|done|done|]. unfold expiring. by rewrite E. }
  destruct (bad_timeout timeout) eqn:Hb.
  { left. rewrite (upd_ok _ cc c1) by apply put_same. cbn [obind]. rewrite put_put.
    exists (put s cc (set_status RPC_TLIERROR c1)), (set_status RPC_TLIERROR c1).
    split; [done|]. split; [rewrite <- (put_put s cc c1); by eapply Hput; [|apply put_same|]|]. split_and!; auto. }
  destruct (new_xid_ok _ W X cc c1 Hok1 (put_same _ _ _) Hw) as
    [(q & cq & E & Hq & Hcq & Hxq & Hok2)|(tree & W' & E & Hp & Hd & Hok2)]; rewrite E; cbn [obind]; [left|right].
  - unfold with_xid in *. set (c2 := set_xid _ c1) in *.
    rewrite (upd_ok _ cc c2) by apply put_same. cbn [obind]. rewrite put_put.
    eexists _, (set_status RPC_TLIERROR c2). split; [done|].
    split; [rewrite <- (put_put _ cc c2); by eapply Hput; [|apply put_same|]|].
    split; [done|]. split; [by unfold put; cbn; rewrite insert_insert_eq|]. split; [done|]. right. exists q, cq.
    split_and!; [done| |done]. cbn in Hcq. rewrite lookup_insert_ne in Hcq by (by intros ->). done.
  - unfold clnt_ref_it. cbn [set_replies with_xid put set_reqs set_call_xid client]. rewrite Hcl. cbn [access obind].
    eexists _, W'. split; [done|]. destruct Hok2. split; [constructor; try done; by eexists|]. split; [done|].
    split; [done|]. split; [|done]. cbn. by rewrite insert_insert_eq.
Qed.

Lemma clnt_req_refresh_ok s W X cc c : conn_ok s W X → reqs s !! cc = Some c →
  ∃ stat s' W' c', clnt_req_refresh s cc = Ret (stat, s') ∧ conn_ok s' W' X ∧ client s' = client s ∧
    reqs s' = <[cc := c']> (reqs s) ∧ cc_refcnt c' = cc_refcnt c ∧ cc_expire_ms c' = cc_expire_ms c ∧
    (∀ q, q ∈ W' → q ∈ cc :: W) ∧
    (stat = RPC_SUCCESS ∧ cc ∈ W' ∧ cc_xid c' = next_xid s ∨ stat = RPC_TLIERROR ∧ cc ∉ W') ∧
    cc_refreshes c' = cc_refreshes c ∧ cc_timeout c' = cc_timeout c.
Proof.
  intros Hok Hc. unfold clnt_req_refresh. destruct (reset_replies_ok s W X cc c Hok Hc) as (t & E & Hok1).
  unfold reset_replies in E. destruct (access (client s)) as [cl| | |]; try done. cbn [obind] in E |- *.
  destruct (opr_rbtree_remove (call_replies s) cc) as [t'| | |]; try done. injection E as ->. cbn [obind].
  assert (Hs : ∀ s1 W1 c1 v, conn_ok s1 W1 X → reqs s1 !! cc = Some c1 →
    upd s1 cc (set_status v) = Ret (put s1 cc (set_status v c1)) ∧ conn_ok (put s1 cc (set_status v c1)) W1 X).
  { intros s1 W1 c1 v H1 H2. split; [by apply upd_ok|]. by eapply put_ok. }
  destruct (new_xid_ok _ _ X cc c Hok1 Hc (not_in_filter cc W)) as
    [(q & cq & -> & _ & _ & _ & Hok2)|(tree & W' & -> & Hp & _ & Hok2)]; cbn [obind].
  - edestruct (Hs _ _ (set_xid (next_xid s) c) RPC_TLIERROR Hok2) as [-> Hok3]; [apply put_same|]. cbn [obind].
    eexists RPC_TLIERROR, _, _, _. split; [done|]. split; [exact Hok3|]. split; [done|].
    split; [by unfold with_xid, put; cbn; rewrite insert_insert_eq|]. split; [done|]. split; [done|]. split.
    + intros q' [_ Hq]%list_elem_of_filter. by right.
    + split; [|done]. right. split; [done|]. apply not_in_filter.
  - edestruct (Hs _ _ (set_xid (next_xid s) c) RPC_SUCCESS Hok2) as [-> Hok3]; [apply put_same|]. cbn [obind].
    eexists RPC_SUCCESS, _, _, _. split; [done|]. split; [exact Hok3|]. split; [done|].
    split; [by unfold with_xid, put; cbn; rewrite insert_insert_eq|]. split; [done|]. split; [done|]. split.
    + intros q'. rewrite Hp. intros [->|[_ Hq]%list_elem_of_filter]%elem_of_cons; [by left|by right].
    + split; [|done]. left. rewrite Hp. split_and!; [done|by left|done].
Qed.

(** ** Expiry *)

(** The requests from which the search for a free millisecond may still have to move on. *)
Definition later (key : Z → Z) (ms : Z) X : nat := length (filter (λ q, ms ≤ key q) X).

Lemma later_cons key ms x X : later key ms (x :: X) = ((if decide (ms ≤ key x)%Z then 1 else 0) + later key ms X)%nat.
Proof. unfold later. rewrite filter_cons. by case_decide. Qed.

Lemma later_mono key ms X : (later key (ms + 1) X ≤ later key ms X)%nat.
Proof. induction X as [|x X IH]; [done|]. rewrite !later_cons. repeat case_decide; lia. Qed.

Lemma later_step key ms X q : q ∈ X → key q = ms → (later key (ms + 1) X < later key ms X)%nat.
Proof.
  intros Hq Hk. induction X as [|x X IH]; [by apply not_elem_of_nil in Hq|]. rewrite !later_cons.
  pose proof (later_mono key ms X). apply elem_of_cons in Hq as [->|Hq].
  - rewrite decide_False, decide_True by lia. lia.
  - specialize (IH Hq). repeat case_decide; lia.
Qed.

Lemma expire_insert_loop_ok fuel s X cc c n :
  table (expire_of (reqs s)) (call_expires s) X → rb_nodes (call_expires s) !! cc = Some n → cc ∉ X →
  reqs s !! cc = Some c → (later (expire_of (reqs s)) (cc_expire_ms c) X ≤ fuel)%nat →
  is_s 32 (cc_expire_ms c) →
  cc_expire_ms c + Z.of_nat (later (expire_of (reqs s)) (cc_expire_ms c) X) ≤ INT_MAX →
  ∃ ms tree X', let s' := put s cc (set_expire_ms ms c) in
    expire_insert_loop fuel s cc = Ret (set_expires tree s') ∧
    cc_expire_ms c ≤ ms ≤ cc_expire_ms c + Z.of_nat (later (expire_of (reqs s)) (cc_expire_ms c) X) ∧
    table (expire_of (reqs s')) tree X' ∧ X' ≡ₚ cc :: X ∧ dom (rb_nodes tree) = dom (rb_nodes (call_expires s)).
Proof.
  revert s c. induction fuel as [fuel IH] using lt_wf_ind. intros s c Ht Hn Hcc Hc Hf Hms Hmax.
  assert (Hg : n_gen n = 0) by (apply dec_stable; intros Hg; by apply (table_gen _ _ X cc n Ht Hn) in Hg).
  assert (Hself : expire_of (reqs s) cc = cc_expire_ms c) by (unfold expire_of; by rewrite Hc).
  assert (Hid : put s cc (set_expire_ms (cc_expire_ms c) c) = s).
  { unfold put. rewrite insert_id; [by destruct s|]. rewrite Hc. by destruct c. }
  destruct (table_insert _ _ X cc n Ht Hn Hg) as [(q & E & Hq & Hk)|(tree & X' & E & Ht' & Hp & _ & Hd)];
    destruct fuel as [|fuel]; cbn [expire_insert_loop]; unfold svc_rqst_expire_cmpf; rewrite E; cbn [obind].
  - rewrite Hself in Hk. pose proof (later_step _ _ X q Hq Hk). lia.
  - rewrite Hself in Hk. pose proof (later_step _ _ X q Hq Hk) as Hl.
    rewrite (req_ok _ _ _ Hc). cbn [obind]. unfold signed. rewrite decide_True by (unfold is_s, INT_MAX in *; lia).
    cbn [obind]. rewrite (upd_ok _ _ _ _ Hc). cbn [obind]. set (c' := set_expire_ms (cc_expire_ms c + 1) c).
    assert (Hext : ∀ x, x ∈ X → expire_of (reqs (put s cc c')) x = expire_of (reqs s) x).
    { intros x Hx. apply (key_insert cc_expire_ms 0 _ cc c); [done|]. right. by intros ->. }
    assert (Hlat : ∀ ms, later (expire_of (reqs (put s cc c'))) ms X = later (expire_of (reqs s)) ms X).
    { intros ms. unfold later. f_equal. clear - Hext. induction X as [|x X IH]; [done|].
      rewrite !filter_cons, Hext by (by left). rewrite IH by (intros; apply Hext; by right). done. }
    edestruct (IH fuel ltac:(lia) (put s cc c') c') as (ms & tree & X' & E' & Hr & Ht' & Hp & Hd).
    + eapply table_ext; [|exact Ht]. done.
    + done.
    + done.
    + apply put_same.
    + rewrite Hlat. cbn. lia.
    + unfold is_s, INT_MAX in *. cbn. lia.
    + rewrite Hlat. cbn. lia.
    + exists ms, tree, X'. cbn zeta in *. rewrite put_put in E', Ht'. rewrite Hlat in Hr. cbn in Hr.
      split; [exact E'|]. split; [lia|]. done.
  - exists (cc_expire_ms c), tree, X'. cbn zeta. rewrite Hid. split; [done|]. split; [lia|]. done.
  - exists (cc_expire_ms c), tree, X'. cbn zeta. rewrite Hid. split; [done|]. split; [lia|]. done.
Qed.

Lemma svc_rqst_expire_insert_ok s W X cc c now ms0 :
  conn_ok s W X → reqs s !! cc = Some c → cc ∉ X → svc_rqst_expire_ms now (cc_timeout c) = Ret ms0 →
  is_s 32 ms0 → ms0 + Zlen X ≤ INT_MAX →
  ∃ ms tree X', let s' := set_expires tree (put s cc (set_expire_ms ms (set_flags CLNT_REQ_FLAG_EXPIRING c))) in
    svc_rqst_expire_insert now s cc = Ret (true, s') ∧ ms0 ≤ ms ≤ ms0 + Zlen X ∧ X' ≡ₚ cc :: X ∧ conn_ok s' W X'.
Proof.
  intros Hok Hc Hcc Hms Hs Hmax. pose proof Hok as []. unfold svc_rqst_expire_insert.
  destruct (client s) as [cl|] eqn:Hcl; [|by destruct ok_client0]. cbn [access obind]. rewrite ok_channel0. cbn [negb].
  rewrite (req_ok _ _ _ Hc). cbn [obind]. rewrite Hms. cbn [obind]. rewrite (upd_ok _ _ _ _ Hc). cbn [obind].
  rewrite (upd_ok _ cc (set_expire_ms ms0 c)) by apply put_same. cbn [obind]. rewrite put_put.
  set (c1 := set_flags CLNT_REQ_FLAG_EXPIRING (set_expire_ms ms0 c)).
  destruct (node_of (call_expires s) (reqs s) cc c) as [n Hn]; [done..|].
  assert (Hext : ∀ x, x ∈ X → expire_of (reqs (put s cc c1)) x = expire_of (reqs s) x).
  { intros x Hx. apply (key_insert cc_expire_ms 0 _ cc c); [done|]. right. by intros ->. }
  assert (Hlen : (later (expire_of (reqs (put s cc c1))) ms0 X ≤ length X)%nat) by apply length_filter.
  pose proof (table_size _ _ _ ok_expires0) as Hsz.
  destruct (expire_insert_loop_ok (size (rb_nodes (call_expires (put s cc c1)))) (put s cc c1) X cc c1 n)
    as (ms & tree & X' & E & Hr & Ht & Hp & Hd); 
    [|done|done|apply put_same|change (cc_expire_ms c1) with ms0; cbn [put set_reqs call_expires]; lia|done|
     change (cc_expire_ms c1) with ms0; lia|].
  { by eapply table_ext. }
  cbn zeta in E, Ht. rewrite put_put in E, Ht. rewrite E. cbn [obind]. exists ms, tree, X'. cbn zeta.
  change (set_expire_ms ms c1) with (set_expire_ms ms (set_flags CLNT_REQ_FLAG_EXPIRING c)) in *.
  set (c2 := set_expire_ms ms (set_flags CLNT_REQ_FLAG_EXPIRING c)) in *.
  split; [done|]. change (cc_expire_ms c1) with ms0 in Hr. split; [lia|]. split; [done|]. constructor; cbn; try done.
  - eapply table_ext; [|exact ok_replies0]. intros x _. apply (key_insert cc_xid 0 _ cc c); [done|by left].
  - rewrite dom_insert_lookup_L; [done|by exists c].
  - rewrite dom_insert_lookup_L; [cbn in Hd; congruence|by exists c].
  - rewrite lookup_insert_ne; [done|]. intros ->; congruence.
  - intros x cx. destruct (decide (cc = x)) as [<-|Hne].
    + rewrite lookup_insert_eq. intros [= <-]. change (expiring c2) with true. split; [|done]. intros _. rewrite Hp. by left.
    + rewrite lookup_insert_ne by done. intros Hx. rewrite (ok_flags0 x cx Hx), Hp, elem_of_cons.
      split; [by right|]. by intros [->|?].
Qed.

(** A request the timer takes: out of the tree, and with a reference for the task. *)
Definition taken c : request :=
  set_refcnt (s32 (u32 (cc_refcnt c + 1))) (set_expire_ms 0 (set_flags (Z.land (cc_flags c) (Z.lnot CLNT_REQ_FLAG_EXPIRING)) c)).

Lemma sweep_take_ok s W X cc c : conn_ok s W X → reqs s !! cc = Some c → cc ∈ X →
  ∃ tree, let s' := set_expires tree (put s cc (taken c)) in
    (let! s := sweep_clear s cc in let! s := sweep_remove s cc in sweep_submit s cc) = Ret s' ∧
    conn_ok s' W (filter (λ y, y ≠ cc) X).
Proof.
  intros Hok Hc Hcc. pose proof Hok as []. assert (He : expiring c = true) by (by apply (ok_flags0 cc c Hc)).
  destruct (unexpire_ok s W X cc c CLNT_REQ_FLAG_EXPIRING Hok Hc eq_refl) as (tree & E & Hok1).
  exists tree. cbn zeta. unfold sweep_clear. unfold postclear in *. rewrite (req_ok _ _ _ Hc) in *. cbn [obind] in *.
  rewrite (upd_ok _ _ _ _ Hc) in *. cbn [obind] in *. fold (expiring c) in E. rewrite He in E.
  unfold unexpire, svc_rqst_expire_remove in E. unfold sweep_remove. unfold calm in *. rewrite He in *.
  set (c1 := set_flags _ c) in *. change (client (put s cc c1)) with (client s) in E.
  change (ev_p (put s cc c1)) with (ev_p s) in E. rewrite ok_channel0 in E.
  destruct (access (client s)) as [cl| | |]; try done. cbn [obind negb] in E.
  destruct (opr_rbtree_remove (call_expires (put s cc c1)) cc) as [t'| | |]; try done. cbn [obind] in *.
  rewrite E. cbn [obind]. unfold sweep_submit. set (s1 := set_expires tree _) in *.
  assert (H1 : reqs s1 !! cc = Some (set_expire_ms 0 c1)) by apply put_same.
  rewrite (req_ok _ _ _ H1). cbn [obind]. rewrite (upd_ok _ _ _ _ H1). change (set_refcnt _ (set_expire_ms 0 c1)) with (taken c).
  assert (Hp : put s1 cc (taken c) = set_expires tree (put s cc (taken c))) by (unfold s1, put; cbn; by rewrite insert_insert_eq).
  rewrite <- Hp. split; [done|]. by eapply put_ok.
Qed.

(** The sweep takes the requests whose time has come, in the order of their times, and
    leaves the others; [wait] is until the first of those. *)
Lemma sweep_loop_ok fuel s W X e :
  conn_ok s W X → (length X ≤ fuel)%nat → 0 ≤ e ≤ INT_MAX → (∀ q, q ∈ X → 0 ≤ expire_of (reqs s) q ≤ INT_MAX) →
  ∃ wait tasks X' s', sweep_loop fuel s e = Ret (wait, tasks, s') ∧ X = tasks ++ X' ∧ conn_ok s' W X' ∧
    (∀ q, q ∈ tasks → expire_of (reqs s) q ≤ e) ∧ (∀ q, q ∈ X' → e < expire_of (reqs s) q) ∧
    (∀ q, reqs s' !! q = if decide (q ∈ tasks) then taken <$> reqs s !! q else reqs s !! q) ∧
    client s' = client s.
Proof.
  revert s X. induction fuel as [|fuel IH]; intros s X Hok Hf He Hr; cbn [sweep_loop]; unfold sweep_pick;
    rewrite (table_first _ _ X) by apply Hok; destruct X as [|cc X]; cbn [head obind]; try (cbn in Hf; lia).
  1, 2: by exists SVC_RQST_TIMEOUT_MS, [], [], s; split_and!; try done; intros q Hq; apply not_elem_of_nil in Hq.
  destruct (expiring_live s W _ cc Hok) as [c Hc]; [by left|]. rewrite (req_ok _ _ _ Hc). cbn [obind].
  assert (Hk : expire_of (reqs s) cc = cc_expire_ms c) by (unfold expire_of; by rewrite Hc).
  pose proof (Hr cc ltac:(by left)) as Hcc. rewrite Hk in Hcc.
  pose proof (table_sorted _ _ _ (ok_expires _ _ _ Hok)) as Hs. inversion Hs as [|? ? Hs' Hhd]; subst.
  rewrite Forall_forall in Hhd. destruct (Z.ltb_spec e (cc_expire_ms c)).
  { unfold signed. rewrite decide_True by (unfold is_s, INT_MAX in *; lia). cbn [obind].
    exists (cc_expire_ms c - e), [], (cc :: X), s. split_and!; try done; [by intros q ?%not_elem_of_nil|].
    intros q [->|Hq]%elem_of_cons; [lia|]. specialize (Hhd q Hq). cbn in Hhd. lia. }
  destruct (sweep_take_ok s W (cc :: X) cc c Hok Hc) as (tree & E & Hok1); [by left|]. cbn zeta in E, Hok1.
  rewrite filter_head in Hok1 by (by eapply table_nodup, Hok). set (s1 := set_expires tree _) in *.
  assert (E' : ∀ k : connection → out (Z * list Z * connection),
    (let! s := sweep_clear s cc in let! s := sweep_remove s cc in let! s := sweep_submit s cc in k s) = k s1).
  { intros k. destruct (sweep_clear s cc) as [sa| | |]; try done. cbn [obind] in *.
    destruct (sweep_remove sa cc) as [sb| | |]; try done. cbn [obind] in *. by rewrite E. }
  cbn [obind]. rewrite E'. assert (Hn : cc ∉ X) by (by eapply NoDup_cons_1_1, table_nodup, Hok).
  assert (Hkey : ∀ q, q ∈ X → expire_of (reqs s1) q = expire_of (reqs s) q).
  { intros q Hq. apply (key_insert cc_expire_ms 0 _ cc c); [done|]. right. by intros ->. }
  destruct (IH s1 X Hok1) as (wait & tasks & X' & s' & -> & -> & Hok' & H1 & H2 & H3 & H4);
    [cbn in Hf; lia|done|intros q Hq; rewrite Hkey by done; apply Hr; by right|].
  cbn [obind]. exists wait, (cc :: tasks), X', s'. split_and!; try done.
  - intros q [->|Hq]%elem_of_cons; [lia|]. rewrite <- Hkey by (by apply elem_of_app; left). by apply H1.
  - intros q Hq. rewrite <- Hkey by (by apply elem_of_app; right). by apply H2.
  - intros q. rewrite H3. unfold s1, put. cbn. destruct (decide (q = cc)) as [->|Hne].
    + rewrite lookup_insert_eq, Hc, (decide_True (P := cc ∈ cc :: tasks)) by (by left).
      rewrite decide_False; [done|]. intros Hq. apply Hn, elem_of_app. by left.
    + rewrite lookup_insert_ne by done. destruct (decide (q ∈ tasks)).
      * by rewrite decide_True by (by right).
      * rewrite decide_False; [done|]. by intros [?|?]%elem_of_cons.
Qed.

(** ** Release *)

Lemma release_free_ok s W X cc c cl : conn_ok s W X → reqs s !! cc = Some c → cc ∉ W → cc ∉ X →
  client s = Some cl → 1 < cl_refcnt cl ≤ INT_MAX →
  ∃ s', release_free s cc = Ret s' ∧ conn_ok s' W X ∧ reqs s' = delete cc (reqs s) ∧
    client s' = Some (mk_client (cl_refcnt cl - 1) (cl_releasing cl)).
Proof.
  intros [] Hc Hw Hx Hcl Hr. unfold release_free, clnt_release_it. rewrite (req_ok _ _ _ Hc), Hcl. cbn [access obind].
  rewrite wraps_id by (try lia; unfold is_s, INT_MAX in *; lia). destruct (Z.ltb_spec 0 (cl_refcnt cl - 1)); [|lia].
  cbn [obind]. eexists. split; [done|]. split; [|done]. constructor; cbn; try done.
  - eapply table_ext; [|by apply table_free]. intros x Hx'. unfold xid_of. rewrite lookup_delete_ne; [done|]. by intros ->.
  - eapply table_ext; [|by apply table_free]. intros x Hx'. unfold expire_of. rewrite lookup_delete_ne; [done|]. by intros ->.
  - rewrite !dom_delete_L. congruence.
  - rewrite !dom_delete_L. congruence.
  - apply lookup_delete_None. by right.
  - intros x cx [_ Hcx]%lookup_delete_Some. eauto.
Qed.

Lemma clnt_req_release_ok s W X cc c cl : conn_ok s W X → reqs s !! cc = Some c → 1 ≤ cc_refcnt c ≤ INT_MAX →
  client s = Some cl → 1 < cl_refcnt cl ≤ INT_MAX →
  (1 < cc_refcnt c ∧ clnt_req_release s cc = Ret (cc_refcnt c - 1, put s cc (set_refcnt (cc_refcnt c - 1) c)) ∧
     conn_ok (put s cc (set_refcnt (cc_refcnt c - 1) c)) W X) ∨
  (cc_refcnt c = 1 ∧ ∃ s', clnt_req_release s cc = Ret (0, s') ∧
     conn_ok s' (filter (λ y, y ≠ cc) W) (filter (λ y, y ≠ cc) X) ∧ reqs s' = delete cc (reqs s) ∧
     client s' = Some (mk_client (cl_refcnt cl - 1) (cl_releasing cl))).
Proof.
  intros Hok Hc Hr Hcl Hrc. unfold clnt_req_release, release_dec. rewrite (req_ok _ _ _ Hc). cbn [obind].
  rewrite wraps_id by (try lia; unfold is_s, INT_MAX in *; lia). rewrite (upd_ok _ _ _ _ Hc). cbn [obind].
  set (c1 := set_refcnt _ c). assert (Hok1 : conn_ok (put s cc c1) W X) by (by eapply put_ok).
  destruct (Z.ltb_spec 0 (cc_refcnt c - 1)); [left; split; [lia|done]|right]. split; [lia|].
  destruct (clnt_req_reset_ok _ W X cc c1 Hok1 (put_same _ _ _)) as (t & t' & -> & Hok2). cbn [obind].
  set (s2 := set_expires t' _) in *.
  destruct (release_free_ok s2 _ _ cc (calm RESET_BITS c1) cl Hok2) as (s' & -> & Hok3 & Hreqs & Hcl');
    [apply put_same|apply not_in_filter|apply not_in_filter|done|done|]. cbn [obind].
  exists s'. split; [do 2 f_equal; lia|]. split; [done|]. split; [|done]. rewrite Hreqs. unfold s2, put. cbn.
  by rewrite !delete_insert_eq.
Qed.

(** The task claims the request and tells that it timed out, or leaves it alone, and then
    gives its reference back. *)
Lemma expire_task_ok s W X cc c : conn_ok s W X → reqs s !! cc = Some c →
  ∃ c1, conn_ok (put s cc c1) W X ∧ cc_refcnt c1 = cc_refcnt c ∧ cc_expire_ms c1 = cc_expire_ms c ∧
    svc_rqst_expire_task s cc =
      (let! (_, s) := clnt_req_release (put s cc c1) cc in Ret ((1 <? cc_refcnt c) && negb (claimed c), s)).
Proof.
  intros Hok Hc. unfold svc_rqst_expire_task, expire_shared. rewrite (req_ok _ _ _ Hc). cbn [obind].
  assert (Hid : put s cc c = s) by (unfold put; rewrite insert_id; [by destruct s|done]).
  destruct (1 <? cc_refcnt c); cbn [obind andb].
  2: { exists c. rewrite Hid. done. }
  unfold expire_claim, postset. rewrite (req_ok _ _ _ Hc). cbn [obind]. rewrite (upd_ok _ _ _ _ Hc). cbn [obind].
  fold (claimed c). set (c1 := set_flags (Z.lor (cc_flags c) CLNT_REQ_FLAG_BACKSYNC) c).
  assert (He : expiring c1 = expiring c) by (unfold expiring; cbn; rewrite any_lor; apply orb_false_r).
  destruct (claimed c); cbn [negb obind].
  - exists c1. split; [by eapply put_ok|done].
  - rewrite (upd_ok _ cc c1) by apply put_same. cbn [obind]. rewrite put_put. exists (set_status RPC_TIMEDOUT c1).
    split; [by eapply put_ok|done].
Qed.

Lemma clnt_req_fill_ok s W X cc c dplx rqst auth proc w : conn_ok s W X → reqs s !! cc = None → cc ≠ 0 →
  n_gen dplx = 0 → n_gen rqst = 0 → cc_flags c = CLNT_REQ_FLAG_NONE →
  conn_ok (clnt_req_fill s cc c dplx rqst auth proc w) W X.
Proof.
  intros [] Hc Hn Hd Hq Hf.
  assert (Hnd : rb_nodes (call_replies s) !! cc = None) by (apply not_elem_of_dom; rewrite ok_dplx0; by apply not_elem_of_dom).
  assert (Hnq : rb_nodes (call_expires s) !! cc = None) by (apply not_elem_of_dom; rewrite ok_rqst0; by apply not_elem_of_dom).
  assert (Hw : cc ∉ W) by (intros H; apply (table_allocd _ _ _ _ ok_replies0) in H as [? ?]; congruence).
  assert (Hx : cc ∉ X) by (intros H; apply (table_allocd _ _ _ _ ok_expires0) in H as [? ?]; congruence).
  unfold clnt_req_fill. constructor; cbn; try done.
  - eapply table_ext; [|by apply table_alloc]. intros x Hx'. unfold xid_of. rewrite lookup_insert_ne; [done|]. by intros ->.
  - eapply table_ext; [|by apply table_alloc]. intros x Hx'. unfold expire_of. rewrite lookup_insert_ne; [done|]. by intros ->.
  - rewrite !dom_insert_L. congruence.
  - rewrite !dom_insert_L. congruence.
  - by rewrite lookup_insert_ne.
  - intros x cx. destruct (decide (cc = x)) as [<-|]; [rewrite lookup_insert_eq; intros [= <-]|rewrite lookup_insert_ne by done; eauto].
    unfold expiring. cbn. rewrite Hf. split; done.
Qed.
End Facts.
