(* ===== verification/ClntReqTheorems.v ===== *)
(** * What the calls of a client guarantee

    A reply reaches the request that waits for it; as long as callers keep to the life of a
    request, no operation meets one that is gone; between two clearings of a request's flags
    its callback runs at most once, in any interleaving of replies and timers; a caller who
    waits gets a result.  And what they do not: a reply that has found its request holds no
    reference to it. *)
From stdpp Require Import base gmap gmultiset list sorting.
From Stdlib Require Import ZArith Lia.
From S2P Require Import Prelude Machine XdrHandle RpcMsg RbTree RbTable ClntReq ClntReqFacts.

Section Calls.
Context {P R T : Type}.
Abbreviation connection := (@conn P R).
Abbreviation request := (@clnt_req P R).
Implicit Types (s : connection) (c : request) (cc : Z) (W X : list Z).

(** ** Matching *)

(** C19. A reply reaches the request that waits for its transaction id and no other.  If none
    does, nothing changes.  Otherwise the request is the only one with that id, it no longer
    expires, and every other request is as it was; if news of it were claimed before, the
    reply is dropped, and if not, the request gets the error, the verifier and the results of
    the reply and its callback runs. *)
Theorem reply_matched s W X (m : rpc_msg T) xdrs : conn_ok s W X →
  (clnt_req_process_reply s m xdrs = Ret (None, s) ∧
     ∀ cc c, cc ∈ W → reqs s !! cc = Some c → cc_xid c ≠ rm_xid m) ∨
  (∃ cc c, cc ∈ W ∧ reqs s !! cc = Some c ∧ cc_xid c = rm_xid m ∧
     (∀ cc' c', cc' ∈ W → reqs s !! cc' = Some c' → cc_xid c' = rm_xid m → cc' = cc) ∧
     (claimed c = true → ∃ s', clnt_req_process_reply s m xdrs = Ret (None, s') ∧
        conn_ok s' W (filter (λ y, y ≠ cc) X) ∧ reqs s' = <[cc := set_refreshes 0 (answered c)]> (reqs s)) ∧
     (claimed c = false → ∀ c', reply_result m xdrs (answered c) = Ret c' →
        ∃ s', clnt_req_process_reply s m xdrs = Ret (Some cc, s') ∧
          conn_ok s' W (filter (λ y, y ≠ cc) X) ∧ reqs s' = <[cc := c']> (reqs s))).
Proof.
  intros Hok. destruct (reply_lookup_ok s W X (rm_xid m) Hok) as (r & E & Hr). destruct r as [cc|]; [right|left].
  - destruct Hr as (Hcc & c & Hc & Hx). exists cc, c. split_and!; try done.
    { intros cc' c' Hcc' Hc' Hx'. eapply waiting_inj; try done. congruence. }
    + intros Hcl. destruct (process_reply_ok s W X m xdrs cc c Hok Hcc Hc Hx) as [(_ & tree & E' & Hok')|(? & _)];
        [|congruence]. by eexists.
    + intros Hcl c' Hc'. destruct (process_reply_ok s W X m xdrs cc c Hok Hcc Hc Hx) as [(? & _)|(_ & tree & E' & Hok')];
        [congruence|]. rewrite E', Hc'. eexists. split; [done|]. split; [by apply Hok'|done].
  - split; [|done]. unfold clnt_req_process_reply. by rewrite E.
Qed.

(** ** The life of a request *)

(** What callers, the receiver, the event loop and the thread pool do.  Results that depend
    on code outside the model are arguments. *)
Inductive op :=
| OFill (cc : Z) (c : request) (dplx rqst : opr_rbtree_node) (auth : @AUTH P R) (proc : option (xdrproc P R)) (w : R)
| OSetup (cc : Z) (timeout : timespec)
| OCallback (cc : Z) (now : timespec) (stat : Z)
| ORefresh (cc : Z)
| OReset (cc : Z)
| ORelease (cc : Z)
| OReply (m : rpc_msg T) (xdrs : XDR P)
| OSweep (now : timespec)
| OTask (cc : Z).

(** The status and the tasks submitted. *)
Definition exec (o : op) s : out (Z * list Z * connection) :=
  match o with
  | OFill cc c dplx rqst auth proc w => Ret (RPC_SUCCESS, [], clnt_req_fill s cc c dplx rqst auth proc w)
  | OSetup cc timeout => let! (stat, s) := clnt_req_setup s cc timeout in Ret (stat, [], s)
  | OCallback cc now stat =>
      let call s := let! s := upd s cc (set_status RPC_SUCCESS) in Ret (stat, s) in
      let! (stat, s) := clnt_req_callback call now s cc in Ret (stat, [], s)
  | ORefresh cc => let! (stat, s) := clnt_req_refresh s cc in Ret (stat, [], s)
  | OReset cc => let! s := clnt_req_reset s cc in Ret (RPC_SUCCESS, [], s)
  | ORelease cc => let! (_, s) := clnt_req_release s cc in Ret (RPC_SUCCESS, [], s)
  | OReply m xdrs => let! (_, s) := clnt_req_process_reply s m xdrs in Ret (RPC_SUCCESS, [], s)
  | OSweep now => let! (_, tasks, s) := svc_rqst_sweep s now in Ret (RPC_SUCCESS, tasks, s)
  | OTask cc => let! (_, s) := svc_rqst_expire_task s cc in Ret (RPC_SUCCESS, [], s)
  end.

(** Who refers to which request: the callers that hold it, the tasks that were submitted; the
    requests that have been set up and not reset, those with a timer since, those that have
    taken a reference to the handle; the number of operations so far. *)
Record users := mk_users {
  owned : gset Z; tasks : gmultiset Z; up : gset Z; timed : gset Z; refd : gset Z; ops : Z;
}.

(** The operations callers may use when: on a request they hold; one is set up when new or
    after a reset, gets a timer once, and is released after it has been set up.  Memory comes
    zeroed, clocks stay below 2^31 ms, and decoding results returns. *)
Definition allowed (u : users) s (o : op) : Prop :=
  ops u < INT_MAX - 1 ∧
  match o with
  | OFill cc c dplx rqst _ _ _ =>
      cc ≠ 0 ∧ reqs s !! cc = None ∧ n_gen dplx = 0 ∧ n_gen rqst = 0 ∧ cc_flags c = CLNT_REQ_FLAG_NONE
  | OSetup cc _ => cc ∈ owned u ∧ (cc ∉ up u) ∧ cc ∉ timed u
  | OCallback cc now _ => cc ∈ owned u ∧ cc ∈ up u ∧ (cc ∉ timed u) ∧
      ∃ c ms, reqs s !! cc = Some c ∧ svc_rqst_expire_ms now (cc_timeout c) = Ret ms ∧ 0 ≤ ms ∧ ms + ops u ≤ INT_MAX
  | ORefresh cc => cc ∈ owned u ∧ cc ∈ up u
  | OReset cc => cc ∈ owned u
  | ORelease cc => cc ∈ owned u ∧ cc ∈ refd u
  | OReply m xdrs => ∀ c, ∃ c', reply_result m xdrs c = Ret c'
  | OSweep now => ∃ ms, timespec_ms now = Ret ms ∧ 0 ≤ ms ≤ INT_MAX
  | OTask cc => cc ∈ tasks u
  end.

(** What becomes of the users; a request that is gone is forgotten. *)
Definition next (u : users) (o : op) (stat : Z) (new : list Z) s' : users :=
  let live := dom (reqs s') in
  let tk := match o with OSweep _ => tasks u ⊎ list_to_set_disj new | OTask cc => tasks u ∖ {[+ cc +]} | _ => tasks u end in
  let ow := match o with OFill cc _ _ _ _ _ _ => owned u ∪ {[cc]} | ORelease cc => owned u ∖ {[cc]} | _ => owned u end in
  let ok := match o with OSetup cc _ => if stat =? RPC_SUCCESS then {[cc]} else ∅ | _ => ∅ end in
  let off := match o with OReset cc => {[cc]} | _ => ∅ end in
  let tm := match o with OCallback cc _ _ => {[cc]} | _ => ∅ end in
  mk_users ow tk (((up u ∪ ok) ∖ off) ∩ live) (((timed u ∪ tm) ∖ off) ∩ live) ((refd u ∪ ok) ∩ live) (ops u + 1).

Inductive calls_step : connection * users → connection * users → Prop :=
| calls_do o s u stat new s' : allowed u s o → exec o s = Ret (stat, new, s') →
    calls_step (s, u) (s', next u o stat new s').

(** A connection without requests, whose handle its creator holds. *)
Definition conn_init (xid : Z) : connection :=
  mk_conn ∅ (Some (mk_client 1 false)) xid (opr_rbtree_init ∅) true (opr_rbtree_init ∅).
Definition users_init : users := mk_users ∅ ∅ ∅ ∅ ∅ 0.

Definition refs (u : users) cc : Z := (if decide (cc ∈ owned u) then 1 else 0) + Z.of_nat (multiplicity cc (tasks u)).

(** Every request in memory is referred to by those who hold it and the tasks, and its count
    says how often; the handle is held by its creator and every request that was set up. *)
Record calls_inv s (u : users) W X : Prop := {
  ci_ok : conn_ok s W X;
  ci_up q : q ∈ W → q ∈ up u;
  ci_timed q : q ∈ X → q ∈ timed u;
  ci_times q : q ∈ X → 0 ≤ expire_of (reqs s) q ≤ INT_MAX;
  ci_live q : is_Some (reqs s !! q) ↔ 0 < refs u q;
  ci_refs q c : reqs s !! q = Some c → cc_refcnt c = refs u q;
  ci_most q : refs u q ≤ 1 + ops u;
  ci_refd : up u ⊆ refd u ∧ timed u ⊆ refd u ∧ refd u ⊆ dom (reqs s);
  ci_tasks q : q ∈ tasks u → q ∈ refd u;
  ci_size : Z.of_nat (size (reqs s)) ≤ ops u;
  ci_client : ∃ cl, client s = Some cl ∧ 1 + Z.of_nat (size (refd u)) ≤ cl_refcnt cl ≤ 1 + ops u;
}.

(** ** The invariant *)

Lemma next_sets s u W X o stat new s' : calls_inv s u W X → allowed u s o →
  let u' := next u o stat new s' in
  (∀ q, 0 < refs u' q → is_Some (reqs s' !! q)) → (∀ q, q ∈ new → q ∈ timed u) →
  (up u' ⊆ refd u' ∧ timed u' ⊆ refd u' ∧ refd u' ⊆ dom (reqs s')) ∧ ∀ q, q ∈ tasks u' → q ∈ refd u'.
Proof.
  intros Hinv [_ Hal] u' Hlive Hnew. destruct (ci_refd _ _ _ _ Hinv) as (Hup & Htm & _). split.
  - split; [cbn; set_solver|]. split; [|cbn; set_solver]. cbn.
    destruct o; cbn in Hal; set_solver.
  - intros q Hq. assert (Hl : q ∈ dom (reqs s')).
    { apply elem_of_dom, Hlive. unfold refs. assert (0 < multiplicity q (tasks u'))%nat by multiset_solver.
      case_decide; lia. }
    assert (Hr : q ∈ refd u).
    { pose proof (ci_tasks _ _ _ _ Hinv) as Ht. cbn in Hq. destruct o; try (by apply Ht).
      - apply gmultiset_elem_of_disj_union in Hq as [Hq|Hq]; [by apply Ht|].
        apply elem_of_list_to_set_disj in Hq. by apply Htm, Hnew.
      - apply Ht. multiset_solver. }
    cbn. set_solver.
Qed.

(** The counts in memory are those of the users. *)
Definition counted s (u : users) : Prop :=
  ∀ q, cc_refcnt <$> reqs s !! q = if decide (0 < refs u q) then Some (refs u q) else None.

Lemma inv_counted s u W X : calls_inv s u W X → counted s u.
Proof.
  intros Hinv q. pose proof (ci_live _ _ _ _ Hinv q) as Hl. destruct (reqs s !! q) as [c|] eqn:Hq.
  - rewrite decide_True by (apply Hl; by eexists). cbn. f_equal. by eapply ci_refs.
  - rewrite decide_False; [done|]. intros [? ?]%Hl. done.
Qed.

Lemma counted_live s u q : counted s u → is_Some (reqs s !! q) ↔ 0 < refs u q.
Proof. intros Hc. specialize (Hc q). destruct (reqs s !! q); case_decide; naive_solver. Qed.

Lemma inv_next s u W X o stat new s' W' X' x : calls_inv s u W X → allowed u s o → conn_ok s' W' X' →
  let u' := next u o stat new s' in
  counted s' u' → (∀ q, refs u' q ≤ refs u q + 1) → (∀ q, q ∈ new → q ∈ timed u) →
  dom (reqs s') ⊆ dom (reqs s) ∪ {[x]} →
  (∀ q, q ∈ W' → q ∈ up u') → (∀ q, q ∈ X' → q ∈ timed u') →
  (∀ q, q ∈ X' → 0 ≤ expire_of (reqs s') q ≤ INT_MAX) →
  (∃ cl, client s' = Some cl ∧ 1 + Z.of_nat (size (refd u')) ≤ cl_refcnt cl ≤ 2 + ops u) →
  calls_inv s' u' W' X'.
Proof.
  intros Hinv Hal Hok u' Hc Hmost Hnew Hdom Hup Htm Htimes Hcl.
  destruct (next_sets s u W X o stat new s' Hinv Hal) as [Hr1 Hr2]; [intros q Hq; by apply (counted_live _ u')|done|].
  constructor; try done.
  - intros q. by apply counted_live.
  - intros q c Hq. specialize (Hc q). rewrite Hq in Hc. cbn in Hc. case_decide; congruence.
  - intros q. pose proof (ci_most _ _ _ _ Hinv q). specialize (Hmost q). cbn. lia.
  - assert (size (dom (reqs s')) ≤ size (dom (reqs s) ∪ {[x]}))%nat by (by apply subseteq_size).
    pose proof (size_union_alt (dom (reqs s)) {[x]}).
    assert (size ({[x]} ∖ dom (reqs s) : gset Z) ≤ size ({[x]} : gset Z))%nat by (apply subseteq_size; set_solver).
    rewrite size_singleton, !size_dom in *. pose proof (ci_size _ _ _ _ Hinv). cbn. lia.
  - destruct Hcl as (cl & ? & ?). exists cl. split; [done|]. cbn in *. lia.
Qed.

(** Operations that neither take nor drop references to requests. *)
Lemma inv_keep s u W X o stat s' W' X' :
  let u' := next u o stat [] s' in
  calls_inv s u W X → allowed u s o → (∀ q, cc_refcnt <$> reqs s' !! q = cc_refcnt <$> reqs s !! q) →
  conn_ok s' W' X' → owned u' = owned u → tasks u' = tasks u →
  (∀ q, q ∈ W' → q ∈ up u') → (∀ q, q ∈ X' → q ∈ timed u') →
  (∀ q, q ∈ X' → 0 ≤ expire_of (reqs s') q ≤ INT_MAX) →
  (∃ cl, client s' = Some cl ∧ 1 + Z.of_nat (size (refd u')) ≤ cl_refcnt cl ≤ 2 + ops u) →
  calls_inv s' u' W' X'.
Proof.
  intros u' Hinv Hal Hreqs Hok Ho Ht Hup Htm Htimes Hcl.
  assert (Hrefs : ∀ q, refs u' q = refs u q) by (intros q; unfold refs; by rewrite Ho, Ht).
  eapply (inv_next s u W X o stat [] s' W' X' 0); try done.
  - intros q. fold u'. rewrite Hreqs, Hrefs. by apply (inv_counted s u W X).
  - intros q. fold u'. rewrite Hrefs. lia.
  - by intros q ?%not_elem_of_nil.
  - intros q. rewrite elem_of_union, !elem_of_dom. specialize (Hreqs q). intros [c Hq]. left.
    rewrite Hq in Hreqs. destruct (reqs s !! q); [by eexists|done].
Qed.

Lemma inv_put s u W X o stat s' W' X' cc c c' :
  let u' := next u o stat [] s' in
  calls_inv s u W X → allowed u s o → reqs s !! cc = Some c → reqs s' = <[cc := c']> (reqs s) →
  cc_refcnt c' = cc_refcnt c → conn_ok s' W' X' → owned u' = owned u → tasks u' = tasks u →
  (∀ q, q ∈ W' → q ∈ up u') → (∀ q, q ∈ X' → q ∈ timed u') →
  (∀ q, q ∈ X' → 0 ≤ expire_of (reqs s') q ≤ INT_MAX) →
  (∃ cl, client s' = Some cl ∧ 1 + Z.of_nat (size (refd u')) ≤ cl_refcnt cl ≤ 2 + ops u) →
  calls_inv s' u' W' X'.
Proof.
  intros u' Hinv Hal Hc Hreqs Hrc. apply (inv_keep s u W X); [done|done|]. intros q. rewrite Hreqs.
  destruct (decide (cc = q)) as [<-|]; [rewrite lookup_insert_eq, Hc; cbn; congruence|by rewrite lookup_insert_ne].
Qed.

(** The requests of a state that are in the trees are in memory. *)
Lemma owned_live s u W X cc : calls_inv s u W X → cc ∈ owned u → ∃ c, reqs s !! cc = Some c.
Proof.
  intros Hinv Hcc. apply (ci_live _ _ _ _ Hinv). unfold refs. rewrite decide_True by done. lia.
Qed.

Lemma live_up s' (A B : gset Z) q c : reqs s' !! q = Some c → q ∈ A → q ∉ B → q ∈ (A ∖ B) ∩ dom (reqs s').
Proof. intros Hq ? ?. apply (elem_of_dom_2 (D := gset Z)) in Hq. set_solver. Qed.

(** What an operation has to do: return, and keep the invariant. *)
Definition sound (o : op) : Prop := ∀ s u W X, calls_inv s u W X → allowed u s o →
  ∃ stat new s' W' X', exec o s = Ret (stat, new, s') ∧ calls_inv s' (next u o stat new s') W' X'.

(** The handle after an operation that does not change it. *)
Lemma client_kept s u W X (D : gset Z) : calls_inv s u W X →
  ∃ cl, client s = Some cl ∧ 1 + Z.of_nat (size ((refd u ∪ ∅) ∩ D)) ≤ cl_refcnt cl ≤ 2 + ops u.
Proof.
  intros Hinv. destruct (ci_client _ _ _ _ Hinv) as (cl & Hcl & Hr). exists cl. split; [done|].
  assert (size ((refd u ∪ ∅) ∩ D) ≤ size (refd u))%nat by (apply subseteq_size; set_solver). lia.
Qed.

Lemma tree_of_live s s' u W X cc c c' q : calls_inv s u W X → reqs s !! cc = Some c →
  reqs s' = <[cc := c']> (reqs s) → (q ∈ W → q ∈ up u ∩ dom (reqs s')) ∧ (q ∈ X → q ∈ timed u ∩ dom (reqs s')).
Proof.
  intros Hinv Hc ->. pose proof (ci_ok _ _ _ _ Hinv) as Hok.
  assert (Hd : ∀ x cx, reqs s !! x = Some cx → x ∈ dom (<[cc := c']> (reqs s))).
  { intros x cx Hx. apply elem_of_dom. rewrite lookup_insert_is_Some. destruct (decide (cc = x)); [by left|].
    right. split; [done|]. by exists cx. }
  split; intros Hq; apply elem_of_intersection; split.
  - by eapply ci_up.
  - destruct (waiting_live s W X q Hok Hq) as [cq Hcq]. by eapply Hd.
  - by eapply ci_timed.
  - destruct (expiring_live s W X q Hok Hq) as [cq Hcq]. by eapply Hd.
Qed.

Lemma sound_setup cc timeout : sound (OSetup cc timeout).
Proof.
  intros s u W X Hinv Hal. pose proof Hal as [Hn (Ho & Hu & Ht)]. destruct (owned_live s u W X cc Hinv Ho) as [c Hc].
  destruct (ci_client _ _ _ _ Hinv) as (cl & Hcl & Hr).
  assert (Hw : cc ∉ W) by (intros H; by apply Hu, (ci_up _ _ _ _ Hinv)).
  assert (Hx : cc ∉ X) by (intros H; by apply Ht, (ci_timed _ _ _ _ Hinv)).
  assert (Hsub : ∀ D : gset Z, (size ((refd u ∪ {[cc]}) ∩ D) ≤ S (size (refd u)))%nat).
  { intros D. assert (size ((refd u ∪ {[cc]}) ∩ D) ≤ size (refd u ∪ {[cc]}))%nat by (apply subseteq_size; set_solver).
    pose proof (size_union_alt (refd u) {[cc]}). assert (size ({[cc]} ∖ refd u : gset Z) ≤ size ({[cc]} : gset Z))%nat
      by (apply subseteq_size; set_solver). rewrite size_singleton in *. lia. }
  unfold exec. destruct (clnt_req_setup_ok s W X cc c cl timeout (ci_ok _ _ _ _ Hinv) Hc Hw Hx Hcl) as
    [(s' & c' & -> & Hok & Hcl' & Hreqs & Hrc & _)|(s' & W' & -> & Hok & Hp & Hcl' & Hreqs & _)]; cbn [obind].
  - eexists _, _, _, W, X. split; [done|].
    eapply (inv_put s u W X (OSetup cc timeout) _ s' W X cc c c'); try done.
    + intros q Hq. pose proof (proj1 (tree_of_live s s' u W X cc c c' q Hinv Hc Hreqs) Hq). cbn. set_solver.
    + intros q Hq. pose proof (proj2 (tree_of_live s s' u W X cc c c' q Hinv Hc Hreqs) Hq). cbn. set_solver.
    + intros q Hq. rewrite Hreqs. unfold expire_of. rewrite lookup_insert_ne by (by intros ->). by eapply ci_times.
    + rewrite Hcl', <- Hcl. by eapply client_kept.
  - eexists _, _, _, W', X. split; [done|].
    eapply (inv_put s u W X (OSetup cc timeout) _ s' W' X cc c); try done.
    + intros q. rewrite Hp. intros [->|Hq]%elem_of_cons.
      * cbn. rewrite Hreqs, dom_insert. set_solver.
      * pose proof (proj1 (tree_of_live s s' u W X cc c _ q Hinv Hc Hreqs) Hq). cbn. set_solver.
    + intros q Hq. pose proof (proj2 (tree_of_live s s' u W X cc c _ q Hinv Hc Hreqs) Hq). cbn. set_solver.
    + intros q Hq. rewrite Hreqs. unfold expire_of. rewrite lookup_insert_ne by (by intros ->). by eapply ci_times.
    + eexists. split; [exact Hcl'|]. cbn. specialize (Hsub (dom (reqs s'))).
      rewrite wraps_id by (try lia; unfold is_s, INT_MAX in *; lia). lia.
Qed.

(** A write that leaves the times of the requests in [call_expires]. *)
Lemma times_kept s u W X s' cc c c' X' : calls_inv s u W X → reqs s !! cc = Some c →
  reqs s' = <[cc := c']> (reqs s) → (∀ q, q ∈ X' → q ∈ X ∧ (q ≠ cc ∨ cc_expire_ms c' = cc_expire_ms c)) →
  ∀ q, q ∈ X' → 0 ≤ expire_of (reqs s') q ≤ INT_MAX.
Proof.
  intros Hinv Hc -> Hsub q [Hq Hk]%Hsub. unfold expire_of. rewrite (key_insert cc_expire_ms 0 _ cc c) by tauto.
  by apply (ci_times _ _ _ _ Hinv).
Qed.

Lemma sound_refresh cc : sound (ORefresh cc).
Proof.
  intros s u W X Hinv Hal. pose proof Hal as [Hn (Ho & Hu)]. destruct (owned_live s u W X cc Hinv Ho) as [c Hc].
  unfold exec. destruct (clnt_req_refresh_ok s W X cc c (ci_ok _ _ _ _ Hinv) Hc) as
    (stat & s' & W' & c' & -> & Hok & Hcl & Hreqs & Hrc & He & Hsub & _ & _). cbn [obind].
  eexists _, _, _, W', X. split; [done|]. eapply (inv_put s u W X (ORefresh cc) _ s' W' X cc c c'); try done.
  - intros q [->|Hq]%Hsub%elem_of_cons.
    + cbn. rewrite Hreqs, dom_insert. set_solver.
    + pose proof (proj1 (tree_of_live s s' u W X cc c c' q Hinv Hc Hreqs) Hq). cbn. set_solver.
  - intros q Hq. pose proof (proj2 (tree_of_live s s' u W X cc c c' q Hinv Hc Hreqs) Hq). cbn. set_solver.
  - eapply times_kept; try done. auto.
  - rewrite Hcl. by eapply client_kept.
Qed.

Lemma sound_reset cc : sound (OReset cc).
Proof.
  intros s u W X Hinv Hal. pose proof Hal as [Hn Ho]. destruct (owned_live s u W X cc Hinv Ho) as [c Hc].
  unfold exec. destruct (clnt_req_reset_ok s W X cc c (ci_ok _ _ _ _ Hinv) Hc) as (t & t' & -> & Hok). cbn [obind].
  set (s' := set_expires t' _) in *. eexists _, _, s', _, _. split; [done|].
  assert (Hreqs : reqs s' = <[cc := calm RESET_BITS c]> (reqs s)) by done.
  eapply (inv_put s u W X (OReset cc) _ s' _ _ cc c); try done.
  - unfold calm. by destruct (expiring c).
  - intros q [Hne Hq]%list_elem_of_filter.
    pose proof (proj1 (tree_of_live s s' u W X cc c _ q Hinv Hc Hreqs) Hq). cbn [next up]. set_solver.
  - intros q [Hne Hq]%list_elem_of_filter.
    pose proof (proj2 (tree_of_live s s' u W X cc c _ q Hinv Hc Hreqs) Hq). cbn [next timed]. set_solver.
  - eapply times_kept; try done. intros q [Hne Hq]%list_elem_of_filter. auto.
  - change (client s') with (client s). by eapply client_kept.
Qed.

Lemma sound_callback cc now stat : sound (OCallback cc now stat).
Proof.
  intros s u W X Hinv Hal. pose proof Hal as [Hn (Ho & Hu & Ht & c & ms & Hc & Hms & H0 & Hmax)].
  assert (Hx : cc ∉ X) by (intros H; by apply Ht, (ci_timed _ _ _ _ Hinv)).
  pose proof (ci_ok _ _ _ _ Hinv) as Hok. pose proof (ci_size _ _ _ _ Hinv) as Hsz.
  assert (HX : Zlen X ≤ ops u).
  { pose proof (table_size _ _ _ (ok_expires _ _ _ Hok)) as Hl. rewrite <- !size_dom, (ok_rqst _ _ _ Hok) in *.
    rewrite size_dom in *. lia. }
  unfold exec, clnt_req_callback.
  destruct (svc_rqst_expire_insert_ok s W X cc c now ms Hok Hc Hx Hms) as (ms' & tree & X' & -> & Hr & Hp & Hok');
    [unfold is_s, INT_MAX in *; lia|lia|]. cbn zeta in Hok'. cbn [obind negb].
  set (c1 := set_expire_ms ms' (set_flags CLNT_REQ_FLAG_EXPIRING c)) in *. set (s1 := set_expires tree (put s cc c1)) in *.
  rewrite (upd_ok s1 cc c1) by apply put_same. cbn [obind]. set (c2 := set_status RPC_SUCCESS c1).
  eexists _, _, (put s1 cc c2), W, X'. split; [done|].
  assert (Hreqs : reqs (put s1 cc c2) = <[cc := c2]> (reqs s)) by (unfold s1, put; cbn; by rewrite insert_insert_eq).
  eapply (inv_put s u W X (OCallback cc now stat) _ (put s1 cc c2) W X' cc c c2); try done.
  - eapply put_ok; [done|apply put_same|done|done|done].
  - intros q Hq. pose proof (proj1 (tree_of_live s _ u W X cc c c2 q Hinv Hc Hreqs) Hq). cbn [next up]. set_solver.
  - intros q. rewrite Hp. intros [->|Hq]%elem_of_cons.
    + cbn [next timed]. rewrite Hreqs, dom_insert. set_solver.
    + pose proof (proj2 (tree_of_live s _ u W X cc c c2 q Hinv Hc Hreqs) Hq). cbn [next timed]. set_solver.
  - intros q. rewrite Hp, Hreqs. unfold expire_of. intros [->|Hq]%elem_of_cons.
    + rewrite lookup_insert_eq. cbn. lia.
    + rewrite lookup_insert_ne by (by intros ->). by eapply ci_times.
  - change (client (put s1 cc c2)) with (client s). by eapply client_kept.
Qed.

Lemma sound_reply m xdrs : sound (OReply m xdrs).
Proof.
  intros s u W X Hinv Hal. pose proof Hal as [Hn Hres]. pose proof (ci_ok _ _ _ _ Hinv) as Hok. unfold exec.
  destruct (reply_lookup_ok s W X (rm_xid m) Hok) as (r & E & Hr). destruct r as [cc|].
  2: { unfold clnt_req_process_reply. rewrite E. cbn [obind]. eexists _, _, s, W, X. split; [done|].
    apply (inv_keep s u W X (OReply m xdrs)); try done.
    - intros q Hq. apply (ci_up _ _ _ _ Hinv) in Hq. destruct (ci_refd _ _ _ _ Hinv) as (? & _ & ?). cbn [next up]. set_solver.
    - intros q Hq. apply (ci_timed _ _ _ _ Hinv) in Hq. destruct (ci_refd _ _ _ _ Hinv) as (_ & ? & ?). cbn [next timed]. set_solver.
    - apply Hinv.
    - by eapply client_kept. }
  destruct Hr as (Hcc & c & Hc & Hx).
  assert (∃ r s' c', clnt_req_process_reply s m xdrs = Ret (r, s') ∧ conn_ok s' W (filter (λ y, y ≠ cc) X) ∧
    reqs s' = <[cc := c']> (reqs s) ∧ cc_refcnt c' = cc_refcnt c ∧ client s' = client s)
    as (r & s' & c' & -> & Hok' & Hreqs & Hrc & Hcl).
  { assert (Hrc : cc_refcnt (answered c) = cc_refcnt c) by (unfold answered, calm; by destruct (expiring c)).
    destruct (process_reply_ok s W X m xdrs cc c Hok Hcc Hc Hx) as [(_ & tree & -> & Hok')|(_ & tree & -> & Hok')].
    - eexists _, _, _. by split_and!.
    - destruct (Hres (answered c)) as [c' Hc']. rewrite Hc'. cbn [obind]. eexists _, _, c'.
      apply reply_result_keeps in Hc' as Hk. split_and!; [done|by apply Hok'|done|destruct Hk; lia|done]. }
  cbn [obind]. eexists _, _, s', W, _. split; [done|].
  eapply (inv_put s u W X (OReply m xdrs) _ s' W _ cc c c'); try done.
  - intros q Hq. pose proof (proj1 (tree_of_live s s' u W X cc c c' q Hinv Hc Hreqs) Hq). cbn [next up]. set_solver.
  - intros q [Hne Hq]%list_elem_of_filter. pose proof (proj2 (tree_of_live s s' u W X cc c c' q Hinv Hc Hreqs) Hq).
    cbn [next timed]. set_solver.
  - eapply times_kept; try done. intros q [Hne Hq]%list_elem_of_filter. auto.
  - rewrite Hcl. by eapply client_kept.
Qed.

Lemma trees_live s u W X : calls_inv s u W X →
  (∀ q, q ∈ W → q ∈ up u ∩ dom (reqs s)) ∧ (∀ q, q ∈ X → q ∈ timed u ∩ dom (reqs s)).
Proof.
  intros Hinv. destruct (ci_refd _ _ _ _ Hinv) as (? & ? & ?).
  split; intros q Hq; [apply (ci_up _ _ _ _ Hinv) in Hq|apply (ci_timed _ _ _ _ Hinv) in Hq]; set_solver.
Qed.

Lemma sound_fill cc c dplx rqst auth proc w : sound (OFill cc c dplx rqst auth proc w).
Proof.
  intros s u W X Hinv Hal. pose proof Hal as [Hn (Hcc & Hc & Hd & Hq & Hf)]. unfold exec.
  pose proof (clnt_req_fill_ok s W X cc c dplx rqst auth proc w (ci_ok _ _ _ _ Hinv) Hc Hcc Hd Hq Hf) as Hok.
  set (s' := clnt_req_fill _ _ _ _ _ _ _ _) in *. eexists _, _, s', W, X. split; [done|].
  assert (H0 : refs u cc = 0).
  { pose proof (ci_live _ _ _ _ Hinv cc) as Hl. rewrite Hc in Hl. unfold refs in *.
    assert (¬ 0 < (if decide (cc ∈ owned u) then 1 else 0) + Z.of_nat (multiplicity cc (tasks u))).
    { intros H. by apply Hl in H as [? ?]. } case_decide; lia. }
  assert (Hrefs : ∀ q, refs (next u (OFill cc c dplx rqst auth proc w) RPC_SUCCESS [] s') q =
    if decide (q = cc) then 1 else refs u q).
  { intros q. unfold refs in *. cbn [next owned tasks]. destruct (decide (q = cc)) as [->|].
    - rewrite decide_True by set_solver. case_decide; lia.
    - destruct (decide (q ∈ owned u)); [rewrite decide_True by set_solver|rewrite decide_False by set_solver]; done. }
  destruct (trees_live s u W X Hinv) as [Hw Hx].
  assert (Hsub : dom (reqs s) ⊆ dom (reqs s')) by (cbn; rewrite dom_insert; set_solver).
  eapply (inv_next s u W X _ _ [] s' W X cc); try done.
  - intros q. rewrite Hrefs. cbn [s' clnt_req_fill set_expires set_replies set_reqs reqs]. destruct (decide (q = cc)) as [->|].
    + by rewrite lookup_insert_eq.
    + rewrite lookup_insert_ne by done. by apply (inv_counted s u W X).
  - intros q. rewrite Hrefs. destruct (decide (q = cc)) as [->|]; lia.
  - by intros q ?%not_elem_of_nil.
  - cbn. rewrite dom_insert. set_solver.
  - intros q Hq'. specialize (Hw q Hq'). cbn [next up]. set_solver.
  - intros q Hq'. specialize (Hx q Hq'). cbn [next timed]. set_solver.
  - intros q Hq'. cbn. unfold expire_of. assert (q ≠ cc).
    { intros ->. apply Hx in Hq'. apply elem_of_intersection in Hq' as [_ [? ?]%elem_of_dom]. congruence. }
    rewrite lookup_insert_ne by done. by eapply ci_times.
  - change (client s') with (client s). by eapply client_kept.
Qed.

(** An operation of a holder of a reference to [cc], which it drops. *)
Record drops (u : users) cc (o : op) : Prop := {
  dr_refd : cc ∈ refd u;
  dr_refs s' q : refs (next u o RPC_SUCCESS [] s') q = refs u q - (if decide (q = cc) then 1 else 0);
  dr_up s' : up (next u o RPC_SUCCESS [] s') = up u ∩ dom (reqs s');
  dr_timed s' : timed (next u o RPC_SUCCESS [] s') = timed u ∩ dom (reqs s');
  dr_refd' s' : refd (next u o RPC_SUCCESS [] s') = refd u ∩ dom (reqs s');
}.

(** Others still refer to the request. *)
Lemma inv_drop_one s u W X cc c c2 o : calls_inv s u W X → allowed u s o → drops u cc o →
  reqs s !! cc = Some c → conn_ok (put s cc c2) W X → cc_refcnt c2 = cc_refcnt c - 1 → 1 < cc_refcnt c →
  cc_expire_ms c2 = cc_expire_ms c → calls_inv (put s cc c2) (next u o RPC_SUCCESS [] (put s cc c2)) W X.
Proof.
  intros Hinv Hal Hd Hc Hok Hrc H1 He. destruct (trees_live s u W X Hinv) as [Hw Hx].
  destruct (ci_client _ _ _ _ Hinv) as (cl & Hcl & Hr). pose proof (inv_counted s u W X Hinv) as Hcnt.
  pose proof (ci_refs _ _ _ _ Hinv cc c Hc) as Hrcc. set (s' := put s cc c2) in *.
  assert (Hdom : dom (reqs s') = dom (reqs s)) by (cbn; rewrite dom_insert_lookup_L; [done|by exists c]).
  eapply (inv_next s u W X o _ [] s' W X 0); try done.
  - intros q. rewrite (dr_refs _ _ _ Hd). specialize (Hcnt q). cbn. destruct (decide (q = cc)) as [->|].
    + rewrite lookup_insert_eq. cbn. rewrite decide_True by lia. f_equal. lia.
    + rewrite lookup_insert_ne by done. by rewrite Z.sub_0_r.
  - intros q. rewrite (dr_refs _ _ _ Hd). case_decide; lia.
  - by intros q ?%not_elem_of_nil.
  - rewrite Hdom. set_solver.
  - intros q Hq. rewrite (dr_up _ _ _ Hd), Hdom. by apply Hw.
  - intros q Hq. rewrite (dr_timed _ _ _ Hd), Hdom. by apply Hx.
  - eapply (times_kept s u W X s' cc c c2); try done. intros q Hq. split; [done|]. by right.
  - exists cl. split; [done|]. rewrite (dr_refd' _ _ _ Hd).
    assert (size (refd u ∩ dom (reqs s')) ≤ size (refd u))%nat by (apply subseteq_size; set_solver). lia.
Qed.

(** It was the last one, and the request is released. *)
Lemma inv_drop_last s u W X cc c cl s' o : calls_inv s u W X → allowed u s o → drops u cc o →
  reqs s !! cc = Some c → cc_refcnt c = 1 → client s = Some cl →
  conn_ok s' (filter (λ y, y ≠ cc) W) (filter (λ y, y ≠ cc) X) → reqs s' = delete cc (reqs s) →
  client s' = Some (mk_client (cl_refcnt cl - 1) (cl_releasing cl)) →
  calls_inv s' (next u o RPC_SUCCESS [] s') (filter (λ y, y ≠ cc) W) (filter (λ y, y ≠ cc) X).
Proof.
  intros Hinv Hal Hd Hc H1 Hcl Hok Hreqs Hcl2. destruct (trees_live s u W X Hinv) as [Hw Hx].
  destruct (ci_client _ _ _ _ Hinv) as (cl0 & Hcl0 & Hr). assert (cl0 = cl) as -> by congruence.
  pose proof (inv_counted s u W X Hinv) as Hcnt. pose proof (ci_refs _ _ _ _ Hinv cc c Hc) as Hrcc.
  assert (Hdom : dom (reqs s') = dom (reqs s) ∖ {[cc]}) by (by rewrite Hreqs, dom_delete_L).
  eapply (inv_next s u W X o _ [] s' _ _ 0); try done.
  - intros q. rewrite (dr_refs _ _ _ Hd), Hreqs. specialize (Hcnt q). destruct (decide (q = cc)) as [->|].
    + rewrite lookup_delete_eq. cbn. rewrite decide_False; [done|lia].
    + rewrite lookup_delete_ne by done. by rewrite Z.sub_0_r.
  - intros q. rewrite (dr_refs _ _ _ Hd). case_decide; lia.
  - by intros q ?%not_elem_of_nil.
  - rewrite Hdom. set_solver.
  - intros q [? Hq]%list_elem_of_filter. specialize (Hw q Hq). rewrite (dr_up _ _ _ Hd), Hdom. set_solver.
  - intros q [? Hq]%list_elem_of_filter. specialize (Hx q Hq). rewrite (dr_timed _ _ _ Hd), Hdom. set_solver.
  - intros q [? Hq]%list_elem_of_filter. rewrite Hreqs. unfold expire_of. rewrite lookup_delete_ne by done.
    by eapply ci_times.
  - eexists. split; [exact Hcl2|]. rewrite (dr_refd' _ _ _ Hd), Hdom. cbn [cl_refcnt].
    assert (size (refd u ∩ (dom (reqs s) ∖ {[cc]})) ≤ size (refd u ∖ {[cc]}))%nat by (apply subseteq_size; set_solver).
    pose proof (dr_refd _ _ _ Hd). assert (Hsz : size (refd u ∖ {[cc]}) = (size (refd u) - 1)%nat).
    { rewrite size_difference by set_solver. by rewrite size_singleton. }
    assert (1 ≤ size (refd u))%nat by (rewrite <- (size_singleton (C := gset Z) cc); apply subseteq_size; set_solver). lia.
Qed.

Lemma inv_release s u W X cc c c1 o : calls_inv s u W X → allowed u s o → drops u cc o →
  reqs s !! cc = Some c → conn_ok (put s cc c1) W X → cc_refcnt c1 = cc_refcnt c → cc_expire_ms c1 = cc_expire_ms c →
  ∃ r s' W' X', clnt_req_release (put s cc c1) cc = Ret (r, s') ∧ calls_inv s' (next u o RPC_SUCCESS [] s') W' X'.
Proof.
  intros Hinv Hal Hd Hc Hok1 Hrc He. pose proof Hal as [Hn _].
  destruct (ci_client _ _ _ _ Hinv) as (cl & Hcl & Hr).
  assert (Hone : (1 ≤ size (refd u))%nat).
  { pose proof (dr_refd _ _ _ Hd). rewrite <- (size_singleton (C := gset Z) cc). apply subseteq_size. set_solver. }
  pose proof (ci_refs _ _ _ _ Hinv cc c Hc) as Hrcc. pose proof (ci_most _ _ _ _ Hinv cc) as Hm.
  assert (Hpos : 0 < refs u cc) by (apply (ci_live _ _ _ _ Hinv); by eexists).
  destruct (clnt_req_release_ok (put s cc c1) W X cc c1 cl Hok1 (put_same _ _ _)) as
    [(H1 & -> & Hok2)|(H1 & s' & -> & Hok2 & Hreqs & Hcl2)]; [rewrite Hrc; unfold INT_MAX in *; lia|done|unfold INT_MAX in *; lia| |].
  - rewrite put_put in *. eexists _, _, W, X. split; [done|]. eapply inv_drop_one; try done; cbn; congruence.
  - eexists _, s', _, _. split; [done|]. eapply inv_drop_last; try done; [congruence|].
    rewrite Hreqs. cbn. by rewrite delete_insert_eq.
Qed.

Lemma sound_release cc : sound (ORelease cc).
Proof.
  intros s u W X Hinv Hal. pose proof Hal as [_ [Ho Hrd]]. destruct (owned_live s u W X cc Hinv Ho) as [c Hc].
  assert (Hd : drops u cc (ORelease cc)).
  { constructor; [done| |intros; cbn; set_solver..]. intros s' q. unfold refs. cbn [next owned tasks].
    destruct (decide (q = cc)) as [->|].
    - rewrite decide_False, decide_True by set_solver. lia.
    - destruct (decide (q ∈ owned u)); [rewrite decide_True by set_solver|rewrite decide_False by set_solver]; lia. }
  assert (Hid : put s cc c = s) by (unfold put; rewrite insert_id; [by destruct s|done]).
  destruct (inv_release s u W X cc c c _ Hinv Hal Hd Hc) as (r & s' & W' & X' & E & Hinv'); [|done|done|].
  { rewrite Hid. apply Hinv. }
  unfold exec. rewrite Hid in E. rewrite E. cbn [obind]. by eexists _, _, s', W', X'.
Qed.

Lemma sound_task cc : sound (OTask cc).
Proof.
  intros s u W X Hinv Hal. pose proof Hal as [_ Ht].
  assert (Hm : (0 < multiplicity cc (tasks u))%nat) by multiset_solver.
  destruct (proj2 (ci_live _ _ _ _ Hinv cc)) as [c Hc]; [unfold refs; case_decide; lia|].
  assert (Hd : drops u cc (OTask cc)).
  { constructor; [by eapply ci_tasks| |intros; cbn; set_solver..]. intros s' q. unfold refs. cbn [next owned tasks].
    rewrite multiplicity_difference, multiplicity_singleton. destruct (decide (q = cc)) as [->|]; case_decide; lia. }
  destruct (expire_task_ok s W X cc c (ci_ok _ _ _ _ Hinv) Hc) as (c1 & Hok & Hrc & He & E).
  destruct (inv_release s u W X cc c c1 _ Hinv Hal Hd Hc Hok Hrc He) as (r & s' & W' & X' & Er & Hinv').
  unfold exec. rewrite E, Er. cbn [obind]. by eexists _, _, s', W', X'.
Qed.

Lemma multiplicity_list q (l : list Z) : NoDup l →
  multiplicity q (list_to_set_disj l : gmultiset Z) = if decide (q ∈ l) then 1%nat else 0%nat.
Proof.
  induction 1 as [|x l Hx _ IH]; [rewrite decide_False by apply not_elem_of_nil; done|].
  cbn [list_to_set_disj foldr]. rewrite multiplicity_disj_union, multiplicity_singleton. fold (@list_to_set_disj Z (gmultiset Z) _ _ _ l).
  rewrite IH. destruct (decide (q = x)) as [->|Hne].
  - rewrite decide_False, decide_True by (done || by left). done.
  - destruct (decide (q ∈ l)); [rewrite decide_True by (by right)|rewrite decide_False by (by intros [?|?]%elem_of_cons)]; done.
Qed.

Lemma sound_sweep now : sound (OSweep now).
Proof.
  intros s u W X Hinv Hal. pose proof Hal as [Hn (ms & Hms & Hr)]. pose proof (ci_ok _ _ _ _ Hinv) as Hok.
  unfold exec, svc_rqst_sweep. rewrite Hms. cbn [obind]. rewrite wraps_id by (try lia; unfold is_s, INT_MAX in *; lia).
  destruct (sweep_loop_ok (size (rb_nodes (call_expires s))) s W X ms Hok) as
    (wait & new & X' & s' & -> & HX & Hok' & _ & _ & Hreqs & Hcl); [by eapply table_size, Hok|done|by eapply ci_times|].
  cbn [obind]. eexists _, new, s', W, X'. split; [done|]. destruct (trees_live s u W X Hinv) as [Hw Hx].
  pose proof (table_nodup _ _ _ (ok_expires _ _ _ Hok)) as Hnd. rewrite HX in Hnd. apply NoDup_app in Hnd as (Hnd & Hdis & _).
  assert (Hdom : dom (reqs s') = dom (reqs s)).
  { apply set_eq. intros q. rewrite !elem_of_dom, Hreqs. case_decide; [by rewrite fmap_is_Some|done]. }
  pose proof (inv_counted s u W X Hinv) as Hcnt.
  assert (Hrefs : ∀ q, refs (next u (OSweep now) RPC_SUCCESS new s') q = refs u q + if decide (q ∈ new) then 1 else 0).
  { intros q. unfold refs. cbn [next owned tasks]. rewrite multiplicity_disj_union, multiplicity_list by done.
    destruct (decide (q ∈ new)); lia. }
  eapply (inv_next s u W X (OSweep now) _ new s' W X' 0); try done.
  - intros q. rewrite Hrefs, Hreqs. specialize (Hcnt q). destruct (decide (q ∈ new)) as [Hq|Hq]; [|by rewrite Z.add_0_r].
    destruct (expiring_live s W X q Hok) as [c Hc]; [rewrite HX; apply elem_of_app; by left|]. rewrite Hc in *. cbn in *.
    pose proof (ci_most _ _ _ _ Hinv q). destruct (decide (0 < refs u q)); [|done]. rewrite decide_True by lia.
    injection Hcnt as ->. f_equal. rewrite wrapu_id, wraps_id by (try lia; unfold is_s, is_u, INT_MAX in *; lia). done.
  - intros q. rewrite Hrefs. case_decide; lia.
  - intros q Hq. apply (ci_timed _ _ _ _ Hinv). rewrite HX. apply elem_of_app. by left.
  - rewrite Hdom. set_solver.
  - intros q Hq. specialize (Hw q Hq). cbn [next up]. rewrite Hdom. set_solver.
  - intros q Hq. assert (Hq' : q ∈ X) by (rewrite HX; apply elem_of_app; by right). specialize (Hx q Hq').
    cbn [next timed]. rewrite Hdom. set_solver.
  - intros q Hq. unfold expire_of. rewrite Hreqs, decide_False by (intros H; by apply (Hdis q H)).
    apply (ci_times _ _ _ _ Hinv). rewrite HX. apply elem_of_app. by right.
  - rewrite Hcl. by eapply client_kept.
Qed.

Lemma op_sound o : sound o.
Proof.
  destruct o; [apply sound_fill|apply sound_setup|apply sound_callback|apply sound_refresh|apply sound_reset|
    apply sound_release|apply sound_reply|apply sound_sweep|apply sound_task].
Qed.

Lemma init_inv xid : calls_inv (conn_init xid) users_init [] [].
Proof.
  assert (Hr : ∀ q, refs users_init q = 0) by done.
  constructor; try done; try (by intros q ?%not_elem_of_nil).
  - constructor; cbn; try done; by apply table_init.
  - intros q. rewrite Hr. cbn. rewrite lookup_empty. split; [by intros [? ?]|done].
  - intros q Hq. cbn in Hq. multiset_solver.
  - by exists (mk_client 1 false).
Qed.

(** C17. Whatever sequence of operations callers, the receiver, the event loop and the thread pool
    perform, as long as callers keep to the life of a request ([allowed]), every operation
    returns: none of them meets a request or a handle that has been released, and the searches
    for a free millisecond and for expired calls end.  In every state the trees hold requests in
    memory, in the order of their ids and times, and a request is in memory just while someone
    refers to it, with the number of those references as its count. *)
Theorem calls_sound xid s u : rtc calls_step (conn_init xid, users_init) (s, u) →
  (∃ W X, conn_ok s W X) ∧
  (∀ cc, cc_refcnt <$> reqs s !! cc = if decide (0 < refs u cc) then Some (refs u cc) else None) ∧
  ∀ o, allowed u s o → ∃ stat new s', exec o s = Ret (stat, new, s').
Proof.
  intros Hr. assert (∃ W X, calls_inv s u W X) as (W & X & Hinv).
  { apply (rtc_ind_r (R := calls_step) (λ p, ∃ W X, calls_inv p.1 p.2 W X) (conn_init xid, users_init)) in Hr; [done| |].
    - exists [], []. apply init_inv.
    - intros [s1 u1] p2 _ Hs (W & X & Hinv). inversion Hs as [o ? ? stat new s' Hal E]; subst. cbn in *.
      destruct (op_sound o s1 u1 W X Hinv Hal) as (stat' & new' & s'' & W' & X' & E' & Hinv').
      rewrite E' in E. injection E as <- <- <-. by exists W', X'. }
  split; [exists W, X; apply Hinv|]. split; [by apply (inv_counted s u W X)|].
  intros o Hal. destruct (op_sound o s u W X Hinv Hal) as (stat & new & s' & _ & _ & E & _). eauto.
Qed.

(** ** Waiting *)

(** What happens in a round of waiting keeps the request and does not ask for more rounds. *)
Definition lowers cc s s' : Prop := ∀ W X c, conn_ok s W X → reqs s !! cc = Some c → 0 ≤ cc_refreshes c →
  ∃ W' X' c', conn_ok s' W' X' ∧ reqs s' !! cc = Some c' ∧ 0 ≤ cc_refreshes c' ≤ cc_refreshes c ∧
    cc_timeout c' = cc_timeout c.

Definition round_ok cc (r : round) : Prop := ∀ s W X c, conn_ok s W X → reqs s !! cc = Some c → 0 ≤ cc_refreshes c →
  (∃ stat s', rd_call r s = Ret (stat, s') ∧ lowers cc s s') ∧ (∃ s', rd_meanwhile r s = Ret s' ∧ lowers cc s s').

(** The end of the wait is a time. *)
Definition in_time (timeout : timespec) (r : @round P R) : Prop := ∃ t, timespecadd (rd_now r) timeout = Ret t.

(** A write that the trees do not depend on. *)
Lemma put_plain s W X cc c c' : conn_ok s W X → reqs s !! cc = Some c →
  cc_xid c' = cc_xid c → cc_expire_ms c' = cc_expire_ms c → cc_flags c' = cc_flags c → conn_ok (put s cc c') W X.
Proof. intros. eapply put_ok; [done..|]. unfold expiring. congruence. Qed.

Lemma wait_again_ok s W X cc c : conn_ok s W X → reqs s !! cc = Some c →
  ∃ stat s' W' X' c', wait_again s cc = Ret (stat, s') ∧ conn_ok s' W' X' ∧ reqs s' !! cc = Some c' ∧
    cc_refreshes c' = cc_refreshes c ∧ cc_timeout c' = cc_timeout c.
Proof.
  intros Hok Hc. unfold wait_again. rewrite (req_ok _ _ _ Hc). cbn [obind].
  assert (Hack : ∀ s1 W1 c1, conn_ok s1 W1 X → reqs s1 !! cc = Some c1 →
    ∃ c2, postclear s1 cc CLNT_REQ_FLAG_ACKSYNC = Ret (cc_flags c1, put s1 cc c2) ∧ conn_ok (put s1 cc c2) W1 X ∧
      cc_refreshes c2 = cc_refreshes c1 ∧ cc_timeout c2 = cc_timeout c1).
  { intros s1 W1 c1 H1 Hc1. unfold postclear. rewrite (req_ok _ _ _ Hc1). cbn [obind]. rewrite (upd_ok _ _ _ _ Hc1).
    eexists. split; [done|]. split; [|done]. eapply put_ok; [done..|].
    unfold expiring, any. cbn [cc_flags set_flags]. by rewrite <- Z.land_assoc. }
  destruct (re_status (cc_error c) =? RPC_AUTHERROR); cbn [obind].
  - destruct (ah_refresh (cc_auth c)); cbn [negb obind].
    2: { eexists _, s, W, X, c. by split_and!. }
    destruct (clnt_req_refresh_ok s W X cc c Hok Hc) as (stat & s1 & W1 & c1 & -> & Hok1 & _ & Hr & _ & _ & _ & _ & Hrf & Hto).
    cbn [obind]. assert (Hc1 : reqs s1 !! cc = Some c1) by (rewrite Hr; apply lookup_insert_eq).
    rewrite (req_ok _ _ _ Hc1). cbn [obind]. destruct (negb (stat =? RPC_SUCCESS)).
    + eexists _, s1, W1, X, c1. by split_and!.
    + destruct (Hack s1 W1 c1 Hok1 Hc1) as (c2 & -> & Hok2 & H1 & H2). cbn [obind].
      eexists _, _, W1, X, c2. split_and!; [done|done|apply put_same|congruence..].
  - destruct (Hack s W c Hok Hc) as (c2 & -> & Hok2 & H1 & H2). cbn [obind].
    eexists _, _, W, X, c2. split_and!; [done|done|apply put_same|done..].
Qed.

(** One round: a result, or one refresh less. *)
Lemma wait_once_ok s W X cc c r : conn_ok s W X → reqs s !! cc = Some c → 0 ≤ cc_refreshes c ≤ INT_MAX →
  is_s 64 (tv_sec (cc_timeout c) + tv_nsec (cc_timeout c)) → round_ok cc r → in_time (cc_timeout c) r →
  ∃ stat s', wait_once r s cc = Ret (stat, s') ∧
    (stat = None → ∃ W' X' c', conn_ok s' W' X' ∧ reqs s' !! cc = Some c' ∧
       0 ≤ cc_refreshes c' ≤ cc_refreshes c - 1 ∧ cc_timeout c' = cc_timeout c).
Proof.
  intros Hok Hc Hr Hto Hround [t Ht]. unfold wait_once.
  destruct (Hround s W X c Hok Hc) as [(stat & s1 & -> & Hl) _]; [lia|]. cbn [obind].
  destruct (Hl W X c Hok Hc) as (W1 & X1 & c1 & Hok1 & Hc1 & Hr1 & Ht1); [lia|].
  rewrite (upd_ok _ _ _ _ Hc1). cbn [obind]. set (c2 := set_status stat c1). set (s2 := put s1 cc c2).
  assert (Hok2 : conn_ok s2 W1 X1) by (by eapply put_plain). assert (Hc2 : reqs s2 !! cc = Some c2) by apply put_same.
  destruct (stat =? RPC_SUCCESS); cbn [negb]; [|eexists _, _; split; [done|discriminate]].
  rewrite (req_ok _ _ _ Hc2). cbn [obind]. change (cc_timeout c2) with (cc_timeout c1). rewrite Ht1. unfold signed at 1.
  rewrite decide_True by done. cbn [obind]. destruct (_ =? 0); [eexists _, _; split; [done|discriminate]|].
  rewrite Ht. cbn [obind].
  destruct (Hround s2 W1 X1 c2 Hok2 Hc2) as [_ (s3 & -> & Hl2)]; [apply Hr1|]. cbn [obind].
  destruct (Hl2 W1 X1 c2 Hok2 Hc2) as (W3 & X3 & c3 & Hok3 & Hc3 & Hr3 & Ht3); [apply Hr1|].
  change (cc_refreshes c2) with (cc_refreshes c1) in Hr3. change (cc_timeout c2) with (cc_timeout c1) in Ht3.
  rewrite (req_ok _ _ _ Hc3). cbn [obind]. destruct (_ && _ && _).
  { rewrite (upd_ok _ _ _ _ Hc3). cbn [obind]. eexists _, _. split; [done|discriminate]. }
  unfold signed. rewrite decide_True by (unfold is_s, INT_MAX in *; lia). cbn [obind]. rewrite (upd_ok _ _ _ _ Hc3). cbn [obind].
  set (c4 := set_refreshes _ c3). assert (Hok4 : conn_ok (put s3 cc c4) W3 X3) by (by eapply put_plain).
  destruct (Z.ltb_spec 0 (cc_refreshes c3)).
  - destruct (wait_again_ok _ W3 X3 cc c4 Hok4 (put_same _ _ _)) as (st & s5 & W5 & X5 & c5 & -> & Hok5 & Hc5 & Hr5 & Ht5).
    eexists _, _. split; [done|]. intros _. exists W5, X5, c5. split_and!; [done|done|..].
    + rewrite Hr5. cbn. lia.
    + rewrite Hr5. cbn. lia.
    + rewrite Ht5. change (cc_timeout c4) with (cc_timeout c3). congruence.
  - destruct (rd_timedout r); [|eexists _, _; split; [done|discriminate]].
    rewrite (upd_ok _ cc c4) by apply put_same. cbn [obind]. eexists _, _. split; [done|discriminate].
Qed.

(** C35. A caller who waits gets a result: whatever other threads do meanwhile, as long as they
    leave the request in place and do not raise its count of refreshes, [clnt_req_wait_reply]
    returns after at most as many rounds of calling and waiting as there are refreshes, and one;
    that is three after [clnt_req_setup]. *)
Theorem wait_reply_ends s W X cc c rounds : conn_ok s W X → reqs s !! cc = Some c → 0 ≤ cc_refreshes c ≤ INT_MAX →
  is_s 64 (tv_sec (cc_timeout c) + tv_nsec (cc_timeout c)) → Forall (round_ok cc) rounds → Forall (in_time (cc_timeout c)) rounds →
  cc_refreshes c < Zlen rounds →
  ∃ n stat s', clnt_req_wait_reply rounds s cc = Ret (n, stat, s') ∧ Z.of_nat n ≤ 1 + cc_refreshes c.
Proof.
  intros Hok Hc Hr Hto Hrs. revert s W X c Hok Hc Hr Hto.
  induction Hrs as [|r rounds Hr1 _ IH]; intros s W X c Hok Hc Hr Hto Hin Hlen; [cbn in Hlen; lia|].
  apply Forall_cons in Hin as [Hin Hins].
  cbn [clnt_req_wait_reply]. destruct (wait_once_ok s W X cc c r Hok Hc Hr Hto Hr1 Hin) as (stat & s1 & -> & Hn). cbn [obind].
  destruct stat as [stat|]; [exists 1%nat, stat, s1; split; [done|lia]|].
  destruct Hn as (W1 & X1 & c1 & Hok1 & Hc1 & Hr1' & Ht1); [done|].
  destruct (IH s1 W1 X1 c1 Hok1 Hc1) as (n & stat & s2 & -> & Hle); [lia|by rewrite Ht1|by rewrite Ht1|cbn in Hlen; lia|].
  cbn [obind]. exists (S n), stat, s2. split; [done|]. lia.
Qed.
End Calls.

(** ** Witnesses *)

(** A connection with one call: the request at 1, id 8, five seconds to answer. *)
Definition an_auth : @AUTH unit Z := mk_AUTH (λ _, true) true (λ proc, proc).
Definition a_block : @clnt_req unit Z :=
  mk_req an_auth None 0 _null_auth (mk_ts 0 0) (mk_err 0 0 (mk_versions 0 0) 0 0) 0 0 0 0 0.
Definition a_node : opr_rbtree_node := mk_node None None None false 0.
Definition a_filled : @conn unit Z := clnt_req_fill (conn_init 7) 1 a_block a_node a_node an_auth None 0.
Definition a_call_made : out (Z * conn) := clnt_req_setup a_filled 1 (mk_ts 5 0).
Definition a_conn : conn := match a_call_made with Ret (_, s) => s | _ => a_filled end.

(** The reply to it. *)
Definition an_answer : rpc_msg unit :=
  mk_msg 8 REPLY 0 (mk_reply MSG_ACCEPTED (mk_accepted SUCCESS (mk_versions 0 0) tt _null_auth)
    (mk_rejected 0 (mk_versions 0 0) 0)) 0 0 0 _null_auth _null_auth.

Definition no_body : XDR unit := mk_xdr XDR_DECODE 0 (mk_vio 0 0 0 0 0 VIO_DATA) tt ∅.

Lemma a_filled_ok : conn_ok a_filled [] [].
Proof. apply clnt_req_fill_ok; try done. apply (ci_ok _ _ _ _ (@init_inv unit Z 7)). Qed.

Lemma a_conn_ok : conn_ok a_conn [1] [].
Proof.
  assert (Hn : (1 : Z) ∉ ([] : list Z)) by apply not_elem_of_nil.
  destruct (clnt_req_setup_ok a_filled [] [] 1 _ _ (mk_ts 5 0) a_filled_ok eq_refl Hn Hn eq_refl)
    as [(s & c & E & _ & _ & _ & _ & Hbad)|(s & W & E & Hok & HW & _)].
  - exfalso. destruct Hbad as [H|(q & cq & Hq & _)]; [by vm_compute in H|by apply not_elem_of_nil in Hq].
  - apply Permutation_singleton_r in HW as ->. unfold a_conn, a_call_made. by rewrite E.
Qed.

Lemma reply_matched_witness :
  ∃ s', clnt_req_process_reply a_conn an_answer no_body = Ret (Some 1, s') ∧ conn_ok s' [1] [].
Proof.
  destruct (reply_matched a_conn [1] [] an_answer no_body a_conn_ok) as [[_ H]|(cc & c & Hcc & Hc & _ & _ & _ & Hf)].
  - exfalso. apply (H 1 (fresh_call (mk_ts 5 0) 8 (mk_req an_auth None 0 _null_auth (mk_ts 0 0)
      (mk_err 0 0 (mk_versions 0 0) 0 0) 0 0 0 1 0))); [by left|by vm_compute|done].
  - apply list_elem_of_singleton in Hcc as ->. vm_compute in Hc. injection Hc as <-.
    destruct (Hf eq_refl _ eq_refl) as (s' & E & Hok & _). by exists s'.
Defined.

Lemma calls_sound_witness : ∃ u, rtc (@calls_step unit Z unit) (conn_init 7, users_init) (a_conn, u) ∧
  cc_refcnt <$> reqs a_conn !! 1 = Some 1 ∧ ∃ stat new s', @exec unit Z unit (ORelease 1) a_conn = Ret (stat, new, s').
Proof.
  set (fill := OFill 1 a_block a_node a_node an_auth None 0 : @op unit Z unit).
  set (setup := OSetup 1 (mk_ts 5 0) : @op unit Z unit).
  set (u1 := next users_init fill RPC_SUCCESS [] a_filled). set (u2 := next u1 setup RPC_SUCCESS [] a_conn).
  assert (Hr : rtc (@calls_step unit Z unit) (conn_init 7, users_init) (a_conn, u2)).
  { eapply rtc_l; [apply (calls_do fill); [by split_and!|done]|].
    apply rtc_once, (calls_do setup); [split; [done|split_and!; by vm_compute]|by vm_compute]. }
  exists u2. destruct (calls_sound 7 a_conn u2 Hr) as (_ & Hc & Hex). split; [done|]. split.
  - rewrite Hc. by vm_compute.
  - apply Hex. split; [done|]. split; by vm_compute.
Defined.

(** Rounds in which nothing comes. *)
Definition silence : @round unit Z := mk_round (λ s, Ret (RPC_SUCCESS, s)) (mk_ts 1000 0) Ret true false.

Lemma wait_reply_ends_witness : ∃ n stat s', clnt_req_wait_reply (replicate 3 silence) a_conn 1 = Ret (n, stat, s') ∧
  Z.of_nat n ≤ 3.
Proof.
  assert (∃ c, reqs a_conn !! 1 = Some c ∧ cc_refreshes c = 2 ∧ cc_timeout c = mk_ts 5 0) as (c & Hc & Hr & Ht)
    by (eexists; split; vm_compute; [reflexivity|split; reflexivity]).
  change 3 with (1 + 2). rewrite <- Hr.
  apply (wait_reply_ends a_conn [1] [] 1 c (replicate 3 silence) a_conn_ok Hc); rewrite ?Ht, ?Hr; [done|done| |by apply Forall_replicate; eexists|done].
  apply Forall_replicate. intros s W X c' Hok Hc' Hr'.
  assert (Hl : lowers 1 s s) by (intros W' X' c'' ???; exists W', X', c''; by split_and!).
  split; [by exists RPC_SUCCESS, s|by exists s].
Defined.
