(* ===== verification/ClntReqThreads.v ===== *)
(** * Replies and timers that race for a request (src/clnt_generic.c, src/svc_rqst.c)

    The pieces of ClntReq.v as the steps of threads: any number of replies being processed,
    of tasks for expired calls and of sweeps of the event loop, which hold [ev_lock], among
    callers that do anything to their requests at any time. *)
From stdpp Require Import base gmap list.
From Stdlib Require Import ZArith Lia.
From S2P Require Import Prelude Machine XdrHandle RpcMsg RbTree RbTable ClntReq ClntReqFacts ClntReqTheorems.

Section Threads.
Context {P R T : Type}.
Abbreviation connection := (@conn P R).
Abbreviation request := (@clnt_req P R).
Implicit Types (s : connection) (c : request) (cc : Z).

(** ** The system *)

(** Where a thread is.  [k] is the round of the request it has claimed. *)
Inductive pc :=
| RLookup (m : rpc_msg T) (xdrs : XDR P)
| RExpiring (m : rpc_msg T) (xdrs : XDR P) (cc : Z)
| RUnexpire (m : rpc_msg T) (xdrs : XDR P) (cc : Z)
| RAck (m : rpc_msg T) (xdrs : XDR P) (cc : Z)
| RDeliver (m : rpc_msg T) (xdrs : XDR P) (cc : Z) (k : nat)
| SPick (expire_ms : Z)
| SClear (expire_ms cc : Z)
| SRemove (expire_ms cc : Z)
| SSubmit (expire_ms cc : Z)
| TShared (cc : Z)
| TClaim (cc : Z)
| TExpire (cc : Z) (k : nat)
| LDec (cc : Z)
| LReplies (cc : Z)
| LFlags (cc : Z)
| LUnexpire (cc : Z)
| LFree (cc : Z).

(** [sy_round] counts for each address how often the flags of the request there were cleared,
    [sy_log] the callbacks that ran, each with the round of its request. *)
Record sys := mk_sys {
  sy_conn : connection; sy_threads : list pc; sy_ev_lock : bool; sy_round : Z → nat; sy_log : list (Z * nat);
}.

Definition bump (cc : Z) (f : Z → nat) : Z → nat := λ q, if q =? cc then S (f q) else f q.

(** One step of a thread on the shared state: where it is then, with the threads it starts. *)
Inductive thread_step (f : Z → nat) : pc → connection * bool → list pc → connection * bool → (Z → nat) → list (Z * nat) → Prop :=
| step_lookup m x s l nv : reply_lookup s (rm_xid m) = Ret nv →
    thread_step f (RLookup m x) (s, l) (match nv with Some cc => [RExpiring m x cc] | None => [] end) (s, l) f []
| step_expiring m x cc s l (b : bool) s' : reply_expiring s cc = Ret (b, s') →
    thread_step f (RExpiring m x cc) (s, l) [if b then RUnexpire m x cc else RAck m x cc] (s', l) f []
| step_unexpire m x cc s s' : unexpire s cc = Ret s' →
    thread_step f (RUnexpire m x cc) (s, false) [RAck m x cc] (s', false) f []
| step_ack m x cc s l (first : bool) s' : reply_ack s cc = Ret (first, s') →
    thread_step f (RAck m x cc) (s, l) (if first then [RDeliver m x cc (f cc)] else []) (s', l) f []
| step_deliver m x cc k s l s' : reply_deliver m x s cc = Ret s' →
    thread_step f (RDeliver m x cc k) (s, l) [] (s', l) f [(cc, k)]
| step_pick e s nv ms : sweep_pick s e = Ret (nv, ms) →
    thread_step f (SPick e) (s, true) (match nv with Some cc => [SClear e cc] | None => [] end)
      (s, match nv with Some _ => true | None => false end) f []
| step_clear e cc s s' : sweep_clear s cc = Ret s' → thread_step f (SClear e cc) (s, true) [SRemove e cc] (s', true) f []
| step_remove e cc s s' : sweep_remove s cc = Ret s' → thread_step f (SRemove e cc) (s, true) [SSubmit e cc] (s', true) f []
| step_submit e cc s s' : sweep_submit s cc = Ret s' →
    thread_step f (SSubmit e cc) (s, true) [SPick e; TShared cc] (s', true) f []
| step_shared cc s l (b : bool) : expire_shared s cc = Ret b →
    thread_step f (TShared cc) (s, l) [if b then TClaim cc else LDec cc] (s, l) f []
| step_claim cc s l (first : bool) s' : expire_claim s cc = Ret (first, s') →
    thread_step f (TClaim cc) (s, l) [if first then TExpire cc (f cc) else LDec cc] (s', l) f []
| step_expire cc k s l s' : upd s cc (set_status RPC_TIMEDOUT) = Ret s' →
    thread_step f (TExpire cc k) (s, l) [LDec cc] (s', l) f [(cc, k)]
| step_dec cc s l refs s' : release_dec s cc = Ret (refs, s') →
    thread_step f (LDec cc) (s, l) (if 0 <? refs then [] else [LReplies cc]) (s', l) f []
| step_replies cc s l s' : reset_replies s cc = Ret s' → thread_step f (LReplies cc) (s, l) [LFlags cc] (s', l) f []
| step_flags cc s l (b : bool) s' : reset_flags s cc = Ret (b, s') →
    thread_step f (LFlags cc) (s, l) [if b then LUnexpire cc else LFree cc] (s', l) (bump cc f) []
| step_lunexpire cc s s' : unexpire s cc = Ret s' → thread_step f (LUnexpire cc) (s, false) [LFree cc] (s', false) f []
| step_free cc s l s' : release_free s cc = Ret s' → thread_step f (LFree cc) (s, l) [] (s', l) f [].

(** What callers may do, in any order: the pieces of their routines. *)
Inductive owner_step (f : Z → nat) s : connection → (Z → nat) → Prop :=
| caller_fill cc c dplx rqst auth proc w : reqs s !! cc = None →
    owner_step f s (clnt_req_fill s cc c dplx rqst auth proc w) (bump cc f)
| caller_fields cc timeout s' : upd s cc (setup_fields timeout) = Ret s' → owner_step f s s' (bump cc f)
| caller_xid cc nv s' : new_xid s cc = Ret (nv, s') → owner_step f s s' f
| caller_status cc v s' : upd s cc (set_status v) = Ret s' → owner_step f s s' f
| caller_refreshes cc v s' : upd s cc (set_refreshes v) = Ret s' → owner_step f s s' f
| caller_ref s' : clnt_ref_it s = Ret s' → owner_step f s s' f
| caller_replies_off cc s' : reset_replies s cc = Ret s' → owner_step f s s' f
| caller_flags cc b s' : reset_flags s cc = Ret (b, s') → owner_step f s s' (bump cc f)
| caller_again cc fl s' : postclear s cc CLNT_REQ_FLAG_ACKSYNC = Ret (fl, s') → owner_step f s s' (bump cc f).

Inductive sys_step : sys → sys → Prop :=
| sys_thread s s' l l' f f' ts1 t ts2 ts' log ev :
    thread_step f t (s, l) ts' (s', l') f' ev →
    sys_step (mk_sys s (ts1 ++ t :: ts2) l f log) (mk_sys s' (ts1 ++ ts' ++ ts2) l' f' (log ++ ev))
| sys_caller s s' l f f' ts log : owner_step f s s' f' → sys_step (mk_sys s ts l f log) (mk_sys s' ts l f' log)
| sys_timer s s' f ts log cc now b : svc_rqst_expire_insert now s cc = Ret (b, s') →
    sys_step (mk_sys s ts false f log) (mk_sys s' ts false (bump cc f) log)
| sys_unexpire s s' f ts log cc : unexpire s cc = Ret s' →
    sys_step (mk_sys s ts false f log) (mk_sys s' ts false f log)
| sys_reply s l f ts log m xdrs : sys_step (mk_sys s ts l f log) (mk_sys s (RLookup m xdrs :: ts) l f log)
| sys_release s l f ts log cc : sys_step (mk_sys s ts l f log) (mk_sys s (LDec cc :: ts) l f log)
| sys_sweep s f ts log e : sys_step (mk_sys s ts false f log) (mk_sys s (SPick e :: ts) true f log).

Definition sys_init s : sys := mk_sys s [] false (λ _, 0%nat) [].

(** ** Claims *)

Definition pending (t : pc) : list (Z * nat) :=
  match t with RDeliver _ _ cc k | TExpire cc k => [(cc, k)] | _ => [] end.

(** No request loses a claim between [s] and [s'], those at [B] apart. *)
Definition keeps_claims (B : list Z) s s' : Prop := ∀ cc c', cc ∉ B → reqs s' !! cc = Some c' →
  ∃ c, reqs s !! cc = Some c ∧ (claimed c = true → claimed c' = true).

Definition items (y : sys) : list (Z * nat) := sy_log y ++ (sy_threads y ≫= pending).

(** Each claim of a round is pending or ran once, and the request keeps the flag of the claims
    of its current round. *)
Record claims_ok (y : sys) : Prop := {
  cl_once : NoDup (items y);
  cl_round cc k : (cc, k) ∈ items y → (k ≤ sy_round y cc)%nat;
  cl_held cc c : (cc, sy_round y cc) ∈ items y →
    reqs (sy_conn y) !! cc = Some c → claimed c = true;
}.

Lemma claims_keep y y' : claims_ok y → items y' ≡ₚ items y → sy_round y' = sy_round y →
  keeps_claims [] (sy_conn y) (sy_conn y') → claims_ok y'.
Proof.
  intros [Ho Hr Hh] Hp Hf Hk. constructor.
  - by rewrite Hp.
  - intros cc k. rewrite Hp, Hf. apply Hr.
  - intros cc c'. rewrite Hp, Hf. intros Hi Hc'. destruct (Hk cc c') as (c & Hc & Hcl); [apply not_elem_of_nil|done|].
    by eapply Hcl, Hh.
Qed.

Lemma claims_bump y y' cc : claims_ok y → items y' ≡ₚ items y → sy_round y' = bump cc (sy_round y) →
  keeps_claims [cc] (sy_conn y) (sy_conn y') → claims_ok y'.
Proof.
  intros [Ho Hr Hh] Hp Hf Hk. constructor.
  - by rewrite Hp.
  - intros q k. rewrite Hp, Hf. intros Hi. apply Hr in Hi. unfold bump. destruct (q =? cc); lia.
  - intros q c'. rewrite Hp, Hf. unfold bump. destruct (Z.eqb_spec q cc) as [->|Hne]; intros Hi Hc'.
    + apply Hr in Hi. lia.
    + destruct (Hk q c') as (c & Hc & Hcl); [by intros ->%list_elem_of_singleton|done|]. by eapply Hcl, Hh.
Qed.

Lemma claims_claim y y' cc c c' : claims_ok y → items y' ≡ₚ (cc, sy_round y cc) :: items y → sy_round y' = sy_round y →
  reqs (sy_conn y) !! cc = Some c → claimed c = false → reqs (sy_conn y') !! cc = Some c' → claimed c' = true →
  keeps_claims [] (sy_conn y) (sy_conn y') → claims_ok y'.
Proof.
  intros [Ho Hr Hh] Hp Hf Hc Hn Hc' Ht Hk.
  assert (Hnew : (cc, sy_round y cc) ∉ items y) by (intros Hi; rewrite (Hh cc c Hi Hc) in Hn; done).
  constructor.
  - rewrite Hp. by constructor.
  - intros q k. rewrite Hp, Hf. intros [[= -> ->]|Hi]%elem_of_cons; [lia|by apply Hr].
  - intros q cq. rewrite Hp, Hf. intros [[= ->]|Hi]%elem_of_cons Hq; [congruence|].
    destruct (Hk q cq) as (c0 & Hc0 & Hcl); [apply not_elem_of_nil|done|]. by eapply Hcl, Hh.
Qed.

(** ** What the pieces do to the requests *)

Lemma upd_inv s cc f s' : upd s cc f = Ret s' →
  ∃ c, reqs s !! cc = Some c ∧ reqs s' = <[cc := f c]> (reqs s).
Proof. unfold upd, req. destruct (reqs s !! cc) as [c|]; [|done]. intros [= <-]. by exists c. Qed.

Lemma postset_inv s cc bits fl s' : postset s cc bits = Ret (fl, s') →
  ∃ c, reqs s !! cc = Some c ∧ fl = cc_flags c ∧ reqs s' = <[cc := set_flags (Z.lor (cc_flags c) bits) c]> (reqs s).
Proof.
  unfold postset, upd, req. destruct (reqs s !! cc) as [c|] eqn:Hc; [|done]. cbn. intros [= <- <-]. by exists c.
Qed.

Lemma postclear_inv s cc bits fl s' : postclear s cc bits = Ret (fl, s') →
  ∃ c, reqs s !! cc = Some c ∧ fl = cc_flags c ∧
    reqs s' = <[cc := set_flags (Z.land (cc_flags c) (Z.lnot bits)) c]> (reqs s).
Proof.
  unfold postclear, upd, req. destruct (reqs s !! cc) as [c|] eqn:Hc; [|done]. cbn. intros [= <- <-]. by exists c.
Qed.

Lemma keeps_same s s' : reqs s' = reqs s → keeps_claims [] s s'.
Proof. intros E cc c' _. rewrite E. by exists c'. Qed.

Lemma keeps_claims_trans s1 s2 s3 B : keeps_claims B s1 s2 → keeps_claims B s2 s3 → keeps_claims B s1 s3.
Proof.
  intros H1 H2 cc c3 Hn H3. destruct (H2 cc c3 Hn H3) as (c2 & Hc2 & H23).
  destruct (H1 cc c2 Hn Hc2) as (c1 & Hc1 & H12). exists c1. auto.
Qed.

Lemma keeps_claims_weaken s s' B : keeps_claims [] s s' → keeps_claims B s s'.
Proof. intros H cc c' _. apply H, not_elem_of_nil. Qed.

Lemma keeps_put s s' cc c c' : reqs s !! cc = Some c → reqs s' = <[cc := c']> (reqs s) →
  (claimed c = true → claimed c' = true) → keeps_claims [] s s'.
Proof.
  intros Hc E Hcl q cq _. rewrite E. destruct (decide (cc = q)) as [<-|].
  - rewrite lookup_insert_eq. intros [= <-]. by exists c.
  - rewrite lookup_insert_ne by done. by exists cq.
Qed.

Lemma keeps_at s s' cc c' : reqs s' = <[cc := c']> (reqs s) → keeps_claims [cc] s s'.
Proof.
  intros E q cq Hn. rewrite E, lookup_insert_ne; [by exists cq|]. intros ->. by apply Hn, list_elem_of_singleton.
Qed.

Lemma upd_keeps s cc f s' : (∀ c, cc_flags (f c) = cc_flags c) → upd s cc f = Ret s' → keeps_claims [] s s'.
Proof.
  intros Hf (c & Hc & E)%upd_inv. eapply keeps_put; [done..|]. unfold claimed. by rewrite Hf.
Qed.

Lemma unexpire_keeps s cc s' : unexpire s cc = Ret s' → keeps_claims [] s s'.
Proof.
  unfold unexpire, svc_rqst_expire_remove. destruct (access (client s)); try done. cbn [obind].
  destruct (negb (ev_p s)); cbn [obind]; [by apply upd_keeps|].
  destruct (opr_rbtree_remove _ _) as [t| | |]; try done. cbn [obind]. by apply (upd_keeps (set_expires t s)).
Qed.

Lemma expiring_keeps c : claimed (set_flags (Z.land (cc_flags c) (Z.lnot CLNT_REQ_FLAG_EXPIRING)) c) = claimed c.
Proof. unfold claimed, any. cbn [cc_flags set_flags]. by rewrite <- Z.land_assoc. Qed.

Lemma new_xid_keeps s cc nv s' : new_xid s cc = Ret (nv, s') → keeps_claims [] s s'.
Proof.
  unfold new_xid. destruct (upd _ cc _) as [s1| | |] eqn:E; try done. cbn [obind].
  destruct (opr_rbtree_insert _ _ _) as [[nv' t]| | |]; try done. cbn. intros [= _ <-].
  apply (keeps_claims_trans _ s1); [by apply (upd_keeps (set_call_xid (u32 (call_xid s + 1)) s)) in E|by apply keeps_same].
Qed.

Lemma expire_loop_keeps fuel s cc s' : expire_insert_loop fuel s cc = Ret s' → keeps_claims [] s s'.
Proof.
  revert s. induction fuel as [|fuel IH]; intros s; cbn [expire_insert_loop];
    destruct (opr_rbtree_insert _ _ _) as [[[q|] t]| | |]; try done; cbn [obind].
  - intros [= <-]. by apply keeps_same.
  - unfold req. destruct (reqs s !! cc) as [c|]; [|done]. cbn [access obind].
    destruct (signed _ _) as [ms| | |]; try done. cbn [obind]. destruct (upd s cc _) as [s1| | |] eqn:E; try done.
    cbn [obind]. intros H%IH. eapply keeps_claims_trans; [|done]. by eapply upd_keeps in E.
  - intros [= <-]. by apply keeps_same.
Qed.

Lemma expire_insert_keeps now s cc b s' : svc_rqst_expire_insert now s cc = Ret (b, s') → keeps_claims [cc] s s'.
Proof.
  unfold svc_rqst_expire_insert. destruct (access (client s)); try done. cbn [obind].
  destruct (negb (ev_p s)); [intros [= _ <-]; by apply keeps_claims_weaken, keeps_same|].
  destruct (req s cc) as [c| | |]; try done. cbn [obind]. destruct (svc_rqst_expire_ms _ _) as [ms| | |]; try done.
  cbn [obind]. destruct (upd s cc _) as [s1| | |] eqn:E1; try done. cbn [obind].
  destruct (upd s1 cc _) as [s2| | |] eqn:E2; try done. cbn [obind].
  destruct (expire_insert_loop _ _ _) as [s3| | |] eqn:E3; try done. cbn. intros [= _ <-].
  apply (keeps_claims_trans _ s1); [by eapply keeps_claims_weaken, upd_keeps, E1|]. apply (keeps_claims_trans _ s2).
  - apply upd_inv in E2 as (c2 & _ & E). by eapply keeps_at.
  - by eapply keeps_claims_weaken, expire_loop_keeps.
Qed.

(** A claim sets the flag that tells the next claim it came too late. *)
Lemma claim_set s cc fl s' bit : postset s cc bit = Ret (fl, s') →
  any bit (Z.lor CLNT_REQ_FLAG_ACKSYNC CLNT_REQ_FLAG_BACKSYNC) = true →
  ∃ c c', reqs s !! cc = Some c ∧ reqs s' = <[cc := c']> (reqs s) ∧ claimed c' = true ∧
    claimed c = any fl (Z.lor CLNT_REQ_FLAG_ACKSYNC CLNT_REQ_FLAG_BACKSYNC).
Proof.
  intros (c & Hc & -> & E)%postset_inv Hb. eexists c, _. split; [done|]. split; [done|]. split; [|done].
  unfold claimed. cbn [cc_flags set_flags]. rewrite any_lor, Hb. apply orb_true_r.
Qed.

(** The three things a step of a thread can be for the claims. *)
Inductive claim_step (f : Z → nat) (t : pc) s (ts' : list pc) s' (f' : Z → nat) (ev : list (Z * nat)) : Prop :=
| claim_none : f' = f → ev ++ (ts' ≫= pending) = pending t → keeps_claims [] s s' → claim_step f t s ts' s' f' ev
| claim_bump cc : f' = bump cc f → ev ++ (ts' ≫= pending) = pending t → keeps_claims [cc] s s' →
    claim_step f t s ts' s' f' ev
| claim_new cc c c' : f' = f → pending t = [] → ev ++ (ts' ≫= pending) = [(cc, f cc)] →
    reqs s !! cc = Some c → claimed c = false → reqs s' !! cc = Some c' → claimed c' = true →
    keeps_claims [] s s' → claim_step f t s ts' s' f' ev.

Lemma ack_claims f m x cc s l ts' s' l' f' ev :
  thread_step f (RAck m x cc) (s, l) ts' (s', l') f' ev → claim_step f (RAck m x cc) s ts' s' f' ev.
Proof.
  intros Hs. inversion Hs; subst. rename select (reply_ack _ _ = _) into E. unfold reply_ack in E.
  destruct (postset s cc CLNT_REQ_FLAG_ACKSYNC) as [[fl s1]| | |] eqn:E1; try done. cbn [obind] in E.
  destruct (claim_set _ _ _ _ _ E1 eq_refl) as (c & c' & Hc & Hr & Ht & Hcl). rewrite <- Hcl in E.
  assert (Hk : keeps_claims [] s s1) by (eapply keeps_put; [done..|done]).
  destruct (claimed c) eqn:Hcc.
  - destruct (upd s1 cc _) as [s2| | |] eqn:E2; try done. injection E as <- <-. apply claim_none; [done|done|].
    eapply keeps_claims_trans; [done|]. by eapply upd_keeps, E2.
  - injection E as <- <-. apply (claim_new _ _ _ _ _ _ _ cc c c'); try done. rewrite Hr. apply lookup_insert_eq.
Qed.

Lemma timer_claims f cc s l ts' s' l' f' ev :
  thread_step f (TClaim cc) (s, l) ts' (s', l') f' ev → claim_step f (TClaim cc) s ts' s' f' ev.
Proof.
  intros Hs. inversion Hs; subst. rename select (expire_claim _ _ = _) into E. unfold expire_claim in E.
  destruct (postset s cc CLNT_REQ_FLAG_BACKSYNC) as [[fl s1]| | |] eqn:E1; try done. cbn [obind] in E.
  destruct (claim_set _ _ _ _ _ E1 eq_refl) as (c & c' & Hc & Hr & Ht & Hcl). rewrite <- Hcl in E.
  assert (Hk : keeps_claims [] s s1) by (eapply keeps_put; [done..|done]).
  injection E as <- <-. destruct (claimed c) eqn:Hcc; cbn [negb].
  - by apply claim_none.
  - apply (claim_new _ _ _ _ _ _ _ cc c c'); try done. rewrite Hr. apply lookup_insert_eq.
Qed.

Lemma deliver_keeps (m : rpc_msg T) x s cc s' : reply_deliver m x s cc = Ret s' → keeps_claims [] s s'.
Proof.
  unfold reply_deliver, req. destruct (reqs s !! cc) as [c|] eqn:Hc; [|done]. cbn [access obind].
  destruct (reply_result m x c) as [c'| | |] eqn:Er; try done. cbn [obind]. intros (c0 & Hc0 & E)%upd_inv.
  apply reply_result_keeps in Er as (_ & _ & Hf & _). eapply keeps_put; [done..|].
  assert (c0 = c) as -> by congruence. unfold claimed. by rewrite Hf.
Qed.

Lemma postclear_keeps s cc fl s' : postclear s cc CLNT_REQ_FLAG_EXPIRING = Ret (fl, s') → keeps_claims [] s s'.
Proof.
  intros (c & Hc & _ & E)%postclear_inv. eapply keeps_put; [done..|]. by rewrite expiring_keeps.
Qed.

Lemma reset_flags_at s cc b s' : reset_flags s cc = Ret (b, s') → keeps_claims [cc] s s'.
Proof.
  unfold reset_flags. destruct (postclear _ _ _) as [[fl s1]| | |] eqn:E; try done. cbn. intros [= _ <-].
  apply postclear_inv in E as (c & _ & _ & E). by eapply keeps_at.
Qed.

Lemma reset_replies_same s cc s' : reset_replies s cc = Ret s' → reqs s' = reqs s.
Proof.
  unfold reset_replies. destruct (access (client s)); try done. cbn [obind].
  destruct (opr_rbtree_remove _ _); try done. by intros [= <-].
Qed.

Lemma release_free_keeps s cc s' : release_free s cc = Ret s' → keeps_claims [] s s'.
Proof.
  unfold release_free, clnt_release_it. destruct (req s cc); try done. cbn [obind].
  destruct (client s) as [cl|]; try done. cbn [access obind]. intros H q cq _ Hq.
  assert (E : reqs s' = delete cc (reqs s)) by (destruct (0 <? _), (cl_releasing cl); by injection H as <-).
  rewrite E in Hq. apply lookup_delete_Some in Hq as [_ Hq]. by exists cq.
Qed.

Lemma thread_claims f t s l ts' s' l' f' ev :
  thread_step f t (s, l) ts' (s', l') f' ev → claim_step f t s ts' s' f' ev.
Proof.
  intros Hs. pose proof Hs as Hs'.
  inversion Hs as [m x s0 l0 nv|m x cc s0 l0 b s1 E|m x cc s0 s1 E|m x cc s0 l0 b s1 E|m x cc k s0 l0 s1 E|e s0 nv ms|
    e cc s0 s1 E|e cc s0 s1 E|e cc s0 s1 E|cc s0 l0 b E|cc s0 l0 b s1 E|cc k s0 l0 s1 E|cc s0 l0 refs s1 E|cc s0 l0 s1 E|
    cc s0 l0 b s1 E|cc s0 s1 E|cc s0 l0 s1 E]; subst.
  - apply claim_none; [done|by destruct nv|by apply keeps_same].
  - unfold reply_expiring in E. destruct (postclear _ _ _) as [[fl s2]| | |] eqn:E1; try done. injection E as <- <-.
    apply claim_none; [done|by destruct (any _ _)|by eapply postclear_keeps].
  - apply claim_none; [done|done|by eapply unexpire_keeps].
  - by eapply ack_claims.
  - apply claim_none; [done|done|by eapply deliver_keeps].
  - apply claim_none; [done|by destruct nv|by apply keeps_same].
  - unfold sweep_clear in E. destruct (postclear _ _ _) as [[fl s2]| | |] eqn:E1; try done. injection E as <-.
    apply claim_none; [done|done|by eapply postclear_keeps].
  - unfold sweep_remove in E. destruct (opr_rbtree_remove _ _) as [t'| | |]; try done. cbn [obind] in E.
    apply claim_none; [done|done|]. by apply (upd_keeps (set_expires t' s)) in E.
  - unfold sweep_submit in E. destruct (req s cc); try done. cbn [obind] in E.
    apply claim_none; [done|done|by eapply upd_keeps, E].
  - apply claim_none; [done|by destruct b|by apply keeps_same].
  - by eapply timer_claims.
  - apply claim_none; [done|done|by eapply upd_keeps, E].
  - unfold release_dec in E. destruct (req s cc); try done. cbn [obind] in E.
    destruct (upd _ _ _) as [s2| | |] eqn:E2; try done. injection E as <- <-.
    apply claim_none; [done|by destruct (0 <? _)|by eapply upd_keeps, E2].
  - apply claim_none; [done|done|by eapply keeps_same, reset_replies_same].
  - apply (claim_bump _ _ _ _ _ _ _ cc); [done|by destruct b|by eapply reset_flags_at].
  - apply claim_none; [done|done|by eapply unexpire_keeps].
  - apply claim_none; [done|done|by eapply release_free_keeps].
Qed.

Lemma caller_claims f s s' f' : owner_step f s s' f' →
  f' = f ∧ keeps_claims [] s s' ∨ ∃ cc, f' = bump cc f ∧ keeps_claims [cc] s s'.
Proof.
  intros [cc c dplx rqst auth proc w|cc to s1 E|cc nv s1 E|cc v s1 E|cc v s1 E|s1 E|cc s1 E|cc b s1 E|cc fl s1 E].
  - right. exists cc. split; [done|]. by eapply keeps_at.
  - right. exists cc. split; [done|]. apply upd_inv in E as (c & _ & E). by eapply keeps_at.
  - left. split; [done|]. by eapply new_xid_keeps.
  - left. split; [done|]. by eapply upd_keeps, E.
  - left. split; [done|]. by eapply upd_keeps, E.
  - left. split; [done|]. unfold clnt_ref_it in E. destruct (client s); [|done]. injection E as <-. by apply keeps_same.
  - left. split; [done|]. by eapply keeps_same, reset_replies_same.
  - right. exists cc. split; [done|]. by eapply reset_flags_at.
  - right. exists cc. split; [done|]. apply postclear_inv in E as (c & _ & _ & E). by eapply keeps_at.
Qed.

(** ** Once *)

Lemma items_thread s s' l l' f f' ts1 t ts2 ts' log ev :
  let y := mk_sys s (ts1 ++ t :: ts2) l f log in
  let y' := mk_sys s' (ts1 ++ ts' ++ ts2) l' f' (log ++ ev) in
  ∃ rest, items y ≡ₚ pending t ++ rest ∧ items y' ≡ₚ (ev ++ (ts' ≫= pending)) ++ rest.
Proof.
  exists (log ++ (ts1 ≫= pending) ++ (ts2 ≫= pending)). unfold items. cbn. rewrite !bind_app. cbn. split; solve_Permutation.
Qed.

Lemma claims_step y y' : claims_ok y → sys_step y y' → claims_ok y'.
Proof.
  intros Hok Hy. revert Hok. destruct Hy as [s s' l l' f f' ts1 t ts2 ts' log ev Hs|s s' l f f' ts log Hs|s s' f ts log cc now b E|s s' f ts log cc E|
    s l f ts log m xdrs|s l f ts log cc|s f ts log e]; intros Hok.
  - destruct (items_thread s s' l l' f f' ts1 t ts2 ts' log ev) as (rest & H1 & H2).
    apply thread_claims in Hs as [-> E Hk|cc -> E Hk|cc c c' -> Et E Hc Hn Hc' Ht Hk]; rewrite E in H2.
    + eapply claims_keep; [exact Hok|by etrans; [exact H2|symmetry; exact H1]|done|done].
    + eapply (claims_bump _ _ cc); [exact Hok|by etrans; [exact H2|symmetry; exact H1]|done|done].
    + rewrite Et in H1. eapply (claims_claim _ _ cc c c'); [exact Hok| |done..].
      etrans; [exact H2|]. cbn. apply Permutation_skip. symmetry. exact H1.
  - apply caller_claims in Hs as [[-> Hk]|(cc & -> & Hk)]; [by eapply claims_keep|by eapply claims_bump].
  - eapply (claims_bump _ _ cc); [exact Hok|done|done|by eapply expire_insert_keeps].
  - eapply claims_keep; [exact Hok|done|done|by eapply unexpire_keeps].
  - eapply claims_keep; [exact Hok|done|done|by apply keeps_same].
  - eapply claims_keep; [exact Hok|done|done|by apply keeps_same].
  - eapply claims_keep; [exact Hok|done|done|by apply keeps_same].
Qed.

(** C18. A call is completed at most once: in every interleaving of replies, sweeps and tasks for
    expired calls, whatever callers do to their requests meanwhile, the callback of a request
    runs at most once between two clearings of its flags -- for the first reply or for the
    timer, never for both, and not for a second copy of the reply. *)
Theorem completed_once s y : rtc sys_step (sys_init s) y → NoDup (sy_log y).
Proof.
  intros Hr. assert (Hok : claims_ok y).
  { eapply (rtc_ind_r (R := sys_step) claims_ok (sys_init s)); [|intros; by eapply claims_step|exact Hr].
    constructor; [constructor|by intros cc k ?%not_elem_of_nil|by intros cc c ?%not_elem_of_nil]. }
  pose proof (cl_once _ Hok) as Hn. unfold items in Hn. by apply NoDup_app in Hn as [? _].
Qed.
End Threads.

(** ** A run *)

Tactic Notation "run_thread" uconstr(before) uconstr(step) :=
  eapply rtc_l; [eapply (sys_thread _ _ _ _ _ _ before), step; vm_compute; reflexivity|cbn [app]].

(** Two copies of the reply to the call of [a_conn]: both find the request, one completes it. *)
Lemma completed_once_witness : ∃ y, rtc (@sys_step unit Z unit) (sys_init a_conn) y ∧
  sy_threads y = [] ∧ sy_log y = [(1, 0%nat)] ∧ NoDup (sy_log y).
Proof.
  assert (∃ y, rtc (@sys_step unit Z unit) (sys_init a_conn) y ∧ sy_threads y = [] ∧ sy_log y = [(1, 0%nat)])
    as (y & Hr & Ht & Hl).
  { eexists. split; [|shelve].
    eapply rtc_l; [apply (sys_reply _ _ _ _ _ an_answer no_body)|].
    eapply rtc_l; [apply (sys_reply _ _ _ _ _ an_answer no_body)|].
    run_thread [] step_lookup.
    run_thread [RExpiring an_answer no_body 1] step_lookup.
    run_thread [] step_expiring.
    run_thread [RAck an_answer no_body 1] step_expiring.
    run_thread [RAck an_answer no_body 1] step_ack.
    run_thread [] step_ack.
    run_thread [] step_deliver.
    apply rtc_refl.
    Unshelve. done. }
  exists y. split_and!; [done..|]. by apply (completed_once a_conn y).
Defined.
