(* ===== verification/ClntReqErrors.v ===== *)
(** * Where the calls of a client go wrong (src/clnt_generic.c, src/svc_rqst.c)

    A reply in progress and its request being released; a setup that fails and the release
    that follows it; a transport that lost its channel; times that do not fit; an answer that
    comes with the timeout, and one that reports an error. *)
From stdpp Require Import base gmap list sorting.
From Stdlib Require Import ZArith Lia.
From S2P Require Import Prelude Machine XdrHandle RpcMsg RbTree RbTable ClntReq ClntReqFacts ClntReqTheorems.

Section Errors.
Context {P R T : Type}.
Abbreviation connection := (@conn P R).
Abbreviation request := (@clnt_req P R).
Implicit Types (s : connection) (c : request) (cc : Z) (W X : list Z).

Lemma released_ub s cc : reqs s !! cc = None → reply_expiring s cc = Ub.
Proof. intros Hc. unfold reply_expiring, postclear, req. by rewrite Hc. Qed.

(** C40. Finding a request does not keep it: [clnt_req_process_reply] looks the request up under
    the lock and takes no reference, so the one who holds the request may release it as soon as
    the lock is gone, and the next thing the reply does with it, clearing
    CLNT_REQ_FLAG_EXPIRING, is a use of memory that was freed. *)
Theorem reply_uses_released s W X cc c cl : conn_ok s W X → cc ∈ W → reqs s !! cc = Some c → cc_refcnt c = 1 →
  client s = Some cl → 1 < cl_refcnt cl ≤ INT_MAX →
  reply_lookup s (cc_xid c) = Ret (Some cc) ∧
  ∃ s', clnt_req_release s cc = Ret (0, s') ∧ reply_expiring s' cc = Ub.
Proof.
  intros Hok Hw Hc Hr Hcl Hrc. split.
  - destruct (reply_lookup_ok s W X (cc_xid c) Hok) as ([q|] & -> & Hq).
    + destruct Hq as (Hq & cq & Hcq & Hx). do 2 f_equal. by eapply waiting_inj.
    + by destruct (Hq cc c Hw Hc).
  - destruct (clnt_req_release_ok s W X cc c cl Hok Hc) as [(? & _)|(_ & s' & E & _ & Hreqs & _)];
      [unfold INT_MAX; lia|done|done|lia|].
    exists s'. split; [done|]. apply released_ub. rewrite Hreqs. apply lookup_delete_eq.
Qed.

(** A setup that fails takes no reference to the handle, but releasing the request drops one:
    the handle is destroyed under its creator. *)
Theorem failed_setup_destroys s W X cc c timeout : conn_ok s W X → reqs s !! cc = Some c → cc ∉ W → cc ∉ X →
  cc_refcnt c = 1 → client s = Some (mk_client 1 false) → bad_timeout timeout = true →
  ∃ s1 s2, clnt_req_setup s cc timeout = Ret (RPC_TLIERROR, s1) ∧ client s1 = client s ∧
    clnt_req_release s1 cc = Ret (0, s2) ∧ clnt_ref_it s2 = Ub.
Proof.
  intros Hok Hc Hw Hx Hr Hcl Hbad.
  destruct (clnt_req_setup_ok s W X cc c _ timeout Hok Hc Hw Hx Hcl)
    as [(s1 & c1 & E & Hok1 & Hcl1 & Hreqs & Hr1 & _)|(? & ? & _ & _ & _ & _ & _ & ?)]; [|congruence].
  assert (Hc1 : reqs s1 !! cc = Some c1) by (rewrite Hreqs; apply lookup_insert_eq).
  assert (Hok2 : conn_ok (put s1 cc (set_refcnt 0 c1)) W X) by (by eapply put_plain).
  destruct (clnt_req_reset_ok _ W X cc _ Hok2 (put_same _ _ _)) as (t & t' & E3 & _).
  exists s1. eexists. split; [done|]. split; [congruence|].
  unfold clnt_req_release, release_dec. rewrite (req_ok _ _ _ Hc1). cbn [obind]. rewrite Hr1, Hr.
  change (s32 (1 - 1)) with 0. rewrite (upd_ok _ _ _ _ Hc1). cbn [obind Z.ltb Z.compare].
  rewrite E3. cbn [obind]. unfold release_free, clnt_release_it.
  rewrite (req_ok _ cc (calm RESET_BITS (set_refcnt 0 c1))) by apply lookup_insert_eq.
  cbn [obind client put set_reqs set_replies set_expires]. rewrite Hcl1. by cbn.
Qed.

(** The time a call expires is an [int] of milliseconds: once the clock is within the timeout
    of 2^31 ms, a new call is due before it was made. *)
Theorem timeout_wraps now to ms ms' : timespec_ms now = Ret ms → 0 ≤ ms ≤ INT_MAX →
  (let! t := timespecadd now to in timespec_ms t) = Ret ms' → INT_MAX < ms' < 2 ^ 32 →
  ∃ e, svc_rqst_expire_ms now to = Ret e ∧ e < ms.
Proof.
  intros _ Hms E Hms'. unfold svc_rqst_expire_ms. destruct (timespecadd now to) as [t| | |]; try done. cbn [obind] in *.
  rewrite E. cbn [obind]. eexists. split; [done|]. unfold s32, wraps. unfold INT_MAX in *.
  rewrite (Z.mod_small ms') by lia. destruct (Z.ltb_spec ms' (2 ^ (32 - 1))); lia.
Qed.

(** An answer that came while the wait timed out is reported as a timeout. *)
Theorem answered_but_timed_out r s s1 s2 cc c1 c2 : in_time (cc_timeout c1) r → rd_call r s = Ret (RPC_SUCCESS, s1) → reqs s1 !! cc = Some c1 →
  is_s 64 (tv_sec (cc_timeout c1) + tv_nsec (cc_timeout c1)) → tv_sec (cc_timeout c1) + tv_nsec (cc_timeout c1) ≠ 0 →
  rd_meanwhile r (put s1 cc (set_status RPC_SUCCESS c1)) = Ret s2 → rd_timedout r = true →
  reqs s2 !! cc = Some c2 → any (cc_flags c2) CLNT_REQ_FLAG_ACKSYNC = true → cc_refreshes c2 = 0 →
  re_status (cc_error c2) = RPC_SUCCESS →
  ∃ s', wait_once r s cc = Ret (Some RPC_TIMEDOUT, s').
Proof.
  intros [t Hin] E1 Hc1 Hs Hnz E2 Ht Hc2 Hack Hrf _. unfold wait_once. rewrite E1. cbn [obind]. rewrite (upd_ok _ _ _ _ Hc1).
  cbn [obind]. change (RPC_SUCCESS =? RPC_SUCCESS) with true. cbn [negb].
  rewrite (req_ok _ cc (set_status RPC_SUCCESS c1)) by apply put_same. cbn [obind].
  change (cc_timeout (set_status _ c1)) with (cc_timeout c1). unfold signed at 1. rewrite decide_True by done. cbn [obind].
  destruct (Z.eqb_spec (tv_sec (cc_timeout c1) + tv_nsec (cc_timeout c1)) 0); [done|]. rewrite Hin. cbn [obind]. rewrite E2. cbn [obind].
  rewrite (req_ok _ _ _ Hc2). cbn [obind]. rewrite Hack, Hrf, Ht. cbn [negb andb]. change (signed 32 (0 - 1)) with (Ret (-1)).
  cbn [obind]. rewrite (upd_ok _ _ _ _ Hc2). cbn [obind Z.ltb Z.compare]. rewrite (upd_ok _ cc (set_refreshes (-1) c2)) by apply put_same.
  cbn [obind]. by eexists.
Qed.

(** A reply that reports an error leaves the refreshes as they are, so the caller repeats the
    call the server has answered. *)
Theorem error_reply_repeats (m : rpc_msg T) (xdrs : XDR P) s cc c c' : reqs s !! cc = Some c →
  re_status (_seterr_reply m (cc_error c)) ≠ RPC_SUCCESS → re_status (_seterr_reply m (cc_error c)) ≠ RPC_AUTHERROR →
  reply_result m xdrs c = Ret c' →
  cc_refreshes c' = cc_refreshes c ∧ ∃ s', wait_again (put s cc c') cc = Ret (None, s').
Proof.
  intros Hc Hne Hna. unfold reply_result. cbn [cc_error set_error].
  destruct (Z.eqb_spec (re_status (_seterr_reply m (cc_error c))) RPC_SUCCESS); [done|]. cbn [negb]. intros [= <-].
  split; [done|]. unfold wait_again, postclear. set (c1 := set_error _ c).
  rewrite (req_ok (put s cc c1) cc c1) by apply put_same. cbn [obind].
  change (cc_error c1) with (_seterr_reply m (cc_error c)).
  destruct (Z.eqb_spec (re_status (_seterr_reply m (cc_error c))) RPC_AUTHERROR); [done|]. cbn [obind].
  rewrite (req_ok (put s cc c1) cc c1) by apply put_same. cbn [obind].
  rewrite (upd_ok _ cc c1) by apply put_same. cbn [obind]. by eexists.
Qed.
End Errors.

(** ** On the call of [a_conn] *)

Lemma reply_uses_released_witness : reply_lookup a_conn 8 = Ret (Some 1) ∧
  ∃ s', clnt_req_release a_conn 1 = Ret (0, s') ∧ reply_expiring s' 1 = Ub.
Proof.
  assert (∃ c, reqs a_conn !! 1 = Some c ∧ cc_xid c = 8 ∧ cc_refcnt c = 1) as (c & Hc & <- & Hr)
    by (eexists; split; vm_compute; [reflexivity|split; reflexivity]).
  apply (reply_uses_released a_conn [1] [] 1 c (mk_client 2 false) a_conn_ok);
    [by left|exact Hc|exact Hr|by vm_compute|by vm_compute].
Defined.

(** A transport that has lost its channel when a call is given up leaves it in the channel's
    tree, where the event loop then meets memory that was freed. *)
Definition lose_channel (s : @conn unit Z) : conn :=
  mk_conn (reqs s) (client s) (call_xid s) (call_replies s) false (call_expires s).

Definition lost_channel : out Z :=
  let! (armed, s1) := svc_rqst_expire_insert (mk_ts 100 0) a_conn 1 in
  let! (refs, s2) := clnt_req_release (lose_channel s1) 1 in
  match svc_rqst_sweep s2 (mk_ts 106 0) with Ub => Ret refs | _ => Ret (-1) end.

Theorem lost_channel_dangles : lost_channel = Ret 0.
Proof. by vm_compute. Qed.
