(* ===== verification/ClntAuth.v ===== *)
(** * Authenticators of a client (src/auth_none.c, src/auth_unix.c)

    The credential and the verifier of a client are written once into an array of the
    authenticator, which every call then copies in front of its arguments.  The arrays a
    stream is opened on are at [addr], a multiple of 4. *)
From stdpp Require Import base gmap list.
From Stdlib Require Import ZArith Lia.
From S2P Require Import Prelude Machine XdrHandle XdrStream XdrMem XdrInline XdrWire XdrCodecs RpcMsg RpcMsgFacts RpcMsgTheorems Protocols ProtocolFacts GssWindow SvcAuthUnix SvcAuth RbTree RbTable ClntReq.

Definition MAX_MARSHAL_SIZE : Z := 20.

#[export] Instance opaque_auth_eq_dec : EqDecision opaque_auth.
Proof. solve_decision. Defined.

Section Authenticators.
Variable addr : Z.

(** xdrmem_create on the array [buf] with XDR_ENCODE, what [put] writes, XDR_GETPOS, and the
    array then. *)
Definition encode_into (buf : list Z) (put : XDRM → out (bool * XDRM)) : out (bool * Z * list Z) :=
  let! xdrs := xdrmem_ncreate (block addr buf) addr (Zlen buf) XDR_ENCODE in
  let! (ok, xdrs) := put xdrs in
  let (pos, xdrs) := xdrmem_getpos xdrs in
  let! buf := access (load (x_mem xdrs) addr (length buf)) in
  Ret (ok, pos, buf).

(** ** AUTH_NONE *)

Record andata := mk_an { an_cred : opaque_auth; an_verf : opaque_auth; marshalled_client : list Z; mcnt : Z }.

(** The first call, which fills the one object in; the results of the two encoders are not
    looked at. *)
Definition authnone_ncreate : out andata :=
  let! (_, pos, buf) := encode_into (replicate (Z.to_nat MAX_MARSHAL_SIZE) 0) (λ xdrs,
    let! (_, xdrs) := xdr_opaque_auth_encode xdrs _null_auth in xdr_opaque_auth_encode xdrs _null_auth) in
  Ret (mk_an _null_auth _null_auth buf pos).

Definition authnone_marshal {P} `{XdrOps P} (ap : andata) (xdrs : XDR P) : out (bool * XDR P) :=
  x_putbytes xdrs (take (Z.to_nat (mcnt ap)) (marshalled_client ap)).

Definition authnone_validate (opaque : opaque_auth) : bool := true.
Definition authnone_refresh : bool := false.
Definition authnone_wrap {P T} (xfunc : xdrproc P T) : xdrproc P T := xfunc.

(** ** AUTH_SYS *)

Record audata := mk_au {
  ah_cred : opaque_auth;
  ah_verf : opaque_auth;
  ah_status : Z;
  au_origcred : opaque_auth;
  au_shcred : opaque_auth;
  au_marshed : list Z;
  au_shfaults : Z;
  au_mpos : Z;
}.

Definition set_cred v au := mk_au v (ah_verf au) (ah_status au) (au_origcred au) (au_shcred au) (au_marshed au) (au_shfaults au) (au_mpos au).
Definition set_origcred v au := mk_au (ah_cred au) (ah_verf au) (ah_status au) v (au_shcred au) (au_marshed au) (au_shfaults au) (au_mpos au).
Definition set_shcred v au := mk_au (ah_cred au) (ah_verf au) (ah_status au) (au_origcred au) v (au_marshed au) (au_shfaults au) (au_mpos au).
Definition set_shfaults v au := mk_au (ah_cred au) (ah_verf au) (ah_status au) (au_origcred au) (au_shcred au) (au_marshed au) v (au_mpos au).
Definition set_marshed b p au := mk_au (ah_cred au) (ah_verf au) (ah_status au) (au_origcred au) (au_shcred au) b (au_shfaults au) p.

Definition marshal_new_auth (au : audata) : out audata :=
  let! (ok, pos, buf) := encode_into (au_marshed au) (λ xdrs,
    check! xdrs := xdr_opaque_auth_encode xdrs (ah_cred au) in xdr_opaque_auth_encode xdrs (ah_verf au)) in
  Ret (set_marshed buf (if ok : bool then pos else au_mpos au) au).

(** [au] is the memory as the allocator returned it, [now] the seconds of the clock. *)
Definition authunix_ncreate (au : audata) (now : Z) (machname : cstring) (uid gid len : Z) (gids : ptr (list Z))
    : out audata :=
  let au := mk_au (ah_cred au) _null_auth RPC_SUCCESS (au_origcred au) _null_auth (au_marshed au) 0 (au_mpos au) in
  let aup := mk_authunix_parms (s32 now) machname uid gid (gids, u32 len) in
  let! (ok, pos, body) := encode_into (oa_body (au_origcred au)) (λ xdrs,
    let! (ok, _, xdrs) := xdr_authunix_parms xdrs aup in Ret (ok, xdrs)) in
  let orig := set_body body (au_origcred au) in
  if negb ok then
    Ret (mk_au (ah_cred au) (ah_verf au) RPC_CANTENCODEARGS orig (au_shcred au) (au_marshed au) 0 (au_mpos au))
  else
  let orig := mk_auth AUTH_SYS pos body in
  marshal_new_auth (set_cred orig (set_origcred orig au)).

Definition authunix_marshal {P} `{XdrOps P} (au : audata) (xdrs : XDR P) : out (bool * XDR P) :=
  x_putbytes xdrs (take (Z.to_nat (au_mpos au)) (au_marshed au)).

Definition authunix_validate (au : audata) (verf : opaque_auth) : out (bool * audata) :=
  if oa_flavor verf =? AUTH_SHORT then
    let! xdrs := xdrmem_ncreate (block addr (oa_body verf)) addr (oa_length verf) XDR_DECODE in
    let! (ok, shcred, _) := xdr_opaque_auth_decode xdrs (au_shcred au) None in
    let au := set_shcred shcred au in
    let! au := marshal_new_auth (set_cred (if ok : bool then shcred else au_origcred au) au) in
    Ret (true, au)
  else Ret (true, au).

(** [aup] is the object on the stack as it was. *)
Definition authunix_refresh (au : audata) (now : Z) (aup : authunix_parms) : out (bool * audata) :=
  if decide (ah_cred au = au_origcred au) then Ret (false, au) else
  let au := set_shfaults (u64 (au_shfaults au + 1)) au in
  let aup := set_aup_machname Pnull (set_aup_gids (Pnull, (aup_gids aup).2) aup) in
  let orig := au_origcred au in
  let! xdrs := xdrmem_ncreate (block addr (oa_body orig)) addr (oa_length orig) XDR_DECODE in
  let! (stat, aup, xdrs) := xdr_authunix_parms xdrs aup in
  let! (stat, au, aup, xdrs) :=
    if negb stat then Ret (false, au, aup, xdrs) else
    let aup := set_aup_time (s32 now) aup in
    let (_, xdrs) := xdrmem_setpos (set_op XDR_ENCODE xdrs) 0 in
    let! (stat, aup, xdrs) := xdr_authunix_parms xdrs aup in
    let! body := access (load (x_mem xdrs) addr (length (oa_body orig))) in
    let au := set_origcred (set_body body orig) au in
    if negb stat then Ret (false, au, aup, xdrs) else
    let! au := marshal_new_auth (set_cred (au_origcred au) au) in
    Ret (true, au, aup, xdrs) in
  let! _ := xdr_authunix_parms (set_op XDR_FREE xdrs) aup in
  Ret (stat, au).

Definition authunix_wrap {P T} (xfunc : xdrproc P T) : xdrproc P T := xfunc.
End Authenticators.

(** ** Streams over the arrays *)

(** A decoding stream that stays where it is in memory that stays as it is. *)
Definition mem_input_at (v : xdr_vio) (h : heap) : XdrInput mem_priv.
Proof.
  refine {| in_at := λ x k l, mem_in x k l ∧ x_v x = v ∧ x_mem x = h |}.
  - by intros x k l [(? & _) _].
  - by intros x k l [(_ & _ & _ & ?) _].
  - intros x k l [(_ & _ & Hl & _) _]. by eapply load_size.
  - done.
  - intros x w tl [Hx Hf]. eapply mem_fast_get in Hx as [E Hx']. eexists. split; [exact E|]. by split.
  - intros x l [Hx _] Hl. unfold xdr_getuint32. erewrite mem_fast_get_short by done. cbn. eauto.
  - intros x w tl [Hx Hf]. eapply mem_fast_get in Hx as [E Hx']. unfold xdr_getlong. eexists _, _.
    split; [exact E|]. split; [by left|]. by split.
  - intros x l [Hx _] Hl. unfold xdr_getlong. erewrite mem_fast_get_short by done. cbn. eauto.
  - intros x k bs tl [Hx Hf]. apply mem_in_split in Hx as (Hle & Hld & Hin). cbn. unfold xdrmem_getbytes.
    rewrite (proj2 (Z.ltb_ge _ _)) by lia. rewrite Nat2Z.id, Hld. cbn. eexists. split; [done|]. by split.
  - intros x k l n [(_ & Hl & _) _] Hn. cbn. unfold xdrmem_getbytes.
    rewrite (proj2 (Z.ltb_lt _ _)) by lia. exists [], x. cbn. split; [done|lia].
  - intros x bs tl [Hx Hf] Hbs. apply mem_in_split in Hx as (Hle & Hld & Hin).
    unfold xdr_inline_decode. rewrite (proj2 (Z.leb_le _ _)) by lia. split; [done|]. by split.
  - intros x l n [(_ & Hl & _) _] Hn. unfold xdr_inline_decode. by rewrite (proj2 (Z.leb_gt _ _)) by lia.
Defined.

(** Where the arrays are. *)
Definition addr_ok (addr : Z) : Prop := 0 < addr ∧ addr mod 4 = 0.

Lemma mem_out_load addr n h x w c : mem_out (mk_buffer h addr n) x w c → Zlen w ≤ n →
  ∃ tl, load (x_mem x) addr (Z.to_nat n) = Some (w ++ tl) ∧ Zlen (w ++ tl) = n.
Proof.
  intros (_ & Hw & Hl & Hle & Ha & _ & Hh & Hwr & _) Hn. cbn in Hh, Hwr. rewrite Hh in *.
  destruct (load_allocd (x_mem x) (x_data x) (Z.to_nat (n - Zlen w))) as [tl Ht].
  { rewrite Z2Nat.id by lia. replace (n - Zlen w) with (vio_wrap (x_v x) - x_data x) by lia. done. }
  assert (Hlen : length tl = Z.to_nat (n - Zlen w)) by (by eapply load_length).
  exists tl. split; [|rewrite Zlen_app; lia].
  replace (Z.to_nat n) with (length w + length tl)%nat by lia. rewrite load_app, Hl.
  replace (addr + Z.of_nat (length w)) with (x_data x) by lia. by rewrite Hlen, Ht.
Qed.

(** What fits is written at the beginning of the array. *)
Lemma encode_into_ok addr buf put w : addr_ok addr → (∀ W : XdrOutput mem_priv, puts put w) → Zlen w ≤ Zlen buf →
  Zlen buf < 2 ^ 32 → ∃ tl, encode_into addr buf put = Ret (true, Zlen w, w ++ tl) ∧ Zlen (w ++ tl) = Zlen buf.
Proof.
  intros [Ha Ha4] Hput Hw Hb. unfold encode_into.
  destruct (xdrmem_ncreate_encode (block addr buf) addr (Zlen buf) Ha4 Ha) as (x & -> & _ & Hx); [lia| |].
  { assert (Hl := load_block addr buf). by apply load_is_allocd in Hl. }
  cbn [obind]. destruct (proj1 (Hput (mem_output_at (mk_buffer (block addr buf) addr (Zlen buf))) x [] _ Hx) Hw) as (x1 & -> & Hx1).
  cbn [obind]. cbn [app] in Hx1. destruct (mem_getpos_at _ _ _ _ Hx1) as (x2 & -> & Hx2); [lia|].
  destruct (mem_out_load _ _ _ _ _ _ Hx2 Hw) as (tl & El & Hl). rewrite Nat2Z.id in El. rewrite El. by exists tl.
Qed.

(** ** AUTH_NONE *)

Lemma null_auth_wf : auth_wf _null_auth.
Proof. by split_and!. Qed.

Lemma null_auth_wire : auth_wire _null_auth = be32 0 ++ be32 0.
Proof. done. Qed.

(** The object holds two null authenticators, whatever stream it is sent on. *)
Lemma authnone_sends addr : addr_ok addr → ∃ ap, authnone_ncreate addr = Ret ap ∧ an_cred ap = _null_auth ∧
  ∀ P (O : XdrOps P) (W : XdrOutput P), puts (authnone_marshal ap) (auth_wire _null_auth ++ auth_wire _null_auth).
Proof.
  intros Ha. unfold authnone_ncreate.
  set (put := λ xdrs : XDRM, let! (_, xdrs) := xdr_opaque_auth_encode xdrs _null_auth in xdr_opaque_auth_encode xdrs _null_auth).
  set (buf := replicate (Z.to_nat MAX_MARSHAL_SIZE) 0).
  (* the first encoder has room, so its result does not matter *)
  assert (E : ∃ tl, encode_into addr buf put = Ret (true, 16, (auth_wire _null_auth ++ auth_wire _null_auth) ++ tl)).
  { destruct Ha as [Ha Ha4]. unfold encode_into.
    destruct (xdrmem_ncreate_encode (block addr buf) addr (Zlen buf) Ha4 Ha) as (x & -> & _ & Hx); [done| |].
    { assert (Hl := load_block addr buf). by apply load_is_allocd in Hl. }
    cbn [obind]. set (W := mem_output_at (mk_buffer (block addr buf) addr (Zlen buf))). unfold put.
    destruct (proj1 (puts_auth (W := W) _ null_auth_wf x [] _ Hx)) as (x1 & -> & Hx1); [done|]. cbn [obind].
    destruct (proj1 (puts_auth (W := W) _ null_auth_wf x1 _ _ Hx1)) as (x2 & -> & Hx2); [done|]. cbn [obind].
    destruct (mem_getpos_at _ _ _ _ Hx2) as (x3 & -> & Hx3); [done|].
    destruct (mem_out_load _ _ _ _ _ _ Hx3) as (tl & El & _); [done|].
    change (Z.to_nat (Zlen buf)) with (length buf) in El. rewrite El. by exists tl. }
  destruct E as (tl & ->). cbn [obind]. eexists. split; [done|]. split; [done|]. intros P O W. apply puts_bytes.
Qed.

(** ** AUTH_SYS *)

(** The array holds what is to be sent. *)
Definition sending au : Prop :=
  take (Z.to_nat (au_mpos au)) (au_marshed au) = auth_wire (ah_cred au) ++ auth_wire (ah_verf au).

(** The credential the client was created with, for the parameters [aup]. *)
Definition orig_of (oa : opaque_auth) (aup : authunix_parms) : Prop :=
  wf authunix_spec aup ∧ oa_flavor oa = AUTH_SYS ∧ auth_ok oa ∧ oa_length oa = Zlen (wire authunix_spec aup) ∧
  take (Z.to_nat (oa_length oa)) (oa_body oa) = wire authunix_spec aup.

(** The bytes of a credential. *)
Definition auth_data (oa : opaque_auth) : list Z := take (Z.to_nat (oa_length oa)) (oa_body oa).

Record au_ok au aup : Prop := {
  ao_sending : sending au;
  ao_cred : auth_wf (ah_cred au);
  ao_bytes : bytes (auth_data (ah_cred au));
  ao_verf : ah_verf au = _null_auth;
  ao_orig : orig_of (au_origcred au) aup;
  ao_shcred : auth_ok (au_shcred au);
  ao_room : Zlen (au_marshed au) = MAX_AUTH_BYTES;
}.

Lemma orig_bytes oa aup : orig_of oa aup → bytes (auth_data oa).
Proof. intros (Hwf & _ & _ & _ & E). unfold auth_data. rewrite E. by apply (cd_bytes (f := xdr_authunix_parms (P := mem_priv))). Qed.

Lemma auth_got_bytes oa0 oa w : auth_got oa0 oa w → bytes (auth_data oa).
Proof.
  intros (fl & bs & wb & _ & Hb & _ & _ & _ & ->). unfold auth_data. cbn. by rewrite Nat2Z.id, take_app_length.
Qed.

Lemma auth_wire_len oa : auth_wf oa → Zlen (auth_wire oa) = auth_len oa.
Proof. intros Hw. apply auth_bytes_len; [done|]. apply auth_wire_bytes. Qed.

(** A machine name of 255 bytes and 16 groups make 340 bytes. *)
Lemma parms_len aup : wf authunix_spec aup → 0 ≤ Zlen (wire authunix_spec aup) ≤ 340.
Proof.
  destruct aup as [t nm uid gid [gids n]]. intros (_ & (s & Hs & _ & _ & Hl) & _ & _ & Hg). cbn in Hs, Hl, Hg. subst nm.
  cbn. rewrite removelast_last, !Zlen_app, !be32_length. unfold MAX_MACHINE_NAME, NGRPS in *.
  assert (Hp : Zlen (pad_wire s) ≤ 256).
  { unfold pad_wire, zeros, padn. rewrite Zlen_app, length_replicate. pose proof (Z.mod_pos_bound (- Zlen s) 4).
    pose proof (Z.div_mod (- Zlen s) 4). lia. }
  destruct Hg as [[= -> ->]|(l & [= -> ->] & Hn & _)]; cbn [length].
  - lia.
  - assert (Hc : Zlen (concat (wire uint32_spec <$> l)) = 4 * Zlen l).
    { clear. induction l as [|x l IH]; [done|]. cbn [fmap list_fmap concat]. rewrite Zlen_app, IH. cbn [wire uint32_spec length]. rewrite be32_length. lia. }
    change (λ v : Z, be32 v) with (wire uint32_spec). lia.
Qed.

Lemma marshal_new_auth_ok addr au : addr_ok addr → auth_wf (ah_cred au) → ah_verf au = _null_auth →
  oa_length (ah_cred au) ≤ 384 → Zlen (au_marshed au) = MAX_AUTH_BYTES →
  ∃ buf pos, let au' := set_marshed buf pos au in
    marshal_new_auth addr au = Ret au' ∧ sending au' ∧ Zlen buf = MAX_AUTH_BYTES.
Proof.
  intros Ha Hc Hv Hl Hr. unfold marshal_new_auth. rewrite Hv.
  set (w := auth_wire (ah_cred au) ++ auth_wire _null_auth).
  assert (Hw : Zlen w ≤ 400).
  { unfold w. rewrite Zlen_app, !auth_wire_len by auto using null_auth_wf. unfold auth_len. destruct Hc as (_ & _ & Hc).
    rewrite !RNDUP_spec by (unfold MAX_AUTH_BYTES in *; cbn; lia). pose proof (Z.mod_pos_bound (- oa_length (ah_cred au)) 4).
    pose proof (Z.div_mod (- oa_length (ah_cred au)) 4). unfold padn in *. cbn. lia. }
  destruct (encode_into_ok addr (au_marshed au) (λ xdrs, check! xdrs := xdr_opaque_auth_encode xdrs (ah_cred au) in
    xdr_opaque_auth_encode xdrs _null_auth) w Ha) as (tl & -> & Htl); [|by rewrite Hr|by rewrite Hr|].
  { intros W. apply puts_check; apply puts_auth; [done|apply null_auth_wf]. }
  cbn [obind]. exists (w ++ tl), (Zlen w). split; [done|]. split; [|congruence].
  unfold sending. cbn. rewrite Nat2Z.id, Hv. by rewrite take_app_length.
Qed.

(** A filter that encodes [v], without the object. *)
Lemma puts_filter {P T} {O : XdrOps P} {W : XdrOutput P} (f : xdrproc P T) v w :
  encodes f v w → puts (λ x, let! (ok, _, x) := f x v in Ret (ok, x)) w.
Proof.
  intros He x w0 c Hx. destruct (He x w0 c Hx) as [H1 H2].
  split; intros Hf; [destruct (H1 Hf) as (x' & -> & ?)|destruct (H2 Hf) as (x' & ->)]; cbn; eauto.
Qed.

(** A client for [aup] sends its parameters. *)
Lemma authunix_ncreate_ok addr au now aup : addr_ok addr → auth_ok (au_origcred au) → Zlen (au_marshed au) = MAX_AUTH_BYTES →
  is_u 32 (aup_gids aup).2 → aup_time aup = s32 now → wf authunix_spec aup →
  ∃ au', authunix_ncreate addr au now (aup_machname aup) (aup_uid aup) (aup_gid aup) (aup_gids aup).2 (aup_gids aup).1 = Ret au' ∧
    ah_status au' = RPC_SUCCESS ∧ ah_cred au' = au_origcred au' ∧ au_ok au' aup.
Proof.
  intros Ha Ho Hr Hn Ht Hwf. unfold authunix_ncreate. cbn [au_origcred].
  rewrite (wrapu_id 32) by done. assert (E : mk_authunix_parms (s32 now) (aup_machname aup) (aup_uid aup) (aup_gid aup)
    ((aup_gids aup).1, (aup_gids aup).2) = aup) by (destruct aup as [? ? ? ? []]; cbn in *; congruence). rewrite E.
  pose proof (parms_len aup Hwf) as Hlen. unfold auth_ok, MAX_AUTH_BYTES in Ho.
  destruct (encode_into_ok addr (oa_body (au_origcred au)) (λ xdrs, let! (ok, _, xdrs) := xdr_authunix_parms xdrs aup in Ret (ok, xdrs))
    (wire authunix_spec aup) Ha) as (tl & -> & Htl); [|by lia|by lia|].
  { intros W. by apply puts_filter, cd_encodes. }
  cbn [obind negb]. set (orig := mk_auth AUTH_SYS _ _).
  assert (Hoa : orig_of orig aup).
  { split_and!; [done|done|unfold auth_ok, MAX_AUTH_BYTES; cbn [oa_body orig]; lia|done|]. cbn. rewrite Nat2Z.id. by rewrite take_app_length. }
  assert (Hcw : auth_wf orig) by (split_and!; [apply Hoa|done|unfold MAX_AUTH_BYTES; cbn [oa_length orig]; lia..]).
  match goal with |- context [marshal_new_auth addr ?a] => destruct (marshal_new_auth_ok addr a Ha) as (buf & pos & -> & Hs & Hb) end;
    [done|done|cbn [ah_cred set_cred oa_length orig]; lia|done|].
  eexists. split; [done|]. split; [done|]. split; [done|]. constructor; try done. by eapply orig_bytes.
Qed.

(** A stream over the first [n] bytes of an array. *)
Lemma decode_array addr body n : addr_ok addr → 0 ≤ n ≤ Zlen body → bytes (take (Z.to_nat n) body) →
  ∃ x, xdrmem_ncreate (block addr body) addr n XDR_DECODE = Ret x ∧ vio_head (x_v x) = addr ∧
    vio_wrap (x_v x) = addr + n ∧ @in_at _ _ (mem_input_at (x_v x) (block addr body)) x 0 (take (Z.to_nat n) body).
Proof.
  intros [Ha Ha4] Hn Hb. unfold xdrmem_ncreate. change 3 with (Z.ones 2). rewrite Z.land_ones by lia. change (2 ^ 2) with 4.
  rewrite Ha4, (proj2 (Z.eqb_neq addr 0)) by lia. cbn [negb Z.eqb]. eexists. split; [done|]. cbn. split; [done|]. split; [done|].
  split; [|done]. unfold mem_in. cbn. assert (Hl : Zlen (take (Z.to_nat n) body) = n) by len.
  split_and!; [done|lia| |done]. pose proof (load_block addr body) as H.
  rewrite <- (take_drop (Z.to_nat n) body) in H at 3. apply load_app_inv in H as [H _]; [done|].
  rewrite <- length_app. by rewrite take_drop.
Qed.

Lemma authunix_validate_ok addr au aup verf : addr_ok addr → au_ok au aup → auth_ok verf → bytes (oa_body verf) →
  0 ≤ oa_length verf ≤ 392 →
  ∃ au', authunix_validate addr au verf = Ret (true, au') ∧ au_ok au' aup ∧ au_origcred au' = au_origcred au ∧
    (oa_flavor verf ≠ AUTH_SHORT → au' = au) ∧
    (oa_flavor verf = AUTH_SHORT → ∀ sc w rest, auth_got (au_shcred au) sc w →
       take (Z.to_nat (oa_length verf)) (oa_body verf) = w ++ rest → ah_cred au' = sc).
Proof.
  intros Ha Hok Hv Hb Hl. unfold authunix_validate. destruct (Z.eqb_spec (oa_flavor verf) AUTH_SHORT) as [Hs|Hs].
  2: { exists au. by split_and!. }
  pose proof Hok as [Hse Hc Hcb Hve Ho Hsh Hr].
  destruct (decode_array addr (oa_body verf) (oa_length verf) Ha) as (x & -> & _ & _ & Hx);
    [unfold auth_ok, MAX_AUTH_BYTES in Hv; lia|by apply Forall_take|]. cbn [obind].
  set (I := mem_input_at (x_v x) (block addr (oa_body verf))) in Hx. set (B := take _ _) in *.
  assert (HB : Zlen B ≤ 392) by (unfold B; len).
  assert (Hgot : ∀ sc w rest, auth_got (au_shcred au) sc w → B = w ++ rest → auth_wf sc ∧ oa_length sc ≤ 384).
  { intros sc w rest Hg E. pose proof (auth_got_ok _ _ _ Hg Hsh) as Hok'. destruct Hg as (fl & bs & wb & Hfl & _ & Hlen & (pad & -> & _) & -> & ->).
    apply (f_equal (λ l : list Z, Zlen l)) in E. rewrite !Zlen_app, !be32_length in E.
    split; [split_and!; [done|by apply wraps_range|unfold MAX_AUTH_BYTES; cbn; lia..]|cbn; lia]. }
  destruct (auth_decoded (I := I) (au_shcred au) x None B Hsh Hx) as
    [(sc & w & tl & x' & E & Hg & -> & _)|(sc & x' & Ed & Hsc)].
  - destruct (Hgot sc w tl Hg E) as [Hw Hn]. cbn [obind].
    destruct (marshal_new_auth_ok addr (set_cred sc (set_shcred sc au)) Ha Hw Hve Hn Hr) as (buf & pos & -> & Hse' & Hbuf).
    cbn [obind]. eexists. split; [done|]. split; [|split; [done|]].
    { constructor; try done; [by eapply auth_got_bytes|by eapply auth_got_ok]. }
    split; [done|]. intros _ sc' w' rest Hg' E'. cbn.
    destruct (auth_decodes (I := I) _ _ _ x None rest Hsh Hg') as (y & E1 & _); [cbn; by rewrite <- E'|].
    destruct (auth_decodes (I := I) _ _ _ x None tl Hsh Hg) as (z & E2 & _); [cbn; by rewrite <- E|]. congruence.
  - rewrite Ed. cbn [obind]. change (au_origcred (set_shcred sc au)) with (au_origcred au). pose proof (orig_bytes _ _ Ho) as Hob. destruct Ho as (Hwf & Hfl & Hao & Hol & Ht). pose proof (parms_len aup Hwf) as Hpl.
    assert (Hcw : auth_wf (au_origcred au)) by (split; [done|]; split; [by rewrite Hfl|unfold MAX_AUTH_BYTES; lia]).
    destruct (marshal_new_auth_ok addr (set_cred (au_origcred au) (set_shcred sc au)) Ha) as (buf & pos & -> & Hse' & Hbuf);
      [done|done|cbn; lia|done|].
    cbn [obind]. eexists. split; [done|]. split; [constructor; done|]. split; [done|].
    split; [done|]. intros _ sc' w' rest Hg' E'.
    destruct (auth_decodes (I := I) _ _ _ x None rest Hsh Hg') as (y & E1 & _); [cbn; by rewrite <- E'|]. congruence.
Qed.

(** From reading an array to writing it again from the start. *)
Lemma rewind addr body n (x y : XDRM) l : allocd (block addr body) addr n → 0 ≤ n → vio_head (x_v x) = addr →
  vio_wrap (x_v x) = addr + n → @in_at _ _ (mem_input_at (x_v x) (block addr body)) y 0 l →
  ∃ z, xdrmem_setpos (set_op XDR_ENCODE y) 0 = (true, z) ∧ mem_out (mk_buffer (block addr body) addr n) z [] (Some n).
Proof.
  intros Hal Hn Hh Hw (_ & Hv & Hm). unfold xdrmem_setpos. set (y' := set_op XDR_ENCODE y).
  destruct (mem_tail_update_v y') as [E1 E2]. assert (Hm' : x_mem (mem_tail_update y') = block addr body).
  { unfold mem_tail_update. by destruct (_ <? _). }
  assert (Ho : x_op (mem_tail_update y') = XDR_ENCODE) by (unfold mem_tail_update; by destruct (_ <? _)).
  rewrite E2. cbn [y' set_op x_v] in E1, E2 |- *. rewrite Hv in *.
  destruct (Z.ltb_spec (vio_wrap (x_v x)) (vio_head (x_v x) + 0)); [lia|]. eexists. split; [done|].
  unfold mem_out, framed. cbn. rewrite Hm', E1, E2, Hh, Hw.
  replace (addr + n - (addr + 0)) with n by lia.
  rewrite Z.add_0_r. split_and!; try done; try lia; apply same_outside_refl.
Qed.

(** Writing [w] over the beginning of an array. *)
Lemma load_rewritten addr body x w c : mem_out (mk_buffer (block addr body) addr (Zlen w)) x w c → Zlen w ≤ Zlen body →
  load (x_mem x) addr (length body) = Some (w ++ drop (length w) body).
Proof.
  intros (_ & _ & Hl & _ & _ & _ & Hh & _ & Hs) Hn. cbn in Hh, Hs. rewrite Hh in Hl.
  replace (length body) with (length w + (length body - length w))%nat by lia. rewrite load_app, Hl.
  rewrite (load_same_outside _ _ _ _ _ _ Hs) by (right; lia).
  pose proof (load_block addr body) as Hb. rewrite <- (take_drop (length w) body) in Hb at 3.
  apply load_app_inv in Hb as [_ Hb]; [|by rewrite <- length_app, take_drop].
  rewrite length_take, Nat.min_l, length_drop in Hb by lia. by rewrite Hb.
Qed.

Lemma wire_time aup t : Zlen (wire authunix_spec (set_aup_time t aup)) = Zlen (wire authunix_spec aup).
Proof. cbn. by rewrite !Zlen_app, !be32_length. Qed.

Lemma authunix_refresh_ok addr au aup now junk : addr_ok addr → au_ok au aup →
  (ah_cred au = au_origcred au → authunix_refresh addr au now junk = Ret (false, au)) ∧
  (ah_cred au ≠ au_origcred au →
     ∃ au', authunix_refresh addr au now junk = Ret (true, au') ∧ au_ok au' (set_aup_time (s32 now) aup) ∧
       ah_cred au' = au_origcred au').
Proof.
  intros Ha Hok. unfold authunix_refresh. split; intros Hne; [by rewrite decide_True|]. rewrite decide_False by done.
  pose proof Hok as [_ _ _ Hve Ho Hsh Hr]. destruct Ho as (Hwf & Hfl & Hao & Hol & Ht).
  pose proof (parms_len aup Hwf) as Hpl. unfold auth_ok, MAX_AUTH_BYTES in Hao.
  cbn [set_shfaults au_origcred]. set (orig := au_origcred au) in *. set (aup0 := set_aup_machname Pnull _).
  set (w := wire authunix_spec aup) in *. set (aup' := set_aup_time (s32 now) aup).
  destruct (decode_array addr (oa_body orig) (oa_length orig) Ha) as (x & -> & Hh & Hw & Hx); [lia|rewrite Ht; by apply (cd_bytes (f := xdr_authunix_parms (P := mem_priv)))|].
  rewrite Ht in Hx. cbn [obind]. set (I := mem_input_at _ _) in Hx.
  assert (Hf : fresh authunix_spec aup0) by done.
  destruct (codec_roundtrip (I := I) xdr_authunix_parms authunix_spec aup aup0 Hwf Hf) as [_ Hd].
  rewrite <- (app_nil_r w) in Hx. destruct (Hd x [] Hx) as (y & -> & Hy). cbn [obind negb].
  assert (Hal : allocd (block addr (oa_body orig)) addr (oa_length orig)).
  { eapply allocd_sub; [eapply load_is_allocd, load_block|lia|]. lia. }
  destruct (rewind addr (oa_body orig) (oa_length orig) x y [] Hal) as (z & -> & Hz); [lia|done|done|done|].
  cbv beta iota zeta. fold aup'.
  assert (Hwf' : wf authunix_spec aup') by (destruct Hwf as [_ Hwf]; split; [by apply wraps_range|exact Hwf]).
  set (w' := wire authunix_spec aup'). assert (Hlw : Zlen w' = oa_length orig) by (rewrite Hol; apply wire_time).
  assert (Hwl : Zlen w' ≤ Zlen (oa_body orig)) by lia.
  rewrite <- Hlw in Hz. set (W := mem_output_at (mk_buffer (block addr (oa_body orig)) addr (Zlen w'))).
  destruct (proj1 (cd_encodes (W := W) (f := xdr_authunix_parms) aup' Hwf' z [] _ Hz)) as (z' & -> & Hz'); [exact (Z.le_refl _)|].
  cbn [obind]. cbn [app] in Hz'. fold w' in Hz'. rewrite (load_rewritten _ _ _ _ _ Hz' Hwl). cbn [access obind negb].
  set (orig' := set_body _ orig). assert (Ho' : orig_of orig' aup').
  { split_and!; [done|done| |by symmetry|].
    - unfold auth_ok, MAX_AUTH_BYTES. cbn [oa_body orig' set_body]. rewrite Zlen_app, length_drop. lia.
    - cbn [oa_length oa_body orig' set_body]. rewrite <- Hlw, Nat2Z.id. by rewrite take_app_length. }
  assert (Hcw : auth_wf orig') by (split; [apply Ho'|]; split; [by cbn; rewrite Hfl|unfold MAX_AUTH_BYTES; cbn [oa_length orig' set_body]; lia]).
  match goal with |- context [marshal_new_auth addr ?a] => destruct (marshal_new_auth_ok addr a Ha) as (buf & pos & -> & Hs & Hb) end;
    [done|done|cbn [ah_cred set_cred set_origcred au_origcred oa_length orig' set_body]; lia|done|].
  cbn [obind]. rewrite (cd_frees (f := xdr_authunix_parms) (S := authunix_spec) aup').
  - cbn [obind]. eexists. split; [done|]. split; [|done].
    constructor; try done. by eapply orig_bytes.
  - eapply (cd_live (f := xdr_authunix_parms (P := mem_priv)) aup0), (cd_canon (f := xdr_authunix_parms (P := mem_priv))); done.
  - done.
Qed.

(** ** What the authenticators promise *)

Lemma gids_u32 aup : wf authunix_spec aup → is_u 32 (aup_gids aup).2.
Proof.
  intros (_ & _ & _ & _ & Hg). cbn in Hg. unfold is_u. destruct Hg as [->|(l & -> & Hl & _)]; cbn; [lia|].
  unfold NGRPS in Hl. lia.
Qed.

(** A format does not depend on what the object held. *)
Lemma got_any a0 a1 aup w : got authunix_spec a0 aup w → got authunix_spec a1 aup w.
Proof. intros Hg. apply authunix_got_iff in Hg. by apply authunix_got_iff. Qed.

(** Bytes say one thing. *)
Lemma parms_one a b w w' rest rest' : got authunix_spec a a w → got authunix_spec b b w' →
  w ++ rest = w' ++ rest' → bytes (w ++ rest) → a = b.
Proof.
  intros Ha Hb E Hbs. pose proof (mem_reader_at _ Hbs) as Hx. assert (Hf : fresh authunix_spec aup_zero) by done.
  destruct (cd_decodes aup_zero a w Hf (got_any _ _ _ _ Ha) _ rest Hx) as (x & E1 & _). rewrite E in Hx, E1.
  destruct (cd_decodes aup_zero b w' Hf (got_any _ _ _ _ Hb) _ rest' Hx) as (y & E2 & _). congruence.
Qed.

(** C30. A credential made by [authunix_ncreate] is understood by the server: for every machine
    name of up to 255 bytes, user, group and up to 16 groups, the client's authenticator is
    created without an error; and a server that has received the same credential -- the same
    flavour, length and bytes -- and runs [_svcauth_unix] on it accepts it exactly when
    neither the user nor the group nor one of the groups is the id for nobody, 2^32 - 1: it
    then answers AUTH_OK with the call's verifier and holds the same time, machine name, ids
    and groups, and otherwise answers AUTH_BADCRED and leaves the reply's verifier alone. *)
Theorem authunix_accepted addr au now aup addr' cred verf a0 machname gids ar_verf :
  addr_ok addr → auth_ok (au_origcred au) → Zlen (au_marshed au) = MAX_AUTH_BYTES →
  wf authunix_spec aup → aup_time aup = s32 now → unix_pre addr' cred machname gids →
  ∃ au', authunix_ncreate addr au now (aup_machname aup) (aup_uid aup) (aup_gid aup) (aup_gids aup).2 (aup_gids aup).1 = Ret au' ∧
    ah_status au' = RPC_SUCCESS ∧
    (auth_same cred (ah_cred au') →
       ∃ stat aup' v, _svcauth_unix addr' cred verf a0 machname gids ar_verf = Ret (stat, aup', v) ∧
         (ids_known aup → stat = AUTH_OK ∧ v = verf ∧ same_cred aup' aup) ∧
         (¬ ids_known aup → stat = AUTH_BADCRED ∧ v = ar_verf)).
Proof.
  intros Ha Ho Hr Hwf Ht Hpre. pose proof (gids_u32 aup Hwf) as Hn.
  destruct (authunix_ncreate_ok addr au now aup Ha Ho Hr Hn Ht Hwf) as (au' & E & Hst & Hc & Hok).
  exists au'. split; [done|]. split; [done|]. intros (_ & Hsl & Hsb). rewrite Hc in Hsl, Hsb.
  destruct (ao_orig _ _ Hok) as (_ & _ & _ & Hol & Hob). rewrite Hob in Hsb.
  assert (Hg : got authunix_spec aup aup (wire authunix_spec aup)).
  { eapply got_any, (cd_canon (f := xdr_authunix_parms (P := mem_priv)) aup_zero); done. }
  assert (Hbody : oa_body cred = wire authunix_spec aup ++ drop (Z.to_nat (oa_length cred)) (oa_body cred))
    by (by rewrite <- Hsb, take_drop).
  destruct (svcauth_unix_inline addr' cred verf a0 machname gids ar_verf Hpre) as (stat & aup' & -> & Hv).
  destruct Hv as [[-> (a & w & rest & Hga & Eb & Hw & Hida & Hs)]|[-> Hno]].
  - eexists AUTH_OK, aup', _. split; [done|]. destruct (up_body _ _ _ _ Hpre) as [_ Hb]. rewrite Hbody in Eb, Hb.
    by rewrite (parms_one aup a _ _ _ _ Hg Hga Eb Hb).
  - eexists AUTH_BADCRED, aup', _. split; [done|]. split; [|done]. intros Hid. exfalso. eapply (Hno aup); [done|exact Hbody|lia|done].
Qed.

(** Replies are validated and credentials refreshed, in any order. *)
Inductive au_step (addr : Z) : audata → audata → Prop :=
| au_validate verf b au au' : auth_ok verf → bytes (oa_body verf) → 0 ≤ oa_length verf ≤ 392 →
    authunix_validate addr au verf = Ret (b, au') → au_step addr au au'
| au_refresh now junk b au au' : authunix_refresh addr au now junk = Ret (b, au') → au_step addr au au'.

Lemma au_step_ok addr au au' aup t : addr_ok addr → au_ok au (set_aup_time t aup) → au_step addr au au' →
  ∃ t', au_ok au' (set_aup_time t' aup).
Proof.
  intros Ha Hok Hs. revert Hok. destruct Hs as [verf b au1 au2 Hv Hb Hl E|now junk b au1 au2 E]; intros Hok.
  - destruct (authunix_validate_ok addr au1 _ verf Ha Hok Hv Hb Hl) as (au3 & E' & Hok' & _). exists t. congruence.
  - destruct (authunix_refresh_ok addr au1 _ now junk Ha Hok) as [H1 H2].
    destruct (decide (ah_cred au1 = au_origcred au1)) as [Hc|Hc]; [specialize (H1 Hc); exists t; congruence|].
    destruct (H2 Hc) as (au3 & E' & Hok' & _). exists (s32 now). change (set_aup_time (s32 now) aup) with
      (set_aup_time (s32 now) (set_aup_time t aup)). congruence.
Qed.

(** C31. An AUTH_SYS client always has a credential to send.  Whatever verifiers of up to 392
    bytes its replies carry and however often it is refreshed, its array holds the current
    credential and a null verifier, ready for any stream.  A verifier of the flavour
    AUTH_SHORT that holds a credential replaces the current one by it; any other flavour
    changes nothing.  A refresh gives up where the credential is the original one, and
    otherwise goes back to the original parameters with the time of the refresh. *)
Theorem authunix_ready addr au0 aup au : addr_ok addr → au_ok au0 aup → rtc (au_step addr) au0 au →
  (∀ P (O : XdrOps P) (W : XdrOutput P), puts (authunix_marshal au) (auth_wire (ah_cred au) ++ auth_wire _null_auth)) ∧
  (∀ verf, auth_ok verf → bytes (oa_body verf) → 0 ≤ oa_length verf ≤ 392 →
     ∃ au', authunix_validate addr au verf = Ret (true, au') ∧
       (oa_flavor verf ≠ AUTH_SHORT → au' = au) ∧
       (oa_flavor verf = AUTH_SHORT → ∀ sc w rest, auth_got (au_shcred au) sc w →
          take (Z.to_nat (oa_length verf)) (oa_body verf) = w ++ rest → ah_cred au' = sc)) ∧
  (∀ now junk, if decide (ah_cred au = au_origcred au) then authunix_refresh addr au now junk = Ret (false, au)
     else ∃ au', authunix_refresh addr au now junk = Ret (true, au') ∧ orig_of (ah_cred au') (set_aup_time (s32 now) aup)).
Proof.
  intros Ha Hok0 Hr. assert (∃ t, au_ok au (set_aup_time t aup)) as [t Hok].
  { assert (H0 : ∃ t, au_ok au0 (set_aup_time t aup)) by (exists (aup_time aup); by destruct aup).
    clear Hok0. revert H0. induction Hr as [au|au1 au2 au3 Hs _ IH]; [done|]. intros [t Ht]. apply IH. by eapply au_step_ok. }
  split; [|split].
  - intros P O W. unfold authunix_marshal. rewrite (ao_sending _ _ Hok), (ao_verf _ _ Hok). apply puts_bytes.
  - intros verf Hv Hb Hl. destruct (authunix_validate_ok addr au _ verf Ha Hok Hv Hb Hl) as (au' & E & _ & _ & H1 & H2). eauto.
  - intros now junk. destruct (authunix_refresh_ok addr au _ now junk Ha Hok) as [H1 H2]. case_decide as Hc; [by apply H1|].
    destruct (H2 Hc) as (au' & E & Hok' & Hc'). exists au'. split; [done|]. rewrite Hc'. apply (ao_orig _ _ Hok').
Qed.

(** ** A client on the machine hi *)

Definition hi_parms : authunix_parms := mk_authunix_parms 7 (Pobj [104; 105; 0]) 1000 100 (Pobj [5], 1).
Definition hi_memory : audata :=
  mk_au _null_auth _null_auth 0 _null_auth _null_auth (replicate 400 0) 0 0.

Lemma hi_wf : wf authunix_spec hi_parms.
Proof.
  split; [done|]. split.
  { exists [104; 105]. split_and!; [done|by repeat constructor|by repeat constructor|done]. }
  split; [done|]. split; [done|]. right. exists [5]. split; [done|]. split; [done|]. by repeat constructor.
Qed.

Lemma hi_ids : ids_known hi_parms.
Proof. split_and!; cbn; try (by vm_compute). by repeat constructor. Qed.

Lemma authunix_accepted_witness :
  ∃ au', authunix_ncreate 64 hi_memory 7 (Pobj [104; 105; 0]) 1000 100 1 (Pobj [5]) = Ret au' ∧
    ah_status au' = RPC_SUCCESS ∧
    (auth_same some_cred (ah_cred au') →
       ∃ aup', _svcauth_unix 16 some_cred _null_auth aup_zero (replicate 256 0) (replicate 16 0) _null_auth =
         Ret (AUTH_OK, aup', _null_auth) ∧ same_cred aup' hi_parms).
Proof.
  destruct (authunix_accepted 64 hi_memory 7 hi_parms 16 some_cred _null_auth aup_zero (replicate 256 0) (replicate 16 0) _null_auth)
    as (au' & E & Hs & H); [done|done|done|apply hi_wf|done|apply some_cred_pre|].
  exists au'. split; [exact E|]. split; [exact Hs|]. intros Hc. destruct (H Hc) as (stat & aup' & v & Es & Hk & _).
  destruct (Hk hi_ids) as (-> & -> & Hsame). exists aup'. split; [exact Es|exact Hsame].
Defined.

(** The created client, a verifier with a short credential of eight bytes, and what follows. *)
Definition hi_client : audata :=
  match authunix_ncreate 64 hi_memory 7 (Pobj [104; 105; 0]) 1000 100 1 (Pobj [5]) with Ret au => au | _ => hi_memory end.
Definition short_verf (n : nat) : opaque_auth :=
  mk_auth AUTH_SHORT (8 + Z.of_nat n) (be32 2 ++ be32 (Z.of_nat n) ++ replicate n 9 ++ replicate (392 - n) 0).

Lemma authunix_ready_witness : ∃ au, authunix_validate 64 hi_client (short_verf 8) = Ret (true, au) ∧
  oa_flavor (ah_cred au) = 2 ∧ ∃ au', authunix_refresh 64 au 9 aup_zero = Ret (true, au') ∧
  orig_of (ah_cred au') (set_aup_time 9 hi_parms).
Proof.
  assert (Hok : au_ok hi_client hi_parms).
  { unfold hi_client. destruct (authunix_ncreate_ok 64 hi_memory 7 hi_parms) as (au & E & _ & _ & Hok); [done..|apply hi_wf|].
    cbn [hi_parms aup_machname aup_uid aup_gid aup_gids fst snd] in E. by rewrite E. }
  assert (Ha : addr_ok 64) by done. assert (Hv : auth_ok (short_verf 8)) by done.
  assert (Hl : 0 ≤ oa_length (short_verf 8) ≤ 392) by done. assert (Hb : bytes (oa_body (short_verf 8))).
  { cbn [short_verf oa_body]. rewrite !bytes_app. split_and!; [apply be32_bytes..| |]; by apply bytes_replicate. }
  assert (∃ au, authunix_validate 64 hi_client (short_verf 8) = Ret (true, au) ∧ oa_flavor (ah_cred au) = 2 ∧
    oa_flavor (au_origcred au) = 1) as (au & E & Hf & Hf') by (eexists; split; vm_compute; [reflexivity|split; reflexivity]).
  destruct (authunix_ready 64 hi_client hi_parms au Ha Hok (rtc_once _ _ (au_validate 64 _ _ _ _ Hv Hb Hl E))) as (_ & _ & Hr).
  specialize (Hr 9 aup_zero). exists au. split; [exact E|]. split; [exact Hf|]. clear E.
  by rewrite decide_False in Hr by congruence.
Defined.

(** A server may send a short credential of 392 bytes, which with its header and the verifier
    does not fit the array of 400: the array then begins with the head of that credential,
    and the number of bytes to send is still that of the old one. *)
Theorem long_short_credential : ∃ au, authunix_validate 64 hi_client (short_verf 392) = Ret (true, au) ∧
  au_mpos au = au_mpos hi_client ∧ take 8 (au_marshed au) = be32 2 ++ be32 392 ∧ ¬ sending au.
Proof.
  eexists. split; [vm_compute; reflexivity|]. split; [done|]. split; [done|].
  intros H. apply (f_equal (λ l : list Z, length l)) in H. by vm_compute in H.
Qed.
