(* ===== verification/ClntVc.v ===== *)
(** * Calls on a stream (src/clnt_vc.c)

    A handle holds the beginning of its call messages in an array; a call puts its transaction
    id there, copies the array, the procedure, the credential and the arguments into a new
    queue of buffers and gives that to the writer of the connection. *)
From stdpp Require Import base gmap list.
From Stdlib Require Import ZArith Lia.
From S2P Require Import Prelude Machine XdrHandle XdrStream XdrMem XdrIoq XdrInline RpcMsg SvcAuth SvcIoqZc SvcIoq SvcVc SvcVcReply RbTree RbTable ClntReq ClntAuth.

Definition MCALL_MSG_SIZE : Z := 24.
Definition CLGET_SERVER_ADDR : Z := 3.
Definition CLGET_FD : Z := 6.
Definition CLGET_SVC_ADDR : Z := 7.
Definition CLSET_FD_CLOSE : Z := 8.
Definition CLSET_FD_NCLOSE : Z := 9.
Definition CLGET_XID : Z := 10.
Definition CLSET_XID : Z := 11.
Definition CLGET_VERS : Z := 12.
Definition CLSET_VERS : Z := 13.
Definition CLGET_PROG : Z := 14.
Definition CLSET_PROG : Z := 15.

(** The call message in the handle. *)
Record cx_data := mk_cx { cx_mcallc : list Z; cx_mpos : Z }.

(** The word at an offset of the array, as [ntohl] and [htonl] see it. *)
Definition mcall_get (cx : cx_data) (off : Z) : Z := be_dec (take 4 (drop (Z.to_nat off) (cx_mcallc cx))).
Definition mcall_put (cx : cx_data) (off v : Z) : cx_data :=
  mk_cx (take (Z.to_nat off) (cx_mcallc cx) ++ be32 v ++ drop (Z.to_nat (off + 4)) (cx_mcallc cx)) (cx_mpos cx).

(** [htonl] as a number, on a little-endian machine. *)
Definition htonl (v : Z) : Z := be_dec (rev (be32 v)).

(** ** The header *)

(** The part of clnt_vc_ncreatef that writes the header into the zeroed array at [addr];
    [call_msg] is the object on the stack as it was. *)
Definition clnt_vc_header {R} (addr call_xid prog vers : Z) (call_msg : rpc_msg R) : out (option cx_data) :=
  let call_msg := set_vers vers (set_prog prog (set_rpcvers RPC_MSG_VERSION (set_direction CALL (RpcMsg.set_xid call_xid call_msg)))) in
  let! (ok, pos, buf) := encode_into addr (replicate (Z.to_nat MCALL_MSG_SIZE) 0) (λ ct_xdrs,
    let! (ok, _, ct_xdrs) := xdr_ncallhdr ct_xdrs call_msg in Ret (ok, ct_xdrs)) in
  Ret (if ok : bool then Some (mk_cx buf pos) else None).

(** ** A call *)

Section Call.
Context `{!Allocator} {R A : Type}.

(** The status, the handle's array, the requests, and what the writer is given to do.
    [ah_cred], [ah_marshal] and [ah_wrap] are those of [cc_auth]; [id] names the new queue. *)
Definition clnt_vc_call (send_max : Z) (ah_cred : opaque_auth) (ah_marshal : XDRQ → out (bool * XDRQ))
    (ah_wrap : xdrproc xdr_ioq A → xdrproc xdr_ioq A) (h : heap) (id : Z) (cx : cx_data) (s : @conn xdr_ioq R) (cc : Z)
    (cc_proc : Z) (call_proc : xdrproc xdr_ioq A) (call_where : A) (ch : out_chan)
    : out (Z * cx_data * conn * (list zc_xioq * nat * out_chan)) :=
  let! c := req s cc in
  let! xioq := xdr_ioq_create h RPC_MAXDATA_DEFAULT (send_max + RPC_MAXDATA_DEFAULT)
    (if oa_flavor ah_cred =? RPCSEC_GSS then Z.lor UIO_FLAG_REALLOC UIO_FLAG_FREE else UIO_FLAG_FREE) in
  let! s := upd s cc (set_status RPC_SUCCESS) in
  let cx := mcall_put cx 0 (cc_xid c) in
  let! (ok, xioq) :=
    (check! xioq := x_putbytes xioq (take (Z.to_nat (cx_mpos cx)) (cx_mcallc cx)) in
     check! xioq := xdr_putuint32 xioq cc_proc in
     check! xioq := ah_marshal xioq in
     let! (ok, _, xioq) := ah_wrap call_proc xioq call_where in Ret (ok, xioq)) in
  if negb ok then let! _ := xdr_ioq_destroy xioq in Ret (RPC_CANTENCODEARGS, cx, s, ([], 0%nat, ch)) else
  Ret (RPC_SUCCESS, cx, s, svc_ioq_write_submit ch (fresh_reply id xioq)).
End Call.

(** ** Control *)

(** What [info] points to. *)
Inductive ctl_info := INull | IWord (v : Z) | IAddr (buf : list Z).

(** The array of the handle, [call_xid], SVC_XPRT_FLAG_CLOSE, [xp_fd] and [ct_raddr]. *)
Record ct_state := mk_ct { ct_cx : cx_data; ct_xid : Z; ct_close : bool; ct_fd : Z; ct_raddr : list Z }.

Definition set_cx v ct := mk_ct v (ct_xid ct) (ct_close ct) (ct_fd ct) (ct_raddr ct).
Definition set_ct_xid v ct := mk_ct (ct_cx ct) v (ct_close ct) (ct_fd ct) (ct_raddr ct).
Definition set_close v ct := mk_ct (ct_cx ct) (ct_xid ct) v (ct_fd ct) (ct_raddr ct).

(** [*(u_int32_t * )info = v], and its value. *)
Definition put_word (info : ctl_info) (v : Z) : out ctl_info := match info with IWord _ => Ret (IWord v) | _ => Ub end.
Definition get_word (info : ctl_info) : out Z := match info with IWord v => Ret v | _ => Ub end.

Definition clnt_vc_control (ct : ct_state) (request : Z) (info : ctl_info) : out (bool * ctl_info * ct_state) :=
  if request =? CLSET_FD_CLOSE then Ret (true, info, set_close true ct) else
  if request =? CLSET_FD_NCLOSE then Ret (true, info, set_close false ct) else
  match info with
  | INull => Ret (false, info, ct)
  | _ =>
      if request =? CLGET_SERVER_ADDR then
        match info with IAddr _ => Ret (true, IAddr (ct_raddr ct), ct) | _ => Ub end else
      if request =? CLGET_FD then let! info := put_word info (ct_fd ct) in Ret (true, info, ct) else
      if request =? CLGET_SVC_ADDR then
        match info with IAddr _ => Ret (true, IAddr (ct_raddr ct), ct) | _ => Ub end else
      if request =? CLGET_XID then let! info := put_word info (mcall_get (ct_cx ct) 0) in Ret (true, info, ct) else
      if request =? CLSET_XID then let! v := get_word info in Ret (true, info, set_ct_xid (htonl (u32 (v - 1))) ct) else
      if request =? CLGET_VERS then let! info := put_word info (mcall_get (ct_cx ct) 16) in Ret (true, info, ct) else
      if request =? CLSET_VERS then let! v := get_word info in Ret (true, info, set_cx (mcall_put (ct_cx ct) 16 v) ct) else
      if request =? CLGET_PROG then let! info := put_word info (mcall_get (ct_cx ct) 12) in Ret (true, info, ct) else
      if request =? CLSET_PROG then let! v := get_word info in Ret (true, info, set_cx (mcall_put (ct_cx ct) 12 v) ct) else
      Ret (false, info, ct)
  end.
