(* ===== verification/ClntVcTheorems.v ===== *)
(** * Calls told from one end of a stream to the other, and their answers back

    A client makes calls on a stream, whatever its socket does: its server hears each of them,
    with its arguments.  The server answers in any order: each answer reaches the request that
    waits for it. *)
From stdpp Require Import base gmap list.
From Stdlib Require Import ZArith Lia.
From S2P Require Import Prelude Machine XdrHandle XdrStream XdrMem XdrIoq XdrIoqFacts XdrInline XdrWire XdrCodecs XdrIoqTheorems RpcMsg RpcMsgFacts RpcMsgTheorems SvcAuth SvcIoqZc SvcIoqZcTheorems SvcIoq SvcIoqFacts SvcIoqTheorems SvcVc SvcVcFacts SvcVcTheorems SvcVcRecords StreamTheorems SvcVcReply SvcVcReplyTheorems RbTree RbTable ClntReq ClntReqFacts ClntAuth ClntVc.

(** ** The header *)

(** The array of a handle for a program and a version. *)
Definition header_of (cx : cx_data) (prog vers : Z) : Prop :=
  ∃ xid tl, cx_mcallc cx = be32 xid ++ be32 CALL ++ be32 RPC_MSG_VERSION ++ be32 prog ++ be32 vers ++ tl ∧ cx_mpos cx = 20.

Lemma callhdr_encodes {P R} {O : XdrOps P} {I : XdrInput P} {W : XdrOutput P} (m : rpc_msg R) : rm_direction m = CALL →
  cb_rpcvers m = RPC_MSG_VERSION → is_u 32 (rm_xid m) → is_u 32 (cb_prog m) → is_u 32 (cb_vers m) →
  encodes xdr_ncallhdr m (be32 (rm_xid m) ++ be32 (rm_direction m) ++ be32 (cb_rpcvers m) ++ be32 (cb_prog m) ++ be32 (cb_vers m)).
Proof.
  intros Hd Hv Hx Hp Hvs. assert (Hu : is_u 32 (cb_rpcvers m)) by (by rewrite Hv).
  assert (Hs : is_s 32 (rm_direction m)) by (by rewrite Hd).
  assert (Em : set_rpcvers RPC_MSG_VERSION (set_direction CALL m) = m) by (destruct m; cbn in Hd, Hv; by subst).
  assert (He : encodes (xdr_field rm_xid RpcMsg.set_xid xdr_u_int32_t &&&& xdr_field rm_direction set_direction xdr_enum &&&&
    xdr_field cb_rpcvers set_rpcvers xdr_u_int32_t &&&& xdr_field cb_prog set_prog xdr_u_int32_t &&&&
    xdr_field cb_vers set_vers xdr_u_int32_t) m (be32 (rm_xid m) ++ be32 (rm_direction m) ++ be32 (cb_rpcvers m) ++ be32 (cb_prog m) ++ be32 (cb_vers m))).
  { repeat apply encodes_and; (apply encodes_field; [|by destruct m]);
      first [by apply (cd_encodes (S := uint32_spec))|by apply (cd_encodes (S := int32_spec))]. }
  intros x w c Hx'. specialize (He x w c Hx'). unfold xdr_ncallhdr. by rewrite (out_at_encode _ _ _ Hx'), Em.
Qed.

Lemma clnt_vc_header_ok {R} addr xid prog vers (junk : rpc_msg R) : addr_ok addr →
  is_u 32 xid → is_u 32 prog → is_u 32 vers →
  ∃ cx, clnt_vc_header addr xid prog vers junk = Ret (Some cx) ∧ header_of cx prog vers.
Proof.
  intros Ha Hx Hp Hv. unfold clnt_vc_header. set (m := set_vers _ _).
  destruct (encode_into_ok addr (replicate (Z.to_nat MCALL_MSG_SIZE) 0) (λ x, let! (ok, _, x) := xdr_ncallhdr x m in Ret (ok, x))
    _ Ha (λ W, puts_filter _ _ _ (callhdr_encodes m eq_refl eq_refl Hx Hp Hv))) as (tl & -> & _); [done|done|].
  cbn [obind]. eexists. split; [done|]. exists xid, tl. split; [|done]. cbn [cx_mcallc]. by rewrite <- !app_assoc.
Qed.

(** ** A call *)

(** What a transport relies on: an authenticator that writes a credential and a verifier. *)
Class Authenticator `{!Allocator} (marshal : XDRQ → out (bool * XDRQ)) (cred verf : opaque_auth) : Prop := {
  am_puts : puts marshal (auth_wire cred ++ auth_wire verf);
  am_cred : auth_wf cred;
  am_verf : auth_wf verf;
  am_bytes : bytes (auth_data cred) ∧ bytes (auth_data verf);
  am_flavor : oa_flavor cred ≠ RPCSEC_GSS;
}.

(** The same authenticator with nothing behind its bytes. *)
Definition trimmed (oa : opaque_auth) : opaque_auth :=
  mk_auth (oa_flavor oa) (oa_length oa) (auth_data oa ++ replicate (Z.to_nat (MAX_AUTH_BYTES - oa_length oa)) 0).

Lemma trimmed_ok oa : auth_wf oa → bytes (auth_data oa) →
  auth_wf (trimmed oa) ∧ bytes (oa_body (trimmed oa)) ∧ auth_data (trimmed oa) = auth_data oa ∧ auth_wire (trimmed oa) = auth_wire oa.
Proof.
  intros (Ho & Hf & Hl) Hb. assert (Hlen : length (auth_data oa) = Z.to_nat (oa_length oa)).
  { unfold auth_data, auth_ok, MAX_AUTH_BYTES in *. rewrite length_take. lia. }
  assert (Hd : auth_data (trimmed oa) = auth_data oa) by (unfold auth_data at 1; cbn; by rewrite <- Hlen, take_app_length).
  split_and!; try done.
  - split; [|done]. unfold auth_ok. cbn [oa_body trimmed]. unfold auth_ok, MAX_AUTH_BYTES in *. rewrite Zlen_app, length_replicate. lia.
  - apply bytes_app. split; [done|by apply bytes_replicate].
  - unfold auth_wire. fold (auth_data (trimmed oa)) (auth_data oa). by rewrite Hd.
Qed.

Lemma auth_wire_all_bytes oa : bytes (auth_data oa) → bytes (auth_wire oa).
Proof.
  intros Hb. unfold auth_wire, pad_wire, zeros. rewrite !bytes_app. split_and!; [apply be32_bytes..|done|by apply bytes_replicate].
Qed.

Section Calls.
Context `{!Allocator} {A R : Type} (f : xdrproc xdr_ioq A) (S : spec A) {C : Codec f S}.
Context (marshal : XDRQ → out (bool * XDRQ)) (cred verf : opaque_auth) {Am : Authenticator marshal cred verf}.
Context (prog vers : Z).
Abbreviation connection := (@conn xdr_ioq R).
Implicit Types s : connection.

(** The message of a call. *)
Definition call_msg (xid proc : Z) : rpc_msg unit :=
  mk_msg xid CALL RPC_MSG_VERSION (mk_reply 0 (mk_accepted 0 (mk_versions 0 0) tt _null_auth) (mk_rejected 0 (mk_versions 0 0) 0))
    prog vers proc cred verf.

Lemma mcall_put_header cx xid : header_of cx prog vers → header_of (mcall_put cx 0 xid) prog vers ∧
  take (Z.to_nat (cx_mpos (mcall_put cx 0 xid))) (cx_mcallc (mcall_put cx 0 xid)) =
    be32 xid ++ be32 CALL ++ be32 RPC_MSG_VERSION ++ be32 prog ++ be32 vers.
Proof.
  intros (x0 & tl & E & Ep). unfold mcall_put. cbn [cx_mcallc cx_mpos]. rewrite E, Ep.
  change (Z.to_nat (0 + 4)) with 4%nat. rewrite (drop_app_length' (be32 x0)) by done. cbn [take app Z.to_nat].
  split; [by exists xid, tl|]. rewrite !app_assoc. by rewrite take_app_length'.
Qed.

(** What [clnt_vc_call] gives to the writer. *)
Lemma vc_call_encoded cx s cc c proc v h send_max : header_of cx prog vers → reqs s !! cc = Some c → wf S v →
  ∃ x cx', ioq_out x (call_wire (call_msg (cc_xid c) proc) ++ wire S v) None ∧ header_of cx' prog vers ∧ ∀ id ch,
    clnt_vc_call send_max cred marshal authnone_wrap h id cx s cc proc f v ch =
    Ret (RPC_SUCCESS, cx', put s cc (set_status RPC_SUCCESS c), svc_ioq_write_submit ch (fresh_reply id x)).
Proof.
  intros Hcx Hc Hv. destruct (mcall_put_header cx (cc_xid c) Hcx) as [Hcx' Ht].
  destruct (ioq_create_room h RPC_MAXDATA_DEFAULT (send_max + RPC_MAXDATA_DEFAULT) UIO_FLAG_FREE) as (x0 & E0 & Hx0 & _); [done..|].
  pose proof (puts_check _ _ _ _ (puts_bytes (take (Z.to_nat (cx_mpos (mcall_put cx 0 (cc_xid c)))) (cx_mcallc (mcall_put cx 0 (cc_xid c)))))
    (puts_check _ _ _ _ (puts_uint32 proc) (puts_check _ _ _ _ am_puts (puts_filter f v _ (cd_encodes v Hv))))) as Hp.
  destruct (proj1 (Hp x0 [] None Hx0) I) as (x1 & E1 & Hx1). rewrite Ht in Hx1.
  exists x1, (mcall_put cx 0 (cc_xid c)). split; [|split; [done|]].
  - unfold call_wire, call_msg. cbn. cbn [app] in Hx1. by rewrite <- !app_assoc in *.
  - intros id ch. unfold clnt_vc_call. rewrite (req_ok _ _ _ Hc). cbn [obind]. rewrite (proj2 (Z.eqb_neq _ _) am_flavor), E0.
    cbn [obind]. rewrite (upd_ok _ _ _ _ Hc). cbn [obind]. unfold authnone_wrap. by rewrite E1.
Qed.

(** ** What the server hears *)

Context {T : Type}.

(** The record [d] is the call. *)
Definition heard (where_ : T) (m0 : rpc_msg T) (x : vc_xprt) (d : XDRQ) (call : Z * Z * A) : Prop :=
  let '(xid, proc, v) := call in
  ∃ m' y, svc_vc_decode where_ m0 d x = Ret (Process m' y, x) ∧ call_same m' (call_msg xid proc) ∧
    ∀ v0, fresh S v0 → ∃ z, f y v0 = Ret (true, v, z).

(** The bytes [w] say the call to whoever decodes them. *)
Definition says (call : Z * Z * A) (w : list Z) : Prop :=
  (bytes w ∧ 0 < Zlen w ≤ LAST_FRAG_XDR_UNITS) ∧
  ∀ where_ m0 x d, msg_ok m0 → ioq_in (set_op XDR_DECODE d) 0 w → heard where_ m0 x d call.

(** A call the client may make: numbers in range, arguments the filter encodes, and one
    fragment in all. *)
Record call_fits (call : Z * Z * A) : Prop := {
  cf_xid : is_u 32 call.1.1;
  cf_proc : is_u 32 call.1.2;
  cf_args : wf S call.2;
  cf_size : call_len (call_msg call.1.1 call.1.2) + Zlen (wire S call.2) ≤ LAST_FRAG_XDR_UNITS;
}.

Lemma call_says xid proc v : is_u 32 prog → is_u 32 vers → call_fits (xid, proc, v) →
  says (xid, proc, v) (call_wire (call_msg xid proc) ++ wire S v).
Proof.
  intros Hp Hvs [Hx Hpr Hv Hz]. cbn [fst snd] in *. destruct (am_bytes (marshal := marshal)) as [Hbc Hbv].
  destruct (trimmed_ok cred am_cred Hbc) as (Hcw & Hcb & Hcd & Hcwi). destruct (trimmed_ok verf am_verf Hbv) as (Hvw & Hvb & Hvd & Hvwi).
  set (m := mk_msg xid CALL RPC_MSG_VERSION (rm_reply (call_msg xid proc)) prog vers proc (trimmed cred) (trimmed verf)).
  assert (Hwf : call_wf m) by (by split_and!).
  assert (Ew : call_wire (call_msg xid proc) = call_wire m) by (unfold call_wire; cbn; by rewrite Hcwi, Hvwi).
  assert (Hlen : Zlen (call_wire m) = call_len (call_msg xid proc)) by (rewrite <- Ew; by apply call_bytes_len, call_wire_bytes; apply Am).
  rewrite Ew. split.
  - assert (Hpos : 24 ≤ Zlen (call_wire m)) by (unfold call_wire; rewrite !Zlen_app, !be32_length; lia).
    split; [|rewrite Zlen_app; lia]. apply bytes_app. split; [|by apply cd_bytes]. unfold call_wire. cbn [m cb_cred cb_verf].
    rewrite Hcwi, Hvwi, !bytes_app. split_and!; try apply be32_bytes; by apply auth_wire_all_bytes.
  - intros where_ m0 x d Hok Hd. destruct (call_bytes_got m (rpc_msg_init where_ m0) _ Hwf (call_wire_bytes m)) as (m' & Hg & Hdf & Hs).
    assert (Hdm : decodes (xdr_dplx_decode : xdrproc xdr_ioq (rpc_msg T)) (rpc_msg_init where_ m0) (call_wire m) m')
      by (apply msg_decodes; [by apply init_ok|done|done]).
    destruct (Hdm _ _ Hd) as (y & E & Hy). exists m', y. split.
    { unfold svc_vc_decode. rewrite E. cbn [obind negb]. destruct Hs as (_ & -> & _). done. }
    split.
    { destruct Hs as (H1 & H2 & H3 & H4 & H5 & H6 & (H7 & H8 & H9) & (H10 & H11 & H12)). split_and!; try done.
      - split; [done|]. split; [done|]. by etrans; [exact H9|exact Hcd].
      - split; [done|]. split; [done|]. by etrans; [exact H12|exact Hvd]. }
    intros v0 Hv0. destruct (codec_roundtrip f S v v0 Hv Hv0) as [_ Hdec]. rewrite <- (app_nil_r (wire S v)) in Hy.
    destruct (Hdec y [] Hy) as (z & -> & _). by exists z.
Qed.

(** ** A client *)

(** A call is made for the request at [cc], or the writer runs. *)
Inductive cl_event :=
| Call (cc proc : Z) (v : A) (h : heap) (id : Z)
| Flush (worker : bool) (answers : list send_answer) (errqs : list (list (list cmsghdr))).

Record cl_state := mk_cls { cl_cx : cx_data; cl_conn : connection; cl_out : out_state }.

Definition cl_step (zp : zc_params) (arm : bool) (send_max : Z) (cs : cl_state) (ev : cl_event) : out cl_state :=
  match ev with
  | Call cc proc v h id =>
      let o := cl_out cs in
      let! (_, cx, s, (fs, n, ch)) :=
        clnt_vc_call send_max cred marshal authnone_wrap h id (cl_cx cs) (cl_conn cs) cc proc f v (ost_chan o) in
      Ret (mk_cls cx s (mk_ost ch (ost_pending o + n)%nat (ost_freed o ++ fs)))
  | Flush worker answers errqs =>
      let! o := out_step zp arm (cl_out cs) (Run worker answers errqs []) in Ret (mk_cls (cl_cx cs) (cl_conn cs) o)
  end.

Fixpoint cl_run (zp : zc_params) (arm : bool) (send_max : Z) (cs : cl_state) (evs : list cl_event) : out cl_state :=
  match evs with
  | [] => Ret cs
  | ev :: evs => let! cs := cl_step zp arm send_max cs ev in cl_run zp arm send_max cs evs
  end.

(** The requests, and the calls with the transaction ids the requests have. *)
Definition made (evs : list cl_event) : list (Z * Z * A) :=
  evs ≫= λ ev, match ev with Call cc proc v _ _ => [(cc, proc, v)] | Flush _ _ _ => [] end.
Definition call_of s (r : Z * Z * A) : Z * Z * A := (xid_of (reqs s) r.1.1, r.1.2, r.2).

(** Calls change no more than the status of a request. *)
Definition resent s s' : Prop :=
  (∀ W X, conn_ok s W X → conn_ok s' W X) ∧
  ∀ cc c, reqs s !! cc = Some c → ∃ st, reqs s' !! cc = Some (set_status st c).

Lemma set_status_same (c : @clnt_req xdr_ioq R) : set_status (re_status (cc_error c)) c = c.
Proof. by destruct c as [? ? ? ? ? [] ? ? ? ? ?]. Qed.

Lemma resent_refl s : resent s s.
Proof. split; [done|]. intros cc c Hc. exists (re_status (cc_error c)). by rewrite set_status_same. Qed.

Lemma resent_put s cc c : reqs s !! cc = Some c → resent s (put s cc (set_status RPC_SUCCESS c)).
Proof.
  intros Hc. split; [intros W X Hok; by eapply put_ok|]. intros q cq Hq. cbn. destruct (decide (q = cc)) as [->|Hne].
  - exists RPC_SUCCESS. rewrite lookup_insert_eq. congruence.
  - exists (re_status (cc_error cq)). by rewrite lookup_insert_ne, set_status_same.
Qed.

Lemma resent_trans s1 s2 s3 : resent s1 s2 → resent s2 s3 → resent s1 s3.
Proof.
  intros [H1 H2] [H3 H4]. split; [auto|]. intros cc c Hc. destruct (H2 cc c Hc) as [st Hc2].
  destruct (H4 cc _ Hc2) as [st' Hc3]. by exists st'.
Qed.

Lemma resent_call s s' r c : resent s s' → reqs s !! r.1.1 = Some c → call_of s' r = call_of s r.
Proof. intros [_ Hst] Hc. destruct (Hst _ _ Hc) as [st Hc']. unfold call_of, xid_of. by rewrite Hc, Hc'. Qed.

(** A run of the client is a run of the writer. *)
Lemma cl_run_out zp arm send_max evs : is_u 32 prog → is_u 32 vers → ∀ cx s, header_of cx prog vers →
  Forall (λ r, is_Some (reqs s !! r.1.1) ∧ call_fits (call_of s r)) (made evs) →
  ∃ evs' ws cx' s', replies evs' ws ∧ Forall2 says (call_of s <$> made evs) ws ∧ resent s s' ∧
    ∀ o, cl_run zp arm send_max (mk_cls cx s o) evs = let! o' := out_run zp arm o evs' in Ret (mk_cls cx' s' o').
Proof.
  intros Hp Hvs. induction evs as [|[cc proc v h id|worker answers errqs] evs IH]; intros cx s Hcx Hm.
  - exists [], [], cx, s. split_and!; [constructor|constructor|apply resent_refl|done].
  - change (made (Call cc proc v h id :: evs)) with ((cc, proc, v) :: made evs) in *. apply Forall_cons in Hm as [[[c Hc] Hf] Hm]. cbn [fst snd] in Hc.
    assert (Ex : call_of s (cc, proc, v) = (cc_xid c, proc, v)) by (unfold call_of, xid_of; cbn; by rewrite Hc). rewrite Ex in Hf.
    destruct (vc_call_encoded cx s cc c proc v h send_max Hcx Hc (cf_args _ Hf)) as (x & cx1 & Hx & Hcx1 & Ec).
    set (s1 := put s cc _) in Ec. assert (Hs1 : resent s s1) by (by apply resent_put).
    assert (Hcalls : call_of s1 <$> made evs = call_of s <$> made evs).
    { apply list_fmap_ext. intros i r Hr. apply (Forall_lookup_1 _ _ _ _ Hm) in Hr as [[c' Hc'] _]. by eapply resent_call. }
    destruct (IH cx1 s1 Hcx1) as (evs' & ws & cx' & s' & Hr & Hsay & Hs' & E).
    { apply Forall_forall. intros r Hr. rewrite Forall_forall in Hm. destruct (Hm r Hr) as [[c' Hc'] Hf'].
      rewrite (resent_call _ _ _ _ Hs1 Hc'). split; [|done]. destruct (proj2 Hs1 _ _ Hc') as [st ->]. by eexists. }
    pose proof (call_says _ _ _ Hp Hvs Hf) as Hsays.
    exists (ReplySubmit (fresh_reply id x) :: evs'), ((call_wire (call_msg (cc_xid c) proc) ++ wire S v) :: ws), cx', s'.
    split; [|split; [|split]].
    + constructor; [|done]. apply (fresh_sending id x _ None Hx), Hsays.
    + rewrite fmap_cons, Ex. constructor; [done|].
      by rewrite <- Hcalls.
    + by eapply resent_trans.
    + intros o. cbn [cl_run cl_step cl_cx cl_conn cl_out]. rewrite Ec. cbn [obind]. cbn [out_run]. unfold out_step.
      destruct (svc_ioq_write_submit _ _) as [[fs n] ch]. cbn [obind]. apply E.
  - destruct (IH cx s Hcx Hm) as (evs' & ws & cx' & s' & Hr & Hsay & Hs' & E).
    exists (Run worker answers errqs [] :: evs'), ws, cx', s'. split; [done|]. split; [done|]. split; [done|].
    intros o. cbn [cl_run cl_step cl_cx cl_conn cl_out out_run]. destruct (out_step _ _ _ _); cbn [obind]; [apply E|done..].
Qed.

(** Once the queue of the client is empty, its server has heard every call. *)
Lemma calls_heard zp arm ok send_max evs cx s (where_ : T) m0 pagesz maxrec h remote envs :
  is_u 32 prog → is_u 32 vers → header_of cx prog vers →
  Forall (λ r, is_Some (reqs s !! r.1.1) ∧ call_fits (call_of s r)) (made evs) → msg_ok m0 → Forall patient envs →
  ∃ cs, cl_run zp arm send_max (mk_cls cx s (new_chan ok)) evs = Ret cs ∧ resent s (cl_conn cs) ∧
    let ch := ost_chan (cl_out cs) in
    (oc_destroyed ch = false → oc_queue ch = [] →
     (length (os_wire (oc_sock ch)) ≤ length (filter (λ e, blocked e = false) envs))%nat →
     ∃ ds x', vc_run pagesz maxrec envs (vc_accepted h remote (os_wire (oc_sock ch))) = Ret (ds, x') ∧
       Forall2 (heard where_ m0 x') ds (call_of s <$> made evs)).
Proof.
  intros Hp Hvs Hcx Hm Hok Hen. destruct (cl_run_out zp arm send_max evs Hp Hvs cx s Hcx Hm) as (evs' & ws & cx' & s' & Hr & Hsay & Hs' & E).
  destruct (run_from_new zp arm ok evs' ws Hr) as (o & Eo & [Ho _ _ _] & _).
  exists (mk_cls cx' s' o). rewrite E, Eo. split; [done|]. split; [done|]. cbn [cl_out]. intros Hd Hq Hl.
  destruct (frames_received pagesz maxrec h remote _ ws envs Ho Hd Hq) as (ds & x' & Er & Hds); [|done|done|].
  { eapply Forall2_Forall_r; [exact Hsay|]. apply Forall_true. intros r w Hw. apply Hw. }
  exists ds, x'. split; [done|]. eapply Forall2_meet; [exact Hds|exact Hsay|].
  intros d w r Hin [_ Hw]. by apply Hw.
Qed.
End Calls.

(** ** Answers *)

(** The statuses of refused and of failed calls. *)
Lemma accepted_failed st e : st ≠ SUCCESS → re_status (accepted st e) ≠ RPC_SUCCESS.
Proof. intros Hs. apply Z.eqb_neq in Hs. unfold accepted. rewrite Hs. by repeat case_match. Qed.

Lemma rejected_failed st e : re_status (rejected st e) ≠ RPC_SUCCESS.
Proof. unfold rejected. by repeat case_match. Qed.

Lemma not_success {R} (m : rpc_msg R) e : success m = false → re_status (_seterr_reply m e) ≠ RPC_SUCCESS.
Proof.
  intros Hs. unfold _seterr_reply. fold (success m). rewrite Hs. set (e' := if _ =? MSG_ACCEPTED then _ else _).
  assert (He : re_status e' ≠ RPC_SUCCESS).
  { unfold e', success in *. destruct (rp_stat (rm_reply m) =? MSG_ACCEPTED).
    - apply accepted_failed. by apply Z.eqb_neq.
    - destruct (rp_stat (rm_reply m) =? MSG_DENIED); [apply rejected_failed|done]. }
  destruct (re_status e' =? RPC_VERSMISMATCH), (re_status e' =? RPC_AUTHERROR), (re_status e' =? RPC_PROGVERSMISMATCH); done.
Qed.

Lemma is_success {R} (m : rpc_msg R) e : success m = true → _seterr_reply m e = set_re_status RPC_SUCCESS e.
Proof. unfold success, _seterr_reply. by intros ->. Qed.

Section Answers.
Context `{!Allocator} {R : Type} (g : xdrproc xdr_ioq R) (S : spec R) {C : Codec g S}.
Abbreviation connection := (@conn xdr_ioq R).
Implicit Types (s : connection) (c : @clnt_req xdr_ioq R) (m : rpc_msg R) (cc : Z) (W X : list Z).

(** The record [d] tells the answer [m]. *)
Definition told (where_ : R) (m0 : rpc_msg R) (x : vc_xprt) (d : XDRQ) m : Prop :=
  ∃ m' y, svc_vc_decode where_ m0 d x = Ret (ProcessReply m' y, x) ∧ rm_xid m' = rm_xid m ∧
    (∀ e, _seterr_reply m' e = _seterr_reply m e) ∧
    (success m = true → ∀ v0, fresh S v0 → ∃ z, g y v0 = Ret (true, ar_results (RPCM_ack m), z)).

(** A request set up for results of this type, by a client without security, that waits. *)
Record awaits s W m cc c : Prop := {
  aw_waits : cc ∈ W;
  aw_req : reqs s !! cc = Some c;
  aw_xid : cc_xid c = rm_xid m;
  aw_first : claimed c = false;
  aw_validate v : ah_validate (cc_auth c) v = true;
  aw_unwrap : ah_unwrap (cc_auth c) = authnone_wrap;
  aw_proc : cc_reply_proc c = Some g;
  aw_where : fresh S (cc_reply_where c);
}.

(** What the caller finds. *)
Definition got_answer m c c' : Prop :=
  cc_error c' = _seterr_reply m (cc_error c) ∧ (success m = true → cc_reply_where c' = ar_results (RPCM_ack m)).

Lemma answered_same c : cc_error (answered c) = cc_error c ∧ cc_auth (answered c) = cc_auth c ∧
  cc_reply_proc (answered c) = cc_reply_proc c ∧ cc_reply_where (answered c) = cc_reply_where c ∧ cc_xid (answered c) = cc_xid c.
Proof. unfold answered, acked, calm. by destruct (expiring c). Qed.

Lemma reply_result_answer s W m cc c m' y : awaits s W m cc c → (∀ e, _seterr_reply m' e = _seterr_reply m e) →
  (success m = true → ∀ v0, fresh S v0 → ∃ z, g y v0 = Ret (true, ar_results (RPCM_ack m), z)) →
  ∃ c', reply_result m' y (answered c) = Ret c' ∧ got_answer m c c'.
Proof.
  intros [_ _ _ _ Hva Hun Hpr Hwh] He Hres. destruct (answered_same c) as (Ee & Ea & Ep & Ew & _). unfold reply_result.
  cbn [cc_error set_error]. rewrite Ee, He. destruct (success m) eqn:Es.
  - destruct (Hres eq_refl _ Hwh) as (z & Ez). rewrite (is_success m _ Es). cbn [re_status set_re_status].
    change (RPC_SUCCESS =? RPC_SUCCESS) with true. cbn [negb cc_auth set_verf set_error cc_verf cc_reply_proc]. rewrite Ea, Hva, Ep, Hpr.
    cbn [negb]. rewrite Hun. unfold authnone_wrap. cbn [cc_reply_where set_verf set_error]. rewrite Ew, Ez. cbn [obind].
    eexists. split; [done|]. split; [by rewrite (is_success m _ Es)|done].
  - rewrite (proj2 (Z.eqb_neq _ _) (not_success m _ Es)). cbn [negb]. eexists. split; [done|]. split; [done|]. by rewrite Es.
Qed.

(** What the client does with the records of its server. *)
Fixpoint receive (where_ : R) (m0 : rpc_msg R) (x : vc_xprt) (ds : list XDRQ) s : out connection :=
  match ds with
  | [] => Ret s
  | d :: ds =>
      let! (r, _) := svc_vc_decode where_ m0 d x in
      match r with
      | ProcessReply m y => let! (_, s) := clnt_req_process_reply s m y in receive where_ m0 x ds s
      | _ => receive where_ m0 x ds s
      end
  end.

Lemma awaits_other s s' W m cc c q cq : reqs s' = <[q := cq]> (reqs s) → q ≠ cc → awaits s W m cc c → awaits s' W m cc c.
Proof. intros E Hne []. constructor; try done. by rewrite E, lookup_insert_ne. Qed.

Lemma answers_delivered where_ m0 x ds ms : Forall2 (told where_ m0 x) ds ms → ∀ s W X, conn_ok s W X →
  NoDup (rm_xid <$> ms) → (∀ m, m ∈ ms → ∃ cc c, awaits s W m cc c) →
  ∃ s' X', receive where_ m0 x ds s = Ret s' ∧ conn_ok s' W X' ∧
    (∀ m cc c, m ∈ ms → awaits s W m cc c → ∃ c', reqs s' !! cc = Some c' ∧ got_answer m c c') ∧
    (∀ cc, (∀ m c, m ∈ ms → ¬ awaits s W m cc c) → reqs s' !! cc = reqs s !! cc).
Proof.
  induction 1 as [|d m ds ms (m' & y & Ed & Hx & He & Hres) _ IH]; intros s W X Hok Hnd Hw.
  { exists s, X. split; [done|]. split; [done|]. split; [|done]. intros m cc c Hm. by apply not_elem_of_nil in Hm. }
  rewrite fmap_cons in Hnd. apply NoDup_cons in Hnd as [Hnm Hnd].
  destruct (Hw m) as (cc & c & Haw); [by left|]. pose proof Haw as [Hcc Hc Hxid Hcl _ _ _ _].
  destruct (reply_result_answer s W m cc c m' y Haw He Hres) as (c' & Er & Hgot).
  destruct (process_reply_ok s W X m' y cc c Hok Hcc Hc) as [[? _]|(_ & tree & Ep & Hok')]; [congruence|congruence|].
  specialize (Hok' c' Er). set (s1 := set_expires tree (put s cc c')) in *.
  assert (Hr1 : reqs s1 = <[cc := c']> (reqs s)) by done.
  assert (Hother : ∀ m2 q cq, m2 ∈ ms → awaits s W m2 q cq → cc ≠ q).
  { intros m2 q cq Hm2 [Hq Hcq Hxq _ _ _ _ _] <-. apply Hnm, list_elem_of_fmap. exists m2. split; [congruence|done]. }
  destruct (IH s1 W _ Hok' Hnd) as (s' & X' & E & Hokf & Hdone & Hrest).
  { intros m2 Hm2. destruct (Hw m2) as (q & cq & Hq); [by right|]. exists q, cq. eapply awaits_other; eauto. }
  exists s', X'. cbn [receive]. rewrite Ed. cbn [obind]. rewrite Ep, Er. cbn [obind]. split; [done|]. split; [done|].
  assert (Hnone : ∀ m2 c2, m2 ∈ ms → ¬ awaits s1 W m2 cc c2).
  { intros m2 c2 Hm2 [_ Hc2 Hx2 _ _ _ _ _]. rewrite Hr1, lookup_insert_eq in Hc2. injection Hc2 as <-.
    apply Hnm, list_elem_of_fmap. exists m2. split; [|done]. rewrite <- Hx2, <- Hxid. symmetry.
    etrans; [eapply reply_result_keeps, Er|]. by apply answered_same. }
  assert (Hkeep : reqs s' !! cc = Some c') by (by rewrite Hrest, Hr1, lookup_insert_eq).
  split.
  - intros m2 q cq [->|Hm2]%elem_of_cons Hq; [|].
    + assert (q = cc) as -> by (destruct Hq; eapply (waiting_inj s W X q cc cq c); try done; congruence).
      assert (cq = c) as -> by (destruct Hq; congruence). by exists c'.
    + apply Hdone; [done|]. eapply awaits_other; eauto.
  - intros q Hq. rewrite Hrest.
    + rewrite Hr1, lookup_insert_ne; [done|]. intros <-. apply (Hq m c); [by left|done].
    + intros m2 c2 Hm2 H2. destruct (decide (q = cc)) as [->|Hne]; [by eapply Hnone|].
      apply (Hq m2 c2); [by right|]. destruct H2 as [? H2 ? ? ? ? ? ?]. constructor; try done.
      by rewrite Hr1, lookup_insert_ne in H2.
Qed.

(** Bytes that tell an answer are decoded once, whatever the error was before. *)
Lemma tells_told m w where_ m0 x d : tells g S m w → msg_ok m0 → ioq_in (set_op XDR_DECODE d) 0 w → told where_ m0 x d m.
Proof.
  intros [_ Hw] Hok Hd. apply (init_ok where_) in Hok.
  destruct (Hw _ _ (mk_err 0 0 (mk_versions 0 0) 0 0) Hok Hd) as (m' & y & Edec & Hdir & Hx & _ & Hres).
  exists m', y. split; [unfold svc_vc_decode; rewrite Edec; cbn [obind negb]; by rewrite Hdir|]. split; [done|]. split; [|done].
  intros e. destruct (Hw _ _ e Hok Hd) as (m2 & y2 & Edec2 & _ & _ & He & _). congruence.
Qed.

(** Nothing is left to send, and the other side gets to read it all. *)
Definition drained (ch : out_chan) (envs : list recv_env) : Prop :=
  oc_destroyed ch = false ∧ oc_queue ch = [] ∧
  (length (os_wire (oc_sock ch)) ≤ length (filter (λ e, blocked e = false) envs))%nat.

Lemma answers_told zp arm ok send_max sevs (where_ : R) m0 pagesz maxrec h remote envs :
  Forall (answer_wf S) (answers_of sevs) → msg_ok m0 → Forall patient envs →
  ∃ ss, srv_run g zp arm send_max (new_chan ok) sevs = Ret ss ∧ let ch := ost_chan ss in
    (drained ch envs → ∃ ds x', vc_run pagesz maxrec envs (vc_accepted h remote (os_wire (oc_sock ch))) = Ret (ds, x') ∧
       Forall2 (told where_ m0 x') ds (answers_of sevs)).
Proof.
  intros Hm Hok Hp. destruct (srv_run_out g S zp arm send_max sevs Hm) as (evs' & ws & Hr & Ht & E).
  destruct (run_from_new zp arm ok evs' ws Hr) as (ss & Es & [Ho _ _ _] & _).
  exists ss. split; [by rewrite E|]. cbv zeta. intros (Hd & Hq & Hl).
  destruct (frames_received pagesz maxrec h remote _ ws envs Ho Hd Hq) as (ds & x' & Er & Hds); [|done|done|].
  { eapply Forall2_Forall_r; [exact Ht|]. apply Forall_true. intros m w Hw. apply Hw. }
  exists ds, x'. split; [done|]. eapply Forall2_meet; [exact Hds|exact Ht|]. intros d w m Hin Hw. by eapply tells_told.
Qed.

Lemma awaits_resent s s' W m cc c : resent s s' → awaits s W m cc c → ∃ c', awaits s' W m cc c'.
Proof.
  intros [_ Hs] []. destruct (Hs _ _ aw_req0) as [st Hc]. exists (set_status st c). by constructor.
Qed.
End Answers.

(** ** Control *)

Lemma mcall_words (pre post : list Z) v w pos : is_u 32 v → let off := Zlen pre in
  mcall_get (mk_cx (pre ++ be32 v ++ post) pos) off = v ∧
  mcall_put (mk_cx (pre ++ be32 v ++ post) pos) off w = mk_cx (pre ++ be32 w ++ post) pos.
Proof.
  intros Hv off. unfold mcall_get, mcall_put, off. cbn [cx_mcallc cx_mpos]. replace (Z.to_nat (Zlen pre + 4)) with (length pre + 4)%nat by lia.
  rewrite Nat2Z.id, drop_app_length, take_app_length, <- drop_drop, drop_app_length. split; [|done].
  change (take 4 (be32 v ++ post)) with (be32 v). by rewrite be_dec_be32, wrapu_id.
Qed.

(** The version and the program of a handle are those it was last given, and are those of its
    next calls. *)
Theorem control_header ct prog vers v w : header_of (ct_cx ct) prog vers → is_u 32 prog → is_u 32 vers → is_u 32 v →
  (clnt_vc_control ct CLGET_VERS (IWord w) = Ret (true, IWord vers, ct) ∧
   clnt_vc_control ct CLGET_PROG (IWord w) = Ret (true, IWord prog, ct)) ∧
  (∃ cx, clnt_vc_control ct CLSET_VERS (IWord v) = Ret (true, IWord v, set_cx cx ct) ∧ header_of cx prog v) ∧
  (∃ cx, clnt_vc_control ct CLSET_PROG (IWord v) = Ret (true, IWord v, set_cx cx ct) ∧ header_of cx v vers).
Proof.
  destruct ct as [[buf pos] xid close fd raddr]. intros (x & tl & E & E2) Hp Hvs Hv. cbn in E, E2. subst.
  unfold clnt_vc_control. cbn [Z.eqb Pos.eqb CLGET_VERS CLGET_PROG CLSET_VERS CLSET_PROG CLSET_FD_CLOSE CLSET_FD_NCLOSE CLGET_SERVER_ADDR CLGET_FD CLGET_SVC_ADDR CLGET_XID CLSET_XID ct_cx put_word get_word obind].
  destruct (mcall_words (be32 x ++ be32 CALL ++ be32 RPC_MSG_VERSION) (be32 vers ++ tl) prog v 20 Hp) as [Eg Ep].
  destruct (mcall_words (be32 x ++ be32 CALL ++ be32 RPC_MSG_VERSION ++ be32 prog) tl vers v 20 Hvs) as [Eg' Ep'].
  repeat rewrite <- app_assoc in Eg, Ep. repeat rewrite <- app_assoc in Eg', Ep'. change (Zlen (be32 x ++ be32 CALL ++ be32 RPC_MSG_VERSION)) with 12 in Eg, Ep.
  change (Zlen (be32 x ++ be32 CALL ++ be32 RPC_MSG_VERSION ++ be32 prog)) with 16 in Eg', Ep'.
  rewrite Eg, Eg', Ep, Ep'. split; [done|]. split; eexists; (split; [done|]); by exists x, tl.
Qed.

(** A caller that asks for the id 2 for its next call gets 16777217. *)
Theorem set_xid_swapped cx close fd raddr xid : ∃ ct, clnt_vc_control (mk_ct cx xid close fd raddr) CLSET_XID (IWord 2) = Ret (true, IWord 2, ct) ∧
  u32 (ct_xid ct + 1) = 16777217.
Proof. eexists. split; [by vm_compute|]. by vm_compute. Qed.
