(* ===== verification/RpcEndToEnd.v ===== *)
(** * A remote procedure call from end to end

    The clients of src/auth_none.c and src/auth_unix.c on the stream of src/clnt_vc.c, the
    server that hears them and the answers that come back. *)
From stdpp Require Import base gmap list.
From Stdlib Require Import ZArith Lia.
From S2P Require Import Prelude Machine XdrHandle XdrStream XdrMem XdrIoq XdrIoqFacts XdrInline XdrWire XdrCodecs XdrIoqTheorems RpcMsg RpcMsgFacts RpcMsgTheorems SvcAuth SvcIoqZc SvcIoqZcTheorems SvcIoq SvcIoqFacts SvcIoqTheorems SvcVc SvcVcFacts SvcVcTheorems SvcVcRecords StreamTheorems SvcVcReply SvcVcReplyTheorems RbTree RbTable ClntReq ClntReqFacts ClntReqTheorems ClntAuth ClntVc ClntVcTheorems.

(** ** The authenticators of the library *)

Lemma authnone_authenticator `{!Allocator} addr ap : addr_ok addr → authnone_ncreate addr = Ret ap →
  Authenticator (authnone_marshal ap) (an_cred ap) _null_auth.
Proof.
  intros Ha E. destruct (authnone_sends addr Ha) as (ap' & E' & Hc & Hp). assert (ap' = ap) as -> by congruence.
  rewrite Hc. split; [apply Hp|apply null_auth_wf|apply null_auth_wf|by repeat constructor|done].
Qed.

Lemma authunix_authenticator `{!Allocator} au aup : au_ok au aup → oa_flavor (ah_cred au) ≠ RPCSEC_GSS →
  Authenticator (authunix_marshal au) (ah_cred au) _null_auth.
Proof.
  intros [Hs Hc Hb Hv _ _ _] Hf. unfold sending in Hs. rewrite Hv in Hs.
  split; [|done|apply null_auth_wf|by repeat constructor|done].
  unfold authunix_marshal. rewrite Hs. apply puts_bytes.
Qed.

(** ** A remote procedure call *)

Section Rpc.
Context `{!Allocator} {A R : Type} (f : xdrproc xdr_ioq A) (SA : spec A) {CA : Codec f SA}.
Context (g : xdrproc xdr_ioq R) (SR : spec R) {CR : Codec g SR}.
Context (marshal : XDRQ → out (bool * XDRQ)) (cred verf : opaque_auth) {Am : Authenticator marshal cred verf}.

(** A request for a call: set up and waiting, and both the call and its answer are of one
    fragment. *)
Record callable (prog vers : Z) (answer : Z * Z * A → rpc_msg R) (s : @conn xdr_ioq R) (W : list Z) (r : Z * Z * A) : Prop := {
  ca_waits : ∃ c, awaits g SR s W (answer (call_of s r)) r.1.1 c;
  ca_call : call_fits SA cred verf prog vers (call_of s r);
  ca_answer : answer_wf SR (answer (call_of s r));
  ca_xid : rm_xid (answer (call_of s r)) = (call_of s r).1.1;
}.

Lemma answers_distinct prog vers answer s W X rs : conn_ok s W X → NoDup rs.*1.*1 → Forall (callable prog vers answer s W) rs →
  NoDup ((λ r, rm_xid (answer (call_of s r))) <$> rs).
Proof.
  intros Hok Hnd Hca. induction Hca as [|r rs [(c & Haw) _ _ _] Hca IH]; [constructor|]. rewrite !fmap_cons in Hnd. apply NoDup_cons in Hnd as [Hn Hnd].
  rewrite fmap_cons. apply NoDup_cons. split; [|by apply IH]. intros Hin. apply list_elem_of_fmap in Hin as (q & Hx & Hq).
  rewrite Forall_forall in Hca. destruct (Hca q Hq) as [(cq & Hawq) _ _ _]. destruct Haw, Hawq.
  assert (r.1.1 = q.1.1) as E by (eapply (waiting_inj s W X _ _ c cq); try done; congruence).
  apply Hn. rewrite E. by do 2 apply list_elem_of_fmap_2.
Qed.

Lemma answered_each answer (s : @conn xdr_ioq R) (rs : list (Z * Z * A)) (ms : list (rpc_msg R)) r : ms ≡ₚ answer <$> (call_of s <$> rs) → r ∈ rs → answer (call_of s r) ∈ ms.
Proof. intros -> Hr. by do 2 apply list_elem_of_fmap_2. Qed.

(** C1. A remote procedure call, from end to end.  A client has set up requests on a connection
    and calls them on a stream; [answer] says what the server answers to a call.  However the
    sockets take and deliver the bytes and however the runs of the writers interleave: every
    call is encoded and queued; once the client's queue is empty, the server that is given the
    bytes in any pieces hears exactly these calls in order, with their transaction ids,
    program, version, procedure, credential and arguments; and if it answers each of them, in
    whatever order, then once its own queue is empty the client that is given the bytes in any
    pieces finds for each answer the request it belongs to, and every request ends with the
    status of its answer and, for a success, with the results the server encoded.

    The conditions: the numbers of the calls have 32 bits and their arguments have a wire
    form; the authenticator is not RPCSEC_GSS, writes a well-formed credential and verifier,
    accepts every verifier of a reply and leaves results as they are; the requests are
    different, set up and waiting, not answered before, and have a fresh place for their
    results; an answer is a reply the protocol knows with the transaction id of its call, and
    the length of its verifier is a multiple of 4; a call and an answer are each of one
    fragment, LAST_FRAG_XDR_UNITS = 2 ^ 31 - 4 bytes at most; neither sender's transport is
    destroyed before its queue is empty.  The receivers are [patient]:
    a read of a fragment header, which asks for all of it, gets all of it or has to wait; a
    read of data brings some bytes or has to wait; and neither the event loop nor the callback
    for the address fails.  They are run once for every byte at least, the runs that have to
    wait not counted. *)
Theorem rpc_end_to_end prog vers answer s W X evs addr xid0 (junk : rpc_msg R) cx
    zp arm ok send_max (where_ : R) m0 pagesz maxrec h remote envs
    zp' arm' ok' send_max' m1 pagesz' maxrec' h' remote' envs' :
  addr_ok addr → is_u 32 xid0 → is_u 32 prog → is_u 32 vers → clnt_vc_header addr xid0 prog vers junk = Ret (Some cx) →
  conn_ok s W X → NoDup (made evs).*1.*1 → Forall (callable prog vers answer s W) (made evs) →
  msg_ok m0 → msg_ok m1 → Forall patient envs → Forall patient envs' →
  ∃ cs, cl_run f marshal cred zp arm send_max (mk_cls cx s (new_chan ok)) evs = Ret cs ∧
    (drained (ost_chan (cl_out cs)) envs →
       ∃ ds x, vc_run pagesz maxrec envs (vc_accepted h remote (os_wire (oc_sock (ost_chan (cl_out cs))))) = Ret (ds, x) ∧
         Forall2 (heard f SA cred verf prog vers where_ m0 x) ds (call_of s <$> made evs)) ∧
    ∀ sevs, answers_of sevs ≡ₚ answer <$> (call_of s <$> made evs) →
      ∃ ss, srv_run g zp' arm' send_max' (new_chan ok') sevs = Ret ss ∧
        (drained (ost_chan ss) envs' →
           ∃ ds x s', vc_run pagesz' maxrec' envs' (vc_accepted h' remote' (os_wire (oc_sock (ost_chan ss)))) = Ret (ds, x) ∧
             receive where_ m1 x ds (cl_conn cs) = Ret s' ∧
             ∀ r, r ∈ made evs → ∃ c c', reqs (cl_conn cs) !! r.1.1 = Some c ∧ reqs s' !! r.1.1 = Some c' ∧
               got_answer (answer (call_of s r)) c c').
Proof.
  intros Ha Hx0 Hp Hvs Ecx Hok Hnd Hca Hm0 Hm1 Hen Hen'.
  destruct (clnt_vc_header_ok addr xid0 prog vers junk Ha Hx0 Hp Hvs) as (cx' & E' & Hcx). assert (cx' = cx) as -> by congruence.
  destruct (calls_heard f SA marshal cred verf prog vers zp arm ok send_max evs cx s where_ m0 pagesz maxrec h remote envs Hp Hvs Hcx)
    as (cs & E & Hres & Hheard); [|done|done|].
  { eapply Forall_impl; [exact Hca|]. intros r [(c & Haw) Hf _ _]. split; [destruct Haw; by eexists|done]. }
  exists cs. split; [done|]. split; [by intros (Hd & Hq & Hl); apply Hheard|]. intros sevs Hperm.
  assert (Hwf : Forall (answer_wf SR) (answers_of sevs)).
  { rewrite Hperm. apply Forall_fmap, Forall_fmap. eapply Forall_impl; [exact Hca|]. by intros r []. }
  destruct (answers_told g SR zp' arm' ok' send_max' sevs where_ m1 pagesz' maxrec' h' remote' envs' Hwf Hm1 Hen') as (ss & Es & Ht).
  exists ss. split; [done|]. intros Hdr. destruct (Ht Hdr) as (ds & x & Ev & Htold). exists ds, x.
  destruct (answers_delivered g SR where_ m1 x ds (answers_of sevs) Htold (cl_conn cs) W X) as (s' & X' & Er & _ & Hdone & _).
  - by apply (proj1 Hres).
  - rewrite Hperm, <- !list_fmap_compose. by eapply answers_distinct.
  - intros m Hm. rewrite Hperm in Hm. apply list_elem_of_fmap in Hm as (r & -> & Hr). apply list_elem_of_fmap in Hr as (q & -> & Hq).
    rewrite Forall_forall in Hca. destruct (Hca q Hq) as [(c & Haw) _ _ _].
    destruct (awaits_resent g SR _ _ _ _ _ _ Hres Haw) as (c' & Haw'). by exists q.1.1, c'.
  - exists s'. split; [done|]. split; [done|]. intros r Hr.
    rewrite Forall_forall in Hca. destruct (Hca r Hr) as [(c & Haw) _ _ _].
    destruct (awaits_resent g SR _ _ _ _ _ _ Hres Haw) as (c1 & Haw'). pose proof (aw_req _ _ _ _ _ _ _ Haw') as Hc1.
    destruct (Hdone _ _ _ (answered_each _ _ _ _ _ Hperm Hr) Haw') as (c' & Hc' & Hgot). by exists c1, c'.
Qed.
End Rpc.

(** ** An example *)

(** A client without security asks for a name: the request at 1, id 8, five seconds to answer. *)
Definition name_auth : @AUTH xdr_ioq (ptr (list Z)) := mk_AUTH (λ _, true) true authnone_wrap.
Definition name_request (O := @ioq_ops bump) proc refs : @clnt_req xdr_ioq (ptr (list Z)) :=
  mk_req name_auth proc Pnull _null_auth (mk_ts 0 0) (mk_err 0 0 (mk_versions 0 0) 0 0) 0 0 0 refs 0.
Definition name_proc : xdrproc xdr_ioq (ptr (list Z)) := @xdr_string _ (@ioq_ops bump) 32.
Definition name_filled : @conn xdr_ioq (ptr (list Z)) :=
  let node := mk_node None None None false 0 in
  clnt_req_fill (conn_init 7) 1 (name_request None 0) node node name_auth (Some name_proc) Pnull.
Definition name_conn : @conn xdr_ioq (ptr (list Z)) :=
  match clnt_req_setup name_filled 1 (mk_ts 5 0) with Ret (_, s) => s | _ => name_filled end.
Definition name_waiting := fresh_call (mk_ts 5 0) 8 (name_request (Some name_proc) 1).

Lemma name_filled_at : reqs name_filled !! 1 = Some (name_request (Some name_proc) 1).
Proof. apply lookup_insert_eq. Qed.

Lemma name_conn_ok : conn_ok name_conn [1] [] ∧ reqs name_conn !! 1 = Some name_waiting.
Proof.
  assert (Hf : conn_ok name_filled [] []).
  { apply clnt_req_fill_ok; try done. apply (ci_ok _ _ _ _ (@init_inv xdr_ioq (ptr (list Z)) 7)). }
  assert (Hn : (1 : Z) ∉ ([] : list Z)) by apply not_elem_of_nil.
  destruct (clnt_req_setup_ok name_filled [] [] 1 _ _ (mk_ts 5 0) Hf name_filled_at Hn Hn eq_refl)
    as [(s & c & E & _ & _ & _ & _ & Hbad)|(s & W & E & Hok & HW & _ & Hr & _)].
  - exfalso. destruct Hbad as [H|(q & cq & Hq & _)]; [by vm_compute in H|by apply not_elem_of_nil in Hq].
  - apply Permutation_singleton_r in HW as ->. unfold name_conn. rewrite E. split; [done|]. rewrite Hr. apply lookup_insert_eq.
Qed.

(** The call, and the answer to it. *)
Definition name_calls : list (@cl_event Z) := [Call 1 3 42 ∅ 1; Flush false [Sent 5; Sent 1000; Sent 1000; Sent 1000] []].
Definition name_answer (call : Z * Z * Z) : rpc_msg (ptr (list Z)) := RpcMsg.set_xid call.1.1 a_name.
Definition name_answers : list (@srv_event (ptr (list Z))) :=
  [Answer (name_answer (8, 3, 42)) ∅ 1 [Sent 3] []; Again false [Sent 1000; Sent 2; Sent 1000; Sent 1000] []].

Lemma name_call : call_of name_conn (1, 3, 42) = (8, 3, 42).
Proof. unfold call_of, xid_of. cbn [fst snd]. by rewrite (proj2 name_conn_ok). Qed.

Lemma name_made : call_of name_conn <$> made name_calls = [(8, 3, 42)].
Proof. change (made name_calls) with [(1, 3, 42) : Z * Z * Z]. by rewrite list_fmap_singleton, name_call. Qed.

Lemma name_callable : Forall (@callable bump Z (ptr (list Z)) uint32_spec name_proc (string_spec 32) _null_auth _null_auth 100000 2
  name_answer name_conn [1]) (made name_calls).
Proof.
  constructor; [|constructor]. constructor; rewrite name_call.
  - exists name_waiting. split; [by left|apply name_conn_ok|done..].
  - split; [done..|]. rewrite LAST_FRAG_XDR_UNITS_eq. by vm_compute.
  - apply accepted_answer; try done; try (by vm_compute); try (rewrite LAST_FRAG_XDR_UNITS_eq; by vm_compute).
    intros _. exists [103; 97; 110; 101; 115; 104; 97]. split_and!; try done; repeat constructor; lia.
  - done.
Qed.

(** What the client has and what it makes of it. *)
Definition name_ap : andata := match authnone_ncreate 64 with Ret ap => ap | _ => mk_an _null_auth _null_auth [] 0 end.
Definition name_cx : cx_data :=
  match clnt_vc_header 64 7 100000 2 empty_msg with Ret (Some cx) => cx | _ => mk_cx [] 0 end.
Definition name_run : out (@cl_state (ptr (list Z))) :=
  @cl_run bump Z (ptr (list Z)) (@xdr_uint32_t _ (@ioq_ops bump)) (@authnone_marshal _ (@ioq_ops bump) name_ap) _null_auth (mk_zp false 0) true 65536
    (mk_cls name_cx name_conn (new_chan false)) name_calls.
Definition name_served : out out_state :=
  @srv_run bump _ name_proc (mk_zp false 0) true 65536 (new_chan false) name_answers.

Lemma name_drained : match name_served with Ret ss => drained (ost_chan ss) (replicate 60 eager) | _ => False end.
Proof. vm_compute. split_and!; [done|done|lia]. Qed.

Lemma rpc_end_to_end_witness (O := @ioq_ops bump) : ∃ cs ss ds x s' c', name_run = Ret cs ∧ name_served = Ret ss ∧
  @vc_run bump 4096 65536 (replicate 60 eager) (vc_accepted ∅ (mk_sa AF_INET [] []) (os_wire (oc_sock (ost_chan ss)))) = Ret (ds, x) ∧
  @receive bump _ Pnull empty_msg x ds (cl_conn cs) = Ret s' ∧ reqs s' !! 1 = Some c' ∧
  re_status (cc_error c') = RPC_SUCCESS ∧ cc_reply_where c' = some_name.
Proof.
  assert (Ha : addr_ok 64) by done. assert (H7 : is_u 32 7) by done. assert (Hp : is_u 32 100000) by done. assert (H2 : is_u 32 2) by done.
  assert (Hen : Forall patient (replicate 60 eager)) by (apply Forall_replicate; by split_and!; cbn; auto).
  assert (CR := @string_codec _ (@ioq_ops bump) _ _ 32 ltac:(done) ltac:(done)).
  assert (Eap : authnone_ncreate 64 = Ret name_ap) by (vm_compute; reflexivity).
  assert (Am := @authnone_authenticator bump 64 name_ap Ha Eap).
  assert (Ec : an_cred name_ap = _null_auth) by (vm_compute; reflexivity). rewrite Ec in Am.
  assert (Ecx : clnt_vc_header 64 7 100000 2 empty_msg = Ret (Some name_cx)) by (vm_compute; reflexivity).
  destruct (@rpc_end_to_end bump Z (ptr (list Z)) xdr_uint32_t uint32_spec uint32_codec name_proc (string_spec 32)
    CR (authnone_marshal name_ap) _null_auth _null_auth Am 100000 2 name_answer name_conn [1] [] name_calls
    64 7 empty_msg name_cx (mk_zp false 0) true false 65536 Pnull empty_msg 4096 65536 ∅ (mk_sa AF_INET [] []) (replicate 60 eager)
    (mk_zp false 0) true false 65536 empty_msg 4096 65536 ∅ (mk_sa AF_INET [] []) (replicate 60 eager)
    Ha H7 Hp H2 Ecx (proj1 name_conn_ok) (NoDup_singleton _) name_callable empty_msg_ok empty_msg_ok Hen Hen)
    as (cs & E & _ & Hs). clear Ecx Eap Ec.
  destruct (Hs name_answers) as (ss & Es & Hd); [rewrite name_made; reflexivity|].
  assert (Hdr := name_drained). unfold name_served in Hdr. rewrite Es in Hdr.
  destruct (Hd Hdr) as (ds & x & s' & Ev & Er & Hgot).
  destruct (Hgot (1, 3, 42)) as (c & c' & _ & Hc' & He & Hw); [by left|]. exists cs, ss, ds, x, s', c'.
  split; [exact E|]. split; [exact Es|]. split; [exact Ev|]. split; [exact Er|]. split; [exact Hc'|].
  rewrite name_call in He, Hw. rewrite is_success in He by done. rewrite He. split; [done|]. by rewrite Hw.
Defined.
