(* ===== verification/SvcXprt.v ===== *)
(** * Transports, their references and their table (src/svc_xprt.c)

    Transports are counted objects that a table finds by their descriptor.  The table is a
    red-black tree for each of a number of partitions; it owns the reference a transport is
    made with until the transport is destroyed.  A function that lets go of a lock is split
    there.  In the build without RDMA, for transports of src/svc_vc.c. *)
From stdpp Require Import base gmap list.
From Stdlib Require Import ZArith Lia.
From S2P Require Import Prelude Machine RbTree RbTreeTheorems RbTable.

Definition SVC_XPRT_PARTITIONS : Z := 193.
Definition SVC_XPRT_FLAG_INITIAL : Z := 0x4.
Definition SVC_XPRT_FLAG_INITIALIZED : Z := 0x8.
Definition SVC_XPRT_FLAG_CLOSE : Z := 0x10.
Definition SVC_XPRT_FLAG_DESTROYING : Z := 0x20.
Definition SVC_XPRT_FLAG_RELEASING : Z := 0x40.
Definition SVC_XPRT_FLAG_UREG : Z := 0x80.
Definition SVC_XPRT_TREE_LOCKED : Z := 0x100.
Definition SVC_XPRT_FLAG_READY : Z := 0x400.
Definition SVC_XPRT_FLAG_DESTROYED : Z := Z.lor SVC_XPRT_FLAG_DESTROYING SVC_XPRT_FLAG_RELEASING.
Definition RPC_ANYFD : Z := -1.

(** [xp_ops] says whether the operations are set; [recv_lock] whether the lock of the record
    is held; [recv_ts] is the second of the last event. *)
Record svcxprt := mk_xprt {
  xp_fd : Z;
  xp_fd_send : Z;
  xp_flags : Z;
  xp_refcnt : Z;
  xp_unique_id : Z;
  xp_ops : bool;
  xp_parent : option Z;
  recv_lock : bool;
  recv_ts : Z;
}.

Definition set_fd v x := mk_xprt v (xp_fd_send x) (xp_flags x) (xp_refcnt x) (xp_unique_id x) (xp_ops x) (xp_parent x) (recv_lock x) (recv_ts x).
Definition set_flags v x := mk_xprt (xp_fd x) (xp_fd_send x) v (xp_refcnt x) (xp_unique_id x) (xp_ops x) (xp_parent x) (recv_lock x) (recv_ts x).
Definition set_refcnt v x := mk_xprt (xp_fd x) (xp_fd_send x) (xp_flags x) v (xp_unique_id x) (xp_ops x) (xp_parent x) (recv_lock x) (recv_ts x).
Definition set_ops v x := mk_xprt (xp_fd x) (xp_fd_send x) (xp_flags x) (xp_refcnt x) (xp_unique_id x) v (xp_parent x) (recv_lock x) (recv_ts x).
Definition set_parent v x := mk_xprt (xp_fd x) (xp_fd_send x) (xp_flags x) (xp_refcnt x) (xp_unique_id x) (xp_ops x) v (recv_lock x) (recv_ts x).
Definition set_lock v x := mk_xprt (xp_fd x) (xp_fd_send x) (xp_flags x) (xp_refcnt x) (xp_unique_id x) (xp_ops x) (xp_parent x) v (recv_ts x).

(** The transports in memory, the trees with the nodes of the transports that belong to
    each, the counters, the destroy tasks given to the pool and the descriptors closed. *)
Record xworld := mk_xw {
  xprts : gmap Z svcxprt;
  xtrees : list opr_rbtree;
  connections : Z;
  xprt_unique_id : Z;
  tasks : list Z;
  closed : list Z;
}.

Definition set_xprts v w := mk_xw v (xtrees w) (connections w) (xprt_unique_id w) (tasks w) (closed w).
Definition set_xtrees v w := mk_xw (xprts w) v (connections w) (xprt_unique_id w) (tasks w) (closed w).
Definition set_connections v w := mk_xw (xprts w) (xtrees w) v (xprt_unique_id w) (tasks w) (closed w).
Definition set_unique_id v w := mk_xw (xprts w) (xtrees w) (connections w) v (tasks w) (closed w).
Definition set_tasks v w := mk_xw (xprts w) (xtrees w) (connections w) (xprt_unique_id w) v (closed w).
Definition set_closed v w := mk_xw (xprts w) (xtrees w) (connections w) (xprt_unique_id w) (tasks w) v.

Definition any_of (flags bits : Z) : bool := negb (Z.land flags bits =? 0).

(** [xprt->f] and [xprt->f = v]. *)
Definition xprt_at (w : xworld) (x : Z) : out svcxprt := access (xprts w !! x).
Definition upd_xprt (w : xworld) (x : Z) (f : svcxprt → svcxprt) : out xworld :=
  let! c := xprt_at w x in Ret (set_xprts (<[x := f c]> (xprts w)) w).

(** The flags before, and after, a change of bits. *)
Definition set_bits (w : xworld) (x bits : Z) : out (Z * xworld) :=
  let! c := xprt_at w x in
  let! w := upd_xprt w x (set_flags (Z.lor (xp_flags c) bits)) in Ret (xp_flags c, w).
Definition clear_bits (w : xworld) (x bits : Z) : out (Z * xworld) :=
  let! c := xprt_at w x in
  let! w := upd_xprt w x (set_flags (Z.land (xp_flags c) (Z.lnot bits))) in Ret (xp_flags c, w).

(** The lock of a record.  Taking it is modelled where it is free. *)
Definition rpc_dplx_rli (w : xworld) (x : Z) : out xworld := upd_xprt w x (set_lock true).
Definition rpc_dplx_rui (w : xworld) (x : Z) : out xworld :=
  let! c := xprt_at w x in if recv_lock c then upd_xprt w x (set_lock false) else Ub.

(** ** The trees *)

Definition fd_of (m : gmap Z svcxprt) (p : Z) : Z := match m !! p with Some c => xp_fd c | None => 0 end.
Definition part (fd : Z) : nat := Z.to_nat (u32 fd mod SVC_XPRT_PARTITIONS).
Definition tree_of (w : xworld) (fd : Z) : out opr_rbtree := access (xtrees w !! part fd).
Definition set_tree (fd : Z) (t : opr_rbtree) (w : xworld) : xworld := set_xtrees (<[part fd := t]> (xtrees w)) w.

(** The key is a record on the stack, at address 0, where no transport is. *)
Definition xprt_find (w : xworld) (fd : Z) : out nptr :=
  let! t := tree_of w fd in
  opr_rbtree_lookup (svc_xprt_fd_cmpf (λ p, if p =? 0 then fd else fd_of (xprts w) p)) t 0.

(** svc_xprt_init, for a table that is not initialized. *)
Definition svc_xprt_init : xworld :=
  mk_xw ∅ (replicate (Z.to_nat SVC_XPRT_PARTITIONS) (opr_rbtree_init ∅)) 0 1 [] [].

(** ** References *)

Definition svc_ref_it (w : xworld) (x : Z) : out xworld :=
  let! c := xprt_at w x in upd_xprt w x (set_refcnt (s32 (xp_refcnt c + 1))).

(** svc_vc_destroy_it, once the queue of the transport is idle. *)
Definition svc_vc_destroy_it (w : xworld) (x : Z) : xworld := set_tasks (x :: tasks w) w.

(** With SVC_RELEASE_FLAG_NONE: [xp_lock] is not held, so there is nothing to unlock. *)
Definition svc_release_it (w : xworld) (x : Z) : out xworld :=
  let! c := xprt_at w x in
  let refs := s32 (xp_refcnt c - 1) in
  let! w := upd_xprt w x (set_refcnt refs) in
  if 0 <? refs then Ret w else
  let! (xp_flags, w) := set_bits w x SVC_XPRT_FLAG_RELEASING in
  if any_of xp_flags SVC_XPRT_FLAG_RELEASING then Ret w else
  if xp_ops c then Ret (svc_vc_destroy_it w x) else Ub.

(** ** Lookup *)

(** The first search, under the lock for reading; a transport that is found is referred to
    before the lock is let go. *)
Definition lookup_read (w : xworld) (fd : Z) : out (nptr * xworld) :=
  let! nv := xprt_find w fd in
  match nv with
  | Some x => let! w := svc_ref_it w x in Ret (Some x, w)
  | None => Ret (None, w)
  end.

(** A number other than 0 without the highest bit. *)
Definition new_unique_id (w : xworld) : Z * xworld :=
  let n := u32 (xprt_unique_id w + 1) in
  let id := Z.land n (Z.ones 31) in
  if id =? 0 then let n := u32 (n + 1) in (Z.land n (Z.ones 31), set_unique_id n w)
  else (id, set_unique_id n w).

(** svc_vc_xprt_setup and the fields set after it: the allocator returned [x], whose node is
    [node]; [now] is the second of the clock. *)
Definition xprt_setup (w : xworld) (fd x now : Z) (node : opr_rbtree_node) : out xworld :=
  let (id, w) := new_unique_id w in
  let! t := tree_of w fd in
  Ret (set_tree fd (set_nodes (<[x := node]> (rb_nodes t)) t)
    (set_xprts (<[x := mk_xprt fd (-1) SVC_XPRT_FLAG_INITIAL 1 id false None false now]> (xprts w)) w)).

(** The second search and the creation, under the lock for writing. *)
Inductive created := Refused | Made (x : Z) | Raced (x : Z).

Definition lookup_write (w : xworld) (max_connections fd x now : Z) (node : opr_rbtree_node) : out (created * xworld) :=
  let! nv := xprt_find w fd in
  match nv with
  | Some x => let! w := svc_ref_it w x in Ret (Raced x, w)
  | None =>
      let n := u32 (connections w + 1) in
      if max_connections <? n then Ret (Refused, w) else
      let! w := xprt_setup (set_connections n w) fd x now node in
      let! w := svc_ref_it w x in
      let! w := rpc_dplx_rli w x in
      let! t := tree_of w fd in
      let! (nv, t) := opr_rbtree_insert (svc_xprt_fd_cmpf (fd_of (xprts w))) t x in
      match nv with
      | Some _ =>
          let! w := rpc_dplx_rui w x in
          let w := set_tree fd (set_nodes (delete x (rb_nodes t)) t) (set_xprts (delete x (xprts w)) w) in
          Ret (Refused, set_connections (u32 (connections w - 1)) w)
      | None => Ret (Made x, set_tree fd t w)
      end
  end.

(** The end of a lookup that has found a transport. *)
Definition lookup_found (w : xworld) (x : Z) : out (nptr * xworld) :=
  let! w := rpc_dplx_rli w x in
  let! c := xprt_at w x in
  let! w := if any_of (xp_flags c) SVC_XPRT_FLAG_READY
            then let! (_, w) := clear_bits w x SVC_XPRT_FLAG_INITIAL in Ret w else Ret w in
  let! w := rpc_dplx_rui w x in
  if any_of (xp_flags c) SVC_XPRT_FLAG_DESTROYED
  then let! w := svc_release_it w x in Ret (None, w)
  else Ret (Some x, w).

(** The whole, where no other thread comes in between; [setup] says whether there is a
    function for it, with what the allocator and the clock then return. *)
Definition svc_xprt_lookup (w : xworld) (max_connections fd : Z) (setup : option (Z * Z * opr_rbtree_node)) : out (nptr * xworld) :=
  let! (nv, w) := lookup_read w fd in
  match nv, setup with
  | Some x, _ => lookup_found w x
  | None, None => Ret (None, w)
  | None, Some (x, now, node) =>
      let! (r, w) := lookup_write w max_connections fd x now node in
      match r with
      | Refused => Ret (None, w)
      | Made x => Ret (Some x, w)
      | Raced x => lookup_found w x
      end
  end.

(** ** Destruction *)

(** Whether the caller takes the lock of the tree itself. *)
Definition takes_lock (c : svcxprt) : bool := negb (any_of (xp_flags c) SVC_XPRT_TREE_LOCKED).

Definition svc_xprt_clear (w : xworld) (x : Z) : out xworld :=
  let! c := xprt_at w x in
  let! t := tree_of w (xp_fd c) in
  let! gen := rd t x n_gen in
  if gen =? 0 then Ret w else
  let w := set_connections (u32 (connections w - 1)) w in
  let! (_, w) := clear_bits w x SVC_XPRT_TREE_LOCKED in
  let! t := opr_rbtree_remove t x in
  Ret (set_tree (xp_fd c) t w).

(** svc_rqst_xprt_unregister for a transport that is on no event channel, [ev_p]; from a
    channel the code would take it next.  RPC_DPLX_LOCKED is not a bit of [xp_flags], so the
    lock is always taken here. *)
Definition svc_rqst_xprt_unregister (w : xworld) (x : Z) : out xworld :=
  let! w := rpc_dplx_rli w x in
  let! w := svc_xprt_clear w x in
  rpc_dplx_rui w x.

(** Whether this is the call that destroys.  It then waits for SVC_XPRT_FLAG_READY ten turns
    at most and goes on in any case: the turns are the time between this piece and the next,
    which reads [xp_ops] as other threads have left it. *)
Definition destroy_begin (w : xworld) (x : Z) : out (bool * xworld) :=
  let! (flags, w) := set_bits w x SVC_XPRT_FLAG_DESTROYING in
  Ret (negb (any_of flags SVC_XPRT_FLAG_DESTROYING), w).

Definition destroy_unlink (w : xworld) (x : Z) : out xworld :=
  let! c := xprt_at w x in
  if xp_ops c then svc_rqst_xprt_unregister w x else Ub.

(** Run without a break.  Between the last two pieces the code calls [xp_unref_user_data], which
    is the application's, and shuts the descriptors down if SVC_XPRT_FLAG_CLOSE is set; both
    leave the counts, the flags and the table alone. *)
Definition svc_destroy_it (w : xworld) (x : Z) : out xworld :=
  let! (first, w) := destroy_begin w x in
  if negb first then Ret w else
  let! w := destroy_unlink w x in
  svc_release_it w x.

(** One run of the task of a transport by the pool. *)
Definition svc_vc_destroy_task (w : xworld) (x : Z) : out xworld :=
  let! c := xprt_at w x in
  if 0 <? xp_refcnt c then Ret w else
  if xp_refcnt c <? 0 then Abort else
  let close_fd := any_of (xp_flags c) SVC_XPRT_FLAG_CLOSE && negb (xp_fd c =? RPC_ANYFD) in
  let w := if close_fd then
      set_closed (closed w ++ xp_fd c :: (if xp_fd_send c =? RPC_ANYFD then [] else [xp_fd_send c])) w else w in
  let w := set_tasks (filter (λ y, y ≠ x) (tasks w)) w in
  let! w := match xp_parent c with Some p => svc_release_it w p | None => Ret w end in
  let! t := tree_of w (xp_fd c) in
  Ret (set_tree (xp_fd c) (set_nodes (delete x (rb_nodes t)) t) (set_xprts (delete x (xprts w)) w)).

(** ** All transports *)

(** svc_rqst_clean_func: whether the transport was destroyed. *)
Definition xprt_idle (now timeout : Z) (c : svcxprt) : bool :=
  xp_ops c && negb (any_of (xp_flags c) (Z.lor SVC_XPRT_FLAG_DESTROYED SVC_XPRT_FLAG_UREG)) &&
  ((recv_ts c =? 0) || negb (now - recv_ts c <? timeout)).

Definition svc_rqst_clean_func (now timeout : Z) (w : xworld) (x : Z) : out (bool * xworld) :=
  let! c := xprt_at w x in
  if xprt_idle now timeout c then let! w := svc_destroy_it w x in Ret (true, w) else Ret (false, w).

Section Foreach.
Variable each_f : xworld → Z → out (bool * xworld).

Definition foreach_done (w : xworld) (x : Z) : out xworld :=
  let! (_, w) := clear_bits w x SVC_XPRT_TREE_LOCKED in svc_release_it w x.

(** The walk through one tree from [n] on: whether it has to start again. *)
Fixpoint foreach_walk (fuel : nat) (w : xworld) (p : nat) (tgen : Z) (n : nptr) : out (bool * xworld) :=
  match n with
  | None => Ret (false, w)
  | Some x =>
      match fuel with
      | O => OutOfFuel
      | S fuel =>
          let! c := xprt_at w x in
          let fd := xp_fd c in
          let! w := svc_ref_it w x in
          let! (_, w) := set_bits w x SVC_XPRT_TREE_LOCKED in
          let! (disposed, w) := each_f w x in
          if disposed : bool then let! w := foreach_done w x in Ret (true, w) else
          let! t := access (xtrees w !! p) in
          let! n := if rb_gen t =? tgen then Ret (Some x)
                    else opr_rbtree_lookup (svc_xprt_fd_cmpf (λ q, if q =? 0 then fd else fd_of (xprts w) q)) t 0 in
          match n with
          | None => let! w := foreach_done w x in Ret (true, w)
          | Some n =>
              let! n := opr_rbtree_next t n in
              let! w := foreach_done w x in
              foreach_walk fuel w p tgen n
          end
      end
  end.

(** One partition: [restarts] is how many times the walk may still begin. *)
Fixpoint foreach_part (restarts : nat) (w : xworld) (p : nat) : out (bool * xworld) :=
  match restarts with
  | O => Ret (false, w)
  | S restarts =>
      let! t := access (xtrees w !! p) in
      let! n := opr_rbtree_first t in
      let! (again, w) := foreach_walk (size (rb_nodes t)) w p (rb_gen t) n in
      if again : bool then foreach_part restarts w p else Ret (true, w)
  end.

Fixpoint foreach_parts (ps : list nat) (w : xworld) : out (Z * xworld) :=
  match ps with
  | [] => Ret (0, w)
  | p :: ps =>
      let! (ok, w) := foreach_part 5 w p in
      if ok : bool then foreach_parts ps w else Ret (1, w)
  end.

Definition svc_xprt_foreach (w : xworld) : out (Z * xworld) := foreach_parts (seq 0 (Z.to_nat SVC_XPRT_PARTITIONS)) w.
End Foreach.

(** svc_xprt_shutdown, where no other thread comes in between, before it releases the trees. *)
Fixpoint shutdown_part (fuel : nat) (w : xworld) (p : nat) : out xworld :=
  let! t := access (xtrees w !! p) in
  let! n := opr_rbtree_first t in
  match n with
  | None => Ret w
  | Some x =>
      match fuel with
      | O => OutOfFuel
      | S fuel =>
          let! t := opr_rbtree_remove t x in
          let! w := svc_destroy_it (set_xtrees (<[p := t]> (xtrees w)) w) x in
          shutdown_part fuel w p
      end
  end.

Fixpoint shutdown_parts (ps : list nat) (w : xworld) : out xworld :=
  match ps with
  | [] => Ret w
  | p :: ps =>
      let! t := access (xtrees w !! p) in
      let! w := shutdown_part (size (rb_nodes t)) w p in
      shutdown_parts ps w
  end.

Definition svc_xprt_shutdown (w : xworld) : out xworld := shutdown_parts (seq 0 (Z.to_nat SVC_XPRT_PARTITIONS)) w.

(** ** Users of lookup *)

(** svc_validate_xprt_list of src/svc.c. *)
Definition svc_validate_xprt_list (w : xworld) (x : Z) : out (bool * xworld) :=
  let! c := xprt_at w x in
  let! (nv, w) := svc_xprt_lookup w 0 (xp_fd c) None in
  let code := bool_decide (nv = Some x) in
  let! w := if code then rpc_dplx_rui w x else Ret w in
  Ret (code, w).

(** makefd_xprt of src/svc_vc.c, as far as references and flags go; [sockinfo] and [netid] are
    the answers about the socket. *)
Definition makefd_xprt (w : xworld) (max_connections fd flags : Z) (setup : option (Z * Z * opr_rbtree_node))
    (sockinfo netid : bool) : out (nptr * xworld) :=
  let! (nv, w) := svc_xprt_lookup w max_connections fd setup in
  match nv with
  | None => Ret (None, w)
  | Some x =>
      let! (xp_flags, w) := set_bits w x (Z.lor flags SVC_XPRT_FLAG_INITIALIZED) in
      if any_of xp_flags SVC_XPRT_FLAG_INITIALIZED then let! w := rpc_dplx_rui w x in Ret (Some x, w) else
      if negb (sockinfo && netid) then
        let! (_, w) := clear_bits w x SVC_XPRT_FLAG_INITIALIZED in
        let! w := rpc_dplx_rui w x in
        let! w := svc_release_it w x in Ret (None, w)
      else let! w := rpc_dplx_rui w x in Ret (Some x, w)
  end.

(** svc_vc_override_ops, and the mark that the transport is ready. *)
Definition svc_vc_override_ops (w : xworld) (x : Z) : out xworld := upd_xprt w x (set_ops true).
Definition xprt_ready (w : xworld) (x : Z) : out xworld := let! (_, w) := set_bits w x SVC_XPRT_FLAG_READY in Ret w.

(** A connection refers to the transport that accepted it. *)
Definition xprt_adopt (w : xworld) (p x : Z) : out xworld :=
  let! w := svc_ref_it w p in upd_xprt w x (set_parent (Some p)).
