(* ===== verification/SvcXprtFacts.v ===== *)
(** * The table of transports: its invariant (src/svc_xprt.c)

    What the trees of the partitions hold together, and what looking up, making, unlinking and
    releasing a transport does to them. *)
From stdpp Require Import base gmap list fin_maps fin_sets sorting.
From Stdlib Require Import ZArith Lia.
From S2P Require Import Prelude Machine RbTree RbTreeTheorems RbTable SvcXprt.

(** ** Access *)

Lemma xprt_at_ok w x c : xprts w !! x = Some c → xprt_at w x = Ret c.
Proof. intros H. unfold xprt_at. by rewrite H. Qed.

Definition put_xprt (w : xworld) (x : Z) (c : svcxprt) : xworld := set_xprts (<[x := c]> (xprts w)) w.

Lemma upd_xprt_ok w x c f : xprts w !! x = Some c → upd_xprt w x f = Ret (put_xprt w x (f c)).
Proof. intros H. unfold upd_xprt. by rewrite (xprt_at_ok w x c). Qed.

Lemma put_xprt_at w x c : xprts (put_xprt w x c) !! x = Some c.
Proof. apply lookup_insert_eq. Qed.

Lemma put_xprt_put w x c c' : put_xprt (put_xprt w x c) x c' = put_xprt w x c'.
Proof. unfold put_xprt. cbn. by rewrite insert_insert_eq. Qed.

Lemma set_bits_ok w x c bits : xprts w !! x = Some c →
  set_bits w x bits = Ret (xp_flags c, put_xprt w x (set_flags (Z.lor (xp_flags c) bits) c)).
Proof. intros H. unfold set_bits. rewrite (xprt_at_ok w x c) by done. cbn. by rewrite (upd_xprt_ok w x c). Qed.

Lemma clear_bits_ok w x c bits : xprts w !! x = Some c →
  clear_bits w x bits = Ret (xp_flags c, put_xprt w x (set_flags (Z.land (xp_flags c) (Z.lnot bits)) c)).
Proof. intros H. unfold clear_bits. rewrite (xprt_at_ok w x c) by done. cbn. by rewrite (upd_xprt_ok w x c). Qed.

Lemma rli_ok w x c : xprts w !! x = Some c → rpc_dplx_rli w x = Ret (put_xprt w x (set_lock true c)).
Proof. apply upd_xprt_ok. Qed.

Lemma rui_ok w x c : xprts w !! x = Some c → recv_lock c = true → rpc_dplx_rui w x = Ret (put_xprt w x (set_lock false c)).
Proof. intros H Hl. unfold rpc_dplx_rui. rewrite (xprt_at_ok w x c) by done. cbn. rewrite Hl. by apply upd_xprt_ok. Qed.

(** ** The trees *)

(** The transport belongs to a partition. *)
Definition home (m : gmap Z svcxprt) (y : Z) (p : nat) : Prop := ∃ c, m !! y = Some c ∧ part (xp_fd c) = p.

(** Each tree holds the linked transports of its partition, and the nodes are those of the
    transports in memory. *)
Record tables (m : gmap Z svcxprt) (ts : list opr_rbtree) (L : gset Z) : Prop := {
  tb_len : length ts = Z.to_nat SVC_XPRT_PARTITIONS;
  tb_table p t : ts !! p = Some t → ∃ l, table (fd_of m) t l ∧ (∀ y, y ∈ l ↔ y ∈ L ∧ home m y p) ∧
    (∀ y, y ∈ dom (rb_nodes t) ↔ home m y p);
  tb_live : L ⊆ dom m;
  tb_stack : m !! 0 = None;
}.

Lemma part_lt fd : (part fd < Z.to_nat SVC_XPRT_PARTITIONS)%nat.
Proof. unfold part, SVC_XPRT_PARTITIONS. pose proof (Z.mod_pos_bound (u32 fd) 193). lia. Qed.

Lemma tree_at m ts L fd : tables m ts L → ∃ t, ts !! part fd = Some t.
Proof. intros [Hl _ _ _]. apply lookup_lt_is_Some. rewrite Hl. apply part_lt. Qed.

Lemma home_fd m y p c : m !! y = Some c → home m y p ↔ part (xp_fd c) = p.
Proof. intros Hc. split; [intros (c' & Hc' & <-); congruence|intros <-; by exists c]. Qed.

Lemma fd_of_at m y c : m !! y = Some c → fd_of m y = xp_fd c.
Proof. intros H. unfold fd_of. by rewrite H. Qed.

Lemma find_ok w L fd : tables (xprts w) (xtrees w) L → ∃ r, xprt_find w fd = Ret r ∧
  match r with
  | Some x => x ∈ L ∧ ∃ c, xprts w !! x = Some c ∧ xp_fd c = fd
  | None => ∀ x c, x ∈ L → xprts w !! x = Some c → xp_fd c ≠ fd
  end.
Proof.
  intros Ht. destruct (tree_at _ _ _ fd Ht) as [t Et]. destruct (tb_table _ _ _ Ht _ _ Et) as (l & Hl & HL & _).
  unfold xprt_find, tree_of. rewrite Et. cbn [access obind].
  destruct (table_lookup (fd_of (xprts w)) (λ p, if p =? 0 then fd else fd_of (xprts w) p) t l 0) as (r & Er & Hr); [|done|].
  { intros q Hq. apply HL in Hq as [_ (c & Hc & _)]. destruct (Z.eqb_spec q 0) as [->|]; [|done].
    by rewrite (tb_stack _ _ _ Ht) in Hc. }
  exists r. split; [exact Er|]. cbn [Z.eqb] in Hr. destruct r as [x|].
  - destruct Hr as [Hx Hk]. apply HL in Hx as [HxL (c & Hc & _)]. split; [done|]. exists c. split; [done|].
    by rewrite (fd_of_at _ _ _ Hc) in Hk.
  - intros x c HxL Hc Hfd. apply (Hr x); [|by rewrite (fd_of_at _ _ _ Hc)]. apply HL. split; [done|]. exists c. by subst.
Qed.

(** No two linked transports share a descriptor. *)
Lemma linked_inj m ts L x y c d : tables m ts L → x ∈ L → y ∈ L → m !! x = Some c → m !! y = Some d →
  xp_fd c = xp_fd d → x = y.
Proof.
  intros Ht Hx Hy Hc Hd E. destruct (tree_at _ _ _ (xp_fd c) Ht) as [t Et]. destruct (tb_table _ _ _ Ht _ _ Et) as (l & Hl & HL & _).
  assert (Hxl : x ∈ l) by (apply HL; split; [done|by exists c]).
  assert (Hyl : y ∈ l) by (apply HL; split; [done|exists d; by rewrite E]).
  pose proof (table_sorted _ _ _ Hl) as Hs. pose proof (fd_of_at _ _ _ Hc). pose proof (fd_of_at _ _ _ Hd).
  clear - Hs Hxl Hyl H H0 E. induction Hs as [|z l Hs IH Hz]; [by apply not_elem_of_nil in Hxl|]. rewrite Forall_forall in Hz.
  apply elem_of_cons in Hxl as [->|Hxl], Hyl as [->|Hyl]; [done| | |by apply IH].
  - specialize (Hz y Hyl). lia.
  - specialize (Hz x Hxl). lia.
Qed.

(** A change of a transport that keeps its descriptor. *)
Lemma tables_put m ts L x c c' : tables m ts L → m !! x = Some c → xp_fd c' = xp_fd c → tables (<[x := c']> m) ts L.
Proof.
  intros [Hlen Ht Hl H0] Hc Hfd.
  assert (Hh : ∀ y p, home (<[x := c']> m) y p ↔ home m y p).
  { intros y p. destruct (decide (y = x)) as [->|Hne]; [|unfold home; by rewrite lookup_insert_ne].
    rewrite (home_fd _ _ _ c'), (home_fd m _ _ c) by (try apply lookup_insert_eq; done). by rewrite Hfd. }
  split; [done| | |].
  - intros p t Et. destruct (Ht p t Et) as (l & Htl & HL & Hn). exists l. setoid_rewrite Hh. split; [|done].
    apply (table_ext (fd_of m)); [|done]. intros y Hy. destruct (decide (y = x)) as [->|Hne].
    + by rewrite (fd_of_at _ _ _ Hc), (fd_of_at _ x c' (lookup_insert_eq _ _ _)).
    + unfold fd_of. by rewrite lookup_insert_ne.
  - rewrite dom_insert. set_solver.
  - rewrite lookup_insert_ne; [done|]. intros ->. congruence.
Qed.

(** Trees other than the one that changes. *)
Lemma tables_change m m' ts L L' q t' l' : tables m ts L → m' !! 0 = None → L' ⊆ dom m' →
  (∀ y p, p ≠ q → home m' y p ↔ home m y p) → (∀ y p, p ≠ q → home m y p → y ∈ L' ↔ y ∈ L) →
  (∀ y c, m !! y = Some c → part (xp_fd c) ≠ q → m' !! y = Some c) →
  table (fd_of m') t' l' → (∀ y, y ∈ l' ↔ y ∈ L' ∧ home m' y q) → (∀ y, y ∈ dom (rb_nodes t') ↔ home m' y q) →
  tables m' (<[q := t']> ts) L'.
Proof.
  intros [Hlen Ht Hl H0] H0' Hl' Hh HL Hm Htq HLq Hnq. split; [by rewrite length_insert| |done|done].
  intros p t [(-> & <- & Hq)|[Hne Et]]%list_lookup_insert_Some; [by exists l'|].
  destruct (Ht p t Et) as (l & Htl & HLl & Hn). exists l. split; [|split].
  - apply (table_ext (fd_of m)); [|done]. intros y Hy. apply HLl in Hy as [_ (c & Hc & Hp)].
    by rewrite (fd_of_at _ _ _ Hc), (fd_of_at m' y c) by (apply Hm; congruence).
  - intros y. rewrite HLl, Hh by done. split; intros [H1 H2]; (split; [by apply (HL y p)|done]).
  - intros y. by rewrite Hn, Hh by done.
Qed.

Lemma tables_make m ts L fd x c node t : tables m ts L → m !! x = None → x ≠ 0 → n_gen node = 0 → xp_fd c = fd →
  (∀ y d, y ∈ L → m !! y = Some d → xp_fd d ≠ fd) → ts !! part fd = Some t →
  let m' := <[x := c]> m in
  ∃ t', opr_rbtree_insert (svc_xprt_fd_cmpf (fd_of m')) (set_nodes (<[x := node]> (rb_nodes t)) t) x = Ret (None, t') ∧
    tables m' (<[part fd := t']> ts) ({[x]} ∪ L).
Proof.
  intros Htb Hx Hx0 Hg Hfd Hfree Et m'. destruct (tb_table _ _ _ Htb _ _ Et) as (l & Hl & HL & Hn).
  assert (Hxn : rb_nodes t !! x = None).
  { apply not_elem_of_dom. rewrite Hn. intros (d & Hd & _). congruence. }
  assert (Hne : ∀ y, home m y (part fd) → x ≠ y) by (intros y (d & Hd & _) <-; congruence).
  assert (Hl' : table (fd_of m') t l).
  { apply (table_ext (fd_of m)); [|done]. intros y Hy. apply HL in Hy as [_ Hy]. apply Hne in Hy.
    unfold fd_of, m'. by rewrite lookup_insert_ne. }
  pose proof (table_alloc _ t l x node Hl' Hxn Hg) as Ha. set (t1 := set_nodes _ t) in *.
  assert (Hx1 : rb_nodes t1 !! x = Some node) by apply lookup_insert_eq.
  assert (Hc : fd_of m' x = fd) by (rewrite (fd_of_at m' x c); [done|apply lookup_insert_eq]).
  destruct (table_insert _ t1 l x node Ha Hx1 Hg) as [(q & _ & Hq & Hk)|(t2 & l2 & E & Hl2 & Hp & _ & Hdom)].
  { exfalso. pose proof Hq as Hq'. apply HL in Hq' as [HqL (d & Hd & Hpd)]. apply (Hfree q d HqL Hd).
    rewrite Hc in Hk. rewrite <- Hk. symmetry. apply fd_of_at. unfold m'. rewrite lookup_insert_ne; [done|]. apply Hne. by exists d. }
  exists t2. split; [exact E|]. assert (Hhx : ∀ p, home m' x p ↔ part fd = p).
  { intros p. rewrite (home_fd m' x p c) by apply lookup_insert_eq. by rewrite Hfd. }
  assert (Hho : ∀ y p, x ≠ y → home m' y p ↔ home m y p) by (intros y p Hy; unfold home, m'; by rewrite lookup_insert_ne).
  apply (tables_change m m' ts L _ (part fd) t2 l2 Htb).
  - unfold m'. rewrite lookup_insert_ne by done. apply (tb_stack _ _ _ Htb).
  - unfold m'. rewrite dom_insert. pose proof (tb_live _ _ _ Htb). set_solver.
  - intros y p Hp'. destruct (decide (x = y)) as [<-|Hy]; [|by apply Hho]. rewrite Hhx. split; [congruence|].
    intros (d & Hd & _). congruence.
  - intros y p Hp' (d & Hd & _). assert (x ≠ y) by congruence. set_solver.
  - intros y d Hd _. unfold m'. rewrite lookup_insert_ne by congruence. done.
  - done.
  - intros y. rewrite Hp, elem_of_cons, HL. destruct (decide (x = y)) as [<-|Hy].
    + rewrite Hhx. set_solver.
    + rewrite Hho by done. set_solver.
  - intros y. rewrite Hdom. unfold t1. cbn [rb_nodes set_nodes]. rewrite dom_insert, elem_of_union, elem_of_singleton, Hn.
    destruct (decide (x = y)) as [<-|Hy]; [rewrite Hhx; set_solver|rewrite Hho by done; set_solver].
Qed.

Lemma tables_unlink m ts L x c t : tables m ts L → m !! x = Some c → ts !! part (xp_fd c) = Some t →
  ∃ n t', rb_nodes t !! x = Some n ∧ (n_gen n ≠ 0 ↔ x ∈ L) ∧ opr_rbtree_remove t x = Ret t' ∧
    tables m (<[part (xp_fd c) := t']> ts) (L ∖ {[x]}).
Proof.
  intros Htb Hx Et. destruct (tb_table _ _ _ Htb _ _ Et) as (l & Hl & HL & Hn).
  assert (Hh : home m x (part (xp_fd c))) by (by exists c). pose proof Hh as Hd. apply Hn, elem_of_dom in Hd as [n Hxn].
  destruct (table_remove _ t l x n Hl Hxn) as (t' & E & Hl' & Hdom). exists n, t'. split; [done|]. split.
  { rewrite (table_gen _ t l x n Hl Hxn), HL. tauto. }
  split; [done|]. apply (tables_change m m ts L _ _ t' (filter (λ y, y ≠ x) l) Htb); [apply (tb_stack _ _ _ Htb)| |done| |done|exact Hl'| |].
  - pose proof (tb_live _ _ _ Htb). set_solver.
  - intros y p Hp (d & Hd & Hp'). assert (y ≠ x) by congruence. set_solver.
  - intros y. rewrite list_elem_of_filter, HL. set_solver.
  - intros y. by rewrite Hdom.
Qed.

Lemma tables_free m ts L x c t : tables m ts L → m !! x = Some c → ts !! part (xp_fd c) = Some t → x ∉ L →
  tables (delete x m) (<[part (xp_fd c) := set_nodes (delete x (rb_nodes t)) t]> ts) L.
Proof.
  intros Htb Hx Et HxL. destruct (tb_table _ _ _ Htb _ _ Et) as (l & Hl & HL & Hn).
  assert (Hxl : x ∉ l) by (rewrite HL; tauto).
  assert (Hho : ∀ y p, home (delete x m) y p ↔ x ≠ y ∧ home m y p).
  { intros y p. unfold home. setoid_rewrite lookup_delete_Some. naive_solver. }
  apply (tables_change m _ ts L L _ _ l Htb).
  - rewrite lookup_delete_ne; [apply (tb_stack _ _ _ Htb)|]. intros ->. by rewrite (tb_stack _ _ _ Htb) in Hx.
  - pose proof (tb_live _ _ _ Htb). set_solver.
  - intros y p Hp. rewrite Hho. split; [tauto|]. intros (d & Hd & Hp'). split; [congruence|by exists d].
  - done.
  - intros y d Hd Hp. apply lookup_delete_Some. split; [congruence|done].
  - apply table_free; [|done]. apply (table_ext (fd_of m)); [|done]. intros y Hy. unfold fd_of.
    rewrite lookup_delete_ne; [done|]. by intros <-.
  - intros y. rewrite Hho, HL. split; [|tauto]. intros [H1 H2]. split_and!; [done|by intros <-|done].
  - intros y. cbn [rb_nodes set_nodes]. rewrite dom_delete, elem_of_difference, elem_of_singleton, Hn, Hho. naive_solver.
Qed.

Lemma tables_init : tables ∅ (xtrees svc_xprt_init) ∅.
Proof.
  split; [by vm_compute| |set_solver|done]. intros p t [-> _]%lookup_replicate. exists [].
  split; [apply table_init; intros x n Hn; by rewrite lookup_empty in Hn|].
  split; intros y; unfold home; setoid_rewrite lookup_empty.
  - split; [intros H; by apply not_elem_of_nil in H|naive_solver].
  - change (rb_nodes (opr_rbtree_init ∅)) with (∅ : gmap Z opr_rbtree_node). rewrite dom_empty_L. set_solver.
Qed.
