(* ===== verification/SvcXprtTheorems.v ===== *)
(** * Transports are used only while somebody refers to them (src/svc_xprt.c)

    The pieces of lookup, release, destruction and the destroy task, from any number of
    threads and in any order, keep the count of every transport equal to the references that
    exist to it, and the table equal to the transports that are not being destroyed. *)
From stdpp Require Import base gmap list fin_maps fin_sets relations.
From Stdlib Require Import ZArith Lia.
From S2P Require Import Prelude Machine RbTree RbTreeTheorems RbTable SvcXprt SvcXprtFacts.

(** ** Flags *)

Lemma any_of_bit f k : 0 ≤ k → any_of f (2 ^ k) = Z.testbit f k.
Proof.
  intros Hk. unfold any_of. apply eq_true_iff_eq. rewrite negb_true_iff, Z.eqb_neq. split.
  - intros H. destruct (Z.testbit f k) eqn:E; [done|]. exfalso. apply H, Z.bits_inj'. intros i Hi.
    rewrite Z.land_spec, Z.pow2_bits_eqb, Z.bits_0 by done. destruct (Z.eqb_spec k i) as [<-|]; [by rewrite E|by rewrite andb_false_r].
  - intros H E. apply (f_equal (λ z, Z.testbit z k)) in E. by rewrite Z.land_spec, H, Z.pow2_bits_true, Z.bits_0 in E.
Qed.

Lemma any_set f j k : 0 ≤ j → 0 ≤ k → any_of (Z.lor f (2 ^ j)) (2 ^ k) = any_of f (2 ^ k) || (j =? k).
Proof. intros Hj Hk. rewrite !any_of_bit by done. by rewrite Z.lor_spec, Z.pow2_bits_eqb. Qed.

Lemma any_clear f j k : 0 ≤ j → 0 ≤ k → any_of (Z.land f (Z.lnot (2 ^ j))) (2 ^ k) = any_of f (2 ^ k) && negb (j =? k).
Proof. intros Hj Hk. rewrite !any_of_bit by done. by rewrite Z.land_spec, Z.lnot_spec, Z.pow2_bits_eqb. Qed.

Definition destroying (c : svcxprt) : bool := any_of (xp_flags c) (2 ^ 5).
Definition releasing (c : svcxprt) : bool := any_of (xp_flags c) (2 ^ 6).

Lemma destroyed_flags c : any_of (xp_flags c) SVC_XPRT_FLAG_DESTROYED = destroying c || releasing c.
Proof.
  unfold destroying, releasing. rewrite !any_of_bit by done. unfold any_of, SVC_XPRT_FLAG_DESTROYED.
  rewrite Z.land_lor_distr_r. apply eq_true_iff_eq. rewrite negb_true_iff, Z.eqb_neq, orb_true_iff, Z.lor_eq_0_iff.
  pose proof (any_of_bit (xp_flags c) 5 ltac:(done)) as H5. pose proof (any_of_bit (xp_flags c) 6 ltac:(done)) as H6.
  unfold any_of in H5, H6. change (2 ^ 5) with SVC_XPRT_FLAG_DESTROYING in H5. change (2 ^ 6) with SVC_XPRT_FLAG_RELEASING in H6.
  rewrite <- H5, <- H6, !negb_true_iff, !Z.eqb_neq. lia.
Qed.

(** ** References *)

(** How far the destruction of a transport has come: [Linked] until it begins, [Unlinking]
    until the transport has left the table, [Dropping] until the reference it was made with
    is released. *)
Inductive stage := Linked | Unlinking | Dropping | Dropped.

#[global] Instance stage_eq_dec : EqDecision stage.
Proof. solve_decision. Defined.

Definition owes (st : stage) : Z := match st with Dropped => 0 | _ => 1 end.
Definition in_table (st : stage) : bool := match st with Linked | Unlinking => true | _ => false end.

(** The references of callers, of connections to the transport that accepted them, and the
    stages. *)
Record xghost := mk_xg { holds : list Z; kids : list (Z * Z); stages : gmap Z stage }.
Definition refs (g : xghost) : list Z := holds g ++ (kids g).*2.
Definition occ (y : Z) (l : list Z) : Z := Zlen (filter (λ z, z = y) l).

Lemma xocc_cons y z l : occ y (z :: l) = (if decide (z = y) then 1 else 0) + occ y l.
Proof. unfold occ. rewrite filter_cons. destruct (decide (z = y)); cbn [length]; lia. Qed.
Lemma occ_app y l k : occ y (l ++ k) = occ y l + occ y k.
Proof. unfold occ. rewrite filter_app, length_app. lia. Qed.
Lemma occ_nonneg y l : 0 ≤ occ y l.
Proof. unfold occ. lia. Qed.
Lemma occ_perm y l k : l ≡ₚ k → occ y l = occ y k.
Proof. unfold occ. by intros ->. Qed.
Lemma occ_le y l : occ y l ≤ Zlen l.
Proof. unfold occ. pose proof (length_filter (λ z, z = y) l). lia. Qed.
Lemma xocc_pos y l : 0 < occ y l ↔ y ∈ l.
Proof.
  induction l as [|z l IH]; [split; [done|intros H; by apply not_elem_of_nil in H]|].
  rewrite xocc_cons, elem_of_cons, <- IH. pose proof (occ_nonneg y l). destruct (decide (z = y)); split; intros; try lia; intuition (congruence || lia).
Qed.

Lemma occ_zero y l : y ∉ l → occ y l = 0.
Proof. intros H. rewrite <- xocc_pos in H. pose proof (occ_nonneg y l). lia. Qed.

Record xprt_ok (g : xghost) (ts : list Z) (L : gset Z) (y : Z) (c : svcxprt) (st : stage) : Prop := {
  xo_count : xp_refcnt c = occ y (refs g) + owes st;
  xo_linked : y ∈ L ↔ in_table st = true;
  xo_destroying : destroying c = negb (bool_decide (st = Linked));
  xo_task : y ∈ ts ↔ xp_refcnt c = 0;
  xo_releasing : releasing c = true ↔ y ∈ ts;
  xo_ops : st ≠ Linked → xp_ops c = true;
  xo_parent p : (y, p) ∈ kids g ↔ xp_parent c = Some p;
}.

Record xinv (max : Z) (w : xworld) (g : xghost) (L : gset Z) : Prop := {
  xi_tables : tables (xprts w) (xtrees w) L;
  xi_each y c : xprts w !! y = Some c → ∃ st, stages g !! y = Some st ∧ xprt_ok g (tasks w) L y c st;
  xi_live y : y ∈ refs g ∨ y ∈ tasks w ∨ y ∈ (kids g).*1 → is_Some (xprts w !! y);
  xi_staged : dom (stages g) ⊆ dom (xprts w);
  xi_tasks : NoDup (tasks w);
  xi_kids : NoDup (kids g).*1;
  xi_conns : connections w = Z.of_nat (size L);
  xi_max : Z.of_nat (size L) ≤ max;
}.

(** The transport at [x] changes, with the references to it. *)
Lemma xinv_at max w g L x c c' hs' st' ts' : xinv max w g L → xprts w !! x = Some c → xp_fd c' = xp_fd c →
  let g' := mk_xg hs' (kids g) (<[x := st']> (stages g)) in
  (∀ y, y ≠ x → occ y hs' = occ y (holds g)) → (∀ y, y ≠ x → y ∈ ts' ↔ y ∈ tasks w) → NoDup ts' →
  xprt_ok g' ts' L x c' st' → xinv max (set_tasks ts' (put_xprt w x c')) g' L.
Proof.
  intros Hi Hx Hfd g' Hocc Hts Hnd Hok. destruct Hi. split; try done.
  - by eapply tables_put.
  - intros y d. cbn [xprts set_tasks put_xprt set_xprts tasks stages g']. destruct (decide (y = x)) as [->|Hne].
    { rewrite lookup_insert_eq. intros [= <-]. exists st'. by rewrite lookup_insert_eq. }
    rewrite !lookup_insert_ne by done. intros Hd. destruct (xi_each0 y d Hd) as (st & Hst & []). exists st. split; [done|].
    split; cbn [kids g']; try done; [|by rewrite Hts..].
    rewrite xo_count0. unfold refs. cbn [holds kids g']. by rewrite !occ_app, Hocc.
  - intros y Hy. cbn [xprts set_tasks put_xprt set_xprts]. destruct (decide (y = x)) as [->|Hne]; [rewrite lookup_insert_eq; by eexists|].
    rewrite lookup_insert_ne by done. apply xi_live0. cbn [tasks set_tasks kids g'] in Hy. rewrite Hts in Hy by done.
    destruct Hy as [Hy|Hy]; [left|by right]. unfold refs in *. cbn [holds kids g'] in Hy.
    apply xocc_pos. apply xocc_pos in Hy. rewrite occ_app in *. by rewrite <- Hocc.
  - cbn. rewrite !dom_insert_L. set_solver.
Qed.

Lemma set_tasks_same w x c : set_tasks (tasks w) (put_xprt w x c) = put_xprt w x c.
Proof. by destruct w. Qed.

(** A change that references and table do not see. *)
Lemma xinv_quiet max w g L x c c' : xinv max w g L → xprts w !! x = Some c → xp_fd c' = xp_fd c → xp_refcnt c' = xp_refcnt c →
  xp_parent c' = xp_parent c → destroying c' = destroying c → releasing c' = releasing c → (xp_ops c = true → xp_ops c' = true) →
  xinv max (put_xprt w x c') g L.
Proof.
  intros Hi Hx Hfd Hr Hp Hd Hre Ho. destruct (xi_each _ _ _ _ Hi _ _ Hx) as (st & Hst & []).
  rewrite <- set_tasks_same. replace g with (mk_xg (holds g) (kids g) (<[x := st]> (stages g))) at 1 by (destruct g; cbn in *; by rewrite insert_id).
  eapply xinv_at; [done|done|done|done|done|apply Hi|]. split; cbn [kids].
  - by rewrite Hr.
  - done.
  - by rewrite Hd.
  - by rewrite Hr.
  - by rewrite Hre.
  - auto.
  - by rewrite Hp.
Qed.

(** A caller that refers to a transport. *)
Definition hold (x : Z) (g : xghost) : xghost := mk_xg (x :: holds g) (kids g) (stages g).
Definition few (g : xghost) : Prop := Zlen (refs g) < 2 ^ 31 - 2.

Lemma count_bounds max w g L x c : xinv max w g L → few g → xprts w !! x = Some c → 0 ≤ xp_refcnt c < 2 ^ 31 - 1.
Proof.
  intros Hi Hf Hx. destruct (xi_each _ _ _ _ Hi _ _ Hx) as (st & _ & []). unfold few in Hf.
  pose proof (occ_nonneg x (refs g)). pose proof (occ_le x (refs g)). destruct st; cbn in *; lia.
Qed.

Lemma ref_ok max w g L x c : xinv max w g L → few g → xprts w !! x = Some c → 0 < xp_refcnt c →
  let w' := put_xprt w x (set_refcnt (xp_refcnt c + 1) c) in svc_ref_it w x = Ret w' ∧ xinv max w' (hold x g) L.
Proof.
  intros Hi Hf Hx Hr w'. pose proof (count_bounds _ _ _ _ _ _ Hi Hf Hx) as Hb. unfold svc_ref_it. rewrite (xprt_at_ok w x c) by done.
  cbn [obind]. rewrite (wraps_id 32) by (unfold is_s; lia). split; [by apply upd_xprt_ok|].
  destruct (xi_each _ _ _ _ Hi _ _ Hx) as (st & Hst & []). unfold w'. rewrite <- set_tasks_same.
  replace (hold x g) with (mk_xg (x :: holds g) (kids g) (<[x := st]> (stages g))) by (unfold hold; by rewrite insert_id).
  eapply xinv_at; [done|done|done| |done|apply Hi|].
  - intros y Hy. rewrite xocc_cons. by rewrite decide_False.
  - split; cbn [kids xp_refcnt set_refcnt]; try done.
    + rewrite xo_count0. unfold refs. cbn [holds kids]. rewrite !occ_app, xocc_cons, decide_True by done. lia.
    + rewrite xo_task0. lia.
Qed.

(** Releasing a reference; the last one gives the transport to its destroy task. *)
Definition released (w : xworld) (x : Z) (c : svcxprt) : xworld :=
  let c := set_refcnt (xp_refcnt c - 1) c in
  if 0 <? xp_refcnt c then put_xprt w x c
  else set_tasks (x :: tasks w) (put_xprt w x (set_flags (Z.lor (xp_flags c) (2 ^ 6)) c)).

Lemma release_run w x c : xprts w !! x = Some c → 0 < xp_refcnt c < 2 ^ 31 →
  (xp_refcnt c = 1 → xp_ops c = true ∧ releasing c = false) → svc_release_it w x = Ret (released w x c).
Proof.
  intros Hx Hr Hl. unfold svc_release_it, released. rewrite (xprt_at_ok w x c) by done. cbn [obind].
  rewrite (wraps_id 32) by (unfold is_s; lia). rewrite (upd_xprt_ok w x c) by done. cbn [obind xp_refcnt set_refcnt xp_flags].
  destruct (Z.ltb_spec 0 (xp_refcnt c - 1)); [done|]. destruct Hl as [Ho Hre]; [lia|].
  rewrite (set_bits_ok _ x _ _ (put_xprt_at _ _ _)). cbn [obind xp_flags set_refcnt]. rewrite put_xprt_put.
  unfold releasing in Hre. change SVC_XPRT_FLAG_RELEASING with (2 ^ 6). rewrite Hre, Ho. done.
Qed.

Lemma released_ok max w g L x c hs' st st' : xinv max w g L → few g → xprts w !! x = Some c → stages g !! x = Some st →
  occ x hs' + owes st' = occ x (holds g) + owes st - 1 → (∀ y, y ≠ x → occ y hs' = occ y (holds g)) →
  st' = st ∨ (st = Dropping ∧ st' = Dropped) →
  svc_release_it w x = Ret (released w x c) ∧ xinv max (released w x c) (mk_xg hs' (kids g) (<[x := st']> (stages g))) L.
Proof.
  intros Hi Hf Hx Hst Hown Hocc Hs. destruct (xi_each _ _ _ _ Hi _ _ Hx) as (st0 & Hst0 & []). assert (st0 = st) as -> by congruence.
  pose proof (count_bounds _ _ _ _ _ _ Hi Hf Hx) as Hb. unfold refs in *. rewrite occ_app in xo_count0.
  assert (Hn : 0 ≤ occ x hs' ∧ 0 ≤ occ x (kids g).*2 ∧ 0 ≤ owes st') by (split_and!; [apply occ_nonneg..|by destruct st']).
  assert (Hpos : 0 < xp_refcnt c) by lia. assert (Hnt : x ∉ tasks w) by (rewrite xo_task0; lia).
  assert (Hre : releasing c = false) by (apply not_true_iff_false; by rewrite xo_releasing0).
  assert (Hlast : xp_refcnt c = 1 → st ≠ Linked) by (intros H1 ->; destruct Hs as [->|[? _]]; [cbn in *; lia|done]).
  assert (Hin : in_table st' = in_table st) by (destruct Hs as [->|[-> ->]]; done).
  assert (Hli : bool_decide (st' = Linked) = bool_decide (st = Linked)) by (destruct Hs as [->|[-> ->]]; done).
  split; [apply release_run; [done|lia|intros H1; split; [by apply xo_ops0, Hlast|done]]|].
  assert (Hops : st' ≠ Linked → xp_ops c = true) by (intros Hne; apply xo_ops0; intros ->; by destruct Hs as [->|[? _]]).
  unfold released. cbn [xp_refcnt set_refcnt xp_flags]. destruct (Z.ltb_spec 0 (xp_refcnt c - 1)) as [H1|H1].
  - rewrite <- set_tasks_same. eapply xinv_at; [done|done|done|done|done|apply Hi|].
    split; cbn [kids xp_refcnt set_refcnt]; try done; [unfold refs; cbn [holds kids]; rewrite occ_app; lia|by rewrite Hin|by rewrite Hli|].
    rewrite xo_task0. lia.
  - eapply xinv_at; [done|done|done|done| |constructor; [done|apply Hi]|].
    { intros y Hy. rewrite elem_of_cons. naive_solver. }
    split; cbn [kids xp_refcnt set_refcnt set_flags xp_ops xp_parent]; try done.
    + unfold refs. cbn [holds kids]. rewrite occ_app. lia.
    + by rewrite Hin.
    + unfold destroying in *. cbn [xp_flags set_flags set_refcnt]. rewrite any_set by done. rewrite orb_false_r. by rewrite Hli.
    + rewrite elem_of_cons. split; [lia|by left].
    + unfold releasing. cbn [xp_flags set_flags set_refcnt]. rewrite any_set by done. rewrite orb_true_r, elem_of_cons. split; auto.
Qed.

(** ** Operations *)

Lemma linked_count max w g L x c : xinv max w g L → xprts w !! x = Some c → x ∈ L ∨ x ∈ refs g → 0 < xp_refcnt c.
Proof.
  intros Hi Hx Hl. destruct (xi_each _ _ _ _ Hi _ _ Hx) as (st & _ & []). pose proof (occ_nonneg x (refs g)).
  destruct Hl as [Hl|Hl]; [|apply xocc_pos in Hl; destruct st; cbn in *; lia].
  apply xo_linked0 in Hl. destruct st; cbn in *; try done; lia.
Qed.

Lemma read_ok max w g L fd : xinv max w g L → few g → ∃ r w', lookup_read w fd = Ret (r, w') ∧
  match r with
  | Some x => x ∈ L ∧ (∃ c, xprts w !! x = Some c ∧ xp_fd c = fd) ∧ xinv max w' (hold x g) L
  | None => w' = w ∧ ∀ x c, x ∈ L → xprts w !! x = Some c → xp_fd c ≠ fd
  end.
Proof.
  intros Hi Hf. unfold lookup_read. destruct (find_ok w L fd (xi_tables _ _ _ _ Hi)) as (r & -> & Hr). cbn [obind].
  destruct r as [x|]; [|by exists None, w]. destruct Hr as (HxL & c & Hx & Hfd).
  destruct (ref_ok max w g L x c Hi Hf Hx) as [-> Hi']; [eapply linked_count; eauto|]. cbn [obind].
  eexists (Some x), _. split; [done|]. split; [done|]. split; [by exists c|done].
Qed.

(** The transport that is made: linked, for a caller that holds its lock. *)
Definition made_xprt (fd id now : Z) : svcxprt := mk_xprt fd (-1) SVC_XPRT_FLAG_INITIAL 2 id false None true now.

Lemma fresh_at max w g L x : xinv max w g L → xprts w !! x = None → x ∉ refs g ∧ x ∉ tasks w ∧ x ∉ (kids g).*1 ∧ x ∉ L.
Proof.
  intros Hi Hx. assert (Hn : ¬ is_Some (xprts w !! x)) by (rewrite Hx; by intros []).
  split_and!; try (intros H; apply Hn, (xi_live _ _ _ _ Hi); tauto).
  intros H. apply (tb_live _ _ _ (xi_tables _ _ _ _ Hi)), elem_of_dom in H. done.
Qed.

Definition make (x : Z) (g : xghost) : xghost := mk_xg (x :: holds g) (kids g) (<[x := Linked]> (stages g)).

Lemma made_ok max w g L fd x id uid now t' : xinv max w g L → xprts w !! x = None → Z.of_nat (size L) < max →
  tables (<[x := made_xprt fd id now]> (xprts w)) (<[part fd := t']> (xtrees w)) ({[x]} ∪ L) →
  xinv max (mk_xw (<[x := made_xprt fd id now]> (xprts w)) (<[part fd := t']> (xtrees w)) (connections w + 1) uid (tasks w) (closed w))
    (make x g) ({[x]} ∪ L).
Proof.
  intros Hi Hx Hmax Ht. destruct (fresh_at max w g L x Hi Hx) as (Hr & Hts & Hk & HL). destruct Hi.
  assert (Hsz : size ({[x]} ∪ L) = S (size L)) by (rewrite size_union by set_solver; by rewrite size_singleton).
  split; cbn [xprts xtrees tasks connections kids make]; try done; [| | |lia|lia].
  - intros y c. destruct (decide (y = x)) as [->|Hne].
    + rewrite lookup_insert_eq. intros [= <-]. exists Linked. cbn [stages make]. rewrite lookup_insert_eq. split; [done|].
      split; cbn [kids make made_xprt xp_refcnt xp_ops xp_parent]; try done.
      * unfold refs. cbn [holds kids make]. rewrite <- app_comm_cons, xocc_cons, decide_True by done.
        assert (occ x (refs g) = 0) as E by (by apply occ_zero).
        unfold refs in E. rewrite E. done.
      * set_solver.
      * intros p. split; [|done]. intros Hp. exfalso. apply Hk. by apply (list_elem_of_fmap_2 fst) in Hp.
    + rewrite lookup_insert_ne by done. intros Hc. destruct (xi_each0 y c Hc) as (st & Hst & []). exists st. cbn [stages make].
      rewrite lookup_insert_ne by done. split; [done|]. split; try done.
      * rewrite xo_count0. unfold refs. cbn [holds kids make]. rewrite <- app_comm_cons, xocc_cons, decide_False by done. done.
      * rewrite <- xo_linked0. set_solver.
  - intros y Hy. destruct (decide (y = x)) as [->|Hne]; [rewrite lookup_insert_eq; by eexists|]. rewrite lookup_insert_ne by done.
    apply xi_live0. unfold refs in *. cbn [holds kids make] in Hy. set_solver.
  - cbn [stages make]. rewrite !dom_insert_L. set_solver.
Qed.

Lemma xwrite_ok max w g L fd x now node : xinv max w g L → few g → 0 ≤ max < 2 ^ 32 - 1 → xprts w !! x = None → x ≠ 0 → n_gen node = 0 →
  ∃ r w', lookup_write w max fd x now node = Ret (r, w') ∧
  match r with
  | Refused => w' = w ∧ Z.of_nat (size L) = max
  | Made y => y = x ∧ xinv max w' (make x g) ({[x]} ∪ L) ∧ ∃ id, xprts w' !! x = Some (made_xprt fd id now)
  | Raced y => y ∈ L ∧ (∃ c, xprts w !! y = Some c ∧ xp_fd c = fd) ∧ xinv max w' (hold y g) L
  end.
Proof.
  intros Hi Hf Hmax Hx Hx0 Hg. unfold lookup_write. destruct (find_ok w L fd (xi_tables _ _ _ _ Hi)) as (r & -> & Hr). cbn [obind].
  destruct r as [y|].
  { destruct Hr as (HyL & c & Hy & Hfd). destruct (ref_ok max w g L y c Hi Hf Hy) as [-> Hi']; [eapply linked_count; eauto|]. cbn [obind].
    eexists (Raced y), _. split; [done|]. split; [done|]. split; [by exists c|done]. }
  pose proof (xi_conns _ _ _ _ Hi) as Hc. pose proof (xi_max _ _ _ _ Hi) as Hm. rewrite (wrapu_id 32) by (unfold is_u; lia).
  destruct (Z.ltb_spec max (connections w + 1)) as [Hfull|Hroom]; [exists Refused, w; split; [done|]; split; [done|lia]|].
  unfold xprt_setup. destruct (new_unique_id _) as [id w1] eqn:E1.
  assert (Hw1 : ∃ uid, w1 = set_unique_id uid (set_connections (connections w + 1) w)).
  { unfold new_unique_id in E1. destruct (_ =? 0); injection E1 as <- <-; by eexists. }
  destruct Hw1 as [uid ->]. destruct (tree_at _ _ _ fd (xi_tables _ _ _ _ Hi)) as [t Et].
  unfold tree_of at 1. cbn [xtrees set_unique_id set_connections]. rewrite Et. cbn [access obind].
  unfold svc_ref_it, rpc_dplx_rli, upd_xprt, xprt_at, tree_of, set_tree. cbn. rewrite lookup_insert_eq. cbn. rewrite lookup_insert_eq. cbn.
  rewrite !insert_insert_eq. rewrite list_lookup_insert_eq by (eapply lookup_lt_Some; exact Et). cbn [access obind].
  change (set_lock true _) with (made_xprt fd id now).
  destruct (tables_make _ _ _ fd x (made_xprt fd id now) node t (xi_tables _ _ _ _ Hi) Hx Hx0 Hg eq_refl Hr Et) as (t' & -> & Ht').
  cbn. eexists (Made x), _. split; [done|]. split; [done|]. rewrite list_insert_insert_eq.
  split; [|exists id; apply lookup_insert_eq]. apply (made_ok max w g L fd x id uid now t'); [done|done|lia|done].
Qed.

(** A caller that gives a reference back. *)
Fixpoint less (x : Z) (l : list Z) : list Z :=
  match l with [] => [] | y :: l => if decide (y = x) then l else y :: less x l end.
Definition unhold (x : Z) (g : xghost) : xghost := mk_xg (less x (holds g)) (kids g) (stages g).

Lemma occ_less x y l : x ∈ l → occ y (less x l) = occ y l - (if decide (x = y) then 1 else 0).
Proof.
  induction l as [|z l IH]; intros Hx; [by apply not_elem_of_nil in Hx|]. cbn [less]. rewrite xocc_cons.
  destruct (decide (z = x)) as [->|Hne]; [destruct (decide (x = y)); lia|]. apply elem_of_cons in Hx as [->|Hx]; [done|].
  rewrite xocc_cons, IH by done. lia.
Qed.

Lemma xrelease_ok max w g L x c : xinv max w g L → few g → x ∈ holds g → xprts w !! x = Some c →
  svc_release_it w x = Ret (released w x c) ∧ xinv max (released w x c) (unhold x g) L.
Proof.
  intros Hi Hf Hh Hx. destruct (xi_each _ _ _ _ Hi _ _ Hx) as (st & Hst & _).
  replace (unhold x g) with (mk_xg (less x (holds g)) (kids g) (<[x := st]> (stages g))) by (unfold unhold; by rewrite insert_id).
  eapply released_ok; [done|done|done|done| | |by left].
  - rewrite occ_less, decide_True by done. lia.
  - intros y Hy. rewrite occ_less, decide_False by done. lia.
Qed.

Lemma held_at max w g L x : xinv max w g L → x ∈ holds g → ∃ c, xprts w !! x = Some c.
Proof. intros Hi Hh. apply (xi_live _ _ _ _ Hi). left. apply elem_of_app. by left. Qed.

Lemma found_ok max w g L x c : xinv max w g L → few g → x ∈ holds g → xprts w !! x = Some c → recv_lock c = false →
  let gone := any_of (xp_flags c) SVC_XPRT_FLAG_DESTROYED in
  ∃ w', lookup_found w x = Ret (if gone then None else Some x, w') ∧ xinv max w' (if gone then unhold x g else g) L.
Proof.
  intros Hi Hf Hh Hx Hl gone. unfold lookup_found. rewrite (rli_ok w x c) by done. cbn [obind].
  rewrite (xprt_at_ok _ x _ (put_xprt_at _ _ _)). cbn [obind xp_flags set_lock].
  set (c1 := set_lock true (if any_of (xp_flags c) SVC_XPRT_FLAG_READY then set_flags (Z.land (xp_flags c) (Z.lnot (2 ^ 2))) c else c)).
  assert (E : (if any_of (xp_flags c) SVC_XPRT_FLAG_READY
    then let! (_, w0) := clear_bits (put_xprt w x (set_lock true c)) x SVC_XPRT_FLAG_INITIAL in Ret w0
    else Ret (put_xprt w x (set_lock true c))) = Ret (put_xprt w x c1)).
  { unfold c1. destruct (any_of (xp_flags c) SVC_XPRT_FLAG_READY); [|reflexivity]. rewrite (clear_bits_ok _ x _ _ (put_xprt_at _ _ _)). cbn [obind]. by rewrite put_xprt_put. }
  rewrite E. cbn [obind]. rewrite (rui_ok _ x c1 (put_xprt_at _ _ _) eq_refl). cbn [obind]. rewrite put_xprt_put. fold gone.
  assert (Hi1 : xinv max (put_xprt w x (set_lock false c1)) g L).
  { eapply xinv_quiet; try done; unfold c1; destruct (any_of _ SVC_XPRT_FLAG_READY); try done;
      unfold destroying, releasing; cbn; rewrite any_clear by done; by rewrite andb_true_r. }
  destruct gone; [|eexists; by split].
  destruct (xrelease_ok max _ g L x (set_lock false c1) Hi1 Hf Hh (put_xprt_at _ _ _)) as [-> Hi2]. eexists. by split.
Qed.

Definition set_stage (x : Z) (st : stage) (g : xghost) : xghost := mk_xg (holds g) (kids g) (<[x := st]> (stages g)).

Lemma begin_ok max w g L x c st : xinv max w g L → xprts w !! x = Some c → stages g !! x = Some st → xp_ops c = true →
  let first := bool_decide (st = Linked) in
  let w' := put_xprt w x (set_flags (Z.lor (xp_flags c) (2 ^ 5)) c) in
  destroy_begin w x = Ret (first, w') ∧ xinv max w' (if first then set_stage x Unlinking g else g) L.
Proof.
  intros Hi Hx Hst Ho first w'. destruct (xi_each _ _ _ _ Hi _ _ Hx) as (st0 & Hst0 & Hok). assert (st0 = st) as -> by congruence.
  unfold destroy_begin. rewrite (set_bits_ok w x c) by done. cbn [obind]. change SVC_XPRT_FLAG_DESTROYING with (2 ^ 5).
  pose proof (xo_destroying _ _ _ _ _ _ Hok) as Hd. unfold destroying in Hd. rewrite Hd, negb_involutive. split; [done|]. unfold w'.
  assert (Hset : ∀ st', xprt_ok (set_stage x st' g) (tasks w) L x (set_flags (Z.lor (xp_flags c) (2 ^ 5)) c) st' →
    xinv max (put_xprt w x (set_flags (Z.lor (xp_flags c) (2 ^ 5)) c)) (set_stage x st' g) L).
  { intros st' Hok'. rewrite <- set_tasks_same. unfold set_stage. eapply xinv_at; [done|done|done|done|done|apply Hi|done]. }
  assert (Hrel : releasing (set_flags (Z.lor (xp_flags c) (2 ^ 5)) c) = releasing c).
  { unfold releasing. cbn. rewrite any_set by done. by rewrite orb_false_r. }
  assert (Hdes : destroying (set_flags (Z.lor (xp_flags c) (2 ^ 5)) c) = true).
  { unfold destroying. cbn. rewrite any_set by done. by rewrite orb_true_r. }
  unfold first. destruct (bool_decide_reflect (st = Linked)) as [->|Hne].
  - apply Hset. destruct Hok. split; try done; by rewrite ?Hrel, ?Hdes.
  - replace g with (set_stage x st g) at 1 by (unfold set_stage; destruct g; cbn in *; by rewrite insert_id).
    apply Hset. destruct Hok. split; try done; rewrite ?Hrel, ?Hdes; try done. by rewrite bool_decide_false.
Qed.

(** The transport leaves the table. *)
Lemma unlinked_ok max w g L x c ts' c1 : xinv max w g L → 0 ≤ max < 2 ^ 32 - 1 → xprts w !! x = Some c → stages g !! x = Some Unlinking →
  tables (xprts w) ts' (L ∖ {[x]}) → xp_fd c1 = xp_fd c → xp_refcnt c1 = xp_refcnt c → xp_parent c1 = xp_parent c → xp_ops c1 = xp_ops c →
  destroying c1 = destroying c → releasing c1 = releasing c →
  xinv max (put_xprt (set_connections (u32 (connections w - 1)) (set_xtrees ts' w)) x c1) (set_stage x Dropping g) (L ∖ {[x]}).
Proof.
  intros Hi Hmax Hx Hst Ht Hfd Hr Hp Ho Hd Hre. destruct (xi_each _ _ _ _ Hi _ _ Hx) as (st & Hst0 & []). assert (st = Unlinking) as -> by congruence.
  assert (HxL : x ∈ L) by (by apply xo_linked0).
  assert (Hsz : size L = S (size (L ∖ {[x]}))) by (rewrite (union_difference_singleton_L x L HxL) at 1; rewrite size_union by set_solver; by rewrite size_singleton).
  pose proof (xi_conns _ _ _ _ Hi) as Hcn. pose proof (xi_max _ _ _ _ Hi) as Hmx. destruct Hi.
  split; cbn [xprts xtrees tasks connections kids set_stage put_xprt set_xprts set_xtrees set_connections]; try done; [by eapply tables_put| | | | |lia].
  - intros y d. destruct (decide (y = x)) as [->|Hne].
    + rewrite lookup_insert_eq. intros [= <-]. exists Dropping. cbn [stages set_stage]. rewrite lookup_insert_eq. split; [done|].
      split; rewrite ?Hd, ?Hre, ?Hr, ?Hp, ?Ho; try done; [set_solver|intros _; by apply xo_ops0].
    + rewrite lookup_insert_ne by done. intros Hy. destruct (xi_each0 y d Hy) as (s & Hs & []). exists s. cbn [stages set_stage].
      rewrite lookup_insert_ne by done. split; [done|]. split; try done. rewrite <- xo_linked1. set_solver.
  - intros y Hy. destruct (decide (y = x)) as [->|Hne]; [rewrite lookup_insert_eq; by eexists|].
    rewrite lookup_insert_ne by done. by apply xi_live0.
  - cbn [stages set_stage]. rewrite !dom_insert_L. set_solver.
  - rewrite wrapu_id; [lia|]. unfold is_u. lia.
Qed.

Lemma clear_ok max w g L x c st : xinv max w g L → 0 ≤ max < 2 ^ 32 - 1 → xprts w !! x = Some c → stages g !! x = Some st →
  ∃ w' c', svc_xprt_clear w x = Ret w' ∧ xprts w' !! x = Some c' ∧ recv_lock c' = recv_lock c ∧
    (st = Unlinking → xprts w' = <[x := set_flags (Z.land (xp_flags c) (Z.lnot (2 ^ 8))) c]> (xprts w) ∧
       xinv max w' (set_stage x Dropping g) (L ∖ {[x]})).
Proof.
  intros Hi Hmax Hx Hst. destruct (xi_each _ _ _ _ Hi _ _ Hx) as (st0 & Hst0 & Hok). assert (st0 = st) as -> by congruence.
  destruct (tree_at _ _ _ (xp_fd c) (xi_tables _ _ _ _ Hi)) as [t Et].
  destruct (tables_unlink _ _ _ x c t (xi_tables _ _ _ _ Hi) Hx Et) as (n & t' & Hn & Hg & Er & Ht').
  unfold svc_xprt_clear. rewrite (xprt_at_ok w x c) by done. cbn [obind]. unfold tree_of. rewrite Et. cbn [access obind].
  unfold rd. rewrite Hn. cbn [access obind]. destruct (Z.eqb_spec (n_gen n) 0) as [E0|E0].
  { exists w, c. split; [done|]. split; [done|]. split; [done|]. intros ->.
    exfalso. apply (proj2 Hg); [by apply (xo_linked _ _ _ _ _ _ Hok)|done]. }
  rewrite (clear_bits_ok _ x c) by done. cbn [obind]. rewrite Er. cbn [obind]. set (c1 := set_flags _ c).
  eexists _, c1. split; [done|]. split; [apply lookup_insert_eq|]. split; [done|]. intros ->.
  split; [done|]. apply (unlinked_ok max w g L x c _ c1 Hi Hmax Hx Hst Ht'); try done;
    change SVC_XPRT_TREE_LOCKED with (2 ^ 8) in c1; unfold destroying, releasing, c1; cbn; rewrite any_clear by done; by rewrite andb_true_r.
Qed.

Lemma unlink_ok max w g L x c : xinv max w g L → 0 ≤ max < 2 ^ 32 - 1 → xprts w !! x = Some c → recv_lock c = false → stages g !! x = Some Unlinking →
  ∃ w', destroy_unlink w x = Ret w' ∧ xprts w' = <[x := set_flags (Z.land (xp_flags c) (Z.lnot (2 ^ 8))) c]> (xprts w) ∧
    xinv max w' (set_stage x Dropping g) (L ∖ {[x]}).
Proof.
  intros Hi Hmax Hx Hl Hst. destruct (xi_each _ _ _ _ Hi _ _ Hx) as (st0 & Hst0 & Hok). assert (st0 = Unlinking) as -> by congruence.
  unfold destroy_unlink, svc_rqst_xprt_unregister. rewrite (xprt_at_ok w x c) by done. cbn [obind]. rewrite (xo_ops _ _ _ _ _ _ Hok) by done.
  rewrite (rli_ok w x c) by done. cbn [obind].
  assert (Hi1 : xinv max (put_xprt w x (set_lock true c)) g L) by (by eapply xinv_quiet).
  destruct (clear_ok max _ g L x _ Unlinking Hi1 Hmax (put_xprt_at _ _ _) Hst) as (w1 & c1 & -> & Hc1 & Hlk & Hi2). cbn [obind].
  rewrite (rui_ok w1 x c1 Hc1 Hlk). eexists. split; [done|]. destruct (Hi2 eq_refl) as [E Hi3]. split; [|by eapply xinv_quiet].
  cbn [put_xprt xprts set_xprts] in *. rewrite E in *. rewrite lookup_insert_eq in Hc1. injection Hc1 as <-. rewrite !insert_insert_eq. by destruct c; cbn in *; subst.
Qed.

Lemma drop_ok max w g L x c : xinv max w g L → few g → xprts w !! x = Some c → stages g !! x = Some Dropping →
  svc_release_it w x = Ret (released w x c) ∧ xinv max (released w x c) (set_stage x Dropped g) L.
Proof. intros Hi Hf Hx Hst. eapply released_ok; [done|done|done|done| |done|by right]. cbn. lia. Qed.

(** A connection takes over a reference to the transport that accepted it. *)
Definition adopt (p x : Z) (g : xghost) : xghost := mk_xg (holds g) ((x, p) :: kids g) (stages g).

Lemma adopt_ok max w g L p x cp c : xinv max w g L → few g → p ∈ holds g → p ≠ x → xprts w !! p = Some cp →
  xprts w !! x = Some c → xp_parent c = None → ∃ w', xprt_adopt w p x = Ret w' ∧ xinv max w' (adopt p x g) L.
Proof.
  intros Hi Hf Hp Hne Hcp Hx Hpar. unfold xprt_adopt. assert (Hr : p ∈ refs g) by (apply elem_of_app; by left).
  destruct (ref_ok max w g L p cp Hi Hf Hcp) as [-> Hi1]; [eapply linked_count; eauto|]. cbn [obind]. set (w1 := put_xprt w p _) in *.
  assert (Hx1 : xprts w1 !! x = Some c) by (cbn; by rewrite lookup_insert_ne).
  rewrite (upd_xprt_ok w1 x c) by done. eexists. split; [done|].
  assert (Hxk : x ∉ (kids g).*1).
  { intros Hk. apply list_elem_of_fmap in Hk as ([x' q] & E & Hk). cbn in E. subst x'. destruct (xi_each _ _ _ _ Hi _ _ Hx) as (st & _ & []).
    apply xo_parent0 in Hk. congruence. }
  assert (Hocc : ∀ y, occ y (refs (adopt p x g)) = occ y (refs (hold p g))).
  { intros y. apply occ_perm. unfold refs. cbn [holds kids adopt hold]. rewrite fmap_cons. cbn. symmetry. apply Permutation_middle. }
  assert (Hmem : ∀ y, y ∈ refs (adopt p x g) ↔ y ∈ refs (hold p g)) by (intros y; by rewrite <- !xocc_pos, Hocc).
  destruct Hi1. split; try done; cbn [xprts put_xprt set_xprts tasks xtrees]; [by eapply tables_put| | |cbn [stages adopt]; rewrite dom_insert_L; cbn in xi_staged0; set_solver|by cbn; constructor].
  - intros y d. destruct (decide (y = x)) as [->|Hyx].
    + rewrite lookup_insert_eq. intros [= <-]. destruct (xi_each0 x c Hx1) as (st & Hst & []). exists st. split; [done|].
      split; try done; [by rewrite Hocc|]. intros q. cbn [kids adopt xp_parent set_parent]. rewrite elem_of_cons.
      split; [|intros [= ->]; by left]. intros [[= ->]|Hq]; [done|]. apply (list_elem_of_fmap_2 fst) in Hq. done.
    + rewrite lookup_insert_ne by done. intros Hd. destruct (xi_each0 y d Hd) as (st & Hst & []). exists st. split; [done|].
      split; try done; [by rewrite Hocc|]. intros q. cbn [kids adopt]. rewrite elem_of_cons, <- xo_parent0. cbn [kids hold]. naive_solver.
  - intros y Hy. destruct (decide (y = x)) as [->|Hyx]; [rewrite lookup_insert_eq; by eexists|]. rewrite lookup_insert_ne by done. apply xi_live0.
    rewrite Hmem in Hy. destruct Hy as [Hy|[Hy|Hy]]; [by left|by right; left|]. right. right. cbn in *. by apply elem_of_cons in Hy as [->|Hy].
Qed.

(** The task of a transport nobody refers to releases it. *)
Definition forget (x : Z) (c : svcxprt) (g : xghost) : xghost :=
  mk_xg (match xp_parent c with Some p => p :: holds g | None => holds g end) (filter (λ k, k.1 ≠ x) (kids g)) (delete x (stages g)).
Definition freed (w : xworld) (x : Z) (ts : list opr_rbtree) (cl : list Z) : xworld :=
  mk_xw (delete x (xprts w)) ts (connections w) (xprt_unique_id w) (filter (λ y, y ≠ x) (tasks w)) cl.

Lemma kid_out (l : list (Z * Z)) x p : NoDup l.*1 → (x, p) ∈ l → l ≡ₚ (x, p) :: filter (λ k, k.1 ≠ x) l.
Proof.
  induction l as [|[y q] l IH]; intros Hnd Hin; [by apply not_elem_of_nil in Hin|]. rewrite fmap_cons in Hnd. apply NoDup_cons in Hnd as [Hn Hnd].
  rewrite filter_cons. apply elem_of_cons in Hin as [[= <- <-]|Hin].
  - rewrite decide_False by auto. f_equiv. rewrite filter_all; [done|]. apply Forall_forall. intros [z r] Hz E. cbn in E. subst z.
    apply Hn. by apply (list_elem_of_fmap_2 fst) in Hz.
  - rewrite decide_True; [|cbn; intros ->; apply Hn; by apply (list_elem_of_fmap_2 fst) in Hin]. rewrite (IH Hnd Hin) at 1. by rewrite Permutation_swap.
Qed.

Lemma kid_none (l : list (Z * Z)) x : x ∉ l.*1 → filter (λ k, k.1 ≠ x) l = l.
Proof. intros Hx. apply filter_all, Forall_forall. intros [z r] Hz E. apply Hx. cbn in E. subst z. by apply (list_elem_of_fmap_2 fst) in Hz. Qed.

Lemma forget_refs max w g L x c y : xinv max w g L → xprts w !! x = Some c → occ y (refs (forget x c g)) = occ y (refs g).
Proof.
  intros Hi Hx. destruct (xi_each _ _ _ _ Hi _ _ Hx) as (st & _ & []). unfold refs. cbn [holds kids forget]. destruct (xp_parent c) as [p|] eqn:Ep.
  - apply occ_perm. rewrite (kid_out (kids g) x p) at 2; [|apply Hi|by apply xo_parent0]. cbn. apply Permutation_middle.
  - rewrite kid_none; [done|]. intros Hk. apply list_elem_of_fmap in Hk as ([x' q] & E & Hk). cbn in E. subst x'. apply xo_parent0 in Hk. done.
Qed.

Lemma forget_few max w g L x c : xinv max w g L → xprts w !! x = Some c → few g → few (forget x c g).
Proof.
  intros Hi Hx Hf. destruct (xi_each _ _ _ _ Hi _ _ Hx) as (st & _ & []). unfold few, refs in *. cbn [holds kids forget].
  destruct (xp_parent c) as [p|] eqn:Ep.
  - rewrite (kid_out (kids g) x p) in Hf; [|apply Hi|by apply xo_parent0]. rewrite fmap_cons in Hf. cbn in *. rewrite length_app in *. cbn in *. lia.
  - rewrite kid_none; [done|]. intros Hk. apply list_elem_of_fmap in Hk as ([x' q] & E & Hk). cbn in E. subst x'. apply xo_parent0 in Hk. done.
Qed.

Lemma freed_ok max w g L x c ts cl : xinv max w g L → xprts w !! x = Some c → x ∈ tasks w →
  tables (delete x (xprts w)) ts L → xinv max (freed w x ts cl) (forget x c g) L.
Proof.
  intros Hi Hx Ht Htb. pose proof (λ y, forget_refs max w g L x c y Hi Hx) as Hocc. destruct (xi_each _ _ _ _ Hi _ _ Hx) as (st & Hst & []).
  assert (Hn : x ∉ refs g). { intros H. apply xocc_pos in H. apply xo_task0 in Ht. destruct st; cbn in *; lia. }
  assert (Hmem : ∀ y, y ∈ refs (forget x c g) ↔ y ∈ refs g) by (intros y; by rewrite <- !xocc_pos, Hocc).
  assert (Hk : ∀ y q, (y, q) ∈ kids (forget x c g) ↔ y ≠ x ∧ (y, q) ∈ kids g) by (intros y q; cbn; by rewrite list_elem_of_filter).
  assert (Hts : ∀ y, x ≠ y → y ∈ filter (λ y, y ≠ x) (tasks w) ↔ y ∈ tasks w) by (intros y Hy; rewrite list_elem_of_filter; intuition).
  destruct Hi. split; cbn [xprts freed tasks xtrees connections]; try done.
  - intros y d [Hne Hd]%lookup_delete_Some. destruct (xi_each0 y d Hd) as (s & Hs & []). exists s. cbn [stages forget].
    rewrite lookup_delete_ne by done. split; [done|]. split; try done; [by rewrite Hocc|by rewrite Hts..|].
    intros q. rewrite Hk, <- xo_parent1. intuition.
  - intros y Hy. assert (Hyx : y ≠ x).
    { intros ->. rewrite Hmem in Hy. destruct Hy as [Hy|[Hy|Hy]]; [done|by apply list_elem_of_filter in Hy as [? _]|].
      apply list_elem_of_fmap in Hy as ([x' q] & E & Hy). cbn in E. subst x'. by apply Hk in Hy as [? _]. }
    rewrite lookup_delete_ne by done. apply xi_live0. rewrite Hmem in Hy. destruct Hy as [Hy|[Hy|Hy]]; [by left|right; left; by apply list_elem_of_filter in Hy as [_ Hy]|].
    right. right. apply list_elem_of_fmap in Hy as ([x' q] & -> & Hy). apply Hk in Hy as [_ Hy]. by apply (list_elem_of_fmap_2 fst) in Hy.
  - cbn [stages forget]. rewrite !dom_delete_L. set_solver.
  - by apply NoDup_filter.
  - cbn [kids forget]. eapply sublist_NoDup; [exact xi_kids0|]. apply fmap_sublist, sublist_filter.
Qed.

Lemma last_ref max w g L x c : xinv max w g L → few g → xprts w !! x = Some c → x ∈ refs g →
  0 < xp_refcnt c < 2 ^ 31 ∧ (xp_refcnt c = 1 → xp_ops c = true ∧ releasing c = false).
Proof.
  intros Hi Hf Hx Hr. pose proof (count_bounds _ _ _ _ _ _ Hi Hf Hx) as Hb. pose proof (linked_count _ _ _ _ _ _ Hi Hx (or_intror Hr)) as Hl.
  destruct (xi_each _ _ _ _ Hi _ _ Hx) as (st & _ & []). apply xocc_pos in Hr. split; [lia|]. intros H1. split.
  - apply xo_ops0. intros ->. cbn in *. lia.
  - apply not_true_iff_false. rewrite xo_releasing0, xo_task0. lia.
Qed.

Lemma task_ok max w g L x : xinv max w g L → few g → x ∈ tasks w →
  ∃ c w', xprts w !! x = Some c ∧ svc_vc_destroy_task w x = Ret w' ∧ xprts w' !! x = None ∧
    xinv max w' (match xp_parent c with Some p => unhold p (forget x c g) | None => forget x c g end) L.
Proof.
  intros Hi Hf Ht. destruct (xi_live _ _ _ _ Hi x) as [c Hx]; [by right; left|]. exists c.
  destruct (xi_each _ _ _ _ Hi _ _ Hx) as (st & Hst & []). pose proof Ht as Hz. apply xo_task0 in Hz.
  assert (HxL : x ∉ L). { rewrite xo_linked0. pose proof (occ_nonneg x (refs g)). destruct st; cbn in *; try done; lia. }
  destruct (tree_at _ _ _ (xp_fd c) (xi_tables _ _ _ _ Hi)) as [t Et].
  pose proof (tables_free _ _ _ x c t (xi_tables _ _ _ _ Hi) Hx Et HxL) as Htb.
  unfold svc_vc_destroy_task. rewrite (xprt_at_ok w x c) by done. cbn [obind]. rewrite Hz. cbn [Z.ltb Z.compare].
  set (w1 := if _ && _ then _ else w). set (w2 := set_tasks _ w1).
  assert (Hw2 : ∃ cl, w2 = mk_xw (xprts w) (xtrees w) (connections w) (xprt_unique_id w) (filter (λ y, y ≠ x) (tasks w)) cl).
  { unfold w2, w1. destruct (_ && _); by eexists. }
  clearbody w2. clear w1. destruct Hw2 as [cl ->]. set (w2 := mk_xw _ _ _ _ _ _).
  pose proof (freed_ok max w g L x c _ cl Hi Hx Ht Htb) as Hi'. set (ts := <[_ := _]> (xtrees w)) in *.
  destruct (xp_parent c) as [p|] eqn:Ep.
  - assert (Hpr : p ∈ refs g). { apply elem_of_app. right. apply (list_elem_of_fmap_2 snd _ (x, p)). by apply xo_parent0. }
    assert (Hxr : x ∉ refs g). { intros H. apply xocc_pos in H. destruct st; cbn in *; lia. }
    destruct (xi_live _ _ _ _ Hi p) as [cp Hp]; [by left|]. assert (Hpx : p ≠ x) by (by intros ->).
    destruct (last_ref max w g L p cp Hi Hf Hp Hpr) as [Hb Hl]. rewrite (release_run w2 p cp) by done. cbn [obind].
    assert (Hph : p ∈ holds (forget x c g)) by (cbn; rewrite Ep; by left).
    assert (Hp' : xprts (freed w x ts cl) !! p = Some cp) by (cbn; by rewrite lookup_delete_ne).
    destruct (xrelease_ok max _ _ L p cp Hi' (forget_few _ _ _ _ _ _ Hi Hx Hf) Hph Hp') as [_ Hi2].
    assert (E1 : tree_of (released w2 p cp) (xp_fd c) = Ret t) by (unfold released, tree_of; destruct (_ <? _); cbn; by rewrite Et).
    rewrite E1. cbn [obind]. eexists. split; [done|]. split; [done|]. split; [apply lookup_delete_eq|].
    assert (E2 : set_tree (xp_fd c) (set_nodes (delete x (rb_nodes t)) t) (set_xprts (delete x (xprts (released w2 p cp))) (released w2 p cp)) =
      released (freed w x ts cl) p cp).
    { unfold released, freed. cbn. destruct (_ <? _); unfold set_tree, put_xprt; cbn; by rewrite delete_insert_ne. }
    by rewrite E2.
  - cbn [obind]. unfold tree_of. change (xtrees w2) with (xtrees w). rewrite Et. cbn [access obind]. eexists. split; [done|]. split; [done|]. split; [apply lookup_delete_eq|exact Hi'].
Qed.

(** ** Histories *)

(** The pieces of the functions, as threads run them. *)
Inductive xop :=
| XRead (fd : Z)
| XWrite (fd x now : Z) (node : opr_rbtree_node)
| XFound (x : Z)
| XUnlock (x : Z)
| XOps (x : Z)
| XReady (x : Z)
| XAdopt (p x : Z)
| XRef (x : Z)
| XRelease (x : Z)
| XBegin (x : Z)
| XUnlink (x : Z)
| XDrop (x : Z)
| XTask (x : Z).

Inductive xres := RDone | RFound (r : nptr) | RCreated (r : created) | RFirst (first : bool).

Definition xexec (max : Z) (op : xop) (w : xworld) : out (xres * xworld) :=
  match op with
  | XRead fd => let! (r, w) := lookup_read w fd in Ret (RFound r, w)
  | XWrite fd x now node => let! (r, w) := lookup_write w max fd x now node in Ret (RCreated r, w)
  | XFound x => let! (r, w) := lookup_found w x in Ret (RFound r, w)
  | XUnlock x => let! w := rpc_dplx_rui w x in Ret (RDone, w)
  | XOps x => let! w := svc_vc_override_ops w x in Ret (RDone, w)
  | XReady x => let! w := xprt_ready w x in Ret (RDone, w)
  | XAdopt p x => let! w := xprt_adopt w p x in Ret (RDone, w)
  | XRef x => let! w := svc_ref_it w x in Ret (RDone, w)
  | XRelease x => let! w := svc_release_it w x in Ret (RDone, w)
  | XBegin x => let! (b, w) := destroy_begin w x in Ret (RFirst b, w)
  | XUnlink x => let! w := destroy_unlink w x in Ret (RDone, w)
  | XDrop x => let! w := svc_release_it w x in Ret (RDone, w)
  | XTask x => let! w := svc_vc_destroy_task w x in Ret (RDone, w)
  end.

(** What a thread may do: use a transport it refers to, take a lock that is free, go on with
    a destruction it began, run a task of the pool; the allocator returns free memory. *)
Definition has (w : xworld) (x : Z) (P : svcxprt → Prop) : Prop := ∃ c, xprts w !! x = Some c ∧ P c.
Definition xpre (op : xop) (w : xworld) (g : xghost) : Prop :=
  few g ∧
  match op with
  | XRead _ => True
  | XWrite _ x _ node => xprts w !! x = None ∧ x ≠ 0 ∧ n_gen node = 0
  | XFound x => x ∈ holds g ∧ has w x (λ c, recv_lock c = false)
  | XUnlock x => x ∈ holds g ∧ has w x (λ c, recv_lock c = true)
  | XOps x | XReady x | XRef x | XRelease x => x ∈ holds g
  | XAdopt p x => p ∈ holds g ∧ x ∈ holds g ∧ p ≠ x ∧ has w x (λ c, xp_parent c = None)
  | XBegin x => x ∈ holds g ∧ has w x (λ c, xp_ops c = true)
  | XUnlink x => stages g !! x = Some Unlinking ∧ has w x (λ c, recv_lock c = false)
  | XDrop x => stages g !! x = Some Dropping
  | XTask x => x ∈ tasks w
  end.

Definition xnext (w : xworld) (op : xop) (r : xres) (g : xghost) : xghost :=
  match op, r with
  | XRead _, RFound (Some x) => hold x g
  | XWrite _ _ _ _, RCreated (Made x) => make x g
  | XWrite _ _ _ _, RCreated (Raced x) => hold x g
  | XFound x, RFound None => unhold x g
  | XAdopt p x, _ => adopt p x g
  | XRef x, _ => hold x g
  | XRelease x, _ => unhold x g
  | XBegin x, RFirst true => set_stage x Unlinking g
  | XUnlink x, _ => set_stage x Dropping g
  | XDrop x, _ => set_stage x Dropped g
  | XTask x, _ =>
      match xprts w !! x with
      | Some c => match xp_parent c with Some p => unhold p (forget x c g) | None => forget x c g end
      | None => g
      end
  | _, _ => g
  end.

Inductive xstep (max : Z) : xworld * xghost → xworld * xghost → Prop :=
| xstep_do op w g r w' : xpre op w g → xexec max op w = Ret (r, w') → xstep max (w, g) (w', xnext w op r g).

Lemma staged_at max w g L x st : xinv max w g L → stages g !! x = Some st → ∃ c, xprts w !! x = Some c.
Proof. intros Hi Hst. apply elem_of_dom_2 in Hst. apply (xi_staged _ _ _ _ Hi), elem_of_dom in Hst. done. Qed.

Lemma xop_ok max w g L op : xinv max w g L → 0 ≤ max < 2 ^ 32 - 1 → xpre op w g →
  ∃ r w' L', xexec max op w = Ret (r, w') ∧ xinv max w' (xnext w op r g) L'.
Proof.
  intros Hi Hmax [Hf Hpre]. destruct op as [fd|fd x now node|x|x|x|x|p x|x|x|x|x|x|x]; cbn [xexec]; cbn in Hpre.
  - destruct (read_ok max w g L fd Hi Hf) as (r & w' & -> & Hr). exists (RFound r), w', L. split; [done|].
    destruct r as [x|]; [apply Hr|destruct Hr as [-> _]; done].
  - destruct Hpre as (Hx & Hx0 & Hg). destruct (xwrite_ok max w g L fd x now node Hi Hf Hmax Hx Hx0 Hg) as (r & w' & -> & Hr).
    destruct r as [|y|y].
    + destruct Hr as [-> _]. by exists (RCreated Refused), w, L.
    + destruct Hr as (-> & Hi' & _). by exists (RCreated (Made x)), w', ({[x]} ∪ L).
    + destruct Hr as (_ & _ & Hi'). by exists (RCreated (Raced y)), w', L.
  - destruct Hpre as (Hh & c & Hx & Hl). destruct (found_ok max w g L x c Hi Hf Hh Hx Hl) as (w' & -> & Hi').
    eexists (RFound _), w', L. split; [done|]. by destruct (any_of (xp_flags c) SVC_XPRT_FLAG_DESTROYED).
  - destruct Hpre as (Hh & c & Hx & Hl). rewrite (rui_ok w x c) by done. eexists RDone, _, L. split; [done|]. by eapply xinv_quiet.
  - destruct (held_at max w g L x Hi Hpre) as [c Hx]. unfold svc_vc_override_ops. rewrite (upd_xprt_ok w x c) by done.
    eexists RDone, _, L. split; [done|]. by eapply xinv_quiet.
  - destruct (held_at max w g L x Hi Hpre) as [c Hx]. unfold xprt_ready. rewrite (set_bits_ok w x c) by done.
    eexists RDone, _, L. split; [done|]. change SVC_XPRT_FLAG_READY with (2 ^ 10).
    eapply xinv_quiet; try done; unfold destroying, releasing; cbn; rewrite any_set by done; by rewrite orb_false_r.
  - destruct Hpre as (Hp & Hh & Hne & c & Hx & Hpar). destruct (held_at max w g L p Hi Hp) as [cp Hcp].
    destruct (adopt_ok max w g L p x cp c Hi Hf Hp Hne Hcp Hx Hpar) as (w' & -> & Hi'). by exists RDone, w', L.
  - destruct (held_at max w g L x Hi Hpre) as [c Hx]. destruct (ref_ok max w g L x c Hi Hf Hx) as [-> Hi'].
    { eapply linked_count; [done|done|]. right. apply elem_of_app. by left. }
    by eexists RDone, _, L.
  - destruct (held_at max w g L x Hi Hpre) as [c Hx]. destruct (xrelease_ok max w g L x c Hi Hf Hpre Hx) as [-> Hi']. by eexists RDone, _, L.
  - destruct Hpre as (Hh & c & Hx & Ho). destruct (xi_each _ _ _ _ Hi _ _ Hx) as (st & Hst & _).
    destruct (begin_ok max w g L x c st Hi Hx Hst Ho) as (-> & Hi'). eexists (RFirst _), _, L. split; [done|]. by destruct (bool_decide (st = Linked)).
  - destruct Hpre as (Hst & c & Hx & Hl). destruct (unlink_ok max w g L x c Hi Hmax Hx Hl Hst) as (w' & -> & _ & Hi'). by eexists RDone, w', _.
  - destruct (staged_at max w g L x _ Hi Hpre) as [c Hx]. destruct (drop_ok max w g L x c Hi Hf Hx Hpre) as [-> Hi']. by eexists RDone, _, L.
  - destruct (task_ok max w g L x Hi Hf Hpre) as (c & w' & Hx & -> & _ & Hi'). eexists RDone, w', L. split; [done|]. cbn [xnext]. by rewrite Hx.
Qed.

Definition xghost_init : xghost := mk_xg [] [] ∅.

Lemma xinit_inv max : 0 ≤ max → xinv max svc_xprt_init xghost_init ∅.
Proof.
  intros Hm. split; try done; [apply tables_init| |by constructor|by constructor].
  intros y Hy. exfalso. cbn in Hy. destruct Hy as [Hy|[Hy|Hy]]; by apply not_elem_of_nil in Hy.
Qed.

Lemma xreach_inv max w g : 0 ≤ max < 2 ^ 32 - 1 → rtc (xstep max) (svc_xprt_init, xghost_init) (w, g) → ∃ L, xinv max w g L.
Proof.
  intros Hmax. refine (rtc_ind_r (λ s, ∃ L, xinv max s.1 s.2 L) (svc_xprt_init, xghost_init) _ _ (w, g)).
  - exists ∅. apply xinit_inv. lia.
  - intros s1 s2 _ Hs [L Hi]. destruct Hs as [op w0 g0 r w' Hpre E]. cbn [fst snd] in *.
    destruct (xop_ok max w0 g0 L op Hi Hmax Hpre) as (r' & w1 & L' & E' & Hi'). exists L'. congruence.
Qed.

(** C16. Transports of a server, in every history of lookups, creations, references, releases,
    destructions and tasks of the pool whose pieces any number of threads run in any order,
    where a thread uses transports it refers to and goes on with the destructions it began:
    every permitted operation returns, so no thread touches a transport that has been
    released or fails an assertion; the count of a transport is the number of references to
    it, of callers and of the connections it accepted, and one more until its destruction has
    dropped the reference it was made with; whoever refers to a transport finds it in memory;
    a search finds exactly the transport with the descriptor whose destruction has not taken
    it from the table, of which there is one at most; and there are never more than the
    limit.

    The histories are those [xpre] permits: the allocator returns free memory that is not at
    0; a receive lock is taken when it is free and released when it is held; a connection is
    adopted by another transport, once; a destruction is begun on a transport whose operations
    have been set, for without them [svc_destroy_it] calls through a null pointer once it has
    waited ten turns in vain ([destroy_without_ops]); there are fewer than 2 ^ 31 - 2
    references at any moment, and the limit is below 2 ^ 32 - 1. *)
Theorem transports_sound max w g : 0 ≤ max < 2 ^ 32 - 1 → rtc (xstep max) (svc_xprt_init, xghost_init) (w, g) →
  (∀ op, xpre op w g → ∃ r w', xexec max op w = Ret (r, w')) ∧
  (∀ x c, xprts w !! x = Some c → ∃ st, stages g !! x = Some st ∧ xp_refcnt c = occ x (refs g) + owes st) ∧
  (∀ x, x ∈ refs g → is_Some (xprts w !! x)) ∧
  (∀ fd x, xprt_find w fd = Ret (Some x) ↔
     ∃ c st, xprts w !! x = Some c ∧ xp_fd c = fd ∧ stages g !! x = Some st ∧ in_table st = true) ∧
  connections w ≤ max.
Proof.
  intros Hmax Hr. destruct (xreach_inv max w g Hmax Hr) as [L Hi]. split; [|split; [|split; [|split]]].
  - intros op Hpre. destruct (xop_ok max w g L op Hi Hmax Hpre) as (r & w' & _ & E & _). by exists r, w'.
  - intros x c Hx. destruct (xi_each _ _ _ _ Hi _ _ Hx) as (st & Hst & []). by exists st.
  - intros x Hx. apply (xi_live _ _ _ _ Hi). by left.
  - intros fd x. destruct (find_ok w L fd (xi_tables _ _ _ _ Hi)) as (r & -> & Hf). split.
    + intros [= ->]. destruct Hf as (HxL & c & Hx & Hfd). destruct (xi_each _ _ _ _ Hi _ _ Hx) as (st & Hst & []).
      exists c, st. by rewrite <- xo_linked0.
    + intros (c & st & Hx & Hfd & Hst & Hin). destruct (xi_each _ _ _ _ Hi _ _ Hx) as (st0 & Hst0 & []). assert (st0 = st) as -> by congruence.
      apply xo_linked0 in Hin. destruct r as [y|]; [|by destruct (Hf x c Hin Hx)]. destruct Hf as (HyL & d & Hy & Hfd').
      by rewrite (linked_inj _ _ _ x y c d (xi_tables _ _ _ _ Hi)) by (try done; congruence).
  - rewrite (xi_conns _ _ _ _ Hi). apply Hi.
Qed.

(** ** An example *)

(** A transport for the descriptor 5 at address 16. *)
Definition a_xnode : opr_rbtree_node := mk_node None None None false 0.
Definition run1 (s : xworld * xghost) (op : xop) : xworld * xghost :=
  match xexec 100 op s.1 with Ret (r, w) => (w, xnext s.1 op r s.2) | _ => s end.
Definition a_server : xworld * xghost := foldl run1 (svc_xprt_init, xghost_init) [XWrite 5 16 9 a_xnode; XOps 16; XUnlock 16; XRead 5].

Lemma run1_step s op : xpre op s.1 s.2 → match xexec 100 op s.1 with Ret _ => true | _ => false end = true → xstep 100 s (run1 s op).
Proof.
  intros Hpre E. unfold run1. destruct s as [w g]. cbn [fst snd] in *. destruct (xexec 100 op w) as [[r w']| | |] eqn:Ex; [|discriminate E..].
  by constructor.
Qed.

Lemma a_server_reached : rtc (xstep 100) (svc_xprt_init, xghost_init) a_server.
Proof.
  unfold a_server. cbn [foldl].
  eapply rtc_l; [apply (run1_step _ (XWrite 5 16 9 a_xnode)); [split; [by vm_compute|by split_and!]|by vm_compute]|].
  eapply rtc_l; [apply (run1_step _ (XOps 16)); [split; [by vm_compute|vm_compute; by left]|by vm_compute]|].
  eapply rtc_l; [apply (run1_step _ (XUnlock 16)); [|by vm_compute]|].
  { split; [by vm_compute|]. split; [vm_compute; by left|]. eexists. split; vm_compute; reflexivity. }
  apply rtc_once, (run1_step _ (XRead 5)); [|by vm_compute]. split; [by vm_compute|done].
Qed.

Lemma transports_sound_witness : xprt_find a_server.1 5 = Ret (Some 16) ∧ xp_refcnt <$> xprts a_server.1 !! 16 = Some 3 ∧
  ∃ r w', xexec 100 (XBegin 16) a_server.1 = Ret (r, w').
Proof.
  destruct (transports_sound 100 a_server.1 a_server.2 ltac:(done)) as (Hop & Hc & _ & Hf & _).
  { pose proof a_server_reached as H. by destruct a_server. }
  assert (∃ c, xprts a_server.1 !! 16 = Some c ∧ xp_fd c = 5 ∧ xp_ops c = true) as (c & Hx & Hfd & Ho).
  { eexists. split; [vm_compute; reflexivity|]. split; vm_compute; reflexivity. }
  assert (Hst : stages a_server.2 !! 16 = Some Linked) by (vm_compute; reflexivity).
  split; [apply Hf; exists c, Linked; split; [exact Hx|]; split; [exact Hfd|]; split; [exact Hst|reflexivity]|]. split.
  - rewrite Hx. cbn [fmap option_fmap option_map]. destruct (Hc 16 c Hx) as (st & Hst' & ->). assert (st = Linked) as -> by congruence. vm_compute. reflexivity.
  - apply Hop. split; [by vm_compute|]. split; [vm_compute; by left|]. exists c. split; [exact Hx|exact Ho].
Defined.
