(* ===== verification/SvcXprtErrors.v ===== *)
(** * Where the table of transports goes wrong (src/svc_xprt.c, src/svc_vc.c, src/svc.c)

    A lookup that finds a transport does not return its lock, a transport can be destroyed
    before it has operations, and two races. *)
From stdpp Require Import base gmap list fin_maps fin_sets relations.
From Stdlib Require Import ZArith Lia.
From S2P Require Import Prelude Machine RbTree RbTreeTheorems RbTable SvcXprt SvcXprtFacts SvcXprtTheorems.

(** ** Locks *)

(** A lookup that finds a transport in use returns one more reference, without the lock of
    the transport, and clears SVC_XPRT_FLAG_INITIAL for a transport that is ready only. *)
Lemma lookup_existing max w g L fd x c setup : xinv max w g L → few g → x ∈ L → xprts w !! x = Some c → xp_fd c = fd →
  recv_lock c = false → any_of (xp_flags c) SVC_XPRT_FLAG_DESTROYED = false →
  let ready := any_of (xp_flags c) SVC_XPRT_FLAG_READY in
  let c' := set_lock false (set_flags (if ready then Z.land (xp_flags c) (Z.lnot SVC_XPRT_FLAG_INITIAL) else xp_flags c)
              (set_refcnt (xp_refcnt c + 1) c)) in
  svc_xprt_lookup w max fd setup = Ret (Some x, put_xprt w x c').
Proof.
  intros Hi Hf HxL Hx Hfd Hl Hd ready c'. unfold svc_xprt_lookup, lookup_read.
  destruct (find_ok w L fd (xi_tables _ _ _ _ Hi)) as (r & -> & Hr). cbn [obind].
  destruct r as [y|]; [|by destruct (Hr x c)]. destruct Hr as (HyL & d & Hy & Hfd').
  assert (y = x) as -> by (eapply (linked_inj _ _ _ y x d c); [apply Hi|done|done|done|done|congruence]).
  destruct (ref_ok max w g L x c Hi Hf Hx) as [-> _]; [eapply linked_count; eauto|]. cbn [obind]. unfold lookup_found.
  rewrite (rli_ok _ x _ (put_xprt_at _ _ _)). cbn [obind]. rewrite put_xprt_put, (xprt_at_ok _ x _ (put_xprt_at _ _ _)).
  cbn [obind xp_flags set_lock set_refcnt]. rewrite Hd. fold ready. unfold c'. destruct ready.
  - rewrite (clear_bits_ok _ x _ _ (put_xprt_at _ _ _)). cbn [obind]. rewrite put_xprt_put.
    rewrite (rui_ok _ x _ (put_xprt_at _ _ _)) by done. cbn [obind]. by rewrite put_xprt_put.
  - cbn [obind]. rewrite (rui_ok _ x _ (put_xprt_at _ _ _)) by done. cbn [obind]. rewrite put_xprt_put. by destruct c.
Qed.

(** Giving back a lock nobody holds. *)
Lemma rui_free w x c : xprts w !! x = Some c → recv_lock c = false → rpc_dplx_rui w x = Ub.
Proof. intros Hx Hl. unfold rpc_dplx_rui. rewrite (xprt_at_ok w x c) by done. cbn. by rewrite Hl. Qed.

(** Making a transport for a descriptor that has one already unlocks a lock that is not
    held: the comment on svc_xprt_lookup says that it returns the transport locked, and
    makefd_xprt unlocks what it finds initialized, but a lookup that finds a transport has
    given its lock back. *)
Theorem makefd_again_unlocks max w g L fd x c flags setup sockinfo netid : xinv max w g L → few g → x ∈ L → xprts w !! x = Some c →
  xp_fd c = fd → recv_lock c = false → any_of (xp_flags c) SVC_XPRT_FLAG_DESTROYED = false →
  any_of (xp_flags c) SVC_XPRT_FLAG_INITIALIZED = true → makefd_xprt w max fd flags setup sockinfo netid = Ub.
Proof.
  intros Hi Hf HxL Hx Hfd Hl Hd Hini. unfold makefd_xprt. rewrite (lookup_existing max w g L fd x c) by done. cbn [obind].
  rewrite (set_bits_ok _ x _ _ (put_xprt_at _ _ _)). cbn [obind xp_flags set_lock set_flags set_refcnt]. rewrite put_xprt_put.
  change SVC_XPRT_FLAG_INITIALIZED with (2 ^ 3) in *. change SVC_XPRT_FLAG_INITIAL with (2 ^ 2).
  assert (E : any_of (if any_of (xp_flags c) SVC_XPRT_FLAG_READY then Z.land (xp_flags c) (Z.lnot (2 ^ 2)) else xp_flags c) (2 ^ 3) = true).
  { destruct (any_of (xp_flags c) SVC_XPRT_FLAG_READY); [|done]. rewrite any_clear by done. by rewrite Hini. }
  rewrite E. by rewrite (rui_free _ x _ (put_xprt_at _ _ _)).
Qed.

(** So does validating a transport that is in the table. *)
Theorem validate_unlocks max w g L x c : xinv max w g L → few g → x ∈ L → xprts w !! x = Some c → recv_lock c = false →
  any_of (xp_flags c) SVC_XPRT_FLAG_DESTROYED = false → svc_validate_xprt_list w x = Ub.
Proof.
  intros Hi Hf HxL Hx Hl Hd. unfold svc_validate_xprt_list. rewrite (xprt_at_ok w x c) by done. cbn [obind].
  destruct (find_ok w L (xp_fd c) (xi_tables _ _ _ _ Hi)) as (r & Er & Hr).
  assert (E : svc_xprt_lookup w 0 (xp_fd c) None = svc_xprt_lookup w max (xp_fd c) None) by done.
  rewrite E, (lookup_existing max w g L (xp_fd c) x c) by done. cbn [obind]. rewrite bool_decide_true by done.
  by rewrite (rui_free _ x _ (put_xprt_at _ _ _)).
Qed.

(** ** Transports without operations *)

(** A transport is in the table before it has operations; destroying it then, as a shutdown
    does, follows a null pointer after ten turns of waiting. *)
Theorem destroy_without_ops max w g L x c : xinv max w g L → xprts w !! x = Some c → xp_ops c = false → svc_destroy_it w x = Ub.
Proof.
  intros Hi Hx Ho. destruct (xi_each _ _ _ _ Hi _ _ Hx) as (st & Hst & [_ _ Hde _ _ Hop _]). assert (st = Linked) as ->.
  { apply dec_stable. intros Hne. by rewrite Hop in Ho. }
  unfold svc_destroy_it, destroy_begin. rewrite (set_bits_ok w x c) by done. cbn [obind]. change SVC_XPRT_FLAG_DESTROYING with (2 ^ 5).
  unfold destroying in Hde. rewrite Hde. cbn [bool_decide negb obind]. unfold destroy_unlink.
  rewrite bool_decide_true by done. cbn [negb]. rewrite (xprt_at_ok _ x _ (put_xprt_at _ _ _)). cbn [obind xp_ops set_flags]. by rewrite Ho.
Qed.

(** ** Races *)

(** Three transports of one partition, ready to use. *)
Definition three_up : list xop :=
  [XWrite 5 16 9 a_xnode; XOps 16; XReady 16; XUnlock 16; XWrite 198 32 9 a_xnode; XOps 32; XReady 32; XUnlock 32;
   XWrite 391 48 9 a_xnode; XOps 48; XReady 48; XUnlock 48].
Definition three : xworld := (foldl run1 (svc_xprt_init, xghost_init) three_up).1.

(** A walk of svc_xprt_foreach that has reached the transport at [x], up to its check of the
    generation of the tree. *)
Definition walk_at (w : xworld) (x : Z) : out xworld :=
  let! w := svc_ref_it w x in let! (_, w) := set_bits w x SVC_XPRT_TREE_LOCKED in Ret w.

(** Another thread destroys that transport meanwhile: whether it takes the lock of the tree,
    and where the walk goes on without and with it. *)
Definition walk_race (w : xworld) (fd x : Z) : out (bool * nptr * nptr) :=
  let! w := walk_at w x in
  let! t := tree_of w fd in
  let! undisturbed := opr_rbtree_next t x in
  let! (_, w) := destroy_begin w x in
  let! c := xprt_at w x in
  let! w := destroy_unlink w x in
  let! t := tree_of w fd in
  let! next := opr_rbtree_next t x in
  Ret (takes_lock c, undisturbed, next).

(** The mark that the tree is locked is on the transport and not on the thread: the other
    thread changes the tree under the lock of the walk, which then goes back to a transport
    it has been at and not on to the next. *)
Theorem walk_misled : walk_race three 198 32 = Ret (false, Some 48, Some 16).
Proof. vm_compute. reflexivity. Qed.

(** A shutdown that has taken the transport at [x] from its tree and let go of the lock,
    while another thread that refers to it destroys it, releases it and the pool runs its
    task. *)
Definition shutdown_race (w : xworld) (fd x : Z) : out (bool * xworld) :=
  let! t := tree_of w fd in
  let! t := opr_rbtree_remove t x in
  let w := set_tree fd t w in
  let! w := svc_destroy_it w x in
  let! w := svc_release_it w x in
  let! w := svc_vc_destroy_task w x in
  Ret (bool_decide (xprts w !! x = None), w).

(** The shutdown then destroys a transport that is gone: it holds no reference of its own. *)
Theorem shutdown_uses_released :
  match shutdown_race three 198 32 with Ret (true, w) => svc_destroy_it w 32 = Ub | _ => False end.
Proof. vm_compute. reflexivity. Qed.
