(* ===== verification/SvcXprtClean.v ===== *)
(** * Cleaning up idle transports (svc_xprt_foreach with svc_rqst_clean_func)

    A walk through every tree that begins again whenever it has destroyed a transport, for a
    server whose threads are quiet meanwhile. *)
From stdpp Require Import base gmap list fin_maps fin_sets relations.
From Stdlib Require Import ZArith Lia.
From S2P Require Import Prelude Machine RbTree RbTreeTheorems RbTable SvcXprt SvcXprtFacts SvcXprtTheorems.

Lemma table_next key t l1 x l2 : table key t (l1 ++ x :: l2) → opr_rbtree_next t x = Ret (head l2).
Proof. intros (W & Hv & _ & E). by apply (walk_valid (cmp_by key) t W l1 x l2). Qed.

(** No thread is at work: the locks are free and no walk has marked a transport. *)
Definition calm (w : xworld) : Prop :=
  ∀ y c, xprts w !! y = Some c → recv_lock c = false ∧ any_of (xp_flags c) (2 ^ 8) = false.

(** ** One transport *)

Lemma any_three f : any_of f (Z.lor SVC_XPRT_FLAG_DESTROYED SVC_XPRT_FLAG_UREG) =
  any_of f (2 ^ 5) || any_of f (2 ^ 6) || any_of f (2 ^ 7).
Proof.
  change (Z.lor SVC_XPRT_FLAG_DESTROYED SVC_XPRT_FLAG_UREG) with (Z.lor (2 ^ 5) (Z.lor (2 ^ 6) (2 ^ 7))). unfold any_of.
  rewrite !Z.land_lor_distr_r. apply eq_true_iff_eq. rewrite !orb_true_iff, !negb_true_iff, !Z.eqb_neq, !Z.lor_eq_0_iff. lia.
Qed.

(** What [xprt_idle] reads. *)
Lemma idle_same now timeout c c' : xp_ops c' = xp_ops c → recv_ts c' = recv_ts c →
  (∀ k, 5 ≤ k ≤ 7 → any_of (xp_flags c') (2 ^ k) = any_of (xp_flags c) (2 ^ k)) → xprt_idle now timeout c' = xprt_idle now timeout c.
Proof. intros Ho Ht Hf. unfold xprt_idle. by rewrite Ho, Ht, !any_three, !Hf by lia. Qed.

Lemma idle_linked max w g L x c now timeout : xinv max w g L → xprts w !! x = Some c → xprt_idle now timeout c = true →
  stages g !! x = Some Linked ∧ x ∈ L ∧ xp_ops c = true.
Proof.
  intros Hi Hx Hid. unfold xprt_idle in Hid. rewrite any_three in Hid. apply andb_true_iff in Hid as [[Ho Hf]%andb_true_iff _].
  apply negb_true_iff, orb_false_iff in Hf as [[Hd _]%orb_false_iff _]. destruct (xi_each _ _ _ _ Hi _ _ Hx) as (st & Hst & [_ Hl Hde _ _ _ _]).
  unfold destroying in Hde. rewrite Hd in Hde. symmetry in Hde. apply negb_false_iff, bool_decide_eq_true in Hde as ->.
  split; [done|]. split; [by apply Hl|done].
Qed.

(** The transport as the walk shows it to its function. *)
Definition shown (c : svcxprt) : svcxprt := set_flags (Z.lor (xp_flags c) (2 ^ 8)) (set_refcnt (xp_refcnt c + 1) c).

Lemma shown_ok max w g L x c : xinv max w g L → few g → xprts w !! x = Some c → 0 < xp_refcnt c →
  (let! w := svc_ref_it w x in let! (_, w) := set_bits w x SVC_XPRT_TREE_LOCKED in Ret w) = Ret (put_xprt w x (shown c)) ∧
  xinv max (put_xprt w x (shown c)) (hold x g) L.
Proof.
  intros Hi Hf Hx Hr. destruct (ref_ok max w g L x c Hi Hf Hx Hr) as [-> Hi1]. cbn [obind].
  rewrite (set_bits_ok _ x _ _ (put_xprt_at _ _ _)). cbn [obind]. rewrite put_xprt_put. split; [done|].
  rewrite <- (put_xprt_put w x (set_refcnt (xp_refcnt c + 1) c)). eapply xinv_quiet; [exact Hi1|apply put_xprt_at|done|done|done| | |done];
    unfold destroying, releasing; cbn; rewrite any_set by done; by rewrite orb_false_r.
Qed.

Lemma unmark f : any_of f (2 ^ 8) = false → Z.land (Z.lor f (2 ^ 8)) (Z.lnot (2 ^ 8)) = f.
Proof.
  intros H. rewrite any_of_bit in H by done. apply Z.bits_inj'. intros i Hi. rewrite Z.land_spec, Z.lor_spec, Z.lnot_spec, Z.pow2_bits_eqb by done.
  destruct (Z.eqb_spec 8 i) as [<-|]; [by rewrite H|]. by rewrite orb_false_r, andb_true_r.
Qed.

(** A transport that is left alone is as it was. *)
Lemma left_alone w x c : xprts w !! x = Some c → 0 < xp_refcnt c < 2 ^ 31 - 1 → any_of (xp_flags c) (2 ^ 8) = false →
  foreach_done (put_xprt w x (shown c)) x = Ret w.
Proof.
  intros Hx Hr Hf. unfold foreach_done. rewrite (clear_bits_ok _ x _ _ (put_xprt_at _ _ _)). cbn [obind]. rewrite put_xprt_put.
  cbn [xp_flags shown set_flags]. change SVC_XPRT_TREE_LOCKED with (2 ^ 8). rewrite unmark by done. set (c1 := set_flags _ (shown c)).
  rewrite (release_run _ x c1); [|apply put_xprt_at|cbn; lia|cbn; lia]. unfold released. cbn [xp_refcnt c1 shown set_flags set_refcnt].
  rewrite (proj2 (Z.ltb_lt _ _)) by lia. rewrite put_xprt_put. unfold put_xprt. replace (xp_refcnt c + 1 - 1) with (xp_refcnt c) by lia.
  replace (set_refcnt (xp_refcnt c) c1) with c by (by destruct c). rewrite insert_id by done. by destruct w.
Qed.

(** A transport that has been destroyed: one reference less, out of the table. *)
Record destroyed (c c' : svcxprt) : Prop := {
  de_count : xp_refcnt c' = xp_refcnt c - 1;
  de_flag : destroying c' = true;
  de_lock : recv_lock c' = false;
  de_mark : any_of (xp_flags c') (2 ^ 8) = false;
}.

Lemma released_at w x c : ∃ f, xprts (released w x c) = <[x := set_flags f (set_refcnt (xp_refcnt c - 1) c)]> (xprts w) ∧
  (∀ k, 0 ≤ k → k ≠ 6 → any_of f (2 ^ k) = any_of (xp_flags c) (2 ^ k)).
Proof.
  unfold released. cbn [xp_refcnt set_refcnt xp_flags]. destruct (0 <? _).
  - exists (xp_flags c). split; [by destruct c|done].
  - exists (Z.lor (xp_flags c) (2 ^ 6)). split; [done|]. intros k Hk Hne. rewrite any_set by done.
    rewrite (proj2 (Z.eqb_neq 6 k)) by done. by rewrite orb_false_r.
Qed.

Lemma clean_one max w g L x c now timeout : xinv max w g L → few (hold x g) → 0 ≤ max < 2 ^ 32 - 1 → xprts w !! x = Some c →
  recv_lock c = false → xprt_idle now timeout c = true →
  ∃ w1 w2 c', svc_rqst_clean_func now timeout (put_xprt w x (shown c)) x = Ret (true, w1) ∧ foreach_done w1 x = Ret w2 ∧
    xprts w2 = <[x := c']> (xprts w) ∧ destroyed c c' ∧ xinv max w2 (set_stage x Dropped g) (L ∖ {[x]}).
Proof.
  intros Hi Hf Hmax Hx Hl Hid. destruct (idle_linked max w g L x c now timeout Hi Hx Hid) as (Hst & HxL & Ho).
  assert (Hf0 : few g) by (unfold few, refs in *; cbn in Hf; lia).
  destruct (shown_ok max w g L x c Hi Hf0 Hx) as [_ Hi1]; [eapply linked_count; eauto|].
  unfold svc_rqst_clean_func. rewrite (xprt_at_ok _ x _ (put_xprt_at _ _ _)). cbn [obind].
  rewrite (idle_same now timeout c (shown c) eq_refl eq_refl), Hid.
  2:{ intros k Hk. cbn. rewrite any_set by lia. rewrite (proj2 (Z.eqb_neq 8 k)) by lia. by rewrite orb_false_r. }
  unfold svc_destroy_it. destruct (begin_ok max _ _ L x (shown c) Linked Hi1 (put_xprt_at _ _ _) Hst Ho) as [-> Hi2].
  rewrite bool_decide_true in * by done. cbn [obind negb]. rewrite put_xprt_put in *. set (c2 := set_flags _ (shown c)) in *.
  destruct (unlink_ok max _ _ L x c2 Hi2 Hmax (put_xprt_at _ _ _) Hl (lookup_insert_eq _ _ _)) as (w3 & -> & E3 & Hi3). cbn [obind].
  cbn [put_xprt xprts set_xprts] in E3. rewrite insert_insert_eq in E3. set (c3 := set_flags _ c2) in E3.
  assert (Hx3 : xprts w3 !! x = Some c3) by (rewrite E3; apply lookup_insert_eq).
  destruct (drop_ok max w3 _ _ x c3 Hi3 Hf Hx3 (lookup_insert_eq _ _ _)) as [-> Hi4]. cbn [obind].
  destruct (released_at w3 x c3) as (f4 & E4 & Hf4). set (c4 := set_flags f4 _) in E4. set (w4 := released w3 x c3) in *.
  assert (Hx4 : xprts w4 !! x = Some c4) by (rewrite E4; apply lookup_insert_eq).
  set (c5 := set_flags (Z.land (xp_flags c4) (Z.lnot SVC_XPRT_TREE_LOCKED)) c4).
  assert (Hi5 : xinv max (put_xprt w4 x c5) _ _) by (eapply xinv_quiet; [exact Hi4|exact Hx4|done|done|done| | |done];
    unfold destroying, releasing, c5; cbn [xp_flags set_flags]; change SVC_XPRT_TREE_LOCKED with (2 ^ 8); rewrite any_clear by done; by rewrite andb_true_r).
  destruct (xrelease_ok max _ _ _ x c5 Hi5 Hf (list_elem_of_here _ _) (put_xprt_at _ _ _)) as [E6 Hi6].
  destruct (released_at (put_xprt w4 x c5) x c5) as (f6 & E7 & Hf6). eexists w4, _, _. split; [done|].
  split; [unfold foreach_done; rewrite (clear_bits_ok w4 x c4) by done; exact E6|].
  split; [rewrite E7; cbn [put_xprt xprts set_xprts]; by rewrite insert_insert_eq, E4, insert_insert_eq, E3, insert_insert_eq|]. split.
  - split.
    + cbn. lia.
    + unfold destroying. cbn [xp_flags set_flags]. rewrite Hf6 by done. cbn [xp_flags c5 set_flags]. change SVC_XPRT_TREE_LOCKED with (2 ^ 8).
      rewrite any_clear by done. cbn [xp_flags c4 set_flags]. rewrite Hf4 by done. cbn [xp_flags c3 c2 set_flags]. rewrite any_clear, any_set by done.
      by rewrite orb_true_r.
    + done.
    + cbn [xp_flags set_flags]. rewrite Hf6 by done. cbn [xp_flags c5 set_flags]. change SVC_XPRT_TREE_LOCKED with (2 ^ 8). rewrite any_clear by done.
      by rewrite andb_false_r.
  - replace (set_stage x Dropped g) with (unhold x (set_stage x Dropped (set_stage x Dropping (set_stage x Unlinking (hold x g))))); [done|].
    unfold unhold, set_stage, hold. cbn [holds kids stages less]. rewrite decide_True by done. by rewrite !insert_insert_eq.
Qed.

(** ** The walk *)

Section Clean.
Context (max now timeout : Z) (Hmax : 0 ≤ max < 2 ^ 32 - 1).
Abbreviation is_idle := (xprt_idle now timeout).
Abbreviation clean := (svc_rqst_clean_func now timeout).

(** What cleaning does: idle transports are destroyed, the others stay as they are. *)
Record cleaned (w : xworld) (g : xghost) (w' : xworld) (g' : xghost) : Prop := {
  cl_inv : ∃ L', xinv max w' g' L';
  cl_calm : calm w';
  cl_refs : refs g' = refs g;
  cl_dom y : is_Some (xprts w' !! y) → is_Some (xprts w !! y);
  cl_each y c : xprts w !! y = Some c →
    xprts w' !! y = Some c ∨ (is_idle c = true ∧ ∃ c', xprts w' !! y = Some c' ∧ destroyed c c');
}.

Lemma destroyed_busy c c' : destroyed c c' → is_idle c' = false.
Proof.
  intros [_ Hd _ _]. unfold xprt_idle. rewrite any_three. unfold destroying in Hd. rewrite Hd. cbn [orb negb]. by rewrite andb_false_r.
Qed.

Lemma cleaned_trans w1 g1 w2 g2 w3 g3 : cleaned w1 g1 w2 g2 → cleaned w2 g2 w3 g3 → cleaned w1 g1 w3 g3.
Proof.
  intros [_ _ Hr1 Hd1 He1] [Hi Hc Hr2 Hd2 He2]. split; [done|done|congruence|auto|]. intros y c Hy. destruct (He1 y c Hy) as [Hy2|(Hid & c' & Hy2 & Hd)].
  - by apply He2.
  - right. split; [done|]. exists c'. split; [|done]. destruct (He2 y c' Hy2) as [?|[Hid' _]]; [done|]. by rewrite (destroyed_busy c c' Hd) in Hid'.
Qed.

Lemma few_hold x g : Zlen (refs g) < 2 ^ 31 - 3 → few (hold x g).
Proof. unfold few, refs. cbn. rewrite !length_app. cbn. lia. Qed.

Lemma cleaned_one w g L x c c' w' : xinv max w g L → calm w → xprts w !! x = Some c → is_idle c = true → xprts w' = <[x := c']> (xprts w) →
  destroyed c c' → xinv max w' (set_stage x Dropped g) (L ∖ {[x]}) → cleaned w g w' (set_stage x Dropped g).
Proof.
  intros Hi Hc Hx Hid E Hd Hi'. split; [by eexists| |done| |].
  - intros y d. rewrite E. destruct (decide (y = x)) as [->|Hne]; [|rewrite lookup_insert_ne by done; apply Hc].
    rewrite lookup_insert_eq. intros [= <-]. by destruct Hd.
  - intros y. rewrite E. destruct (decide (y = x)) as [->|Hne]; [by eexists|by rewrite lookup_insert_ne].
  - intros y d Hy. rewrite E. destruct (decide (y = x)) as [->|Hne]; [|left; by rewrite lookup_insert_ne].
    assert (d = c) as -> by congruence. right. split; [done|]. exists c'. by rewrite lookup_insert_eq.
Qed.

Lemma walk_ok w g L p t : xinv max w g L → calm w → Zlen (refs g) < 2 ^ 31 - 3 → xtrees w !! p = Some t →
  ∀ l2 l1 fuel, table (fd_of (xprts w)) t (l1 ++ l2) → (∀ y, y ∈ l2 → y ∈ L) → (length l2 ≤ fuel)%nat →
  ∃ again w', foreach_walk clean fuel w p (rb_gen t) (head l2) = Ret (again, w') ∧
    if again : bool then ∃ g', cleaned w g w' g' else w' = w ∧ ∀ y c, y ∈ l2 → xprts w !! y = Some c → is_idle c = false.
Proof.
  intros Hi Hcalm Hfew Et. assert (Hf : few g) by (unfold few; lia).
  induction l2 as [|x l2 IH]; intros l1 fuel Ht HL Hfu.
  { exists false, w. destruct fuel; (split; [done|]); (split; [done|]); intros y c Hy; by apply not_elem_of_nil in Hy. }
  destruct fuel as [|fuel]; [cbn in Hfu; lia|]. cbn [head foreach_walk]. assert (HxL : x ∈ L) by (apply HL; by left).
  pose proof (tb_live _ _ _ (xi_tables _ _ _ _ Hi) _ HxL) as [c Hx]%elem_of_dom. destruct (Hcalm x c Hx) as [Hlk Hmk].
  rewrite (xprt_at_ok w x c) by done. cbn [obind]. pose proof (linked_count max w g L x c Hi Hx (or_introl HxL)) as Hr.
  destruct (shown_ok max w g L x c Hi Hf Hx Hr) as [Es _]. destruct (ref_ok max w g L x c Hi Hf Hx Hr) as [Er _].
  rewrite Er in Es |- *. cbn [obind] in Es |- *. destruct (set_bits _ x _) as [[f w1]| | |]; try done. cbn [obind] in Es |- *. injection Es as ->.
  destruct (is_idle c) eqn:Hid.
  - destruct (clean_one max w g L x c now timeout Hi (few_hold x g Hfew) Hmax Hx Hlk Hid) as (w1 & w2 & c' & -> & Ed & E2 & Hd & Hi2).
    cbn [obind]. rewrite Ed. cbn [obind]. exists true, w2. split; [done|]. eexists. by eapply cleaned_one.
  - assert (Ec : clean (put_xprt w x (shown c)) x = Ret (false, put_xprt w x (shown c))).
    { unfold svc_rqst_clean_func. rewrite (xprt_at_ok _ x _ (put_xprt_at _ _ _)). cbn [obind].
      rewrite (idle_same now timeout c (shown c) eq_refl eq_refl), Hid; [done|].
      intros k Hk. cbn. rewrite any_set by lia. rewrite (proj2 (Z.eqb_neq 8 k)) by lia. by rewrite orb_false_r. }
    rewrite Ec. cbn [obind]. change (xtrees (put_xprt w x (shown c))) with (xtrees w). rewrite Et. cbn [access obind]. rewrite Z.eqb_refl. cbn [obind].
    rewrite (table_next _ t l1 x l2 Ht). cbn [obind]. pose proof (count_bounds max w g L x c Hi Hf Hx).
    rewrite (left_alone w x c Hx) by (done || lia). cbn [obind].
    destruct (IH (l1 ++ [x]) fuel) as (again & w' & E & Hw); [by rewrite <- app_assoc|intros y Hy; apply HL; by right|cbn in Hfu; lia|].
    exists again, w'. split; [done|]. destruct again; [done|]. destruct Hw as [-> Hw]. split; [done|].
    intros y d [->|Hy]%elem_of_cons Hd; [congruence|by eapply Hw].
Qed.

Lemma cleaned_refl w g L : xinv max w g L → calm w → cleaned w g w g.
Proof. intros Hi Hc. split; [by eexists|done|done|done|by left]. Qed.

(** No transport of a partition is idle. *)
Definition busy (w : xworld) (p : nat) : Prop := ∀ y c, xprts w !! y = Some c → part (xp_fd c) = p → is_idle c = false.

Lemma part_ok p : (p < Z.to_nat SVC_XPRT_PARTITIONS)%nat → ∀ restarts w g L, xinv max w g L → calm w → Zlen (refs g) < 2 ^ 31 - 3 →
  ∃ ok w' g', foreach_part clean restarts w p = Ret (ok, w') ∧ cleaned w g w' g' ∧ (ok = true → busy w' p).
Proof.
  intros Hp. induction restarts as [|restarts IH]; intros w g L Hi Hc Hf; cbn [foreach_part].
  { exists false, w, g. split; [done|]. split; [by eapply cleaned_refl|done]. }
  destruct (lookup_lt_is_Some_2 (xtrees w) p) as [t Et]; [by rewrite (tb_len _ _ _ (xi_tables _ _ _ _ Hi))|].
  destruct (tb_table _ _ _ (xi_tables _ _ _ _ Hi) p t Et) as (l & Hl & HL & _). rewrite Et. cbn [access obind].
  rewrite (table_first _ t l Hl). cbn [obind].
  destruct (walk_ok w g L p t Hi Hc Hf Et l [] (size (rb_nodes t)) Hl) as (again & w' & -> & Hw); [intros y Hy; by apply HL|by eapply table_size|].
  cbn [obind]. destruct again.
  - destruct Hw as (g' & Hcl). destruct (cl_inv _ _ _ _ Hcl) as [L' Hi'].
    destruct (IH w' g' L' Hi' (cl_calm _ _ _ _ Hcl)) as (ok & w2 & g2 & E & Hcl2 & Hb); [by rewrite (cl_refs _ _ _ _ Hcl)|].
    exists ok, w2, g2. split; [done|]. split; [by eapply cleaned_trans|done].
  - destruct Hw as [-> Hw]. exists true, w, g. split; [done|]. split; [by eapply cleaned_refl|]. intros _ y c Hy Hpy.
    apply not_true_iff_false. intros Hid. destruct (idle_linked max w g L y c now timeout Hi Hy Hid) as (_ & HyL & _).
    rewrite (Hw y c) in Hid; [done| |done]. apply HL. split; [done|]. by exists c.
Qed.

(** Cleaning leaves a partition that has nothing idle as it is. *)
Lemma busy_kept w g w' g' p : cleaned w g w' g' → busy w p → busy w' p.
Proof.
  intros Hcl Hb y c' Hy Hp. destruct (cl_dom _ _ _ _ Hcl y) as [c Hc]; [by eexists|]. destruct (cl_each _ _ _ _ Hcl y c Hc) as [E|(Hid & d & Hd & Hde)].
  - apply (Hb y); [congruence|done].
  - assert (d = c') as -> by congruence. by eapply destroyed_busy.
Qed.

Lemma parts_ok ps : Forall (λ p, p < Z.to_nat SVC_XPRT_PARTITIONS)%nat ps → ∀ w g L, xinv max w g L → calm w → Zlen (refs g) < 2 ^ 31 - 3 →
  ∃ code w' g', foreach_parts clean ps w = Ret (code, w') ∧ cleaned w g w' g' ∧ (code = 0 ∨ code = 1) ∧
    (code = 0 → ∀ p, p ∈ ps → busy w' p).
Proof.
  induction 1 as [|p ps Hp _ IH]; intros w g L Hi Hc Hf; cbn [foreach_parts].
  { exists 0, w, g. split; [done|]. split; [by eapply cleaned_refl|]. split; [by left|]. intros _ p Hp. by apply not_elem_of_nil in Hp. }
  destruct (part_ok p Hp 5 w g L Hi Hc Hf) as (ok & w1 & g1 & -> & Hcl & Hb). cbn [obind].
  destruct ok; [|exists 1, w1, g1; split; [done|]; split; [done|]; split; [by right|done]].
  destruct (cl_inv _ _ _ _ Hcl) as [L1 Hi1].
  destruct (IH w1 g1 L1 Hi1 (cl_calm _ _ _ _ Hcl)) as (code & w2 & g2 & E & Hcl2 & Hcode & Hb2); [by rewrite (cl_refs _ _ _ _ Hcl)|].
  exists code, w2, g2. split; [done|]. split; [by eapply cleaned_trans|]. split; [done|].
  intros H0 q [->|Hq]%elem_of_cons; [|by apply Hb2]. eapply busy_kept; [done|by apply Hb].
Qed.
End Clean.

(** C34. Cleaning up: on a server that is in any state a history of its threads leads to, with
    no thread at work meanwhile, the walk through the table that destroys idle transports
    ends.  It destroys transports that are idle and no others: a transport that is not idle
    stays as it is; one that is destroyed loses the reference the table held, and only the
    references of callers keep it in memory.  If the walk returns 0 every idle transport has
    been destroyed. *)
Theorem idle_cleaned max now timeout w g : 0 ≤ max < 2 ^ 32 - 1 → rtc (xstep max) (svc_xprt_init, xghost_init) (w, g) → calm w →
  Zlen (refs g) < 2 ^ 31 - 3 →
  ∃ code w', svc_xprt_foreach (svc_rqst_clean_func now timeout) w = Ret (code, w') ∧ (code = 0 ∨ code = 1) ∧
    (∀ x c, xprts w !! x = Some c → xprt_idle now timeout c = false → xprts w' !! x = Some c) ∧
    (∀ x c, xprts w !! x = Some c → xprt_idle now timeout c = true →
       xprts w' !! x = Some c ∧ code = 1 ∨ ∃ c', xprts w' !! x = Some c' ∧ destroyed c c' ∧ xp_refcnt c' = occ x (refs g)).
Proof.
  intros Hmax Hr Hc Hf. destruct (xreach_inv max w g Hmax Hr) as [L Hi].
  assert (Hps : Forall (λ p, p < Z.to_nat SVC_XPRT_PARTITIONS)%nat (seq 0 (Z.to_nat SVC_XPRT_PARTITIONS))).
  { apply Forall_forall. intros p Hp. apply elem_of_seq in Hp. lia. }
  destruct (parts_ok max now timeout Hmax _ Hps w g L Hi Hc Hf) as (code & w' & g' & E & Hcl & Hcode & Hb).
  exists code, w'. split; [exact E|]. split; [done|]. split.
  - intros x c Hx Hid. destruct (cl_each _ _ _ _ _ _ _ Hcl x c Hx) as [?|[Hid' _]]; [done|congruence].
  - intros x c Hx Hid. destruct (idle_linked max w g L x c now timeout Hi Hx Hid) as (Hst & _ & _).
    destruct (cl_each _ _ _ _ _ _ _ Hcl x c Hx) as [Hx'|(_ & c' & Hx' & Hd)].
    + left. split; [done|]. destruct Hcode as [-> | ->]; [|done]. exfalso. assert (Hin : part (xp_fd c) ∈ seq 0 (Z.to_nat SVC_XPRT_PARTITIONS)).
      { apply elem_of_seq. pose proof (part_lt (xp_fd c)). lia. }
      by rewrite (Hb eq_refl _ Hin x c Hx' eq_refl) in Hid.
    + right. exists c'. split; [done|]. split; [done|]. rewrite (de_count _ _ Hd). destruct (xi_each _ _ _ _ Hi _ _ Hx) as (st & Hst' & [Hn _ _ _ _ _ _]).
      assert (st = Linked) as -> by congruence. rewrite Hn. cbn. lia.
Qed.

(** The transport for the descriptor 5, without a lock held, seen at second 9. *)
Definition at_five : svcxprt := mk_xprt 5 (-1) SVC_XPRT_FLAG_INITIAL 3 2 true None false 9.

Lemma server_xprts : xprts a_server.1 = {[16 := at_five]}.
Proof. vm_compute. reflexivity. Qed.

Lemma clean_code : match svc_xprt_foreach (svc_rqst_clean_func 100 60) a_server.1 with Ret (code, _) => code = 0 | _ => False end.
Proof. vm_compute. reflexivity. Qed.

Lemma idle_cleaned_witness : ∃ w' c', svc_xprt_foreach (svc_rqst_clean_func 100 60) a_server.1 = Ret (0, w') ∧
  xprts w' !! 16 = Some c' ∧ destroying c' = true ∧ xp_refcnt c' = 2.
Proof.
  assert (Hx : xprts a_server.1 !! 16 = Some at_five) by (rewrite server_xprts; apply lookup_singleton_eq).
  assert (Hc : calm a_server.1).
  { intros y c. rewrite server_xprts. intros [_ <-]%lookup_singleton_Some. split; vm_compute; reflexivity. }
  assert (Hr : refs a_server.2 = [16; 16]) by (vm_compute; reflexivity).
  assert (Hreach : rtc (xstep 100) (svc_xprt_init, xghost_init) (a_server.1, a_server.2)) by (rewrite <- surjective_pairing; apply a_server_reached).
  destruct (idle_cleaned 100 100 60 a_server.1 a_server.2 ltac:(lia) Hreach Hc) as (code & w' & E & _ & _ & Hd); [rewrite Hr; vm_compute; reflexivity|].
  pose proof clean_code as H0. rewrite E in H0. subst code.
  destruct (Hd 16 at_five Hx) as [[_ H1]|(c' & Hx' & [_ Hf _ _] & Hn)]; [reflexivity|discriminate H1|].
  exists w', c'. split; [exact E|]. split; [exact Hx'|]. split; [exact Hf|]. rewrite Hn, Hr. reflexivity.
Defined.
